(* ===== verification/_CoqProject ===== *)
-Q . S2P
Prelude.v
Pfn.v
MemMap.v
PageAllocator.v
BuddyInvariant.v
BuddyChecker.v
BuddyCorrect.v
BuddyInit.v
BuddyWitness.v
Slab.v
SlabInvariant.v
SlabCorrect.v
SlabPages.v
SlabSize.v
VMemAllocator.v
VMem.v
VMemCorrect.v
VMemWalk.v
VMemMap.v
GeneralPurposeAllocator.v
GPCorrect.v
GPWitness.v
Newlib.v
Locks.v
Gthread.v
Future.v
FutureCorrect.v
FutureWhen.v
Timer.v
TimerCorrect.v
EarlyPageAllocator.v
Boot.v
BootCorrect.v
BootPages.v
BootMain.v
Checksum.v
NetIp.v
NetIpCorrect.v
NetEth.v
NetEthCorrect.v
IOBuf.v
RcuTable.v
RcuCorrect.v
RcuReader.v
PcbTable.v
PortPool.v
NetUdp.v
NetUdpCorrect.v
NetDhcp.v
NetDhcpCorrect.v
Messenger.v
MessengerCorrect.v
Virtio.v
VirtioCorrect.v
VirtioSafe.v
VirtioNet.v
VirtioNetCorrect.v
Ebb.v
EbbCorrect.v
EventManager.v
EventCorrect.v
RcuProtocol.v
RcuGrace.v
EventWitness.v
Tcp.v
TcpNet.v
TcpSeq.v
TcpSend.v
TcpRecv.v
TcpEdge.v
TcpWitness.v
TcpNetCorrect.v
TcpHandshake.v
TcpNetEdge.v
TcpHandler.v
