(* ===== verification/Prelude.v ===== *)
(** * EbbRT: a verification development

    EbbRT is a runtime for systems software: a library operating system for
    bare metal ("native", src/src/native), the code it shares with a Linux
    process ("hosted", src/src), and the glue of that process (src/src/hosted).
    This library models the native and the shared code as executable
    definitions, and proves what the parts promise each other.

    ** The program

    - Memory.  At boot [Main] reads the boot loader's memory map and the ACPI
      tables; the free ranges are kept by the early page allocator, from which
      the page tables and the descriptors of all pages are taken, and
      [PageAllocator::Init] carves the rest into the
      blocks of a buddy allocator per NUMA node.  Slab allocators, one per object size, take
      blocks from it and serve objects through caches per core and per node;
      the general purpose allocator (malloc) chooses a slab by size, or maps a
      large virtual region with 2 MB pages.  Virtual regions and page tables
      are components of their own.
    - Execution.  Each core runs events to completion, without preemption; an
      event can suspend itself and be activated from any core.  A token that
      goes round the cores defines the grace periods of RCU.  Futures connect
      events; locks and barriers are used below them; timers start events.
    - Ebbs (elastic building blocks) are objects known by a number; a table per
      core translates the number to the representative of the core.
    - Network.  The virtio driver hands received buffers to Ethernet, ARP, IP,
      ICMP, UDP and TCP, and sends what they give it.  DHCP configures the
      interface; the messenger sends messages between nodes over TCP.  RCU hash
      tables hold the ARP cache and the protocol control blocks; pools of
      numbers give out ports.

    ** Conventions

    A [w]-bit integer is a [Z], with the wrap-around written out ([u8] to
    [u64], [s32]).  Code that can fail returns [outcome]: a failed kassert,
    kabort, an exception, undefined behaviour, a deadlock and a loop that does
    not end are values of [fault], so that a theorem that says [= Ok ...] also
    says that none of these happens.  Code that interleaves with other cores, a
    device or the network is a step relation; its atomic steps are the atomic
    operations, the critical sections or the events of the source, as its file
    says, and memory is sequentially consistent.  Libraries that are not part
    of the sources (Boost.ICL, TBB, the containers of Boost) are type classes
    with their documented laws, each with an instance that shows that the laws
    can hold.  Applications, devices and readings of clocks are parameters or
    inputs.

    ** The files

    Memory:
    - Pfn: Pfn.h, Align.h, Fls.h, PMem.h; aligned blocks and their buddies.
    - MemMap: MemMap.h, the descriptor of each page and its address.
    - PageAllocator: PageAllocator.h and .cc, all of it, with the checker.
      BuddyInvariant, BuddyChecker, BuddyCorrect, BuddyInit and BuddyWitness
      prove that blocks are aligned, disjoint and fully coalesced, that [Free]
      undoes [AllocLocal], and that no reachable state fails a check.
    - EarlyPageAllocator: EarlyPageAllocator.h and .cc; ranges stay disjoint
      and sorted, and cover what was freed minus what was reserved.
    - Slab: SlabAllocator.h and .cc.  SlabInvariant, SlabCorrect: objects are
      disjoint and in one place, for any page allocator that keeps
      [PageSourceOk]; SlabPages: the buddy allocator keeps it; SlabSize: the
      arithmetic of slab sizes.
    - VMemAllocator: VMemAllocator.h and .cc, the map of virtual regions.
    - VMem, VMemCorrect: VMem.h, VMem.cc, Trans.cc; entries of page tables and
      the traversal that covers a range of pages exactly.  VMemWalk: the page
      walk of the processor; VMemMap: the mapping functions change its result
      for the pages they are asked to map and for no other.
    - Boot: E820, Multiboot, Numa, the tables of Acpi.cc, the processors of
      Cpu.cc, the boot loop of MemMap.cc, and how Main.cc composes them.
      BootCorrect: the free pages and the page tables are the usable memory
      above the kernel; BootPages: nodes, descriptors and the hand-over to the
      page allocator; BootMain: both together, and a machine that boots.
    - GeneralPurposeAllocator, GPCorrect, GPWitness: the allocators together;
      Newlib: malloc and its relatives in Newlib.cc.
    Execution:
    - Locks: SpinLock.h, SpinBarrier.h, the mutexes of Gthread.cc; Gthread: the
      rest of Gthread.cc and the locks of Newlib.cc.
    - EventManager: EventManager.h and .cc.  EventCorrect: stacks are used by
      one context at a time; RcuProtocol: the token protocol as an abstract
      machine, which is safe; RcuGrace: the event manager refines it, so that
      grace periods are respected; EventWitness: concrete runs.
    - Future, FutureCorrect, FutureWhen: Future.h; no future is lost, each is
      fulfilled once, values have the type of their future.
    - Timer, TimerCorrect: Timer.cc and Timer.h.
    - Ebb, EbbCorrect: EbbRef.h, MulticoreEbb.h, MulticoreEbbStatic.h,
      SharedEbb.h, StaticSharedEbb.h, EbbAllocator.cc, LocalIdMap.cc, Hash.h.
    Data structures:
    - IOBuf: IOBuf.h, IOBuf.cc, UniqueIOBuf.cc, IOBufRef.cc, with every link.
    - RcuTable: RcuList.h and RcuTable.h as sequences of stores; RcuCorrect:
      each is an operation on lists of nodes and atomic for readers; RcuReader:
      a reader among writers.  PcbTable: the interface [Table] that the network
      uses, implemented by the hash table.
    - PortPool: SharedPoolAllocator.h on the interface of Boost.ICL.
    Network:
    - Virtio, VirtioCorrect, VirtioSafe: the ring of Virtio.h shared with a
      device.  VirtioNet, VirtioNetCorrect: VirtioNet.cc.
    - Checksum: NetChecksum.cc, with the carry flag of the assembly.
    - NetEth, NetEthCorrect: NetEth.cc and Net.cc; NetIp, NetIpCorrect:
      NetIp.cc and NetIcmp.cc; NetUdp, NetUdpCorrect: NetUdp.cc, up to the path
      of a datagram between two nodes.
    - Tcp: the connections of NetTcp.cc.  TcpSeq: sequence numbers; TcpSend: no
      byte is lost before it is acknowledged; TcpRecv: the application gets the
      stream in order; TcpEdge, TcpWitness.  TcpNet, TcpNetCorrect,
      TcpHandshake, TcpNetEdge: the tables of connections, and the handshake of
      two nodes.  TcpHandler: NetTcpHandler.h.
    - NetDhcp, NetDhcpCorrect: NetDhcp.cc.
    - Messenger, MessengerCorrect: Messenger.cc and Message.cc.

    ** Theorems

    Each component has an invariant that its operations keep, theorems on what
    each operation does on every branch, and examples on concrete states.
    Refinement theorems relate components to abstract machines
    ([EventManager_refines_protocol]) and interfaces to implementations
    (SlabPages, PcbTable), and the page tables to the processor's walk
    ([MapMemory_correct], [boot_correct]).  Theorems named after a fault ([stale_write_flag],
    [activation_blocks_rcu] and others) state what the code does where it
    departs from its comments or from what it is for; their examples are
    concrete runs.

    ** Fuel and bounds

    Loops that are not structural take fuel, and a theorem shows that the fuel
    given is enough: walks of lists take one more than the number of nodes, the
    chain of descriptors of virtio the size of the table, the split and merge
    loops of the buddy allocator the number of orders, the traversal of page
    tables the four levels, a poll of the network device two rounds.  The
    theorems on TCP streams cover the first 2^31 bytes of a connection, within
    which a sequence number determines a position.

    ** Not modelled

    - Start-up code and hardware: Boot.S, Isr.S, descriptor tables, interrupt
      controllers, start of the other cores.  These are assembly and writes to
      registers that no other part of the code reads.
    - ACPICA, the interpreter that finds the ACPI tables, is not part of the
      sources; of the layer that it calls, what stops the kernel or forwards to
      I/O ports.
    - Console, trace, performance counters: output only.
    - memcpy, memset and memchr in assembly: the models use their meaning.
    - The distributed runtime's messages and the libraries in src/libs that
      forward requests in them: Cap'n Proto and the code generated from the
      .capnp files are not part of the sources.
    - The hosted runtime: each operation is a call of Boost.Asio, of
      Boost.Coroutine, or of docker and qemu commands.
    - The applications, the vendored lwip and ZooKeeper code, the build.
    Of modelled components: locks that protect a whole operation are the
    atomicity of its step; relaxed memory orders are not modelled; the flush of
    the TLB and the output of diagnostics are left out. *)

From Stdlib Require Export ZArith Lia Bool.
From stdpp Require Export base list gmap sets strings.

Declare Scope ebbrt_scope.
Delimit Scope ebbrt_scope with ebbrt.
Open Scope Z_scope.

Create HintDb ebbrt discriminated.

(** ** Machine integers *)

(** A [w]-bit unsigned value is a [Z] in [0, 2^w); arithmetic wraps. *)
Definition wrap (w z : Z) : Z := z mod 2 ^ w.
Definition u8 (z : Z) : Z := wrap 8 z.
Definition u16 (z : Z) : Z := wrap 16 z.
Definition u32 (z : Z) : Z := wrap 32 z.
Definition u64 (z : Z) : Z := wrap 64 z.

(** The cast of an unsigned 32-bit value to [int32_t]. *)
Definition s32 (z : Z) : Z :=
  let v := u32 z in if v <? 2 ^ 31 then v else v - 2 ^ 32.

Definition in_u (w z : Z) : Prop := 0 <= z < 2 ^ w.

(** ** Outcomes of code that can fail *)

Inductive fault :=
| AssertFailed              (* kassert, kbugon or assert *)
| UndefinedBehaviour        (* out-of-range access, bad iterator *)
| Aborted                   (* kabort *)
| Deadlock                  (* a core takes a spin lock that it holds *)
| Diverges                  (* a loop that never ends *)
| Thrown (what : string).   (* a C++ exception *)

Inductive outcome (A : Type) :=
| Ok (a : A)
| Fail (f : fault).
Arguments Ok {A} a.
Arguments Fail {A} f.

#[export] Instance outcome_ret : MRet outcome := fun A a => Ok a.
#[export] Instance outcome_bind : MBind outcome := fun A B f m =>
  match m with Ok a => f a | Fail e => Fail e end.
#[export] Instance outcome_fmap : FMap outcome := fun A B f m =>
  match m with Ok a => Ok (f a) | Fail e => Fail e end.

(** [kassert(b)]. *)
Definition kassert (b : bool) : outcome unit :=
  if b then Ok tt else Fail AssertFailed.

(** Reading through a pointer that must not be null. *)
Definition deref {A} (o : option A) : outcome A :=
  match o with Some a => Ok a | None => Fail AssertFailed end.

Lemma bind_ok {A B} (m : outcome A) (k : A -> outcome B) b :
  (m ≫= k) = Ok b <-> exists a, m = Ok a /\ k a = Ok b.
Proof.
  destruct m as [a|f]; cbn; split; [by exists a | by intros (? & [= ->] & ?) | done | by intros (? & ? & ?)].
Qed.

Lemma bind_Ok {A B} (a : A) (k : A -> outcome B) : (Ok a ≫= k) = k a.
Proof. done. Qed.

Lemma Ok_inj {A} (a b : A) : Ok a = Ok b -> a = b.
Proof. by intros [=]. Qed.

Lemma kassert_ok b u : kassert b = Ok u <-> b = true.
Proof. destruct u, b; cbn; naive_solver. Qed.

(** ** Tactics *)

(** Case analysis on the scrutinee of a [match] or [if] in the goal. *)
Ltac case_goal :=
  match goal with
  | |- context [match ?x with _ => _ end] =>
      lazymatch x with
      | context [match _ with _ => _ end] => fail
      | _ => destruct x eqn:?
      end
  end.

(** Reflect boolean tests of the code into propositions. *)
Ltac bool_to_prop :=
  repeat match goal with
  | H : andb _ _ = true |- _ => apply andb_true_iff in H; destruct H
  | H : orb _ _ = false |- _ => apply orb_false_iff in H; destruct H
  | H : negb _ = true |- _ => apply negb_true_iff in H
  | H : negb _ = false |- _ => apply negb_false_iff in H
  | H : (_ <? _)%Z = true |- _ => apply Z.ltb_lt in H
  | H : (_ <? _)%Z = false |- _ => apply Z.ltb_ge in H
  | H : (_ <=? _)%Z = true |- _ => apply Z.leb_le in H
  | H : (_ <=? _)%Z = false |- _ => apply Z.leb_gt in H
  | H : (_ =? _)%Z = true |- _ => apply Z.eqb_eq in H
  | H : (_ =? _)%Z = false |- _ => apply Z.eqb_neq in H
  | H : (_ <? _)%nat = true |- _ => apply Nat.ltb_lt in H
  | H : (_ <? _)%nat = false |- _ => apply Nat.ltb_ge in H
  | H : (_ <=? _)%nat = true |- _ => apply Nat.leb_le in H
  | H : (_ <=? _)%nat = false |- _ => apply Nat.leb_gt in H
  | H : (_ =? _)%nat = true |- _ => apply Nat.eqb_eq in H
  | H : (_ =? _)%nat = false |- _ => apply Nat.eqb_neq in H
  | H : bool_decide _ = true |- _ => apply bool_decide_eq_true in H
  | H : bool_decide _ = false |- _ => apply bool_decide_eq_false in H
  end.

(** Decompose a successful monadic run. *)
Ltac run_ok :=
  repeat match goal with
  | H : (_ ≫= _) = Ok _ |- _ => apply bind_ok in H; destruct H as (? & ? & ?)
  | H : kassert _ = Ok _ |- _ => apply kassert_ok in H
  | H : Ok _ = Ok _ |- _ => injection H as H; subst
  | H : Fail _ = Ok _ |- _ => discriminate H
  end.

(** ** Generic lemmas *)

Lemma wrap_range w z : 0 <= w -> in_u w (wrap w z).
Proof. intros. apply Z.mod_pos_bound, Z.pow_pos_nonneg; lia. Qed.

Lemma wrap_small w z : in_u w z -> wrap w z = z.
Proof. apply Z.mod_small. Qed.

Lemma u64_small z : 0 <= z < 2 ^ 64 -> u64 z = z.
Proof. apply Z.mod_small. Qed.
Lemma u32_small z : 0 <= z < 2 ^ 32 -> u32 z = z.
Proof. apply Z.mod_small. Qed.
Lemma u16_small z : 0 <= z < 2 ^ 16 -> u16 z = z.
Proof. apply Z.mod_small. Qed.

Lemma pow2_pos k : 0 <= k -> 0 < 2 ^ k.
Proof. intros. apply Z.pow_pos_nonneg; lia. Qed.

(** Placing [b] above the low [k] bits. *)
Lemma lor_shiftl a b k : 0 <= k -> 0 <= a < 2 ^ k -> Z.lor a (Z.shiftl b k) = a + b * 2 ^ k.
Proof.
  intros Hk Ha. rewrite Z.shiftl_mul_pow2 by done.
  assert (Z.land a (b * 2 ^ k) = 0) as Hl.
  { apply Z.bits_inj'. intros j Hj. rewrite Z.land_spec, Z.bits_0.
    destruct (decide (j < k)); [by rewrite Z.mul_pow2_bits_low by lia; apply andb_false_r |].
    rewrite <- (Z.mod_small a (2 ^ k)), Z.mod_pow2_bits_high by lia. done. }
  rewrite <- Z.lxor_lor by done. symmetry. by apply Z.add_nocarry_lxor.
Qed.

#[export] Hint Resolve wrap_range pow2_pos : ebbrt.
