(* ===== verification/Pfn.v ===== *)
(** * Page frame numbers, alignment and bit scans

    Models src/src/native/Pfn.h, src/src/Align.h, src/src/native/Fls.h and
    src/src/native/PMem.h, with the theory of naturally aligned power-of-two
    blocks ("buddies") that the page and slab allocators rely on. *)

From S2P Require Import Prelude.

(** ** Constants of PMem.h *)

Definition kPageShift : Z := 12.
Definition kPageSize : Z := Z.shiftl 1 kPageShift.
Definition kLargePageShift : Z := 21.
Definition kLargePageSize : Z := Z.shiftl 1 kLargePageShift.

(** ** align::Down and align::Up

    [~(alignment - 1)] is sign-extended to the width of [val], which is what
    the infinite two's complement of [Z.lnot] gives. *)

Definition AlignDown (val alignment : Z) : Z := Z.land val (Z.lnot (alignment - 1)).
Definition AlignUp (val alignment : Z) : Z := AlignDown (u64 (val + alignment - 1)) alignment.

(** ** class Pfn: a 64-bit frame number *)

Definition PfnNone : Z := 2 ^ 64 - 1.
Definition PfnUp (addr : Z) : Z := Z.shiftr (u64 (addr + kPageSize - 1)) kPageShift.
Definition PfnDown (addr : Z) : Z := Z.shiftr addr kPageShift.
Definition PfnLDown (addr : Z) : Z := Z.shiftr addr kLargePageShift.
Definition ToAddr (pfn : Z) : Z := u64 (Z.shiftl pfn kPageShift).
Definition ToLAddr (pfn : Z) : Z := u64 (Z.shiftl pfn kLargePageShift).
Definition PfnAdd (pfn n : Z) : Z := u64 (pfn + n).
Definition PfnSub (lhs rhs : Z) : Z := u64 (lhs - rhs).

(** ** Bit scans: undefined on zero, on the truncated operand *)

Definition builtin_clz (x : Z) : outcome Z :=
  if u32 x =? 0 then Fail UndefinedBehaviour else Ok (31 - Z.log2 (u32 x)).

Fixpoint pos_ctz (p : positive) : nat :=
  match p with xO p => S (pos_ctz p) | _ => O end.

Definition builtin_ctz (x : Z) : outcome nat :=
  match u32 x with
  | Zpos p => Ok (pos_ctz p)
  | _ => Fail UndefinedBehaviour
  end.

Definition Fls (word : Z) : outcome Z :=
  if u64 word =? 0 then Fail UndefinedBehaviour
  else Ok (63 - (63 - Z.log2 (u64 word))).

(** ** Power-of-two blocks *)

(** [1 << order] pages. *)
Definition block_size (k : nat) : Z := 2 ^ Z.of_nat k.
Definition aligned (k : nat) (p : Z) : Prop := p mod block_size k = 0.
Definition in_block (p : Z) (k : nat) (x : Z) : Prop := p <= x < p + block_size k.
Definition blocks_disjoint (p : Z) (k : nat) (q : Z) (j : nat) : Prop :=
  p + block_size k <= q \/ q + block_size j <= p.

(** [PageAllocator::PfnToBuddy]. *)
Definition PfnToBuddy (pfn : Z) (order : nat) : Z :=
  Z.lxor pfn (Z.shiftl 1 (Z.of_nat order)).

#[export] Instance aligned_dec k p : Decision (aligned k p).
Proof. unfold aligned. apply _. Defined.
#[export] Instance in_block_dec p k x : Decision (in_block p k x).
Proof. unfold in_block. apply _. Defined.

(** ** Alignment lemmas *)

Lemma AlignDown_pow2 v k : 0 <= k -> AlignDown v (2 ^ k) = v - v mod 2 ^ k.
Proof.
  intros Hk. unfold AlignDown.
  replace (2 ^ k - 1) with (Z.ones k) by (rewrite Z.ones_equiv; lia).
  rewrite <- Z.ldiff_land, Z.ldiff_ones_r by lia.
  rewrite Z.shiftl_mul_pow2, Z.shiftr_div_pow2 by lia.
  pose proof (Z.div_mod v (2 ^ k)). pose proof (pow2_pos k Hk). lia.
Qed.

Lemma AlignUp_pow2 v k :
  0 <= k -> 0 <= v -> v + 2 ^ k - 1 < 2 ^ 64 ->
  exists d, AlignUp v (2 ^ k) = d /\ d mod 2 ^ k = 0 /\ v <= d < v + 2 ^ k.
Proof.
  intros Hk Hv Hb. eexists; split; [reflexivity |]. unfold AlignUp.
  pose proof (pow2_pos k Hk).
  unfold u64. rewrite wrap_small by (unfold in_u; lia). rewrite AlignDown_pow2 by lia.
  pose proof (Z.mod_pos_bound (v + 2 ^ k - 1) (2 ^ k)).
  split; [| lia].
  rewrite Zminus_mod, Zmod_mod, Z.sub_diag. apply Z.mod_0_l. lia.
Qed.

Lemma PfnDown_ToAddr p : 0 <= p < 2 ^ 52 -> PfnDown (ToAddr p) = p.
Proof.
  intros. unfold PfnDown, ToAddr, u64, kPageShift.
  rewrite Z.shiftl_mul_pow2 by lia. rewrite wrap_small by (unfold in_u; lia).
  rewrite Z.shiftr_div_pow2 by lia. apply Z.div_mul. lia.
Qed.

Lemma ToAddr_eq p : 0 <= p < 2 ^ 52 -> ToAddr p = p * kPageSize.
Proof.
  intros. unfold ToAddr, u64, kPageSize, kPageShift.
  rewrite !Z.shiftl_mul_pow2 by lia. rewrite wrap_small by (unfold in_u; lia). lia.
Qed.

(** ** Block lemmas *)

Lemma block_size_pos k : 0 < block_size k.
Proof. apply pow2_pos. lia. Qed.

Lemma block_size_S k : block_size (S k) = 2 * block_size k.
Proof. unfold block_size. rewrite Nat2Z.inj_succ, Z.pow_succ_r; lia. Qed.

Lemma block_size_add k j : block_size (k + j) = block_size k * block_size j.
Proof. unfold block_size. rewrite Nat2Z.inj_add, Z.pow_add_r; lia. Qed.

Lemma block_size_le j k : (j <= k)%nat -> block_size j <= block_size k.
Proof. intros. unfold block_size. apply Z.pow_le_mono_r; lia. Qed.

Lemma block_size_lt j k : (j < k)%nat -> 2 * block_size j <= block_size k.
Proof. intros. rewrite <- block_size_S. apply block_size_le. lia. Qed.

Lemma aligned_mul k p : aligned k p <-> exists m, p = m * block_size k.
Proof.
  unfold aligned. pose proof (block_size_pos k). rewrite Z.mod_divide by lia. reflexivity.
Qed.

Lemma aligned_mono j k p : (j <= k)%nat -> aligned k p -> aligned j p.
Proof.
  intros Hjk. rewrite !aligned_mul. intros [m ->].
  exists (m * block_size (k - j)).
  replace k with ((k - j) + j)%nat at 1 by lia. rewrite block_size_add. lia.
Qed.

Lemma aligned_add k p n : aligned k p -> aligned k n -> aligned k (p + n).
Proof. rewrite !aligned_mul. intros [a ->] [b ->]. exists (a + b). lia. Qed.

Lemma aligned_size k : aligned k (block_size k).
Proof. apply aligned_mul. exists 1. lia. Qed.

Lemma aligned_0 p : aligned 0 p.
Proof. apply aligned_mul. exists p. unfold block_size. cbn. lia. Qed.

Lemma aligned_gap k p q : aligned k p -> aligned k q -> p < q -> p + block_size k <= q.
Proof.
  rewrite !aligned_mul. intros [a ->] [b ->] Hlt. pose proof (block_size_pos k).
  assert (a < b) by (apply (Z.mul_lt_mono_pos_r (block_size k)); lia).
  replace (a * block_size k + block_size k) with ((a + 1) * block_size k) by lia.
  apply Z.mul_le_mono_pos_r; lia.
Qed.

Lemma in_block_self p k : in_block p k p.
Proof. pose proof (block_size_pos k). unfold in_block. lia. Qed.

(** Two naturally aligned blocks that share a page are nested. *)
Lemma aligned_nested p k q j x :
  aligned k p -> aligned j q -> (j <= k)%nat ->
  in_block p k x -> in_block q j x ->
  p <= q /\ q + block_size j <= p + block_size k.
Proof.
  intros Hp Hq Hjk Hx Hy. apply (aligned_mono j k) in Hp as Hpj; [| done].
  apply aligned_mul in Hpj as [a Ha], Hq as [b Hb].
  assert (exists s, block_size k = s * block_size j) as [s Hs].
  { exists (block_size (k - j)). rewrite <- block_size_add. f_equal. lia. }
  pose proof (block_size_pos j). unfold in_block in *. subst.
  rewrite Hs in *. assert (a <= b < a + s) by nia. nia.
Qed.

Lemma aligned_overlap_eq p q k x :
  aligned k p -> aligned k q -> in_block p k x -> in_block q k x -> p = q.
Proof.
  intros Hp Hq Hx Hy.
  pose proof (aligned_nested p k q k x Hp Hq (le_n _) Hx Hy).
  pose proof (aligned_nested q k p k x Hq Hp (le_n _) Hy Hx). lia.
Qed.

Lemma blocks_disjoint_spec p k q j :
  blocks_disjoint p k q j <-> (forall x, in_block p k x -> in_block q j x -> False).
Proof.
  unfold blocks_disjoint, in_block.
  pose proof (block_size_pos k). pose proof (block_size_pos j). split.
  - intros ? x. lia.
  - intros Hx. destruct (decide (p + block_size k <= q)); [by left |].
    destruct (decide (q + block_size j <= p)); [by right |].
    exfalso. apply (Hx (Z.max p q)); lia.
Qed.

Lemma blocks_disjoint_sym p k q j : blocks_disjoint p k q j <-> blocks_disjoint q j p k.
Proof. unfold blocks_disjoint. tauto. Qed.

(** ** Buddies *)

Lemma PfnToBuddy_eq p k :
  0 <= p -> aligned k p ->
  PfnToBuddy p k = if Z.even (p / block_size k) then p + block_size k else p - block_size k.
Proof.
  intros H0 Hp. apply aligned_mul in Hp as [m ->]. pose proof (block_size_pos k).
  rewrite Z.div_mul by lia. unfold PfnToBuddy.
  replace (Z.lxor (m * block_size k) (Z.shiftl 1 (Z.of_nat k)))
    with (Z.lxor m 1 * block_size k).
  2: { unfold block_size. rewrite <- !Z.shiftl_mul_pow2 by lia.
       rewrite Z.shiftl_lxor. done. }
  assert (Z.lxor m 1 = if Z.even m then m + 1 else m - 1) as ->.
  { assert (0 <= m) by nia. destruct m as [|q|q]; [done | | lia]. destruct q; reflexivity. }
  destruct (Z.even m); lia.
Qed.

Section Buddy.
Context (p : Z) (k : nat).
Hypothesis (Hpos : 0 <= p) (Hal : aligned k p).

Lemma buddy_cases :
  (aligned (S k) p /\ PfnToBuddy p k = p + block_size k) \/
  (aligned (S k) (p - block_size k) /\ PfnToBuddy p k = p - block_size k /\
   block_size k <= p).
Proof.
  rewrite PfnToBuddy_eq by done. pose proof (block_size_pos k).
  apply aligned_mul in Hal as [m Hm]. rewrite Hm, Z.div_mul by lia.
  destruct (Z.even m) eqn:E.
  - left. split; [| lia]. apply Z.even_spec in E as [a ->].
    apply aligned_mul. exists a. rewrite block_size_S. lia.
  - right. assert (Z.odd m = true) as O by (rewrite <- Z.negb_even, E; done).
    apply Z.odd_spec in O as [a ->]. assert (0 <= a) by nia. split; [| nia].
    apply aligned_mul. exists a. rewrite block_size_S. lia.
Qed.

Lemma buddy_nonneg : 0 <= PfnToBuddy p k.
Proof. pose proof (block_size_pos k). destruct buddy_cases as [[? ->]|(? & -> & ?)]; lia. Qed.

Lemma buddy_aligned : aligned k (PfnToBuddy p k).
Proof.
  destruct buddy_cases as [[? ->]|(H & -> & ?)].
  - apply aligned_add; [done | apply aligned_size].
  - by apply (aligned_mono k (S k)); [lia |].
Qed.

Lemma buddy_min_aligned : aligned (S k) (Z.min p (PfnToBuddy p k)).
Proof.
  pose proof (block_size_pos k).
  destruct buddy_cases as [[? ->]|(? & -> & ?)].
  - by rewrite Z.min_l by lia.
  - by rewrite Z.min_r by lia.
Qed.

(** A block and its buddy partition the parent block. *)
Lemma buddy_parent x :
  in_block (Z.min p (PfnToBuddy p k)) (S k) x <->
  in_block p k x \/ in_block (PfnToBuddy p k) k x.
Proof.
  unfold in_block. rewrite block_size_S. pose proof (block_size_pos k).
  destruct buddy_cases as [[? ->]|(? & -> & ?)]; lia.
Qed.

Lemma buddy_disjoint : blocks_disjoint p k (PfnToBuddy p k) k.
Proof.
  unfold blocks_disjoint. pose proof (block_size_pos k).
  destruct buddy_cases as [[? ->]|(? & -> & ?)]; lia.
Qed.

Lemma buddy_neq : PfnToBuddy p k <> p.
Proof.
  pose proof (block_size_pos k). destruct buddy_cases as [[? ->]|(? & -> & ?)]; lia.
Qed.

(** Any aligned block of a larger order that contains one half contains both. *)
Lemma buddy_same_ancestor q j :
  aligned j q -> (k < j)%nat -> in_block q j p -> forall x, in_block (PfnToBuddy p k) k x -> in_block q j x.
Proof.
  intros Hq Hkj Hin x Hx.
  assert (in_block (Z.min p (PfnToBuddy p k)) (S k) p) as Hm
    by (apply buddy_parent; left; apply in_block_self).
  pose proof (aligned_nested q j _ (S k) p Hq buddy_min_aligned Hkj Hin Hm).
  assert (in_block (Z.min p (PfnToBuddy p k)) (S k) x) as Hm' by (apply buddy_parent; by right).
  unfold in_block in *. lia.
Qed.

Lemma buddy_lower : aligned (S k) p -> PfnToBuddy p k = p + block_size k.
Proof.
  intros Hs. destruct buddy_cases as [[? ->]|(H & -> & ?)]; [done | exfalso].
  pose proof (block_size_pos k). apply aligned_mul in Hs as [a Ha], H as [b Hb].
  rewrite block_size_S in *.
  assert (block_size k * (2 * (a - b) - 1) = 0) as [|]%Z.mul_eq_0 by lia; lia.
Qed.
End Buddy.

Lemma buddy_invol p k : 0 <= p -> aligned k p -> PfnToBuddy (PfnToBuddy p k) k = p.
Proof.
  intros. unfold PfnToBuddy. rewrite Z.lxor_assoc, Z.lxor_nilpotent. apply Z.lxor_0_r.
Qed.

(** ** Bit scans *)

Lemma pos_ctz_aligned p : aligned (pos_ctz p) (Zpos p) /\ ~ aligned (S (pos_ctz p)) (Zpos p).
Proof.
  induction p as [p IH|p IH|]; cbn [pos_ctz].
  - split; [apply aligned_0 |]. rewrite aligned_mul. intros [m Hm].
    rewrite block_size_S in Hm. unfold block_size in Hm. cbn in Hm. lia.
  - rewrite !aligned_mul in *. destruct IH as [[m Hm] Hn]. split.
    + exists m. rewrite block_size_S. lia.
    + intros [m' Hm']. apply Hn. exists m'. rewrite block_size_S in Hm'. lia.
  - split; [apply aligned_0 |]. rewrite aligned_mul. intros [m Hm].
    rewrite block_size_S in Hm. unfold block_size in Hm. cbn in Hm. lia.
Qed.

Lemma builtin_ctz_spec x :
  0 < x < 2 ^ 32 -> exists n, builtin_ctz x = Ok n /\ aligned n x /\ ~ aligned (S n) x.
Proof.
  intros Hx. unfold builtin_ctz, u32. rewrite wrap_small by (unfold in_u; lia).
  destruct x as [|p|p]; try lia. exists (pos_ctz p). split; [done | apply pos_ctz_aligned].
Qed.

Lemma builtin_clz_log2 x : 0 < x < 2 ^ 32 -> builtin_clz x = Ok (31 - Z.log2 x).
Proof.
  intros Hx. unfold builtin_clz, u32. rewrite wrap_small by (unfold in_u; lia).
  destruct (Z.eqb_spec x 0); [lia | done].
Qed.

#[export] Hint Resolve block_size_pos in_block_self aligned_0 aligned_size : ebbrt.
