(* ===== verification/MemMap.v ===== *)
(** * The memory map: one [Page] descriptor per page frame

    Models src/src/native/MemMap.h: the [Page] descriptor, the per-section
    encoding of the descriptor array's address, and [PfnToPage].  The allocators
    use the descriptors through their frame number; [section_page_addr] and
    [section_page_disjoint] justify that view: inside a mapped section, the
    address computed by [GetPage] is that of a private slot of the array. *)

From S2P Require Import Prelude Pfn.

Definition kMaxPhysMemBits : Z := 46.
Definition kSectionSizeBits : Z := 27.
Definition kPfnSectionShift : Z := kSectionSizeBits - kPageShift.
Definition kPagesPerSection : Z := Z.shiftl 1 kPfnSectionShift.
Definition kPageSectionMask : Z := Z.lnot (kPagesPerSection - 1).
Definition kSectionsShift : Z := kMaxPhysMemBits - kSectionSizeBits.
Definition kSections : Z := Z.shiftl 1 kSectionsShift.

Inductive Usage := kReserved | kPageAllocator | kSlabAllocator | kInUse.
#[export] Instance Usage_eq_dec : EqDecision Usage.
Proof. solve_decision. Defined.

(** A [SlabCache*]: the cache of a core or of a node in a [SlabAllocatorRoot]. *)
Inductive cache_owner := OfCpu (i : nat) | OfNode (nid : Z).
Record cache_id := mkCacheId { cache_root : nat; owner : cache_owner }.
#[export] Instance cache_owner_eq_dec : EqDecision cache_owner.
Proof. solve_decision. Defined.
#[export] Instance cache_id_eq_dec : EqDecision cache_id.
Proof. solve_decision. Defined.
#[export] Instance cache_owner_countable : Countable cache_owner.
Proof.
  refine (inj_countable' (fun o => match o with OfCpu i => inl i | OfNode n => inr n end)
    (fun x => match x with inl i => OfCpu i | inr n => OfNode n end) _). by intros [].
Defined.
#[export] Instance cache_id_countable : Countable cache_id.
Proof.
  refine (inj_countable' (fun c => (cache_root c, owner c)) (fun p => mkCacheId p.1 p.2) _).
  by intros [].
Defined.

(** [Page::Data::SlabData]: the slab's own free list (addresses), the owning
    cache and the number of objects handed out. *)
Record SlabData := mkSlabData {
  slab_list : list Z;
  slab_cache : option cache_id;
  slab_used : Z
}.

(** [struct Page].  [order] and [slab_data] are members of a union: [order] is
    only read while [usage] is [kPageAllocator], and every write of
    [kPageAllocator] writes [order]. *)
Record Page := mkPage {
  usage : Usage;
  page_nid : Z;
  order : nat;
  slab_data : SlabData
}.

Definition new_Page (nid : Z) : Page := mkPage kReserved (u8 nid) 0 (mkSlabData [] None 0).
Definition set_usage (u : Usage) (p : Page) : Page :=
  mkPage u (page_nid p) (order p) (slab_data p).
Definition set_order (k : nat) (p : Page) : Page :=
  mkPage (usage p) (page_nid p) k (slab_data p).
Definition set_slab_data (d : SlabData) (p : Page) : Page :=
  mkPage (usage p) (page_nid p) (order p) d.

(** ** class Section: the encoded word [mem_map_] *)

Module Section_.

Definition kPresent : Z := 1.
Definition kHasMemMap : Z := 2.
Definition kMapMask : Z := Z.lnot 3.
Definition kNidShift : Z := 2.

Definition Present (w : Z) : bool := negb (Z.land w kPresent =? 0).
Definition MapAddr (w : Z) : Z := Z.land w kMapMask.
Definition Valid (w : Z) : bool := negb (MapAddr w =? 0).
Definition SetEarlyNid (nid : Z) : Z := u64 (Z.lor (Z.shiftl nid kNidShift) kPresent).
Definition EarlyNid (w : Z) : Z := Z.shiftr w kNidShift.

Section Layout.
(** [sizeof(Page)]. *)
Variable sizeofPage : Z.

(** The stored address is that of a descriptor for frame 0, so that [GetPage]
    indexes with the absolute frame number. *)
Definition SetMap (map_addr index : Z) : Z :=
  Z.lor (Z.lor (u64 (map_addr - index * kPagesPerSection * sizeofPage)) kPresent) kHasMemMap.

Definition GetPage (w pfn : Z) : Z := u64 (MapAddr w + pfn * sizeofPage).

(** [PfnToPage]: null unless the section is valid and present; indexing the
    section array out of range is undefined. *)
Definition PfnToPage (sections : list Z) (pfn : Z) : outcome (option Z) :=
  match sections !! Z.to_nat (Z.shiftr pfn kPfnSectionShift) with
  | None => Fail UndefinedBehaviour
  | Some w => Ok (if Valid w && Present w then Some (GetPage w pfn) else None)
  end.

End Layout.
End Section_.

(** ** The section encoding *)

Lemma land_lnot3 a : Z.land a (Z.lnot 3) = a - a mod 4.
Proof. apply (AlignDown_pow2 a 2). lia. Qed.

Lemma lor_low_bits a : a mod 4 = 0 -> Z.lor (Z.lor a 1) 2 = a + 3.
Proof.
  intros Ha. rewrite <- Z.lor_assoc. change (Z.lor 1 2) with 3.
  assert (Z.land a 3 = 0) as Hz by (change 3 with (Z.ones 2); by rewrite Z.land_ones).
  pose proof (Z.add_lor_land a 3). lia.
Qed.

Section SetMapFacts.
Context (sz map_addr index : Z).
Hypothesis (Hsz : 0 < sz) (Hal : map_addr mod 4 = 0).

Let enc := u64 (map_addr - index * kPagesPerSection * sz).

Lemma enc_mod4 : enc mod 4 = 0.
Proof.
  unfold enc, u64, wrap, kPagesPerSection, kPfnSectionShift, kSectionSizeBits, kPageShift.
  change (Z.shiftl 1 (27 - 12)) with (4 * 8192).
  rewrite Z.mod_mod_divide by (by exists (2 ^ 62)).
  replace (map_addr - index * (4 * 8192) * sz) with (map_addr + (- (index * 8192 * sz)) * 4) by lia.
  rewrite Z.mod_add by lia. done.
Qed.

Lemma SetMap_eq : Section_.SetMap sz map_addr index = enc + 3.
Proof. apply lor_low_bits, enc_mod4. Qed.

Lemma MapAddr_SetMap : Section_.MapAddr (Section_.SetMap sz map_addr index) = enc.
Proof.
  unfold Section_.MapAddr, Section_.kMapMask. rewrite SetMap_eq, land_lnot3.
  rewrite Z.add_mod, enc_mod4 by lia. change ((0 + 3 mod 4) mod 4) with 3. lia.
Qed.

Lemma Present_SetMap : Section_.Present (Section_.SetMap sz map_addr index) = true.
Proof.
  unfold Section_.Present, Section_.kPresent. rewrite SetMap_eq.
  assert (Z.land (enc + 3) 1 = 1) as ->; [| done].
  change 1 with (Z.ones 1) at 1. rewrite Z.land_ones by lia.
  pose proof enc_mod4 as E. rewrite Z.mod_eq in E by lia.
  replace (enc + 3) with (1 + (2 * (enc / 4) + 1) * 2) by lia. by rewrite Z.mod_add.
Qed.

Lemma GetPage_SetMap pfn :
  Section_.GetPage sz (Section_.SetMap sz map_addr index) pfn =
  u64 (map_addr + (pfn - index * kPagesPerSection) * sz).
Proof.
  unfold Section_.GetPage. rewrite MapAddr_SetMap. unfold enc, u64, wrap.
  rewrite Zplus_mod_idemp_l. f_equal. lia.
Qed.
End SetMapFacts.

Section Lookup.
Context (sz map_addr index : Z) (sections : list Z) (pfn : Z).
Hypothesis (Hsz : 0 < sz) (Hal : map_addr mod 4 = 0) (Hix : 0 <= index).
Hypothesis (Hfit : 0 <= map_addr /\ map_addr + kPagesPerSection * sz <= 2 ^ 64).
Hypothesis (Hsec : sections !! Z.to_nat index = Some (Section_.SetMap sz map_addr index)).
Hypothesis (Hpfn : index * kPagesPerSection <= pfn < (index + 1) * kPagesPerSection).

Lemma section_index : Z.shiftr pfn kPfnSectionShift = index.
Proof.
  change kPagesPerSection with (2 ^ kPfnSectionShift) in Hpfn.
  rewrite Z.shiftr_div_pow2 by done. symmetry.
  apply (Z.div_unique pfn (2 ^ kPfnSectionShift) index (pfn - index * 2 ^ kPfnSectionShift)).
  all: lia.
Qed.

(** The lookup of a frame of a mapped section: slot [pfn - first frame] of the
    section's array, unless the encoded base address happens to be null. *)
Lemma PfnToPage_section :
  Section_.PfnToPage sz sections pfn =
  Ok (if u64 (map_addr - index * kPagesPerSection * sz) =? 0 then None
      else Some (map_addr + (pfn - index * kPagesPerSection) * sz)).
Proof.
  unfold Section_.PfnToPage. rewrite section_index, Hsec.
  rewrite Present_SetMap, andb_true_r by done. unfold Section_.Valid.
  rewrite MapAddr_SetMap, GetPage_SetMap by done.
  destruct (_ =? 0); cbn [negb]; [done |]. do 2 f_equal.
  apply wrap_small. unfold in_u. nia.
Qed.
End Lookup.
