(* ===== verification/PageAllocator.v ===== *)
(** * The buddy page allocator

    Models src/src/native/PageAllocator.h and PageAllocator.cc: the per-node
    free lists, [AllocLocal] with its split loop, [Free] with its coalescing
    loop, the boot-time [Init] that carves free ranges into blocks, and the
    optional checker ([PAGE_CHECKER]: [Validate], [AllocateAndCheck],
    [Release]).  A block is a pair of a frame number and an order. *)

From S2P Require Import Prelude Pfn MemMap.

Definition kMaxOrder : nat := 11.
Definition kMaxAllocations : nat := Z.to_nat 10000.

(** ** State *)

(** [PageAllocator::Allocation] with its two comparison operators. *)
Record Allocation := mkAllocation { al_pfn : Z; npages : Z }.
#[export] Instance Allocation_eq_dec : EqDecision Allocation.
Proof. solve_decision. Defined.
Definition Allocation_eqb (a b : Allocation) : bool :=
  (al_pfn a =? al_pfn b) && (npages a =? npages b).
Definition Allocation_ltb (a b : Allocation) : bool :=
  PfnAdd (al_pfn a) (npages a) <=? al_pfn b.

(** One node's allocator.  A free list holds the frame numbers of its blocks,
    front first. *)
Record PageAllocator := mkPageAllocator {
  nid_ : Z;
  free_page_lists : list (list Z);
  allocations_ : list Allocation
}.

(** An allocator together with the global memory map it updates. *)
Record pstate := mkPstate { pa : PageAllocator; mem_map : gmap Z Page }.

Definition new_PageAllocator (nid : Z) : PageAllocator :=
  mkPageAllocator nid (replicate (S kMaxOrder) []) [].

Definition free_list (a : PageAllocator) (k : nat) : list Z :=
  default [] (free_page_lists a !! k).
Definition set_free_list (k : nat) (l : list Z) (a : PageAllocator) : PageAllocator :=
  mkPageAllocator (nid_ a) (<[k := l]> (free_page_lists a)) (allocations_ a).
Definition set_allocations (l : list Allocation) (a : PageAllocator) : PageAllocator :=
  mkPageAllocator (nid_ a) (free_page_lists a) l.

(** [list.erase(list.iterator_to(entry))]: undefined unless the entry is
    linked in this very list. *)
Fixpoint list_erase (x : Z) (l : list Z) : outcome (list Z) :=
  match l with
  | [] => Fail UndefinedBehaviour
  | y :: l => if x =? y then Ok l else cons y <$> list_erase x l
  end.

(** All free blocks, in the order the lists are scanned. *)
Fixpoint tag_lists (k : nat) (ls : list (list Z)) : list (Z * nat) :=
  match ls with
  | [] => []
  | l :: ls => ((fun p => (p, k)) <$> l) ++ tag_lists (S k) ls
  end.
Definition free_blocks (a : PageAllocator) : list (Z * nat) := tag_lists 0 (free_page_lists a).

(** ** The PAGE_CHECKER functions *)

(** The overlap test of the inner loop of [Validate]. *)
Definition validate_conflict (pfn : Z) (i : nat) (other : Z * nat) : bool :=
  let '(other_pfn, j) := other in
  negb ((pfn =? other_pfn) && (i =? j)%nat) &&
  (((pfn <=? other_pfn) && (other_pfn <? PfnAdd pfn (block_size i))) ||
   ((other_pfn <=? pfn) && (pfn <? PfnAdd other_pfn (block_size j)))).

(** The outer loops of [Validate] with their early returns; a null descriptor
    is dereferenced unchecked there. *)
Fixpoint validate_entries (mm : gmap Z Page) (all entries : list (Z * nat)) : outcome bool :=
  match entries with
  | [] => Ok true
  | (pfn, i) :: rest =>
      match mm !! pfn with
      | None => Fail UndefinedBehaviour
      | Some page =>
          if negb (bool_decide (usage page = kPageAllocator)) then Ok false
          else if negb (order page =? i)%nat then Ok false
          else if existsb (validate_conflict pfn i) all then Ok false
          else validate_entries mm all rest
      end
  end.
Definition Validate (st : pstate) : outcome bool :=
  validate_entries (mem_map st) (free_blocks (pa st)) (free_blocks (pa st)).

(** [std::lower_bound]: position of the first element not ordered before [v]. *)
Fixpoint lower_bound (l : list Allocation) (v : Allocation) : nat :=
  match l with
  | [] => 0
  | e :: l => if Allocation_ltb e v then S (lower_bound l v) else 0
  end.

Definition AllocateAndCheck (a : PageAllocator) (pfn : Z) (order : nat) :
    outcome (bool * PageAllocator) :=
  let allocation := mkAllocation pfn (block_size order) in
  let it := lower_bound (allocations_ a) allocation in
  match allocations_ a !! it with
  | Some e => if negb (Allocation_ltb allocation e) then Ok (false, a) else
      if (length (allocations_ a) <? kMaxAllocations)%nat then
        Ok (true, set_allocations (take it (allocations_ a) ++ allocation :: drop it (allocations_ a)) a)
      else Fail (Thrown "bad_alloc")
  | None =>
      if (length (allocations_ a) <? kMaxAllocations)%nat then
        Ok (true, set_allocations (take it (allocations_ a) ++ allocation :: drop it (allocations_ a)) a)
      else Fail (Thrown "bad_alloc")
  end.

Fixpoint erase_allocation (v : Allocation) (l : list Allocation) : option (list Allocation) :=
  match l with
  | [] => None
  | e :: l => if Allocation_eqb e v then Some l else cons e <$> erase_allocation v l
  end.
Definition Release (a : PageAllocator) (pfn : Z) (order : nat) : bool * PageAllocator :=
  match erase_allocation (mkAllocation pfn (block_size order)) (allocations_ a) with
  | None => (false, a)
  | Some l => (true, set_allocations l a)
  end.

(** ** Allocation and freeing on one node *)

Definition FreePageNoCoalesce (st : pstate) (pfn : Z) (k : nat) : outcome pstate :=
  if (kMaxOrder <? k)%nat then Fail UndefinedBehaviour else
  page ← deref (mem_map st !! pfn);
  Ok (mkPstate (set_free_list k (pfn :: free_list (pa st) k) (pa st))
               (<[pfn := set_order k (set_usage kPageAllocator page)]> (mem_map st))).

(** The search loop of [AllocLocal]: the first list from [this_order] up that
    has a block below [max_addr].  At most [kMaxOrder + 1] lists are visited. *)
Fixpoint AllocSearch (fuel : nat) (a : PageAllocator) (this_order : nat) (max_addr : Z) :
    option (Z * nat * PageAllocator) :=
  match fuel with
  | O => None
  | S fuel =>
      if (this_order <=? kMaxOrder)%nat then
        match list_find (fun p => ToAddr p < max_addr) (free_list a this_order) with
        | Some (i, fp) =>
            Some (fp, this_order, set_free_list this_order (delete i (free_list a this_order)) a)
        | None => AllocSearch fuel a (S this_order) max_addr
        end
      else None
  end.

(** The split loop: [n = this_order - order] iterations, each freeing the
    upper half of what is left. *)
Fixpoint AllocSplit (n : nat) (st : pstate) (fp : Z) (order : nat) : outcome pstate :=
  match n with
  | O => Ok st
  | S n =>
      st ← FreePageNoCoalesce st (PfnToBuddy fp (order + n)) (order + n);
      AllocSplit n st fp order
  end.

(** The coalescing loop of [Free]: at most [kMaxOrder] iterations. *)
Fixpoint FreeCoalesce (fuel : nat) (st : pstate) (pfn : Z) (k : nat) :
    outcome (pstate * Z * nat) :=
  match fuel with
  | O => Ok (st, pfn, k)
  | S fuel =>
      if (k <? kMaxOrder)%nat then
        let buddy := PfnToBuddy pfn k in
        match mem_map st !! buddy with
        | None => Ok (st, pfn, k)
        | Some page =>
            if negb (bool_decide (usage page = kPageAllocator)) || negb (order page =? k)%nat
            then Ok (st, pfn, k)
            else
              l ← list_erase buddy (free_list (pa st) k);
              FreeCoalesce fuel (mkPstate (set_free_list k l (pa st)) (mem_map st))
                (Z.min pfn buddy) (S k)
        end
      else Ok (st, pfn, k)
  end.

Section Config.
(** Whether PAGE_CHECKER is defined. *)
Variable page_checker : bool.

Definition check_valid (st : pstate) : outcome unit :=
  if page_checker then b ← Validate st; kassert b else Ok tt.

Definition AllocLocal (st : pstate) (k : nat) (max_addr : Z) : outcome (Z * pstate) :=
  match AllocSearch (S kMaxOrder) (pa st) k max_addr with
  | None => Ok (PfnNone, st)
  | Some (fp, this_order, a) =>
      st ← AllocSplit (this_order - k) (mkPstate a (mem_map st)) fp k;
      page ← deref (mem_map st !! fp);
      let st := mkPstate (pa st) (<[fp := set_usage kInUse page]> (mem_map st)) in
      if page_checker then
        '(b, a) ← AllocateAndCheck (pa st) fp k;
        _ ← kassert b;
        let st := mkPstate a (mem_map st) in
        _ ← check_valid st;
        Ok (fp, st)
      else Ok (fp, st)
  end.

Definition Free (st : pstate) (pfn : Z) (k : nat) : outcome pstate :=
  st ← (if page_checker then
          let '(b, a) := Release (pa st) pfn k in
          _ ← kassert b; Ok (mkPstate a (mem_map st))
        else Ok st);
  _ ← kassert (k <=? kMaxOrder)%nat;
  '(st, pfn, k) ← FreeCoalesce kMaxOrder st pfn k;
  st ← FreePageNoCoalesce st pfn k;
  _ ← check_valid st;
  Ok st.

End Config.

(** ** All nodes *)

(** The static vector [allocators], indexed by node, and the memory map. *)
Record system := mkSystem { allocators : list PageAllocator; sys_map : gmap Z Page }.

(** Run a method of [allocators\[i\]]. *)
Definition on_allocator {A} (sys : system) (i : Z) (f : pstate -> outcome (A * pstate)) :
    outcome (A * system) :=
  match (if i <? 0 then None else allocators sys !! Z.to_nat i) with
  | None => Fail UndefinedBehaviour
  | Some a =>
      '(r, st) ← f (mkPstate a (sys_map sys));
      Ok (r, mkSystem (<[Z.to_nat i := pa st]> (allocators sys)) (mem_map st))
  end.

(** [Alloc] called on the allocator [allocators\[self\]]. *)
Definition Alloc (page_checker : bool) (sys : system) (self : nat) (k : nat) (nid max_addr : Z) :
    outcome (Z * system) :=
  match allocators sys !! self with
  | None => Fail UndefinedBehaviour
  | Some a =>
      if nid =? nid_ a
      then on_allocator sys (Z.of_nat self) (fun st => AllocLocal page_checker st k max_addr)
      else on_allocator sys nid (fun st => AllocLocal page_checker st k max_addr)
  end.

(** ** Boot: carving a free range into blocks *)

Definition EarlyFreePage (st : pstate) (start : Z) (k : nat) : outcome pstate :=
  _ ← kassert (k <=? kMaxOrder)%nat;
  let a := set_free_list k (start :: free_list (pa st) k) (pa st) in
  page ← deref (mem_map st !! start);
  Ok (mkPstate a (<[start := set_order k (set_usage kPageAllocator page)]> (mem_map st))).

(** First loop: up to [divide], by the alignment of the current frame. *)
Fixpoint InitLower (fuel : nat) (st : pstate) (pfn divide : Z) : outcome pstate :=
  if pfn =? divide then Ok st else
  match fuel with
  | O => Fail Aborted
  | S fuel =>
      _ ← kassert (pfn <? divide);
      order ← builtin_ctz pfn;
      let order := Nat.min order kMaxOrder in
      st ← EarlyFreePage st pfn order;
      InitLower fuel st (PfnAdd pfn (block_size order)) divide
  end.

(** Second loop: up to [end_], by the size of what is left. *)
Fixpoint InitUpper (fuel : nat) (st : pstate) (pfn end_ : Z) : outcome pstate :=
  if pfn =? end_ then Ok st else
  match fuel with
  | O => Fail Aborted
  | S fuel =>
      _ ← kassert (pfn <? end_);
      clz ← builtin_clz (PfnSub end_ pfn);
      let order := Nat.min (Z.to_nat (32 - clz - 1)) kMaxOrder in
      st ← EarlyFreePage st pfn order;
      InitUpper fuel st (PfnAdd pfn (block_size order)) end_
  end.

(** The lambda passed to [ReleaseFreePages].  Every iteration of either loop
    frees at least one page, so the range's length bounds the iterations. *)
Definition InitRange (st : pstate) (start end_ : Z) : outcome pstate :=
  _ ← kassert (negb (PfnSub end_ start =? 0));
  clz ← builtin_clz (PfnSub end_ start);
  let shift := 32 - clz - 1 in
  if 31 <=? shift then Fail UndefinedBehaviour else
  let divide := AlignUp start (Z.shiftl 1 shift) in
  st ← InitLower (Z.to_nat (end_ - start)) st start divide;
  InitUpper (Z.to_nat (end_ - start)) st divide end_.

Fixpoint InitRanges (sys : system) (ranges : list (Z * Z * Z)) : outcome system :=
  match ranges with
  | [] => Ok sys
  | (start, end_, nid) :: ranges =>
      '(_, sys) ← on_allocator sys nid (fun st => st ← InitRange st start end_; Ok (tt, st));
      InitRanges sys ranges
  end.

Fixpoint validate_all (mm : gmap Z Page) (l : list PageAllocator) : outcome unit :=
  match l with
  | [] => Ok tt
  | a :: l => b ← Validate (mkPstate a mm); _ ← kassert b; validate_all mm l
  end.

(** [PageAllocator::Init]: one allocator per NUMA node, then the free ranges
    released by the early allocator as (start, end, nid) triples. *)
Definition Init (page_checker : bool) (nodes : nat) (mm : gmap Z Page)
    (ranges : list (Z * Z * Z)) : outcome system :=
  sys ← InitRanges (mkSystem ((fun i => new_PageAllocator (Z.of_nat i)) <$> seq 0 nodes) mm) ranges;
  _ ← (if page_checker then validate_all (sys_map sys) (allocators sys) else Ok tt);
  Ok sys.
