(* ===== verification/BuddyInvariant.v ===== *)
(** * The buddy allocator's invariant

    Every page the allocator manages is in exactly one block: a free one, an
    allocated one, or one held by the running operation.  The descriptors of
    the memory map say which blocks are free, except for stale tags strictly
    inside larger blocks.  Each primitive step of [AllocLocal] and [Free] is
    shown to move blocks between these three classes. *)

From S2P Require Import Prelude Pfn MemMap PageAllocator.

Abbreviation block := (Z * nat)%type.

Definition block_in (b : block) (x : Z) : Prop := in_block b.1 b.2 x.
Definition bdisj (b c : block) : Prop := blocks_disjoint b.1 b.2 c.1 c.2.

(** Pairwise disjoint blocks. *)
Fixpoint separated (bs : list block) : Prop :=
  match bs with
  | [] => True
  | b :: bs => Forall (bdisj b) bs /\ separated bs
  end.

(** The frames of a block are real 52-bit frame numbers and it is naturally
    aligned. *)
Definition wf_block (b : block) : Prop :=
  0 <= b.1 /\ b.1 + block_size b.2 <= 2 ^ 52 /\ aligned b.2 b.1 /\ (b.2 <= kMaxOrder)%nat.

(** ** Separation is invariant under permutation *)

Lemma bdisj_sym b c : bdisj b c <-> bdisj c b.
Proof. apply blocks_disjoint_sym. Qed.

Lemma bdisj_spec b c : bdisj b c <-> (forall x, block_in b x -> block_in c x -> False).
Proof. apply blocks_disjoint_spec. Qed.

Lemma bdisj_irrefl b : ~ bdisj b b.
Proof. unfold bdisj, blocks_disjoint. pose proof (block_size_pos b.2). lia. Qed.

#[export] Instance separated_perm : Proper ((≡ₚ) ==> iff) separated.
Proof.
  assert (forall l1 l2, l1 ≡ₚ l2 -> separated l1 -> separated l2) as H.
  { induction 1 as [|b l1 l2 Hp IH|b c l|l1 l2 l3 _ IH1 _ IH2]; cbn; auto.
    - intros [? ?]. split; [| auto]. by rewrite <- Hp.
    - rewrite !Forall_cons. intros [[? ?] [? ?]]. by rewrite bdisj_sym. }
  intros l1 l2 Hp. split; apply H; [done | by symmetry].
Qed.

Lemma separated_cons b bs : separated (b :: bs) <-> Forall (bdisj b) bs /\ separated bs.
Proof. done. Qed.

Lemma separated_elem b c bs : separated bs -> b ∈ bs -> c ∈ bs -> b = c \/ bdisj b c.
Proof.
  induction bs as [|a bs IH]; cbn; [set_solver |].
  intros [Ha Hs]. rewrite Forall_forall in Ha. rewrite !elem_of_cons.
  intros [->|Hb] [->|Hc]; auto. right. apply bdisj_sym. auto.
Qed.

Lemma separated_overlap b c bs x :
  separated bs -> b ∈ bs -> c ∈ bs -> block_in b x -> block_in c x -> b = c.
Proof.
  intros Hs Hb Hc ? ?. destruct (separated_elem b c bs Hs Hb Hc) as [|D]; [done |].
  rewrite bdisj_spec in D. naive_solver.
Qed.

Lemma separated_NoDup bs : separated bs -> NoDup bs.
Proof.
  induction bs as [|b bs IH]; cbn; [constructor |]. intros [Ha ?]. constructor; [| auto].
  rewrite Forall_forall in Ha. intros Hin. eapply bdisj_irrefl, Ha, Hin.
Qed.

(** ** The free lists as a list of blocks *)

Abbreviation tagged k l := ((fun p : Z => (p, k : nat)) <$> l).

Lemma tag_lists_insert k0 ls i l l' :
  ls !! i = Some l ->
  tag_lists k0 (<[i := l']> ls) ++ tagged (k0 + i)%nat l ≡ₚ tag_lists k0 ls ++ tagged (k0 + i)%nat l'.
Proof.
  revert k0 i. induction ls as [|m ls IH]; intros k0 i Hi; [done |].
  destruct i as [|i]; cbn in *.
  - injection Hi as ->. rewrite Nat.add_0_r, !(Permutation_app_comm (_ ++ _)).
    rewrite !app_assoc. by rewrite (Permutation_app_comm (tagged _ l)).
  - rewrite <- !app_assoc. f_equiv.
    replace (k0 + S i)%nat with (S k0 + i)%nat by lia. by apply IH.
Qed.

Lemma tag_lists_elem k0 ls p k :
  (p, k) ∈ tag_lists k0 ls <-> exists l, (k0 <= k)%nat /\ ls !! (k - k0)%nat = Some l /\ p ∈ l.
Proof.
  revert k0. induction ls as [|m ls IH]; intros k0; cbn.
  - split; [set_solver |]. intros (? & ? & ? & ?). done.
  - rewrite elem_of_app, list_elem_of_fmap, IH. split.
    + intros [(q & [= <- <-] & ?)|(l & Hk & Hl & ?)].
      * exists m. rewrite Nat.sub_diag. done.
      * exists l. split_and!; [lia | | done]. by replace (k - k0)%nat with (S (k - S k0)) by lia.
    + intros (l & Hk & Hl & Hp). destruct (decide (k = k0)) as [->|].
      * left. rewrite Nat.sub_diag in Hl. injection Hl as ->. eauto.
      * right. exists l. split_and!; [lia | | done].
        replace (k - k0)%nat with (S (k - S k0)) in Hl by lia. done.
Qed.

Section Lists.
Context (a : PageAllocator).
Hypothesis (Hlen : length (free_page_lists a) = S kMaxOrder).

Lemma free_list_lookup k : (k <= kMaxOrder)%nat -> free_page_lists a !! k = Some (free_list a k).
Proof.
  intros Hk. unfold free_list.
  destruct (free_page_lists a !! k) eqn:E; [done |].
  apply lookup_ge_None in E. lia.
Qed.

Lemma free_blocks_set k l' :
  (k <= kMaxOrder)%nat ->
  free_blocks (set_free_list k l' a) ++ tagged k (free_list a k) ≡ₚ free_blocks a ++ tagged k l'.
Proof. intros Hk. apply (tag_lists_insert 0 _ k). by apply free_list_lookup. Qed.

Lemma free_blocks_push k p :
  (k <= kMaxOrder)%nat ->
  free_blocks (set_free_list k (p :: free_list a k) a) ≡ₚ (p, k) :: free_blocks a.
Proof.
  intros Hk. apply (Permutation_app_inv_r (tagged k (free_list a k))).
  rewrite free_blocks_set by done. cbn. by rewrite <- Permutation_middle.
Qed.

Lemma free_blocks_remove k p l :
  (k <= kMaxOrder)%nat -> free_list a k ≡ₚ p :: l ->
  free_blocks a ≡ₚ (p, k) :: free_blocks (set_free_list k l a).
Proof.
  intros Hk Hl. apply (Permutation_app_inv_r (tagged k l)).
  rewrite <- (free_blocks_set k l Hk). rewrite Hl. cbn. by rewrite <- Permutation_middle.
Qed.

Lemma free_blocks_elem p k : (p, k) ∈ free_blocks a <-> p ∈ free_list a k /\ (k <= kMaxOrder)%nat.
Proof.
  unfold free_blocks. rewrite tag_lists_elem. setoid_rewrite Nat.sub_0_r. split.
  - intros (l & _ & Hl & ?). assert (k < S kMaxOrder)%nat.
    { rewrite <- Hlen. by eapply lookup_lt_Some. }
    rewrite free_list_lookup in Hl by lia. naive_solver lia.
  - intros [? ?]. exists (free_list a k). rewrite free_list_lookup by done. auto with lia.
Qed.

Lemma set_free_list_len k l : length (free_page_lists (set_free_list k l a)) = S kMaxOrder.
Proof. cbn. by rewrite length_insert. Qed.
End Lists.

Lemma list_erase_ok p l : p ∈ l -> exists l', list_erase p l = Ok l' /\ l ≡ₚ p :: l'.
Proof.
  induction l as [|q l IH]; [set_solver |]. rewrite elem_of_cons. cbn.
  destruct (Z.eqb_spec p q) as [->|]; [eauto |].
  intros [|(l' & -> & Hp)%IH]; [done |]. exists (q :: l'). split; [done |].
  rewrite Hp. apply perm_swap.
Qed.

(** ** The invariant *)

(** All blocks: free, allocated ([A]) and held by the running operation ([H]). *)
Definition blocks (A H : list block) (st : pstate) : list block :=
  free_blocks (pa st) ++ A ++ H.

Definition tagged_free (st : pstate) (p : Z) (k : nat) : Prop :=
  exists page, mem_map st !! p = Some page /\ usage page = kPageAllocator /\ order page = k.

(** A descriptor tagged free is the head of a free block, or stale: inside a
    larger block, or the head of a held one. *)
Definition tag_ok (A H : list block) (st : pstate) (p : Z) (k : nat) : Prop :=
  (p, k) ∈ free_blocks (pa st) \/
  (exists b, b ∈ blocks A H st /\ block_in b p /\ b.1 <> p) \/
  (exists b, b ∈ H /\ b.1 = p).

Record Inv (A H : list block) (st : pstate) : Prop := {
  inv_len : length (free_page_lists (pa st)) = S kMaxOrder;
  inv_wf : Forall wf_block (blocks A H st);
  inv_sep : separated (blocks A H st);
  inv_desc : forall p k, (p, k) ∈ free_blocks (pa st) -> tagged_free st p k;
  inv_mapped : forall b x, b ∈ blocks A H st -> block_in b x -> is_Some (mem_map st !! x);
  inv_tag : forall p k, tagged_free st p k -> tag_ok A H st p k
}.

(** The pages covered by a list of blocks. *)
Definition covers (bs : list block) (x : Z) : Prop := exists b, b ∈ bs /\ block_in b x.

Lemma covers_perm l1 l2 x : l1 ≡ₚ l2 -> covers l1 x <-> covers l2 x.
Proof. intros Hp. unfold covers. by setoid_rewrite Hp. Qed.

Lemma covers_cons b bs x : covers (b :: bs) x <-> block_in b x \/ covers bs x.
Proof. unfold covers. set_solver. Qed.

Lemma covers_app l1 l2 x : covers (l1 ++ l2) x <-> covers l1 x \/ covers l2 x.
Proof. unfold covers. set_solver. Qed.

(** The part of the invariant that only depends on the set of blocks. *)
Lemma blocks_inv_perm A H st A' H' st' :
  blocks A' H' st' ≡ₚ blocks A H st -> Inv A H st ->
  Forall wf_block (blocks A' H' st') /\ separated (blocks A' H' st').
Proof. intros -> I. split; apply I. Qed.

Lemma Inv_perm A A' H H' st : A ≡ₚ A' -> H ≡ₚ H' -> Inv A H st -> Inv A' H' st.
Proof.
  intros HA HH I. assert (blocks A' H' st ≡ₚ blocks A H st) as Hb
    by (unfold blocks; by rewrite HA, HH).
  destruct (blocks_inv_perm A H st A' H' st Hb I).
  constructor; try done; try apply I.
  - intros b x. rewrite Hb. apply I.
  - intros p k Ht. destruct (inv_tag _ _ _ I p k Ht) as [?|[?|?]].
    + by left.
    + right; left. by setoid_rewrite Hb.
    + right; right. by setoid_rewrite <- HH.
Qed.

#[export] Instance Inv_proper : Proper ((≡ₚ) ==> (≡ₚ) ==> (=) ==> iff) Inv.
Proof. intros A A' HA H H' HH st ? <-. split; by apply Inv_perm. Qed.

(** The checker's bookkeeping is independent of the block invariant. *)
Lemma Inv_set_allocations A H a mm l :
  Inv A H (mkPstate a mm) -> Inv A H (mkPstate (set_allocations l a) mm).
Proof. intros I. destruct I. by constructor. Qed.

(** ** Primitive steps *)

(** Unlinking a free block: it is held. *)
Lemma inv_take A H st k p l :
  Inv A H st -> (k <= kMaxOrder)%nat -> free_list (pa st) k ≡ₚ p :: l ->
  let st' := mkPstate (set_free_list k l (pa st)) (mem_map st) in
  Inv A ((p, k) :: H) st' /\ free_blocks (pa st) ≡ₚ (p, k) :: free_blocks (pa st').
Proof.
  intros I Hk Hl st'. pose proof (free_blocks_remove _ (inv_len _ _ _ I) k p l Hk Hl) as Hf.
  change (set_free_list k l (pa st)) with (pa st') in Hf. split; [| done].
  assert (blocks A ((p, k) :: H) st' ≡ₚ blocks A H st) as Hb.
  { unfold blocks. rewrite Hf. cbn. by rewrite <- !Permutation_middle. }
  destruct (blocks_inv_perm A H st _ _ _ Hb I). constructor; try done.
  - apply set_free_list_len, I.
  - intros q j Hq. apply (inv_desc _ _ _ I q j). rewrite Hf. by right.
  - intros b x. rewrite Hb. apply I.
  - intros q j Ht. destruct (inv_tag _ _ _ I q j Ht) as [Hq|[?|(b & ? & ?)]].
    + rewrite Hf, elem_of_cons in Hq. destruct Hq as [[= -> ->]|]; [| by left].
      right; right. exists (p, k). split; [by left | done].
    + right; left. by setoid_rewrite Hb.
    + right; right. exists b. split; [by right | done].
Qed.

(** Linking a held block into its free list. *)
Lemma inv_push A H st k p :
  Inv A ((p, k) :: H) st ->
  exists st', FreePageNoCoalesce st p k = Ok st' /\ Inv A H st' /\
    free_blocks (pa st') ≡ₚ (p, k) :: free_blocks (pa st) /\
    allocations_ (pa st') = allocations_ (pa st).
Proof.
  intros I. assert ((p, k) ∈ blocks A ((p, k) :: H) st) as Hin by (unfold blocks; set_solver).
  assert (wf_block (p, k)) as (_ & _ & _ & Hk) by (eapply Forall_forall; [apply I | done]).
  destruct (inv_mapped _ _ _ I (p, k) p Hin) as [page Hpage]; [apply in_block_self |].
  unfold FreePageNoCoalesce. cbn in Hk. destruct (Nat.ltb_spec kMaxOrder k); [lia |].
  rewrite Hpage. cbn. eexists. split; [done |].
  set (st' := mkPstate _ _).
  pose proof (free_blocks_push _ (inv_len _ _ _ I) k p Hk) as Hf.
  change (free_blocks (pa st') ≡ₚ (p, k) :: free_blocks (pa st)) in Hf.
  assert (blocks A H st' ≡ₚ blocks A ((p, k) :: H) st) as Hb.
  { unfold blocks. rewrite Hf. cbn. by rewrite <- !Permutation_middle. }
  destruct (blocks_inv_perm _ _ _ _ _ _ Hb I). split; [| done]. constructor; try done.
  - apply set_free_list_len, I.
  - intros q j. rewrite Hf, elem_of_cons. intros [[= -> ->]|Hq].
    + eexists. cbn. by rewrite lookup_insert_eq.
    + destruct (inv_desc _ _ _ I q j Hq) as (pg & ? & ? & ?). exists pg. cbn.
      rewrite lookup_insert_ne; [done |]. intros <-.
      assert ((p, j) = (p, k)) as [= ->].
      { apply (separated_overlap _ _ _ p (inv_sep _ _ _ I)); try apply in_block_self;
          [unfold blocks; set_solver | done]. }
      pose proof (separated_NoDup _ (inv_sep _ _ _ I)) as N. rewrite <- Hb in N.
      unfold blocks in N. rewrite Hf in N. cbn in N. apply NoDup_cons in N as [N _]. set_solver.
  - intros b x. rewrite Hb. intros Hb' Hx. cbn. rewrite lookup_insert_is_Some.
    destruct (decide (p = x)); [by left | right; split; [done |]]. by apply (inv_mapped _ _ _ I b).
  - intros q j (pg & Hq & Hu & Ho). cbn in Hq. rewrite lookup_insert in Hq. case_decide.
    + subst q. left. rewrite Hf. injection Hq as <-. cbn in Ho. subst. by left.
    + destruct (inv_tag _ _ _ I q j) as [?|[?|(b & Hb' & ?)]]; [by exists pg | | |].
      * left. rewrite Hf. by right.
      * right; left. by setoid_rewrite Hb.
      * rewrite elem_of_cons in Hb'. destruct Hb' as [->|]; [done |]. right; right. eauto.
Qed.

(** Marking a held block in use: it is allocated. *)
Lemma inv_commit A H st k p page :
  Inv A ((p, k) :: H) st -> mem_map st !! p = Some page ->
  Inv ((p, k) :: A) H (mkPstate (pa st) (<[p := set_usage kInUse page]> (mem_map st))).
Proof.
  intros I Hpage. set (st' := mkPstate _ _).
  assert (blocks ((p, k) :: A) H st' ≡ₚ blocks A ((p, k) :: H) st) as Hb.
  { unfold blocks. cbn. by rewrite <- !Permutation_middle. }
  destruct (blocks_inv_perm _ _ _ _ _ _ Hb I). constructor; try done; try apply I.
  - intros q j Hq. destruct (inv_desc _ _ _ I q j Hq) as (pg & ? & ? & ?). exists pg. cbn.
    rewrite lookup_insert_ne; [done |]. intros <-.
    assert ((p, j) = (p, k)) as [= ->].
    { apply (separated_overlap _ _ _ p (inv_sep _ _ _ I)); try apply in_block_self;
        unfold blocks; set_solver. }
    pose proof (separated_NoDup _ (inv_sep _ _ _ I)) as N.
    unfold blocks in N. rewrite <- !Permutation_middle in N. apply NoDup_cons in N as [N _].
    set_solver.
  - intros b x. rewrite Hb. intros Hb' Hx. cbn. rewrite lookup_insert_is_Some.
    destruct (decide (p = x)); [by left | right; split; [done |]]. by apply (inv_mapped _ _ _ I b).
  - intros q j (pg & Hq & Hu & Ho). cbn in Hq. rewrite lookup_insert in Hq. case_decide.
    + injection Hq as <-. done.
    + destruct (inv_tag _ _ _ I q j) as [?|[?|(b & Hb' & ?)]]; [by exists pg | | |].
      * by left.
      * right; left. by setoid_rewrite Hb.
      * rewrite elem_of_cons in Hb'. destruct Hb' as [->|]; [done |]. right; right. eauto.
Qed.

(** An allocated block handed back by its owner is held. *)
Lemma inv_release A H st b : Inv (b :: A) H st -> Inv A (b :: H) st.
Proof.
  intros I. assert (blocks A (b :: H) st ≡ₚ blocks (b :: A) H st) as Hb.
  { unfold blocks. cbn. by rewrite <- !Permutation_middle. }
  destruct (blocks_inv_perm _ _ _ _ _ _ Hb I). constructor; try done; try apply I.
  - intros c x. rewrite Hb. apply I.
  - intros q j Ht. destruct (inv_tag _ _ _ I q j Ht) as [?|[?|(c & ? & ?)]]; [by left | |].
    + right; left. by setoid_rewrite Hb.
    + right; right. exists c. split; [by right | done].
Qed.

(** Replacing held blocks by others that cover the same pages. *)
Lemma separated_app l1 l2 :
  separated (l1 ++ l2) <->
  separated l1 /\ separated l2 /\ (forall x, covers l1 x -> covers l2 x -> False).
Proof.
  induction l1 as [|b l1 IH]; cbn.
  - split; [intros ?; split_and!; [done | done |] | naive_solver].
    intros x (c & ? & _); set_solver.
  - rewrite IH, Forall_app, (Forall_forall (bdisj b) l2). setoid_rewrite covers_cons.
    setoid_rewrite bdisj_spec. unfold covers. split.
    + intros [[? Hb] (? & ? & Hd)]. split_and!; [done.. |].
      intros x [Hx|Hx] (c & Hc' & ?); [by apply (Hb c Hc' x) | by apply (Hd x); [| exists c]].
    + intros [[? ?] [? Hd]]. split_and!; [done | | done | done |].
      * intros c Hc' x ? ?. apply (Hd x); [by left | by exists c].
      * intros x ? ?. apply (Hd x); [by right | done].
Qed.

Lemma blocks_held_first A H st : blocks A H st ≡ₚ H ++ free_blocks (pa st) ++ A.
Proof. unfold blocks. rewrite app_assoc. apply Permutation_app_comm. Qed.

Lemma inv_held A H H' st :
  Inv A H st -> Forall wf_block H' -> separated H' ->
  (forall x, covers H' x <-> covers H x) -> Inv A H' st.
Proof.
  intros I Hwf Hsep Hcov.
  pose proof (inv_wf _ _ _ I) as W. pose proof (inv_sep _ _ _ I) as Sp.
  rewrite (blocks_held_first A H) in W, Sp. rewrite Forall_app in W. destruct W as [_ W].
  rewrite separated_app in Sp. destruct Sp as (_ & Sp & D).
  assert (forall b p, b ∈ H -> block_in b p ->
    (exists c, c ∈ blocks A H' st /\ block_in c p /\ c.1 <> p) \/
    (exists c, c ∈ H' /\ c.1 = p)) as Hdone.
  { intros b p Hb Hp. assert (covers H' p) as (c & ? & ?) by (apply Hcov; by exists b).
    destruct (decide (c.1 = p)); [right; by exists c |].
    left. exists c. rewrite blocks_held_first. set_solver. }
  constructor; try apply I.
  - by rewrite blocks_held_first, Forall_app.
  - rewrite blocks_held_first, separated_app. split_and!; [done | done |].
    intros x. rewrite Hcov. apply D.
  - intros b x Hb Hx. assert (covers (blocks A H st) x) as (c & ? & ?);
      [| by apply (inv_mapped _ _ _ I c)].
    assert (covers (blocks A H' st) x) as Hx' by (by exists b).
    rewrite (covers_perm _ _ x (blocks_held_first A H' st)), covers_app, Hcov, <- covers_app in Hx'.
    by rewrite (covers_perm _ _ x (blocks_held_first A H st)).
  - intros p k Ht.
    destruct (inv_tag _ _ _ I p k Ht) as [?|[(b & Hb & Hx & Hne)|(b & Hb & <-)]]; [by left | |].
    + rewrite (blocks_held_first A H), elem_of_app in Hb. destruct Hb as [Hb|Hb].
      * right. by apply (Hdone b).
      * right; left. exists b. rewrite blocks_held_first. set_solver.
    + right. apply (Hdone b); [done | apply in_block_self].
Qed.

(** Splitting a held block in two, and joining two held buddies. *)
Lemma inv_halve A H st p k :
  Inv A ((p, S k) :: H) st -> Inv A ((p, k) :: (PfnToBuddy p k, k) :: H) st.
Proof.
  intros I. pose proof (inv_wf _ _ _ I) as W. pose proof (inv_sep _ _ _ I) as Sp.
  rewrite blocks_held_first, Forall_app, Forall_cons in W.
  destruct W as [[(H0 & H1 & H2 & H3) W] _]. cbn in *.
  assert (aligned k p) as Hal by (by apply (aligned_mono k (S k)); [lia |]).
  pose proof (buddy_lower p k H0 Hal H2) as Hbud.
  pose proof (buddy_parent p k H0 Hal) as Hpar. rewrite Hbud in *.
  pose proof (block_size_pos k). rewrite Z.min_l in Hpar by lia. rewrite block_size_S in H1.
  rewrite blocks_held_first, separated_app in Sp. destruct Sp as ((Hd & Hs) & _ & _).
  rewrite Forall_forall in Hd.
  apply (inv_held A ((p, S k) :: H)); [done | | |].
  - rewrite !Forall_cons. unfold wf_block. cbn.
    split_and!; try lia; try done. apply aligned_add; [done | apply aligned_size].
  - cbn. rewrite Forall_cons, !Forall_forall. unfold bdisj, blocks_disjoint in *. cbn in *.
    rewrite block_size_S in Hd. split_and!; [lia | | | done].
    all: intros c Hc; specialize (Hd c Hc); pose proof (block_size_pos c.2); lia.
  - intros x. rewrite !covers_cons. specialize (Hpar x). unfold block_in. cbn. tauto.
Qed.

Lemma inv_join A H st p k :
  (k < kMaxOrder)%nat ->
  Inv A ((p, k) :: (PfnToBuddy p k, k) :: H) st ->
  Inv A ((Z.min p (PfnToBuddy p k), S k) :: H) st.
Proof.
  intros Hk I. pose proof (inv_wf _ _ _ I) as W. pose proof (inv_sep _ _ _ I) as Sp.
  rewrite blocks_held_first, Forall_app, !Forall_cons in W.
  destruct W as [[(H0 & H1 & H2 & H3) [(G0 & G1 & G2 & _) W]] _]. cbn in *.
  pose proof (buddy_parent p k H0 H2) as Hpar.
  pose proof (buddy_min_aligned p k H0 H2) as Hmin.
  pose proof (buddy_cases p k H0 H2) as Hcases.
  pose proof (block_size_pos k) as Hsz.
  rewrite blocks_held_first, separated_app in Sp. destruct Sp as (Sp & _ & _).
  cbn in Sp. rewrite Forall_cons, !Forall_forall in Sp. destruct Sp as ((_ & Hd) & Hd' & Hs).
  apply (inv_held A ((p, k) :: (PfnToBuddy p k, k) :: H)); [done | | |].
  - rewrite Forall_cons. unfold wf_block. cbn. rewrite block_size_S.
    split_and!; try done; try lia.
  - cbn. split; [| done]. rewrite Forall_forall. intros c Hc.
    apply bdisj_spec. intros x Hx Hx'. apply Hpar in Hx.
    specialize (Hd c Hc). specialize (Hd' c Hc). rewrite bdisj_spec in Hd, Hd'.
    destruct Hx; [by apply (Hd x) | by apply (Hd' x)].
  - intros x. rewrite !covers_cons. specialize (Hpar x). unfold block_in. cbn. tauto.
Qed.

(** A held block's buddy that is tagged free with the same order is free. *)
Lemma inv_buddy_tag A st p k :
  Inv A [(p, k)] st -> tagged_free st (PfnToBuddy p k) k -> PfnToBuddy p k ∈ free_list (pa st) k.
Proof.
  intros I Ht. assert ((p, k) ∈ blocks A [(p, k)] st) as Hp by (unfold blocks; set_solver).
  pose proof (inv_wf _ _ _ I) as W. rewrite Forall_forall in W.
  destruct (W _ Hp) as (H0 & H1 & H2 & H3). cbn in *.
  destruct (inv_tag _ _ _ I _ _ Ht) as [Hf|[(b & Hb & Hx & Hne)|(b & Hb & Heq)]].
  - by apply free_blocks_elem in Hf as [? _]; [| apply I].
  - exfalso. destruct (W _ Hb) as (B0 & _ & B2 & _). unfold block_in in Hx.
    pose proof (buddy_aligned p k H0 H2) as Hba. pose proof (buddy_nonneg p k H0 H2).
    destruct (decide (b.2 <= k)%nat) as [Hle|Hgt].
    + pose proof (aligned_nested _ k _ b.2 _ Hba B2 Hle (in_block_self _ k) Hx).
      unfold in_block in Hx. lia.
    + assert (in_block b.1 b.2 p) as Hpb.
      { apply (buddy_same_ancestor (PfnToBuddy p k) k) with (x := p); [done.. | lia | done |].
        rewrite buddy_invol by done. apply in_block_self. }
      assert (b = (p, k)) as ->
        by (apply (separated_overlap _ _ _ p (inv_sep _ _ _ I) Hb Hp Hpb); apply in_block_self).
      cbn in Hgt. lia.
  - exfalso. apply list_elem_of_singleton in Hb as ->. cbn in Heq. by apply (buddy_neq p k).
Qed.
