(* ===== verification/BuddyChecker.v ===== *)
(** * The page checker accepts every state the allocator can reach

    Facts on [Validate], [AllocateAndCheck] and [Release] of
    src/src/native/PageAllocator.cc: under the buddy invariant [Validate]
    returns true, and the checker's sorted table [allocations_] is exactly the
    set of allocated blocks. *)

From Stdlib Require Import Sorted.
From S2P Require Import Prelude Pfn MemMap PageAllocator BuddyInvariant.

Definition to_allocation (b : block) : Allocation := mkAllocation b.1 (block_size b.2).
Definition before (x y : Allocation) : Prop := Allocation_ltb x y = true.

(** The table is sorted and lists the allocated blocks. *)
Record Checked (A : list block) (a : PageAllocator) : Prop := {
  checked_sorted : StronglySorted before (allocations_ a);
  checked_perm : allocations_ a ≡ₚ to_allocation <$> A
}.

(** The full invariant: between operations no block is held. *)
Definition CInv (page_checker : bool) (A : list block) (st : pstate) : Prop :=
  Inv A [] st /\ (page_checker = true -> Checked A (pa st)).

Lemma CInv_perm pc A A' st : A ≡ₚ A' -> CInv pc A st -> CInv pc A' st.
Proof.
  intros HA [I C]. split; [by rewrite <- HA |]. intros Hpc. destruct (C Hpc) as [? Hp].
  constructor; [done |]. by rewrite Hp, HA.
Qed.

Lemma PfnAdd_wf b : wf_block b -> PfnAdd b.1 (block_size b.2) = b.1 + block_size b.2.
Proof.
  intros (? & ? & _). pose proof (block_size_pos b.2).
  unfold PfnAdd, u64. apply wrap_small. unfold in_u. lia.
Qed.

Lemma block_size_inj j k : block_size j = block_size k -> j = k.
Proof.
  intros E. destruct (Nat.lt_trichotomy j k) as [L|[|L]]; [| done |];
    apply block_size_lt in L; pose proof (block_size_pos j); pose proof (block_size_pos k); lia.
Qed.

Lemma to_allocation_inj b c : to_allocation b = to_allocation c -> b = c.
Proof. destruct b, c. intros [= -> E]. by apply block_size_inj in E as ->. Qed.

Lemma ltb_to_allocation b c :
  wf_block b -> Allocation_ltb (to_allocation b) (to_allocation c) = (b.1 + block_size b.2 <=? c.1).
Proof. intros W. unfold Allocation_ltb. cbn. by rewrite PfnAdd_wf. Qed.

Lemma bdisj_ltb b c :
  wf_block b -> wf_block c -> bdisj b c ->
  before (to_allocation b) (to_allocation c) \/ before (to_allocation c) (to_allocation b).
Proof.
  intros Wb Wc D. unfold before. rewrite !ltb_to_allocation, !Z.leb_le by done.
  unfold bdisj, blocks_disjoint in D. tauto.
Qed.

Lemma before_asym b c :
  wf_block b -> wf_block c -> before (to_allocation b) (to_allocation c) ->
  ~ before (to_allocation c) (to_allocation b).
Proof.
  unfold before. intros Wb Wc. rewrite !ltb_to_allocation, !Z.leb_le by done.
  pose proof (block_size_pos b.2). pose proof (block_size_pos c.2). lia.
Qed.

Lemma before_trans b c d :
  wf_block b -> wf_block c -> before (to_allocation b) (to_allocation c) ->
  before (to_allocation c) (to_allocation d) -> before (to_allocation b) (to_allocation d).
Proof.
  unfold before. intros Wb Wc. rewrite !ltb_to_allocation, !Z.leb_le by done.
  pose proof (block_size_pos c.2). lia.
Qed.

(** ** Validate *)

Lemma validate_conflict_wf b c :
  wf_block b -> wf_block c -> b = c \/ bdisj b c -> validate_conflict b.1 b.2 c = false.
Proof.
  intros Wb Wc Hbc. unfold validate_conflict. destruct c as [q j].
  pose proof (PfnAdd_wf (q, j) Wc) as Hq. cbn in Hq. rewrite (PfnAdd_wf b Wb), Hq.
  destruct Hbc as [->|D]; cbn.
  - by rewrite Z.eqb_refl, Nat.eqb_refl.
  - unfold bdisj, blocks_disjoint in D. cbn in D.
    pose proof (block_size_pos b.2). pose proof (block_size_pos j).
    apply andb_false_intro2, orb_false_iff.
    split; apply andb_false_iff; rewrite Z.leb_gt, Z.ltb_ge; lia.
Qed.

Lemma Validate_Inv A H st : Inv A H st -> Validate st = Ok true.
Proof.
  intros I. unfold Validate.
  assert (forall l, l ⊆ free_blocks (pa st) ->
    validate_entries (mem_map st) (free_blocks (pa st)) l = Ok true) as Hl; [| by apply Hl].
  pose proof (inv_wf _ _ _ I) as W. pose proof (inv_sep _ _ _ I) as S.
  unfold blocks in W. rewrite Forall_app in W. destruct W as [W _]. rewrite Forall_forall in W.
  induction l as [|[p k] l IH]; intros Hsub; [done |]. cbn.
  assert ((p, k) ∈ free_blocks (pa st)) as Hp by set_solver.
  destruct (inv_desc _ _ _ I p k Hp) as (pg & -> & -> & ->).
  rewrite bool_decide_true, Nat.eqb_refl by done. cbn.
  assert (existsb (validate_conflict p k) (free_blocks (pa st)) = false) as ->.
  { apply not_true_iff_false. rewrite existsb_exists. intros (c & Hc & Hv).
    apply list_elem_of_In in Hc.
    assert (validate_conflict p k c = false) as Hv'; [| congruence].
    apply (validate_conflict_wf (p, k) c); [auto | auto |].
    eapply separated_elem; [done | unfold blocks; set_solver ..]. }
  apply IH. set_solver.
Qed.

Lemma check_valid_Inv pc A H st : Inv A H st -> check_valid pc st = Ok tt.
Proof. intros I. unfold check_valid. destruct pc; [| done]. by rewrite (Validate_Inv _ _ _ I). Qed.

(** ** AllocateAndCheck and Release *)

Lemma sorted_insert A b l :
  Forall wf_block (b :: A) -> Forall (bdisj b) A ->
  StronglySorted before l -> l ≡ₚ to_allocation <$> A ->
  let it := lower_bound l (to_allocation b) in
  (forall e, l !! it = Some e -> before (to_allocation b) e) /\
  StronglySorted before (take it l ++ to_allocation b :: drop it l).
Proof.
  intros W D Hs Hp it. subst it.
  assert (forall e, e ∈ l -> exists c, e = to_allocation c /\ wf_block c /\ bdisj b c) as Hl.
  { intros e He. rewrite Hp, list_elem_of_fmap in He. destruct He as (c & -> & Hc).
    apply Forall_cons in W as [_ W]. rewrite Forall_forall in W, D. exists c. auto. }
  apply Forall_cons in W as [Wb _]. clear A D Hp.
  induction Hs as [|e l Hs IH Hf]; cbn.
  - split; [done |]. repeat constructor.
  - destruct (Hl e) as (c & -> & Wc & Dc); [by left |].
    destruct IH as [IH1 IH2]; [intros; apply Hl; by right |].
    rewrite Forall_forall in Hf.
    destruct (Allocation_ltb (to_allocation c) (to_allocation b)) eqn:E; cbn.
    + split; [done |]. constructor; [done |]. rewrite Forall_forall. intros e.
      rewrite elem_of_app, elem_of_cons. intros [He|[->|He]]; [| done |].
      * apply Hf. rewrite <- (take_drop (lower_bound l (to_allocation b)) l). set_solver.
      * apply Hf. rewrite <- (take_drop (lower_bound l (to_allocation b)) l). set_solver.
    + assert (before (to_allocation b) (to_allocation c)) as Hbc.
      { destruct (bdisj_ltb b c Wb Wc Dc) as [|F]; [done |]. unfold before in F. congruence. }
      split; [by intros ? [= <-] |]. constructor; [by constructor; [| rewrite Forall_forall] |].
      rewrite Forall_cons, Forall_forall. split; [done |]. intros e He.
      destruct (Hl e) as (d & -> & Wd & _); [by right |].
      apply (before_trans b c d); auto.
Qed.

Lemma AllocateAndCheck_ok A a p k :
  Forall wf_block ((p, k) :: A) -> Forall (bdisj (p, k)) A -> Checked A a ->
  (length A < kMaxAllocations)%nat ->
  exists l, AllocateAndCheck a p k = Ok (true, set_allocations l a) /\
    Checked ((p, k) :: A) (set_allocations l a).
Proof.
  intros W D [Hs Hp] Hlen. destruct (sorted_insert A (p, k) (allocations_ a) W D Hs Hp) as [H1 H2].
  unfold AllocateAndCheck. change (mkAllocation p (block_size k)) with (to_allocation (p, k)).
  set (it := lower_bound _ _) in *.
  set (l := take it (allocations_ a) ++ to_allocation (p, k) :: drop it (allocations_ a)) in *.
  assert (length (allocations_ a) <? kMaxAllocations = true)%nat as Hcap.
  { apply Nat.ltb_lt. rewrite Hp, length_fmap. done. }
  exists l. split.
  - rewrite Hcap. destruct (allocations_ a !! it) as [e|] eqn:E; [| done].
    specialize (H1 e eq_refl). unfold before in H1. by rewrite H1.
  - constructor; [done |]. cbn [set_allocations allocations_]. unfold l.
    rewrite <- Permutation_middle, take_drop, Hp. done.
Qed.

Lemma erase_allocation_ok v l :
  v ∈ l -> exists l', erase_allocation v l = Some l' /\ l ≡ₚ v :: l' /\
    (StronglySorted before l -> StronglySorted before l').
Proof.
  induction l as [|e l IH]; [set_solver |]. intros Hv. cbn.
  destruct (Allocation_eqb e v) eqn:E.
  - unfold Allocation_eqb in E. bool_to_prop. destruct e, v. cbn in *. subst.
    exists l. split_and!; [done | done |]. by intros [? _]%StronglySorted_inv.
  - apply elem_of_cons in Hv as [->|Hv].
    { unfold Allocation_eqb in E. rewrite !Z.eqb_refl in E. done. }
    destruct (IH Hv) as (l' & -> & Hp & Hs). exists (e :: l'). split_and!; [done | |].
    + rewrite Hp. apply perm_swap.
    + intros [Hl Hf]%StronglySorted_inv. constructor; [auto |].
      rewrite Hp, Forall_cons in Hf. tauto.
Qed.

Lemma Release_ok A a p k :
  Checked ((p, k) :: A) a ->
  exists l, Release a p k = (true, set_allocations l a) /\ Checked A (set_allocations l a).
Proof.
  intros [Hs Hp]. destruct (erase_allocation_ok (to_allocation (p, k)) (allocations_ a)) as (l & E & Hl & Hs').
  { rewrite Hp. by left. }
  exists l. unfold Release. change (mkAllocation p (block_size k)) with (to_allocation (p, k)).
  rewrite E. split; [done |]. constructor; [by apply Hs' |]. cbn.
  rewrite Hl in Hp. cbn in Hp. by apply Permutation_cons_inv in Hp.
Qed.

(** A frame that was never handed out with that order is refused. *)
Lemma Release_refuses A a p k :
  Checked A a -> (p, k) ∉ A -> Release a p k = (false, a).
Proof.
  intros [_ Hp] Hn. unfold Release. change (mkAllocation p (block_size k)) with (to_allocation (p, k)).
  assert (to_allocation (p, k) ∉ allocations_ a) as Hna.
  { rewrite Hp, list_elem_of_fmap. intros (c & E & Hc). apply to_allocation_inj in E as <-. done. }
  assert (forall l, to_allocation (p, k) ∉ l -> erase_allocation (to_allocation (p, k)) l = None) as ->;
    [| done | done].
  induction l as [|e l IH]; cbn; [done |]. rewrite elem_of_cons. intros Hne.
  destruct (Allocation_eqb e _) eqn:E.
  - unfold Allocation_eqb in E. bool_to_prop. exfalso. apply Hne. left. destruct e. cbn in *. by subst.
  - rewrite IH by tauto. done.
Qed.
