(* ===== verification/BuddyCorrect.v ===== *)
(** * Correctness of the buddy page allocator

    [AllocLocal] and [Free] of src/src/native/PageAllocator.cc never fault on
    valid requests, hand out aligned blocks that nobody else owns, take back
    exactly what was handed out, and keep the free blocks fully coalesced. *)

From S2P Require Import Prelude Pfn MemMap PageAllocator BuddyInvariant BuddyChecker.

(** ** The search loop *)

Lemma AllocSearch_some fuel a t max fp t' a' :
  AllocSearch fuel a t max = Some (fp, t', a') ->
  (t <= t' <= kMaxOrder)%nat /\ ToAddr fp < max /\
  exists l, free_list a t' ≡ₚ fp :: l /\ a' = set_free_list t' l a.
Proof.
  revert t. induction fuel as [|fuel IH]; intros t; cbn [AllocSearch]; [done |].
  destruct (Nat.leb_spec t kMaxOrder); [| done].
  destruct (list_find _ _) as [[i p]|] eqn:E.
  - intros [= <- <- <-]. apply list_find_Some in E as (Hi & ? & _).
    split_and!; [lia.. | done |]. eexists. split; [| done]. by apply delete_Permutation.
  - intros (? & ? & ?)%IH. split_and!; [lia.. | done | done].
Qed.

Lemma AllocSearch_none fuel a t max :
  (kMaxOrder < fuel + t)%nat -> AllocSearch fuel a t max = None ->
  forall j p, (t <= j <= kMaxOrder)%nat -> p ∈ free_list a j -> max <= ToAddr p.
Proof.
  revert t. induction fuel as [|fuel IH]; intros t Hf; cbn [AllocSearch]; [intros; lia |].
  destruct (Nat.leb_spec t kMaxOrder); [| intros; lia].
  destruct (list_find _ _) as [[i p]|] eqn:E; [done |].
  intros HN j p Hj Hp. destruct (decide (j = t)) as [->|].
  - apply list_find_None in E. rewrite Forall_forall in E. specialize (E p Hp). lia.
  - apply (IH (S t)) with (j := j); [lia | done | lia | done].
Qed.

(** ** The split loop *)

(** The upper halves it frees. *)
Fixpoint split_pieces (n : nat) (fp : Z) (k : nat) : list block :=
  match n with
  | O => []
  | S n => (PfnToBuddy fp (k + n), k + n)%nat :: split_pieces n fp k
  end.

Lemma AllocSplit_ok A n st fp k :
  Inv A [(fp, k + n)%nat] st ->
  exists st', AllocSplit n st fp k = Ok st' /\ Inv A [(fp, k)] st' /\
    free_blocks (pa st') ≡ₚ split_pieces n fp k ++ free_blocks (pa st) /\
    allocations_ (pa st') = allocations_ (pa st).
Proof.
  revert st. induction n as [|n IH]; intros st I; cbn [AllocSplit split_pieces].
  - rewrite Nat.add_0_r in I. eauto.
  - replace (k + S n)%nat with (S (k + n)) in I by lia. apply inv_halve in I.
    rewrite (perm_swap _ _ []) in I. apply inv_push in I as (st1 & -> & I & Hf & Ha). cbn.
    destruct (IH st1 I) as (st' & -> & I' & Hf' & Ha'). exists st'. split_and!; [done | done | |].
    + rewrite Hf', Hf. by rewrite <- Permutation_middle.
    + congruence.
Qed.

Lemma split_pieces_covers n fp k :
  0 <= fp -> aligned (k + n)%nat fp ->
  forall x, in_block fp (k + n) x <-> in_block fp k x \/ covers (split_pieces n fp k) x.
Proof.
  intros H0. induction n as [|n IH]; intros Hal x; cbn [split_pieces].
  - rewrite Nat.add_0_r. unfold covers. set_solver.
  - replace (k + S n)%nat with (S (k + n)) in * by lia.
    assert (aligned (k + n) fp) as Hal' by (by apply (aligned_mono _ (S (k + n))); [lia |]).
    rewrite covers_cons. unfold block_in. cbn.
    pose proof (buddy_parent fp (k + n) H0 Hal' x) as P.
    rewrite (buddy_lower fp (k + n) H0 Hal' Hal) in *.
    pose proof (block_size_pos (k + n)). rewrite Z.min_l in P by lia.
    rewrite P, (IH Hal'). tauto.
Qed.

Lemma split_pieces_elem n fp k b :
  b ∈ split_pieces n fp k -> exists m, (m < n)%nat /\ b = (PfnToBuddy fp (k + m), k + m)%nat.
Proof.
  induction n as [|n IH]; cbn; [set_solver |].
  rewrite elem_of_cons. intros [->|(m & ? & ?)%IH]; [exists n | exists m]; auto with lia.
Qed.

(** ** No two free buddies *)

Definition coalesced (a : PageAllocator) : Prop :=
  forall p k, (k < kMaxOrder)%nat ->
    (p, k) ∈ free_blocks a -> (PfnToBuddy p k, k) ∈ free_blocks a -> False.

(** ** AllocLocal without the checker *)

Lemma AllocLocal_core A st k max_addr fp t a :
  Inv A [] st -> AllocSearch (S kMaxOrder) (pa st) k max_addr = Some (fp, t, a) ->
  exists st' page, AllocSplit (t - k) (mkPstate a (mem_map st)) fp k = Ok st' /\
    mem_map st' !! fp = Some page /\
    Inv ((fp, k) :: A) [] (mkPstate (pa st') (<[fp := set_usage kInUse page]> (mem_map st'))) /\
    (forall x, covers (free_blocks (pa st)) x <->
       in_block fp k x \/ covers (free_blocks (pa st')) x) /\
    (coalesced (pa st) -> coalesced (pa st')) /\
    allocations_ (pa st') = allocations_ (pa st).
Proof.
  intros I Hs. apply AllocSearch_some in Hs as (Ht & Hmax & l & Hl & ->).
  destruct (inv_take A [] st t fp l I ltac:(lia) Hl) as [I1 Hf1].
  set (st1 := mkPstate _ _) in *.
  pose proof (inv_wf _ _ _ I1) as W. rewrite blocks_held_first, Forall_app, Forall_cons in W.
  destruct W as [[(W0 & _ & W2 & _) _] _]. cbn in W0, W2.
  replace t with (k + (t - k))%nat in I1, W2 by lia.
  destruct (AllocSplit_ok _ _ _ _ _ I1) as (st' & E & I2 & Hf2 & Ha2).
  assert (block_in (fp, k) fp) as Hself by apply in_block_self.
  destruct (inv_mapped _ _ _ I2 (fp, k) fp) as [page Hpage]; [unfold blocks; set_solver | done |].
  exists st', page. pose proof (inv_commit _ _ _ _ _ _ I2 Hpage) as I3.
  split_and!; [done | done | done | | | done].
  - intros x. rewrite (covers_perm _ _ x Hf1), covers_cons, (covers_perm _ _ x Hf2), covers_app.
    unfold block_in at 1. cbn. replace t with (k + (t - k))%nat at 1 by lia.
    rewrite (split_pieces_covers _ _ _ W0 W2). tauto.
  - intros Hco p j Hj Hp Hb.
    assert (forall q i, (q, i) ∈ free_blocks (pa st') -> ~ in_block q i fp) as Hfp.
    { intros q i Hq Hin. pose proof (inv_sep _ _ _ I3) as S3.
      unfold blocks in S3. cbn in S3. rewrite separated_app in S3. destruct S3 as (_ & _ & D).
      apply (D fp); [by exists (q, i) | exists (fp, k); set_solver]. }
    assert (forall q, (q, j) ∈ free_blocks (pa st') -> (PfnToBuddy q j, j) ∈ free_blocks (pa st') ->
      (q, j) ∈ free_blocks (pa st)) as Hold.
    { intros q Hq Hq'. rewrite Hf1, elem_of_cons. right. rewrite Hf2, elem_of_app in Hq.
      destruct Hq as [(m & Hm & [= -> ->])%split_pieces_elem|]; [exfalso | done].
      rewrite buddy_invol in Hq'; [| done |].
      - by apply (Hfp _ _ Hq'), in_block_self.
      - by apply (aligned_mono _ (k + (t - k))%nat); [lia |]. }
    assert (wf_block (p, j)) as (P0 & _ & P2 & _).
    { pose proof (inv_wf _ _ _ I3) as W3. unfold blocks in W3. rewrite Forall_app in W3.
      destruct W3 as [W3 _]. rewrite Forall_forall in W3. by apply W3. }
    cbn in *. apply (Hco p j Hj); [auto |]. apply Hold; [done |]. by rewrite buddy_invol.
Qed.

(** ** The coalescing loop *)

Lemma FreeCoalesce_ok A fuel st p k :
  Inv A [(p, k)] st -> (kMaxOrder <= fuel + k)%nat ->
  exists st' p' k', FreeCoalesce fuel st p k = Ok (st', p', k') /\
    Inv A [(p', k')] st' /\
    (forall x, in_block p' k' x \/ covers (free_blocks (pa st')) x <->
               in_block p k x \/ covers (free_blocks (pa st)) x) /\
    free_blocks (pa st') ⊆ free_blocks (pa st) /\
    ((k' < kMaxOrder)%nat -> (PfnToBuddy p' k', k') ∉ free_blocks (pa st')) /\
    allocations_ (pa st') = allocations_ (pa st).
Proof.
  revert st p k. induction fuel as [|fuel IH]; intros st p k I Hf; cbn [FreeCoalesce].
  - exists st, p, k. split_and!; [done.. | lia | done].
  - destruct (Nat.ltb_spec k kMaxOrder) as [Hk|Hk].
    2: { exists st, p, k. split_and!; [done.. | lia | done]. }
    assert (forall b, (tagged_free st (PfnToBuddy p k) k -> False) -> b = Ok (st, p, k) ->
      exists st' p' k', b = Ok (st', p', k') /\ Inv A [(p', k')] st' /\
        (forall x, in_block p' k' x \/ covers (free_blocks (pa st')) x <->
                   in_block p k x \/ covers (free_blocks (pa st)) x) /\
        free_blocks (pa st') ⊆ free_blocks (pa st) /\
        ((k' < kMaxOrder)%nat -> (PfnToBuddy p' k', k') ∉ free_blocks (pa st')) /\
        allocations_ (pa st') = allocations_ (pa st)) as Hstop.
    { intros b Hn ->. exists st, p, k. split_and!; [done.. | | done].
      intros _ Hb. apply Hn. by apply (inv_desc _ _ _ I). }
    destruct (mem_map st !! PfnToBuddy p k) as [page|] eqn:E.
    2: { apply Hstop; [| done]. intros (pg & ? & _). congruence. }
    destruct (negb _ || negb _) eqn:T.
    { apply Hstop; [| done]. intros (pg & Hpg & Hu & Ho). simplify_eq.
      rewrite bool_decide_true, Nat.eqb_refl in T by done. done. }
    apply orb_false_iff in T as [T1 T2]. bool_to_prop.
    assert (tagged_free st (PfnToBuddy p k) k) as Ht by (by exists page).
    apply (inv_buddy_tag A st p k I) in Ht as Hin.
    destruct (list_erase_ok _ _ Hin) as (l & -> & Hl). cbn.
    destruct (inv_take A _ st k _ l I ltac:(lia) Hl) as [I1 Hf1].
    rewrite (perm_swap _ _ []) in I1. apply inv_join in I1; [| done].
    set (st1 := mkPstate _ _) in *.
    destruct (IH st1 (Z.min p (PfnToBuddy p k)) (S k) I1 ltac:(lia))
      as (st' & p' & k' & Hr & I' & Hc & Hs & Hn & Ha).
    exists st', p', k'. split_and!; [done | done | | | done | done].
    + assert (wf_block (p, k)) as (P0 & _ & P2 & _).
      { pose proof (inv_wf _ _ _ I) as W. unfold blocks in W. rewrite Forall_forall in W.
        apply W. set_solver. }
      intros x. rewrite Hc, (buddy_parent p k P0 P2 x), (covers_perm _ _ x Hf1), covers_cons.
      unfold block_in. cbn. tauto.
    + intros b Hb. rewrite Hf1. right. by apply Hs.
Qed.

(** ** Main theorems *)

Lemma AllocLocal_spec pc A st k max_addr :
  CInv pc A st -> (k <= kMaxOrder)%nat -> (pc = true -> (length A < kMaxAllocations)%nat) ->
  exists pfn st', AllocLocal pc st k max_addr = Ok (pfn, st') /\
    ((pfn = PfnNone /\ st' = st /\
      forall p j, (p, j) ∈ free_blocks (pa st) -> (k <= j)%nat -> max_addr <= ToAddr p) \/
     (pfn <> PfnNone /\ CInv pc ((pfn, k) :: A) st' /\ aligned k pfn /\ ToAddr pfn < max_addr /\
      (forall x, covers (free_blocks (pa st)) x <->
         in_block pfn k x \/ covers (free_blocks (pa st')) x) /\
      (coalesced (pa st) -> coalesced (pa st')))).
Proof.
  intros [I C] Hk Hcap. unfold AllocLocal.
  destruct (AllocSearch _ _ _ _) as [[[fp t] a]|] eqn:E.
  - destruct (AllocLocal_core A st k max_addr fp t a I E)
      as (st1 & page & -> & Hpage & I1 & Hc & Hco & Ha). cbn. rewrite Hpage. cbn.
    pose proof (inv_wf _ _ _ I1) as W. pose proof (inv_sep _ _ _ I1) as S.
    unfold blocks in W, S. rewrite app_nil_r, Forall_app in W. destruct W as [_ W].
    rewrite app_nil_r, separated_app in S. destruct S as (_ & (D & _) & _).
    apply Forall_cons in W as W1. destruct W1 as [(W0 & W1 & W2 & _) _]. cbn in W0, W1, W2.
    apply AllocSearch_some in E as (_ & Hmax & _). pose proof (block_size_pos k).
    assert (fp <> PfnNone) by (unfold PfnNone; lia).
    destruct pc.
    + assert (Checked A (pa st1)) as C1.
      { destruct (C eq_refl) as [? ?]. constructor; by rewrite Ha. }
      destruct (AllocateAndCheck_ok A (pa st1) fp k W D C1 (Hcap eq_refl)) as (l & -> & C2).
      cbn [mbind outcome_bind kassert]. apply (Inv_set_allocations _ _ _ _ l) in I1.
      rewrite (check_valid_Inv _ _ _ _ I1). do 2 eexists. split; [done |]. right.
      split_and!; [done | | done | done | done | done]. by split.
    + do 2 eexists. split; [done |]. right. split_and!; [done | | done | done | done | done]. by split.
  - exists PfnNone, st. split; [done |]. left. split_and!; [done | done |].
    intros p j Hp Hj. apply free_blocks_elem in Hp as [Hp ?]; [| apply I].
    eapply (AllocSearch_none _ _ _ _ _ E j); [lia | done].
    Unshelve. unfold kMaxOrder. lia.
Qed.

(** C1. [AllocLocal] always completes (no assertion of it or of the checker
    fires). Either it returns the none frame, leaving the state unchanged,
    because no free block of sufficient order lies below [max_addr]; or it
    returns an aligned block below [max_addr] whose pages were free, removes
    exactly those pages from the free pages, never leaves two free buddies
    where there were none, and the result satisfies the
    invariant with the block added to the allocated ones, hence disjoint from
    every other block. *)
Theorem AllocLocal_correct pc A st k max_addr :
  CInv pc A st -> (k <= kMaxOrder)%nat -> (pc = true -> (length A < kMaxAllocations)%nat) ->
  exists pfn st', AllocLocal pc st k max_addr = Ok (pfn, st') /\
    ((pfn = PfnNone /\ st' = st /\
      forall p j, (p, j) ∈ free_blocks (pa st) -> (k <= j)%nat -> max_addr <= ToAddr p) \/
     (pfn <> PfnNone /\ CInv pc ((pfn, k) :: A) st' /\ aligned k pfn /\ ToAddr pfn < max_addr /\
      (forall x, covers (free_blocks (pa st)) x <->
         in_block pfn k x \/ covers (free_blocks (pa st')) x) /\
      (coalesced (pa st) -> coalesced (pa st')))).
Proof. apply AllocLocal_spec. Qed.

Lemma Free_spec pc A A' st pfn k :
  CInv pc A st -> A ≡ₚ (pfn, k) :: A' ->
  exists st', Free pc st pfn k = Ok st' /\ CInv pc A' st' /\
    (forall x, covers (free_blocks (pa st')) x <->
       in_block pfn k x \/ covers (free_blocks (pa st)) x) /\
    (coalesced (pa st) -> coalesced (pa st')).
Proof.
  intros CI HA. apply (CInv_perm _ _ _ _ HA) in CI as [I C].
  assert (exists st1, (if pc then let '(b, a) := Release (pa st) pfn k in
            _ ← kassert b; Ok (mkPstate a (mem_map st)) else Ok st) = Ok st1 /\
          Inv ((pfn, k) :: A') [] st1 /\ (pc = true -> Checked A' (pa st1)) /\
          free_blocks (pa st1) = free_blocks (pa st)) as (st1 & E1 & I1 & C1 & F1).
  { destruct pc; [| by exists st].
    destruct (Release_ok A' (pa st) pfn k (C eq_refl)) as (l & -> & C').
    eexists. split; [done |]. split_and!; [| done | done].
    apply Inv_set_allocations. by destruct st. }
  unfold Free. rewrite E1. cbn [mbind outcome_bind].
  assert (wf_block (pfn, k)) as (_ & _ & _ & Hk).
  { pose proof (inv_wf _ _ _ I1) as W. unfold blocks in W. rewrite Forall_forall in W.
    apply W. set_solver. }
  cbn in Hk. destruct (Nat.leb_spec k kMaxOrder); [| lia]. cbn [mbind outcome_bind kassert].
  apply inv_release in I1.
  destruct (FreeCoalesce_ok A' kMaxOrder st1 pfn k I1 ltac:(lia))
    as (st2 & p' & k' & -> & I2 & Hc & Hs & Hn & Ha2). cbn [mbind outcome_bind].
  pose proof I2 as I2'. apply inv_push in I2' as (st3 & -> & I3 & Hf & Ha3).
  cbn [mbind outcome_bind]. rewrite (check_valid_Inv _ _ _ _ I3).
  exists st3. split_and!; [done | | |].
  - split; [done |]. intros Hpc. destruct (C1 Hpc). constructor; rewrite Ha3, Ha2; done.
  - intros x. rewrite (covers_perm _ _ x Hf), covers_cons. unfold block_in. cbn.
    rewrite <- F1. apply Hc.
  - intros Hco q j Hj. rewrite Hf, !elem_of_cons.
    assert (wf_block (p', k')) as (P0 & _ & P2 & _).
    { pose proof (inv_wf _ _ _ I2) as W. unfold blocks in W. rewrite Forall_forall in W.
      apply W. set_solver. }
    intros [[= -> ->]|Hq] [[= E]|Hb].
    + by apply (buddy_neq p' k').
    + by apply Hn.
    + subst. apply (Hn Hj). rewrite buddy_invol; [done | |].
      all: apply Hs in Hq; rewrite F1 in Hq.
      all: pose proof (inv_wf _ _ _ I) as W; unfold blocks in W;
           rewrite Forall_app, Forall_forall in W; destruct W as [W _].
      all: by destruct (W _ Hq) as (? & _ & ? & _).
    + apply (Hco q j Hj); rewrite <- F1; by apply Hs.
Qed.

(** C5. [Free] of an allocated block always completes: the checker accepts it,
    coalescing only ever unlinks blocks that are really on this allocator's
    list, the block's pages become free again and nothing else changes hands,
    and if no two buddies were free before, none are after. *)
Theorem Free_correct pc A A' st pfn k :
  CInv pc A st -> A ≡ₚ (pfn, k) :: A' ->
  exists st', Free pc st pfn k = Ok st' /\ CInv pc A' st' /\
    (forall x, covers (free_blocks (pa st')) x <->
       in_block pfn k x \/ covers (free_blocks (pa st)) x) /\
    (coalesced (pa st) -> coalesced (pa st')).
Proof. apply Free_spec. Qed.

(** ** Fully coalesced free blocks are canonical *)

Section Canonical.
Context (F : list block).
Hypothesis (Hwf : Forall wf_block F) (Hsep : separated F).
Hypothesis (Hco : forall p k, (k < kMaxOrder)%nat ->
  (p, k) ∈ F -> (PfnToBuddy p k, k) ∈ F -> False).

(** A block all of whose pages are covered is not covered by smaller blocks. *)
Lemma no_smaller_cover q j :
  wf_block (q, j) -> (forall x, in_block q j x -> covers F x) ->
  forall k p, (p, k) ∈ F -> (k < j)%nat -> in_block q j p -> False.
Proof.
  rewrite Forall_forall in Hwf. intros (Q0 & _ & Q2 & Q3) Hcov. cbn in *.
  induction k as [k IH] using lt_wf_ind. intros p Hp Hkj Hin.
  destruct (Hwf _ Hp) as (P0 & _ & P2 & _). cbn in *.
  set (b := PfnToBuddy p k) in *.
  pose proof (buddy_aligned p k P0 P2) as B2. pose proof (buddy_nonneg p k P0 P2) as B0.
  pose proof (buddy_same_ancestor p k P0 P2 q j Q2 Hkj Hin) as Hanc. fold b in B2, B0, Hanc.
  destruct (Hcov b) as ([r i] & Hr & Hrb); [apply Hanc, in_block_self |].
  destruct (Hwf _ Hr) as (R0 & _ & R2 & _). unfold block_in in Hrb. cbn in *.
  destruct (Nat.lt_trichotomy i k) as [Hi|[->|Hi]].
  - apply (IH i Hi r Hr); [lia |]. apply Hanc.
    pose proof (aligned_nested b k r i b B2 R2 ltac:(lia) (in_block_self b k) Hrb).
    pose proof (block_size_pos i). unfold in_block. lia.
  - apply (Hco p k); [lia | done |].
    fold b. by rewrite <- (aligned_overlap_eq r b k b R2 B2 Hrb (in_block_self b k)).
  - assert (in_block r i p) as Hrp.
    { apply (buddy_same_ancestor b k B0 B2 r i R2 Hi Hrb). unfold b.
      rewrite buddy_invol by done. apply in_block_self. }
    assert ((r, i) = (p, k)) as [= -> ->]; [| lia].
    apply (separated_overlap _ _ F p Hsep Hr Hp Hrp). apply in_block_self.
Qed.
End Canonical.

Lemma canonical_sub F1 F2 :
  Forall wf_block F1 -> separated F1 ->
  (forall p k, (k < kMaxOrder)%nat -> (p, k) ∈ F1 -> (PfnToBuddy p k, k) ∈ F1 -> False) ->
  Forall wf_block F2 -> separated F2 ->
  (forall p k, (k < kMaxOrder)%nat -> (p, k) ∈ F2 -> (PfnToBuddy p k, k) ∈ F2 -> False) ->
  (forall x, covers F1 x <-> covers F2 x) -> F1 ⊆ F2.
Proof.
  intros W1 S1 C1 W2 S2 C2 Hcov [p k] Hp.
  pose proof W1 as W1'. pose proof W2 as W2'. rewrite Forall_forall in W1', W2'.
  destruct (W1' _ Hp) as (P0 & P1 & P2 & P3). cbn in *.
  assert (covers F1 p) as Hc by (exists (p, k); split; [done | apply in_block_self]).
  apply Hcov in Hc as ([q j] & Hq & Hin). destruct (W2' _ Hq) as (Q0 & Q1 & Q2 & Q3).
  unfold block_in in Hin. cbn in *.
  destruct (Nat.lt_trichotomy j k) as [Hj|[->|Hj]].
  - exfalso. apply (no_smaller_cover F2 W2 S2 C2 p k) with (k := j) (p := q); try done.
    + intros x Hx. apply Hcov. by exists (p, k).
    + pose proof (aligned_nested p k q j p P2 Q2 ltac:(lia) (in_block_self p k) Hin).
      pose proof (block_size_pos j). unfold in_block. lia.
  - by rewrite (aligned_overlap_eq p q k p P2 Q2 (in_block_self p k) Hin).
  - exfalso. apply (no_smaller_cover F1 W1 S1 C1 q j) with (k := k) (p := p); try done.
    intros x Hx. apply Hcov. by exists (q, j).
Qed.

Lemma Inv_free A H st :
  Inv A H st -> Forall wf_block (free_blocks (pa st)) /\ separated (free_blocks (pa st)).
Proof.
  intros I. pose proof (inv_wf _ _ _ I) as W. pose proof (inv_sep _ _ _ I) as S.
  unfold blocks in W, S. rewrite Forall_app in W. rewrite separated_app in S. tauto.
Qed.

Lemma canonical_blocks A1 H1 st1 A2 H2 st2 :
  Inv A1 H1 st1 -> coalesced (pa st1) -> Inv A2 H2 st2 -> coalesced (pa st2) ->
  (forall x, covers (free_blocks (pa st1)) x <-> covers (free_blocks (pa st2)) x) ->
  free_blocks (pa st1) ≡ₚ free_blocks (pa st2).
Proof.
  intros I1 C1 I2 C2 Hc.
  destruct (Inv_free _ _ _ I1) as [W1 S1]. destruct (Inv_free _ _ _ I2) as [W2 S2].
  apply NoDup_Permutation; [by apply separated_NoDup.. |]. intros b.
  split; by apply canonical_sub.
Qed.

(** C21. Round trip: in a fully coalesced state, freeing what was just
    allocated restores exactly the same free blocks (every split is undone). *)
Theorem alloc_free_roundtrip pc A st k max_addr pfn st1 :
  CInv pc A st -> coalesced (pa st) -> (k <= kMaxOrder)%nat ->
  (pc = true -> (length A < kMaxAllocations)%nat) ->
  AllocLocal pc st k max_addr = Ok (pfn, st1) -> pfn <> PfnNone ->
  exists st2, Free pc st1 pfn k = Ok st2 /\ CInv pc A st2 /\
    free_blocks (pa st2) ≡ₚ free_blocks (pa st).
Proof.
  intros CI Hco Hk Hcap E Hne.
  destruct (AllocLocal_spec pc A st k max_addr CI Hk Hcap) as (p & s & E' & [(-> & _)|(_ & C1 & _ & _ & Hc1 & Hco1)]);
    rewrite E in E'; [simplify_eq | injection E' as <- <-].
  destruct (Free_spec pc _ A st1 pfn k C1 (Permutation_refl _)) as (st2 & E2 & C2 & Hc2 & Hco2).
  exists st2. split_and!; [done | done |].
  apply (canonical_blocks A [] st2 A [] st); [apply C2 | auto | apply CI | done |].
  intros x. rewrite Hc2, Hc1. done.
Qed.

(** ** Any sequence of requests *)

(** The clients' view: an allocator state and the blocks handed out. *)
Inductive pstep (pc : bool) : pstate * list block -> pstate * list block -> Prop :=
| step_alloc st A k max_addr pfn st' :
    (k <= kMaxOrder)%nat -> AllocLocal pc st k max_addr = Ok (pfn, st') -> pfn <> PfnNone ->
    (pc = true -> (length A < kMaxAllocations)%nat) ->
    pstep pc (st, A) (st', (pfn, k) :: A)
| step_free st A A' pfn k st' :
    A ≡ₚ (pfn, k) :: A' -> Free pc st pfn k = Ok st' ->
    pstep pc (st, A) (st', A').

Lemma pstep_preserves pc st A st' A' :
  pstep pc (st, A) (st', A') -> CInv pc A st ->
  CInv pc A' st' /\ (coalesced (pa st) -> coalesced (pa st')) /\
  (forall x, covers (free_blocks (pa st') ++ A') x <-> covers (free_blocks (pa st) ++ A) x).
Proof.
  intros Hstep CI. inversion Hstep as [s B k m pfn s' Hk E Hne Hcap|s B B' pfn k s' HB E]; subst.
  - destruct (AllocLocal_spec pc A st k m CI Hk Hcap)
      as (p & s & E' & [(-> & _)|(_ & C1 & _ & _ & Hc1 & Hco1)]); rewrite E in E'; [simplify_eq | injection E' as <- <-].
    split_and!; [done | done |]. intros x. rewrite !covers_app, Hc1, covers_cons.
    unfold block_in. cbn. tauto.
  - destruct (Free_spec pc A A' st pfn k CI HB) as (s & E' & C1 & Hc1 & Hco1).
    rewrite E in E'. injection E' as <-. split_and!; [done | done |].
    intros x. rewrite !covers_app, Hc1, (covers_perm _ _ x HB), covers_cons.
    unfold block_in. cbn. tauto.
Qed.

Lemma reachable_CInv pc s1 s2 :
  rtc (pstep pc) s1 s2 -> CInv pc s1.2 s1.1 ->
  CInv pc s2.2 s2.1 /\ (coalesced (pa s1.1) -> coalesced (pa s2.1)) /\
  (forall x, covers (free_blocks (pa s2.1) ++ s2.2) x <-> covers (free_blocks (pa s1.1) ++ s1.2) x).
Proof.
  induction 1 as [s|[st1 A1] [st2 A2] s3 Hs _ IH]; [done |]. intros CI. cbn in *.
  destruct (pstep_preserves _ _ _ _ _ Hs CI) as (CI2 & Hco & Hcov).
  destruct (IH CI2) as (CI3 & Hco' & Hcov'). split_and!; [done | auto |].
  intros x. by rewrite Hcov', Hcov.
Qed.

(** C14. Whatever sequence of allocations and frees of allocated blocks is run
    from a valid state, no page is lost or owned twice: free and allocated
    blocks stay pairwise disjoint and together cover the same pages as at the
    start, the checker validates, full coalescing is kept, and the next free
    of any allocated block succeeds. *)
Theorem reachable_safe pc st0 A0 st A :
  CInv pc A0 st0 -> rtc (pstep pc) (st0, A0) (st, A) ->
  separated (free_blocks (pa st) ++ A) /\
  (forall x, covers (free_blocks (pa st) ++ A) x <-> covers (free_blocks (pa st0) ++ A0) x) /\
  Validate st = Ok true /\
  (coalesced (pa st0) -> coalesced (pa st)) /\
  (forall pfn k, (pfn, k) ∈ A -> exists st', Free pc st pfn k = Ok st').
Proof.
  intros CI Hr. destruct (reachable_CInv pc (st0, A0) (st, A) Hr CI) as (C & Hco & Hcov). cbn in *.
  pose proof C as [I _]. pose proof (inv_sep _ _ _ I) as S. unfold blocks in S.
  rewrite app_nil_r in S. split_and!; [done | done | by eapply Validate_Inv | done |].
  intros pfn k Hin. apply elem_of_Permutation in Hin as [A' HA].
  destruct (Free_spec pc A A' st pfn k C HA) as (st' & E & _). eauto.
Qed.
