(* ===== verification/BuddyInit.v ===== *)
(** * Boot of the page allocator

    The lambda of [PageAllocator::Init] (src/src/native/PageAllocator.cc)
    carves a free range into naturally aligned blocks of at most [kMaxOrder];
    the blocks cover the range exactly and the allocator's invariant holds. *)

From S2P Require Import Prelude Pfn MemMap PageAllocator BuddyInvariant BuddyChecker BuddyCorrect.

Lemma EarlyFreePage_eq st p k :
  (k <= kMaxOrder)%nat -> EarlyFreePage st p k = FreePageNoCoalesce st p k.
Proof.
  intros Hk. unfold EarlyFreePage, FreePageNoCoalesce.
  destruct (Nat.leb_spec k kMaxOrder); [| lia]. destruct (Nat.ltb_spec kMaxOrder k); [lia | done].
Qed.

(** Pages that belong to no block can be given to the allocator as a block. *)
Lemma inv_add A H st b :
  Inv A H st -> wf_block b ->
  (forall x, block_in b x -> ~ covers (blocks A H st) x /\ is_Some (mem_map st !! x)) ->
  Inv A (b :: H) st.
Proof.
  intros I Wb Hb. assert (blocks A (b :: H) st ≡ₚ b :: blocks A H st) as Hp.
  { unfold blocks. by rewrite <- !Permutation_middle. }
  constructor; try apply I.
  - rewrite Hp, Forall_cons. split; [done | apply I].
  - rewrite Hp. split; [| apply I]. rewrite Forall_forall. intros c Hc.
    apply bdisj_spec. intros x Hx Hx'. apply (Hb x Hx). by exists c.
  - intros c x. rewrite Hp, elem_of_cons. intros [->|Hc] Hx; [by apply Hb |].
    by apply (inv_mapped _ _ _ I c).
  - intros p k Ht. destruct (inv_tag _ _ _ I p k Ht) as [?|[(c & ? & ?)|(c & ? & ?)]]; [by left | |].
    + right; left. exists c. rewrite Hp. set_solver.
    + right; right. exists c. set_solver.
Qed.

(** Unowned, mapped pages of [lo, hi). *)
Definition available (A : list block) (st : pstate) (lo hi : Z) : Prop :=
  forall x, lo <= x < hi -> ~ covers (blocks A [] st) x /\ is_Some (mem_map st !! x).

(** One iteration of either loop. *)
Lemma early_step A st p k hi :
  Inv A [] st -> wf_block (p, k) -> p + block_size k <= hi -> available A st p hi ->
  exists st', EarlyFreePage st p k = Ok st' /\ Inv A [] st' /\
    available A st' (p + block_size k) hi /\
    (forall x, covers (free_blocks (pa st')) x <->
       in_block p k x \/ covers (free_blocks (pa st)) x) /\
    (forall x, is_Some (mem_map st !! x) -> is_Some (mem_map st' !! x)) /\
    allocations_ (pa st') = allocations_ (pa st).
Proof.
  intros I W Hhi Hav. pose proof W as (_ & _ & _ & Hk). cbn in Hk.
  pose proof (block_size_pos k) as Hsz.
  assert (Inv A [(p, k)] st) as I1.
  { apply inv_add; [done | done |]. intros x Hx. apply Hav. unfold block_in, in_block in Hx.
    cbn in Hx. lia. }
  rewrite EarlyFreePage_eq by done.
  pose proof I1 as I2. apply inv_push in I2 as (st' & E & I2 & Hf & Ha).
  assert (forall x, is_Some (mem_map st !! x) -> is_Some (mem_map st' !! x)) as Hmap.
  { intros x Hx. unfold FreePageNoCoalesce in E. destruct (_ <? _)%nat; [done |].
    destruct (mem_map st !! p); cbn in E; [| done]. injection E as <-. cbn.
    rewrite lookup_insert_is_Some. destruct (decide (p = x)); [by left | by right]. }
  exists st'. split_and!; [done | done | | | done | done].
  - intros x Hx. split; [| apply Hmap, Hav; lia].
    rewrite (covers_perm _ _ x (blocks_held_first A [] st')). cbn.
    rewrite covers_app, (covers_perm _ _ x Hf), covers_cons. intros Hc.
    assert (block_in (p, k) x \/ covers (blocks A [] st) x) as [Hx'|Hc'].
    { rewrite (covers_perm _ _ x (blocks_held_first A [] st)). cbn. rewrite covers_app. tauto. }
    + unfold block_in, in_block in Hx'. cbn in Hx'. lia.
    + by destruct (Hav x ltac:(lia)).
  - intros x. by rewrite (covers_perm _ _ x Hf), covers_cons.
Qed.

(** What a loop has achieved when it has freed [lo, hi). *)
Definition carved (A : list block) (st st' : pstate) (lo hi top : Z) : Prop :=
  Inv A [] st' /\ available A st' hi top /\
  (forall x, covers (free_blocks (pa st')) x <->
     lo <= x < hi \/ covers (free_blocks (pa st)) x) /\
  (forall x, is_Some (mem_map st !! x) -> is_Some (mem_map st' !! x)) /\
  allocations_ (pa st') = allocations_ (pa st).

Lemma carved_refl A st lo top : Inv A [] st -> available A st lo top -> carved A st st lo lo top.
Proof. intros. split_and!; [done | done | | done | done]. intros x. split; [by right | intros [?|]; [lia | done]]. Qed.

Lemma carved_step A st p k st1 st' hi top :
  (forall x, covers (free_blocks (pa st1)) x <-> in_block p k x \/ covers (free_blocks (pa st)) x) ->
  (forall x, is_Some (mem_map st !! x) -> is_Some (mem_map st1 !! x)) ->
  allocations_ (pa st1) = allocations_ (pa st) ->
  p + block_size k <= hi -> carved A st1 st' (p + block_size k) hi top -> carved A st st' p hi top.
Proof.
  intros Hc Hm Ha Hle (? & ? & Hc' & Hm' & Ha'). pose proof (block_size_pos k).
  split_and!; [done | done | | auto | congruence].
  intros x. rewrite Hc', Hc. unfold in_block. split; [intros [?|[?|?]] | intros [?|?]]; try tauto; try (left; lia).
  destruct (decide (p + block_size k <= x)); [left; lia | right; left; lia].
Qed.

Lemma InitLower_ok A m fuel st p divide top :
  Inv A [] st -> available A st p top -> divide <= top <= 2 ^ 32 -> aligned m divide ->
  0 <= p -> (p < divide -> 0 < p) -> p <= divide < p + block_size m -> divide - p <= Z.of_nat fuel ->
  exists st', InitLower fuel st p divide = Ok st' /\ carved A st st' p divide top.
Proof.
  revert st p. induction fuel as [|fuel IH]; intros st p I Hav Ht Hal H0 Hp0 Hpd Hf; cbn [InitLower].
  - assert (p = divide) as -> by lia. rewrite Z.eqb_refl. eexists. split; [done |]. by apply carved_refl.
  - destruct (Z.eqb_spec p divide) as [->|Hne].
    { eexists. split; [done |]. by apply carved_refl. }
    destruct (Z.ltb_spec p divide); [| lia]. cbn [kassert mbind outcome_bind].
    destruct (builtin_ctz_spec p) as (n & -> & Hn & Hn'); [lia |]. cbn [mbind outcome_bind].
    set (k := Nat.min n kMaxOrder). pose proof (block_size_pos k).
    assert (n < m)%nat as Hnm.
    { destruct (decide (n < m)%nat); [done | exfalso].
      apply (aligned_mono m) in Hn; [| lia]. pose proof (aligned_gap m p divide Hn Hal). lia. }
    assert (aligned k p) as Hk by (by apply (aligned_mono k n); [unfold k; lia |]).
    assert (p + block_size k <= divide) as Hle.
    { apply aligned_gap; [done | | lia]. by apply (aligned_mono k m); [unfold k; lia |]. }
    destruct (early_step A st p k top I) as (st1 & -> & I1 & Hav1 & Hc1 & Hm1 & Ha1); [| lia | done |].
    { unfold wf_block. cbn. split_and!; [lia.. | done | unfold k; lia]. }
    cbn [mbind outcome_bind].
    replace (PfnAdd p (block_size k)) with (p + block_size k)
      by (unfold PfnAdd, u64; rewrite wrap_small; [done | unfold in_u; lia]).
    destruct (IH st1 (p + block_size k)) as (st' & -> & Hcv); try done; try lia.
    exists st'. split; [done |]. by eapply carved_step.
Qed.

Lemma InitUpper_ok A m fuel st p top :
  Inv A [] st -> available A st p top -> top <= 2 ^ 32 -> 0 <= p <= top ->
  aligned (Nat.min m kMaxOrder) p -> top - p < block_size (S m) -> top - p < 2 ^ 31 ->
  top - p <= Z.of_nat fuel ->
  exists st', InitUpper fuel st p top = Ok st' /\ carved A st st' p top top.
Proof.
  revert m st p. induction fuel as [|fuel IH]; intros m st p I Hav Ht H0 Hal Hm Hs Hf; cbn [InitUpper].
  - assert (p = top) as -> by lia. rewrite Z.eqb_refl. eexists. split; [done |]. by apply carved_refl.
  - destruct (Z.eqb_spec p top) as [->|Hne].
    { eexists. split; [done |]. by apply carved_refl. }
    destruct (Z.ltb_spec p top); [| lia]. cbn [kassert mbind outcome_bind].
    replace (PfnSub top p) with (top - p)
      by (unfold PfnSub, u64; rewrite wrap_small; [done | unfold in_u; lia]).
    rewrite builtin_clz_log2 by lia. cbn [mbind outcome_bind].
    replace (32 - (31 - Z.log2 (top - p)) - 1) with (Z.log2 (top - p)) by lia.
    set (o := Z.to_nat (Z.log2 (top - p))). set (k := Nat.min o kMaxOrder).
    pose proof (Z.log2_nonneg (top - p)). destruct (Z.log2_spec (top - p)) as [L1 L2]; [lia |].
    assert (block_size o <= top - p < block_size (S o)) as Ho.
    { rewrite block_size_S. unfold block_size, o. rewrite Z2Nat.id by lia.
      rewrite Z.pow_succ_r in L2 by lia. lia. }
    assert (o <= m)%nat as Hom.
    { destruct (decide (o <= m)%nat); [done | exfalso].
      pose proof (block_size_le (S m) o ltac:(lia)). lia. }
    pose proof (block_size_pos k). pose proof (block_size_le k o ltac:(unfold k; lia)).
    assert (aligned k p) as Hk by (by apply (aligned_mono k (Nat.min m kMaxOrder)); [unfold k; lia |]).
    destruct (early_step A st p k top I) as (st1 & -> & I1 & Hav1 & Hc1 & Hm1 & Ha1); [| lia | done |].
    { unfold wf_block. cbn. split_and!; [lia.. | done | unfold k; lia]. }
    cbn [mbind outcome_bind].
    replace (PfnAdd p (block_size k)) with (p + block_size k)
      by (unfold PfnAdd, u64; rewrite wrap_small; [done | unfold in_u; lia]).
    assert (exists m', aligned (Nat.min m' kMaxOrder) (p + block_size k) /\
      top - (p + block_size k) < block_size (S m')) as (m' & Hal' & Hm').
    { assert (aligned k (p + block_size k)) as Hk' by (apply aligned_add; [done | apply aligned_size]).
      destruct (decide (o <= kMaxOrder)%nat).
      - exists o. unfold k in *. rewrite Nat.min_l in * by lia. split; [done | lia].
      - exists m. unfold k in *. rewrite !Nat.min_r in * by lia. split; [done | lia]. }
    destruct (IH m' st1 (p + block_size k)) as (st' & -> & Hcv); try done; try lia.
    exists st'. split; [done |]. eapply carved_step; [done | done | done | lia | done].
Qed.

Lemma InitRange_spec A st start end_ :
  Inv A [] st -> 0 <= start < end_ -> end_ <= 2 ^ 32 -> end_ - start < 2 ^ 31 ->
  available A st start end_ ->
  exists st', InitRange st start end_ = Ok st' /\ carved A st st' start end_ end_.
Proof.
  intros I H0 H1 H2 Hav. unfold InitRange.
  replace (PfnSub end_ start) with (end_ - start)
    by (unfold PfnSub, u64; rewrite wrap_small; [done | unfold in_u; lia]).
  destruct (Z.eqb_spec (end_ - start) 0); [lia |]. cbn [negb kassert mbind outcome_bind].
  rewrite builtin_clz_log2 by lia. cbn [mbind outcome_bind].
  replace (32 - (31 - Z.log2 (end_ - start)) - 1) with (Z.log2 (end_ - start)) by lia.
  pose proof (Z.log2_nonneg (end_ - start)). destruct (Z.log2_spec (end_ - start)) as [L1 L2]; [lia |].
  assert (Z.log2 (end_ - start) < 31) by (apply Z.log2_lt_pow2; lia).
  destruct (Z.leb_spec 31 (Z.log2 (end_ - start))); [lia |].
  set (s := Z.log2 (end_ - start)) in *. rewrite Z.shiftl_1_l.
  destruct (AlignUp_pow2 start s) as (d & Hd & Hd1 & Hd2); [lia.. |]. rewrite Hd.
  assert (block_size (Z.to_nat s) = 2 ^ s) as Hbs by (unfold block_size; by rewrite Z2Nat.id).
  destruct (InitLower_ok A (Z.to_nat s) (Z.to_nat (end_ - start)) st start d end_)
    as (st1 & -> & I1 & Hav1 & Hc1 & Hm1 & Ha1); try done; try lia.
  { unfold aligned. by rewrite Hbs. }
  { intros. destruct (decide (start = 0)) as [->|]; [exfalso | lia].
    apply Z.mod_divide in Hd1 as [q Hq]; [| lia]. assert (0 < q < 1) by nia. lia. }
  cbn [mbind outcome_bind].
  destruct (InitUpper_ok A (Z.to_nat s) (Z.to_nat (end_ - start)) st1 d end_)
    as (st2 & -> & I2 & Hav2 & Hc2 & Hm2 & Ha2); try done; try lia.
  { apply (aligned_mono _ (Z.to_nat s)); [lia |]. unfold aligned. by rewrite Hbs. }
  { rewrite block_size_S, Hbs. rewrite Z.pow_succ_r in L2 by lia. lia. }
  exists st2. split; [done |]. split_and!; [done | done | | auto | congruence].
  intros x. rewrite Hc2, Hc1. split; [intros [?|[?|?]] | intros [?|?]]; try tauto; try (left; lia).
  destruct (decide (d <= x)); [left; lia | right; left; lia].
Qed.

(** Boot: handing a free range of mapped, unowned pages to the allocator
    succeeds (no assertion, no undefined bit scan, both loops terminate within
    the length of the range) and makes exactly the pages of the range free,
    as aligned blocks of order at most [kMaxOrder] disjoint from all others. *)
Theorem InitRange_correct A st start end_ :
  Inv A [] st -> 0 <= start < end_ -> end_ <= 2 ^ 32 -> end_ - start < 2 ^ 31 ->
  available A st start end_ ->
  exists st', InitRange st start end_ = Ok st' /\ Inv A [] st' /\
    (forall x, covers (free_blocks (pa st')) x <->
       start <= x < end_ \/ covers (free_blocks (pa st)) x).
Proof.
  intros I H0 H1 H2 Hav. destruct (InitRange_spec A st start end_ I H0 H1 H2 Hav)
    as (st' & E & ? & _ & ? & _). eauto.
Qed.

(** ** A whole boot on one node *)

Lemma Inv_new nid mm :
  (forall p page, mm !! p = Some page -> usage page <> kPageAllocator) ->
  Inv [] [] (mkPstate (new_PageAllocator nid) mm).
Proof.
  intros Hmm. assert (free_blocks (new_PageAllocator nid) = []) as Hf by done.
  constructor; unfold blocks; cbn [pa]; rewrite ?Hf.
  - done.
  - constructor.
  - done.
  - intros p k. rewrite elem_of_nil. done.
  - intros b x. cbn. rewrite elem_of_nil. done.
  - intros p k (page & Hp & Hu & _). by destruct (Hmm p page Hp).
Qed.

Definition range_ok (mm : gmap Z Page) (r : Z * Z * Z) : Prop :=
  let '(s, e, nid) := r in
  nid = 0 /\ 0 <= s < e /\ e <= 2 ^ 32 /\ e - s < 2 ^ 31 /\
  forall x, s <= x < e -> is_Some (mm !! x).
Definition range_in (r : Z * Z * Z) (x : Z) : Prop := let '(s, e, _) := r in s <= x < e.
Fixpoint ranges_disjoint (rs : list (Z * Z * Z)) : Prop :=
  match rs with
  | [] => True
  | r :: rs => Forall (fun r' => forall x, range_in r x -> range_in r' x -> False) rs /\
               ranges_disjoint rs
  end.

Lemma on_allocator_single {A} a mm (f : pstate -> outcome (A * pstate)) :
  on_allocator (mkSystem [a] mm) 0 f =
  ('(r, st) ← f (mkPstate a mm); Ok (r, mkSystem [pa st] (mem_map st))).
Proof. reflexivity. Qed.

Lemma InitRanges_single a mm rs :
  Inv [] [] (mkPstate a mm) -> Forall (range_ok mm) rs -> ranges_disjoint rs ->
  (forall r x, r ∈ rs -> range_in r x -> ~ covers (free_blocks a) x) ->
  exists a' mm', InitRanges (mkSystem [a] mm) rs = Ok (mkSystem [a'] mm') /\
    Inv [] [] (mkPstate a' mm') /\ allocations_ a' = allocations_ a /\
    (forall x, covers (free_blocks a') x <->
       (exists r, r ∈ rs /\ range_in r x) \/ covers (free_blocks a) x).
Proof.
  revert a mm. induction rs as [|[[s e] n] rs IH]; intros a mm I Hok Hd Hfresh; cbn [InitRanges].
  - exists a, mm. split_and!; [done.. |]. intros x. set_solver.
  - apply Forall_cons in Hok as [(-> & H0 & H1 & H2 & Hm) Hok]. destruct Hd as [Hd Hds].
    destruct (InitRange_spec [] (mkPstate a mm) s e I H0 H1 H2) as (st & E & I1 & _ & Hc & Hm1 & Ha).
    { intros x Hx. split; [| by apply Hm]. unfold blocks. rewrite !app_nil_r.
      apply (Hfresh (s, e, 0)); [by left | done]. }
    rewrite on_allocator_single, E. cbn [mbind outcome_bind]. destruct st as [a1 mm1]. cbn in *.
    destruct (IH a1 mm1 I1) as (a' & mm' & -> & I' & Ha' & Hc'); [| done | |].
    + rewrite Forall_forall in Hok |- *. intros [[s' e'] n'] Hr.
      destruct (Hok _ Hr) as (? & ? & ? & ? & Hm'). cbn. repeat split; auto; tauto.
    + intros r x Hr Hx. rewrite Hc. rewrite Forall_forall in Hd.
      intros [Hx'|Hx']; [by apply (Hd r Hr x) |]. apply (Hfresh r x); [by right | done | done].
    + exists a', mm'. split_and!; [done | done | congruence |].
      intros x. rewrite Hc', Hc. setoid_rewrite elem_of_cons. split.
      * intros [(r & ? & ?)|[?|?]]; [left; eauto | left; exists (s, e, 0); auto | by right].
      * intros [(r & [->|?] & ?)|?]; [right; by left | left; eauto | right; by right].
Qed.

Lemma Init_single_spec pc mm rs :
  (forall p page, mm !! p = Some page -> usage page <> kPageAllocator) ->
  Forall (range_ok mm) rs -> ranges_disjoint rs ->
  exists a mm', Init pc 1 mm rs = Ok (mkSystem [a] mm') /\ CInv pc [] (mkPstate a mm') /\
    (forall x, covers (free_blocks a) x <-> exists r, r ∈ rs /\ range_in r x).
Proof.
  intros Hmm Hok Hd. unfold Init.
  change ((fun i => new_PageAllocator (Z.of_nat i)) <$> seq 0 1) with [new_PageAllocator 0].
  destruct (InitRanges_single (new_PageAllocator 0) mm rs) as (a & mm' & E & I & Ha & Hc); try done.
  { by apply Inv_new. }
  { intros r x _ _ (b & Hb & _). change (free_blocks _) with (@nil block) in Hb. set_solver. }
  rewrite E. cbn [mbind outcome_bind sys_map allocators validate_all].
  exists a, mm'. split_and!.
  - destruct pc; [| done]. by rewrite (Validate_Inv _ _ _ I).
  - split; [done |]. intros _. constructor; cbn; rewrite Ha; [constructor | done].
  - intros x. rewrite Hc. split; [intros [?|(b & Hb & _)]; [done |] | by left].
    change (free_blocks _) with (@nil block) in Hb. set_solver.
Qed.

(** A whole boot on one node: from a memory map in which no page is tagged
    free, [Init] over disjoint mapped ranges succeeds, the checker validates,
    and the node's allocator satisfies the invariant with exactly the pages of
    the ranges free and nothing allocated. *)
Theorem Init_single_node pc mm rs :
  (forall p page, mm !! p = Some page -> usage page <> kPageAllocator) ->
  Forall (range_ok mm) rs -> ranges_disjoint rs ->
  exists a mm', Init pc 1 mm rs = Ok (mkSystem [a] mm') /\ CInv pc [] (mkPstate a mm') /\
    (forall x, covers (free_blocks a) x <-> exists r, r ∈ rs /\ range_in r x).
Proof. apply Init_single_spec. Qed.
