(* ===== verification/BuddyWitness.v ===== *)
(** * The page allocator on a concrete machine

    A 16-page memory map whose frames 3 to 12 are released at boot.  The
    lemmas below run the theorems of the buddy allocator on it, and show what
    [Free] does with a buddy that is linked in another node's list. *)

From S2P Require Import Prelude Pfn MemMap PageAllocator.
From S2P Require Import BuddyInvariant BuddyChecker BuddyCorrect BuddyInit.

Definition demo_map : gmap Z Page :=
  list_to_map ((fun i => (Z.of_nat i, new_Page 0)) <$> seq 0 16).
Definition demo_boot : pstate := mkPstate (new_PageAllocator 0) demo_map.
Definition demo_st : pstate :=
  match InitRange demo_boot 3 13 with Ok st => st | Fail _ => demo_boot end.

Example demo_blocks : free_blocks (pa demo_st) = [(12, 0%nat); (3, 0%nat); (8, 2%nat); (4, 2%nat)].
Proof. vm_compute. reflexivity. Qed.

Lemma demo_untagged p page : demo_map !! p = Some page -> usage page <> kPageAllocator.
Proof.
  intros Hp. assert (bool_decide (map_Forall (fun _ pg => usage pg <> kPageAllocator) demo_map) = true)
    as H by (vm_compute; reflexivity).
  apply bool_decide_eq_true in H. exact (H p page Hp).
Qed.

Lemma demo_mapped x : 3 <= x < 13 -> is_Some (demo_map !! x).
Proof.
  intros Hx. assert (x = 3 \/ x = 4 \/ x = 5 \/ x = 6 \/ x = 7 \/ x = 8 \/ x = 9 \/ x = 10 \/
    x = 11 \/ x = 12) as H by lia.
  destruct H as [->|[->|[->|[->|[->|[->|[->|[->|[->| ->]]]]]]]]]; eexists; vm_compute; reflexivity.
Qed.

Lemma demo_available : available [] demo_boot 3 13.
Proof.
  intros x Hx. split; [| by apply demo_mapped]. intros (b & Hb & _).
  change (blocks [] [] demo_boot) with (@nil block) in Hb. set_solver.
Qed.

Lemma demo_CInv pc : CInv pc [] demo_st.
Proof.
  destruct (InitRange_spec [] demo_boot 3 13) as (st & E & I & _ & _ & _ & Ha); try lia.
  - apply Inv_new, demo_untagged.
  - apply demo_available.
  - unfold demo_st. rewrite E. split; [done |]. intros _. constructor; rewrite Ha; constructor.
Qed.

Lemma demo_coalesced : coalesced (pa demo_st).
Proof.
  intros p k Hk. rewrite demo_blocks, !elem_of_cons, !elem_of_nil. intros H1 H2.
  destruct H1 as [[= -> ->]|[[= -> ->]|[[= -> ->]|[[= -> ->]|[]]]]]; vm_compute in H2;
    destruct H2 as [[=]|[[=]|[[=]|[[=]|[]]]]].
Qed.

Lemma AllocLocal_correct_witness :
  exists pfn st', AllocLocal true demo_st 1 (2 ^ 32) = Ok (pfn, st') /\ pfn = 8 /\
    CInv true [(pfn, 1%nat)] st'.
Proof.
  destruct (AllocLocal_correct true [] demo_st 1 (2 ^ 32)) as (p & s & E & [(-> & _)|(_ & C & _)]).
  - apply demo_CInv.
  - unfold kMaxOrder. lia.
  - intros _. cbn. unfold kMaxAllocations. lia.
  - exfalso. apply (f_equal (fun o => match o with Ok (q, _) => q | _ => 0 end)) in E.
    vm_compute in E. discriminate.
  - exists p, s. split; [exact E |]. split; [| exact C].
    apply (f_equal (fun o => match o with Ok (q, _) => q | _ => 0 end)) in E.
    vm_compute in E. congruence.
Defined.

(** The state after one allocation of order 1. *)
Definition demo_st1 : pstate :=
  match AllocLocal true demo_st 1 (2 ^ 32) with Ok (_, st) => st | Fail _ => demo_st end.

Lemma demo_alloc :
  AllocLocal true demo_st 1 (2 ^ 32) = Ok (8, demo_st1) /\ CInv true [(8, 1%nat)] demo_st1.
Proof.
  destruct (AllocLocal_spec true [] demo_st 1 (2 ^ 32) (demo_CInv true)) as (p & s & E & Hs).
  - unfold kMaxOrder. lia.
  - intros _. cbn. unfold kMaxAllocations. lia.
  - assert (s = demo_st1) as -> by (unfold demo_st1; rewrite E; reflexivity).
    assert (p = 8) as ->.
    { clear Hs. apply (f_equal (fun o => match o with Ok (q, _) => q | _ => 0 end)) in E.
      vm_compute in E. symmetry. exact E. }
    destruct Hs as [(Hn & _)|(_ & C & _)]; [discriminate Hn | split; [exact E | exact C]].
Qed.

Lemma Free_correct_witness :
  exists st', Free true demo_st1 8 1 = Ok st' /\ CInv true [] st'.
Proof.
  destruct (Free_correct true [(8, 1%nat)] [] demo_st1 8 1) as (st' & E & C & _).
  - exact (proj2 demo_alloc).
  - reflexivity.
  - exists st'. split; [exact E | exact C].
Defined.

Lemma alloc_free_roundtrip_witness :
  exists st2, Free true demo_st1 8 1 = Ok st2 /\
    free_blocks (pa st2) ≡ₚ [(12, 0%nat); (3, 0%nat); (8, 2%nat); (4, 2%nat)].
Proof.
  destruct (alloc_free_roundtrip true [] demo_st 1 (2 ^ 32) 8 demo_st1) as (st2 & E & _ & P).
  - apply demo_CInv.
  - apply demo_coalesced.
  - unfold kMaxOrder. lia.
  - intros _. cbn. unfold kMaxAllocations. lia.
  - exact (proj1 demo_alloc).
  - discriminate.
  - exists st2. split; [exact E |]. rewrite <- demo_blocks. exact P.
Defined.

Lemma reachable_safe_witness :
  separated (free_blocks (pa demo_st1) ++ [(8, 1%nat)]) /\ Validate demo_st1 = Ok true.
Proof.
  destruct (reachable_safe true demo_st [] demo_st1 [(8, 1%nat)]) as (S & _ & V & _).
  - apply demo_CInv.
  - apply rtc_once. apply (step_alloc true demo_st [] 1 (2 ^ 32)).
    + unfold kMaxOrder. lia.
    + exact (proj1 demo_alloc).
    + discriminate.
    + intros _. cbn. unfold kMaxAllocations. lia.
  - split; [exact S | exact V].
Defined.

Lemma InitRange_correct_witness :
  exists st', InitRange demo_boot 3 13 = Ok st' /\ Inv [] [] st'.
Proof.
  destruct (InitRange_correct [] demo_boot 3 13) as (st' & E & I & _); try lia.
  - apply Inv_new, demo_untagged.
  - apply demo_available.
  - exists st'. split; [exact E | exact I].
Defined.

Lemma Init_single_node_witness :
  exists a mm', Init true 1 demo_map [(3, 6, 0); (8, 13, 0)] = Ok (mkSystem [a] mm').
Proof.
  destruct (Init_single_node true demo_map [(3, 6, 0); (8, 13, 0)]) as (a & mm' & E & _).
  - apply demo_untagged.
  - repeat constructor; try lia; intros x Hx; apply demo_mapped; lia.
  - repeat constructor; cbn; intros; lia.
  - exists a, mm'. exact E.
Defined.

(** ** Buddies on another node *)

Lemma list_erase_foreign q l : q ∉ l -> list_erase q l = Fail UndefinedBehaviour.
Proof.
  induction l as [|r l IH]; [done |]. rewrite elem_of_cons. intros Hne. cbn.
  destruct (Z.eqb_spec q r); [tauto |]. by rewrite IH by tauto.
Qed.

(** [Free] trusts the buddy's descriptor but unlinks from its own lists: if
    the buddy is tagged free with the same order and is not on this
    allocator's list (it is on another node's), the unlink corrupts the lists
    (undefined behaviour). *)
Theorem Free_foreign_buddy st pfn k page :
  (k < kMaxOrder)%nat -> mem_map st !! PfnToBuddy pfn k = Some page ->
  usage page = kPageAllocator -> order page = k ->
  PfnToBuddy pfn k ∉ free_list (pa st) k ->
  Free false st pfn k = Fail UndefinedBehaviour.
Proof.
  intros Hk Hp Hu Ho Hn. unfold Free. cbn [mbind outcome_bind].
  destruct (Nat.leb_spec k kMaxOrder); [| lia]. cbn [kassert mbind outcome_bind].
  assert (forall fuel, FreeCoalesce (S fuel) st pfn k = Fail UndefinedBehaviour) as Hc.
  { intros fuel. cbn [FreeCoalesce]. apply Nat.ltb_lt in Hk as ->.
    rewrite Hp, Hu, bool_decide_true, Ho, Nat.eqb_refl by done. cbn [negb orb].
    by rewrite list_erase_foreign. }
  change (FreeCoalesce kMaxOrder) with (FreeCoalesce (S 10)). by rewrite Hc.
Qed.

(** Frame 4 was allocated from node 0 and its buddy, frame 5, is free on
    node 1: [Free] called on node 0's allocator. *)
Lemma Free_foreign_buddy_witness :
  Free false (mkPstate (new_PageAllocator 0)
    {[ 4 := set_usage kInUse (new_Page 0);
       5 := set_order 0 (set_usage kPageAllocator (new_Page 1)) ]}) 4 0 = Fail UndefinedBehaviour.
Proof.
  apply (Free_foreign_buddy _ 4 0 (set_order 0 (set_usage kPageAllocator (new_Page 1)))).
  - unfold kMaxOrder. lia.
  - vm_compute. reflexivity.
  - reflexivity.
  - reflexivity.
  - vm_compute. intros H. inversion H.
Defined.
