(* ===== verification/Slab.v ===== *)
(** * The slab allocator

    Models src/src/native/SlabAllocator.{h,cc}: the arithmetic that sizes a
    slab, [SlabCache] (per-core and per-node), [SlabAllocator],
    [SlabAllocatorNode] and [SlabAllocatorRoot].  A slab is a block of pages cut
    into equal objects; the descriptor of its first page holds its free list
    and the number of objects handed out.  Objects are addresses; a list of
    [FreeObject]s is the list of their addresses. *)

From S2P Require Import Prelude Pfn MemMap PageAllocator.

(** ** The page allocator and the memory map, as the slab allocator uses them *)

Class PageSource (P : Type) := {
  ps_Alloc : P -> nat -> Z -> outcome (Z * P);     (* page_allocator->Alloc(order, nid) *)
  ps_Free : P -> Z -> nat -> outcome P;            (* page_allocator->Free(pfn, order) *)
  ps_page : P -> Z -> option Page;                 (* mem_map::PfnToPage *)
  ps_write : Z -> Page -> P -> P                   (* a store through the Page* *)
}.

(** ** The size of a slab *)

(** The loop of [SlabOrder]; it stops when [order] exceeds [max_order]. *)
Fixpoint SlabOrder_loop (n : nat) (size : Z) (frac : Z) (order : nat) : nat :=
  match n with
  | O => order
  | S n =>
      let slab_size := Z.shiftl kPageSize (Z.of_nat order) in
      let objects := slab_size / size in
      let waste := slab_size - objects * size in
      if waste * frac <=? slab_size then order
      else SlabOrder_loop n size frac (S order)
  end.

Definition SlabOrder (size : Z) (max_order : nat) (frac : Z) : outcome nat :=
  f ← Fls (size - 1);
  let order := if f <? kPageShift then O else Z.to_nat (f - kPageShift + 1) in
  Ok (SlabOrder_loop (S max_order - order) size frac order).

Definition CalculateOrder (size : Z) : outcome nat :=
  order ← SlabOrder size 1 4;
  if (order <=? 1)%nat then Ok order else
  order ← SlabOrder size kMaxOrder 0;
  _ ← kassert (negb (kMaxOrder <? order)%nat);
  Ok order.

Definition CalculateFreebatch (size : Z) : Z :=
  Z.max (4 * kPageSize / size) (Z.min 256 (64 * kPageSize / size)).

Definition AddrToSlabPfn (addr : Z) (order : nat) : Z :=
  AlignDown (PfnDown addr) (Z.shiftl 1 (Z.of_nat order)).

(** ** SlabAllocatorRoot: the constants of one object size *)

Record SlabAllocatorRoot := mkRoot {
  align_ : Z;
  size_ : Z;
  order_ : nat;
  free_batch_ : Z;
  hiwater_ : Z
}.

Definition kPointerSize : Z := 8.
Definition kMaxSlabSize : Z := Z.shiftl 1 (kPageShift + Z.of_nat kMaxOrder).

Definition new_SlabAllocatorRoot (size_in align_in : Z) : outcome SlabAllocatorRoot :=
  let align := AlignUp (Z.max align_in kPointerSize) kPointerSize in
  let size := AlignUp (Z.max size_in kPointerSize) align in
  order ← CalculateOrder size;
  let free_batch := CalculateFreebatch size in
  Ok (mkRoot align size order free_batch (u64 (free_batch * 4))).

Definition NumObjectsPerSlab (r : SlabAllocatorRoot) : Z :=
  Z.shiftl kPageSize (Z.of_nat (order_ r)) / size_ r.

(** ** SlabCache and SlabAllocator *)

Record SlabCache := mkSlabCache {
  object_list_ : list Z;
  remote_list : list Z;          (* remote_.list *)
  remote_check : bool;
  partial_page_list_ : list Z
}.

(** The members of [SlabAllocator] beside its [cache_]. *)
Record SlabAllocator := mkSlabAllocator {
  remote_list_ : list Z;
  remote_cache_ : option cache_id
}.

Definition new_SlabCache : SlabCache := mkSlabCache [] [] false [].
Definition new_SlabAllocator : SlabAllocator := mkSlabAllocator [] None.

(** The caches of all roots.  [GetCpuAllocator] and [GetNodeAllocator] create an
    empty allocator on first use, so an absent entry is an empty one. *)
Record Slab (P : Type) := mkSlab {
  caches : gmap cache_id SlabCache;
  cpu_allocators_ : gmap (nat * nat) SlabAllocator;   (* root, core *)
  pages : P
}.
Arguments mkSlab {P}.
Arguments caches {P}.
Arguments cpu_allocators_ {P}.
Arguments pages {P}.

Section State.
Context {P : Type}.
Implicit Types s : Slab P.

Definition cache (c : cache_id) s : SlabCache := default new_SlabCache (caches s !! c).
Definition cpu_allocator (r i : nat) s : SlabAllocator :=
  default new_SlabAllocator (cpu_allocators_ s !! (r, i)).
Definition set_cache (c : cache_id) (x : SlabCache) s : Slab P :=
  mkSlab (<[c := x]> (caches s)) (cpu_allocators_ s) (pages s).
Definition set_cpu (r i : nat) (x : SlabAllocator) s : Slab P :=
  mkSlab (caches s) (<[(r, i) := x]> (cpu_allocators_ s)) (pages s).
Definition set_pages (p : P) s : Slab P := mkSlab (caches s) (cpu_allocators_ s) p.

Definition set_objects (l : list Z) (x : SlabCache) : SlabCache :=
  mkSlabCache l (remote_list x) (remote_check x) (partial_page_list_ x).
Definition set_remote (l : list Z) (b : bool) (x : SlabCache) : SlabCache :=
  mkSlabCache (object_list_ x) l b (partial_page_list_ x).
Definition set_partial (l : list Z) (x : SlabCache) : SlabCache :=
  mkSlabCache (object_list_ x) (remote_list x) (remote_check x) l.
End State.

Section Operations.
Context {P : Type} `{PageSource P}.
Context (roots : nat -> SlabAllocatorRoot).   (* the roots by index *)
Context (node_of : nat -> Z).                 (* the node of each core *)
Implicit Types s : Slab P.

Definition root (c : cache_id) : SlabAllocatorRoot := roots (cache_root c).

Definition PfnToPage (pfn : Z) s : option Page := ps_page (pages s) pfn.
Definition AddrToPage (addr : Z) s : option Page := PfnToPage (PfnDown addr) s.
Definition write_page (pfn : Z) (page : Page) s : Slab P :=
  set_pages (ps_write pfn page (pages s)) s.

(** ** Frees to another core's or node's cache *)

Definition FlushRemoteList (r i : nat) s : Slab P :=
  let a := cpu_allocator r i s in
  match remote_cache_ a with
  | None => s
  | Some rc =>
      let k := cache rc s in
      let size := Z.of_nat (length (remote_list k)) in
      let list' :=
        match remote_list k with
        | [] => remote_list_ a                    (* swap *)
        | x :: l => x :: remote_list_ a ++ l      (* splice_after begin *)
        end in
      let flush_watermark := free_batch_ (roots r) in
      let check := if (size <? flush_watermark) && (flush_watermark <=? Z.of_nat (length list'))
                   then true else remote_check k in
      set_cpu r i (mkSlabAllocator [] (Some rc)) (set_cache rc (set_remote list' check k) s)
  end.

Definition FreeRemote (r i : nat) (p : Z) s : outcome (Slab P) :=
  page ← deref (AddrToPage p s);
  let cache := slab_cache (slab_data page) in
  let s :=
    if decide (cache = remote_cache_ (cpu_allocator r i s)) then s
    else
      let s := FlushRemoteList r i s in
      set_cpu r i (mkSlabAllocator (remote_list_ (cpu_allocator r i s)) cache) s in
  let a := cpu_allocator r i s in
  let s := set_cpu r i (mkSlabAllocator (p :: remote_list_ a) (remote_cache_ a)) s in
  if free_batch_ (roots r) <? Z.of_nat (length (remote_list_ (cpu_allocator r i s)))
  then Ok (FlushRemoteList r i s) else Ok s.

(** ** SlabCache *)

(** The body of the loop of [FlushFreeList] for the object [a], already taken
    off [object_list_]; core [me] runs it. *)
Definition flush_object (me : nat) (c : cache_id) (a : Z) s : outcome (Slab P) :=
  let pfn := AddrToSlabPfn a (order_ (root c)) in
  page ← deref (PfnToPage pfn s);
  let d := slab_data page in
  if decide (slab_cache d = Some c) then
    let used := u64 (slab_used d - 1) in
    let s := write_page pfn (set_slab_data (mkSlabData (a :: slab_list d) (slab_cache d) used) page) s in
    if used =? 0 then
      s ← (if 1 <? NumObjectsPerSlab (root c) then
             l ← list_erase pfn (partial_page_list_ (cache c s));
             Ok (set_cache c (set_partial l (cache c s)) s)
           else Ok s);
      p ← ps_Free (pages s) pfn (order_ (root c));
      Ok (set_pages p s)
    else if used + 1 =? NumObjectsPerSlab (root c) then
      Ok (set_cache c (set_partial (pfn :: partial_page_list_ (cache c s)) (cache c s)) s)
    else Ok s
  else FreeRemote (cache_root c) me a s.

(** The loop, on the contents [l] of [object_list_]. *)
Fixpoint flush_loop (me : nat) (c : cache_id) (l : list Z) (freed amount : Z) s : outcome (Slab P) :=
  match l with
  | [] => Ok s
  | a :: l =>
      if freed <? amount then
        let s := set_cache c (set_objects l (cache c s)) s in
        s ← flush_object me c a s;
        flush_loop me c l (freed + 1) amount s
      else Ok s
  end.

Definition FlushFreeList (me : nat) (c : cache_id) (amount : Z) s : outcome (Slab P) :=
  flush_loop me c (object_list_ (cache c s)) 0 amount s.

Definition FlushFreeListAll (me : nat) (c : cache_id) s : outcome (Slab P) :=
  FlushFreeList me c (2 ^ 64 - 1) s.

Definition ClaimRemoteFreeList (c : cache_id) s : outcome (Slab P) :=
  let k := cache c s in
  match object_list_ k, remote_list k with
  | [], l => Ok (set_cache c (set_remote [] (remote_check k) (set_objects l k)) s)
  | l, [] => Ok s
  | _, _ => Fail UndefinedBehaviour            (* splice_after the end *)
  end.

(** [while (object_list_.size() > hiwater) FlushFreeList(free_batch)]. *)
Fixpoint flush_while (fuel : nat) (me : nat) (c : cache_id) s : outcome (Slab P) :=
  if hiwater_ (root c) <? Z.of_nat (length (object_list_ (cache c s))) then
    match fuel with
    | O => Fail Diverges
    | S fuel => s ← FlushFreeList me c (free_batch_ (root c)) s; flush_while fuel me c s
    end
  else Ok s.

(** An object from the first partial page. *)
Definition partial_alloc (c : cache_id) s : outcome (option Z * Slab P) :=
  match partial_page_list_ (cache c s) with
  | [] => Ok (None, s)
  | pfn :: rest =>
      page ← deref (PfnToPage pfn s);
      let d := slab_data page in
      _ ← kassert (slab_used d <? NumObjectsPerSlab (root c));
      let s := if slab_used d + 1 =? NumObjectsPerSlab (root c)
               then set_cache c (set_partial rest (cache c s)) s else s in
      match slab_list d with
      | [] => Fail AssertFailed
      | a :: l =>
          Ok (Some a, write_page pfn (set_slab_data (mkSlabData l (slab_cache d) (slab_used d + 1)) page) s)
      end
  end.

(** [SlabCache::Alloc], with a bound on the number of [goto retry]. *)
Fixpoint cache_alloc (retries : nat) (me : nat) (c : cache_id) s : outcome (option Z * Slab P) :=
  match object_list_ (cache c s) with
  | a :: l => Ok (Some a, set_cache c (set_objects l (cache c s)) s)
  | [] =>
      if remote_check (cache c s) then
        match retries with
        | O => Fail Diverges
        | S retries =>
            let s := set_cache c (set_remote (remote_list (cache c s)) false (cache c s)) s in
            s ← ClaimRemoteFreeList c s;
            s ← flush_while (S (length (object_list_ (cache c s)))) me c s;
            cache_alloc retries me c s
        end
      else partial_alloc c s
  end.

(** One retry is enough ([CacheAlloc_ok]). *)
Definition CacheAlloc (me : nat) (c : cache_id) s : outcome (option Z * Slab P) :=
  cache_alloc 1 me c s.

(** The loop of [AddSlab] over the objects of the slab. *)
Fixpoint add_objects (c : cache_id) (pfn : Z) (n : nat) (addr : Z) s : outcome (Slab P) :=
  match n with
  | O => Ok s
  | S n =>
      page ← deref (PfnToPage pfn s);
      let d := slab_data page in
      let s := write_page pfn (set_slab_data (mkSlabData (addr :: slab_list d) (slab_cache d) (slab_used d)) page) s in
      addr_page ← deref (AddrToPage addr s);
      let d := slab_data addr_page in
      let s := write_page (PfnDown addr)
                 (set_slab_data (mkSlabData (slab_list d) (Some c) (slab_used d)) addr_page) s in
      add_objects c pfn n (addr + size_ (root c)) s
  end.

Definition AddSlab (c : cache_id) (pfn : Z) s : outcome (Slab P) :=
  page ← deref (PfnToPage pfn s);
  let page := set_usage kSlabAllocator page in
  let s := write_page pfn (set_slab_data (mkSlabData [] (slab_cache (slab_data page)) 0) page) s in
  s ← add_objects c pfn (Z.to_nat (NumObjectsPerSlab (root c))) (ToAddr pfn) s;
  Ok (set_cache c (set_partial (pfn :: partial_page_list_ (cache c s)) (cache c s)) s).

Definition CacheFree (me : nat) (c : cache_id) (p : Z) s : outcome (Slab P) :=
  let s := set_cache c (set_objects (p :: object_list_ (cache c s)) (cache c s)) s in
  if hiwater_ (root c) <? Z.of_nat (length (object_list_ (cache c s)))
  then FlushFreeList me c (free_batch_ (root c)) s else Ok s.

(** ** SlabAllocator and SlabAllocatorNode *)

(** The common body of the three allocation functions: the cache, then a new
    slab from node [nid]. *)
Definition alloc_or_grow (me : nat) (c : cache_id) (nid : Z) s : outcome (option Z * Slab P) :=
  '(ret, s) ← CacheAlloc me c s;
  match ret with
  | Some a => Ok (Some a, s)
  | None =>
      '(pfn, p) ← ps_Alloc (pages s) (order_ (root c)) nid;
      let s := set_pages p s in
      if pfn =? PfnNone then Ok (None, s) else
      s ← AddSlab c pfn s;
      '(ret, s) ← CacheAlloc me c s;
      a ← deref ret;
      Ok (Some a, s)
  end.

(** [SlabAllocator::Alloc] on core [me], for root [r]. *)
Definition SlabAlloc (me r : nat) s : outcome (option Z * Slab P) :=
  alloc_or_grow me (mkCacheId r (OfCpu me)) (node_of me) s.

(** [SlabAllocatorNode::Alloc]. *)
Definition NodeAlloc (me r : nat) (nid : Z) s : outcome (option Z * Slab P) :=
  alloc_or_grow me (mkCacheId r (OfNode nid)) nid s.

Definition SlabAllocNid (me r : nat) (nid : Z) s : outcome (option Z * Slab P) :=
  if nid =? node_of me then alloc_or_grow me (mkCacheId r (OfCpu me)) nid s
  else NodeAlloc me r nid s.

Definition SlabFree (me r : nat) (p : Z) s : outcome (Slab P) :=
  page ← deref (AddrToPage p s);
  if page_nid page =? node_of me then CacheFree me (mkCacheId r (OfCpu me)) p s
  else FreeRemote r me p s.

(** ** ~SlabAllocatorRoot *)

Fixpoint foreach {A} (f : A -> Slab P -> outcome (Slab P)) (l : list A) s : outcome (Slab P) :=
  match l with
  | [] => Ok s
  | x :: l => s ← f x s; foreach f l s
  end.

Definition cache_dtor (c : cache_id) s : outcome (Slab P) :=
  _ ← kassert (bool_decide (object_list_ (cache c s) = []));
  _ ← kassert (bool_decide (remote_list (cache c s) = []));
  Ok s.

(** Run by core [me]; [cpus] and [nodes] are the allocators created so far. *)
Definition root_dtor (me r : nat) (cpus : list nat) (nodes : list Z) s : outcome (Slab P) :=
  s ← foreach (fun i s =>
        s ← FlushFreeListAll me (mkCacheId r (OfCpu i)) s; Ok (FlushRemoteList r i s)) cpus s;
  s ← foreach (fun i s =>
        let c := mkCacheId r (OfCpu i) in
        s ← ClaimRemoteFreeList c s; FlushFreeListAll me c s) cpus s;
  s ← foreach (fun n s =>
        let c := mkCacheId r (OfNode n) in
        s ← ClaimRemoteFreeList c s; s ← FlushFreeListAll me c s; cache_dtor c s) nodes s;
  foreach (fun i s => cache_dtor (mkCacheId r (OfCpu i)) s) cpus s.
End Operations.

(** ** GetNodeAllocator: two cores create the allocator of a node

    [slot] is [node_allocators_\[index\]] and [live] the set of allocators that
    exist; [fresh] is the one this core has just created after reading null. *)
Record NodeSlot := mkNodeSlot { slot : option nat; live : gset nat }.

Definition GetNodeAllocator_publish (fresh : nat) (n : NodeSlot) : outcome (nat * NodeSlot) :=
  match slot n with
  | None => Ok (fresh, mkNodeSlot (Some fresh) (live n))
  | Some winner =>
      (* compare_exchange_strong has stored [winner] in [allocator] *)
      Ok (winner, mkNodeSlot (Some winner) (live n ∖ {[winner]}))
  end.
