(* ===== verification/SlabInvariant.v ===== *)
(** * The slab allocator: objects, slabs and the invariant

    What the slab allocator needs of the page allocator ([PageSourceOk]), the
    geometry of a slab (its objects are disjoint, lie in its block, and
    [AddrToSlabPfn] finds the slab of an object), and the invariant [SlabInv]:
    every object of every slab is in exactly one place, the slab's own free
    list, a list of a core or node, or the hands of a caller; and the
    descriptors and partial lists agree with it. *)

From S2P Require Import Prelude Pfn MemMap PageAllocator BuddyInvariant Slab.

(** ** What the page allocator promises *)

Class PageSourceOk (P : Type) `{PageSource P} := {
  holds : P -> list block -> Prop;      (* the blocks handed out *)
  holds_perm p A B : A ≡ₚ B -> holds p A -> holds p B;
  holds_sep p A : holds p A -> separated A;
  holds_wf p A : holds p A -> Forall wf_block A;
  holds_mapped p A x : holds p A -> covers A x -> is_Some (ps_page p x);
  ps_Alloc_ok p A k nid :
    holds p A -> (k <= kMaxOrder)%nat ->
    exists pfn p', ps_Alloc p k nid = Ok (pfn, p') /\
      (forall x, covers A x -> ps_page p' x = ps_page p x) /\
      (pfn = PfnNone /\ holds p' A \/ pfn <> PfnNone /\ holds p' ((pfn, k) :: A));
  ps_Free_ok p A pfn k :
    holds p ((pfn, k) :: A) ->
    exists p', ps_Free p pfn k = Ok p' /\ holds p' A /\
      (forall x, covers A x -> ps_page p' x = ps_page p x);
  ps_write_ok p A x pg pg' :
    holds p A -> covers A x -> ps_page p x = Some pg -> order pg' = order pg ->
    usage pg' = usage pg \/ usage pg' = kSlabAllocator ->
    holds (ps_write x pg' p) A /\
    forall y, ps_page (ps_write x pg' p) y = if decide (y = x) then Some pg' else ps_page p y
}.

(** ** The geometry of a slab *)

Record root_ok (r : SlabAllocatorRoot) : Prop := {
  rt_size : 0 < size_ r;
  rt_order : (order_ r <= kMaxOrder)%nat;
  rt_fits : size_ r <= kPageSize * block_size (order_ r);
  rt_hiwater : 0 <= hiwater_ r
}.

Definition slab_objects (r : SlabAllocatorRoot) (pfn : Z) : list Z :=
  (fun i => ToAddr pfn + Z.of_nat i * size_ r) <$> seq 0 (Z.to_nat (NumObjectsPerSlab r)).

Lemma slab_bytes k : Z.shiftl kPageSize (Z.of_nat k) = kPageSize * block_size k.
Proof. rewrite Z.shiftl_mul_pow2 by lia. done. Qed.

Section Geometry.
Context (r : SlabAllocatorRoot) (Hr : root_ok r).

Lemma NumObjects_eq : NumObjectsPerSlab r = kPageSize * block_size (order_ r) / size_ r.
Proof. unfold NumObjectsPerSlab. by rewrite slab_bytes. Qed.

Lemma NumObjects_pos : 1 <= NumObjectsPerSlab r.
Proof. rewrite NumObjects_eq. destruct Hr. apply Z.div_le_lower_bound; lia. Qed.

Lemma NumObjects_fit : NumObjectsPerSlab r * size_ r <= kPageSize * block_size (order_ r).
Proof. rewrite NumObjects_eq. destruct Hr. rewrite Z.mul_comm. by apply Z.mul_div_le. Qed.

Lemma NumObjects_bound : NumObjectsPerSlab r < 2 ^ 32.
Proof.
  pose proof NumObjects_pos. pose proof NumObjects_fit. destruct Hr.
  assert (block_size (order_ r) <= 2 ^ 11) by (change (2 ^ 11) with (block_size 11); by apply block_size_le).
  change kPageSize with 4096 in *. nia.
Qed.

Lemma slab_objects_length pfn : length (slab_objects r pfn) = Z.to_nat (NumObjectsPerSlab r).
Proof. unfold slab_objects. by rewrite length_fmap, length_seq. Qed.

Lemma slab_objects_NoDup pfn : NoDup (slab_objects r pfn).
Proof.
  destruct Hr. apply NoDup_fmap_2_strong; [| apply NoDup_seq]. intros i j _ _ E. nia.
Qed.

Lemma slab_objects_elem pfn a :
  a ∈ slab_objects r pfn <->
  exists i, 0 <= i < NumObjectsPerSlab r /\ a = ToAddr pfn + i * size_ r.
Proof.
  pose proof NumObjects_pos. unfold slab_objects. rewrite list_elem_of_fmap. split.
  - intros (i & -> & Hi%elem_of_seq). exists (Z.of_nat i). split; [lia | done].
  - intros (i & Hi & ->). exists (Z.to_nat i). rewrite Z2Nat.id, elem_of_seq by lia. split; [done | lia].
Qed.

Context (pfn : Z) (Hwf : wf_block (pfn, order_ r)).

Lemma slab_addr : ToAddr pfn = pfn * kPageSize.
Proof.
  destruct Hwf as (H0 & H1 & _). cbn in *. pose proof (block_size_pos (order_ r)).
  apply ToAddr_eq. lia.
Qed.

(** An object lies inside the slab. *)
Lemma slab_object_range a :
  a ∈ slab_objects r pfn ->
  pfn * kPageSize <= a /\ a + size_ r <= (pfn + block_size (order_ r)) * kPageSize.
Proof.
  rewrite slab_objects_elem, slab_addr. intros (i & Hi & ->). pose proof NumObjects_fit. destruct Hr. nia.
Qed.

Lemma slab_object_page a : a ∈ slab_objects r pfn -> in_block pfn (order_ r) (PfnDown a).
Proof.
  intros [Hl Hu]%slab_object_range. destruct Hr. unfold in_block, PfnDown.
  rewrite Z.shiftr_div_pow2 by done. change (2 ^ kPageShift) with kPageSize.
  assert (0 < kPageSize) by done. split.
  - apply Z.div_le_lower_bound; lia.
  - apply Z.div_lt_upper_bound; lia.
Qed.

Lemma AddrToSlabPfn_ok a : a ∈ slab_objects r pfn -> AddrToSlabPfn a (order_ r) = pfn.
Proof.
  intros Ha%slab_object_page. destruct Hwf as (H0 & _ & Hal & _). cbn in *. unfold AddrToSlabPfn.
  rewrite Z.shiftl_mul_pow2, Z.mul_1_l by lia. rewrite AlignDown_pow2 by lia.
  change (2 ^ Z.of_nat (order_ r)) with (block_size (order_ r)).
  pose proof (block_size_pos (order_ r)) as Hp. unfold in_block in Ha. unfold aligned in Hal.
  apply Z.mod_divide in Hal as [m ->]; [| lia].
  replace (PfnDown a) with ((PfnDown a - m * block_size (order_ r)) + m * block_size (order_ r)) at 2 by lia.
  rewrite Z.mod_add, Z.mod_small; lia.
Qed.

(** Two objects of one slab do not overlap. *)
Lemma slab_objects_disjoint a b :
  a ∈ slab_objects r pfn -> b ∈ slab_objects r pfn -> a <> b ->
  a + size_ r <= b \/ b + size_ r <= a.
Proof.
  rewrite !slab_objects_elem. intros (i & Hi & ->) (j & Hj & ->) Hn. destruct Hr.
  assert (i <> j) by congruence. nia.
Qed.
End Geometry.

(** ** Where the objects are *)

(** Objects are paired with their root, so that lists of several sizes mix. *)
Definition tag (r : nat) (l : list Z) : list (Z * nat) := (fun a => (a, r)) <$> l.

#[export] Instance tag_proper r : Proper ((≡ₚ) ==> (≡ₚ)) (tag r).
Proof. apply fmap_Permutation. Qed.

Section Places.
Context {P : Type}.
Implicit Types s : Slab P.

Definition cache_objects (c : cache_id) (k : SlabCache) : list (Z * nat) :=
  tag (cache_root c) (object_list_ k ++ remote_list k).
Definition cpu_objects (i : nat * nat) (a : SlabAllocator) : list (Z * nat) :=
  tag i.1 (remote_list_ a).

(** The objects in the lists of all cores and nodes. *)
Definition loose s : list (Z * nat) :=
  (map_to_list (caches s) ≫= fun ck => cache_objects ck.1 ck.2) ++
  (map_to_list (cpu_allocators_ s) ≫= fun ia => cpu_objects ia.1 ia.2).

(** Replacing one entry of a map of lists. *)
Lemma map_bind_insert {K A B} `{Countable K} (f : K -> A -> list B) (d : A) (m : gmap K A) k x :
  f k d = [] ->
  (map_to_list (<[k := x]> m) ≫= fun p => f p.1 p.2) ++ f k (default d (m !! k)) ≡ₚ
  (map_to_list m ≫= fun p => f p.1 p.2) ++ f k x.
Proof.
  intros Hd. destruct (m !! k) as [y|] eqn:E; cbn [default].
  - rewrite <- insert_delete_eq, map_to_list_insert by apply lookup_delete_eq.
    rewrite <- (map_to_list_delete m k y E). cbn. solve_Permutation.
  - rewrite map_to_list_insert, Hd by done. cbn. solve_Permutation.
Qed.

Lemma loose_set_cache c x s :
  loose (set_cache c x s) ++ cache_objects c (cache c s) ≡ₚ loose s ++ cache_objects c x.
Proof.
  unfold loose, cache. cbn [caches cpu_allocators_ set_cache].
  pose proof (map_bind_insert cache_objects new_SlabCache (caches s) c x eq_refl) as Hm.
  rewrite <- !app_assoc, (Permutation_app_comm _ (cache_objects c (default _ _))), app_assoc, Hm.
  solve_Permutation.
Qed.

Lemma loose_set_cpu r i x s :
  loose (set_cpu r i x s) ++ tag r (remote_list_ (cpu_allocator r i s)) ≡ₚ
  loose s ++ tag r (remote_list_ x).
Proof.
  unfold loose, cpu_allocator. cbn [caches cpu_allocators_ set_cpu].
  pose proof (map_bind_insert cpu_objects new_SlabAllocator (cpu_allocators_ s) (r, i) x eq_refl) as Hm.
  unfold cpu_objects at 2 4 in Hm. cbn [fst] in Hm. rewrite <- !app_assoc, Hm. done.
Qed.

Lemma loose_set_pages p s : loose (set_pages p s) = loose s.
Proof. done. Qed.

Lemma cache_set_cache c c' x s :
  cache c (set_cache c' x s) = if decide (c = c') then x else cache c s.
Proof.
  unfold cache. cbn. case_decide as E; [subst; by rewrite lookup_insert_eq | by rewrite lookup_insert_ne].
Qed.

Lemma cpu_set_cpu r i r' i' x s :
  cpu_allocator r i (set_cpu r' i' x s) = if decide ((r, i) = (r', i')) then x else cpu_allocator r i s.
Proof.
  unfold cpu_allocator. cbn.
  case_decide as E; [injection E as -> ->; by rewrite lookup_insert_eq | by rewrite lookup_insert_ne].
Qed.

Lemma cache_set_cache_eq c x s : cache c (set_cache c x s) = x.
Proof. rewrite cache_set_cache. by rewrite decide_True. Qed.
Lemma cache_set_cache_ne c c' x s : c <> c' -> cache c (set_cache c' x s) = cache c s.
Proof. intros. rewrite cache_set_cache. by rewrite decide_False. Qed.
Lemma cpu_set_cpu_eq r i x s : cpu_allocator r i (set_cpu r i x s) = x.
Proof. rewrite cpu_set_cpu. by rewrite decide_True. Qed.
Lemma cache_set_cpu c r i x s : cache c (set_cpu r i x s) = cache c s.
Proof. done. Qed.
Lemma cpu_set_cache r i c x s : cpu_allocator r i (set_cache c x s) = cpu_allocator r i s.
Proof. done. Qed.
End Places.

(** ** The invariant *)

Section Invariant.
Context {P : Type} `{PageSourceOk P}.
Context (roots : nat -> SlabAllocatorRoot) (Hroots : forall r, root_ok (roots r)).
Implicit Types s : Slab P.

(** A slab is its first page and its root. *)
Definition slab_block (x : Z * nat) : block := (x.1, order_ (roots x.2)).
Definition slab_objs (x : Z * nat) : list (Z * nat) := tag x.2 (slab_objects (roots x.2) x.1).
Definition slab_at s (pfn : Z) : option SlabData := slab_data <$> PfnToPage pfn s.
Definition slab_free s (x : Z * nat) : list (Z * nat) :=
  match slab_at s x.1 with Some d => tag x.2 (slab_list d) | None => [] end.
Definition partial_at (c : cache_id) s : list Z := partial_page_list_ (cache c s).

(** The page of the object [a] names [c] as its cache. *)
Definition home s (a : Z) (c : cache_id) : Prop :=
  exists d, slab_at s (PfnDown a) = Some d /\ slab_cache d = Some c.

(** The descriptor [d] of the slab [pfn] of root [r], owned by cache [c]. *)
Record slab_ok s (pfn : Z) (r : nat) (d : SlabData) (c : cache_id) : Prop := {
  so_at : slab_at s pfn = Some d;
  so_cache : slab_cache d = Some c;
  so_root : cache_root c = r;
  so_list : slab_list d ⊆ slab_objects (roots r) pfn;
  so_used : slab_used d = NumObjectsPerSlab (roots r) - Z.of_nat (length (slab_list d));
  so_home a : a ∈ slab_objects (roots r) pfn -> home s a c;
  so_partial : pfn ∈ partial_at c s <-> slab_list d <> []
}.

(** [S]: the slabs; [X]: the blocks other users hold; [U]: the objects handed
    out. *)
Record SlabInv (S : list (Z * nat)) (X : list block) (U : list (Z * nat)) s : Prop := {
  si_hold : holds (pages s) ((slab_block <$> S) ++ X);
  si_perm : (S ≫= slab_objs) ≡ₚ (S ≫= slab_free s) ++ loose s ++ U;
  si_slab pfn r : (pfn, r) ∈ S -> exists d c, slab_ok s pfn r d c;
  si_partial c : NoDup (partial_at c s);
  si_partial_slab c pfn : pfn ∈ partial_at c s ->
    (pfn, cache_root c) ∈ S /\ exists d, slab_at s pfn = Some d /\ slab_cache d = Some c;
  si_remote c a : a ∈ remote_list (cache c s) -> home s a c;
  si_check c : remote_check (cache c s) = true -> 0 < free_batch_ (roots (cache_root c));
  si_cpu_root r i c : remote_cache_ (cpu_allocator r i s) = Some c -> cache_root c = r;
  si_cpu r i a : a ∈ remote_list_ (cpu_allocator r i s) ->
    exists c, remote_cache_ (cpu_allocator r i s) = Some c /\ home s a c
}.

Lemma SlabInv_perm S S' X U U' s : S ≡ₚ S' -> U ≡ₚ U' -> SlabInv S X U s -> SlabInv S' X U' s.
Proof.
  intros HS HU I. constructor; try by apply I.
  - eapply holds_perm; [| apply I]. by rewrite HS.
  - rewrite <- HS, <- HU. apply I.
  - intros pfn r Hin. apply I. by rewrite HS.
  - intros c pfn Hin. rewrite <- HS. by apply I.
Qed.

(** ** Distinct slabs share no page, so objects are distinct *)

Lemma covers_fmap S X x : covers ((slab_block <$> S) ++ X) x <->
  (exists y, y ∈ S /\ in_block y.1 (order_ (roots y.2)) x) \/ covers X x.
Proof.
  rewrite covers_app. unfold covers at 1. split.
  - intros [(b & (y & -> & Hy)%list_elem_of_fmap & Hb)|]; [left; by exists y | by right].
  - intros [(y & Hy & Hb)|]; [left; exists (slab_block y); split; [by apply list_elem_of_fmap_2 | done] | by right].
Qed.

Lemma tag_elem r a r' l : (a, r) ∈ tag r' l <-> r = r' /\ a ∈ l.
Proof. unfold tag. rewrite list_elem_of_fmap. naive_solver. Qed.

Lemma tag_NoDup r l : NoDup l -> NoDup (tag r l).
Proof. intros. apply NoDup_fmap_2; [| done]. by intros ?? [= ->]. Qed.

Lemma tag_app r l l' : tag r (l ++ l') = tag r l ++ tag r l'.
Proof. apply fmap_app. Qed.

Lemma slab_wf S X U s pfn r : SlabInv S X U s -> (pfn, r) ∈ S -> wf_block (pfn, order_ (roots r)).
Proof.
  intros I Hin. pose proof (holds_wf _ _ (si_hold _ _ _ _ I)) as Hf.
  rewrite Forall_app, Forall_fmap, Forall_forall in Hf. destruct Hf as [Hf _]. by apply (Hf _ Hin).
Qed.

Lemma slab_objs_elem S a r :
  (a, r) ∈ (S ≫= slab_objs) <-> exists pfn, (pfn, r) ∈ S /\ a ∈ slab_objects (roots r) pfn.
Proof.
  rewrite list_elem_of_bind. split.
  - intros ([pfn r'] & Ha & Hin). unfold slab_objs in Ha. cbn in Ha. apply tag_elem in Ha as [-> Ha]. eauto.
  - intros (pfn & Hin & Ha). exists (pfn, r). split; [| done]. by apply tag_elem.
Qed.

(** The slab whose block holds a page is unique. *)
Lemma slab_unique S X U s pfn r pfn' r' x :
  SlabInv S X U s -> (pfn, r) ∈ S -> (pfn', r') ∈ S ->
  in_block pfn (order_ (roots r)) x -> in_block pfn' (order_ (roots r')) x -> (pfn, r) = (pfn', r').
Proof.
  intros I H1 H2 Hx Hx'. pose proof (holds_sep _ _ (si_hold _ _ _ _ I)) as Hs.
  clear I. induction S as [|y S IH]; [by apply not_elem_of_nil in H1 |].
  cbn in Hs. destruct Hs as [Hd Hs]. rewrite Forall_app, Forall_fmap, Forall_forall in Hd.
  destruct Hd as [Hd _].
  apply elem_of_cons in H1 as [<-|H1], H2 as [<-|H2]; [done | | | by apply IH].
  - exfalso. specialize (Hd _ H2). apply (proj1 (blocks_disjoint_spec _ _ _ _) Hd x); done.
  - exfalso. specialize (Hd _ H1). apply (proj1 (blocks_disjoint_spec _ _ _ _) Hd x); done.
Qed.

Lemma slab_head S X U s pfn r r' :
  SlabInv S X U s -> (pfn, r) ∈ S -> (pfn, r') ∈ S -> r = r'.
Proof.
  intros I H1 H2.
  assert ((pfn, r) = (pfn, r')) as [= ->]; [| done].
  eapply slab_unique; [done | done | done | apply in_block_self | apply in_block_self].
Qed.

Lemma slabs_NoDup S X U s : SlabInv S X U s -> NoDup S.
Proof.
  intros I. pose proof (separated_NoDup _ (holds_sep _ _ (si_hold _ _ _ _ I))) as Hn.
  apply NoDup_app in Hn as [Hn _]. by eapply NoDup_fmap_1.
Qed.

Lemma objects_NoDup S X U s : SlabInv S X U s -> NoDup (S ≫= slab_objs).
Proof.
  intros I. apply NoDup_bind; [| | by eapply slabs_NoDup].
  - intros [p1 r1] [p2 r2] [a r] H1 H2 Ha Hb. unfold slab_objs in Ha, Hb. cbn in Ha, Hb.
    apply tag_elem in Ha as [-> Ha], Hb as [-> Hb].
    eapply slab_unique; [done | done | done | |]; (eapply slab_object_page; [| by eapply slab_wf | done]); auto.
  - intros [p r] Hin. apply tag_NoDup, slab_objects_NoDup, Hroots.
Qed.

(** Objects in the lists or handed out are objects of slabs, and are not in
    the slab's own free list. *)
Lemma out_object S X U s a r :
  SlabInv S X U s -> (a, r) ∈ loose s ++ U ->
  exists pfn d c, (pfn, r) ∈ S /\ a ∈ slab_objects (roots r) pfn /\ slab_ok s pfn r d c /\
    a ∉ slab_list d.
Proof.
  intros I Hin. pose proof (objects_NoDup _ _ _ _ I) as Hn. rewrite (si_perm _ _ _ _ I) in Hn.
  assert ((a, r) ∈ (S ≫= slab_objs)) as Ho.
  { rewrite (si_perm _ _ _ _ I). apply elem_of_app. by right. }
  apply slab_objs_elem in Ho as (pfn & HS & Ha). destruct (si_slab _ _ _ _ I _ _ HS) as (d & c & Hok).
  exists pfn, d, c. split_and!; [done | done | done |]. intros Hl.
  apply NoDup_app in Hn as (_ & Hd & _). apply (Hd (a, r)); [| done].
  apply list_elem_of_bind. exists (pfn, r). split; [| done]. unfold slab_free. cbn.
  rewrite (so_at _ _ _ _ _ Hok). by apply tag_elem.
Qed.

(** Then the slab has a free slot for it. *)
Lemma out_room s pfn r d c a :
  slab_ok s pfn r d c -> NoDup (slab_list d) -> a ∈ slab_objects (roots r) pfn -> a ∉ slab_list d ->
  1 <= slab_used d.
Proof.
  intros Hok Hn Ha Hl. rewrite (so_used _ _ _ _ _ Hok).
  assert (a :: slab_list d ⊆+ slab_objects (roots r) pfn) as Hsub.
  { apply NoDup_submseteq; [by constructor |]. intros x [->|Hx]%elem_of_cons; [done |].
    by apply (so_list _ _ _ _ _ Hok). }
  apply submseteq_length in Hsub. rewrite slab_objects_length in Hsub. cbn in Hsub.
  pose proof (NumObjects_pos _ (Hroots r)). lia.
Qed.

Lemma slab_list_NoDup S X U s pfn r d c :
  SlabInv S X U s -> (pfn, r) ∈ S -> slab_ok s pfn r d c -> NoDup (slab_list d).
Proof.
  intros I HS Hok. pose proof (objects_NoDup _ _ _ _ I) as Hn. rewrite (si_perm _ _ _ _ I) in Hn.
  apply NoDup_app in Hn as (Hn & _). apply elem_of_Permutation in HS as [S' HS]. rewrite HS in Hn.
  cbn in Hn. apply NoDup_app in Hn as (Hn & _). unfold slab_free in Hn. cbn in Hn.
  rewrite (so_at _ _ _ _ _ Hok) in Hn. by eapply NoDup_fmap_1.
Qed.

(** ** Steps of the invariant *)

Lemma slab_ok_ext s s' pfn r d c :
  wf_block (pfn, order_ (roots r)) ->
  (forall x, in_block pfn (order_ (roots r)) x -> slab_at s' x = slab_at s x) ->
  (pfn ∈ partial_at c s' <-> pfn ∈ partial_at c s) ->
  slab_ok s pfn r d c -> slab_ok s' pfn r d c.
Proof.
  intros Hwf Hat Hp [? ? ? ? ? Hh ?]. constructor; try done.
  - rewrite Hat; [done | apply in_block_self].
  - intros a Ha. destruct (Hh a Ha) as (d' & Hd & ?). exists d'. rewrite Hat; [done |].
    eapply slab_object_page; eauto.
  - by rewrite Hp.
Qed.

Lemma slab_free_ext S s s' :
  (forall y, y ∈ S -> slab_at s' y.1 = slab_at s y.1) -> (S ≫= slab_free s') = (S ≫= slab_free s).
Proof.
  induction S as [|y S IH]; intros Hat; [done |]. cbn. rewrite IH by (intros; apply Hat; by right).
  unfold slab_free at 1 3. by rewrite Hat by left.
Qed.

(** Objects move between the lists and the callers. *)
Lemma inv_move S X U U' s s' :
  SlabInv S X U s -> pages s' = pages s ->
  (forall c, partial_at c s' = partial_at c s) ->
  loose s' ++ U' ≡ₚ loose s ++ U ->
  (forall c a, a ∈ remote_list (cache c s') -> home s a c) ->
  (forall c, remote_check (cache c s') = true -> 0 < free_batch_ (roots (cache_root c))) ->
  (forall r i c, remote_cache_ (cpu_allocator r i s') = Some c -> cache_root c = r) ->
  (forall r i a, a ∈ remote_list_ (cpu_allocator r i s') ->
     exists c, remote_cache_ (cpu_allocator r i s') = Some c /\ home s a c) ->
  SlabInv S X U' s'.
Proof.
  intros I Hpg Hpart Hperm Hrem Hchk Hroot Hcpu.
  assert (forall x, slab_at s' x = slab_at s x) as Hat by (intros; unfold slab_at, PfnToPage; by rewrite Hpg).
  assert (forall a c, home s a c <-> home s' a c) as Hh by (intros; unfold home; by rewrite Hat).
  constructor.
  - rewrite Hpg. apply I.
  - rewrite Hperm, (si_perm _ _ _ _ I). by erewrite slab_free_ext.
  - intros pfn r HS. destruct (si_slab _ _ _ _ I _ _ HS) as (d & c & Hok). exists d, c.
    eapply (slab_ok_ext s); [by eapply slab_wf | auto | by rewrite Hpart | done].
  - intros c. rewrite Hpart. apply I.
  - intros c pfn. rewrite Hpart, Hat. apply I.
  - intros c a Ha. apply Hh. auto.
  - done.
  - done.
  - intros r i a Ha. destruct (Hcpu r i a Ha) as (c & ? & ?). exists c. by rewrite <- Hh.
Qed.

Lemma slab_rest S X U s pfn r q r' :
  SlabInv ((pfn, r) :: S) X U s -> (q, r') ∈ S -> q <> pfn.
Proof.
  intros I Hin ->. pose proof (slabs_NoDup _ _ _ _ I) as [Hnin _]%NoDup_cons. apply Hnin.
  assert (r = r') as -> by (eapply slab_head; [done | by left | by right]). done.
Qed.

(** Two caches never list the same slab. *)
Lemma partial_owner S X U s c c' pfn r d :
  SlabInv S X U s -> slab_ok s pfn r d c -> pfn ∈ partial_at c' s -> c' = c.
Proof.
  intros I Hok Hin. destruct (si_partial_slab _ _ _ _ I _ _ Hin) as (_ & e & He & Hec).
  rewrite (so_at _ _ _ _ _ Hok) in He. injection He as <-. rewrite (so_cache _ _ _ _ _ Hok) in Hec. congruence.
Qed.

(** The lists of remote frees are untouched. *)
Record same_remote s s' : Prop := {
  sr_list c : remote_list (cache c s') = remote_list (cache c s);
  sr_check c : remote_check (cache c s') = remote_check (cache c s);
  sr_cpu : cpu_allocators_ s' = cpu_allocators_ s
}.

(** One slab's free list changes. *)
Lemma inv_update S X U U' s s' pfn r d c d' :
  SlabInv ((pfn, r) :: S) X U s -> slab_ok s pfn r d c ->
  holds (pages s') ((slab_block <$> (pfn, r) :: S) ++ X) ->
  (forall x, slab_at s' x = if decide (x = pfn) then Some d' else slab_at s x) ->
  (forall c', c' <> c -> partial_at c' s' = partial_at c' s) ->
  NoDup (partial_at c s') ->
  (forall x, x <> pfn -> x ∈ partial_at c s' <-> x ∈ partial_at c s) ->
  (pfn ∈ partial_at c s' <-> slab_list d' <> []) ->
  slab_cache d' = Some c -> slab_list d' ⊆ slab_objects (roots r) pfn ->
  slab_used d' = NumObjectsPerSlab (roots r) - Z.of_nat (length (slab_list d')) ->
  loose s' ≡ₚ loose s -> same_remote s s' ->
  tag r (slab_list d') ++ U' ≡ₚ tag r (slab_list d) ++ U ->
  SlabInv ((pfn, r) :: S) X U' s'.
Proof.
  intros I Hok Hh Hat Hne Hnd Hoth Hpfn Hc Hl Hu Hlo [Hrl Hchk Hcpu] Hp.
  assert (forall a c', home s a c' -> home s' a c') as Hhome.
  { intros a c' (e & He & Hec). unfold home. rewrite Hat. case_decide as E; [| eauto].
    rewrite E, (so_at _ _ _ _ _ Hok) in He. injection He as <-. exists d'.
    by rewrite Hc, <- Hec, (so_cache _ _ _ _ _ Hok). }
  assert (forall r' i, cpu_allocator r' i s' = cpu_allocator r' i s) as Hcpu'
    by (intros; unfold cpu_allocator; by rewrite Hcpu).
  assert (forall y, y ∈ S -> y.1 <> pfn) as Hnin by (intros [q r'] Hin; by eapply slab_rest).
  constructor.
  - done.
  - rewrite (si_perm _ _ _ _ I), Hlo. cbn. erewrite (slab_free_ext S s s') by
      (intros y Hy; rewrite Hat, decide_False by auto; done).
    unfold slab_free at 1 3. cbn. rewrite Hat, decide_True, (so_at _ _ _ _ _ Hok) by done.
    rewrite (Permutation_app_comm (loose s) U), (Permutation_app_comm (loose s) U').
    rewrite <- !app_assoc. rewrite (Permutation_app_swap_app (tag r (slab_list d))).
    rewrite (Permutation_app_swap_app (tag r (slab_list d'))).
    f_equiv. rewrite !app_assoc. by rewrite Hp.
  - intros q r' [[= -> ->]|HS]%elem_of_cons.
    + exists d', c. destruct Hok. constructor; auto.
      * by rewrite Hat, decide_True.
    + destruct (si_slab _ _ _ _ I q r') as (e & c' & He); [by right |]. exists e, c'.
      assert (q <> pfn) as Hq by apply (Hnin _ HS).
      constructor; try apply He.
      * rewrite Hat, decide_False by done. apply He.
      * intros a Ha. apply Hhome, He, Ha.
      * destruct (decide (c' = c)) as [->|]; [rewrite Hoth by done | rewrite Hne by done]; apply He.
  - intros c'. destruct (decide (c' = c)) as [->|]; [done |]. rewrite Hne by done. apply I.
  - intros c' q Hq. rewrite Hat. case_decide as E; [subst q|].
    + destruct (decide (c' = c)) as [->|n].
      * rewrite (so_root _ _ _ _ _ Hok). split; [by left | eauto].
      * rewrite Hne in Hq by done. exfalso. by eapply n, partial_owner.
    + apply (si_partial_slab _ _ _ _ I).
      destruct (decide (c' = c)) as [->|]; [by apply Hoth | by rewrite <- Hne].
  - intros c' a Ha. rewrite Hrl in Ha. apply Hhome. by apply (si_remote _ _ _ _ I).
  - intros c'. rewrite Hchk. apply I.
  - intros r' i. rewrite Hcpu'. apply I.
  - intros r' i a. rewrite Hcpu'. intros Ha. destruct (si_cpu _ _ _ _ I _ _ _ Ha) as (c' & ? & ?). eauto.
Qed.

(** The last object of a slab that is out comes back: the free list is full. *)
Lemma slab_full s pfn r d c a :
  slab_ok s pfn r d c -> NoDup (slab_list d) -> a ∈ slab_objects (roots r) pfn -> a ∉ slab_list d ->
  slab_used d = 1 -> a :: slab_list d ≡ₚ slab_objects (roots r) pfn.
Proof.
  intros Hok Hn Ha Hl Hu. apply submseteq_length_Permutation.
  - apply NoDup_submseteq; [by constructor |].
    intros x [->|Hx]%elem_of_cons; [done | by apply (so_list _ _ _ _ _ Hok)].
  - rewrite slab_objects_length. rewrite (so_used _ _ _ _ _ Hok) in Hu. cbn. lia.
Qed.

(** A loose object keeps its home when the pages of the slabs do. *)
Lemma home_ext S X s s' a r c :
  Forall wf_block ((slab_block <$> S) ++ X) -> (forall x, covers ((slab_block <$> S) ++ X) x -> slab_at s' x = slab_at s x) ->
  (a, r) ∈ (S ≫= slab_objs) -> home s a c -> home s' a c.
Proof.
  intros Hwf Hat (pfn & HS & Ha)%slab_objs_elem (d & Hd & Hc). exists d. rewrite Hat; [done |].
  apply covers_fmap. left. exists (pfn, r). split; [done |].
  eapply slab_object_page; [apply Hroots | | done]. rewrite Forall_app, Forall_fmap, Forall_forall in Hwf.
  by apply (proj1 Hwf).
Qed.

Lemma loose_cache c a s : a ∈ object_list_ (cache c s) ++ remote_list (cache c s) -> (a, cache_root c) ∈ loose s.
Proof.
  intros Ha. unfold loose, cache in *. destruct (caches s !! c) as [k|] eqn:E; cbn in Ha; [| by apply not_elem_of_nil in Ha].
  apply elem_of_app. left. apply list_elem_of_bind. exists (c, k). split.
  - by apply tag_elem.
  - by apply elem_of_map_to_list.
Qed.

Lemma loose_cpu r i a s : a ∈ remote_list_ (cpu_allocator r i s) -> (a, r) ∈ loose s.
Proof.
  intros Ha. unfold loose, cpu_allocator in *.
  destruct (cpu_allocators_ s !! (r, i)) as [k|] eqn:E; cbn in Ha; [| by apply not_elem_of_nil in Ha].
  apply elem_of_app. right. apply list_elem_of_bind. exists ((r, i), k). split.
  - by apply tag_elem.
  - by apply elem_of_map_to_list.
Qed.

Lemma remote_loose c a s : a ∈ remote_list (cache c s) -> (a, cache_root c) ∈ loose s.
Proof. intros. apply loose_cache, elem_of_app. by right. Qed.

Lemma drop_perm S X U U' s pfn r d c a :
  SlabInv ((pfn, r) :: S) X U s -> slab_ok s pfn r d c ->
  a :: slab_list d ≡ₚ slab_objects (roots r) pfn -> U ≡ₚ (a, r) :: U' ->
  (S ≫= slab_objs) ≡ₚ (S ≫= slab_free s) ++ loose s ++ U'.
Proof.
  intros I Hok Hfull HU. pose proof (si_perm _ _ _ _ I) as Hp. cbn in Hp.
  unfold slab_objs at 1, slab_free at 1 in Hp. cbn in Hp.
  rewrite (so_at _ _ _ _ _ Hok), <- Hfull, HU in Hp. cbn in Hp.
  apply (Permutation_app_inv_l ((a, r) :: tag r (slab_list d))). cbn. rewrite Hp. solve_Permutation.
Qed.

(** A slab leaves. *)
Lemma inv_drop S X U U' s s' pfn r d c a :
  SlabInv ((pfn, r) :: S) X U s -> slab_ok s pfn r d c ->
  a ∈ slab_objects (roots r) pfn -> a ∉ slab_list d -> slab_used d = 1 -> U ≡ₚ (a, r) :: U' ->
  holds (pages s') ((slab_block <$> S) ++ X) ->
  (forall x, covers ((slab_block <$> S) ++ X) x -> slab_at s' x = slab_at s x) ->
  (forall c', c' <> c -> partial_at c' s' = partial_at c' s) ->
  NoDup (partial_at c s') ->
  (forall x, x ∈ partial_at c s' <-> x <> pfn /\ x ∈ partial_at c s) ->
  loose s' ≡ₚ loose s -> same_remote s s' ->
  SlabInv S X U' s'.
Proof.
  intros I Hok Ha Hl Hu HU Hh Hat Hne Hnd Hpc Hlo [Hrl Hchk Hcpu].
  assert (NoDup (slab_list d)) as Hld by (eapply slab_list_NoDup; [done | by left | done]).
  pose proof (slab_full _ _ _ _ _ _ Hok Hld Ha Hl Hu) as Hfull.
  assert (forall q r' x, (q, r') ∈ S -> in_block q (order_ (roots r')) x -> slab_at s' x = slab_at s x) as Hat'.
  { intros q r' x HS Hx. apply Hat, covers_fmap. left. by exists (q, r'). }
  pose proof (drop_perm _ _ _ _ _ _ _ _ _ _ I Hok Hfull HU) as Hperm.
  assert (forall b r' c', (b, r') ∈ loose s -> home s b c' -> home s' b c') as Hhome.
  { intros b r' c' Hb (e & He & Hc). exists e. split; [| done].
    assert ((b, r') ∈ (S ≫= slab_objs)) as (q & HS & Hbq)%slab_objs_elem.
    { rewrite Hperm, !elem_of_app. auto. }
    rewrite (Hat' q r'); [done | done |]. eapply slab_object_page; [apply Hroots | | done].
    eapply slab_wf; [done | by right]. }
  assert (forall r' i, cpu_allocator r' i s' = cpu_allocator r' i s) as Hcpu'
    by (intros; unfold cpu_allocator; by rewrite Hcpu).
  constructor.
  - done.
  - rewrite Hlo, Hperm. erewrite (slab_free_ext S s s'); [done |].
    intros [q r'] HS. eapply Hat'; [done | apply in_block_self].
  - intros q r' HS. destruct (si_slab _ _ _ _ I q r') as (e & c' & He); [by right |]. exists e, c'.
    eapply (slab_ok_ext s); [eapply slab_wf; [done | by right] | intros; by eapply Hat' | | done].
    pose proof (slab_rest _ _ _ _ _ _ _ _ I HS). destruct (decide (c' = c)) as [->|]; [rewrite Hpc; naive_solver | by rewrite Hne].
  - intros c'. destruct (decide (c' = c)) as [->|]; [done |]. rewrite Hne by done. apply I.
  - intros c' q Hin.
    assert (q ∈ partial_at c' s /\ q <> pfn) as [Hin' Hqp].
    { destruct (decide (c' = c)) as [->|Hcc]; [by apply Hpc in Hin as [] |].
      rewrite Hne in Hin by done. split; [done |]. intros ->. apply Hcc. by eapply partial_owner. }
    destruct (si_partial_slab _ _ _ _ I _ _ Hin') as (HS & e & He & Hec).
    apply elem_of_cons in HS as [[= -> _]|HS]; [done |]. split; [done |]. exists e.
    rewrite (Hat' _ _ _ HS (in_block_self _ _)). done.
  - intros c' b Hb. rewrite Hrl in Hb. eapply Hhome; [by apply remote_loose | by apply (si_remote _ _ _ _ I)].
  - intros c'. rewrite Hchk. apply I.
  - intros r' i. rewrite Hcpu'. apply I.
  - intros r' i b. rewrite Hcpu'. intros Hb. destruct (si_cpu _ _ _ _ I _ _ _ Hb) as (c' & ? & ?).
    exists c'. split; [done |]. eapply Hhome; [by eapply loose_cpu | done].
Qed.

(** A slab arrives, with all its objects in its free list. *)
Lemma slab_inv_add S X U s s' pfn r d c :
  SlabInv S X U s ->
  holds (pages s') ((slab_block <$> (pfn, r) :: S) ++ X) ->
  (forall x, covers ((slab_block <$> S) ++ X) x -> slab_at s' x = slab_at s x) ->
  slab_at s' pfn = Some d -> slab_cache d = Some c -> cache_root c = r ->
  slab_list d ≡ₚ slab_objects (roots r) pfn -> slab_used d = 0 ->
  (forall a, a ∈ slab_objects (roots r) pfn -> home s' a c) ->
  (forall c', c' <> c -> partial_at c' s' = partial_at c' s) ->
  partial_at c s' = pfn :: partial_at c s ->
  loose s' ≡ₚ loose s -> same_remote s s' ->
  SlabInv ((pfn, r) :: S) X U s'.
Proof.
  intros I Hh Hat Hd Hc Hr Hl Hu Hhm Hne Hpc Hlo [Hrl Hchk Hcpu].
  assert (forall q r' x, (q, r') ∈ S -> in_block q (order_ (roots r')) x -> slab_at s' x = slab_at s x) as Hat'.
  { intros q r' x HS Hx. apply Hat, covers_fmap. left. by exists (q, r'). }
  assert (forall q r', (q, r') ∈ S -> q <> pfn) as Hq.
  { intros q r' HS ->. pose proof (holds_sep _ _ Hh) as [Hs _]. rewrite Forall_app, Forall_fmap, Forall_forall in Hs.
    destruct Hs as [Hs _]. by apply (proj1 (blocks_disjoint_spec _ _ _ _) (Hs _ HS) pfn); apply in_block_self. }
  assert (forall c' q, q ∈ partial_at c' s -> q <> pfn) as Hqp.
  { intros c' q [HS _]%(si_partial_slab _ _ _ _ I). by eapply Hq. }
  assert (forall b r' c', (b, r') ∈ loose s -> home s b c' -> home s' b c') as Hhome.
  { intros b r' c' Hb. apply (home_ext S X s s' b r'); [apply (holds_wf _ _ (si_hold _ _ _ _ I)) | done |]. rewrite (si_perm _ _ _ _ I). set_solver. }
  assert (forall r' i, cpu_allocator r' i s' = cpu_allocator r' i s) as Hcpu'
    by (intros; unfold cpu_allocator; by rewrite Hcpu).
  constructor.
  - done.
  - rewrite Hlo. cbn. rewrite (si_perm _ _ _ _ I). rewrite (slab_free_ext S s s') by
      (intros [q r'] HS; eapply Hat'; [done | apply in_block_self]).
    unfold slab_free at 2, slab_objs. cbn. rewrite Hd, Hl. by rewrite <- !app_assoc.
  - intros q r' [[= -> ->]|HS]%elem_of_cons.
    + exists d, c. constructor; try done.
      * by rewrite Hl.
      * rewrite Hu, Hl, slab_objects_length. pose proof (NumObjects_pos _ (Hroots r)). lia.
      * rewrite Hpc. split; [| intros _; by left]. intros _ E. rewrite E in Hl.
        apply Permutation_nil_l in Hl. pose proof (slab_objects_length (roots r) pfn) as Hlen.
        rewrite <- Hl in Hlen. cbn in Hlen. pose proof (NumObjects_pos _ (Hroots r)). lia.
    + destruct (si_slab _ _ _ _ I q r' HS) as (e & c' & He). exists e, c'.
      eapply (slab_ok_ext s); [by eapply slab_wf | intros; by eapply Hat' | | done].
      destruct (decide (c' = c)) as [->|]; [| by rewrite Hne]. rewrite Hpc, elem_of_cons.
      pose proof (Hq _ _ HS). naive_solver.
  - intros c'. destruct (decide (c' = c)) as [->|]; [| rewrite Hne by done; apply I]. rewrite Hpc.
    constructor; [| apply I]. intros Hin. by eapply Hqp.
  - intros c' q Hin.
    assert (q = pfn /\ c' = c \/ q ∈ partial_at c' s) as [[-> ->]|Hin'].
    { destruct (decide (c' = c)) as [->|]; [rewrite Hpc, elem_of_cons in Hin | rewrite Hne in Hin by done]; naive_solver. }
    + rewrite Hr. split; [by left | eauto].
    + destruct (si_partial_slab _ _ _ _ I _ _ Hin') as (HS & e & He & Hec). split; [by right |]. exists e.
      by rewrite (Hat' _ _ _ HS (in_block_self _ _)).
  - intros c' b Hb. rewrite Hrl in Hb. eapply Hhome; [by apply remote_loose | by apply (si_remote _ _ _ _ I)].
  - intros c'. rewrite Hchk. apply I.
  - intros r' i. rewrite Hcpu'. apply I.
  - intros r' i b. rewrite Hcpu'. intros Hb. destruct (si_cpu _ _ _ _ I _ _ _ Hb) as (c' & ? & ?).
    exists c'. split; [done |]. eapply Hhome; [by eapply loose_cpu | done].
Qed.

(** The pages the slabs do not use may change. *)
Lemma inv_pages S X X' U s p' :
  SlabInv S X U s -> holds p' ((slab_block <$> S) ++ X') ->
  (forall x, covers (slab_block <$> S) x -> slab_at (set_pages p' s) x = slab_at s x) ->
  SlabInv S X' U (set_pages p' s).
Proof.
  intros I Hh Hat.
  assert (forall q r' x, (q, r') ∈ S -> in_block q (order_ (roots r')) x -> slab_at (set_pages p' s) x = slab_at s x) as Hat'.
  { intros q r' x HS Hx. apply Hat. exists (slab_block (q, r')). split; [by apply list_elem_of_fmap_2 | done]. }
  assert (forall b r' c', (b, r') ∈ loose s -> home s b c' -> home (set_pages p' s) b c') as Hhome.
  { intros b r' c' Hb (d & Hd & Hc). exists d. split; [| done].
    assert ((b, r') ∈ (S ≫= slab_objs)) as (q & HS & Hbq)%slab_objs_elem by (rewrite (si_perm _ _ _ _ I); set_solver).
    rewrite (Hat' q r'); [done | done |]. eapply slab_object_page; [apply Hroots | by eapply slab_wf | done]. }
  constructor; [done | | | apply I | | | apply I | apply I |].
  - rewrite loose_set_pages, (si_perm _ _ _ _ I). erewrite (slab_free_ext S s (set_pages p' s)); [done |].
    intros [q r'] HS. eapply Hat'; [done | apply in_block_self].
  - intros pfn r HS. destruct (si_slab _ _ _ _ I _ _ HS) as (d & c & Hok). exists d, c.
    eapply (slab_ok_ext s); [by eapply slab_wf | intros; by eapply Hat' | done | done].
  - intros c pfn Hin. destruct (si_partial_slab _ _ _ _ I c pfn Hin) as (HS & d & Hd & Hc). split; [done |].
    exists d. by rewrite (Hat' _ _ _ HS (in_block_self _ _)).
  - intros c a Ha. eapply Hhome; [by apply remote_loose | by apply (si_remote _ _ _ _ I)].
  - intros r i a Ha. destruct (si_cpu _ _ _ _ I _ _ _ Ha) as (c & ? & ?). exists c. split; [done |].
    eapply Hhome; [by eapply loose_cpu | done].
Qed.

End Invariant.
