(* ===== verification/SlabCorrect.v ===== *)
(** * The slab allocator is correct

    Every operation of src/src/native/SlabAllocator.cc preserves the invariant
    of SlabInvariant.v, against any page allocator that keeps the promises of
    [PageSourceOk]: allocations return distinct, disjoint objects, no assertion
    fails, no loop runs forever, and a slab whose objects are all back returns
    to the page allocator. *)

From S2P Require Import Prelude Pfn MemMap PageAllocator BuddyInvariant Slab SlabInvariant.

Section Correct.
Context {P : Type} `{PageSourceOk P}.
Context (roots : nat -> SlabAllocatorRoot) (Hroots : forall r, root_ok (roots r)).
Implicit Types s : Slab P.

Notation SlabInv := (SlabInv roots).
Notation slab_ok := (slab_ok roots).

Lemma root_ok_root c : root_ok (root roots c).
Proof. apply Hroots. Qed.

(** ** Remote frees *)

(** What the remote operations leave alone. *)
Record same_local s s' : Prop := {
  sl_pages : pages s' = pages s;
  sl_objects c : object_list_ (cache c s') = object_list_ (cache c s);
  sl_partial c : partial_at c s' = partial_at c s
}.

Lemma same_local_refl s : same_local s s.
Proof. done. Qed.

Lemma same_local_trans s1 s2 s3 : same_local s1 s2 -> same_local s2 s3 -> same_local s1 s3.
Proof.
  intros [P1 O1 Q1] [P2 O2 Q2]. constructor; intros; [by rewrite P2 | by rewrite O2 | by rewrite Q2].
Qed.

Lemma same_local_home s s' a c : same_local s s' -> home s' a c <-> home s a c.
Proof. intros [Hp _ _]. unfold home, slab_at, PfnToPage. by rewrite Hp. Qed.

Lemma set_cpu_local r i x s : same_local s (set_cpu r i x s).
Proof. done. Qed.

Lemma set_remote_local c l b s : same_local s (set_cache c (set_remote l b (cache c s)) s).
Proof.
  constructor; [done | |]; intros c'; unfold partial_at; rewrite cache_set_cache; case_decide; by subst.
Qed.

Lemma FlushRemoteList_local r i s : same_local s (FlushRemoteList roots r i s).
Proof.
  unfold FlushRemoteList. destruct (remote_cache_ (cpu_allocator r i s)) as [rc|]; [| apply same_local_refl].
  eapply same_local_trans; [apply set_remote_local | apply set_cpu_local].
Qed.

Lemma FlushRemoteList_inv S X U s r i :
  SlabInv S X U s ->
  SlabInv S X U (FlushRemoteList roots r i s) /\
  remote_list_ (cpu_allocator r i (FlushRemoteList roots r i s)) = [].
Proof.
  intros I. pose proof (FlushRemoteList_local r i s) as L. revert L. unfold FlushRemoteList.
  destruct (remote_cache_ (cpu_allocator r i s)) as [rc|] eqn:Erc.
  2: { intros _. split; [done |]. destruct (remote_list_ (cpu_allocator r i s)) as [|a l] eqn:El; [done |].
       destruct (si_cpu _ _ _ _ _ I r i a) as (c & Hc & _); [rewrite El; by left |]. congruence. }
  pose proof (si_cpu_root _ _ _ _ _ I _ _ _ Erc) as Hr.
  set (k := cache rc s). set (a := cpu_allocator r i s).
  set (l' := match remote_list k with [] => _ | x :: l => x :: _ ++ l end).
  set (b := if _ && _ then true else _).
  assert (l' ≡ₚ remote_list_ a ++ remote_list k) as Hl'.
  { unfold l'. destruct (remote_list k); [by rewrite app_nil_r | solve_Permutation]. }
  intros L. rewrite cpu_set_cpu_eq. split; [| done].
  eapply (inv_move roots Hroots); [done | apply L | apply L | | | | |].
  - pose proof (loose_set_cpu r i (mkSlabAllocator [] (Some rc)) (set_cache rc (set_remote l' b k) s)) as H1.
    pose proof (loose_set_cache rc (set_remote l' b k) s) as H2.
    rewrite cpu_set_cache in H1. fold k in H2. fold a in H1. unfold cache_objects in H2. cbn [set_remote object_list_ remote_list remote_list_] in H1, H2. cbn in H1.
    assert (tag r l' ≡ₚ tag r (remote_list_ a) ++ tag r (remote_list k)) as Ht by (by rewrite Hl', tag_app).
    rewrite Hr, !tag_app, Ht in H2. rewrite app_nil_r in H1.
    f_equiv. apply (Permutation_app_inv_r (tag r (remote_list_ a))). rewrite H1.
    apply (Permutation_app_inv_r (tag r (object_list_ k) ++ tag r (remote_list k))). rewrite H2. solve_Permutation.
  - intros c x. rewrite cache_set_cpu, cache_set_cache. case_decide; [subst c | apply (si_remote _ _ _ _ _ I)].
    cbn. rewrite Hl', elem_of_app. intros [Hx|Hx]; [| by apply (si_remote _ _ _ _ _ I)].
    destruct (si_cpu _ _ _ _ _ I _ _ _ Hx) as (c & Hc & ?). rewrite Erc in Hc. by injection Hc as <-.
  - intros c. rewrite cache_set_cpu, cache_set_cache. case_decide; [subst c | apply (si_check _ _ _ _ _ I)].
    cbn. unfold b. destruct (_ && _) eqn:E; [| apply (si_check _ _ _ _ _ I)]. apply andb_true_iff in E as [E%Z.ltb_lt _]. intros _. rewrite Hr. lia.
  - intros r' i' c. rewrite cpu_set_cpu. case_decide as E; [| apply (si_cpu_root _ _ _ _ _ I)].
    injection E as -> ->. cbn. by intros [= <-].
  - intros r' i' x. rewrite cpu_set_cpu. case_decide as E; [| apply (si_cpu _ _ _ _ _ I)].
    cbn. by intros ?%not_elem_of_nil.
Qed.

(** Where the page of an object points. *)
Lemma object_home S X U s a r :
  SlabInv S X U s -> (a, r) ∈ loose s ++ U ->
  exists page c, AddrToPage a s = Some page /\ slab_cache (slab_data page) = Some c /\ cache_root c = r /\ home s a c.
Proof.
  intros I Hin. destruct (out_object roots Hroots _ _ _ _ _ _ I Hin) as (pfn & d & c & HS & Ha & Hok & _).
  destruct (so_home _ _ _ _ _ _ Hok a Ha) as (d' & Hd & Hc). unfold slab_at in Hd.
  unfold AddrToPage. destruct (PfnToPage (PfnDown a) s) as [page|] eqn:E; [| done].
  injection Hd as <-. exists page, c. split_and!; [done | done | apply Hok |].
  exists (slab_data page). unfold slab_at. by rewrite E.
Qed.

(** Putting an object at the head of a core's [remote_list_]. *)
Lemma remote_push_inv S X U s r i p c :
  SlabInv S X ((p, r) :: U) s -> remote_cache_ (cpu_allocator r i s) = Some c -> home s p c ->
  SlabInv S X U (set_cpu r i (mkSlabAllocator (p :: remote_list_ (cpu_allocator r i s)) (Some c)) s).
Proof.
  intros I Hc Hh. eapply (inv_move roots Hroots); [done | done | done | | apply I | apply I | |].
  - pose proof (loose_set_cpu r i (mkSlabAllocator (p :: remote_list_ (cpu_allocator r i s)) (Some c)) s) as H1.
    cbn in H1. apply (Permutation_app_inv_r (tag r (remote_list_ (cpu_allocator r i s)))).
    rewrite <- app_assoc, (Permutation_app_comm U), app_assoc, H1. solve_Permutation.
  - intros r' i' c'. rewrite cpu_set_cpu. case_decide as E; [| apply (si_cpu_root _ _ _ _ _ I)].
    injection E as -> ->. cbn. intros [= <-]. by eapply (si_cpu_root _ _ _ _ _ I).
  - intros r' i' x. rewrite cpu_set_cpu. case_decide as E; [| apply (si_cpu _ _ _ _ _ I)].
    injection E as -> ->. cbn. intros [->|Hx]%elem_of_cons; [eauto |].
    destruct (si_cpu _ _ _ _ _ I _ _ _ Hx) as (c' & Hc' & ?). rewrite Hc in Hc'. injection Hc' as <-. eauto.
Qed.

(** Turning an empty [remote_list_] to another cache. *)
Lemma remote_turn_inv S X U s r i c :
  SlabInv S X U s -> remote_list_ (cpu_allocator r i s) = [] -> cache_root c = r ->
  SlabInv S X U (set_cpu r i (mkSlabAllocator [] (Some c)) s).
Proof.
  intros I Hl Hc. eapply (inv_move roots Hroots); [done | done | done | | apply I | apply I | |].
  - pose proof (loose_set_cpu r i (mkSlabAllocator [] (Some c)) s) as H1.
    rewrite Hl in H1. cbn in H1. rewrite !app_nil_r in H1. by rewrite H1.
  - intros r' i' c'. rewrite cpu_set_cpu. case_decide as E; [| apply (si_cpu_root _ _ _ _ _ I)].
    injection E as -> ->. cbn. by intros [= <-].
  - intros r' i' x. rewrite cpu_set_cpu. case_decide as E; [| apply (si_cpu _ _ _ _ _ I)].
    cbn. by intros ?%not_elem_of_nil.
Qed.

Lemma FreeRemote_inv S X U s r i p :
  SlabInv S X ((p, r) :: U) s ->
  exists s', FreeRemote roots r i p s = Ok s' /\ SlabInv S X U s' /\ same_local s s'.
Proof.
  intros I. destruct (object_home _ _ _ _ p r I) as (page & c & Hp & Hc & Hr & Hh).
  { apply elem_of_app. right. by left. }
  unfold FreeRemote. rewrite Hp. cbn [deref]. rewrite bind_Ok, Hc. cbv zeta.
  set (s1 := if decide _ then s else _).
  assert (SlabInv S X ((p, r) :: U) s1 /\ same_local s s1 /\ remote_cache_ (cpu_allocator r i s1) = Some c)
    as (I1 & L1 & Hc1).
  { unfold s1. case_decide as E; [by rewrite <- E |].
    destruct (FlushRemoteList_inv _ _ _ _ r i I) as [I' Hl']. rewrite Hl'.
    split_and!; [by apply remote_turn_inv | | by rewrite cpu_set_cpu_eq].
    eapply same_local_trans; [apply FlushRemoteList_local | apply set_cpu_local]. }
  clearbody s1. rewrite Hc1. apply (remote_push_inv _ _ _ _ _ i _ c) in I1; [| done | by apply (same_local_home s s1)].
  set (s2 := set_cpu r i _ s1) in *.
  assert (same_local s s2) as L2 by (eapply same_local_trans; [exact L1 | apply set_cpu_local]). clearbody s2.
  case_match; eexists; (split; [done |]); [| done]. split; [by apply FlushRemoteList_inv |].
  eapply same_local_trans; [done | apply FlushRemoteList_local].
Qed.

(** ** Writing a slab descriptor *)

Lemma write_slab_data s A pfn page u d :
  holds (pages s) A -> covers A pfn -> PfnToPage pfn s = Some page ->
  u = usage page \/ u = kSlabAllocator ->
  let s' := write_page pfn (set_slab_data d (set_usage u page)) s in
  holds (pages s') A /\ forall x, slab_at s' x = if decide (x = pfn) then Some d else slab_at s x.
Proof.
  intros Hh Hc Hp Hu. destruct (ps_write_ok _ _ _ _ (set_slab_data d (set_usage u page)) Hh Hc Hp) as [Hw Hr]; [done | done |].
  split; [done |]. intros x. unfold slab_at, PfnToPage. cbn. rewrite Hr. by case_decide.
Qed.

Lemma set_usage_id page : set_usage (usage page) page = page.
Proof. by destruct page. Qed.

(** The case without a change of usage. *)
Lemma write_slab_list s A pfn page d :
  holds (pages s) A -> covers A pfn -> PfnToPage pfn s = Some page ->
  let s' := write_page pfn (set_slab_data d page) s in
  holds (pages s') A /\ forall x, slab_at s' x = if decide (x = pfn) then Some d else slab_at s x.
Proof.
  intros Hh Hc Hp. pose proof (write_slab_data s A pfn page (usage page) d Hh Hc Hp) as Hw.
  rewrite set_usage_id in Hw. by apply Hw; left.
Qed.

Lemma slab_page s pfn r d c : slab_ok s pfn r d c -> exists page, PfnToPage pfn s = Some page /\ slab_data page = d.
Proof.
  intros Hok. pose proof (so_at _ _ _ _ _ _ Hok) as Hat. unfold slab_at in Hat.
  destruct (PfnToPage pfn s) as [page|]; [| done]. injection Hat as <-. eauto.
Qed.

Lemma covers_slab S X pfn r : (pfn, r) ∈ S -> covers ((slab_block roots <$> S) ++ X) pfn.
Proof. intros HS. apply covers_fmap. left. exists (pfn, r). split; [done | apply in_block_self]. Qed.

Lemma loose_set_partial c l s : loose (set_cache c (set_partial l (cache c s)) s) ≡ₚ loose s.
Proof.
  pose proof (loose_set_cache c (set_partial l (cache c s)) s) as H1.
  by apply Permutation_app_inv_r in H1.
Qed.

Lemma same_remote_partial c l s : same_remote s (set_cache c (set_partial l (cache c s)) s).
Proof. constructor; [| | done]; intros c'; rewrite cache_set_cache; case_decide; by subst. Qed.

Lemma partial_at_set c c' l s :
  partial_at c' (set_cache c (set_partial l (cache c s)) s) = if decide (c' = c) then l else partial_at c' s.
Proof. unfold partial_at. rewrite cache_set_cache. by case_decide. Qed.

Lemma objects_set_partial c c' l s :
  object_list_ (cache c' (set_cache c (set_partial l (cache c s)) s)) = object_list_ (cache c' s).
Proof. rewrite cache_set_cache. case_decide; by subst. Qed.

(** ** FlushFreeList *)

(** What flushing one object of [c] guarantees besides the invariant. *)
Record flushed (c : cache_id) (a : Z) (U : list (Z * nat)) s s' : Prop := {
  fl_objects : object_list_ (cache c s') = object_list_ (cache c s);
  fl_check : home s a c -> remote_check (cache c s') = remote_check (cache c s);
  fl_home b r c' : (b, r) ∈ loose s ++ U -> home s b c' -> home s' b c'
}.

(** Taking an empty slab off the partial list, when it has more than one
    object. *)
Lemma erase_partial c pfn s :
  NoDup (partial_at c s) -> (pfn ∈ partial_at c s <-> 1 < NumObjectsPerSlab (root roots c)) ->
  exists s', (if 1 <? NumObjectsPerSlab (root roots c) then
      l ← list_erase pfn (partial_page_list_ (cache c s));
      Ok (set_cache c (set_partial l (cache c s)) s)
    else Ok s) = Ok s' /\
    pages s' = pages s /\ loose s' ≡ₚ loose s /\ same_remote s s' /\
    (forall c', object_list_ (cache c' s') = object_list_ (cache c' s)) /\
    (forall c', c' <> c -> partial_at c' s' = partial_at c' s) /\
    NoDup (partial_at c s') /\
    forall x, x ∈ partial_at c s' <-> x <> pfn /\ x ∈ partial_at c s.
Proof.
  intros Hn Hin. destruct (Z.ltb_spec 1 (NumObjectsPerSlab (root roots c))) as [Hlt|Hge].
  - apply Hin in Hlt. destruct (list_erase_ok _ _ Hlt) as (l & Hl & Hp). unfold partial_at in *.
    rewrite Hl, bind_Ok. eexists. split; [done |]. rewrite Hp in Hn. apply NoDup_cons in Hn as [Hni Hn].
    split_and!; [done | apply loose_set_partial | apply same_remote_partial | intros; apply objects_set_partial | | |].
    + intros c' Hc. by rewrite cache_set_cache_ne.
    + by rewrite cache_set_cache_eq.
    + intros x. rewrite cache_set_cache_eq. cbn. rewrite Hp, elem_of_cons. split; [| naive_solver].
      intros Hx. split; [by intros -> | by right].
  - exists s. split_and!; try done. intros x. split; [| naive_solver]. intros Hx. split; [| done].
    intros ->. apply Hin in Hx. lia.
Qed.

Lemma flush_own_last S X U s me c a pfn d page :
  SlabInv ((pfn, cache_root c) :: S) X ((a, cache_root c) :: U) s ->
  slab_ok s pfn (cache_root c) d c -> PfnToPage pfn s = Some page -> slab_data page = d ->
  a ∈ slab_objects (root roots c) pfn -> a ∉ slab_list d -> slab_used d = 1 ->
  exists s', flush_object roots me c a s = Ok s' /\ SlabInv S X U s' /\ flushed c a U s s'.
Proof.
  intros I Hok Hp Hd Ha Hl Hu. unfold flush_object.
  assert (wf_block (pfn, order_ (root roots c))) as Hwf by (apply (slab_wf roots _ _ _ _ _ _ I); left).
  rewrite (AddrToSlabPfn_ok (root roots c) (root_ok_root c) _ Hwf _ Ha), Hp. cbn [deref]. rewrite bind_Ok, Hd.
  rewrite (so_cache _ _ _ _ _ _ Hok), decide_True by done. rewrite Hu. cbv zeta.
  change (u64 (1 - 1)) with 0. cbn [Z.eqb].
  destruct (write_slab_list s _ pfn page (mkSlabData (a :: slab_list d) (Some c) 0) (si_hold _ _ _ _ _ I))
    as [Hh1 Hat1]; [by eapply covers_slab, list_elem_of_here | done |].
  set (s1 := write_page pfn _ s) in *.
  assert (partial_at c s1 = partial_at c s) as Hp1 by done.
  destruct (erase_partial c pfn s1) as (s2 & -> & Hpg & Hlo & Hsr & Hob & Hne & Hnd & Hpc).
  { apply I. }
  { rewrite Hp1, (so_partial _ _ _ _ _ _ Hok). pose proof (so_used _ _ _ _ _ _ Hok) as Hused.
    unfold root. destruct (slab_list d); cbn in Hused |- *; split; try done; lia. }
  rewrite bind_Ok. rewrite Hpg.
  destruct (ps_Free_ok _ _ pfn (order_ (root roots c)) Hh1) as (p' & Hf & Hh' & Hat'). rewrite Hf, bind_Ok.
  eexists. split; [done |].
  assert (forall x, covers ((slab_block roots <$> S) ++ X) x -> slab_at (set_pages p' s2) x = slab_at s x) as Hat.
  { intros x Hx. unfold slab_at at 1, PfnToPage. cbn. rewrite (Hat' x Hx).
    change (slab_at s1 x = slab_at s x). rewrite Hat1, decide_False; [done |]. intros ->.
    pose proof (holds_sep _ _ (si_hold _ _ _ _ _ I)) as [Hs _]. destruct Hx as (b & Hb & Hbx).
    rewrite Forall_forall in Hs. apply (proj1 (blocks_disjoint_spec _ _ _ _) (Hs _ Hb) pfn); [apply in_block_self | done]. }
  assert (SlabInv S X U (set_pages p' s2)) as I'.
  { apply (inv_drop roots Hroots S X ((a, cache_root c) :: U) U s _ pfn (cache_root c) d c a);
      try done. constructor; apply Hsr. }
  split; [done |]. constructor.
  - apply Hob.
  - intros _. apply Hsr.
  - intros b r c' Hb. apply (home_ext roots Hroots S X s _ b r); [apply (holds_wf _ _ (si_hold _ _ _ _ _ I')) | done |].
    rewrite (si_perm _ _ _ _ _ I'). rewrite !elem_of_app in Hb |- *. rewrite loose_set_pages, Hlo.
    change (loose s1) with (loose s). rewrite elem_of_app. by right.
Qed.

Lemma flush_own_more S X U s me c a pfn d page :
  SlabInv ((pfn, cache_root c) :: S) X ((a, cache_root c) :: U) s ->
  slab_ok s pfn (cache_root c) d c -> PfnToPage pfn s = Some page -> slab_data page = d ->
  a ∈ slab_objects (root roots c) pfn -> a ∉ slab_list d -> 1 < slab_used d ->
  exists s', flush_object roots me c a s = Ok s' /\ SlabInv ((pfn, cache_root c) :: S) X U s' /\
    flushed c a U s s'.
Proof.
  intros I Hok Hp Hd Ha Hl Hu. unfold flush_object.
  assert (wf_block (pfn, order_ (root roots c))) as Hwf by (apply (slab_wf roots _ _ _ _ _ _ I); left).
  rewrite (AddrToSlabPfn_ok (root roots c) (root_ok_root c) _ Hwf _ Ha), Hp. cbn [deref]. rewrite bind_Ok, Hd.
  rewrite (so_cache _ _ _ _ _ _ Hok), decide_True by done. cbv zeta.
  pose proof (so_used _ _ _ _ _ _ Hok) as Hused.
  assert (u64 (slab_used d - 1) = slab_used d - 1) as ->.
  { apply u64_small. pose proof (NumObjects_bound (root roots c) (root_ok_root c)).
    change (roots (cache_root c)) with (root roots c) in Hused. lia. }
  set (d' := mkSlabData (a :: slab_list d) (Some c) (slab_used d - 1)).
  destruct (write_slab_list s _ pfn page d' (si_hold _ _ _ _ _ I))
    as [Hh1 Hat1]; [by eapply covers_slab, list_elem_of_here | done |].
  set (s1 := write_page pfn _ s) in *.
  destruct (Z.eqb_spec (slab_used d - 1) 0) as [|_]; [lia |].
  set (pl := if slab_used d - 1 + 1 =? NumObjectsPerSlab (root roots c)
             then pfn :: partial_at c s else partial_at c s).
  set (s' := if slab_used d - 1 + 1 =? NumObjectsPerSlab (root roots c)
             then set_cache c (set_partial pl (cache c s1)) s1 else s1).
  exists s'. split; [unfold s', pl; by destruct (_ =? _) |].
  assert (pages s' = pages s1 /\ loose s' ≡ₚ loose s /\ same_remote s s' /\ partial_at c s' = pl /\
    (forall c', object_list_ (cache c' s') = object_list_ (cache c' s)) /\
    forall c', c' <> c -> partial_at c' s' = partial_at c' s) as (Hpg & Hlo & Hsr & Hpc & Hob & Hne).
  { unfold s', pl. destruct (_ =? _); [| done].
    split_and!; [done | by rewrite loose_set_partial | constructor; apply (same_remote_partial c _ s1) | | |].
    - by rewrite partial_at_set, decide_True.
    - intros c'. apply (objects_set_partial c c' _ s1).
    - intros. by rewrite partial_at_set, decide_False. }
  clearbody s'.
  assert (pfn ∈ pl) as Hin.
  { unfold pl. destruct (Z.eqb_spec (slab_used d - 1 + 1) (NumObjectsPerSlab (root roots c))); [by left |].
    apply (so_partial _ _ _ _ _ _ Hok). intros El. rewrite El in Hused. unfold root in *. cbn in Hused. lia. }
  split.
  - apply (inv_update roots S X ((a, cache_root c) :: U) U s s' pfn (cache_root c) d c d'); try done.
    + by rewrite Hpg.
    + intros x. unfold slab_at at 1, PfnToPage. rewrite Hpg. apply Hat1.
    + rewrite Hpc. unfold pl.
      destruct (Z.eqb_spec (slab_used d - 1 + 1) (NumObjectsPerSlab (root roots c))) as [E|]; [| apply I].
      constructor; [| apply I]. rewrite (so_partial _ _ _ _ _ _ Hok). intros Hnl. apply Hnl.
      apply length_zero_iff_nil. unfold root in *. lia.
    + intros x Hx. rewrite Hpc. unfold pl. destruct (_ =? _); [| done]. rewrite elem_of_cons. naive_solver.
    + by rewrite Hpc.
    + intros x [->|Hx]%elem_of_cons; [done | by apply (so_list _ _ _ _ _ _ Hok)].
    + cbn [d' slab_used slab_list length]. lia.
    + cbn. solve_Permutation.
  - constructor; [apply Hob | intros _; apply Hsr |]. intros b r c' _ (e & He & Hec). unfold home, slab_at, PfnToPage.
    rewrite Hpg. change (exists e', slab_at s1 (PfnDown b) = Some e' /\ slab_cache e' = Some c').
    rewrite Hat1. case_decide as E; [| eauto]. rewrite E, (so_at _ _ _ _ _ _ Hok) in He. injection He as <-.
    rewrite (so_cache _ _ _ _ _ _ Hok) in Hec. injection Hec as <-. by exists d'.
Qed.

Lemma flush_object_inv S X U s me c a :
  SlabInv S X ((a, cache_root c) :: U) s ->
  exists S' s', flush_object roots me c a s = Ok s' /\ SlabInv S' X U s' /\ flushed c a U s s'.
Proof.
  intros I. set (r := cache_root c).
  assert ((a, r) ∈ loose s ++ (a, r) :: U) as Hin by (rewrite elem_of_app, elem_of_cons; auto).
  destruct (out_object roots Hroots _ _ _ _ _ _ I Hin) as (pfn & d & c' & HS & Ha & Hok & Hl).
  pose proof (slab_list_NoDup roots Hroots _ _ _ _ _ _ _ _ I HS Hok) as Hn.
  pose proof (out_room roots Hroots _ _ _ _ _ _ Hok Hn Ha Hl) as Hroom.
  destruct (slab_page _ _ _ _ _ Hok) as (page & Hp & Hd).
  destruct (decide (c' = c)) as [->|Hc].
  - apply elem_of_Permutation in HS as [S' HS]. apply (SlabInv_perm roots _ _ _ _ _ _ HS (reflexivity _)) in I.
    destruct (decide (slab_used d = 1)) as [E|].
    + destruct (flush_own_last S' X U s me c a pfn d page) as (s' & ? & ? & ?); eauto.
    + destruct (flush_own_more S' X U s me c a pfn d page) as (s' & ? & ? & ?); eauto. lia.
  - pose proof (slab_wf roots _ _ _ _ _ _ I HS) as Hwf.
    destruct (FreeRemote_inv S X U s r me a I) as (s' & Hf & I' & L). exists S, s'.
    split; [| split; [done |]].
    + unfold flush_object. change (roots r) with (root roots c) in Ha.
      rewrite (AddrToSlabPfn_ok (root roots c) (root_ok_root c) _ Hwf _ Ha), Hp. cbn [deref].
      rewrite bind_Ok, Hd, (so_cache _ _ _ _ _ _ Hok), decide_False by congruence. done.
    + constructor; [apply L | |].
      * intros (e & He & Hec). destruct (so_home _ _ _ _ _ _ Hok a Ha) as (e' & He' & Hec'). congruence.
      * intros b r' c'' _. by rewrite (same_local_home s s').
Qed.

Lemma perm_exchange {A} (L L' O N R V V' : list A) :
  L' ++ O ++ R ≡ₚ L ++ N ++ R -> N ++ V' ≡ₚ O ++ V -> L' ++ V' ≡ₚ L ++ V.
Proof.
  intros H1 H2. apply (Permutation_app_inv_r (O ++ R)).
  trans ((L ++ N ++ R) ++ V'); [rewrite <- H1; solve_Permutation |].
  trans (L ++ (N ++ V') ++ R); [solve_Permutation |]. rewrite H2. solve_Permutation.
Qed.

Lemma set_objects_inv S X U U' s c l :
  SlabInv S X U s ->
  tag (cache_root c) l ++ U' ≡ₚ tag (cache_root c) (object_list_ (cache c s)) ++ U ->
  SlabInv S X U' (set_cache c (set_objects l (cache c s)) s).
Proof.
  intros I Hp. eapply (inv_move roots Hroots); [done | done | | | | | apply I | apply I].
  - intros c'. unfold partial_at. rewrite cache_set_cache. case_decide; by subst.
  - pose proof (loose_set_cache c (set_objects l (cache c s)) s) as H1. unfold cache_objects in H1.
    cbn [set_objects object_list_ remote_list] in H1. rewrite !tag_app in H1.
    by eapply perm_exchange.
  - intros c' a. rewrite cache_set_cache. case_decide; [subst; apply (si_remote _ _ _ _ _ I) | apply (si_remote _ _ _ _ _ I)].
  - intros c'. rewrite cache_set_cache. case_decide; [subst; apply (si_check _ _ _ _ _ I) | apply (si_check _ _ _ _ _ I)].
Qed.

(** The loop takes [amount - freed] objects off the list, and keeps
    [remote_check] when all of them are the cache's own. *)
Lemma flush_loop_inv me c X U amount l : forall freed S s,
  object_list_ (cache c s) = l -> SlabInv S X U s ->
  exists S' s', flush_loop roots me c l freed amount s = Ok s' /\ SlabInv S' X U s' /\
    object_list_ (cache c s') = drop (Z.to_nat (amount - freed)) l /\
    ((forall a, a ∈ l -> home s a c) ->
     remote_check (cache c s') = remote_check (cache c s) /\
     forall a, a ∈ object_list_ (cache c s') -> home s' a c).
Proof.
  induction l as [|a l IH]; intros freed S s Hl I; cbn [flush_loop].
  - exists S, s. rewrite drop_nil. split_and!; [done | done | done |]. rewrite Hl. done.
  - destruct (Z.ltb_spec freed amount) as [Hlt|Hge].
    2: { exists S, s. replace (Z.to_nat (amount - freed)) with O by lia. rewrite Hl. done. }
    set (s1 := set_cache c (set_objects l (cache c s)) s).
    assert (SlabInv S X ((a, cache_root c) :: U) s1) as I1.
    { apply (set_objects_inv S X U _ s c l I). rewrite Hl. cbn. solve_Permutation. }
    assert (object_list_ (cache c s1) = l) as Hl1 by (unfold s1; by rewrite cache_set_cache_eq).
    assert (remote_check (cache c s1) = remote_check (cache c s)) as Hk1 by (unfold s1; by rewrite cache_set_cache_eq).
    destruct (flush_object_inv S X U s1 me c a I1) as (S2 & s2 & -> & I2 & [Ho Hk Hh]). rewrite bind_Ok.
    rewrite Hl1 in Ho. destruct (IH (freed + 1) S2 s2 Ho I2) as (S' & s' & -> & I' & Ho' & Hall).
    exists S', s'. split_and!; [done | done | |].
    + rewrite Ho'. by replace (Z.to_nat (amount - freed)) with (Datatypes.S (Z.to_nat (amount - (freed + 1)))) by lia.
    + intros Hhome. rewrite <- Hk1, <- Hk by (apply Hhome; by left). apply Hall.
      intros b Hb. apply (Hh b (cache_root c)); [| apply Hhome; by right].
      apply elem_of_app. left. apply loose_cache, elem_of_app. left. by rewrite Hl1.
Qed.

Lemma FlushFreeList_inv me c X U amount S s :
  SlabInv S X U s ->
  exists S' s', FlushFreeList roots me c amount s = Ok s' /\ SlabInv S' X U s' /\
    object_list_ (cache c s') = drop (Z.to_nat amount) (object_list_ (cache c s)) /\
    ((forall a, a ∈ object_list_ (cache c s) -> home s a c) ->
     remote_check (cache c s') = remote_check (cache c s) /\
     forall a, a ∈ object_list_ (cache c s') -> home s' a c).
Proof.
  intros I. unfold FlushFreeList.
  destruct (flush_loop_inv me c X U amount _ 0 S s eq_refl I) as (S' & s' & ? & ? & Ho & ?).
  rewrite Z.sub_0_r in Ho. eauto 10.
Qed.

(** ** SlabCache::Alloc *)

(** The loop ends when a batch is not empty. *)
Lemma flush_while_inv me c X U fuel : forall S s,
  SlabInv S X U s -> 0 < free_batch_ (root roots c) ->
  (length (object_list_ (cache c s)) <= fuel)%nat -> 0 <= hiwater_ (root roots c) ->
  (forall a, a ∈ object_list_ (cache c s) -> home s a c) ->
  exists S' s', flush_while roots fuel me c s = Ok s' /\ SlabInv S' X U s' /\
    remote_check (cache c s') = remote_check (cache c s).
Proof.
  induction fuel as [|fuel IH]; intros S s I Hb Hf Hw Hh; cbn [flush_while];
    destruct (Z.ltb_spec (hiwater_ (root roots c)) (Z.of_nat (length (object_list_ (cache c s)))));
    [lia | by exists S, s | | by exists S, s].
  destruct (FlushFreeList_inv me c X U (free_batch_ (root roots c)) S s I) as (S1 & s1 & -> & I1 & Ho & Hall).
  rewrite bind_Ok. destruct (Hall Hh) as [Hk Hh1].
  destruct (IH S1 s1 I1 Hb) as (S' & s' & -> & I' & Hk'); [| done | done |].
  - rewrite Ho, length_drop. lia.
  - exists S', s'. by rewrite Hk', Hk.
Qed.

Lemma ClaimRemoteFreeList_inv S X U s c :
  SlabInv S X U s -> object_list_ (cache c s) = [] ->
  exists s', ClaimRemoteFreeList c s = Ok s' /\ SlabInv S X U s' /\
    remote_check (cache c s') = remote_check (cache c s) /\
    forall a, a ∈ object_list_ (cache c s') -> home s' a c.
Proof.
  intros I Ho. unfold ClaimRemoteFreeList. rewrite Ho. eexists. split; [done |].
  rewrite !cache_set_cache_eq. cbn [set_remote set_objects object_list_ remote_check].
  split_and!; [| done | intros a Ha; by apply (si_remote _ _ _ _ _ I)].
  eapply (inv_move roots Hroots); [done | done | | | | | apply I | apply I].
  - intros c'. unfold partial_at. rewrite cache_set_cache. case_decide; by subst.
  - match goal with |- loose (set_cache c ?x s) ++ _ ≡ₚ _ => pose proof (loose_set_cache c x s) as H1 end.
    unfold cache_objects in H1. rewrite Ho in H1. cbn [app set_remote set_objects object_list_ remote_list] in H1.
    rewrite app_nil_r in H1. apply Permutation_app_inv_r in H1. by rewrite H1.
  - intros c' a. rewrite cache_set_cache. case_decide; [by intros ?%not_elem_of_nil | apply (si_remote _ _ _ _ _ I)].
  - intros c'. rewrite cache_set_cache. case_decide; [subst; apply (si_check _ _ _ _ _ I) | apply (si_check _ _ _ _ _ I)].
Qed.

Lemma clear_check_inv S X U s c :
  SlabInv S X U s ->
  SlabInv S X U (set_cache c (set_remote (remote_list (cache c s)) false (cache c s)) s).
Proof.
  intros I. pose proof (set_remote_local c (remote_list (cache c s)) false s) as L.
  eapply (inv_move roots Hroots); [done | done | apply L | | | | apply I | apply I].
  - match goal with |- loose (set_cache c ?x s) ++ _ ≡ₚ _ => pose proof (loose_set_cache c x s) as H1 end.
    apply Permutation_app_inv_r in H1. by rewrite H1.
  - intros c' a. rewrite cache_set_cache. case_decide; [subst; apply (si_remote _ _ _ _ _ I) | apply (si_remote _ _ _ _ _ I)].
  - intros c'. rewrite cache_set_cache. case_decide; [done | apply (si_check _ _ _ _ _ I)].
Qed.

(** Nothing to give: all three sources of the cache are empty. *)
Definition dry (c : cache_id) s : Prop :=
  object_list_ (cache c s) = [] /\ remote_check (cache c s) = false /\ partial_at c s = [].

Lemma partial_alloc_inv S X U s c pfn rest :
  SlabInv S X U s -> partial_at c s = pfn :: rest ->
  exists a s', partial_alloc roots c s = Ok (Some a, s') /\ SlabInv S X ((a, cache_root c) :: U) s'.
Proof.
  intros I Hpl. destruct (si_partial_slab _ _ _ _ _ I c pfn) as (HS & d & Hd & Hc); [rewrite Hpl; by left |].
  destruct (si_slab _ _ _ _ _ I _ _ HS) as (d' & c' & Hok).
  assert (d' = d) as -> by (pose proof (so_at _ _ _ _ _ _ Hok); congruence).
  assert (c' = c) as -> by (pose proof (so_cache _ _ _ _ _ _ Hok); congruence).
  destruct (slab_page _ _ _ _ _ Hok) as (page & Hp & Hpd).
  assert (slab_list d <> []) as Hnl by (apply (so_partial _ _ _ _ _ _ Hok); rewrite Hpl; by left).
  pose proof (so_used _ _ _ _ _ _ Hok) as Hused. change (roots (cache_root c)) with (root roots c) in Hused.
  pose proof (so_list _ _ _ _ _ _ Hok) as Hsub.
  destruct (slab_list d) as [|a l] eqn:El; [done |]. cbn [length] in Hused.
  unfold partial_alloc. change (partial_page_list_ (cache c s)) with (partial_at c s). rewrite Hpl, Hp. cbn [deref].
  rewrite bind_Ok, Hpd. destruct (Z.ltb_spec (slab_used d) (NumObjectsPerSlab (root roots c))) as [_|]; [| lia].
  cbn [kassert]. rewrite bind_Ok, El. cbv zeta.
  set (s1 := if _ =? _ then set_cache _ _ _ else s).
  set (pl := if slab_used d + 1 =? NumObjectsPerSlab (root roots c) then rest else pfn :: rest).
  assert (pages s1 = pages s /\ loose s1 ≡ₚ loose s /\ same_remote s s1 /\ partial_at c s1 = pl /\
    forall c', c' <> c -> partial_at c' s1 = partial_at c' s) as (Hpg & Hlo & Hsr & Hpc & Hne).
  { unfold s1, pl. destruct (_ =? _); [| done].
    split_and!; [done | apply loose_set_partial | apply same_remote_partial | |].
    - by rewrite partial_at_set, decide_True.
    - intros. by rewrite partial_at_set, decide_False. }
  assert (PfnToPage pfn s1 = Some page) as Hp1 by (unfold PfnToPage; by rewrite Hpg).
  clearbody s1. exists a. eexists. split; [done |].
  set (d1 := mkSlabData l (slab_cache d) (slab_used d + 1)).
  pose proof (si_hold _ _ _ _ _ I) as Hh. rewrite <- Hpg in Hh.
  destruct (write_slab_list s1 _ pfn page d1 Hh) as [Hh1 Hat1]; [by eapply covers_slab | done |].
  apply elem_of_Permutation in HS as [S' HS].
  apply (SlabInv_perm roots ((pfn, cache_root c) :: S') _ _ ((a, cache_root c) :: U)); [done | done |].
  apply (SlabInv_perm roots _ _ _ _ _ _ HS (reflexivity _)) in I.
  assert (NoDup (pfn :: rest)) as Hnd by (rewrite <- Hpl; apply I).
  eapply (inv_update roots S' X U _ s _ pfn (cache_root c) d c d1); try done.
  - eapply holds_perm; [| done]. by rewrite HS.
  - intros x. rewrite Hat1. unfold slab_at, PfnToPage. by rewrite Hpg.
  - change (NoDup (partial_at c s1)). rewrite Hpc. unfold pl. destruct (_ =? _); [by apply NoDup_cons in Hnd as [] | done].
  - intros x Hx. change (x ∈ partial_at c s1 <-> x ∈ partial_at c s). rewrite Hpc, Hpl. unfold pl.
    destruct (_ =? _); [| done]. rewrite elem_of_cons. naive_solver.
  - change (pfn ∈ partial_at c s1 <-> l <> []). rewrite Hpc. unfold pl. apply NoDup_cons in Hnd as [Hni _].
    destruct (Z.eqb_spec (slab_used d + 1) (NumObjectsPerSlab (root roots c))).
    + assert (l = []) as -> by (apply length_zero_iff_nil; lia). done.
    + split; [| intros _; by left]. intros _ ->. cbn in Hused. lia.
  - intros x Hx. apply Hsub. by right.
  - cbn [d1 slab_used slab_list]. unfold root in Hused. lia.
  - constructor; apply Hsr.
  - rewrite El. cbn. solve_Permutation.
Qed.

(** What an allocation from the cache alone returns. *)
Definition allocated S X U (c : cache_id) (ret : option Z) s : Prop :=
  match ret with
  | Some a => SlabInv S X ((a, cache_root c) :: U) s
  | None => SlabInv S X U s /\ dry c s
  end.

Lemma cache_alloc_local S X U s me c n :
  SlabInv S X U s -> remote_check (cache c s) = false ->
  exists ret s', cache_alloc roots n me c s = Ok (ret, s') /\ allocated S X U c ret s' /\
    (partial_at c s <> [] -> ret <> None).
Proof.
  intros I Hk. destruct n; cbn [cache_alloc]; destruct (object_list_ (cache c s)) as [|a l] eqn:Eo.
  1, 3: rewrite Hk; destruct (partial_at c s) as [|pfn rest] eqn:Ep.
  1, 3: (exists None, s; unfold partial_alloc; change (partial_page_list_ (cache c s)) with (partial_at c s);
         rewrite Ep; done).
  1, 2: (destruct (partial_alloc_inv _ _ _ _ _ _ _ I Ep) as (a & s' & -> & I'); by exists (Some a), s').
  all: eexists (Some a), _; (split; [done |]); (split; [| done]);
    apply (set_objects_inv S X U _ s c l I); rewrite Eo; cbn; solve_Permutation.
Qed.

(** One [goto retry] at most: the objects claimed from the remote list are the
    cache's own, so flushing them never raises [remote_check] again. *)
Lemma CacheAlloc_inv S X U s me c :
  SlabInv S X U s ->
  exists ret S' s', CacheAlloc roots me c s = Ok (ret, s') /\ allocated S' X U c ret s'.
Proof.
  intros I. unfold CacheAlloc. destruct (remote_check (cache c s)) eqn:Ek.
  2: { destruct (cache_alloc_local S X U s me c 1 I Ek) as (ret & s' & ? & ? & _). eauto. }
  cbn [cache_alloc]. destruct (object_list_ (cache c s)) as [|a l] eqn:Eo.
  2: { eexists (Some a), S, _. split; [done |]. apply (set_objects_inv S X U _ s c l I). rewrite Eo. cbn. solve_Permutation. }
  rewrite Ek. apply (clear_check_inv _ _ _ _ c) in I as I1. set (s1 := set_cache c _ s) in *.
  assert (remote_check (cache c s1) = false) as Hk1 by (unfold s1; by rewrite cache_set_cache_eq).
  assert (object_list_ (cache c s1) = []) as Ho1 by (unfold s1; by rewrite cache_set_cache_eq).
  clearbody s1.
  destruct (ClaimRemoteFreeList_inv _ _ _ _ _ I1 Ho1) as (s2 & -> & I2 & Hk2 & Hh2). rewrite bind_Ok.
  destruct (flush_while_inv me c X U (Datatypes.S (length (object_list_ (cache c s2)))) S s2 I2)
    as (S3 & s3 & -> & I3 & Hk3); [by apply (si_check _ _ _ _ _ I) | lia | apply rt_hiwater, root_ok_root | done |].
  rewrite bind_Ok, Hk2, Hk1 in *.
  destruct (cache_alloc_local S3 X U s3 me c 0 I3 Hk3) as (ret & s' & ? & ? & _). eauto.
Qed.

(** ** AddSlab *)

(** One round of the loop. *)
Lemma add_object_ok A pfn c addr s d n :
  holds (pages s) A -> slab_at s pfn = Some d -> covers A pfn -> covers A (PfnDown addr) ->
  exists s' d', add_objects roots c pfn (Datatypes.S n) addr s =
      add_objects roots c pfn n (addr + size_ (root roots c)) s' /\
    holds (pages s') A /\ caches s' = caches s /\ cpu_allocators_ s' = cpu_allocators_ s /\
    slab_at s' pfn = Some d' /\ slab_used d' = slab_used d /\ slab_list d' = addr :: slab_list d /\
    (forall x, x <> pfn -> x <> PfnDown addr -> slab_at s' x = slab_at s x) /\
    home s' addr c /\ (forall a, home s a c -> home s' a c).
Proof.
  intros Hh Hd Hp Hca. cbn [add_objects].
  assert (exists page, PfnToPage pfn s = Some page /\ slab_data page = d) as (page & Hpg & Hpd).
  { unfold slab_at in Hd. destruct (PfnToPage pfn s) as [page|]; [| done]. injection Hd as <-. eauto. }
  rewrite Hpg. cbn [deref]. rewrite bind_Ok, Hpd. cbv zeta.
  set (d1 := mkSlabData (addr :: slab_list d) (slab_cache d) (slab_used d)).
  destruct (write_slab_list s A pfn page d1 Hh Hp Hpg) as [Hh1 Hat1].
  set (s1 := write_page pfn _ s) in *. cbv zeta in Hh1, Hat1.
  destruct (holds_mapped _ _ _ Hh1 Hca) as [apage Hap].
  change (AddrToPage addr s1) with (ps_page (pages s1) (PfnDown addr)). rewrite Hap. cbn [deref]. rewrite bind_Ok.
  set (d2 := mkSlabData (slab_list (slab_data apage)) (Some c) (slab_used (slab_data apage))).
  destruct (write_slab_list s1 A (PfnDown addr) apage d2 Hh1 Hca Hap) as [Hh2 Hat2].
  set (s2 := write_page (PfnDown addr) _ s1) in *. cbv zeta in Hh2, Hat2.
  assert (slab_at s1 (PfnDown addr) = Some (slab_data apage)) as Hap' by (unfold slab_at, PfnToPage; by rewrite Hap).
  exists s2, (if decide (pfn = PfnDown addr) then d2 else d1).
  split_and!; [done | done | done | done | | | | | |].
  - rewrite Hat2, Hat1. case_decide; [done |]. by rewrite decide_True.
  - case_decide as E; [| done]. rewrite <- E, Hat1, decide_True in Hap' by done.
    injection Hap' as E2. cbn. by rewrite <- E2.
  - case_decide as E; [| done]. rewrite <- E, Hat1, decide_True in Hap' by done.
    injection Hap' as E2. cbn. by rewrite <- E2.
  - intros x Hx Hxa. by rewrite Hat2, Hat1, !decide_False.
  - exists d2. by rewrite Hat2, decide_True.
  - intros a (e & He & Hec). unfold home. rewrite Hat2. case_decide; [by exists d2 |]. rewrite Hat1.
    case_decide as E; [| eauto]. exists d1. rewrite E, Hd in He. injection He as <-. done.
Qed.

Lemma add_objects_ok A pfn c n : forall addr s d,
  holds (pages s) A -> slab_at s pfn = Some d -> covers A pfn ->
  (forall i, (i < n)%nat -> covers A (PfnDown (addr + Z.of_nat i * size_ (root roots c)))) ->
  exists s' d', add_objects roots c pfn n addr s = Ok s' /\ holds (pages s') A /\
    caches s' = caches s /\ cpu_allocators_ s' = cpu_allocators_ s /\
    slab_at s' pfn = Some d' /\ slab_used d' = slab_used d /\
    slab_list d' ≡ₚ ((fun i => addr + Z.of_nat i * size_ (root roots c)) <$> seq 0 n) ++ slab_list d /\
    (forall x, x <> pfn -> (forall i, (i < n)%nat -> x <> PfnDown (addr + Z.of_nat i * size_ (root roots c))) ->
       slab_at s' x = slab_at s x) /\
    (forall i, (i < n)%nat -> home s' (addr + Z.of_nat i * size_ (root roots c)) c) /\
    (forall a, home s a c -> home s' a c).
Proof.
  induction n as [|n IH]; intros addr s d Hh Hd Hp Hcov.
  { exists s, d. split_and!; try done. intros i Hi. lia. }
  assert (forall i, addr + Z.of_nat (Datatypes.S i) * size_ (root roots c) =
    addr + size_ (root roots c) + Z.of_nat i * size_ (root roots c)) as Hsh by lia.
  assert (addr + Z.of_nat 0 * size_ (root roots c) = addr) as H00 by lia.
  destruct (add_object_ok A pfn c addr s d n) as (s1 & d1 & -> & Hh1 & Hc1 & Hu1 & Hd1 & Hus1 & Hl1 & Ho1 & Ha1 & Hm1);
    [done | done | done | rewrite <- H00; apply Hcov; lia |].
  destruct (IH (addr + size_ (root roots c)) s1 d1 Hh1 Hd1 Hp)
    as (s' & d' & -> & Hh' & Hc' & Hu' & Hd' & Hus' & Hl' & Ho' & Ha' & Hm').
  { intros i Hi. rewrite <- Hsh. apply Hcov. lia. }
  exists s', d'. split_and!; [done | done | congruence | congruence | done | congruence | | | |].
  - rewrite Hl', Hl1. cbn [seq]. rewrite fmap_cons, H00, <- fmap_S_seq, <- list_fmap_compose.
    rewrite <- Permutation_middle. cbn [app]. f_equiv. f_equiv.
    erewrite list_fmap_ext; [done |]. intros _ i _. cbn [compose]. by rewrite Hsh.
  - intros x Hx Hxi. rewrite Ho', Ho1; [done | done | rewrite <- H00; apply Hxi; lia | done |].
    intros i Hi. rewrite <- Hsh. apply Hxi. lia.
  - intros [|i] Hi; [rewrite H00; auto | rewrite Hsh; apply Ha'; lia].
  - auto.
Qed.

Lemma AddSlab_inv S X U s c pfn p' :
  SlabInv S X U s ->
  holds p' ((pfn, order_ (root roots c)) :: (slab_block roots <$> S) ++ X) ->
  (forall x, covers ((slab_block roots <$> S) ++ X) x -> ps_page p' x = ps_page (pages s) x) ->
  exists s', AddSlab roots c pfn (set_pages p' s) = Ok s' /\
    SlabInv ((pfn, cache_root c) :: S) X U s' /\
    remote_check (cache c s') = remote_check (cache c s) /\ partial_at c s' <> [].
Proof.
  intros I Hh Hat. set (A := (pfn, _) :: _) in Hh. set (s0 := set_pages p' s).
  assert (wf_block (pfn, order_ (root roots c))) as Hwf by (by pose proof (holds_wf _ _ Hh) as [? ?]%Forall_cons).
  assert (covers A pfn) as Hcp by (exists (pfn, order_ (root roots c)); split; [left | apply in_block_self]).
  destruct (holds_mapped _ _ _ Hh Hcp) as [page Hp].
  unfold AddSlab. change (PfnToPage pfn s0) with (ps_page p' pfn). rewrite Hp. cbn [deref]. rewrite bind_Ok. cbv zeta.
  set (d0 := mkSlabData [] _ 0).
  destruct (write_slab_data s0 A pfn page kSlabAllocator d0) as [Hh1 Hat1]; [done | done | done | by right |].
  set (s1 := write_page pfn _ s0) in *. cbv zeta in Hh1, Hat1.
  assert (slab_at s1 pfn = Some d0) as Hd1 by (by rewrite Hat1, decide_True).
  set (n := Z.to_nat (NumObjectsPerSlab (root roots c))).
  assert (forall i, (i < n)%nat -> in_block pfn (order_ (root roots c)) (PfnDown (ToAddr pfn + Z.of_nat i * size_ (root roots c)))) as Hob.
  { intros i Hi. eapply slab_object_page; [apply root_ok_root | done |].
    apply slab_objects_elem; [apply root_ok_root |]. exists (Z.of_nat i). split; [lia | done]. }
  destruct (add_objects_ok A pfn c n (ToAddr pfn) s1 d0 Hh1 Hd1 Hcp)
    as (s2 & d & -> & Hh2 & Hc2 & Hu2 & Hd2 & Hus & Hl & Ho & Ha & Hm).
  { intros i Hi. exists (pfn, order_ (root roots c)). split; [left | by apply Hob]. }
  rewrite bind_Ok. eexists. split; [done |].
  assert (forall c', cache c' s2 = cache c' s) as Hcache by (intros; unfold cache; by rewrite Hc2).
  rewrite !Hcache. split_and!; [| by rewrite cache_set_cache_eq | unfold partial_at; by rewrite cache_set_cache_eq].
  assert (0 < n)%nat as Hn0 by (pose proof (NumObjects_pos _ (root_ok_root c)); lia).
  assert (slab_cache d = Some c) as Hdc.
  { destruct (Ha O Hn0) as (e & He & Hec). rewrite Z.add_0_r, PfnDown_ToAddr, Hd2 in He; [congruence |].
    destruct Hwf as (? & ? & _). cbn in *. pose proof (block_size_pos (order_ (root roots c))). lia. }
  assert (forall c', cache c' (set_cache c (set_partial (pfn :: partial_page_list_ (cache c s)) (cache c s)) s2) =
     cache c' (set_cache c (set_partial (pfn :: partial_at c s) (cache c s)) s)) as Hc3.
  { intros. rewrite !cache_set_cache. by rewrite Hcache. }
  apply (slab_inv_add roots Hroots S X U s _ pfn (cache_root c) d c); try done.
  - intros x Hx. change (slab_at s2 x = slab_at s x).
    assert (forall y, in_block pfn (order_ (root roots c)) y -> x <> y) as Hdis.
    { intros y Hy ->. destruct Hx as (b & Hb & Hby). pose proof (holds_sep _ _ Hh) as [Hs _].
      rewrite Forall_forall in Hs. by apply (proj1 (blocks_disjoint_spec _ _ _ _) (Hs _ Hb) y). }
    rewrite Ho; [| apply Hdis, in_block_self | intros; by apply Hdis, Hob].
    rewrite Hat1, decide_False by apply Hdis, in_block_self.
    unfold slab_at, PfnToPage, s0. cbn. by rewrite Hat.
  - rewrite Hl. cbn. by rewrite app_nil_r.
  - intros a Hin. apply slab_objects_elem in Hin as (i & Hi & ->); [| apply Hroots]. specialize (Ha (Z.to_nat i)).
    rewrite Z2Nat.id in Ha by lia. apply Ha. unfold n, root. lia.
  - intros c' Hc'. unfold partial_at. by rewrite Hc3, cache_set_cache_ne.
  - unfold partial_at. by rewrite cache_set_cache_eq.
  - pose proof (loose_set_partial c (pfn :: partial_at c s) s) as Hlp. unfold loose in *. cbn in *.
    by rewrite Hc2, Hu2.
  - constructor; [| |].
    + intros c'. rewrite Hc3. apply (same_remote_partial c _ s).
    + intros c'. rewrite Hc3. apply (same_remote_partial c _ s).
    + done.
Qed.

(** ** The allocators *)

(** An allocation gives an object, or the page allocator had no block. *)
Lemma alloc_or_grow_inv S X U s me c nid :
  SlabInv S X U s ->
  exists ret S' s', alloc_or_grow roots me c nid s = Ok (ret, s') /\
    match ret with
    | Some a => SlabInv S' X ((a, cache_root c) :: U) s'
    | None => SlabInv S' X U s' /\ dry c s' /\
        exists q, ps_Alloc q (order_ (root roots c)) nid = Ok (PfnNone, pages s')
    end.
Proof.
  intros I. unfold alloc_or_grow. destruct (CacheAlloc_inv S X U s me c I) as (ret & S1 & s1 & -> & I1).
  rewrite bind_Ok. destruct ret as [a|]; [by exists (Some a), S1, s1 |]. destruct I1 as [I1 Hdry]. pose proof Hdry as (Ho & Hk & Hp).
  destruct (ps_Alloc_ok _ _ (order_ (root roots c)) nid (si_hold _ _ _ _ _ I1)) as (pfn & p' & Hal & Hat & Hcase);
    [apply root_ok_root |]. rewrite Hal, bind_Ok.
  destruct Hcase as [[-> Hh]|[Hpfn Hh]].
  - rewrite Z.eqb_refl. exists None, S1. eexists. split; [done |]. split; [| split; [done | eauto]].
    eapply (inv_pages roots Hroots); [done | done |]. intros x Hx. unfold slab_at, PfnToPage. cbn.
    rewrite Hat; [done |]. rewrite covers_app. by left.
  - apply Z.eqb_neq in Hpfn. rewrite Hpfn.
    destruct (AddSlab_inv S1 X U s1 c pfn p' I1 Hh Hat) as (s2 & -> & I2 & Hk2 & Hp2). rewrite bind_Ok.
    rewrite Hk in Hk2. destruct (cache_alloc_local _ _ _ _ me c 1 I2 Hk2) as (ret & s3 & Hca & I3 & Hne).
    unfold CacheAlloc. rewrite Hca, bind_Ok. destruct ret as [a|]; [| by destruct (Hne Hp2)].
    cbn [deref]. rewrite bind_Ok. by eexists (Some a), _, s3.
Qed.

Context (node_of : nat -> Z).

Lemma CacheFree_inv S X U s me c p :
  SlabInv S X ((p, cache_root c) :: U) s ->
  exists S' s', CacheFree roots me c p s = Ok s' /\ SlabInv S' X U s'.
Proof.
  intros I. unfold CacheFree.
  assert (SlabInv S X U (set_cache c (set_objects (p :: object_list_ (cache c s)) (cache c s)) s)) as I1.
  { eapply set_objects_inv; [done |]. cbn. solve_Permutation. }
  set (s1 := set_cache c _ s) in *. case_match; [| eauto].
  destruct (FlushFreeList_inv me c X U (free_batch_ (root roots c)) S s1 I1) as (S' & s' & ? & ? & _). eauto.
Qed.

Lemma SlabFree_inv S X U s me r p :
  SlabInv S X ((p, r) :: U) s ->
  exists S' s', SlabFree roots node_of me r p s = Ok s' /\ SlabInv S' X U s'.
Proof.
  intros I. destruct (object_home _ _ _ _ p r I) as (page & c & Hp & _).
  { apply elem_of_app. right. by left. }
  unfold SlabFree. rewrite Hp. cbn [deref]. rewrite bind_Ok. case_match.
  - by apply (CacheFree_inv S X U s me (mkCacheId r (OfCpu me)) p).
  - destruct (FreeRemote_inv S X U s r me p I) as (s' & ? & ? & _). eauto.
Qed.

(** ** All cores together

    A state with the objects that callers hold; [SlabAlloc] and [SlabAllocNid]
    run on any core for any root, and an object is freed on any core. *)
Inductive slab_step : Slab P * list (Z * nat) -> Slab P * list (Z * nat) -> Prop :=
| step_alloc me r s U ret s' :
    SlabAlloc roots node_of me r s = Ok (ret, s') ->
    slab_step (s, U) (s', from_option (fun a => [(a, r)]) [] ret ++ U)
| step_alloc_nid me r nid s U ret s' :
    SlabAllocNid roots node_of me r nid s = Ok (ret, s') ->
    slab_step (s, U) (s', from_option (fun a => [(a, r)]) [] ret ++ U)
| step_free me r a s U U' s' :
    U ≡ₚ (a, r) :: U' -> SlabFree roots node_of me r a s = Ok s' ->
    slab_step (s, U) (s', U').

Definition new_Slab (p : P) : Slab P := mkSlab ∅ ∅ p.

Lemma new_Slab_inv p X : holds p X -> SlabInv [] X [] (new_Slab p).
Proof.
  intros Hh. constructor; try done.
  all: intros *; first [by intros ?%not_elem_of_nil | constructor].
Qed.

Lemma alloc_post S X U s me c nid ret s' :
  SlabInv S X U s -> alloc_or_grow roots me c nid s = Ok (ret, s') ->
  exists S', SlabInv S' X (from_option (fun a => [(a, cache_root c)]) [] ret ++ U) s'.
Proof.
  intros I E. destruct (alloc_or_grow_inv S X U s me c nid I) as (ret' & S' & s1 & E' & Hp).
  rewrite E in E'. injection E' as <- <-. exists S'. destruct ret; [done | by destruct Hp].
Qed.

Lemma slab_step_inv x y X :
  slab_step x y -> (exists S, SlabInv S X x.2 x.1) -> exists S, SlabInv S X y.2 y.1.
Proof.
  intros Hs [S I]. destruct Hs as [me r s U ret s' E|me r nid s U ret s' E|me r a s U U' s' HU E]; cbn in *.
  - exact (alloc_post _ _ _ _ _ _ _ _ _ I E).
  - unfold SlabAllocNid, NodeAlloc in E. case_match; exact (alloc_post _ _ _ _ _ _ _ _ _ I E).
  - apply (SlabInv_perm roots S S X U ((a, r) :: U') s (reflexivity S) HU) in I.
    destruct (SlabFree_inv _ _ _ _ me r a I) as (S' & s1 & E' & I'). rewrite E in E'. injection E' as <-. eauto.
Qed.

Lemma slab_steps_inv x y X :
  rtc slab_step x y -> (exists S, SlabInv S X x.2 x.1) -> exists S, SlabInv S X y.2 y.1.
Proof. induction 1 as [|x y z Hxy _ IH]; [done |]. intros Hx. by eapply IH, slab_step_inv. Qed.

Lemma slab_reachable p X x : holds p X -> rtc slab_step (new_Slab p, []) x -> exists S, SlabInv S X x.2 x.1.
Proof. intros Hh Hr. eapply slab_steps_inv; [done |]. exists []. by apply new_Slab_inv. Qed.

Definition disjoint_objects (x y : Z * nat) : Prop :=
  x.1 + size_ (roots x.2) <= y.1 \/ y.1 + size_ (roots y.2) <= x.1.

(** Objects of one or of two slabs do not overlap. *)
Lemma objects_disjoint S X U s x y :
  SlabInv S X U s -> x ∈ (S ≫= slab_objs roots) -> y ∈ (S ≫= slab_objs roots) -> x <> y ->
  disjoint_objects x y.
Proof.
  intros I Hx Hy Hn. destruct x as [a r], y as [b r'].
  apply slab_objs_elem in Hx as (p & Hp & Ha), Hy as (q & Hq & Hb).
  pose proof (slab_wf roots _ _ _ _ _ _ I Hp) as Hwp. pose proof (slab_wf roots _ _ _ _ _ _ I Hq) as Hwq.
  destruct (decide ((p, r) = (q, r'))) as [[= -> ->]|Hpq].
  - apply (slab_objects_disjoint _ (Hroots r') q); [done | done |]. cbn. by intros ->.
  - pose proof (slab_object_range _ (Hroots r) _ Hwp _ Ha). pose proof (slab_object_range _ (Hroots r') _ Hwq _ Hb).
    assert (blocks_disjoint p (order_ (roots r)) q (order_ (roots r'))) as Hd.
    { apply blocks_disjoint_spec. intros z Hz Hz'. by apply Hpq, (slab_unique roots _ _ _ _ _ _ _ _ _ I Hp Hq Hz Hz'). }
    unfold disjoint_objects. cbn. change kPageSize with 4096 in *. destruct Hd; [left | right]; lia.
Qed.

Lemma held_disjoint S X U s i j x y :
  SlabInv S X U s -> U !! i = Some x -> U !! j = Some y -> i <> j -> disjoint_objects x y.
Proof.
  intros I Hi Hj Hij. assert (forall x, x ∈ U -> x ∈ (S ≫= slab_objs roots)) as Hsub.
  { intros z Hz. rewrite (si_perm _ _ _ _ _ I), !elem_of_app. auto. }
  eapply objects_disjoint; [done | apply Hsub; by eapply list_elem_of_lookup_2.. |].
  intros ->. apply Hij. pose proof (objects_NoDup roots Hroots _ _ _ _ I) as Hn. rewrite (si_perm _ _ _ _ _ I) in Hn.
  apply NoDup_app in Hn as (_ & _ & Hn). apply NoDup_app in Hn as (_ & _ & Hn). by eapply NoDup_lookup.
Qed.

(** C4. Whatever the cores allocate and free, in any order and from any node, two
    objects that callers hold never overlap, none overlaps a block that another
    user of the page allocator holds, no operation fails an assertion or runs
    forever, and an allocation returns null only if the page allocator did. *)
Theorem slab_safe p X s U :
  holds p X -> rtc slab_step (new_Slab p, []) (s, U) ->
  (forall i j x y, U !! i = Some x -> U !! j = Some y -> i <> j -> disjoint_objects x y) /\
  (forall x b, x ∈ U -> b ∈ X ->
     x.1 + size_ (roots x.2) <= b.1 * kPageSize \/ (b.1 + block_size b.2) * kPageSize <= x.1) /\
  (forall me r, exists ret s', SlabAlloc roots node_of me r s = Ok (ret, s') /\
     (ret = None -> exists q, ps_Alloc q (order_ (roots r)) (node_of me) = Ok (PfnNone, pages s'))) /\
  (forall me r nid, exists ret s', SlabAllocNid roots node_of me r nid s = Ok (ret, s')) /\
  (forall me r a, (a, r) ∈ U -> exists s', SlabFree roots node_of me r a s = Ok s').
Proof.
  intros Hh Hr. destruct (slab_reachable p X _ Hh Hr) as [S I]. cbn in I.
  assert (forall x, x ∈ U -> x ∈ (S ≫= slab_objs roots)) as Hsub.
  { intros x Hx. rewrite (si_perm _ _ _ _ _ I), !elem_of_app. auto. }
  split_and!.
  - intros i j x y Hi Hj Hij. by eapply held_disjoint.
  - intros [a r] b Ha Hb. apply Hsub, slab_objs_elem in Ha as (q & Hq & Ha).
    pose proof (slab_object_range _ (Hroots r) _ (slab_wf roots _ _ _ _ _ _ I Hq) _ Ha) as Hrange.
    assert (bdisj (slab_block roots (q, r)) b) as Hd.
    { pose proof (holds_sep _ _ (si_hold _ _ _ _ _ I)) as (_ & _ & Hs)%separated_app.
      apply bdisj_spec. intros z Hz Hz'. apply (Hs z); [exists (slab_block roots (q, r)) | by exists b].
      split; [by apply list_elem_of_fmap_2 | done]. }
    cbn. change kPageSize with 4096 in *. destruct Hd; [left | right]; cbn in *; lia.
  - intros me r. destruct (alloc_or_grow_inv S X U s me (mkCacheId r (OfCpu me)) (node_of me) I) as (ret & S' & s' & E & Hp).
    exists ret, s'. split; [done |]. intros ->. by destruct Hp as (_ & _ & Hq).
  - intros me r nid. unfold SlabAllocNid, NodeAlloc.
    case_match; (edestruct (alloc_or_grow_inv S X U s me) as (ret & S' & s' & E & _); [done | eauto]).
  - intros me r a Ha. apply elem_of_Permutation in Ha as [U' HU].
    apply (SlabInv_perm roots S S X U ((a, r) :: U') s (reflexivity S) HU) in I.
    destruct (SlabFree_inv _ _ _ _ me r a I) as (S' & s' & ? & _). eauto.
Qed.

End Correct.
