(* ===== verification/SlabPages.v ===== *)
(** * The buddy allocator keeps the slab allocator's assumptions

    The page allocator of one node (PageAllocator.v) is a [PageSource], and the
    invariant proved in BuddyCorrect.v discharges [PageSourceOk]: the theorems
    of SlabCorrect.v hold for the two allocators together. *)

From S2P Require Import Prelude Pfn MemMap PageAllocator BuddyInvariant BuddyChecker BuddyCorrect.
From S2P Require Import Slab SlabInvariant.

(** [page_allocator->Alloc(order, nid)] with the default [max_addr], on the only
    node. *)
#[export] Instance buddy_source : PageSource pstate := {
  ps_Alloc st k _ := AllocLocal false st k (2 ^ 64 - 1);
  ps_Free st pfn k := Free false st pfn k;
  ps_page st pfn := mem_map st !! pfn;
  ps_write pfn page st := mkPstate (pa st) (<[pfn := page]> (mem_map st))
}.

(** ** Neither operation touches the descriptors of allocated pages *)

Lemma FreePageNoCoalesce_frame st p k st' x :
  FreePageNoCoalesce st p k = Ok st' -> x <> p -> mem_map st' !! x = mem_map st !! x.
Proof.
  unfold FreePageNoCoalesce. case_match; [done |]. destruct (mem_map st !! p); [| done].
  intros [= <-] Hx. cbn. by rewrite lookup_insert_ne.
Qed.

Lemma AllocSplit_frame n st fp k st' x :
  0 <= fp -> aligned (k + n) fp -> AllocSplit n st fp k = Ok st' -> ~ in_block fp (k + n) x ->
  mem_map st' !! x = mem_map st !! x.
Proof.
  revert st. induction n as [|n IH]; intros st H0 Ha; cbn [AllocSplit]; [by intros [= <-] |].
  intros (st1 & H1 & H2)%bind_ok Hx. rewrite Nat.add_succ_r in *.
  pose proof (block_size_pos (k + n)). pose proof (block_size_S (k + n)). unfold in_block in Hx.
  rewrite (IH st1); [| done | by eapply aligned_mono; [| done]; lia | done | unfold in_block; lia].
  eapply FreePageNoCoalesce_frame; [done |]. rewrite buddy_lower; [lia | done | | done].
  eapply aligned_mono; [| done]. lia.
Qed.

Lemma FreeCoalesce_frame fuel st p k st' p' k' :
  FreeCoalesce fuel st p k = Ok (st', p', k') -> mem_map st' = mem_map st.
Proof.
  revert st p k. induction fuel as [|fuel IH]; intros st p k; cbn [FreeCoalesce]; [by intros [= <- _ _] |].
  case_match; [| by intros [= <- _ _]]. case_match; [| by intros [= <- _ _]].
  case_match; [by intros [= <- _ _] |]. intros (l & _ & Hl)%bind_ok. by apply IH in Hl.
Qed.

(** A page of an allocated block is in no free block. *)
Lemma allocated_not_free A st x : Inv A [] st -> covers A x -> ~ covers (free_blocks (pa st)) x.
Proof.
  intros I HA Hf. pose proof (inv_sep _ _ _ I) as Hs. unfold blocks in Hs. rewrite app_nil_r in Hs.
  apply separated_app in Hs as (_ & _ & Hd). eauto.
Qed.

Lemma AllocLocal_frame A st k m pfn st' x :
  CInv false A st -> AllocLocal false st k m = Ok (pfn, st') -> covers A x ->
  mem_map st' !! x = mem_map st !! x.
Proof.
  intros [I _] E Hx. unfold AllocLocal in E.
  destruct (AllocSearch _ _ _ _) as [[[fp t] a]|] eqn:Es; [| by injection E as _ <-].
  apply AllocSearch_some in Es as (Ht & _ & l & Hl & ->).
  assert (t <= kMaxOrder)%nat as Hm by lia.
  destruct (inv_take A [] st t fp l I Hm Hl) as [I1 Hf].
  assert (~ in_block fp t x) as Hn.
  { intros Hb. apply (allocated_not_free A st x I Hx). exists (fp, t). split; [| done]. rewrite Hf. left. }
  assert (wf_block (fp, t)) as (H0 & _ & Hal & _).
  { pose proof (inv_wf _ _ _ I1) as Hw. rewrite Forall_forall in Hw. apply Hw. unfold blocks. set_solver. }
  cbn in H0, Hal. apply bind_ok in E as (st1 & Hsp & E). apply bind_ok in E as (page & Hp & E). injection E as <- <-. cbn.
  replace t with (k + (t - k))%nat in Hal, Hn by lia.
  rewrite lookup_insert_ne.
  - eapply AllocSplit_frame in Hsp; [| done | done | done]. done.
  - intros ->. apply Hn. apply in_block_self.
Qed.

Lemma Free_frame A st pfn k st' x :
  CInv false ((pfn, k) :: A) st -> Free false st pfn k = Ok st' -> covers A x ->
  mem_map st' !! x = mem_map st !! x.
Proof.
  intros [I _] E Hx. unfold Free in E.
  apply bind_ok in E as (st0 & E0 & E). injection E0 as <-. apply bind_ok in E as (_ & _ & E).
  apply bind_ok in E as ([[st1 p'] k'] & Hc & E). apply bind_ok in E as (st2 & Hf & E).
  cbn in E. injection E as <-. rewrite <- (FreeCoalesce_frame _ _ _ _ _ _ _ Hc).
  eapply FreePageNoCoalesce_frame; [done |]. intros ->.
  assert (Inv A [(pfn, k)] st) as I1 by (by apply inv_release).
  destruct (FreeCoalesce_ok A kMaxOrder st pfn k I1) as (st3 & p3 & k3 & Hc3 & I3 & Hcov & _); [lia |].
  rewrite Hc in Hc3. injection Hc3 as <- <- <-.
  assert (in_block pfn k p' \/ covers (free_blocks (pa st)) p') as [Hin|Hin] by (apply Hcov; left; apply in_block_self).
  - pose proof (inv_sep _ _ _ I) as Hs. unfold blocks in Hs. apply separated_app in Hs as (_ & Hs & _).
    cbn in Hs. destruct Hs as [Hs _]. rewrite app_nil_r, Forall_forall in Hs. destruct Hx as (b & Hb & Hbx).
    by apply (proj1 (bdisj_spec _ _) (Hs _ Hb) p').
  - apply (allocated_not_free ((pfn, k) :: A) st p' I); [| done]. rewrite covers_cons. by right.
Qed.

(** ** The instance *)

Lemma buddy_write A st x pg pg' :
  Inv A [] st -> covers A x -> mem_map st !! x = Some pg -> order pg' = order pg ->
  usage pg' = usage pg \/ usage pg' = kSlabAllocator ->
  Inv A [] (mkPstate (pa st) (<[x := pg']> (mem_map st))).
Proof.
  intros I Hx Hp Ho Hu. constructor; try apply I; cbn.
  - intros p k Hin. destruct (inv_desc _ _ _ I p k Hin) as (page & Hpg & ? & ?). exists page. cbn.
    rewrite lookup_insert_ne; [done |]. intros ->. apply (allocated_not_free A st p I Hx).
    exists (p, k). split; [done | apply in_block_self].
  - intros b y Hb Hy. apply lookup_insert_is_Some'. right. by eapply (inv_mapped _ _ _ I).
  - intros p k (page & Hpg & Hup & Hop). apply (inv_tag _ _ _ I p k). unfold tagged_free. cbn in Hpg.
    destruct (decide (x = p)) as [->|]; [| rewrite lookup_insert_ne in Hpg by done; eauto].
    rewrite lookup_insert_eq in Hpg. injection Hpg as <-. exists pg. rewrite Hup in Hu.
    destruct Hu; [| done]. by rewrite Ho in Hop.
Qed.

#[export] Instance buddy_source_ok : PageSourceOk pstate.
Proof.
  refine {| holds st A := CInv false A st |}.
  - intros p A B. apply CInv_perm.
  - intros p A [I _]. pose proof (inv_sep _ _ _ I) as Hs. unfold blocks in Hs.
    rewrite app_nil_r in Hs. by apply separated_app in Hs as (_ & ? & _).
  - intros p A [I _]. pose proof (inv_wf _ _ _ I) as Hw. unfold blocks in Hw.
    rewrite app_nil_r, Forall_app in Hw. by destruct Hw.
  - intros p A x [I _] (b & Hb & Hx). apply (inv_mapped _ _ _ I b x); [| done].
    unfold blocks. rewrite app_nil_r, elem_of_app. by right.
  - intros p A k nid I Hk. destruct (AllocLocal_spec false A p k (2 ^ 64 - 1) I Hk) as (pfn & st & E & Hc); [done |].
    exists pfn, st. split; [done |]. split; [intros x Hx; by eapply AllocLocal_frame |].
    destruct Hc as [(-> & -> & _)|(? & ? & _)]; [by left | by right].
  - intros p A pfn k I. destruct (Free_spec false _ A p pfn k I (reflexivity _)) as (st & E & I' & _).
    exists st. split_and!; [done | done |]. intros x Hx. by eapply Free_frame.
  - intros p A x pg pg' [I C] Hx Hp Ho Hu. split; [split; [by eapply buddy_write | done] |].
    intros y. cbn. destruct (decide (y = x)) as [->|]; [by rewrite lookup_insert_eq | by rewrite lookup_insert_ne].
Defined.
