(* ===== verification/SlabSize.v ===== *)
(** * The size of slabs and batches

    [SlabOrder], [CalculateOrder], [CalculateFreebatch] and the constructor of
    [SlabAllocatorRoot] (src/src/native/SlabAllocator.cc): every object size up
    to [kMaxSlabSize] gets a slab that holds at least one object, with at most a
    quarter of it wasted or of the least order; larger sizes are refused. *)

From S2P Require Import Prelude Pfn MemMap PageAllocator Slab SlabInvariant.

Definition waste (size : Z) (k : nat) : Z := (kPageSize * block_size k) mod size.

Lemma Fls_log2 x : 0 < x < 2 ^ 64 -> Fls x = Ok (Z.log2 x).
Proof.
  intros Hx. unfold Fls. rewrite u64_small by lia. destruct (Z.eqb_spec x 0); [lia |]. f_equal. lia.
Qed.

(** The first order [SlabOrder] tries. *)
Definition first_order (size : Z) : nat :=
  if Z.log2 (size - 1) <? kPageShift then O else Z.to_nat (Z.log2 (size - 1) - kPageShift + 1).

Lemma SlabOrder_eq size m frac :
  1 < size < 2 ^ 64 ->
  SlabOrder size m frac = Ok (SlabOrder_loop (S m - first_order size) size frac (first_order size)).
Proof. intros Hs. unfold SlabOrder. rewrite Fls_log2 by lia. by rewrite bind_Ok. Qed.

(** It is the least order whose slab holds one object. *)
Lemma first_order_spec size k : 1 < size -> (first_order size <= k)%nat <-> size <= kPageSize * block_size k.
Proof.
  intros Hs. assert (kPageSize * block_size k = 2 ^ (kPageShift + Z.of_nat k)) as ->.
  { rewrite Z.pow_add_r by (unfold kPageShift; lia). done. }
  unfold first_order. assert (0 < size - 1) as H1 by lia. pose proof (Z.log2_nonneg (size - 1)).
  assert (size <= 2 ^ (kPageShift + Z.of_nat k) <-> Z.log2 (size - 1) < kPageShift + Z.of_nat k) as ->.
  { rewrite <- Z.log2_lt_pow2 by done. lia. }
  unfold kPageShift in *. destruct (Z.ltb_spec (Z.log2 (size - 1)) 12); lia.
Qed.

Lemma SlabOrder_loop_spec n size frac k :
  0 < size ->
  let o := SlabOrder_loop n size frac k in
  (k <= o <= k + n)%nat /\ ((o < k + n)%nat -> waste size o * frac <= kPageSize * block_size o).
Proof.
  intros Hs. revert k. induction n as [|n IH]; intros k; cbn [SlabOrder_loop]; [split; lia |].
  rewrite slab_bytes. set (b := kPageSize * block_size k).
  assert (b - b / size * size = waste size k) as -> by (unfold waste; fold b; rewrite Z.mod_eq by lia; lia).
  destruct (Z.leb_spec (waste size k * frac) b); [split; [lia | done] |].
  destruct (IH (S k)) as [H1 H2]. split; [lia |]. intros Ho. apply H2. lia.
Qed.

(** Without a bound on the waste, the first order is taken. *)
Lemma SlabOrder_loop_0 n size k : (0 < n)%nat -> SlabOrder_loop n size 0 k = k.
Proof.
  destruct n; [lia |]. intros _. cbn [SlabOrder_loop]. rewrite Z.mul_0_r, slab_bytes.
  pose proof (block_size_pos k). destruct (Z.leb_spec 0 (kPageSize * block_size k)); [done |].
  change kPageSize with 4096 in *. lia.
Qed.

Lemma kMaxSlabSize_eq : kMaxSlabSize = kPageSize * block_size kMaxOrder.
Proof. done. Qed.

Lemma CalculateOrder_spec size :
  1 < size <= kMaxSlabSize ->
  exists k, CalculateOrder size = Ok k /\ (k <= kMaxOrder)%nat /\ size <= kPageSize * block_size k /\
    (4 * waste size k <= kPageSize * block_size k \/ forall j, size <= kPageSize * block_size j -> (k <= j)%nat).
Proof.
  intros Hs. assert (kMaxSlabSize < 2 ^ 64) as Hm by done.
  unfold CalculateOrder. rewrite (SlabOrder_eq size 1 4), bind_Ok by lia.
  set (f := first_order size). destruct (SlabOrder_loop_spec (2 - f) size 4 f) as [Hr Hw]; [lia |].
  set (o := SlabOrder_loop (2 - f) size 4 f) in *. destruct (Nat.leb_spec o 1) as [Ho|Ho].
  - exists o. split_and!; [done | unfold kMaxOrder; lia | apply first_order_spec; lia |]. left. specialize (Hw ltac:(lia)). lia.
  - assert (f <= kMaxOrder)%nat as Hf by (apply first_order_spec; [lia | rewrite <- kMaxSlabSize_eq; lia]).
    rewrite SlabOrder_eq, bind_Ok, SlabOrder_loop_0 by lia. fold f.
    destruct (Nat.ltb_spec kMaxOrder f); [lia |]. cbn [kassert negb]. rewrite bind_Ok.
    exists f. split_and!; [done | done | apply first_order_spec; lia |]. right. intros j Hj. apply first_order_spec; lia.
Qed.

(** Every object size from two bytes to [kMaxSlabSize] gets a slab order
    within the page allocator's range whose slab holds an object; either at most
    a quarter of the slab is wasted or the order is the least that fits.  A
    larger size fails the assertion, it never gets a slab that is too small. *)
Theorem CalculateOrder_correct size :
  1 < size < 2 ^ 64 ->
  (size <= kMaxSlabSize ->
   exists k, CalculateOrder size = Ok k /\ (k <= kMaxOrder)%nat /\ size <= kPageSize * block_size k /\
     (4 * waste size k <= kPageSize * block_size k \/
      forall j, size <= kPageSize * block_size j -> (k <= j)%nat)) /\
  (kMaxSlabSize < size -> CalculateOrder size = Fail AssertFailed).
Proof.
  intros Hs. split; [intros; apply CalculateOrder_spec; lia |]. intros Hbig.
  assert (kMaxOrder < first_order size)%nat as Hf.
  { apply Nat.nle_gt. rewrite first_order_spec by lia. rewrite <- kMaxSlabSize_eq. lia. }
  unfold CalculateOrder. rewrite (SlabOrder_eq size 1 4), bind_Ok by lia. unfold kMaxOrder in Hf.
  replace (2 - first_order size)%nat with O by lia. cbn [SlabOrder_loop].
  destruct (Nat.leb_spec (first_order size) 1); [lia |]. rewrite SlabOrder_eq, bind_Ok by lia.
  replace (S kMaxOrder - first_order size)%nat with O by (unfold kMaxOrder; lia). cbn [SlabOrder_loop].
  destruct (Nat.ltb_spec kMaxOrder (first_order size)); [done | unfold kMaxOrder in *; lia].
Qed.

Lemma CalculateOrder_correct_witness :
  CalculateOrder 96 = Ok O /\ CalculateOrder (kMaxSlabSize + 1) = Fail AssertFailed.
Proof.
  assert (1 < kMaxSlabSize + 1 < 2 ^ 64) as Hb by done.
  split; [done |]. apply (CalculateOrder_correct _ Hb). lia.
Defined.

(** ** Batches *)

Lemma CalculateFreebatch_nonneg size : 0 < size -> 0 <= CalculateFreebatch size.
Proof. intros. unfold CalculateFreebatch. assert (0 <= 4 * kPageSize / size) by (apply Z.div_pos; [done | lia]). lia. Qed.

Lemma CalculateFreebatch_le size : 0 < size -> CalculateFreebatch size <= 4 * kPageSize.
Proof.
  intros. unfold CalculateFreebatch.
  assert (4 * kPageSize / size <= 4 * kPageSize) by (apply Z.div_le_upper_bound; change kPageSize with 4096 in *; nia).
  change kPageSize with 4096 in *. lia.
Qed.

(** Objects of more than 64 pages have empty batches. *)
Lemma CalculateFreebatch_zero size : 0 < size -> CalculateFreebatch size = 0 <-> 64 * kPageSize < size.
Proof.
  intros Hs. unfold CalculateFreebatch. change kPageSize with 4096. split.
  - intros Hz. apply Z.nle_gt. intros Hle.
    assert (1 <= 64 * 4096 / size) by (apply Z.div_le_lower_bound; lia).
    assert (0 <= 4 * 4096 / size) by (apply Z.div_pos; lia). lia.
  - intros Hlt. rewrite !Z.div_small by lia. done.
Qed.

(** ** The constructor *)

Lemma new_root_spec size_in k :
  0 <= size_in <= kMaxSlabSize -> 0 <= k <= 12 ->
  exists r, new_SlabAllocatorRoot size_in (2 ^ k) = Ok r /\ root_ok r /\
    size_in <= size_ r /\ align_ r = 2 ^ Z.max k 3 /\ size_ r mod 2 ^ Z.max k 3 = 0 /\
    free_batch_ r = CalculateFreebatch (size_ r).
Proof.
  intros Hs Hk. unfold new_SlabAllocatorRoot, kPointerSize. cbv zeta.
  assert (Z.max (2 ^ k) (2 ^ 3) = 2 ^ Z.max k 3) as Hmax.
  { destruct (Z.le_gt_cases k 3).
    - rewrite !Z.max_r; [done | done |]. apply Z.pow_le_mono_r; lia.
    - rewrite !Z.max_l; [done | lia |]. apply Z.pow_le_mono_r; lia. }
  change 8 with (2 ^ 3). rewrite Hmax. set (m := Z.max k 3). assert (3 <= m <= 12) as Hm by lia.
  assert (2 ^ 3 <= 2 ^ m <= 2 ^ 12) as Hmp by (split; apply Z.pow_le_mono_r; lia).
  assert (AlignUp (2 ^ m) (2 ^ 3) = 2 ^ m) as ->.
  { destruct (AlignUp_pow2 (2 ^ m) 3) as (d & -> & Hd & Hr); [lia | lia | lia |].
    assert (2 ^ m = 2 ^ (m - 3) * 2 ^ 3) as Hm3 by (rewrite <- Z.pow_add_r by lia; f_equal; lia).
    apply Z.mod_divide in Hd as [q ->]; [| lia]. nia. }
  change kMaxSlabSize with (2 ^ 23) in Hs.
  destruct (AlignUp_pow2 (Z.max size_in (2 ^ 3)) m) as (size & -> & Hmod & Hr); [lia | lia | lia |].
  assert (size <= 2 ^ 23) as Hle.
  { apply Z.mod_divide in Hmod as [q ->]; [| lia].
    assert (2 ^ 23 = 2 ^ (23 - m) * 2 ^ m) as H23 by (rewrite <- Z.pow_add_r by lia; f_equal; lia).
    rewrite H23. apply Z.mul_le_mono_nonneg_r; [lia |].
    apply Z.lt_succ_r, (Z.mul_lt_mono_pos_r (2 ^ m)); [lia |]. rewrite Z.mul_succ_l, <- H23. lia. }
  destruct (CalculateOrder_spec size) as (o & -> & Ho & Hfit & _); [change kMaxSlabSize with (2 ^ 23); lia |].
  rewrite bind_Ok. eexists. split; [done |]. cbn.
  assert (0 <= u64 (CalculateFreebatch size * 4)) by (apply wrap_range; lia).
  split_and!; [| lia | done | done | done]. constructor; cbn; [lia | done | done | done].
Qed.

(** The constructor of [SlabAllocatorRoot] succeeds for every object size up
    to [kMaxSlabSize] and every power-of-two alignment up to a page: the objects
    are at least as large as asked, every object of every slab is aligned, and a
    slab holds at least one. *)
Theorem new_SlabAllocatorRoot_correct size_in k :
  0 <= size_in <= kMaxSlabSize -> 0 <= k <= 12 ->
  exists r, new_SlabAllocatorRoot size_in (2 ^ k) = Ok r /\ size_in <= size_ r /\
    1 <= NumObjectsPerSlab r /\
    forall pfn a, 0 <= pfn -> pfn + block_size (order_ r) <= 2 ^ 52 ->
      a ∈ slab_objects r pfn -> a mod 2 ^ k = 0 /\ a mod 8 = 0.
Proof.
  intros Hs Hk. destruct (new_root_spec size_in k Hs Hk) as (r & E & Hok & Hsz & _ & Hmod & _).
  exists r. split_and!; [done | done | by apply NumObjects_pos |]. intros pfn a H0 H52 Ha.
  apply (slab_objects_elem r Hok) in Ha as (i & _ & ->). pose proof (block_size_pos (order_ r)).
  rewrite ToAddr_eq by lia.
  assert (forall j, 0 <= j <= Z.max k 3 -> (pfn * kPageSize + i * size_ r) mod 2 ^ j = 0) as Hall.
  { intros j Hj. assert (forall e, j <= e -> (2 ^ j | 2 ^ e)) as Hdiv.
    { intros e He. exists (2 ^ (e - j)). rewrite <- Z.pow_add_r by lia. f_equal. lia. }
    assert (0 < 2 ^ j) by (apply pow2_pos; lia). apply Z.mod_divide; [lia |]. apply Z.divide_add_r.
    - apply Z.divide_mul_r. change kPageSize with (2 ^ 12). apply Hdiv. lia.
    - apply Z.divide_mul_r. trans (2 ^ Z.max k 3); [apply Hdiv; lia |].
      assert (0 < 2 ^ Z.max k 3) by (apply pow2_pos; lia). apply Z.mod_divide; [lia | done]. }
  split; [apply Hall; lia |]. change 8 with (2 ^ 3). apply Hall. lia.
Qed.

Lemma new_SlabAllocatorRoot_correct_witness :
  exists r, new_SlabAllocatorRoot 100 (2 ^ 6) = Ok r /\ 100 <= size_ r /\ 1 <= NumObjectsPerSlab r.
Proof.
  destruct (new_SlabAllocatorRoot_correct 100 6) as (r & E & Hs & Hn & _); [done | done |].
  by exists r.
Defined.
