(* ===== verification/VMemAllocator.v ===== *)
(** * The allocator of virtual regions

    Models src/src/native/VMemAllocator.{h,cc}.  [regions_] is an
    [std::map<Pfn, Region, std::greater<Pfn>>]: a list of (first page, region)
    in descending order of first page.  A page fault handler is a number. *)

From S2P Require Import Prelude Pfn.

(** trans::kVMemStart: the translation tables. *)
Definition kVMemStart : Z := 0xFFFFFFFF00000000.
Definition kVMemRangeStart : Z := 0xFFFF800000000000.
Definition kVMemRangeEnd : Z := kVMemStart.

Record Region := mkRegion {
  end_ : Z;
  page_fault_handler_ : option nat;
  allocated_ : bool
}.
Definition regions := list (Z * Region).

Definition new_Region (addr : Z) : Region := mkRegion addr None false.
Definition IsFree (r : Region) : bool := negb (allocated_ r).
Definition set_end (e : Z) (r : Region) : Region := mkRegion e (page_fault_handler_ r) (allocated_ r).
Definition set_handler (h : option nat) (r : Region) : Region := mkRegion (end_ r) h (allocated_ r).
Definition set_allocated (b : bool) (r : Region) : Region := mkRegion (end_ r) (page_fault_handler_ r) b.

(** ** std::map in descending order *)

Fixpoint emplace (k : Z) (r : Region) (l : regions) : bool * regions :=
  match l with
  | [] => (true, [(k, r)])
  | (k', r') :: l' =>
      if k' <? k then (true, (k, r) :: l)
      else if k' =? k then (false, l)
      else let '(b, l') := emplace k r l' in (b, (k', r') :: l')
  end.

(** A store through the iterator at key [k]. *)
Fixpoint update (k : Z) (f : Region -> Region) (l : regions) : regions :=
  match l with
  | [] => []
  | (k', r) :: l => if k' =? k then (k', f r) :: l else (k', r) :: update k f l
  end.

(** The first element, from the top, that passes. *)
Fixpoint find_region (p : Z -> Region -> bool) (l : regions) : option (Z * Region) :=
  match l with
  | [] => None
  | (k, r) :: l => if p k r then Some (k, r) else find_region p l
  end.

(** [lower_bound] under [std::greater]: the first key that is not greater. *)
Definition lower_bound (k : Z) (l : regions) : option (Z * Region) :=
  find_region (fun k' _ => k' <=? k) l.

(** ** The allocator *)

Definition new_VMemAllocator : regions := [(PfnUp kVMemRangeStart, new_Region (PfnDown kVMemRangeEnd))].

(** The region is free and large enough. *)
Definition suits (npages : Z) (begin : Z) (r : Region) : bool :=
  negb (negb (IsFree r) || (PfnSub (end_ r) begin <? npages)).

(** Take [ret, ret + npages) out of the region that begins at [begin]. *)
Definition take_region (begin ret npages : Z) (h : option nat) (l : regions) : outcome regions :=
  if ret =? begin then
    Ok (update begin (fun r => set_allocated true (set_handler h r)) l)
  else
    let l := update begin (set_end ret) l in
    let '(inserted, l) := emplace ret (new_Region (PfnAdd ret npages)) l in
    _ ← kassert inserted;
    Ok (update ret (fun r => set_allocated true (set_handler h r)) l).

(** [Alloc(npages, pf_handler)]. *)
Definition VAlloc (npages : Z) (h : option nat) (l : regions) : outcome (Z * regions) :=
  match find_region (suits npages) l with
  | None => Fail Aborted
  | Some (begin, r) =>
      let ret := PfnSub (end_ r) npages in
      l ← take_region begin ret npages h l;
      Ok (ret, l)
  end.

(** [Alloc(npages, pages_align, pf_handler)]. *)
Definition aligned_start (npages pages_align : Z) (r : Region) : Z :=
  AlignDown (PfnSub (end_ r) npages) pages_align.

Definition VAllocAligned (npages pages_align : Z) (h : option nat) (l : regions) : outcome (Z * regions) :=
  match find_region (fun begin r =>
          suits npages begin r && negb (aligned_start npages pages_align r <? begin)) l with
  | None => Fail Aborted
  | Some (begin, r) =>
      let ret := aligned_start npages pages_align r in
      let endsize := u64 (PfnSub (end_ r) ret - npages) in
      l ← take_region begin ret npages h l;
      if 0 <? endsize then Ok (ret, (emplace (PfnAdd ret npages) (new_Region (end_ r)) l).2)
      else Ok (ret, l)
  end.

(** The loop of [AllocRange]: the region that settles the request. *)
Fixpoint range_region (vmem_start vmem_end : Z) (l : regions) : option (Z * Region) :=
  match l with
  | [] => None
  | (begin, r) :: l =>
      if vmem_end <? ToAddr begin then range_region vmem_start vmem_end l
      else if (ToAddr begin <=? vmem_start) && (vmem_end <=? ToAddr (end_ r)) then Some (begin, r)
      else range_region vmem_start vmem_end l
  end.

Definition AllocRange (npages vmem_start : Z) (h : option nat) (l : regions) : outcome (Z * regions) :=
  if (npages =? 0) || (vmem_start =? 0) || bool_decide (h = None) then Ok (PfnNone, l) else
  let vmem_end := u64 (vmem_start + kPageSize * npages - 1) in
  if (vmem_start <? kVMemRangeStart) || (kVMemRangeEnd <? vmem_end) || (vmem_end <=? vmem_start)
  then Ok (PfnNone, l) else
  if negb (Z.land vmem_start (kPageSize - 1) =? 0) then Ok (PfnNone, l) else
  match range_region vmem_start vmem_end l with
  | None => Ok (PfnNone, l)
  | Some (begin, r) =>
      if negb (IsFree r) then Ok (PfnNone, l) else
      let vmem_start_vfn := Z.shiftr vmem_start kPageShift in
      let vmem_end_vfn := PfnAdd vmem_start_vfn (npages + 1) in
      l ← (if ToAddr begin =? vmem_start then
             Ok (update begin (fun r => set_allocated true (set_handler h (set_end vmem_end_vfn r))) l)
           else
             _ ← kassert (ToAddr begin <? vmem_start);
             let l := update begin (set_end (PfnDown vmem_start)) l in
             let '(inserted, l) := emplace vmem_start_vfn (new_Region vmem_end_vfn) l in
             _ ← kassert inserted;
             Ok (update vmem_start_vfn (fun r => set_allocated true (set_handler h r)) l));
      let l := if vmem_end_vfn <? end_ r then (emplace vmem_end_vfn (new_Region (end_ r)) l).2 else l in
      Ok (vmem_start_vfn, l)
  end.

(** Where a page fault goes. *)
Inductive fault_target :=
| ToTrans (addr : Z)                 (* trans::HandleFault *)
| ToHandler (h : nat) (addr : Z).    (* the region's handler *)

Definition HandlePageFault (fault_addr : Z) (l : regions) : outcome fault_target :=
  if kVMemStart <=? fault_addr then Ok (ToTrans fault_addr) else
  match lower_bound (PfnDown fault_addr) l with
  | None => Fail Aborted
  | Some (_, r) =>
      if end_ r <? PfnUp fault_addr then Fail Aborted else
      _ ← kassert (negb (IsFree r));
      match page_fault_handler_ r with
      | None => Fail UndefinedBehaviour
      | Some h => Ok (ToHandler h fault_addr)
      end
  end.

(** ** The regions tile the range

    A region extends from its first page up to the next region.  [end_] is that
    page for a free region; a region in use may have a larger [end_], which is
    never read again. *)

Fixpoint tiled (hi : Z) (l : regions) (lo : Z) : Prop :=
  match l with
  | [] => hi = lo
  | (b, r) :: l =>
      (IsFree r = true -> end_ r = hi) /\ hi <= end_ r /\ lo <= b < hi /\ tiled b l lo
  end.

(** The regions handed out: first page, end, handler. *)
Fixpoint in_use (hi : Z) (l : regions) : list (Z * Z * option nat) :=
  match l with
  | [] => []
  | (b, r) :: l =>
      (if IsFree r then [] else [(b, hi, page_fault_handler_ r)]) ++ in_use b l
  end.

(** The first page of the lowest region, or [hi]. *)
Fixpoint low (hi : Z) (l : regions) : Z :=
  match l with [] => hi | (b, _) :: l => low b l end.

Lemma tiled_le hi l lo : tiled hi l lo -> lo <= hi.
Proof. destruct l as [|[b r] l]; cbn; [lia |]. intros (_ & _ & ? & _). lia. Qed.

Lemma tiled_app hi l1 l2 lo : tiled hi (l1 ++ l2) lo <-> tiled hi l1 (low hi l1) /\ tiled (low hi l1) l2 lo.
Proof.
  revert hi. induction l1 as [|[b r] l1 IH]; intros hi; [cbn; naive_solver |]. cbn [app tiled low]. rewrite IH.
  split; [intros (Hf & He & Hb & T1 & T2) | intros ((Hf & He & Hb & T1) & T2)];
    pose proof (tiled_le _ _ _ T1); pose proof (tiled_le _ _ _ T2); split_and!; try done; lia.
Qed.

Lemma in_use_app hi l1 l2 : in_use hi (l1 ++ l2) = in_use hi l1 ++ in_use (low hi l1) l2.
Proof.
  revert hi. induction l1 as [|[b r] l1 IH]; intros hi; [done |]. cbn [app in_use low]. by rewrite IH, app_assoc.
Qed.

Lemma find_region_some p l k r :
  find_region p l = Some (k, r) ->
  exists l1 l2, l = l1 ++ (k, r) :: l2 /\ p k r = true /\ forall x, x ∈ l1 -> p x.1 x.2 = false.
Proof.
  induction l as [|[k' r'] l IH]; cbn; [done |]. destruct (p k' r') eqn:E.
  - intros [= -> ->]. exists [], l. split_and!; [done | done |]. by intros x ?%not_elem_of_nil.
  - intros (l1 & l2 & -> & Hp & Hl)%IH. exists ((k', r') :: l1), l2. split_and!; [done | done |].
    intros x [->|Hx]%elem_of_cons; auto.
Qed.

Lemma find_region_none p l : find_region p l = None -> forall x, x ∈ l -> p x.1 x.2 = false.
Proof.
  induction l as [|[k' r'] l IH]; cbn; [by intros _ x ?%not_elem_of_nil |].
  destruct (p k' r') eqn:E; [done |]. intros H x [->|Hx]%elem_of_cons; auto.
Qed.

(** Keys of the upper part are at or above its lower end. *)
Lemma tiled_keys hi l lo x : tiled hi l lo -> x ∈ l -> lo <= x.1 < hi.
Proof.
  revert hi. induction l as [|[b r] l IH]; intros hi; cbn; [by intros _ ?%not_elem_of_nil |].
  intros (He & Hb & Hlo & Ht) [->|Hx]%elem_of_cons; [done |]. specialize (IH b Ht Hx). lia.
Qed.

Lemma update_mid k f l1 r l2 :
  (forall x, x ∈ l1 -> x.1 <> k) -> update k f (l1 ++ (k, r) :: l2) = l1 ++ (k, f r) :: l2.
Proof.
  induction l1 as [|[b s] l1 IH]; intros Hk; cbn; [by rewrite Z.eqb_refl |].
  destruct (Z.eqb_spec b k) as [->|]; [by destruct (Hk (k, s)); [left |] |].
  rewrite IH; [done |]. intros x Hx. apply Hk. by right.
Qed.

Lemma emplace_mid k r l1 l2 :
  (forall x, x ∈ l1 -> k < x.1) -> (forall x, x ∈ l2 -> x.1 < k) ->
  emplace k r (l1 ++ l2) = (true, l1 ++ (k, r) :: l2).
Proof.
  intros H1 H2. induction l1 as [|[b s] l1 IH]; cbn.
  - destruct l2 as [|[b s] l2]; [done |]. cbn. specialize (H2 (b, s) (list_elem_of_here _ _)). cbn in H2.
    destruct (Z.ltb_spec b k); [done | lia].
  - pose proof (H1 (b, s) (list_elem_of_here _ _)) as Hb. cbn in Hb.
    destruct (Z.ltb_spec b k); [lia |]. destruct (Z.eqb_spec b k); [lia |].
    rewrite IH; [done |]. intros x Hx. apply H1. by right.
Qed.

(** ** Taking a range out of a free region *)

Section Take.
Context (hi lo : Z) (Hlo : 0 <= lo) (Hhi : hi < 2 ^ 52).
Context (l1 l2 : regions) (begin : Z) (r : Region).
Context (Ht : tiled hi (l1 ++ (begin, r) :: l2) lo) (Hfree : IsFree r = true).

Lemma take_parts :
  tiled hi l1 (low hi l1) /\ end_ r = low hi l1 /\ lo <= begin < low hi l1 /\ low hi l1 <= hi /\ tiled begin l2 lo.
Proof.
  apply tiled_app in Ht as (H1 & Hf & _ & Hb & H2). specialize (Hf Hfree).
  pose proof (tiled_le _ _ _ H1). split_and!; try done; lia.
Qed.

Lemma keys_above x : x ∈ l1 -> end_ r <= x.1.
Proof. destruct take_parts as (H1 & -> & _). intros Hx. pose proof (tiled_keys _ _ _ _ H1 Hx). lia. Qed.

Lemma keys_below x : x ∈ l2 -> x.1 < begin.
Proof. destruct take_parts as (_ & _ & _ & _ & H2). intros Hx. pose proof (tiled_keys _ _ _ _ H2 Hx). lia. Qed.

(** The lists around the range [ret, ret + n): below it what is left of the
    free region. *)
Definition below (ret : Z) : regions := if ret =? begin then l2 else (begin, set_end ret r) :: l2.

Lemma below_ok ret :
  begin <= ret < end_ r -> tiled ret (below ret) lo /\ in_use ret (below ret) = in_use begin l2.
Proof.
  intros Hret. destruct take_parts as (_ & He & Hb & _ & H2). unfold below.
  destruct (Z.eqb_spec ret begin) as [->|]; [done |]. cbn [tiled in_use].
  change (IsFree (set_end ret r)) with (IsFree r). rewrite Hfree. cbn. split_and!; try done; lia.
Qed.

Lemma take_region_eq ret n h :
  begin <= ret -> 0 < n -> ret + n <= end_ r ->
  exists r', take_region begin ret n h (l1 ++ (begin, r) :: l2) = Ok (l1 ++ (ret, r') :: below ret) /\
    IsFree r' = false /\ page_fault_handler_ r' = h /\
    end_ r' = if ret =? begin then end_ r else ret + n.
Proof.
  intros Hret Hn Hend. unfold take_region, below. destruct take_parts as (H1 & He & Hb & Hl & H2).
  destruct (Z.eqb_spec ret begin) as [->|Hne].
  - eexists. rewrite update_mid by (intros x Hx; pose proof (keys_above x Hx); lia). done.
  - rewrite update_mid by (intros x Hx; pose proof (keys_above x Hx); lia).
    rewrite emplace_mid; [| intros x Hx; pose proof (keys_above x Hx); lia |].
    2: { intros x [->|Hx]%elem_of_cons; [cbn; lia | pose proof (keys_below x Hx); lia]. }
    cbn [kassert]. rewrite bind_Ok, update_mid by (intros x Hx; pose proof (keys_above x Hx); lia).
    eexists. split_and!; [done | done | done |]. cbn. unfold PfnAdd. apply u64_small. lia.
Qed.
End Take.

(** ** The three allocation functions *)

Lemma free_region hi l lo b r : tiled hi l lo -> (b, r) ∈ l -> IsFree r = true -> lo <= b < end_ r /\ end_ r <= hi.
Proof.
  intros Ht Hin Hf. apply list_elem_of_split in Hin as (l1 & l2 & ->).
  apply tiled_app in Ht as (T1 & He & _ & Hb & T2). specialize (He Hf). pose proof (tiled_le _ _ _ T1). lia.
Qed.

Lemma suits_true hi lo l n b r :
  0 <= lo -> hi < 2 ^ 52 -> tiled hi l lo -> (b, r) ∈ l ->
  suits n b r = true <-> IsFree r = true /\ n <= end_ r - b.
Proof.
  intros H0 H1 Ht Hin. unfold suits. destruct (IsFree r) eqn:Hf; [| naive_solver].
  pose proof (free_region _ _ _ _ _ Ht Hin Hf). cbn. unfold PfnSub. rewrite u64_small by lia.
  rewrite negb_true_iff, Z.ltb_ge. naive_solver.
Qed.

Section Spec.
Context (hi lo : Z) (Hlo : 0 <= lo) (Hhi : hi < 2 ^ 52).
Implicit Types l : regions.

(** The range [ret, ret + n) is now in use, under handler [h]. *)
Definition granted l (ret n : Z) (h : option nat) l' : Prop :=
  tiled hi l' lo /\ in_use hi l' ≡ₚ (ret, ret + n, h) :: in_use hi l /\ lo <= ret /\ ret + n <= hi.

Lemma VAlloc_spec l n h :
  tiled hi l lo -> 0 < n < 2 ^ 64 ->
  match VAlloc n h l with
  | Ok (ret, l') => granted l ret n h l'
  | Fail f => f = Aborted /\ forall b r, (b, r) ∈ l -> IsFree r = true -> end_ r - b < n
  end.
Proof.
  intros Ht Hn. unfold VAlloc. destruct (find_region (suits n) l) as [[begin r]|] eqn:E.
  2: { split; [done |]. intros b r Hin Hf. pose proof (find_region_none _ _ E _ Hin) as Hs. cbn in Hs.
       apply not_true_iff_false in Hs. rewrite (suits_true hi lo l) in Hs by done. apply Z.nle_gt. intros Hle. by apply Hs. }
  apply find_region_some in E as (l1 & l2 & -> & Hs & _).
  apply (suits_true hi lo (l1 ++ (begin, r) :: l2)) in Hs as [Hf Hsz]; [| done.. | apply elem_of_app; right; left].
  destruct (take_parts hi lo l1 l2 begin r Ht Hf) as (T1 & He & Hb & Hl & T2).
  assert (PfnSub (end_ r) n = end_ r - n) as -> by (unfold PfnSub; apply u64_small; lia).
  destruct (take_region_eq hi lo Hlo Hhi l1 l2 begin r Ht Hf (end_ r - n) n h) as (r' & -> & Hf' & Hh & He'); [lia.. |].
  rewrite bind_Ok. destruct (below_ok hi lo l1 l2 begin r Ht Hf (end_ r - n)) as [B1 B2]; [lia |].
  assert (end_ r' = end_ r) as Hend by (rewrite He'; case_match; lia).
  split_and!; [| | lia | lia].
  - apply tiled_app. split; [done |]. cbn. split_and!; [by rewrite Hf' | lia | lia | lia | done].
  - rewrite !in_use_app. cbn. rewrite Hf', Hf, Hh, B2, <- He. replace (end_ r - n + n) with (end_ r) by lia.
    cbn. solve_Permutation.
Qed.

Lemma VAllocAligned_spec l n k h :
  tiled hi l lo -> 0 < n < 2 ^ 64 -> 0 <= k ->
  match VAllocAligned n (2 ^ k) h l with
  | Ok (ret, l') => granted l ret n h l' /\ ret mod 2 ^ k = 0
  | Fail f => f = Aborted /\ forall b r a, (b, r) ∈ l -> IsFree r = true -> a mod 2 ^ k = 0 ->
      b <= a -> a + n <= end_ r -> False
  end.
Proof.
  intros Ht Hn Hk. pose proof (pow2_pos k Hk) as Hpk. unfold VAllocAligned.
  assert (forall b r, (b, r) ∈ l -> IsFree r = true -> n <= end_ r - b ->
    aligned_start n (2 ^ k) r = (end_ r - n) - (end_ r - n) mod 2 ^ k) as Hst.
  { intros b r Hin Hf Hs. pose proof (free_region _ _ _ _ _ Ht Hin Hf). unfold aligned_start, PfnSub.
    rewrite u64_small, AlignDown_pow2 by lia. done. }
  destruct (find_region _ l) as [[begin r]|] eqn:E.
  2: { split; [done |]. intros b r a Hin Hf Ha Hba Hae. pose proof (find_region_none _ _ E _ Hin) as Hs. cbn in Hs.
       assert (suits n b r = true) as Hsu by (apply (suits_true hi lo l); [done.. | split; [done | lia]]).
       rewrite Hsu, (Hst b r) in Hs by (done || lia). cbn in Hs. apply negb_false_iff, Z.ltb_lt in Hs.
       pose proof (Z.mod_pos_bound (end_ r - n) (2 ^ k) Hpk).
       apply Z.mod_divide in Ha as [q ->]; [| lia]. pose proof (Z.div_mod (end_ r - n) (2 ^ k) ltac:(lia)) as Hd.
       set (d := (end_ r - n) / 2 ^ k) in *. assert (d < q) by nia. nia. }
  apply find_region_some in E as (l1 & l2 & -> & Hs & _). apply andb_true_iff in Hs as [Hs Hge].
  assert ((begin, r) ∈ l1 ++ (begin, r) :: l2) as Hin by (apply elem_of_app; right; left).
  apply (suits_true hi lo (l1 ++ (begin, r) :: l2)) in Hs as [Hf Hsz]; [| done..].
  rewrite (Hst begin r Hin Hf Hsz) in *. apply negb_true_iff, Z.ltb_ge in Hge.
  pose proof (Z.mod_pos_bound (end_ r - n) (2 ^ k) Hpk) as Hmod. set (e := (end_ r - n) mod 2 ^ k) in *.
  set (ret := end_ r - n - e) in *.
  destruct (take_parts hi lo l1 l2 begin r Ht Hf) as (T1 & He & Hb & Hl & T2).
  destruct (take_region_eq hi lo Hlo Hhi l1 l2 begin r Ht Hf ret n h) as (r' & -> & Hf' & Hh & He'); [lia.. |].
  rewrite bind_Ok. destruct (below_ok hi lo l1 l2 begin r Ht Hf ret) as [B1 B2]; [lia |].
  assert (u64 (PfnSub (end_ r) ret - n) = e) as ->.
  { unfold PfnSub. rewrite (u64_small (end_ r - ret)), u64_small by lia. lia. }
  assert (ret mod 2 ^ k = 0) as Hal.
  { pose proof (Z.div_mod (end_ r - n) (2 ^ k) ltac:(lia)) as Hd. fold e in Hd.
    replace ret with ((end_ r - n) / 2 ^ k * 2 ^ k) by lia. apply Z.mod_mul. lia. }
  assert (ret + n <= end_ r' /\ (e = 0 -> end_ r <= end_ r')) as [Hend1 Hend2] by (rewrite He'; case_match; lia).
  destruct (Z.ltb_spec 0 e) as [Hpos|Hz]; (split; [| done]).
  - assert (PfnAdd ret n = ret + n) as -> by (unfold PfnAdd; apply u64_small; lia).
    rewrite emplace_mid.
    2: { intros x Hx. pose proof (keys_above hi lo l1 l2 begin r Ht Hf x Hx). lia. }
    2: { intros x [->|Hx]%elem_of_cons; [cbn; lia |]. pose proof (tiled_keys _ _ _ _ B1 Hx). lia. }
    cbn [snd]. split_and!; [| | lia | lia].
    + apply tiled_app. split; [done |]. cbn. rewrite Hf'. split_and!; try done; lia.
    + rewrite !in_use_app. cbn. rewrite Hf', Hf, Hh, B2. cbn. solve_Permutation.
  - assert (e = 0) as He0 by lia. split_and!; [| | lia | lia].
    + apply tiled_app. split; [done |]. cbn. rewrite Hf'. split_and!; try done; lia.
    + rewrite !in_use_app. cbn. rewrite Hf', Hf, Hh, B2, <- He. replace (ret + n) with (end_ r) by lia.
      cbn. solve_Permutation.
Qed.
(** [AllocRange] grants one page more than asked when the free region has it. *)
Lemma range_region_some v e l b r :
  range_region v e l = Some (b, r) ->
  exists l1 l2, l = l1 ++ (b, r) :: l2 /\ ToAddr b <= v /\ e <= ToAddr (end_ r).
Proof.
  induction l as [|[b' r'] l IH]; cbn; [done |]. destruct (_ <? _); [| destruct (_ && _) eqn:E].
  - intros (l1 & l2 & -> & ?)%IH. by exists ((b', r') :: l1), l2.
  - intros [= -> ->]. apply andb_true_iff in E as [E1%Z.leb_le E2%Z.leb_le]. by exists [], l.
  - intros (l1 & l2 & -> & ?)%IH. by exists ((b', r') :: l1), l2.
Qed.

(** The store of the requested range into the free region [begin]. *)
Lemma range_take l1 l2 begin r v st n h :
  tiled hi (l1 ++ (begin, r) :: l2) lo -> IsFree r = true ->
  v = st * kPageSize -> 0 <= v < 2 ^ 64 -> begin <= st < end_ r ->
  exists r', (if ToAddr begin =? v then
      Ok (update begin (fun r => set_allocated true (set_handler h (set_end (st + n + 1) r))) (l1 ++ (begin, r) :: l2))
    else
      _ ← kassert (ToAddr begin <? v);
      let '(inserted, l) := emplace st (new_Region (st + n + 1))
        (update begin (set_end (PfnDown v)) (l1 ++ (begin, r) :: l2)) in
      _ ← kassert inserted;
      Ok (update st (fun r => set_allocated true (set_handler h r)) l)) =
    Ok (l1 ++ (st, r') :: below l2 begin r st) /\
    IsFree r' = false /\ page_fault_handler_ r' = h /\ end_ r' = st + n + 1.
Proof.
  intros Ht Hf -> Hv Hst. destruct (take_parts hi lo l1 l2 begin r Ht Hf) as (T1 & He & Hb & Hl & T2).
  change kPageSize with 4096 in *.
  assert (ToAddr begin = begin * 4096) as -> by (rewrite ToAddr_eq by lia; done).
  assert (PfnDown (st * 4096) = st) as ->.
  { unfold PfnDown. rewrite Z.shiftr_div_pow2 by done. apply Z.div_mul. done. }
  assert (forall x, x ∈ l1 -> st < x.1) as Habove.
  { intros x Hx. pose proof (keys_above hi lo l1 l2 begin r Ht Hf x Hx). lia. }
  unfold below. destruct (Z.eqb_spec (begin * 4096) (st * 4096)) as [E|E].
  - assert (st = begin) as -> by lia. rewrite Z.eqb_refl.
    rewrite update_mid by (intros x Hx; specialize (Habove x Hx); lia). by eexists.
  - destruct (Z.ltb_spec (begin * 4096) (st * 4096)); [| lia]. cbn [kassert]. rewrite bind_Ok.
    destruct (Z.eqb_spec st begin); [lia |].
    rewrite update_mid by (intros x Hx; specialize (Habove x Hx); lia). rewrite emplace_mid; [| done |].
    2: { intros x [->|Hx]%elem_of_cons; [cbn; lia |].
         pose proof (keys_below hi lo l1 l2 begin r Ht Hf x Hx). lia. }
    cbn [kassert]. rewrite bind_Ok, update_mid by (intros x Hx; specialize (Habove x Hx); lia). by eexists.
Qed.

Lemma AllocRange_spec l n v h :
  tiled hi l lo -> 0 <= n < 2 ^ 52 -> 0 <= v < 2 ^ 64 ->
  exists ret l', AllocRange n v h l = Ok (ret, l') /\
    (ret = PfnNone /\ l' = l \/
     exists m e, granted l ret m h l' /\ v = ret * kPageSize /\ 0 < n /\
       m = Z.min (n + 1) (e - ret) /\ ret + n <= e).
Proof.
  intros Ht Hn Hv. unfold AllocRange. destruct (_ || _) eqn:E1; [by eexists _, _; split; [| left] |].
  apply orb_false_iff in E1 as [[Hn0%Z.eqb_neq _]%orb_false_iff _].
  destruct (_ || _) eqn:E2; [by eexists _, _; split; [| left] |].
  apply orb_false_iff in E2 as [[Hvs%Z.ltb_ge _]%orb_false_iff Hve%Z.leb_gt].
  destruct (negb _) eqn:E3; [by eexists _, _; split; [| left] |].
  apply negb_false_iff, Z.eqb_eq in E3. change (kPageSize - 1) with (Z.ones 12) in E3.
  rewrite Z.land_ones in E3 by lia. apply Z.mod_divide in E3 as [st Hst]; [| done]. change (2 ^ 12) with kPageSize in Hst.
  change kPageSize with 4096 in *. change kVMemRangeStart with 18446603336221196288 in *.
  assert (u64 (v + 4096 * n - 1) = v + 4096 * n - 1) as Hu.
  { destruct (Z.lt_ge_cases (v + 4096 * n - 1) (2 ^ 64)); [apply u64_small; lia |]. exfalso.
    unfold u64, wrap in Hve. replace (v + 4096 * n - 1) with (v + 4096 * n - 1 - 2 ^ 64 + 1 * 2 ^ 64) in Hve by lia.
    rewrite Z.mod_add, Z.mod_small in Hve by lia. lia. }
  rewrite Hu in *. destruct (range_region v _ l) as [[begin r]|] eqn:Er; [| by eexists _, _; split; [| left]].
  apply range_region_some in Er as (l1 & l2 & -> & Hb & He).
  destruct (IsFree r) eqn:Hf; [cbn [negb] | by eexists _, _; split; [| left]].
  destruct (take_parts hi lo l1 l2 begin r Ht Hf) as (T1 & Hend & Hbg & Hl & T2).
  rewrite ToAddr_eq in Hb, He by lia. change kPageSize with 4096 in *.
  cbv zeta. assert (Z.shiftr v kPageShift = st) as ->.
  { rewrite Z.shiftr_div_pow2 by done. rewrite Hst. apply Z.div_mul. done. }
  assert (PfnAdd st (n + 1) = st + n + 1) as -> by (unfold PfnAdd; rewrite u64_small by lia; lia).
  destruct (range_take l1 l2 begin r v st n h Ht Hf Hst Hv) as (r' & -> & Hf' & Hh & He'); [lia |].
  rewrite bind_Ok. destruct (below_ok hi lo l1 l2 begin r Ht Hf st) as [B1 B2]; [lia |].
  eexists _, _. split; [done |]. right. exists (Z.min (n + 1) (end_ r - st)), (end_ r).
  split_and!; [| lia | lia | done | lia].
  destruct (Z.ltb_spec (st + n + 1) (end_ r)).
  - rewrite emplace_mid; [cbn [snd] | |].
    2: { intros x Hx. pose proof (keys_above hi lo l1 l2 begin r Ht Hf x Hx). lia. }
    2: { intros x [->|Hx]%elem_of_cons; [cbn; lia |]. pose proof (tiled_keys _ _ _ _ B1 Hx). lia. }
    rewrite Z.min_l by lia. split_and!; [| | lia | lia].
    + apply tiled_app. split; [done |]. cbn. rewrite Hf'. split_and!; try done; lia.
    + rewrite !in_use_app. cbn. rewrite Hf', Hf, Hh, B2, Z.add_assoc. cbn. solve_Permutation.
  - rewrite Z.min_r by lia. split_and!; [| | lia | lia].
    + apply tiled_app. split; [done |]. cbn. rewrite Hf'. split_and!; try done; lia.
    + rewrite !in_use_app. cbn. rewrite Hf', Hf, Hh, B2, <- Hend. replace (st + (end_ r - st)) with (end_ r) by lia.
      cbn. solve_Permutation.
Qed.
End Spec.

(** ** All histories *)

Definition range_lo : Z := PfnUp kVMemRangeStart.
Definition range_hi : Z := PfnDown kVMemRangeEnd.

(** A history of requests, of one page or more and with alignments that are
    powers of two. *)
Inductive vstep : regions -> regions -> Prop :=
| step_VAlloc n h ret l l' : 0 < n < 2 ^ 64 -> VAlloc n h l = Ok (ret, l') -> vstep l l'
| step_VAllocAligned n k h ret l l' :
    0 < n < 2 ^ 64 -> 0 <= k -> VAllocAligned n (2 ^ k) h l = Ok (ret, l') -> vstep l l'
| step_AllocRange n v h ret l l' :
    0 <= n < 2 ^ 52 -> 0 <= v < 2 ^ 64 -> AllocRange n v h l = Ok (ret, l') -> vstep l l'.

Lemma range_bounds : 0 <= range_lo /\ range_hi < 2 ^ 52.
Proof. by vm_compute. Qed.

Lemma vstep_tiled l l' : vstep l l' -> tiled range_hi l range_lo -> tiled range_hi l' range_lo.
Proof.
  destruct range_bounds as [B0 B1]. intros Hs Ht. destruct Hs as [n h ret l l' Hn E|n k h ret l l' Hn Hk E|n v h ret l l' Hn Hv E].
  - pose proof (VAlloc_spec _ _ B0 B1 l n h Ht Hn) as Hp. rewrite E in Hp. apply Hp.
  - pose proof (VAllocAligned_spec _ _ B0 B1 l n k h Ht Hn Hk) as Hp. rewrite E in Hp. apply Hp.
  - destruct (AllocRange_spec _ _ B0 B1 l n v h Ht Hn Hv) as (ret' & l1 & E' & Hc).
    rewrite E in E'. injection E' as <- <-. destruct Hc as [[_ ->]|(m & e & Hg & _)]; [done | apply Hg].
Qed.

Lemma reachable_tiled l : rtc vstep new_VMemAllocator l -> tiled range_hi l range_lo.
Proof.
  intros Hr. assert (tiled range_hi new_VMemAllocator range_lo) as H0 by (by vm_compute).
  revert H0. induction Hr as [|x y z Hxy _ IH]; [done |]. intros Hx. by eapply IH, vstep_tiled.
Qed.

Lemma in_use_range hi l lo x : tiled hi l lo -> x ∈ in_use hi l -> lo <= x.1.1 < x.1.2 /\ x.1.2 <= hi.
Proof.
  revert hi. induction l as [|[b r] l IH]; intros hi; cbn; [by intros _ ?%not_elem_of_nil |].
  intros (Hf & He & Hb & Ht) [Hx|Hx]%elem_of_app; [| specialize (IH b Ht Hx); lia].
  destruct (IsFree r); [by apply not_elem_of_nil in Hx |]. apply list_elem_of_singleton in Hx as ->. cbn. lia.
Qed.

Lemma in_use_disjoint hi l lo i j x y :
  tiled hi l lo -> in_use hi l !! i = Some x -> in_use hi l !! j = Some y -> i <> j ->
  x.1.2 <= y.1.1 \/ y.1.2 <= x.1.1.
Proof.
  revert hi i j x y. induction l as [|[b r] l IH]; intros hi i j x y; cbn; [done |].
  intros (Hf & He & Hb & Ht). destruct (IsFree r); cbn; [by apply IH |].
  destruct i as [|i], j as [|j]; cbn; intros Hx Hy Hij; [done | | | eapply IH; eauto].
  - injection Hx as <-. right. apply list_elem_of_lookup_2, (in_use_range _ _ _ _ Ht) in Hy. cbn. lia.
  - injection Hy as <-. left. apply list_elem_of_lookup_2, (in_use_range _ _ _ _ Ht) in Hx. cbn. lia.
Qed.

(** C34. After any history of requests the ranges in use are disjoint and inside
    the virtual range; an allocation adds exactly the range it returns, of the
    size and alignment asked, under the caller's handler, and aborts only when
    no free range fits. *)
Theorem vmem_alloc_correct l :
  rtc vstep new_VMemAllocator l ->
  (forall i j x y, in_use range_hi l !! i = Some x -> in_use range_hi l !! j = Some y -> i <> j ->
     x.1.2 <= y.1.1 \/ y.1.2 <= x.1.1) /\
  (forall n h, 0 < n < 2 ^ 64 ->
     match VAlloc n h l with
     | Ok (ret, l') => granted range_hi range_lo l ret n h l'
     | Fail f => f = Aborted /\ forall b r, (b, r) ∈ l -> IsFree r = true -> end_ r - b < n
     end) /\
  (forall n k h, 0 < n < 2 ^ 64 -> 0 <= k ->
     match VAllocAligned n (2 ^ k) h l with
     | Ok (ret, l') => granted range_hi range_lo l ret n h l' /\ ret mod 2 ^ k = 0
     | Fail f => f = Aborted /\ forall b r a, (b, r) ∈ l -> IsFree r = true -> a mod 2 ^ k = 0 ->
         b <= a -> a + n <= end_ r -> False
     end).
Proof.
  intros Hr. apply reachable_tiled in Hr as Ht. destruct range_bounds as [B0 B1]. split_and!.
  - intros i j x y. by apply (in_use_disjoint _ _ _ _ _ _ _ Ht).
  - intros n h. by apply VAlloc_spec.
  - intros n k h. by apply VAllocAligned_spec.
Qed.

Lemma vmem_alloc_correct_witness :
  exists ret l, VAllocAligned 512 (2 ^ 9) (Some 7%nat) new_VMemAllocator = Ok (ret, l) /\ ret mod 2 ^ 9 = 0.
Proof.
  destruct (vmem_alloc_correct new_VMemAllocator (rtc_refl _ _)) as (_ & _ & H).
  specialize (H 512 9 (Some 7%nat) ltac:(done) ltac:(done)).
  eexists _, _. split; [vm_compute; reflexivity |]. vm_compute in H. by destruct H.
Defined.

(** ** Page faults *)

Lemma lower_bound_spec hi l lo x :
  tiled hi l lo -> lo <= x < hi ->
  exists l1 b r l2, l = l1 ++ (b, r) :: l2 /\ lower_bound x l = Some (b, r) /\ b <= x < low hi l1.
Proof.
  revert hi. induction l as [|[b r] l IH]; intros hi; cbn; [lia |]. intros (Hf & He & Hb & Ht) Hx.
  unfold lower_bound. cbn. destruct (Z.leb_spec b x).
  - exists [], b, r, l. split_and!; [done | done | lia | cbn; lia].
  - destruct (IH b Ht) as (l1 & b' & r' & l2 & -> & Hl & Hr); [lia |]. exists ((b, r) :: l1), b', r', l2.
    split_and!; try done; apply Hr.
Qed.

Lemma PfnUp_le addr : 0 <= addr < kVMemStart -> PfnUp addr <= PfnDown addr + 1.
Proof.
  intros Ha. unfold PfnUp, PfnDown. rewrite u64_small by (unfold kVMemStart in Ha; change kPageSize with 4096; lia).
  rewrite !Z.shiftr_div_pow2 by done. change (2 ^ kPageShift) with 4096. change kPageSize with 4096.
  apply Z.lt_succ_r, Z.div_lt_upper_bound; [done |]. pose proof (Z.div_mod addr 4096 ltac:(done)).
  pose proof (Z.mod_pos_bound addr 4096 ltac:(done)). lia.
Qed.

Lemma page_fault_spec l addr :
  tiled range_hi l range_lo -> 0 <= addr < 2 ^ 64 ->
  let page := PfnDown addr in
  (forall b e h, (b, e, h) ∈ in_use range_hi l -> b <= page < e ->
     HandlePageFault addr l = match h with Some h => Ok (ToHandler h addr) | None => Fail UndefinedBehaviour end) /\
  (range_lo <= page < range_hi -> (forall b e h, (b, e, h) ∈ in_use range_hi l -> ~ b <= page < e) ->
     HandlePageFault addr l = Fail AssertFailed) /\
  (page < range_lo -> HandlePageFault addr l = Fail Aborted) /\
  (range_hi <= page -> HandlePageFault addr l = Ok (ToTrans addr)).
Proof.
  intros Ht Ha page.
  assert (page < range_hi <-> addr < kVMemStart) as Hpage.
  { unfold page, PfnDown, range_hi. rewrite Z.shiftr_div_pow2 by done. change (2 ^ kPageShift) with 4096.
    change (PfnDown kVMemRangeEnd) with (kVMemStart / 4096).
    pose proof (Z.div_mod addr 4096 ltac:(done)). pose proof (Z.mod_pos_bound addr 4096 ltac:(done)).
    change kVMemStart with (0xFFFFFFFF00000 * 4096). rewrite Z.div_mul by done. lia. }
  assert (range_lo <= page < range_hi -> exists l1 b r l2, l = l1 ++ (b, r) :: l2 /\ b <= page < low range_hi l1 /\
    HandlePageFault addr l = if IsFree r then Fail AssertFailed else
      match page_fault_handler_ r with Some h => Ok (ToHandler h addr) | None => Fail UndefinedBehaviour end) as Hin.
  { intros Hp. destruct (lower_bound_spec _ _ _ page Ht Hp) as (l1 & b & r & l2 & -> & Hl & Hb).
    exists l1, b, r, l2. split_and!; try done; try lia. unfold HandlePageFault.
    destruct (Z.leb_spec kVMemStart addr); [lia |]. fold page. rewrite Hl.
    apply tiled_app in Ht as (T1 & Hf & He & _ & _). pose proof (PfnUp_le addr ltac:(lia)) as Hup. fold page in Hup.
    destruct (Z.ltb_spec (end_ r) (PfnUp addr)); [lia |]. destruct (IsFree r); [done |]. cbn [kassert negb]. by rewrite bind_Ok. }
  split_and!.
  - intros b e h Hu Hbe. pose proof (in_use_range _ _ _ _ Ht Hu) as Hur. cbn in Hur.
    destruct Hin as (l1 & b' & r & l2 & -> & Hb & ->); [lia |]. rewrite in_use_app in Hu. cbn in Hu.
    apply tiled_app in Ht as (T1 & Hf & He & Hb' & T2).
    apply elem_of_app in Hu as [Hu|Hu]; [apply (in_use_range _ _ _ _ T1) in Hu; cbn in Hu; lia |].
    apply elem_of_app in Hu as [Hu|Hu]; [| apply (in_use_range _ _ _ _ T2) in Hu; cbn in Hu; lia].
    destruct (IsFree r); [by apply not_elem_of_nil in Hu |]. apply list_elem_of_singleton in Hu. by injection Hu as -> -> ->.
  - intros Hp Hno. destruct Hin as (l1 & b & r & l2 & -> & Hb & ->); [done |]. destruct (IsFree r) eqn:Hf; [done |].
    exfalso. apply (Hno b (low range_hi l1) (page_fault_handler_ r)); [| done].
    rewrite in_use_app, elem_of_app. right. cbn. rewrite Hf. left.
  - intros Hp. unfold HandlePageFault. pose proof range_bounds as [B0 B1].
    destruct (Z.leb_spec kVMemStart addr) as [|]; [assert (range_lo < range_hi) by (by vm_compute); lia |].
    fold page. destruct (lower_bound page l) as [[b r]|] eqn:E; [| done].
    apply find_region_some in E as (l1 & l2 & -> & Hb%Z.leb_le & _).
    apply tiled_app in Ht as (T1 & _ & _ & Hb' & _). lia.
  - intros Hp. unfold HandlePageFault. by destruct (Z.leb_spec kVMemStart addr); [| lia].
Qed.

(** A page fault in a range that is in use is handled by the handler it was
    allocated with (a missing handler is called all the same), one in a free range
    stops the kernel, and one outside the virtual range goes to the translation
    system or aborts. *)
Theorem page_fault_dispatch l addr :
  rtc vstep new_VMemAllocator l -> 0 <= addr < 2 ^ 64 ->
  let page := PfnDown addr in
  (forall b e h, (b, e, h) ∈ in_use range_hi l -> b <= page < e ->
     HandlePageFault addr l = match h with Some h => Ok (ToHandler h addr) | None => Fail UndefinedBehaviour end) /\
  (range_lo <= page < range_hi -> (forall b e h, (b, e, h) ∈ in_use range_hi l -> ~ b <= page < e) ->
     HandlePageFault addr l = Fail AssertFailed) /\
  (page < range_lo -> HandlePageFault addr l = Fail Aborted) /\
  (range_hi <= page -> HandlePageFault addr l = Ok (ToTrans addr)).
Proof. intros Hr. by apply page_fault_spec, reachable_tiled. Qed.

Lemma page_fault_dispatch_witness :
  exists ret l, VAlloc 1 (Some 7%nat) new_VMemAllocator = Ok (ret, l) /\
    HandlePageFault (ToAddr ret + 5) l = Ok (ToHandler 7 (ToAddr ret + 5)).
Proof.
  destruct (VAlloc 1 (Some 7%nat) new_VMemAllocator) as [[ret l]|] eqn:E; [| by vm_compute in E].
  exists ret, l. split; [done |]. vm_compute in E. injection E as <- <-.
  match goal with |- HandlePageFault ?a ?l = _ => destruct (page_fault_dispatch l a) as (H & _) end.
  - eapply rtc_once, (step_VAlloc 1 (Some 7%nat)); [done | vm_compute; reflexivity].
  - done.
  - apply (H 4503599626321919 4503599626321920 (Some 7%nat)); [vm_compute; left | by vm_compute].
Defined.

(** [AllocRange] either refuses, leaving the regions as they were, or reserves
    the pages asked for at the address asked for; it takes one page more than
    asked whenever the free region it cuts has it. *)
Theorem AllocRange_correct l n v h :
  rtc vstep new_VMemAllocator l -> 0 <= n < 2 ^ 52 -> 0 <= v < 2 ^ 64 ->
  exists ret l', AllocRange n v h l = Ok (ret, l') /\
    (ret = PfnNone /\ l' = l \/
     exists m e, granted range_hi range_lo l ret m h l' /\ v = ret * kPageSize /\ 0 < n /\
       m = Z.min (n + 1) (e - ret) /\ ret + n <= e).
Proof. intros Hr. destruct range_bounds. apply AllocRange_spec; [done | done | by apply reachable_tiled]. Qed.

Lemma AllocRange_correct_witness :
  exists ret l, AllocRange 1 kVMemRangeStart (Some 3%nat) new_VMemAllocator = Ok (ret, l) /\
    in_use range_hi l = [(range_lo, range_lo + 2, Some 3%nat)].
Proof.
  destruct (AllocRange_correct new_VMemAllocator 1 kVMemRangeStart (Some 3%nat)) as (ret & l & E & _);
    [apply rtc_refl | done | done |].
  exists ret, l. split; [done |]. vm_compute in E. injection E as <- <-. by vm_compute.
Defined.
