(* ===== verification/VMem.v ===== *)
(** * Page tables

    Models src/src/native/VMem.{h,cc} and Trans.cc: the page table entry [Pte],
    the traversal [TraversePageTable] that all mapping functions share, and the
    functions that map and unmap memory.  Page tables live in a memory of 64-bit
    words indexed by address. *)

From S2P Require Import Prelude Pfn.

(** ** class Pte: a 64-bit word *)

Module Pte.

Definition kPermRead : Z := 1.
Definition kPermWrite : Z := 2.
Definition kPermExec : Z := 4.
Definition kPermAll : Z := Z.lor (Z.lor kPermRead kPermWrite) kPermExec.

Definition Present (raw : Z) : bool := negb (Z.land raw 1 =? 0).
Definition Large (raw : Z) : bool := negb (Z.land raw (Z.shiftl 1 7) =? 0).
Definition Addr (raw : Z) (large : bool) : Z :=
  let ret := Z.land raw (Z.shiftl 1 52 - 1) in
  let ret := Z.land ret (Z.lnot (Z.shiftl 1 12 - 1)) in
  Z.land ret (Z.lnot (Z.shiftl (Z.b2z large) 12)).

Definition SetBit (bit_num : Z) (value : bool) (raw : Z) : Z :=
  Z.lor (Z.land raw (Z.lnot (Z.shiftl 1 bit_num))) (Z.shiftl (Z.b2z value) bit_num).
Definition SetPresent (v : bool) (raw : Z) : Z := SetBit 0 v raw.
Definition SetWritable (v : bool) (raw : Z) : Z := SetBit 1 v raw.
Definition SetLargeBit (v : bool) (raw : Z) : Z := SetBit 7 v raw.
Definition SetNx (v : bool) (raw : Z) : Z := SetBit 63 v raw.
Definition SetAddr (addr : Z) (large : bool) (raw : Z) : Z :=
  let mask := Z.lor 0x8000000000000fff (Z.shiftl (Z.b2z large) 12) in
  Z.lor (Z.land raw mask) addr.

(** [Set(phys_addr, large, permissions)] *)
Definition Set_ (phys_addr : Z) (large : bool) (permissions : Z) : Z :=
  let raw := 0 in
  let raw := SetPresent (negb (permissions =? 0)) raw in
  let raw := SetWritable (negb (Z.land permissions kPermWrite =? 0)) raw in
  let raw := SetLargeBit large raw in
  let raw := SetAddr phys_addr large raw in
  SetNx (Z.land permissions kPermExec =? 0) raw.

Definition SetNormal (phys_addr : Z) : Z := Set_ phys_addr false kPermAll.
Definition SetLarge (phys_addr : Z) : Z := Set_ phys_addr true kPermAll.

End Pte.

(** ** The traversal *)

Definition kNumPageSizes : nat := 2.

Definition PtIndex (virt_addr : Z) (level : nat) : Z :=
  Z.land (Z.shiftr virt_addr (12 + Z.of_nat level * 9)) (Z.shiftl 1 9 - 1).

(** The sign extension of bit 47. *)
Definition Canonical (addr : Z) : Z :=
  let v := addr mod 2 ^ 48 in if v <? 2 ^ 47 then v else v + 2 ^ 64 - 2 ^ 48.

Definition page_step (level : nat) : Z := Z.shiftl 1 (12 + Z.of_nat level * 9).

Section Traverse.
Context {St : Type}.
Context (read : Z -> St -> Z).                                (* the entry at an address *)
Context (found : Z -> Z -> nat -> St -> outcome St).          (* entry, base_virt, level *)
Context (empty : Z -> St -> outcome (bool * St)).

(** The loop over the entries of one table. *)
Fixpoint traverse_loop (body : Z -> Z -> St -> outcome St) (step : Z) (n : nat) (idx base_virt : Z)
    (s : St) : outcome St :=
  match n with
  | O => Ok s
  | S n => s ← body idx base_virt s; traverse_loop body step n (idx + 1) (Canonical (u64 (base_virt + step))) s
  end.

(** [TraversePageTable] on the entry at address [entry]. *)
Fixpoint TraversePageTable (level : nat) (entry virt_start virt_end base_virt : Z) (s : St) : outcome St :=
  match level with
  | O => Fail UndefinedBehaviour            (* [--level] wraps *)
  | S level =>
      '(go, s) ← (if Pte.Present (read entry s) then Ok (true, s) else empty entry s);
      if negb go then Ok s else
      let pt := Pte.Addr (read entry s) false in
      let step := page_step level in
      let idx_begin := PtIndex (Z.max virt_start base_virt) level in
      let base_virt_end := Canonical (u64 (base_virt + step * 512 - 1)) in
      let idx_end := PtIndex (Z.min (u64 (virt_end - 1)) base_virt_end) level in
      traverse_loop
        (fun idx base_virt s =>
           if (level <? kNumPageSizes)%nat && (virt_start <=? base_virt) &&
              (u64 (base_virt + step) <=? virt_end)
           then found (pt + 8 * idx) base_virt level s
           else TraversePageTable level (pt + 8 * idx) virt_start virt_end base_virt s)
        step (Z.to_nat (idx_end + 1 - idx_begin)) idx_begin
        (u64 (base_virt + Canonical (idx_begin * step))) s
  end.
End Traverse.

(** ** Mapping functions *)

(** The words of memory, and the allocator of page table pages. *)
Record Memory (A : Type) := mkMemory { words : gmap Z Z; allocator : A }.
Arguments mkMemory {A}.
Arguments words {A}.
Arguments allocator {A}.

Section Mapping.
Context {A : Type}.
Context (alloc_page : A -> outcome (Z * A)).      (* page_allocator->Alloc(), or the early allocator *)
Implicit Types m : Memory A.

Definition read_pte (addr : Z) m : Z := default 0 (words m !! addr).
Definition write_pte (addr raw : Z) m : Memory A := mkMemory (<[addr := raw]> (words m)) (allocator m).

(** [new (page_addr) Pte\[512\]]. *)
Fixpoint clear_words (n : nat) (addr : Z) (w : gmap Z Z) : gmap Z Z :=
  match n with O => w | S n => clear_words n (addr + 8) (<[addr := 0]> w) end.
Definition new_table (page_addr : Z) m : Memory A :=
  mkMemory (clear_words 512 page_addr (words m)) (allocator m).

(** The callback for a missing table. *)
Definition empty_alloc (entry : Z) m : outcome (bool * Memory A) :=
  '(page, a) ← alloc_page (allocator m);
  _ ← kassert (negb (page =? PfnNone));
  let m := new_table (ToAddr page) (mkMemory (words m) a) in
  Ok (true, write_pte entry (Pte.SetNormal (ToAddr page)) m).

(** The early allocator's [AllocatePage] does not return [None]. *)
Definition empty_early (entry : Z) m : outcome (bool * Memory A) :=
  '(page, a) ← alloc_page (allocator m);
  let m := new_table (ToAddr page) (mkMemory (words m) a) in
  Ok (true, write_pte entry (Pte.SetNormal (ToAddr page)) m).

Definition empty_abort (entry : Z) m : outcome (bool * Memory A) := Fail Aborted.

Definition is_large (level : nat) : bool := (0 <? level)%nat.

Definition EarlyMapMemory (root addr length : Z) m : outcome (Memory A) :=
  let aligned_addr := AlignDown addr kPageSize in
  let aligned_length := AlignUp (u64 (length + (addr - aligned_addr))) kPageSize in
  TraversePageTable read_pte
    (fun entry base_virt level m =>
       if Pte.Present (read_pte entry m) then
         _ ← kassert (Pte.Addr (read_pte entry m) (is_large level) =? base_virt); Ok m
       else Ok (write_pte entry (Pte.Set_ base_virt (is_large level) Pte.kPermAll) m))
    empty_early 4 root aligned_addr (u64 (aligned_addr + aligned_length)) 0 m.

Definition EarlyUnmapMemory (root addr length : Z) m : outcome (Memory A) :=
  let aligned_addr := AlignDown addr kPageSize in
  let aligned_length := AlignUp (u64 (length + (addr - aligned_addr))) kPageSize in
  TraversePageTable read_pte
    (fun entry base_virt level m =>
       _ ← kassert (Pte.Present (read_pte entry m));
       Ok (write_pte entry (Pte.SetPresent false (read_pte entry m)) m))
    empty_abort 4 root aligned_addr (u64 (aligned_addr + aligned_length)) 0 m.

(** The callback of [MapMemory] and [MapMemoryLarge]. *)
Definition found_map (vaddr paddr entry base_virt : Z) (level : nat) m : outcome (Memory A) :=
  _ ← kassert (negb (Pte.Present (read_pte entry m)));
  Ok (write_pte entry (Pte.Set_ (u64 (paddr + (base_virt - vaddr))) (is_large level) Pte.kPermAll) m).

(** [root] is the address of the local [pte_root], a copy of CR3. *)
Definition MapMemory (root vfn pfn length : Z) m : outcome (Memory A) :=
  let vaddr := ToAddr vfn in
  TraversePageTable read_pte (found_map vaddr (ToAddr pfn)) empty_alloc
    4 root vaddr (u64 (vaddr + length)) 0 m.

Definition MapMemoryLarge (root vaddr pfn length : Z) m : outcome (Memory A) :=
  TraversePageTable read_pte (found_map vaddr (ToAddr pfn)) empty_alloc
    4 root vaddr (u64 (vaddr + length)) 0 m.

(** trans::HandleFault: the page is cleared before it is compared with [None]. *)
Definition trans_HandleFault (root fault_addr : Z) m : outcome (Memory A) :=
  '(backing_page, a) ← alloc_page (allocator m);
  if backing_page =? PfnNone then Fail UndefinedBehaviour      (* memset of the last page *)
  else
    let m := new_table (ToAddr backing_page) (mkMemory (words m) a) in
    MapMemory root (PfnDown fault_addr) backing_page kPageSize m.

(** vmem::ApInit: the core starts with a copy of the top table of the boot page
    table, whose root is at [boot]; its own root, the value of CR3, is stored at
    [root]. *)
Fixpoint copy_words (n : nat) (dst src : Z) (w : gmap Z Z) : gmap Z Z :=
  match n with
  | O => w
  | S n => copy_words n (dst + 8) (src + 8) (<[dst := default 0 (w !! src)]> w)
  end.

Definition vmem_ApInit (boot root : Z) m : outcome (Memory A) :=
  '(page, a) ← alloc_page (allocator m);
  _ ← kassert (negb (page =? PfnNone));
  let m := mkMemory (copy_words 512 (ToAddr page) (Pte.Addr (read_pte boot m) false) (words m)) a in
  Ok (write_pte root (Pte.SetNormal (ToAddr page)) m).

(** trans::Init: the first page of the translation table, on the boot core. *)
Definition trans_Init (kVMemStart boot : Z) m : outcome (Memory A) :=
  '(page, a) ← alloc_page (allocator m);
  m ← TraversePageTable read_pte (found_map kVMemStart (ToAddr page)) empty_early
        4 boot kVMemStart (u64 (kVMemStart + kPageSize)) 0 (mkMemory (words m) a);
  Ok (new_table (ToAddr page) m).

(** trans::ApInit: a translation table of the core's own.  Neither callback
    compares its page with [None]. *)
Definition found_trans (vaddr entry base_virt : Z) (level : nat) m : outcome (Memory A) :=
  _ ← kassert (negb (Pte.Present (read_pte entry m)));
  '(page, a) ← alloc_page (allocator m);
  if page =? PfnNone then Fail UndefinedBehaviour
  else
    let m := new_table (ToAddr page) (mkMemory (words m) a) in
    Ok (write_pte entry (Pte.Set_ (u64 (ToAddr page + (base_virt - vaddr))) (is_large level) Pte.kPermAll) m).

Definition empty_trans (entry : Z) m : outcome (bool * Memory A) :=
  '(page, a) ← alloc_page (allocator m);
  if page =? PfnNone then Fail UndefinedBehaviour
  else
    let m := new_table (ToAddr page) (mkMemory (words m) a) in
    Ok (true, write_pte entry (Pte.SetNormal (ToAddr page)) m).

Definition trans_ApInit (kVMemStart root : Z) m : outcome (Memory A) :=
  let pt := Pte.Addr (read_pte root m) false in
  let m := write_pte (u64 (pt + 8 * PtIndex kVMemStart 3)) 0 m in
  TraversePageTable read_pte (found_trans kVMemStart) empty_trans
    4 root kVMemStart (u64 (kVMemStart + kPageSize)) 0 m.
End Mapping.
