(* ===== verification/VMemCorrect.v ===== *)
(** * Page table entries and traversals are correct

    Entries keep the address and the flags they were set with; a traversal of a
    page-aligned range calls [found] on consecutive pages, small and large, that
    cover exactly the range, whatever the callbacks do. *)

From S2P Require Import Prelude Pfn VMem.

(** ** Entries *)

Lemma testbit_small a w n : 0 <= a < 2 ^ w -> 0 <= w <= n -> Z.testbit a n = false.
Proof.
  intros Ha Hn. destruct (Z.eq_dec a 0) as [->|]; [apply Z.testbit_0_l |].
  apply Z.bits_above_log2; [lia |]. apply Z.log2_lt_pow2; [lia |].
  assert (2 ^ w <= 2 ^ n) by (apply Z.pow_le_mono_r; lia). lia.
Qed.

Lemma land_shiftl_bit raw n : 0 <= n -> negb (Z.land raw (Z.shiftl 1 n) =? 0) = Z.testbit raw n.
Proof.
  intros Hn. rewrite Z.shiftl_mul_pow2, Z.mul_1_l by done.
  destruct (Z.testbit raw n) eqn:E.
  - destruct (Z.eqb_spec (Z.land raw (2 ^ n)) 0) as [H|]; [| done].
    assert (Z.testbit (Z.land raw (2 ^ n)) n = true) as Ht by (rewrite Z.land_spec, E, Z.pow2_bits_true by done; done).
    rewrite H, Z.testbit_0_l in Ht. done.
  - assert (Z.land raw (2 ^ n) = 0) as ->; [| done]. apply Z.bits_inj'. intros k Hk.
    rewrite Z.land_spec, Z.testbit_0_l, Z.pow2_bits_eqb by done. destruct (Z.eqb_spec n k) as [->|]; [by rewrite E |].
    apply andb_false_r.
Qed.

Lemma b2z_shiftl_bit (b : bool) n k : 0 <= n -> 0 <= k -> Z.testbit (Z.shiftl (Z.b2z b) n) k = b && (k =? n).
Proof.
  intros Hn Hk. destruct b; cbn [Z.b2z].
  - rewrite Z.shiftl_mul_pow2, Z.mul_1_l, Z.pow2_bits_eqb by done. by rewrite Z.eqb_sym.
  - rewrite Z.shiftl_0_l. apply Z.testbit_0_l.
Qed.

Lemma SetBit_bit n v raw k : 0 <= n -> 0 <= k ->
  Z.testbit (Pte.SetBit n v raw) k = if k =? n then v else Z.testbit raw k.
Proof.
  intros Hn Hk. unfold Pte.SetBit. rewrite Z.lor_spec, Z.land_spec, b2z_shiftl_bit, Z.lnot_spec by done.
  rewrite Z.shiftl_mul_pow2, Z.mul_1_l, Z.pow2_bits_eqb, Z.eqb_sym by done.
  destruct (k =? n); [by rewrite andb_false_r, andb_true_r |].
  by rewrite andb_true_r, andb_false_r, orb_false_r.
Qed.

(** The bits of an entry. *)
Lemma Set_bits addr large perm k :
  0 <= addr < 2 ^ 52 -> addr mod 2 ^ 12 = 0 -> 0 <= k ->
  Z.testbit (Pte.Set_ addr large perm) k =
    if k =? 63 then Z.land perm Pte.kPermExec =? 0
    else Z.testbit addr k || (k =? 7) && large || (k =? 1) && negb (Z.land perm Pte.kPermWrite =? 0) ||
         (k =? 0) && negb (perm =? 0).
Proof.
  intros Ha Hal Hk. unfold Pte.Set_, Pte.SetNx. rewrite SetBit_bit by lia.
  destruct (Z.eqb_spec k 63) as [|H63]; [done |]. unfold Pte.SetAddr. rewrite Z.lor_spec, Z.land_spec.
  unfold Pte.SetLargeBit, Pte.SetWritable, Pte.SetPresent. rewrite !SetBit_bit, Z.testbit_0_l by lia.
  rewrite Z.lor_spec, b2z_shiftl_bit by lia. change 0x8000000000000fff with (Z.lor (2 ^ 63) (Z.ones 12)).
  rewrite Z.lor_spec, Z.pow2_bits_eqb, (Z.eqb_sym 63), Z.testbit_ones by lia.
  destruct (Z.eqb_spec k 63); [done |]. rewrite (proj2 (Z.leb_le 0 k)) by done. cbn.
  destruct (Z.eqb_spec k 7), (Z.eqb_spec k 1), (Z.eqb_spec k 0); try lia; subst; cbn;
    rewrite ?orb_false_r, ?andb_true_r, ?andb_false_r, ?orb_false_r; try done; apply orb_comm.
Qed.

Lemma aligned_low_bits a w k : 0 <= w -> a mod 2 ^ w = 0 -> 0 <= k < w -> Z.testbit a k = false.
Proof.
  intros Hw Ha Hk. apply Z.mod_divide in Ha as [q ->]; [| pose proof (pow2_pos w Hw); lia].
  rewrite Z.mul_pow2_bits_low by lia. done.
Qed.

(** A page table entry gives back what it was set with: the physical address
    of an aligned page, whether it is large, whether it is present (any
    permission at all), writable and executable. *)
Theorem Pte_roundtrip addr (large : bool) perm :
  0 <= addr < 2 ^ 52 -> addr mod 2 ^ (if large then 21 else 12) = 0 ->
  let raw := Pte.Set_ addr large perm in
  Pte.Addr raw large = addr /\ Pte.Large raw = large /\ Pte.Present raw = negb (perm =? 0) /\
  Z.testbit raw 1 = negb (Z.land perm Pte.kPermWrite =? 0) /\
  Z.testbit raw 63 = (Z.land perm Pte.kPermExec =? 0).
Proof.
  intros Ha Hal raw.
  assert (forall k, 0 <= k < (if large then 21 else 12) -> Z.testbit addr k = false) as Hlow.
  { intros k Hk. eapply aligned_low_bits; [| exact Hal | exact Hk]. destruct large; lia. }
  assert (addr mod 2 ^ 12 = 0) as H12.
  { destruct large; [| done]. apply Z.mod_divide in Hal as [q ->]; [| done].
    replace (q * 2 ^ 21) with (q * 2 ^ 9 * 2 ^ 12) by lia. by apply Z.mod_mul. }
  assert (forall k, 52 <= k -> Z.testbit addr k = false) as Hhigh by (intros; apply (testbit_small addr 52); lia).
  split_and!.
  - unfold Pte.Addr. apply Z.bits_inj'. intros k Hk. rewrite !Z.land_spec, !Z.lnot_spec, b2z_shiftl_bit by lia.
    change (Z.shiftl 1 52 - 1) with (Z.ones 52). change (Z.shiftl 1 12 - 1) with (Z.ones 12).
    rewrite !Z.testbit_ones, (proj2 (Z.leb_le 0 k)) by lia. unfold raw. rewrite Set_bits by done. cbn.
    destruct (Z.ltb_spec k 52); [| rewrite Hhigh by lia; by rewrite !andb_false_r].
    destruct (Z.ltb_spec k 12); [rewrite Hlow by (destruct large; lia); by rewrite !andb_false_r |].
    destruct (Z.eqb_spec k 63); [lia |]. destruct (Z.eqb_spec k 7), (Z.eqb_spec k 1), (Z.eqb_spec k 0); try lia. cbn.
    rewrite !orb_false_r, !andb_true_r. destruct large; [| by rewrite andb_true_r].
    destruct (Z.eqb_spec k 12) as [->|]; [rewrite Hlow by lia; done | by rewrite andb_true_r].
  - unfold Pte.Large. rewrite land_shiftl_bit by lia. unfold raw. rewrite Set_bits by done.
    rewrite (Hlow 7) by (destruct large; lia). cbn. by rewrite !orb_false_r.
  - unfold Pte.Present. change 1 with (Z.shiftl 1 0). rewrite land_shiftl_bit by lia. unfold raw. rewrite Set_bits by done.
    rewrite (Hlow 0) by (destruct large; lia). done.
  - unfold raw. rewrite Set_bits by done. rewrite (Hlow 1) by (destruct large; lia). cbn. by rewrite orb_false_r.
  - unfold raw. rewrite Set_bits by done. done.
Qed.

Lemma Pte_roundtrip_witness : Pte.Addr (Pte.Set_ 0x200000 true Pte.kPermAll) true = 0x200000.
Proof. apply (Pte_roundtrip 0x200000 true Pte.kPermAll); done. Defined.

(** ** Traversals *)

Lemma page_step_eq n : page_step n = 2 ^ (12 + Z.of_nat n * 9).
Proof. unfold page_step. rewrite Z.shiftl_mul_pow2 by lia. lia. Qed.

Lemma page_step_S n : page_step (S n) = page_step n * 512.
Proof.
  rewrite !page_step_eq. change 512 with (2 ^ 9). rewrite <- Z.pow_add_r by lia. f_equal. lia.
Qed.

Lemma page_step_pos n : 0 < page_step n.
Proof. rewrite page_step_eq. apply pow2_pos. lia. Qed.

Lemma page_step_divide n m : (n <= m)%nat -> (page_step n | page_step m).
Proof.
  intros Hnm. rewrite !page_step_eq. exists (2 ^ ((Z.of_nat m - Z.of_nat n) * 9)).
  rewrite <- Z.pow_add_r by lia. f_equal. lia.
Qed.

(** In one of the two halves of the address space. *)
Definition canonical (x : Z) : Prop := 0 <= x < 2 ^ 47 \/ 2 ^ 64 - 2 ^ 47 <= x < 2 ^ 64.

Lemma Canonical_id x : canonical x -> Canonical x = x.
Proof.
  unfold canonical, Canonical. intros [Hx|Hx].
  - rewrite Z.mod_small by lia. destruct (Z.ltb_spec x (2 ^ 47)); lia.
  - assert (x mod 2 ^ 48 = x - (2 ^ 64 - 2 ^ 48)) as ->.
    { replace x with (x - (2 ^ 64 - 2 ^ 48) + (2 ^ 16 - 1) * 2 ^ 48) at 1 by lia.
      rewrite Z.mod_add, Z.mod_small by lia. done. }
    destruct (Z.ltb_spec (x - (2 ^ 64 - 2 ^ 48)) (2 ^ 47)); lia.
Qed.

Lemma PtIndex_eq addr n : PtIndex addr n = addr / page_step n mod 512.
Proof.
  unfold PtIndex. rewrite Z.shiftr_div_pow2 by lia. change (Z.shiftl 1 9 - 1) with (Z.ones 9).
  rewrite Z.land_ones by lia. by rewrite page_step_eq.
Qed.

(** The index of an address inside the block that begins at [D]. *)
Lemma PtIndex_in D n addr :
  (page_step n * 512 | D) -> D <= addr < D + page_step n * 512 ->
  PtIndex addr n = (addr - D) / page_step n /\ 0 <= (addr - D) / page_step n < 512.
Proof.
  intros [q ->] Ha. pose proof (page_step_pos n) as Hp. rewrite PtIndex_eq.
  assert (0 <= (addr - q * (page_step n * 512)) / page_step n < 512) as Hr.
  { split; [apply Z.div_pos; lia | apply Z.div_lt_upper_bound; lia]. }
  split; [| done].
  replace addr with (addr - q * (page_step n * 512) + q * 512 * page_step n) at 1 by lia.
  rewrite Z.div_add, Z.mod_add by lia. apply Z.mod_small. done.
Qed.

(** The large page around [b] is inside the range. *)
Definition in_large_page (vs ve b : Z) : Prop :=
  vs <= b - b mod page_step 1 /\ b - b mod page_step 1 + page_step 1 <= ve.

(** Pages that follow each other from [lo] to [hi], each aligned to its size; a
    small page is used only where a large one does not fit in [vs, ve). *)
Fixpoint tiles (vs ve lo : Z) (l : list (Z * nat)) (hi : Z) : Prop :=
  match l with
  | [] => lo = hi
  | (b, level) :: l =>
      b = lo /\ (level < kNumPageSizes)%nat /\ (page_step level | b) /\
      (level = O -> ~ in_large_page vs ve b) /\ tiles vs ve (b + page_step level) l hi
  end.

Lemma tiles_app vs ve lo l1 mid l2 hi :
  tiles vs ve lo l1 mid -> tiles vs ve mid l2 hi -> tiles vs ve lo (l1 ++ l2) hi.
Proof.
  revert lo. induction l1 as [|[b n] l1 IH]; intros lo; cbn; [by intros -> |].
  intros (-> & ? & ? & ? & ?) ?. split_and!; auto.
Qed.

(** A traversal in general: what the callbacks keep at each page and table they
    are called for, the traversal keeps. *)
Section Traversal.
Context {St : Type}.
Context (read : Z -> St -> Z) (found : Z -> Z -> nat -> St -> outcome St) (empty : Z -> St -> outcome (bool * St)).
Context (vs ve : Z) (Hvs : 0 <= vs < ve) (Hve : ve <= 2 ^ 64 - 2 ^ 21).
Context (Hvs4 : (page_step 0 | vs)) (Hve4 : (page_step 0 | ve)).

(** [P lo s]: the pages below [lo] are done.  [E n b e s]: [e] is the address of
    the entry for the block of level [n] at [b].  [later s s']: [s'] comes from
    [s].  [bad]: how a callback can fail. *)
Context (P : Z -> St -> Prop) (E : nat -> Z -> Z -> St -> Prop) (later : St -> St -> Prop) (bad : fault -> Prop).
Context (later_refl : forall s, later s s) (later_trans : forall s1 s2 s3, later s1 s2 -> later s2 s3 -> later s1 s3).
Context (E_later : forall s s' n b e, later s s' -> E n b e s -> E n b e s').

(** The table below the entry for the block at [b] is visited. *)
Definition visits (n : nat) (b : Z) : Prop :=
  (n <= 3)%nat /\ (page_step (S n) | b) /\ 0 <= b /\ Z.max vs b < Z.min ve (b + page_step (S n)) /\
  ((n <= 2)%nat -> canonical b) /\ (n = O -> ~ (vs <= b /\ b + page_step 1 <= ve)).
Definition table_at (n : nat) (b e : Z) (s : St) : Prop :=
  forall j, 0 <= j < 512 -> E n (b + j * page_step n) (Pte.Addr (read e s) false + 8 * j) s.

Context (Hfound : forall e b n s,
  (n < kNumPageSizes)%nat -> (page_step n | b) -> canonical b -> vs <= b -> b + page_step n <= ve ->
  (n = O -> ~ in_large_page vs ve b) -> E n b e s -> P b s ->
  match found e b n s with Ok s' => P (b + page_step n) s' /\ later s s' | Fail f => bad f end).
Context (Hempty : forall e b n s, visits n b -> Pte.Present (read e s) = false -> E (S n) b e s -> P (Z.max vs b) s ->
  match empty e s with
  | Ok (go, s') => go = true /\ P (Z.max vs b) s' /\ later s s' /\ table_at n b e s'
  | Fail f => bad f
  end).
Context (Htable : forall e b n s, visits n b -> Pte.Present (read e s) = true -> E (S n) b e s -> P (Z.max vs b) s ->
  table_at n b e s).

Definition good (lo hi : Z) (s : St) (r : outcome St) : Prop :=
  P lo s -> match r with Ok s' => P hi s' /\ later s s' | Fail f => bad f end.

Lemma good_bind lo mid hi s r k :
  good lo mid s r -> (forall s', later s s' -> good mid hi s' (k s')) -> good lo hi s (r ≫= k).
Proof.
  intros Hr Hk HP. specialize (Hr HP). destruct r as [s'|f]; cbn [mbind outcome_bind]; [| done].
  destruct Hr as [HP' Hl]. specialize (Hk s' Hl HP'). destruct (k s'); [| done].
  destruct Hk as [? ?]. split; [done | by eapply later_trans].
Qed.

(** The loop over the entries [i .. i + m - 1] of a table whose block begins at
    [D], given what each entry does. *)
Lemma loop_good D n body m : forall i s,
  0 <= i -> (forall j, i <= j < i + Z.of_nat m -> canonical (D + j * page_step n)) ->
  (forall j, i < j < i + Z.of_nat m -> vs <= D + j * page_step n < ve) ->
  (0 < m)%nat -> Z.max vs (D + i * page_step n) < ve -> vs < D + (i + Z.of_nat m) * page_step n ->
  (forall j s', later s s' -> i <= j < i + Z.of_nat m ->
     good (Z.max vs (D + j * page_step n)) (Z.min ve (D + (j + 1) * page_step n)) s' (body j (D + j * page_step n) s')) ->
  good (Z.max vs (D + i * page_step n)) (Z.min ve (D + (i + Z.of_nat m) * page_step n)) s
    (traverse_loop body (page_step n) m i (D + i * page_step n) s).
Proof.
  induction m as [|m IH]; intros i s Hi Hc Hmid Hm Hlo Hhi Hb; [lia |]. cbn [traverse_loop].
  destruct (decide (m = 0)%nat) as [->|Hm0].
  { cbn [traverse_loop]. eapply good_bind; [apply Hb; [done | lia] |]. intros s' _ HP. by split. }
  assert (vs <= D + (i + 1) * page_step n < ve) as Hnext by (apply Hmid; lia).
  assert (canonical (D + (i + 1) * page_step n)) as Hcn by (apply Hc; lia).
  eapply good_bind; [apply Hb; [done | lia] |]. intros y Hl.
  assert (Canonical (u64 (D + i * page_step n + page_step n)) = D + (i + 1) * page_step n) as ->.
  { replace (D + i * page_step n + page_step n) with (D + (i + 1) * page_step n) by lia.
    rewrite u64_small by (destruct Hcn; lia). by apply Canonical_id. }
  replace (Z.min ve (D + (i + 1) * page_step n)) with (Z.max vs (D + (i + 1) * page_step n)) by lia.
  replace (i + Z.of_nat (S m)) with (i + 1 + Z.of_nat m) by lia.
  apply IH; [lia | intros; apply Hc; lia | intros; apply Hmid; lia | lia | lia | |].
  - pose proof (page_step_pos n). nia.
  - intros j s' Hl' Hj. apply Hb; [by eapply later_trans | lia].
Qed.

Lemma canonical_block n B x :
  (n <= 3)%nat -> (page_step n | B) -> canonical B -> B <= x < B + page_step n -> canonical x.
Proof.
  intros Hn HB Hc Hx. assert (page_step n | 2 ^ 47) as [q Hq].
  { rewrite page_step_eq. exists (2 ^ (47 - (12 + Z.of_nat n * 9))). rewrite <- Z.pow_add_r by lia. f_equal. lia. }
  destruct HB as [k ->]. pose proof (page_step_pos n). unfold canonical in *.
  destruct Hc as [Hc|Hc]; [left | right].
  - split; [lia |]. assert (k < q) by nia. nia.
  - split; [lia |]. assert (2 ^ 64 = q * 2 ^ 17 * page_step n) as H64 by lia. assert (k < q * 2 ^ 17) by nia. nia.
Qed.

Lemma div_bounds a b : 0 < b -> a / b * b <= a < a / b * b + b.
Proof. intros Hb. pose proof (Z.div_mod a b ltac:(lia)). pose proof (Z.mod_pos_bound a b Hb). lia. Qed.

Lemma found_good e b n s :
  (n < kNumPageSizes)%nat -> (page_step n | b) -> canonical b -> vs <= b -> b + page_step n <= ve ->
  (n = O -> ~ in_large_page vs ve b) -> E n b e s ->
  good (Z.max vs b) (Z.min ve (b + page_step n)) s (found e b n s).
Proof. intros. rewrite Z.max_r, Z.min_r by lia. intros HP. by apply Hfound. Qed.

(** The table below an entry is there after the entry is looked at. *)
Lemma present_or_empty e b n s k hi :
  visits n b -> E (S n) b e s ->
  (forall s', later s s' -> table_at n b e s' -> good (Z.max vs b) hi s' (k (true, s'))) ->
  good (Z.max vs b) hi s ((if Pte.Present (read e s) then Ok (true, s) else empty e s) ≫= k).
Proof.
  intros Hv HE Hk HP. destruct (Pte.Present (read e s)) eqn:Ep.
  - rewrite bind_Ok. apply Hk; [done | by apply Htable | done].
  - pose proof (Hempty e b n s Hv Ep HE HP) as He. destruct (empty e s) as [[go s']|f]; [| done].
    destruct He as (-> & HP' & Hl & Ht). cbn [mbind outcome_bind]. specialize (Hk s' Hl Ht HP').
    destruct (k (true, s')); [| done]. destruct Hk as [? ?]. split; [done | by eapply later_trans].
Qed.

(** One table: the entries from that of the first page to that of the last. *)
Lemma table_good n D e s B0 :
  visits n D -> E (S n) D e s -> (forall j, 0 <= j < 512 -> D + j * page_step n < ve -> vs < D + (j + 1) * page_step n -> canonical (D + j * page_step n)) ->
  Z.max vs B0 = Z.max vs D ->
  u64 (B0 + Canonical (PtIndex (Z.max vs B0) n * page_step n)) = D + PtIndex (Z.max vs B0) n * page_step n ->
  Z.min (ve - 1) (Canonical (u64 (B0 + page_step n * 512 - 1))) = Z.min (ve - 1) (D + page_step n * 512 - 1) ->
  (forall j e s, 0 <= j < 512 -> D + j * page_step n < ve -> vs < D + (j + 1) * page_step n -> E n (D + j * page_step n) e s ->
     good (Z.max vs (D + j * page_step n)) (Z.min ve (D + (j + 1) * page_step n)) s
       (if (n <? kNumPageSizes)%nat && (vs <=? D + j * page_step n) && (u64 (D + j * page_step n + page_step n) <=? ve)
        then found e (D + j * page_step n) n s
        else TraversePageTable read found empty n e vs ve (D + j * page_step n) s)) ->
  good (Z.max vs D) (Z.min ve (D + page_step n * 512)) s
    (TraversePageTable read found empty (S n) e vs ve B0 s).
Proof.
  intros Hv HE Hc HB0 Hbase Hend Hbody. cbn [TraversePageTable]. pose proof (page_step_pos n) as Hp.
  pose proof Hv as (Hn & HD & HD0 & Hlt & _ & _). rewrite page_step_S in HD, Hlt.
  eapply present_or_empty; [done | done |]. intros s' Hl Ht. clear Hl HE s. cbn [negb].
  rewrite (u64_small (ve - 1)) by lia. rewrite Hend, Hbase, HB0.
  destruct (PtIndex_in D n (Z.max vs D) HD) as [Hib Hib']; [lia |]. rewrite Hib.
  destruct (PtIndex_in D n (Z.min (ve - 1) (D + page_step n * 512 - 1)) HD) as [Hie Hie']; [lia |]. rewrite Hie.
  pose proof (div_bounds (Z.max vs D - D) (page_step n) Hp) as Hbi.
  pose proof (div_bounds (Z.min (ve - 1) (D + page_step n * 512 - 1) - D) (page_step n) Hp) as Hbe.
  set (ib := (Z.max vs D - D) / page_step n) in *.
  set (ie := (Z.min (ve - 1) (D + page_step n * 512 - 1) - D) / page_step n) in *.
  assert (forall a b, a <= b -> a * page_step n <= b * page_step n) as Hmono by (intros; apply Z.mul_le_mono_nonneg_r; lia).
  assert (ib <= ie) as Hle.
  { apply Z.lt_succ_r, (Z.mul_lt_mono_pos_r (page_step n)); [done |]. rewrite Z.mul_succ_l. lia. }
  pose proof (Hmono (ie + 1) 512 ltac:(lia)) as Hie512.
  assert (Z.of_nat (Z.to_nat (ie + 1 - ib)) = ie + 1 - ib) as Hm by lia.
  assert (forall j, ib <= j < ib + (ie + 1 - ib) -> 0 <= j < 512 /\ D + j * page_step n < ve /\ vs < D + (j + 1) * page_step n) as Hj.
  { intros j Hjr. pose proof (Hmono j ie ltac:(lia)). pose proof (Hmono ib j ltac:(lia)). split_and!; lia. }
  replace (Z.max vs D) with (Z.max vs (D + ib * page_step n)) by lia.
  replace (Z.min ve (D + page_step n * 512)) with (Z.min ve (D + (ib + Z.of_nat (Z.to_nat (ie + 1 - ib))) * page_step n))
    by (rewrite Hm; replace (ib + (ie + 1 - ib)) with (ie + 1) by lia; lia).
  destruct (Hj ib ltac:(lia)) as (_ & Hjb & Hjb').
  apply loop_good; rewrite ?Hm; [lia | | | lia | lia | |].
  - intros j Hjr. destruct (Hj j Hjr) as (? & ? & ?). by apply Hc.
  - intros j Hjr. destruct (Hj j ltac:(lia)) as (? & ? & ?). pose proof (Hmono (ib + 1) j ltac:(lia)). lia.
  - pose proof (Hmono (ib + 1) (ib + (ie + 1 - ib)) ltac:(lia)). lia.
  - intros j y Hl Hjr. destruct (Hj j Hjr) as (? & ? & ?). apply Hbody; [done.. |].
    eapply E_later; [exact Hl | by apply Ht].
Qed.

(** What an entry of a table at level [n] does, given the tables below it. *)
Lemma entry_good n b e s :
  (n <= 3)%nat -> (page_step n | b) -> canonical b -> 0 <= b < ve -> vs < b + page_step n ->
  (n = O -> ~ in_large_page vs ve b) -> E n b e s ->
  ((0 < n)%nat -> Z.max vs b < Z.min ve (b + page_step n) ->
     (n = 1%nat -> ~ (vs <= b /\ b + page_step 1 <= ve)) ->
     good (Z.max vs b) (Z.min ve (b + page_step n)) s (TraversePageTable read found empty n e vs ve b s)) ->
  good (Z.max vs b) (Z.min ve (b + page_step n)) s
    (if (n <? kNumPageSizes)%nat && (vs <=? b) && (u64 (b + page_step n) <=? ve)
     then found e b n s else TraversePageTable read found empty n e vs ve b s).
Proof.
  intros Hn Hb Hc Hbve Hvsb Hsm HE Hrec. pose proof (page_step_pos n).
  assert ((n < kNumPageSizes)%nat -> page_step n <= 2 ^ 21) as Hsz.
  { intros. rewrite page_step_eq. unfold kNumPageSizes in *. apply Z.pow_le_mono_r; lia. }
  destruct (decide ((n < kNumPageSizes)%nat /\ vs <= b /\ b + page_step n <= ve)) as [(H1 & H2 & H3)|Hno].
  - specialize (Hsz H1). rewrite (proj2 (Nat.ltb_lt _ _) H1), (proj2 (Z.leb_le _ _) H2), u64_small, (proj2 (Z.leb_le _ _) H3) by lia.
    by apply found_good.
  - assert ((n <? kNumPageSizes)%nat && (vs <=? b) && (u64 (b + page_step n) <=? ve) = false) as ->.
    { apply not_true_iff_false. rewrite !andb_true_iff, Nat.ltb_lt, !Z.leb_le. intros [[H1 H2] H3]. apply Hno.
      specialize (Hsz H1). split_and!; [done | done |]. by rewrite u64_small in H3 by lia. }
    apply Hrec; [| lia | intros ->; unfold kNumPageSizes in Hno; intros [? ?]; apply Hno; split_and!; [lia | done | done]].
    destruct n; [exfalso | lia]. apply Hno. unfold kNumPageSizes.
    destruct Hvs4 as [q Hq], Hve4 as [t Ht], Hb as [k Hk]. change (page_step 0) with 4096 in *. lia.
Qed.

Lemma level_step n B e s :
  (n <= 2)%nat -> visits n B -> canonical B -> E (S n) B e s ->
  (forall b e s, (0 < n)%nat -> (page_step n | b) -> canonical b -> 0 <= b -> Z.max vs b < Z.min ve (b + page_step n) ->
     (n = 1%nat -> ~ (vs <= b /\ b + page_step 1 <= ve)) -> E n b e s ->
     good (Z.max vs b) (Z.min ve (b + page_step n)) s (TraversePageTable read found empty n e vs ve b s)) ->
  good (Z.max vs B) (Z.min ve (B + page_step (S n))) s
    (TraversePageTable read found empty (S n) e vs ve B s).
Proof.
  intros Hn Hv Hc HE Hrec. pose proof (page_step_pos n) as Hp. pose proof Hv as (_ & HB & H0 & Hlt & _ & Hsm).
  assert (forall y, B <= y < B + page_step n * 512 -> canonical y) as Hcan
    by (intros y Hy; apply (canonical_block (S n) B); [lia | done | done | by rewrite page_step_S]).
  assert (page_step n * 512 <= 2 ^ 39) as H39 by (rewrite <- page_step_S, page_step_eq; apply Z.pow_le_mono_r; lia).
  rewrite page_step_S in *.
  assert (canonical (B + page_step n * 512 - 1)) as Hlast by (apply Hcan; lia).
  assert (forall j, 0 <= j < 512 -> 0 <= j * page_step n /\ (j + 1) * page_step n <= page_step n * 512) as Hjs.
  { intros j Hj. split; [lia |]. rewrite (Z.mul_comm (page_step n)). apply Z.mul_le_mono_nonneg_r; lia. }
  destruct (PtIndex_in B n (Z.max vs B) HB) as [Hi Hi']; [lia |].
  apply table_good; [done | done | | done | | |].
  - intros j Hj _ _. destruct (Hjs j Hj). apply Hcan. lia.
  - rewrite Hi. destruct (Hjs _ Hi'). rewrite Canonical_id by (left; lia). apply u64_small. destruct Hlast; lia.
  - rewrite u64_small, Canonical_id; [done | done | destruct Hlast; lia].
  - intros j e' s' Hj H1 H2 HE'. destruct (Hjs j Hj).
    assert (page_step n | B + j * page_step n) as Hdiv.
    { apply Z.divide_add_r; [| by apply Z.divide_factor_r]. etrans; [| exact HB]. by apply Z.divide_factor_l. }
    replace (B + (j + 1) * page_step n) with (B + j * page_step n + page_step n) in * by lia.
    apply entry_good; [lia | done | apply Hcan; lia | lia | lia | | done |].
    + intros -> [Hl1 Hl2]. apply Hsm; [done |]. change (page_step 1) with (page_step 0 * 512) in *.
      assert ((B + j * page_step 0) mod (page_step 0 * 512) = j * page_step 0) as Hmod; [| lia]. destruct HB as [q ->].
      rewrite Z.add_comm, Z.mod_add by (change (page_step 0) with 4096; lia). apply Z.mod_small. lia.
    + intros Hn0 Hlt' Hns. apply Hrec; [done | done | apply Hcan; lia | lia | done | done | done].
Qed.

Lemma level_good n : forall B e s, (n <= 2)%nat -> visits n B -> canonical B -> E (S n) B e s ->
  good (Z.max vs B) (Z.min ve (B + page_step (S n))) s
    (TraversePageTable read found empty (S n) e vs ve B s).
Proof.
  induction n as [|n IH]; intros B e s Hn Hv Hc HE; apply level_step; try done; [lia |].
  intros b e' s' _ Hb Hcb Hb0 Hbl Hns HE'. apply IH; [lia | | done | done].
  split_and!; [lia | done | done | lia | done | intros ->; by apply Hns].
Qed.

(** The whole tree, for a range inside one half of the address space. *)
Definition half_base : Z := if decide (vs < 2 ^ 47) then 0 else 2 ^ 64 - 2 ^ 48.
Lemma traversal_good e s :
  canonical vs -> canonical (ve - 1) -> (vs < 2 ^ 47 <-> ve <= 2 ^ 47) -> E 4 half_base e s ->
  good vs ve s (TraversePageTable read found empty 4 e vs ve 0 s).
Proof.
  intros Hcv Hce Hhalf HE. set (D := half_base) in *.
  change (page_step 3) with (2 ^ 39) in *.
  assert (D <= vs /\ ve <= D + 2 ^ 48 /\ (D = 0 \/ D + 2 ^ 47 <= vs)) as (HDv & HDe & HDc).
  { unfold D, half_base, canonical in *. case_decide; lia. }
  assert (0 <= D) as HD0 by (unfold D, half_base; case_decide; lia).
  assert ((page_step 3 * 512 | D)) as HDd.
  { unfold D, half_base. case_decide; [apply Z.divide_0_r |]. exists (2 ^ 16 - 1). done. }
  assert (forall j, 0 <= j < 512 -> D + j * page_step 3 < ve -> vs < D + (j + 1) * page_step 3 ->
    canonical (D + j * page_step 3)) as Hcan.
  { change (page_step 3) with (2 ^ 39). intros j Hj H1 H2. unfold canonical, D, half_base in *. case_decide; lia. }
  destruct (PtIndex_in D 3 vs HDd) as [Hi Hi']; [change (page_step 3) with (2 ^ 39); lia |].
  pose proof (table_good 3 D e s 0) as Ht. rewrite (Z.max_l vs 0), (Z.max_l vs D) in Ht by lia.
  rewrite (Z.min_l ve) in Ht by (change (page_step 3) with (2 ^ 39); lia).
  apply Ht; clear Ht; [| done | done | done | | |].
  - split_and!; [lia | by rewrite page_step_S | done | change (page_step 4) with (2 ^ 48); lia | lia | done].
  - rewrite Hi. pose proof (div_bounds (vs - D) (page_step 3) (page_step_pos 3)) as Hd.
    set (i := (vs - D) / page_step 3) in *. change (page_step 3) with (2 ^ 39) in *. cbn [Z.add].
    unfold Canonical. rewrite Z.mod_small by lia. unfold D, half_base in *. case_decide.
    + destruct (Z.ltb_spec (i * 2 ^ 39) (2 ^ 47)); [| lia]. apply u64_small. lia.
    + destruct (Z.ltb_spec (i * 2 ^ 39) (2 ^ 47)); [lia |]. rewrite u64_small by lia. lia.
  - change (Canonical (u64 (0 + page_step 3 * 512 - 1))) with (2 ^ 64 - 1). change (page_step 3) with (2 ^ 39). lia.
  - intros j e' s' Hj H1 H2 HE'. specialize (Hcan j Hj H1 H2).
    replace (D + (j + 1) * page_step 3) with (D + j * page_step 3 + page_step 3) in * by lia.
    assert (page_step 3 | D + j * page_step 3) as Hdiv.
    { apply Z.divide_add_r; [| by apply Z.divide_factor_r]. etrans; [| exact HDd]. by apply Z.divide_factor_l. }
    assert (0 <= D + j * page_step 3) by (destruct Hcan; lia).
    apply entry_good; [lia | done | done | lia | lia | done | done |].
    intros _ Hlt _. apply level_good; [lia | | done | done]. split_and!; [lia | done | done | lia | done | done].
Qed.
End Traversal.

(** ** The record of a traversal *)

Section Record.
Context {St : Type}.
Context (read : Z -> St -> Z) (found : Z -> Z -> nat -> St -> outcome St) (empty : Z -> St -> outcome (bool * St)).

(** The callbacks, recording the calls of [found]. *)
Definition read_log (a : Z) (x : St * list (Z * nat)) : Z := read a x.1.
Definition found_log (e b : Z) (n : nat) (x : St * list (Z * nat)) : outcome (St * list (Z * nat)) :=
  s ← found e b n x.1; Ok (s, x.2 ++ [(b, n)]).
Definition empty_log (e : Z) (x : St * list (Z * nat)) : outcome (bool * (St * list (Z * nat))) :=
  '(b, s) ← empty e x.1; Ok (b, (s, x.2)).

Lemma traversal_tiles vs ve e s :
  (forall e s b s', empty e s = Ok (b, s') -> b = true) ->
  0 <= vs < ve -> ve <= 2 ^ 64 - 2 ^ 21 -> (page_step 0 | vs) -> (page_step 0 | ve) ->
  canonical vs -> canonical (ve - 1) -> (vs < 2 ^ 47 <-> ve <= 2 ^ 47) ->
  match TraversePageTable read_log found_log empty_log 4 e vs ve 0 (s, []) with
  | Ok (_, l) => tiles vs ve vs l ve
  | Fail f => (exists e s, empty e s = Fail f) \/ (exists e b n s, found e b n s = Fail f)
  end.
Proof.
  intros Hempty H0 Hve H1 H2 Hc1 Hc2 Hhalf.
  set (bad := fun f => (exists e s, empty e s = Fail f) \/ (exists e b n s, found e b n s = Fail f)).
  assert (good (fun lo (x : St * list (Z * nat)) => tiles vs ve vs x.2 lo) (fun _ _ => True) bad vs ve (s, [])
    (TraversePageTable read_log found_log empty_log 4 e vs ve 0 (s, []))) as Hg.
  { apply (traversal_good read_log found_log empty_log vs ve H0 Hve H1 H2 _ (fun _ _ _ _ => True)); try done.
    - intros e' b n x Hn Hb _ _ _ Hsm _ HP. unfold found_log. destruct (found e' b n x.1) eqn:Ef; cbn [mbind outcome_bind snd].
      + split; [| done]. eapply tiles_app; [exact HP |]. cbn [tiles]. by split_and!.
      + right. by exists e', b, n, x.1.
    - intros e' b n x _ _ _ HP. unfold empty_log. destruct (empty e' x.1) as [[go s']|f] eqn:Ee; cbn [mbind outcome_bind].
      + by apply Hempty in Ee.
      + left. by exists e', x.1. }
  specialize (Hg eq_refl). destruct (TraversePageTable _ _ _ _ _ _ _ _ _) as [[s' l]|f]; [by destruct Hg | done].
Qed.
End Record.

(** Recording the calls does not change the run. *)
Section Erase.
Context {St : Type}.
Context (read : Z -> St -> Z) (found : Z -> Z -> nat -> St -> outcome St) (empty : Z -> St -> outcome (bool * St)).

Lemma loop_erase (body : Z -> Z -> St -> outcome St) body' step n : forall idx b (x : St * list (Z * nat)),
  (forall i c y, fst <$> body' i c y = body i c y.1) ->
  fst <$> traverse_loop body' step n idx b x = traverse_loop body step n idx b x.1.
Proof.
  induction n as [|n IH]; intros idx b x Hb; [done |]. cbn [traverse_loop].
  rewrite <- Hb. destruct (body' idx b x) as [y|f]; [| done]. cbn. by apply IH.
Qed.

Lemma traversal_erase vs ve n : forall e B (x : St * list (Z * nat)),
  fst <$> TraversePageTable (read_log read) (found_log found) (empty_log empty) n e vs ve B x =
  TraversePageTable read found empty n e vs ve B x.1.
Proof.
  induction n as [|n IH]; intros e B x; [done |]. cbn [TraversePageTable].
  change (read_log read e x) with (read e x.1).
  assert (forall pt y i c, fst <$> (if (n <? kNumPageSizes)%nat && (vs <=? c) && (u64 (c + page_step n) <=? ve)
      then found_log found (pt + 8 * i) c n y
      else TraversePageTable (read_log read) (found_log found) (empty_log empty) n (pt + 8 * i) vs ve c y) =
    (if (n <? kNumPageSizes)%nat && (vs <=? c) && (u64 (c + page_step n) <=? ve)
      then found (pt + 8 * i) c n y.1 else TraversePageTable read found empty n (pt + 8 * i) vs ve c y.1)) as Hbody.
  { intros pt y i c. destruct (_ && _ && _); [| apply IH]. unfold found_log. by destruct (found _ _ _ _). }
  destruct (Pte.Present (read e x.1)).
  - rewrite !bind_Ok. cbn [negb]. by apply loop_erase.
  - assert (empty_log empty e x = ('(b, s) ← empty e x.1; Ok (b, (s, x.2)))) as -> by done. destruct (empty e x.1) as [[b s]|f]; cbn [mbind outcome_bind]; [| reflexivity].
    destruct b; cbn [negb]; [by apply loop_erase | reflexivity].
Qed.
End Erase.

Lemma traversal_spec {St} (read : Z -> St -> Z) found empty vs ve e s :
  (forall e s b s', empty e s = Ok (b, s') -> b = true) ->
  0 <= vs < ve -> ve <= 2 ^ 64 - 2 ^ 21 -> (kPageSize | vs) -> (kPageSize | ve) ->
  (ve <= 2 ^ 47 \/ 2 ^ 64 - 2 ^ 47 <= vs) ->
  match TraversePageTable read found empty 4 e vs ve 0 s with
  | Ok s' => exists l, tiles vs ve vs l ve /\
      TraversePageTable (read_log read) (found_log found) (empty_log empty) 4 e vs ve 0 (s, []) = Ok (s', l)
  | Fail f => (exists e s, empty e s = Fail f) \/ (exists e b n s, found e b n s = Fail f)
  end.
Proof.
  intros Hempty H0 Hve H1 H2 Hhalf.
  pose proof (traversal_erase read found empty vs ve 4 e 0 (s, [])) as He.
  pose proof (traversal_tiles read found empty vs ve e s Hempty H0 Hve H1 H2) as Hg. cbn [fst snd] in He.
  destruct (TraversePageTable (read_log read) _ _ 4 e vs ve 0 (s, [])) as [[s' l]|f];
    cbn [fmap outcome_fmap fst] in He; rewrite <- He.
  - exists l. split; [| done]. apply Hg; unfold canonical; lia.
  - apply Hg; unfold canonical; lia.
Qed.

(** C35. A traversal of a page-aligned range in one half of the address space
    (up to its last large page) calls [found] on pages that follow each other
    from the first address of the range to the last, each aligned to its size,
    with a small page only where a large one does not fit; it fails only when a
    callback fails, and never descends below the last level. *)
Theorem traversal_covers {St} (read : Z -> St -> Z) found empty vs ve e s :
  (forall e s b s', empty e s = Ok (b, s') -> b = true) ->
  0 <= vs < ve -> ve <= 2 ^ 64 - 2 ^ 21 -> (kPageSize | vs) -> (kPageSize | ve) ->
  (ve <= 2 ^ 47 \/ 2 ^ 64 - 2 ^ 47 <= vs) ->
  match TraversePageTable read found empty 4 e vs ve 0 s with
  | Ok s' => exists l, tiles vs ve vs l ve /\
      TraversePageTable (read_log read) (found_log found) (empty_log empty) 4 e vs ve 0 (s, []) = Ok (s', l)
  | Fail f => (exists e s, empty e s = Fail f) \/ (exists e b n s, found e b n s = Fail f)
  end.
Proof. apply traversal_spec. Qed.

Definition isOk {A} (r : outcome A) : bool := match r with Ok _ => true | Fail _ => false end.

(** Three pages around the end of a large page, mapped from an empty tree with
    tables at 0x1000, 0x2000 and on. *)
Lemma traversal_covers_witness :
  exists m l, MapMemory (fun n => Ok (n, n + 1)) 0 0x1ff 0x5ff 0x202000 (mkMemory ∅ 1) = Ok m /\
    tiles 0x1ff000 0x401000 0x1ff000 l 0x401000.
Proof.
  pose proof (traversal_covers read_pte (found_map 0x1ff000 0x5ff000) (empty_alloc (fun n => Ok (n, n + 1)))
    0x1ff000 0x401000 0 (mkMemory ∅ 1)) as H.
  unfold MapMemory. cbv zeta. change (ToAddr 0x1ff) with 0x1ff000. change (ToAddr 0x5ff) with 0x5ff000.
  change (u64 (0x1ff000 + 0x202000)) with 0x401000.
  assert (isOk (TraversePageTable read_pte (found_map 0x1ff000 0x5ff000) (empty_alloc (fun n => Ok (n, n + 1)))
    4 0 0x1ff000 0x401000 0 (mkMemory ∅ 1)) = true) as Hok by (vm_compute; reflexivity).
  destruct (TraversePageTable _ _ _ 4 0 0x1ff000 0x401000 0 (mkMemory ∅ 1)) as [m|f]; [| discriminate Hok].
  destruct H as (l & Hl & _); [| lia | lia | by exists 511 | by exists 1025 | left; lia |].
  - intros e s b s'. unfold empty_alloc. cbn. destruct (negb _); [| done]. by intros [= <- _].
  - by exists m, l.
Defined.

(** ** What the callbacks preserve *)
Section Preserve.
Context {St : Type}.
Context (read : Z -> St -> Z) (found : Z -> Z -> nat -> St -> outcome St) (empty : Z -> St -> outcome (bool * St)).
Context (J : St -> Prop).
Context (Hfound : forall e b n s s', J s -> found e b n s = Ok s' -> J s').
Context (Hempty : forall e s b s', J s -> empty e s = Ok (b, s') -> J s').

Lemma loop_preserves (body : Z -> Z -> St -> outcome St) step n : forall idx b s s',
  (forall i c y y', J y -> body i c y = Ok y' -> J y') ->
  J s -> traverse_loop body step n idx b s = Ok s' -> J s'.
Proof.
  induction n as [|n IH]; intros idx b s s' Hb Hs; cbn [traverse_loop]; [by intros [= <-] |].
  intros (y & Hy & Hr)%bind_ok. eapply IH; [done | | done]. by eapply Hb.
Qed.

Lemma traversal_preserves vs ve n : forall e B s s',
  J s -> TraversePageTable read found empty n e vs ve B s = Ok s' -> J s'.
Proof.
  induction n as [|n IH]; intros e B s s' Hs; cbn [TraversePageTable]; [done |].
  intros ([b s1] & H1 & H2)%bind_ok.
  assert (J s1) as HJ1 by (destruct (Pte.Present _); [by injection H1 as _ <- | by eapply Hempty]).
  destruct (negb b); [by injection H2 as <- |]. eapply loop_preserves; [| exact HJ1 | exact H2].
  intros i c y y' Hy Hyy. cbv beta in Hyy. destruct (_ && _ && _); [by eapply Hfound | by eapply IH].
Qed.
End Preserve.

Lemma aligned_gap_step a lo : (page_step 1 | a) -> (page_step 1 | lo) -> lo < a -> lo + page_step 1 <= a.
Proof.
  intros [x ->] [y ->] H. pose proof (page_step_pos 1).
  assert (y < x) by (apply (Z.mul_lt_mono_pos_r (page_step 1)); lia).
  pose proof (Z.mul_le_mono_nonneg_r (y + 1) x (page_step 1)). lia.
Qed.

Lemma tiles_le vs ve l : forall lo hi, tiles vs ve lo l hi -> lo <= hi.
Proof.
  induction l as [|[b n] l IH]; intros lo hi; cbn; [lia |]. intros (-> & _ & _ & _ & Ht).
  specialize (IH _ _ Ht). pose proof (page_step_pos n). lia.
Qed.

(** When both ends are aligned to large pages, every page is large. *)
Lemma tiles_large vs ve l : forall lo,
  (page_step 1 | ve) -> vs <= lo -> (page_step 1 | lo) -> tiles vs ve lo l ve ->
  forall i, (i < length l)%nat -> l !! i = Some (lo + Z.of_nat i * page_step 1, 1%nat) /\
    lo + (Z.of_nat i + 1) * page_step 1 <= ve.
Proof.
  induction l as [|[b n] l IH]; intros lo He Hlo Hd; cbn [tiles length]; [lia |].
  intros (-> & Hn & _ & Hsm & Ht) i Hi. pose proof (tiles_le _ _ _ _ _ Ht) as Hle. pose proof (page_step_pos n) as Hp.
  assert (lo + page_step 1 <= ve) as Hgap by (apply aligned_gap_step; [done | done | lia]).
  assert (n = 1%nat) as ->.
  { destruct n as [|[|n]]; [exfalso | done | unfold kNumPageSizes in Hn; lia]. apply Hsm; [done |]. unfold in_large_page.
    assert (lo mod page_step 1 = 0) as -> by (apply Z.mod_divide; [pose proof (page_step_pos 1); lia | done]). lia. }
  destruct i as [|i]; [split; [by rewrite Z.mul_0_l, Z.add_0_r | lia] |].
  change (((lo, 1%nat) :: l) !! S i) with (l !! i).
  destruct (IH (lo + page_step 1) He ltac:(lia)) with (i := i) as [IH1 IH2];
    [apply Z.divide_add_r; [done | apply Z.divide_refl] | done | lia |].
  split; [| lia]. rewrite IH1. by replace (lo + Z.of_nat (S i) * page_step 1) with (lo + page_step 1 + Z.of_nat i * page_step 1) by lia.
Qed.

Lemma tiles_large_length vs ve l lo :
  (page_step 1 | ve) -> vs <= lo -> (page_step 1 | lo) -> tiles vs ve lo l ve ->
  lo + Z.of_nat (length l) * page_step 1 = ve.
Proof.
  revert lo. induction l as [|[b n] l IH]; intros lo He Hlo Hd Ht; [cbn in *; lia |].
  destruct (tiles_large vs ve _ lo He Hlo Hd Ht 0%nat) as [H0 _]; [cbn; lia |]. cbn in H0. injection H0 as H1 ->.
  destruct Ht as (-> & _ & _ & _ & Ht). specialize (IH (lo + page_step 1) He). cbn [length].
  rewrite <- (IH ltac:(pose proof (page_step_pos 1); lia)); [lia | | done].
  apply Z.divide_add_r; [done | apply Z.divide_refl].
Qed.
