(* ===== verification/VMemWalk.v ===== *)
(** * The walk of the page tables

    What the processor does with the page tables that src/src/native/VMem.cc
    builds: the walk of the four levels, the invariant of a tree of tables, and
    the effect of writing an entry or adding a table on every translation. *)

From S2P Require Import Prelude Pfn VMem VMemCorrect.

(** ** The walk *)

Definition word (w : gmap Z Z) (a : Z) : Z := default 0 (w !! a).

(** The physical address in an entry for a page of level [n]: bits 51 down to
    the size of the page. *)
Definition frame (e : Z) (n : nat) : Z := Z.land e (2 ^ 52 - page_step n).

(** The walk of the processor from the table of level [n] at [pt], as the
    manuals describe it: bit 0 is the present bit, bit 7 marks a large page at
    levels 1 and 2 and is reserved at level 3. *)
Fixpoint walk (n : nat) (w : gmap Z Z) (pt va : Z) : option Z :=
  let e := word w (pt + 8 * PtIndex va n) in
  if Pte.Present e then
    match n with
    | O => Some (frame e 0 + va mod page_step 0)
    | S n' =>
        if Pte.Large e then
          if (n <=? 2)%nat then Some (frame e n + va mod page_step n) else None
        else walk n' w (frame e 0) va
    end
  else None.

(** [root] is the address of the word that points to the table of level 3. *)
Definition translate (w : gmap Z Z) (root va : Z) : option Z :=
  let r := word w root in
  if Pte.Present r then walk 3 w (frame r 0) va else None.

(** ** The tables on the path of an address *)

(** The table at depth [d], whose level is [3 - d]. *)
Fixpoint tab (w : gmap Z Z) (root : Z) (d : nat) (va : Z) : option Z :=
  match d with
  | O => let r := word w root in if Pte.Present r then Some (frame r 0) else None
  | S d =>
      p ← tab w root d va;
      let e := word w (p + 8 * PtIndex va (3 - d)) in
      if Pte.Present e && negb (Pte.Large e) then Some (frame e 0) else None
  end.

(** The same path down to the table at depth [d]. *)
Definition same_path (d : nat) (va va' : Z) : Prop :=
  forall k, (k < d)%nat -> PtIndex va (3 - k) = PtIndex va' (3 - k).

#[export] Instance same_path_dec d va va' : Decision (same_path d va va').
Proof.
  destruct (decide (Forall (fun k => PtIndex va (3 - k) = PtIndex va' (3 - k)) (seq 0 d))) as [H|H]; [left | right].
  - intros k Hk. rewrite Forall_forall in H. apply H, elem_of_seq. lia.
  - intros Hs. apply H, Forall_forall. intros k Hk%elem_of_seq. apply Hs. lia.
Defined.

(** Tables are reached on one path only and do not hold the root; only entries
    of level 1 are large. *)
Record Tree (w : gmap Z Z) (root : Z) : Prop := {
  tree_path : forall d va d' va' p, (d <= 3)%nat -> (d' <= 3)%nat ->
    tab w root d va = Some p -> tab w root d' va' = Some p -> d = d' /\ same_path d va va';
  tree_root : forall d va p, (d <= 3)%nat -> tab w root d va = Some p -> ~ (p <= root < p + kPageSize);
  tree_large : forall d va p, (d <= 1)%nat -> tab w root d va = Some p ->
    Pte.Present (word w (p + 8 * PtIndex va (3 - d))) = true -> Pte.Large (word w (p + 8 * PtIndex va (3 - d))) = false
}.

(** ** Frames *)

Lemma ones_range_bit k i : 0 <= k <= 52 -> 0 <= i -> Z.testbit (2 ^ 52 - 2 ^ k) i = (k <=? i) && (i <? 52).
Proof.
  intros Hk Hi. replace (2 ^ 52 - 2 ^ k) with (Z.shiftl (Z.ones (52 - k)) k).
  - rewrite Z.shiftl_spec by lia. destruct (Z.leb_spec k i); cbn [andb].
    + rewrite Z.testbit_ones_nonneg by lia. destruct (Z.ltb_spec (i - k) (52 - k)), (Z.ltb_spec i 52); lia.
    + by rewrite Z.testbit_neg_r by lia.
  - rewrite Z.shiftl_mul_pow2, Z.ones_equiv by lia. rewrite Z.mul_pred_l, <- Z.pow_add_r by lia.
    replace (52 - k + k) with 52 by lia. done.
Qed.

Lemma frame_bit e n i : (n <= 4)%nat -> 0 <= i ->
  Z.testbit (frame e n) i = Z.testbit e i && ((12 + Z.of_nat n * 9 <=? i) && (i <? 52)).
Proof.
  intros Hn Hi. unfold frame. rewrite Z.land_spec, page_step_eq, ones_range_bit by lia. done.
Qed.

Lemma frame_range e n : (n <= 3)%nat -> 0 <= frame e n < 2 ^ 52 /\ (page_step n | frame e n).
Proof.
  intros Hn. assert (0 <= frame e n) as H0.
  { unfold frame. apply Z.land_nonneg. right. rewrite page_step_eq.
    assert (2 ^ (12 + Z.of_nat n * 9) <= 2 ^ 52) by (apply Z.pow_le_mono_r; lia). lia. }
  assert (Z.land (frame e n) (Z.ones 52) = frame e n) as Hl.
  { apply Z.bits_inj'. intros i Hi. rewrite Z.land_spec, frame_bit, Z.testbit_ones_nonneg by lia.
    destruct (i <? 52); [by rewrite !andb_true_r | by rewrite !andb_false_r]. }
  rewrite Z.land_ones in Hl by lia. pose proof (Z.mod_pos_bound (frame e n) (2 ^ 52) ltac:(lia)). split; [lia |].
  rewrite page_step_eq. apply Z.mod_divide; [pose proof (pow2_pos (12 + Z.of_nat n * 9)); lia |].
  rewrite <- Z.land_ones by lia. apply Z.bits_inj'. intros i Hi.
  rewrite Z.land_spec, frame_bit, Z.testbit_ones_nonneg, Z.bits_0 by lia.
  destruct (Z.leb_spec (12 + Z.of_nat n * 9) i), (Z.ltb_spec i (12 + Z.of_nat n * 9)); try lia; cbn;
    by rewrite ?andb_false_r, ?andb_false_l.
Qed.

Lemma Addr_frame e : Pte.Addr e false = frame e 0.
Proof.
  apply Z.bits_inj'. intros i Hi. rewrite frame_bit by lia. unfold Pte.Addr. cbn [Z.b2z].
  change (Z.shiftl 1 52 - 1) with (Z.ones 52). change (Z.shiftl 1 12 - 1) with (Z.ones 12).
  rewrite !Z.land_spec, Z.shiftl_0_l, !Z.lnot_spec, Z.bits_0, !Z.testbit_ones_nonneg by lia. change (12 + Z.of_nat 0 * 9) with 12.
  destruct (Z.testbit e i), (Z.leb_spec 12 i), (Z.ltb_spec i 12), (Z.ltb_spec i 52); cbn; lia || done.
Qed.

(** An entry that was set for an aligned page. *)
Lemma Set_frame pa n perm : (n <= 1)%nat -> 0 <= pa < 2 ^ 52 -> (page_step n | pa) ->
  frame (Pte.Set_ pa (is_large n) perm) n = pa.
Proof.
  intros Hn Hpa Hd. assert (pa mod 2 ^ (12 + Z.of_nat n * 9) = 0) as Hm
    by (rewrite <- page_step_eq; apply Z.mod_divide; [pose proof (page_step_pos n); lia | done]).
  assert (pa mod 2 ^ 12 = 0) as Hm12.
  { apply Z.mod_divide in Hd; [| pose proof (page_step_pos n); lia]. apply Z.mod_divide; [lia |].
    etrans; [| apply Z.mod_divide; [| exact Hm]; pose proof (pow2_pos (12 + Z.of_nat n * 9)); lia].
    exists (2 ^ (Z.of_nat n * 9)). rewrite <- Z.pow_add_r by lia. f_equal. lia. }
  apply Z.bits_inj'. intros i Hi. rewrite frame_bit, Set_bits by (done || lia).
  destruct (Z.leb_spec (12 + Z.of_nat n * 9) i); cbn [andb].
  - rewrite (proj2 (Z.eqb_neq i 7)), (proj2 (Z.eqb_neq i 1)), (proj2 (Z.eqb_neq i 0)) by lia. cbn [andb]. rewrite !orb_false_r.
    destruct (Z.ltb_spec i 52); [| by rewrite andb_false_r, (testbit_small pa 52) by lia].
    rewrite (proj2 (Z.eqb_neq i 63)) by lia. by rewrite andb_true_r.
  - rewrite andb_false_r. symmetry. apply (aligned_low_bits pa (12 + Z.of_nat n * 9)); [lia | done | lia].
Qed.

(** ** Entries *)

Lemma PtIndex_range va n : 0 <= PtIndex va n < 512.
Proof. rewrite PtIndex_eq. apply Z.mod_pos_bound. lia. Qed.

Lemma word_insert w a x a' : word (<[a := x]> w) a' = if decide (a' = a) then x else word w a'.
Proof. unfold word. case_decide; subst; [by rewrite lookup_insert_eq | by rewrite lookup_insert_ne]. Qed.

Lemma entry_inj p i p' i' : (kPageSize | p) -> (kPageSize | p') -> 0 <= i < 512 -> 0 <= i' < 512 ->
  p + 8 * i = p' + 8 * i' -> p = p' /\ i = i'.
Proof. change kPageSize with 4096. intros [q ->] [q' ->] Hi Hi' Heq. assert (q = q') by lia. lia. Qed.

Section Tab.
Context (w : gmap Z Z) (root : Z).

Lemma tab_aligned d va p : tab w root d va = Some p -> (kPageSize | p) /\ 0 <= p < 2 ^ 52.
Proof.
  destruct d as [|d]; cbn [tab].
  - destruct (Pte.Present _); [| done]. intros [= <-]. apply and_comm, (frame_range _ 0). lia.
  - destruct (tab w root d va) as [q|]; cbn; [| done]. case_match; [| done]. intros [= <-].
    apply and_comm, (frame_range _ 0). lia.
Qed.

Lemma same_path_le d d' va va' : (d' <= d)%nat -> same_path d va va' -> same_path d' va va'.
Proof. intros Hd Hs k Hk. apply Hs. lia. Qed.

Lemma tab_path d va va' : same_path d va va' -> tab w root d va = tab w root d va'.
Proof.
  induction d as [|d IH]; intros Hs; cbn [tab]; [done |].
  rewrite (IH (same_path_le (S d) d va va' ltac:(lia) Hs)), (Hs d) by lia. done.
Qed.

(** The walk, by the lowest table on the path. *)
Lemma translate_tab va : Tree w root ->
  translate w root va =
    match tab w root 3 va with
    | Some p => let e := word w (p + 8 * PtIndex va 0) in
        if Pte.Present e then Some (frame e 0 + va mod page_step 0) else None
    | None =>
        match tab w root 2 va with
        | Some p => let e := word w (p + 8 * PtIndex va 1) in
            if Pte.Present e && Pte.Large e then Some (frame e 1 + va mod page_step 1) else None
        | None => None
        end
    end.
Proof.
  intros HT. unfold translate. cbn [tab].
  destruct (Pte.Present (word w root)) eqn:Er; [| done]. cbn [mbind option_bind Nat.sub walk].
  set (p0 := frame (word w root) 0).
  assert (tab w root 0 va = Some p0) as H0 by (cbn [tab]; by rewrite Er).
  destruct (Pte.Present (word w (p0 + 8 * PtIndex va 3))) eqn:E3; [| done].
  pose proof (tree_large _ _ HT 0 va p0 ltac:(lia) H0 E3) as L3. cbn [Nat.sub] in L3. rewrite L3. cbn [negb andb mbind option_bind].
  set (p1 := frame (word w (p0 + 8 * PtIndex va 3)) 0).
  assert (tab w root 1 va = Some p1) as H1.
  { change (tab w root 1 va) with (tab w root 0 va ≫= fun p => let e := word w (p + 8 * PtIndex va (3 - 0)) in
      if Pte.Present e && negb (Pte.Large e) then Some (frame e 0) else None). rewrite H0. cbn [mbind option_bind Nat.sub].
    by rewrite E3, L3. }
  destruct (Pte.Present (word w (p1 + 8 * PtIndex va 2))) eqn:E2; [| done].
  pose proof (tree_large _ _ HT 1 va p1 ltac:(lia) H1 E2) as L2. cbn [Nat.sub] in L2. rewrite L2. cbn [negb andb mbind option_bind].
  set (p2 := frame (word w (p1 + 8 * PtIndex va 2)) 0).
  destruct (Pte.Present (word w (p2 + 8 * PtIndex va 1))) eqn:E1; cbn [andb]; [| done].
  destruct (Pte.Large (word w (p2 + 8 * PtIndex va 1))); done.
Qed.
End Tab.

(** ** Writing an entry for a page *)

Section Leaf.
Context (w : gmap Z Z) (root : Z) (HT : Tree w root).
Context (d : nat) (b p x : Z) (Hd : d = 2%nat \/ d = 3%nat) (Hp : tab w root d b = Some p).
Let a := p + 8 * PtIndex b (3 - d).
Context (Hnp : Pte.Present (word w a) = false) (Hx : d = 3%nat \/ Pte.Large x = true).
Let w' := <[a := x]> w.

Lemma leaf_entry d' va q : (d' <= 3)%nat -> tab w root d' va = Some q ->
  q + 8 * PtIndex va (3 - d') = a -> d' = d /\ q = p /\ same_path (S d) va b.
Proof.
  intros Hd' Hq Ha. pose proof (PtIndex_range va (3 - d')). pose proof (PtIndex_range b (3 - d)).
  destruct (tab_aligned _ _ _ _ _ Hq) as [Hqa _], (tab_aligned _ _ _ _ _ Hp) as [Hpa _].
  destruct (entry_inj q (PtIndex va (3 - d')) p (PtIndex b (3 - d))) as [-> Hi]; [done.. |].
  destruct (tree_path _ _ HT d' va d b p) as [-> Hs]; [lia | lia | done | done |]. split_and!; [done | done |].
  intros k Hk. destruct (decide (k = d)) as [->|]; [done |]. apply Hs. lia.
Qed.

Lemma leaf_root : a <> root.
Proof.
  intros Ha. destruct Hd as [-> | ->]; eapply (tree_root _ _ HT); [| exact Hp | | | exact Hp |]; try lia;
    subst a; rewrite <- Ha; change kPageSize with 4096; pose proof (PtIndex_range b 1); pose proof (PtIndex_range b 0); cbn; lia.
Qed.

Lemma leaf_tab d' va : (d' <= 3)%nat -> tab w' root d' va = tab w root d' va.
Proof.
  induction d' as [|d' IH]; intros Hd'; cbn [tab]; unfold w'; rewrite ?word_insert.
  - by rewrite decide_False by (apply not_eq_sym, leaf_root).
  - fold w'. rewrite IH by lia. destruct (tab w root d' va) as [q|] eqn:Hq; [| done]. cbn [mbind option_bind].
    unfold w'. rewrite word_insert. case_decide as Ha; [| done].
    destruct (leaf_entry d' va q ltac:(lia) Hq Ha) as (-> & -> & _). rewrite Ha, Hnp. cbn [andb].
    destruct Hx as [-> | ->]; [lia |]. by rewrite andb_false_r.
Qed.

Lemma leaf_Tree : Tree w' root.
Proof.
  split.
  - intros d1 va1 d2 va2 q H1 H2. rewrite !leaf_tab by done. by apply (tree_path _ _ HT).
  - intros d1 va1 q H1. rewrite leaf_tab by done. by apply (tree_root _ _ HT).
  - intros d1 va1 q H1. rewrite leaf_tab by lia. intros Hq. unfold w'. rewrite !word_insert.
    case_decide as Ha; [| by apply (tree_large _ _ HT)].
    destruct (leaf_entry d1 va1 q ltac:(lia) Hq Ha) as (-> & _ & _). lia.
Qed.

Lemma leaf_other va : ~ same_path (S d) va b -> translate w' root va = translate w root va.
Proof.
  intros Hs. rewrite !translate_tab by (done || apply leaf_Tree). rewrite !leaf_tab by lia.
  assert (forall d' q, (d' <= 3)%nat -> tab w root d' va = Some q ->
    word w' (q + 8 * PtIndex va (3 - d')) = word w (q + 8 * PtIndex va (3 - d'))) as Hw.
  { intros d' q Hd' Hq. unfold w'. rewrite word_insert. case_decide as Ha; [| done].
    by destruct (leaf_entry d' va q Hd' Hq Ha) as (_ & _ & ?). }
  pose proof (Hw 3%nat) as H3. pose proof (Hw 2%nat) as H2. cbn [Nat.sub] in H2, H3.
  destruct (tab w root 3 va) as [q|]; [by rewrite (H3 q) by (done || lia) |].
  destruct (tab w root 2 va) as [q|]; [by rewrite (H2 q) by (done || lia) | done].
Qed.

Lemma leaf_same va : same_path (S d) va b -> Pte.Present x = true ->
  translate w' root va = Some (frame x (3 - d) + va mod page_step (3 - d)).
Proof.
  intros Hs Hpx. rewrite translate_tab by apply leaf_Tree. rewrite !leaf_tab by lia.
  pose proof (tab_path w root d va b (same_path_le (S d) d va b ltac:(lia) Hs)) as Ht. rewrite Hp in Ht.
  assert (word w' (p + 8 * PtIndex va (3 - d)) = x) as Hw.
  { unfold w', a. by rewrite (Hs d ltac:(lia)), word_insert, decide_True. }
  assert (d = 2%nat -> tab w root 3 va = None) as H3.
  { intros ->. cbn [tab] in Ht |- *. rewrite Ht. cbn [mbind option_bind].
    rewrite (Hs 2%nat ltac:(lia)). fold a. by rewrite Hnp. }
  destruct Hd as [Hd' | Hd']; subst d; cbn [Nat.sub] in *; rewrite Ht.
  - rewrite H3, Hw, Hpx by done. destruct Hx as [? | ->]; [lia | done].
  - by rewrite Hw, Hpx.
Qed.
End Leaf.

(** ** Adding a table *)

Lemma clear_words_in n : forall q w i, 0 <= i < Z.of_nat n -> word (clear_words n q w) (q + 8 * i) = 0.
Proof.
  induction n as [|n IH]; intros q w i Hi; [lia |]. cbn [clear_words].
  destruct (decide (i = 0)) as [->|Hi0].
  - clear IH. assert (forall m r v, q < r -> word (clear_words m r v) q = word v q) as Hout.
    { induction m as [|m IH]; intros r v Hr; [done |]. cbn [clear_words]. rewrite IH, word_insert, decide_False by lia. done. }
    replace (q + 8 * 0) with q by lia. by rewrite Hout, word_insert, decide_True by lia.
  - replace (q + 8 * i) with (q + 8 + 8 * (i - 1)) by lia. apply IH. lia.
Qed.

Lemma clear_words_out n : forall q w a, a < q \/ q + 8 * Z.of_nat n <= a -> word (clear_words n q w) a = word w a.
Proof.
  induction n as [|n IH]; intros q w a Ha; [done |]. cbn [clear_words].
  rewrite IH, word_insert, decide_False by lia. done.
Qed.

Section Grow.
Context (w : gmap Z Z) (root : Z) (HT : Tree w root).
Context (D : nat) (b a q x : Z) (HD : (D <= 3)%nat).

(** [a] is the entry that will point to the table of depth [D] for [b]. *)
Definition slot (D : nat) (b a : Z) : Prop :=
  match D with
  | O => a = root
  | S d => exists p, tab w root d b = Some p /\ a = p + 8 * PtIndex b (3 - d)
  end.
Context (Hslot : slot D b a) (Hnp : Pte.Present (word w a) = false).
Context (Hqa : (kPageSize | q)) (Hqf : forall d va, (d <= 3)%nat -> tab w root d va <> Some q).
Context (Hqr : ~ (q <= root < q + kPageSize)).
Context (Hxp : Pte.Present x = true) (Hxl : Pte.Large x = false) (Hxf : frame x 0 = q).
Let w' := <[a := x]> (clear_words 512 q w).

Lemma slot_none va : same_path D va b -> tab w root D va = None.
Proof.
  intros Hs. rewrite (tab_path w root D va b Hs). destruct D as [|d]; cbn [slot tab] in *.
  - by rewrite <- Hslot, Hnp.
  - destruct Hslot as (p & Hp & Ha). rewrite Hp. cbn [mbind option_bind]. by rewrite <- Ha, Hnp.
Qed.

Lemma entry_off_page d va p : (d <= 3)%nat -> tab w root d va = Some p ->
  p + 8 * PtIndex va (3 - d) < q \/ q + kPageSize <= p + 8 * PtIndex va (3 - d).
Proof using Hqa Hqf.
  intros Hd Hp. destruct (tab_aligned _ _ _ _ _ Hp) as [Ha _]. pose proof (PtIndex_range va (3 - d)) as Hi.
  assert (p <> q) as Hne by (intros ->; by apply (Hqf d va)). clear -Ha Hqa Hi Hne.
  change kPageSize with 4096 in *. destruct Ha as [i ->], Hqa as [j ->]. lia.
Qed.

Lemma slot_off_page : a < q \/ q + kPageSize <= a.
Proof.
  pose proof Hslot as Hsl. pose proof HD as HD'. destruct D as [|d]; cbn [slot] in Hsl; [lia |].
  destruct Hsl as (p & Hp & Ha). rewrite Ha. apply entry_off_page; [lia | done].
Qed.

Lemma word_grown a' : a' < q \/ q + kPageSize <= a' -> word w' a' = if decide (a' = a) then x else word w a'.
Proof. intros Ho. unfold w'. rewrite word_insert. case_decide; [done |]. by apply clear_words_out. Qed.

Lemma word_fresh va n : word w' (q + 8 * PtIndex va n) = 0.
Proof.
  pose proof (PtIndex_range va n). pose proof slot_off_page as Ho. change kPageSize with 4096 in *.
  unfold w'. rewrite word_insert, decide_False by lia. by apply clear_words_in.
Qed.

Lemma entry_is_slot d va p : (d <= 3)%nat -> tab w root d va = Some p ->
  p + 8 * PtIndex va (3 - d) = a <-> S d = D /\ same_path D va b.
Proof.
  intros Hd Hp. destruct (tab_aligned _ _ _ _ _ Hp) as [Hpa _]. pose proof (PtIndex_range va (3 - d)).
  pose proof Hslot as Hsl. pose proof HD as HD'. destruct D as [|d0]; cbn [slot] in Hsl.
  - split; [| lia]. intros Ha. exfalso. apply (tree_root _ _ HT d va p Hd Hp). change kPageSize with 4096 in *. lia.
  - destruct Hsl as (p0 & Hp0 & Ha). destruct (tab_aligned _ _ _ _ _ Hp0) as [Hpa0 _]. pose proof (PtIndex_range b (3 - d0)). split.
    + intros He. rewrite Ha in He. apply entry_inj in He as [-> Hi]; [| done..].
      destruct (tree_path _ _ HT d va d0 b p0) as [-> Hs]; [lia | lia | done | done |]. split; [done |].
      intros k Hk. destruct (decide (k = d0)) as [->|]; [done |]. apply Hs. lia.
    + intros [[= ->] Hs]. rewrite (tab_path w root d0 va b) in Hp by (by apply (same_path_le (S d0)); [lia |]).
      rewrite (Hs d0) by lia. congruence.
Qed.

Lemma grow_tab d va : (d <= 3)%nat ->
  tab w' root d va = if decide (d = D /\ same_path D va b) then Some q else tab w root d va.
Proof.
  induction d as [|d IH]; intros Hd; cbn [tab].
  - rewrite word_grown by lia. pose proof Hslot as Hsl. destruct (decide (D = 0%nat)) as [H0|H0].
    + rewrite H0 in Hsl. rewrite decide_True, Hxp, Hxf by done.
      by rewrite decide_True by (split; [done | rewrite H0; intros k Hk; lia]).
    + assert (exists d0, D = S d0) as [d0 ED] by (exists (pred D); lia). rewrite ED in Hsl.
      rewrite (decide_False (P := _ /\ _)) by (intros [? _]; lia). rewrite decide_False; [done |].
      intros Hr. destruct Hsl as (p & Hp & Ha). apply (tree_root _ _ HT d0 b p); [lia | done |].
      pose proof (PtIndex_range b (3 - d0)). change kPageSize with 4096. lia.
  - rewrite IH by lia. destruct (decide (d = D /\ same_path D va b)) as [[HdD Hs]|Hn].
    + cbn [mbind option_bind]. rewrite word_fresh. cbn [Pte.Present andb]. change (Pte.Present 0) with false. cbn [andb].
      rewrite decide_False by (intros [? _]; lia). by rewrite HdD, slot_none.
    + destruct (tab w root d va) as [p|] eqn:Hp; cbn [mbind option_bind].
      * rewrite word_grown by (by apply entry_off_page; [lia |]).
        pose proof (entry_is_slot d va p ltac:(lia) Hp) as He. case_decide as Ha.
        -- rewrite Hxp, Hxl, Hxf. cbn [negb andb]. by rewrite decide_True by (by apply He).
        -- by rewrite decide_False by (by rewrite <- He).
      * rewrite decide_False; [done |]. intros [HS Hs]. pose proof Hslot as Hsl. rewrite <- HS in Hsl, Hs. destruct Hsl as (p & Hp' & _).
        rewrite (tab_path w root d va b) in Hp by (by apply (same_path_le (S d)); [lia |]). congruence.
Qed.

Lemma grow_Tree : Tree w' root.
Proof.
  split.
  - intros d1 va1 d2 va2 p H1 H2. rewrite !grow_tab by done.
    case_decide as C1; case_decide as C2; intros E1 E2.
    + destruct C1 as [-> P1], C2 as [-> P2]. split; [done |]. intros k Hk. by rewrite (P1 k Hk), (P2 k Hk).
    + injection E1 as <-. by apply Hqf in E2.
    + injection E2 as <-. by apply Hqf in E1.
    + by apply (tree_path _ _ HT _ _ _ _ p).
  - intros d1 va1 p H1. rewrite grow_tab by done. case_decide; [by intros [= <-] | by apply (tree_root _ _ HT)].
  - intros d1 va1 p H1. rewrite grow_tab by lia. case_decide as Hc.
    + intros [= <-]. by rewrite word_fresh.
    + intros Hp. rewrite word_grown by (by apply entry_off_page; [lia |]). case_decide; [done |]. by apply (tree_large _ _ HT).
Qed.

Lemma grow_translate va : translate w' root va = translate w root va.
Proof.
  rewrite !translate_tab by (done || apply grow_Tree). rewrite !grow_tab by lia.
  assert (forall d p, (d <= 3)%nat -> tab w root d va = Some p ->
    ~ (S d = D /\ same_path D va b) -> word w' (p + 8 * PtIndex va (3 - d)) = word w (p + 8 * PtIndex va (3 - d))) as Hw.
  { intros d p Hd Hp Hn. rewrite word_grown by (by apply entry_off_page). rewrite decide_False; [done |].
    by rewrite entry_is_slot. }
  pose proof (Hw 3%nat) as H3. pose proof (Hw 2%nat) as H2. cbn [Nat.sub] in H2, H3.
  destruct (decide (3%nat = D /\ same_path D va b)) as [[HD3 Hs]|Hn3].
  - rewrite word_fresh. change (Pte.Present 0) with false. cbv zeta iota. pose proof (slot_none va Hs) as Hno.
    pose proof Hslot as Hsl. rewrite <- HD3 in Hno, Hs, Hsl. rewrite Hno. destruct Hsl as (p & Hp & Ha). rewrite (tab_path w root 2 va b) by (by apply (same_path_le 3); [lia |]). rewrite Hp.
    pose proof (Hs 2%nat ltac:(lia)) as Hi. cbn [Nat.sub] in Hi, Ha. by rewrite Hi, <- Ha, Hnp.
  - destruct (tab w root 3 va) as [p|]; [by rewrite (H3 p) by (done || lia) |].
    destruct (decide (2%nat = D /\ same_path D va b)) as [[HD2 Hs]|Hn2].
    + rewrite word_fresh. change (Pte.Present 0) with false. cbv zeta iota. by rewrite HD2, slot_none.
    + destruct (tab w root 2 va) as [p|]; [| done]. rewrite (H2 p) by (done || lia). done.
Qed.
End Grow.

(** ** Paths and addresses *)

Definition va48 (va : Z) : Z := va mod 2 ^ 48.

Lemma PtIndex_va48 va n : (n <= 3)%nat -> PtIndex va n = va48 va / page_step n mod 512.
Proof.
  intros Hn. rewrite PtIndex_eq. unfold va48. pose proof (page_step_pos n) as Hp.
  rewrite (Z.div_mod va (2 ^ 48)) at 1 by lia.
  assert (exists k, 2 ^ 48 = k * 512 * page_step n) as [k Hk].
  { exists (2 ^ (27 - Z.of_nat n * 9)). rewrite page_step_eq. change 512 with (2 ^ 9). rewrite <- !Z.pow_add_r by lia. f_equal. lia. }
  replace (2 ^ 48 * (va / 2 ^ 48) + va mod 2 ^ 48) with (va mod 2 ^ 48 + (va / 2 ^ 48) * (k * 512 * page_step n))
    by (rewrite <- Hk; lia).
  rewrite !Z.mul_assoc, Z.div_add, Z.mod_add by lia. done.
Qed.

Lemma same_path_div m : forall va b, (m <= 4)%nat ->
  same_path m va b <-> va48 va / page_step (4 - m) = va48 b / page_step (4 - m).
Proof.
  induction m as [|m IH]; intros va b Hm.
  - change (page_step (4 - 0)) with (2 ^ 48). unfold va48.
    rewrite !Z.div_small by (apply Z.mod_pos_bound; lia). split; [done |]. intros _ k Hk. lia.
  - assert (same_path (S m) va b <-> same_path m va b /\ PtIndex va (3 - m) = PtIndex b (3 - m)) as ->.
    { split; [intros Hs; split; [intros k Hk; apply Hs; lia | apply Hs; lia] |].
      intros [Hs He] k Hk. destruct (decide (k = m)) as [->|]; [done | apply Hs; lia]. }
    rewrite IH, !PtIndex_va48 by lia. replace (4 - m)%nat with (S (3 - m)) by lia. replace (4 - S m)%nat with (3 - m)%nat by lia.
    rewrite page_step_S. pose proof (page_step_pos (3 - m)).
    rewrite <- !Z.div_div by lia. set (x := va48 va / _). set (y := va48 b / _).
    pose proof (Z.div_mod x 512). pose proof (Z.div_mod y 512). split; [lia | by intros ->].
Qed.

Lemma va48_canonical x : canonical x -> x = if decide (va48 x < 2 ^ 47) then va48 x else va48 x + 2 ^ 64 - 2 ^ 48.
Proof.
  intros Hc. rewrite <- (Canonical_id x Hc) at 1. unfold Canonical. fold (va48 x).
  destruct (Z.ltb_spec (va48 x) (2 ^ 47)); case_decide; lia.
Qed.

(** For canonical addresses, to be on the path to an entry is to be in its block. *)
Lemma same_path_block n va b : (n <= 3)%nat -> (page_step n | b) -> canonical b -> canonical va ->
  same_path (4 - n) va b <-> b <= va < b + page_step n.
Proof.
  intros Hn Hb Hcb Hcv. rewrite same_path_div by lia. replace (4 - (4 - n))%nat with n by lia.
  pose proof (page_step_pos n) as Hp. pose proof (va48_canonical b Hcb) as Eb. pose proof (va48_canonical va Hcv) as Ev.
  assert (page_step n | 2 ^ 47) as [h Hh].
  { rewrite page_step_eq. exists (2 ^ (47 - (12 + Z.of_nat n * 9))). rewrite <- Z.pow_add_r by lia. f_equal. lia. }
  assert (0 <= va48 b < 2 ^ 48 /\ 0 <= va48 va < 2 ^ 48) as [Rb Rv] by (unfold va48; split; apply Z.mod_pos_bound; lia).
  assert (page_step n | va48 b) as [c Hc].
  { unfold va48. rewrite Z.mod_eq by lia. apply Z.divide_sub_r; [done |]. apply Z.divide_mul_l. exists (2 * h). lia. }
  assert (va48 va / page_step n = va48 b / page_step n <-> va48 b <= va48 va < va48 b + page_step n) as ->.
  { rewrite Hc, Z.div_mul by lia. split; [intros Hd | intros Hr].
    - pose proof (div_bounds (va48 va) (page_step n) Hp). nia.
    - symmetry. apply (Z.div_unique _ _ _ (va48 va - c * page_step n)); lia. }
  assert (va48 b < 2 ^ 47 -> va48 b + page_step n <= 2 ^ 47) as Hh1.
  { intros Hlt. assert (c < h) by (apply (Z.mul_lt_mono_pos_r (page_step n)); lia).
    pose proof (Z.mul_le_mono_nonneg_r (c + 1) h (page_step n)). lia. }
  repeat case_decide; lia.
Qed.

(** ** Memory outside the tables *)

Section Frame.
Context (w w' : gmap Z Z) (root : Z) (HT : Tree w root).
Context (Hroot : word w' root = word w root).
Context (Hent : forall d va p, (d <= 3)%nat -> tab w root d va = Some p ->
  word w' (p + 8 * PtIndex va (3 - d)) = word w (p + 8 * PtIndex va (3 - d))).

Lemma frame_tab d va : (d <= 3)%nat -> tab w' root d va = tab w root d va.
Proof.
  induction d as [|d IH]; intros Hd; cbn [tab]; [by rewrite Hroot |].
  rewrite IH by lia. destruct (tab w root d va) as [p|] eqn:Hp; [| done]. cbn [mbind option_bind]. rewrite Hent; [done | lia | done].
Qed.

Lemma frame_Tree : Tree w' root.
Proof.
  split.
  - intros d1 va1 d2 va2 p H1 H2. rewrite !frame_tab by done. by apply (tree_path _ _ HT).
  - intros d1 va1 p H1. rewrite frame_tab by done. by apply (tree_root _ _ HT).
  - intros d1 va1 p H1. rewrite frame_tab by lia. intros Hp. rewrite Hent by (done || lia). by apply (tree_large _ _ HT).
Qed.

Lemma frame_translate va : translate w' root va = translate w root va.
Proof.
  rewrite !translate_tab by (done || apply frame_Tree). rewrite !frame_tab by lia.
  pose proof (Hent 3%nat va) as H3. pose proof (Hent 2%nat va) as H2. cbn [Nat.sub] in H2, H3.
  destruct (tab w root 3 va) as [p|]; [by rewrite (H3 p) by (done || lia) |].
  destruct (tab w root 2 va) as [p|]; [by rewrite (H2 p) by (done || lia) | done].
Qed.
End Frame.
