(* ===== verification/VMemMap.v ===== *)
(** * Mapping memory

    The functions of src/src/native/VMem.cc map what they are asked to map:
    after [MapMemory] or [EarlyMapMemory] the processor translates every address
    of the range to its frame, and every other address as before.  The pages for
    the tables come from any allocator that hands out free pages. *)

From S2P Require Import Prelude Pfn VMem VMemCorrect VMemWalk.

(** What is needed of the allocator of page table pages. *)
Class FrameSource {A : Type} (alloc_page : A -> outcome (Z * A)) := {
  fs_inv : A -> Prop;
  fs_free : A -> Z -> Prop;
  fs_range : forall a p, fs_inv a -> fs_free a p -> 0 <= p < 2 ^ 40;
  fs_alloc : forall a p a', fs_inv a -> alloc_page a = Ok (p, a') -> p <> PfnNone ->
    fs_inv a' /\ fs_free a p /\ forall q, fs_free a' q <-> fs_free a q /\ q <> p
}.

Section Map.
Context {A : Type} (alloc_page : A -> outcome (Z * A)) `{!FrameSource alloc_page}.
Context (root : Z).
Implicit Types m : Memory A.

Local Notation tr m := (translate (words m) root).
Local Notation tb m := (tab (words m) root).

(** Page tables that form a tree, none of whose tables is free. *)
Definition pt_ok m : Prop :=
  fs_inv (allocator m) /\ Tree (words m) root /\
  forall p, fs_free (allocator m) p ->
    (forall d va, (d <= 3)%nat -> tb m d va <> Some (ToAddr p)) /\ ~ (ToAddr p <= root < ToAddr p + kPageSize).

Lemma ToAddr_page p : 0 <= p < 2 ^ 40 -> ToAddr p = p * kPageSize /\ (kPageSize | ToAddr p) /\ 0 <= ToAddr p < 2 ^ 52.
Proof.
  intros Hp. rewrite ToAddr_eq by lia. change kPageSize with 4096. split_and!; [done | by exists p | lia | lia].
Qed.

Lemma same_path_add n b i : (n <= 3)%nat -> (page_step (S n) | b) -> 0 <= i < page_step (S n) -> same_path (3 - n) (b + i) b.
Proof.
  intros Hn Hb Hi. rewrite same_path_div by lia. replace (4 - (3 - n))%nat with (S n) by lia.
  pose proof (page_step_pos (S n)) as Hp. unfold va48.
  assert (page_step (S n) | 2 ^ 48) as [h Hh].
  { rewrite page_step_eq. exists (2 ^ (48 - (12 + Z.of_nat (S n) * 9))). rewrite <- Z.pow_add_r by lia. f_equal. lia. }
  assert (page_step (S n) | b mod 2 ^ 48) as [c Hc].
  { rewrite Z.mod_eq by lia. apply Z.divide_sub_r; [done |]. apply Z.divide_mul_l. by exists h. }
  pose proof (Z.mod_pos_bound b (2 ^ 48) ltac:(lia)).
  assert (c < h) by (apply (Z.mul_lt_mono_pos_r (page_step (S n))); lia).
  pose proof (Z.mul_le_mono_nonneg_r (c + 1) h (page_step (S n))).
  rewrite Z.add_mod, (Z.mod_small i) by lia. rewrite (Z.mod_small (b mod 2 ^ 48 + i)) by lia.
  rewrite Hc, Z.div_mul by lia. symmetry. apply (Z.div_unique _ _ _ i); lia.
Qed.

Lemma PtIndex_add n b j : (n <= 3)%nat -> (page_step (S n) | b) -> 0 <= j < 512 -> PtIndex (b + j * page_step n) n = j.
Proof.
  intros Hn [q ->] Hj. rewrite PtIndex_eq, page_step_S. pose proof (page_step_pos n).
  replace (q * (page_step n * 512) + j * page_step n) with ((j + q * 512) * page_step n) by lia.
  rewrite Z.div_mul, Z.mod_add, Z.mod_small by lia. done.
Qed.

(** ** A mapping in progress *)

Section Range.
Context (vs ve pa0 : Z) (Hvs : 0 <= vs < ve) (Hve : ve <= 2 ^ 64 - 2 ^ 21).
Context (Hvs4 : (page_step 0 | vs)) (Hve4 : (page_step 0 | ve)) (Hhalf : ve <= 2 ^ 47 \/ 2 ^ 64 - 2 ^ 47 <= vs).
Context (Hpa : 0 <= pa0) (Hpae : pa0 + (ve - vs) <= 2 ^ 52) (Hpa4 : (page_step 0 | pa0)).
Context (Hlarge : forall b, in_large_page vs ve b -> (page_step 1 | pa0 - vs)).
Context (m0 : Memory A).
Context (Hun : forall va, vs <= va < ve -> tr m0 va = None).
Context (Hnt : forall b, in_large_page vs ve b -> tb m0 3 b = None).

(** The large page around [b] meets the range. *)
Definition meets (b : Z) : Prop :=
  b - b mod page_step 1 < ve /\ vs < b - b mod page_step 1 + page_step 1.

(** [a] is in no table. *)
Definition off_tables (a : Z) m : Prop :=
  forall d va p, (d <= 3)%nat -> tb m d va = Some p -> ~ (p <= a < p + kPageSize).

Record upto (lo : Z) m : Prop := {
  up_ok : pt_ok m;
  up_tr : forall va, canonical va -> tr m va = if decide (vs <= va < lo) then Some (pa0 + (va - vs)) else tr m0 va;
  up_tab : forall b, canonical b -> tb m 3 b <> None -> tb m0 3 b <> None \/ meets b /\ ~ in_large_page vs ve b;
  up_free : forall q, fs_free (allocator m) q -> fs_free (allocator m0) q;
  up_used : forall q, fs_free (allocator m0) q -> ~ fs_free (allocator m) q ->
    exists d va, (d <= 3)%nat /\ tb m d va = Some (ToAddr q);
  up_mem : forall a, a <> root -> off_tables a m -> word (words m) a = word (words m0) a;
  up_new : forall d va p, (d <= 3)%nat -> tb m d va = Some p -> tb m0 d va = Some p \/ exists q, p = ToAddr q /\ fs_free (allocator m0) q
}.

Definition entry (n : nat) (b e : Z) m : Prop :=
  match n with
  | S (S (S (S _))) => e = root
  | _ => exists p, tb m (3 - n) b = Some p /\ e = p + 8 * PtIndex b n
  end.
Definition later m m' : Prop := forall d va p, (d <= 3)%nat -> tb m d va = Some p -> tb m' d va = Some p.

Lemma range_canonical va : vs <= va < ve -> canonical va.
Proof. unfold canonical. lia. Qed.

Lemma entry_later m m' n b e : later m m' -> entry n b e m -> entry n b e m'.
Proof.
  intros Hl. destruct n as [|[|[|[|n]]]]; cbn [entry]; try done; intros (p & Hp & ->); exists p; split; try done; apply Hl; (done || lia).
Qed.

Lemma entry_tab n b e m : (n <= 3)%nat -> entry n b e m -> exists p, tb m (3 - n) b = Some p /\ e = p + 8 * PtIndex b n.
Proof. destruct n as [|[|[|[|n]]]]; cbn [entry]; [done.. | lia]. Qed.

Lemma entry_slot n b e m : (n <= 3)%nat -> entry (S n) b e m -> slot (words m) root (3 - n) b e.
Proof. destruct n as [|[|[|[|n]]]]; cbn [entry Nat.sub slot]; [done.. | lia]. Qed.

Lemma tab_table_at n b e m q : (n <= 3)%nat -> (page_step (S n) | b) ->
  tb m (3 - n) b = Some q -> frame (word (words m) e) 0 = q ->
  table_at read_pte entry n b e m.
Proof.
  intros Hn Hb Hq He j Hj. rewrite Addr_frame. change (read_pte e m) with (word (words m) e). rewrite He.
  assert (0 <= j * page_step n < page_step (S n)) as Hi.
  { rewrite page_step_S. pose proof (page_step_pos n). split; [lia |]. rewrite Z.mul_comm. apply Z.mul_lt_mono_pos_l; lia. }
  assert (tb m (3 - n) (b + j * page_step n) = Some q) as Ht
    by (rewrite <- Hq; apply tab_path; by apply same_path_add).
  pose proof (PtIndex_add n b j Hn Hb Hj) as Hx.
  destruct n as [|[|[|[|n]]]]; cbn [entry Nat.sub] in *; [.. | lia]; exists q; by rewrite Hx.
Qed.

(** Why the mapping can stop: there is no page for a table. *)
Definition out_of_frames (f : fault) : Prop :=
  exists a, fs_inv a /\ (forall q, fs_free a q -> fs_free (allocator m0) q) /\
    (alloc_page a = Fail f \/ f = AssertFailed /\ exists a', alloc_page a = Ok (PfnNone, a')).

Lemma visits_block n b : visits vs ve n b -> vs <= Z.max vs b < ve /\ b <= Z.max vs b < b + page_step (S n).
Proof. intros (_ & _ & _ & Hlt & _). lia. Qed.

(** Nothing is mapped in the rest of the range. *)
Lemma upto_rest lo m va : upto lo m -> vs <= va < ve -> lo <= va -> tr m va = None.
Proof. intros U Hva Hlo. rewrite (up_tr _ _ U) by (by apply range_canonical). rewrite decide_False by lia. by apply Hun. Qed.

Lemma table_present e b n m : visits vs ve n b -> Pte.Present (read_pte e m) = true -> entry (S n) b e m ->
  upto (Z.max vs b) m -> table_at read_pte entry n b e m.
Proof.
  intros Hv Hp He U. pose proof Hv as (Hn & Hb & Hb0 & _ & Hcb & _). pose proof (entry_slot n b e m Hn He) as Hs.
  change (read_pte e m) with (word (words m) e) in Hp. pose proof (up_ok _ _ U) as (_ & HT & _).
  eapply tab_table_at; [done | done | | done].
  destruct (3 - n)%nat as [|d] eqn:Hd; cbn [slot tab] in *; [subst e; by rewrite Hp |].
  destruct Hs as (p & Hp' & ->). rewrite Hp'. cbn [mbind option_bind]. rewrite Hp. cbn [andb].
  assert (Pte.Large (word (words m) (p + 8 * PtIndex b (3 - d))) = false) as ->; [| done].
  destruct (decide (d <= 1)%nat); [by apply (tree_large _ _ HT) |]. assert (d = 2%nat /\ n = 0%nat) as [-> ->] by lia.
  destruct (visits_block _ _ Hv) as [Hr Hblk]. set (va := Z.max vs b) in *.
  pose proof (upto_rest va m va U Hr ltac:(lia)) as Hno. rewrite translate_tab in Hno by done.
  assert (same_path 3 va b) as Hsp by (apply (same_path_block 1); [lia | done | auto | by apply range_canonical | done]).
  assert (tb m 2 va = Some p) as Ht by (rewrite <- Hp'; by apply tab_path, (same_path_le 3); [lia |]).
  pose proof (Hsp 2%nat ltac:(lia)) as Hi. cbn [Nat.sub] in *.
  destruct (Pte.Large _) eqn:HL; [| done]. exfalso.
  cbn [tab] in Hno, Ht. rewrite Ht in Hno. cbn [mbind option_bind Nat.sub] in Hno. rewrite Hi, Hp, HL in Hno. done.
Qed.

(** *** A page *)

Lemma aligned_large b : (page_step 1 | b) -> in_large_page vs ve b <-> vs <= b /\ b + page_step 1 <= ve.
Proof. intros Hb. unfold in_large_page. rewrite (proj2 (Z.mod_divide b (page_step 1) ltac:(done)) Hb). by rewrite Z.sub_0_r. Qed.

Lemma entry_unmapped e b n m : (n < kNumPageSizes)%nat -> (page_step n | b) -> vs <= b -> b + page_step n <= ve ->
  entry n b e m -> upto b m -> Pte.Present (word (words m) e) = false.
Proof.
  intros Hn Hb H1 H2 He U. pose proof (page_step_pos n) as Hps. unfold kNumPageSizes in Hn.
  destruct (entry_tab n b e m ltac:(lia) He) as (p & Hp & ->). pose proof (up_ok _ _ U) as (_ & HT & _).
  pose proof (upto_rest b m b U ltac:(lia) ltac:(lia)) as Hno. rewrite translate_tab in Hno by done.
  destruct (Pte.Present _) eqn:Ep; [exfalso | done].
  destruct n as [|[|n]]; [| | lia]; cbn [Nat.sub] in *; [by rewrite Hp, Ep in Hno |].
  assert (in_large_page vs ve b) as Hin by (by apply aligned_large).
  assert (tb m 3 b = None) as H3.
  { destruct (tb m 3 b) eqn:E; [| done]. destruct (up_tab _ _ U b) as [H|[_ H]]; [by apply range_canonical; lia | by rewrite E | | done].
    by rewrite (Hnt b Hin) in H. }
  rewrite H3, Hp, Ep in Hno. cbn [tab Nat.sub] in H3, Hp. rewrite Hp in H3. cbn [mbind option_bind Nat.sub] in H3. rewrite Ep in H3.
  by destruct (Pte.Large _).
Qed.

Lemma page_entry b n : (n < kNumPageSizes)%nat -> (page_step n | b) -> vs <= b -> b + page_step n <= ve ->
  let x := Pte.Set_ (pa0 + (b - vs)) (is_large n) Pte.kPermAll in
  frame x n = pa0 + (b - vs) /\ Pte.Present x = true /\ (n = 0%nat \/ Pte.Large x = true).
Proof.
  intros Hn Hb H1 H2 x. unfold kNumPageSizes in Hn. pose proof (page_step_pos n).
  assert (page_step n | pa0 + (b - vs)) as Hd.
  { destruct n as [|[|n]]; [| | lia].
    - apply Z.divide_add_r; [done |]. by apply Z.divide_sub_r.
    - replace (pa0 + (b - vs)) with (pa0 - vs + b) by lia. apply Z.divide_add_r; [| done]. apply (Hlarge b).
      by apply aligned_large. }
  destruct (Pte_roundtrip (pa0 + (b - vs)) (is_large n) Pte.kPermAll) as (_ & HL & HP & _).
  - lia.
  - apply Z.mod_divide; [destruct (is_large n); lia |]. by destruct n as [|[|n]]; [| | lia].
  - split_and!; [by apply Set_frame; [lia | lia |] | exact HP |]. destruct n; [by left | by right].
Qed.

Lemma page_written e b n m :
  (n < kNumPageSizes)%nat -> (page_step n | b) -> canonical b -> vs <= b -> b + page_step n <= ve ->
  entry n b e m -> upto b m ->
  let m' := write_pte e (Pte.Set_ (pa0 + (b - vs)) (is_large n) Pte.kPermAll) m in
  upto (b + page_step n) m' /\ later m m'.
Proof.
  intros Hn Hb Hc H1 H2 He U m'. pose proof (entry_unmapped e b n m Hn Hb H1 H2 He U) as Hnp.
  destruct (page_entry b n Hn Hb H1 H2) as (Hf & Hp & HL). pose proof (up_ok _ _ U) as (Hi & HT & Hfr).
  unfold kNumPageSizes in Hn. destruct (entry_tab n b e m ltac:(lia) He) as (p & Ht & ->).
  set (x := Pte.Set_ (pa0 + (b - vs)) (is_large n) Pte.kPermAll) in *.
  assert (3 - (3 - n) = n)%nat as Hnn by lia.
  assert ((3 - n)%nat = 2%nat \/ (3 - n)%nat = 3%nat) as Hd by lia.
  assert ((3 - n)%nat = 3%nat \/ Pte.Large x = true) as HL' by (destruct HL; [left; lia | by right]).
  assert (forall d va, (d <= 3)%nat -> tb m' d va = tb m d va) as Htab.
  { intros d va Hdl. pose proof (leaf_tab (words m) root HT (3 - n) b p x Hd Ht) as Hl. rewrite Hnn in Hl. by apply Hl. }
  split; [split |].
  - split_and!; [done | |].
    + pose proof (leaf_Tree (words m) root HT (3 - n) b p x Hd Ht) as Hl. rewrite Hnn in Hl. by apply Hl.
    + intros q Hq. destruct (Hfr q Hq) as [Hq1 Hq2]. split; [| done]. intros d va Hdl. rewrite Htab by done. by apply Hq1.
  - intros va Hcv. pose proof (same_path_block n va b ltac:(lia) Hb Hc Hcv) as Hblk. replace (4 - n)%nat with (S (3 - n)) in Hblk by lia.
    destruct (decide (b <= va < b + page_step n)) as [Hin|Hout].
    + rewrite decide_True by lia. pose proof (leaf_same (words m) root HT (3 - n) b p x Hd Ht) as Hl. rewrite Hnn in Hl.
      change (words m') with (<[p + 8 * PtIndex b n := x]> (words m)). rewrite Hl by (by try apply Hblk). f_equal.
      rewrite Hf. destruct Hb as [k ->]. pose proof (page_step_pos n).
      rewrite <- (Z.mod_unique va (page_step n) k (va - k * page_step n)) by lia. lia.
    + pose proof (leaf_other (words m) root HT (3 - n) b p x Hd Ht) as Hl. rewrite Hnn in Hl.
      change (words m') with (<[p + 8 * PtIndex b n := x]> (words m)). rewrite Hl by (by rewrite ?Hblk).
      rewrite (up_tr _ _ U) by done. pose proof (page_step_pos n). repeat case_decide; (done || lia).
  - intros b' Hcb. rewrite Htab by lia. by apply (up_tab _ _ U).
  - apply (up_free _ _ U).
  - intros q Hq Hnq. destruct (up_used _ _ U q Hq Hnq) as (d & va & Hdl & Hva). exists d, va. by rewrite Htab.
  - intros a Har Hoff. rewrite <- (up_mem _ _ U a Har) by (intros d va q Hdl; rewrite <- Htab by done; by apply Hoff).
    unfold m', write_pte. cbn [words]. rewrite word_insert, decide_False; [done |]. intros ->.
    apply (Hoff (3 - n)%nat b p); [lia | by rewrite Htab by lia |].
    pose proof (PtIndex_range b n). change kPageSize with 4096. lia.
  - intros d va q Hdl. rewrite Htab by done. by apply (up_new _ _ U).
  - intros d va q Hdl. by rewrite Htab.
Qed.

(** *** A table *)

Lemma table_added e b n m page a' : visits vs ve n b -> Pte.Present (read_pte e m) = false -> entry (S n) b e m ->
  upto (Z.max vs b) m -> alloc_page (allocator m) = Ok (page, a') -> page <> PfnNone ->
  let m' := write_pte e (Pte.SetNormal (ToAddr page)) (new_table (ToAddr page) (mkMemory (words m) a')) in
  upto (Z.max vs b) m' /\ later m m' /\ table_at read_pte entry n b e m'.
Proof.
  intros Hv Hnp He U Ha Hpage m'. pose proof Hv as (Hn & Hb & Hb0 & Hlt & Hcb & Hns).
  pose proof (entry_slot n b e m Hn He) as Hsl. pose proof (up_ok _ _ U) as (Hi & HT & Hfr).
  destruct (fs_alloc _ _ _ Hi Ha Hpage) as (Hi' & Hfree & Hrest). destruct (Hfr page Hfree) as [Hq Hr].
  destruct (ToAddr_page page (fs_range _ _ Hi Hfree)) as (_ & Hqa & Hqr).
  set (q := ToAddr page) in *. set (x := Pte.SetNormal q) in *.
  assert (frame x 0 = q) as Hxf by (apply (Set_frame q 0); [lia | done | done]).
  assert (Pte.Large x = false /\ Pte.Present x = true) as [HxL HxP].
  { destruct (Pte_roundtrip q false Pte.kPermAll) as (_ & ? & ? & _); [done | by apply Z.mod_divide |]. by split. }
  assert (forall d va, (d <= 3)%nat -> tb m' d va = if decide (d = (3 - n)%nat /\ same_path (3 - n) va b) then Some q else tb m d va) as Htab
    by (intros; apply grow_tab; (done || lia)).
  assert (forall va, same_path (3 - n) va b -> tb m (3 - n) va = None) as Hnone by (intros; eapply slot_none; (done || lia)).
  assert (forall va, tr m' va = tr m va) as Htr by (intros; eapply (grow_translate _ _ HT (3 - n) b); (done || lia)).
  split_and!; [split | |].
  - split_and!; [done | eapply (grow_Tree _ _ HT (3 - n) b); (done || lia) |]. intros p Hp. apply Hrest in Hp as [Hp Hne].
    destruct (Hfr p Hp) as [H1 H2]. split; [| done]. intros d va Hd. rewrite Htab by done. case_decide; [| by apply H1].
    intros [= Heq]. apply Hne. destruct (ToAddr_page p (fs_range _ _ Hi Hp)) as (Hpe & _), (ToAddr_page page (fs_range _ _ Hi Hfree)) as (Hqe & _).
    change kPageSize with 4096 in *. unfold q in *. lia.
  - intros va Hcv. rewrite Htr. by apply (up_tr _ _ U).
  - intros b' Hcb'. rewrite Htab by lia. case_decide as Hc; [| by apply (up_tab _ _ U)]. intros _. right.
    destruct Hc as [H3 Hsp]. assert (n = 0%nat) as -> by lia.
    pose proof (proj1 (same_path_block 1 b' b ltac:(lia) Hb (Hcb ltac:(lia)) Hcb') Hsp) as Hblk.
    assert (b' - b' mod page_step 1 = b) as Hbb.
    { destruct Hb as [k ->]. rewrite <- (Z.mod_unique b' (page_step 1) k (b' - k * page_step 1)) by lia. lia. }
    unfold meets, in_large_page. rewrite Hbb. split; [lia | by apply Hns].
  - intros p Hp. apply Hrest in Hp as [Hp _]. by apply (up_free _ _ U).
  - intros p Hp Hnp'. destruct (decide (p = page)) as [->|Hne].
    + exists (3 - n)%nat, b. split; [lia |]. rewrite Htab, decide_True by (lia || by split). done.
    + assert (~ fs_free (allocator m) p) as Hnm by (intros Hm; apply Hnp', Hrest; by split).
      destruct (up_used _ _ U p Hp Hnm) as (d & va & Hd & Hva). exists d, va. split; [done |]. rewrite Htab by done.
      rewrite decide_False; [done |]. intros [-> Hsp]. by rewrite Hnone in Hva.
  - intros a Har Hoff. assert (forall d va p, (d <= 3)%nat -> tb m d va = Some p -> tb m' d va = Some p) as Hkeep.
    { intros d va p Hd Hp. rewrite Htab by done. rewrite decide_False; [done |]. intros [-> Hsp]. by rewrite Hnone in Hp. }
    rewrite <- (up_mem _ _ U a Har) by (intros d va p Hd Hp; by apply (Hoff d va p Hd), Hkeep).
    assert (~ (q <= a < q + kPageSize)) as Haq
      by (apply (Hoff (3 - n)%nat b); [lia | by rewrite Htab, decide_True by (lia || by split)]).
    unfold m', write_pte, new_table. cbn [words]. rewrite word_insert, decide_False, clear_words_out; [done | change kPageSize with 4096 in *; lia |].
    intros ->. destruct (decide (n = 3%nat)) as [->|Hn3]; [done |].
    destruct (entry_tab (S n) b e m ltac:(lia) He) as (p & Hp & Hep). apply (Hoff (3 - S n)%nat b p); [lia | apply Hkeep; [lia | done] |].
    pose proof (PtIndex_range b (S n)). change kPageSize with 4096. lia.
  - intros d va p Hd. rewrite Htab by done. case_decide; [| by apply (up_new _ _ U)].
    intros [= <-]. right. exists page. split; [done | by apply (up_free _ _ U)].
  - intros d va p Hd Hp. rewrite Htab by done. rewrite decide_False; [done |]. intros [-> Hsp]. by rewrite Hnone in Hp.
  - eapply (tab_table_at n b e m' q); [done | done | by rewrite Htab, decide_True by (lia || by split) |].
    unfold m', write_pte. cbn [words]. by rewrite word_insert, decide_True.
Qed.

(** *** The whole range *)

Definition new_entry (e page : Z) (a' : A) m : Memory A :=
  write_pte e (Pte.SetNormal (ToAddr page)) (new_table (ToAddr page) (mkMemory (words m) a')).

Lemma mapping_ok (found : Z -> Z -> nat -> Memory A -> outcome (Memory A)) (empty : Z -> Memory A -> outcome (bool * Memory A)) :
  (forall e b n m, Pte.Present (read_pte e m) = false -> vs <= b -> b + page_step n <= ve ->
     found e b n m = Ok (write_pte e (Pte.Set_ (pa0 + (b - vs)) (is_large n) Pte.kPermAll) m)) ->
  (forall e m, fs_inv (allocator m) ->
     match empty e m with
     | Ok (go, m') => go = true /\ exists page a', alloc_page (allocator m) = Ok (page, a') /\ page <> PfnNone /\ m' = new_entry e page a' m
     | Fail f => alloc_page (allocator m) = Fail f \/ f = AssertFailed /\ exists a', alloc_page (allocator m) = Ok (PfnNone, a')
     end) ->
  pt_ok m0 ->
  match TraversePageTable read_pte found empty 4 root vs ve 0 m0 with
  | Ok m' => upto ve m' /\ later m0 m'
  | Fail f => out_of_frames f
  end.
Proof.
  intros Hf He H0.
  assert (upto vs m0) as U0.
  { split; [done | intros va _; by rewrite decide_False by lia | by left | done | done | done | by left]. }
  assert (good upto later out_of_frames vs ve m0 (TraversePageTable read_pte found empty 4 root vs ve 0 m0)) as Hg.
  { apply (traversal_good read_pte found empty vs ve Hvs Hve Hvs4 Hve4 upto entry later out_of_frames).
    - by intros m d va p _.
    - intros m1 m2 m3 H12 H23 d va p Hd Hp. by apply H23, H12.
    - apply entry_later.
    - intros e b n m Hn Hb Hc H1 H2 _ Hen U. rewrite Hf; [by apply page_written | by eapply entry_unmapped | done | done].
    - intros e b n m Hv Hp Hen U. pose proof (up_ok _ _ U) as (Hi & _ & _). specialize (He e m Hi).
      destruct (empty e m) as [[go m']|f].
      + destruct He as (-> & page & a' & Ha & Hpg & ->). split; [done |]. by apply table_added.
      + exists (allocator m). split_and!; [done | apply (up_free _ _ U) | done].
    - apply table_present.
    - apply range_canonical. lia.
    - apply range_canonical. lia.
    - lia.
    - unfold entry. done. }
  exact (Hg U0).
Qed.
End Range.

(** ** The mapping functions *)

(** A range of pages that can be mapped to the frames from [pa0] on; where a
    large page fits, the frames must be aligned like the addresses. *)
Record mappable (vs ve pa0 : Z) : Prop := {
  mp_range : 0 <= vs < ve;
  mp_half : ve <= 2 ^ 47 \/ 2 ^ 64 - 2 ^ 47 <= vs /\ ve <= 2 ^ 64 - 2 ^ 21;
  mp_pages : (kPageSize | vs) /\ (kPageSize | ve) /\ (kPageSize | pa0);
  mp_frames : 0 <= pa0 /\ pa0 + (ve - vs) <= 2 ^ 52;
  mp_large : forall b, in_large_page vs ve b -> (kLargePageSize | pa0 - vs)
}.

(** Nothing is mapped in the range, and no table is in the way of a large page. *)
Definition unmapped m (vs ve : Z) : Prop :=
  (forall va, vs <= va < ve -> tr m va = None) /\ (forall b, in_large_page vs ve b -> tb m 3 b = None).

(** [m'] maps the range to the frames from [pa0] on, and everything else as [m];
    the pages that were taken hold tables, new tables are in pages that were
    free, and memory outside the tables is not written. *)
Definition mapped m (vs ve pa0 : Z) (m' : Memory A) : Prop :=
  pt_ok m' /\
  (forall va, canonical va -> tr m' va = if decide (vs <= va < ve) then Some (pa0 + (va - vs)) else tr m va) /\
  (forall q, fs_free (allocator m') q -> fs_free (allocator m) q) /\
  (forall q, fs_free (allocator m) q -> ~ fs_free (allocator m') q -> exists d va, (d <= 3)%nat /\ tb m' d va = Some (ToAddr q)) /\
  (forall b, canonical b -> tb m' 3 b <> None -> tb m 3 b <> None \/ meets vs ve b) /\
  (forall a, a <> root -> off_tables a m' -> word (words m') a = word (words m) a) /\
  (forall d va p, (d <= 3)%nat -> tb m' d va = Some p -> tb m d va = Some p \/ exists q, p = ToAddr q /\ fs_free (allocator m) q) /\
  later m m'.

Lemma upto_mapped vs ve pa0 m m' : upto vs ve pa0 m ve m' /\ later m m' -> mapped m vs ve pa0 m'.
Proof.
  intros [U Hl]. split_and!; [apply U | apply U | apply U | apply U | | apply U | apply U | done].
  intros b Hc Hb. destruct (up_tab _ _ _ _ _ _ U b Hc Hb) as [?|[? _]]; [by left | by right].
Qed.

Lemma map_found_ok vs ve pa0 : mappable vs ve pa0 -> forall e b n m,
  Pte.Present (read_pte e m) = false -> vs <= b -> b + page_step n <= ve ->
  found_map vs pa0 e b n m = Ok (write_pte e (Pte.Set_ (pa0 + (b - vs)) (is_large n) Pte.kPermAll) m).
Proof.
  intros [] e b n m Hp H1 H2. unfold found_map. rewrite Hp. cbn [negb kassert]. rewrite bind_Ok.
  pose proof (page_step_pos n). rewrite u64_small by lia. done.
Qed.

Lemma map_empty_ok e m : fs_inv (allocator m) ->
  match empty_alloc alloc_page e m with
  | Ok (go, m') => go = true /\ exists page a', alloc_page (allocator m) = Ok (page, a') /\ page <> PfnNone /\ m' = new_entry e page a' m
  | Fail f => alloc_page (allocator m) = Fail f \/ f = AssertFailed /\ exists a', alloc_page (allocator m) = Ok (PfnNone, a')
  end.
Proof.
  intros _. unfold empty_alloc. destruct (alloc_page (allocator m)) as [[page a']|f]; cbn [mbind outcome_bind]; [| by left].
  destruct (Z.eqb_spec page PfnNone) as [->|Hn]; cbn [negb kassert mbind outcome_bind]; [right; eauto |].
  split; [done |]. by exists page, a'.
Qed.

Lemma map_range m vs ve pa0 : pt_ok m -> mappable vs ve pa0 -> unmapped m vs ve ->
  match TraversePageTable read_pte (found_map vs pa0) (empty_alloc alloc_page) 4 root vs ve 0 m with
  | Ok m' => mapped m vs ve pa0 m'
  | Fail f => out_of_frames m f
  end.
Proof.
  intros Hok Hm [Hun Hnt]. pose proof Hm as [H1 H2 (H3 & H4 & H5) [H6 H7] H8].
  pose proof (mapping_ok vs ve pa0 H1 ltac:(lia) H3 H4 ltac:(lia) H6 H7 H5 H8 m Hun Hnt (found_map vs pa0) (empty_alloc alloc_page)
    (map_found_ok vs ve pa0 Hm) map_empty_ok Hok) as Hr.
  destruct (TraversePageTable _ _ _ _ _ _ _ _ _); [by apply upto_mapped | done].
Qed.

Lemma MapMemory_spec m vfn pfn length :
  pt_ok m -> mappable (ToAddr vfn) (ToAddr vfn + length) (ToAddr pfn) -> unmapped m (ToAddr vfn) (ToAddr vfn + length) ->
  match MapMemory alloc_page root vfn pfn length m with
  | Ok m' => mapped m (ToAddr vfn) (ToAddr vfn + length) (ToAddr pfn) m'
  | Fail f => out_of_frames m f
  end.
Proof.
  intros Hok Hm Hu. unfold MapMemory. pose proof Hm as [? ? _ _ _]. rewrite u64_small by lia. by apply map_range.
Qed.

(** C15. [MapMemory] and [MapMemoryLarge] map a range of pages that is not mapped yet:
    afterwards the processor translates each address of the range to its frame
    and every other address as before.  The page tables stay a tree, the pages
    taken from the allocator hold tables, and no other memory is written.  They
    fail only when there is no page for a table. *)
Theorem MapMemory_correct m vfn pfn length :
  pt_ok m -> mappable (ToAddr vfn) (ToAddr vfn + length) (ToAddr pfn) -> unmapped m (ToAddr vfn) (ToAddr vfn + length) ->
  match MapMemory alloc_page root vfn pfn length m with
  | Ok m' => mapped m (ToAddr vfn) (ToAddr vfn + length) (ToAddr pfn) m'
  | Fail f => out_of_frames m f
  end /\
  MapMemoryLarge alloc_page root (ToAddr vfn) pfn length m = MapMemory alloc_page root vfn pfn length m.
Proof.
  intros Hok Hm Hu. split; [by apply MapMemory_spec | done].
Qed.

(** *** The fault on the translation table *)

Definition page_zero (p : Z) m : Prop := forall i, 0 <= i < 512 -> word (words m) (ToAddr p + 8 * i) = 0.

(** Clearing a page that is not part of the tables changes no translation. *)
Lemma clear_frame m p : pt_ok m -> 0 <= p < 2 ^ 40 ->
  (forall d va, (d <= 3)%nat -> tb m d va <> Some (ToAddr p)) -> ~ (ToAddr p <= root < ToAddr p + kPageSize) ->
  let m1 := new_table (ToAddr p) m in
  pt_ok m1 /\ (forall va, tr m1 va = tr m va) /\ (forall d va, (d <= 3)%nat -> tb m1 d va = tb m d va) /\ page_zero p m1.
Proof.
  intros (Hi & HT & Hfr) Hp Hq Hr m1. destruct (ToAddr_page p Hp) as (_ & Hqa & Hqr).
  assert (word (words m1) root = word (words m) root) as Hroot
    by (apply clear_words_out; change kPageSize with 4096 in Hr; lia).
  assert (forall d va q, (d <= 3)%nat -> tb m d va = Some q ->
    word (words m1) (q + 8 * PtIndex va (3 - d)) = word (words m) (q + 8 * PtIndex va (3 - d))) as Hent.
  { intros d va q Hd Hq'. apply clear_words_out. destruct (tab_aligned _ _ _ _ _ Hq') as [[i Hqi] _]. destruct Hqa as [j Hqj].
    pose proof (PtIndex_range va (3 - d)). assert (q <> ToAddr p) by (intros ->; by apply (Hq d va)).
    change kPageSize with 4096 in *. lia. }
  assert (forall d va, (d <= 3)%nat -> tb m1 d va = tb m d va) as Htab by (intros; by apply frame_tab).
  split_and!; [split_and!; [done | by eapply frame_Tree |] | intros; by apply frame_translate | done |].
  - intros q Hqf. destruct (Hfr q Hqf) as [H1 H2]. split; [| done]. intros d va Hd. rewrite Htab by done. by apply H1.
  - intros i Hil. by apply clear_words_in.
Qed.

(** A page taken from the allocator is not part of the tables. *)
Lemma taken_ok m p a' : pt_ok m -> alloc_page (allocator m) = Ok (p, a') -> p <> PfnNone ->
  pt_ok (mkMemory (words m) a') /\ fs_free (allocator m) p /\ 0 <= p < 2 ^ 40 /\ (forall q, fs_free a' q <-> fs_free (allocator m) q /\ q <> p) /\
  (forall d va, (d <= 3)%nat -> tb m d va <> Some (ToAddr p)) /\ ~ (ToAddr p <= root < ToAddr p + kPageSize).
Proof.
  intros (Hi & HT & Hfr) Ha Hp. destruct (fs_alloc _ _ _ Hi Ha Hp) as (Hi' & Hfree & Hrest).
  destruct (Hfr p Hfree) as [Hq Hr]. pose proof (fs_range _ _ Hi Hfree).
  split_and!; [split_and!; [done | done |] | done | lia | lia | done | done | done].
  intros q Hqf. apply Hrest in Hqf as [Hqf _]. by apply Hfr.
Qed.

Lemma cleared_ok m p a' : pt_ok m -> alloc_page (allocator m) = Ok (p, a') -> p <> PfnNone ->
  let m1 := new_table (ToAddr p) (mkMemory (words m) a') in
  pt_ok m1 /\ (forall va, tr m1 va = tr m va) /\ (forall d va, (d <= 3)%nat -> tb m1 d va = tb m d va) /\ page_zero p m1 /\
  fs_free (allocator m) p /\ ~ fs_free a' p.
Proof.
  intros Hok Ha Hp m1. destruct (taken_ok m p a' Hok Ha Hp) as (Hok' & Hfree & Hpr & Hrest & Hq & Hr).
  destruct (clear_frame (mkMemory (words m) a') p Hok' Hpr Hq Hr) as (? & ? & ? & ?).
  split_and!; [done.. |]. intros Hf. by apply Hrest in Hf as [_ ?].
Qed.

(** One page, anywhere in the two halves of the address space. *)
Lemma page_mappable vs p : 0 <= vs -> vs + kPageSize <= 2 ^ 47 \/ 2 ^ 64 - 2 ^ 47 <= vs /\ vs + kPageSize <= 2 ^ 64 - 2 ^ 21 ->
  (kPageSize | vs) -> 0 <= p < 2 ^ 40 ->
  mappable vs (vs + kPageSize) (ToAddr p) /\ forall b, ~ in_large_page vs (vs + kPageSize) b.
Proof.
  intros H0 Hh Hal Hp. destruct (ToAddr_page p Hp) as (_ & Hpa & Hpr).
  assert (forall b, ~ in_large_page vs (vs + kPageSize) b) as Hnl.
  { intros b. unfold in_large_page. change (page_step 1) with 2097152. change kPageSize with 4096. lia. }
  split; [| done]. split; [change kPageSize with 4096; clear -H0; lia | exact Hh | | | intros b Hb; by apply Hnl in Hb].
  - split_and!; [done | | done]. apply Z.divide_add_r; [done | reflexivity].
  - destruct Hpa as [k Hk]. clear -Hk Hpr. change kPageSize with 4096 in *. lia.
Qed.


(** *** Identity mapping at boot *)

Definition page_floor (a : Z) : Z := a - a mod kPageSize.
Definition page_ceil (a : Z) : Z := page_floor (a + kPageSize - 1).

Lemma page_floor_spec a : (kPageSize | page_floor a) /\ page_floor a <= a < page_floor a + kPageSize.
Proof.
  unfold page_floor. change kPageSize with 4096. split; [| pose proof (Z.mod_pos_bound a 4096); lia].
  exists (a / 4096). pose proof (Z.div_mod a 4096). lia.
Qed.

Lemma page_ceil_spec a : (kPageSize | page_ceil a) /\ a <= page_ceil a < a + kPageSize.
Proof. unfold page_ceil. destruct (page_floor_spec (a + kPageSize - 1)). change kPageSize with 4096 in *. split; [done | lia]. Qed.

Lemma early_range addr length : 0 <= addr -> 0 < length -> addr + length + kPageSize <= 2 ^ 47 ->
  let aligned_addr := AlignDown addr kPageSize in
  aligned_addr = page_floor addr /\
  u64 (aligned_addr + AlignUp (u64 (length + (addr - aligned_addr))) kPageSize) = page_ceil (addr + length).
Proof.
  intros Ha Hl Hb aligned. assert (aligned = page_floor addr) as Hal by (apply (AlignDown_pow2 addr 12); lia).
  split; [done |]. rewrite Hal. destruct (page_floor_spec addr) as [[k Hk] Hf], (page_ceil_spec (addr + length)) as [[l Hl'] Hc].
  change kPageSize with 4096 in *. rewrite (u64_small (length + _)) by lia.
  destruct (AlignUp_pow2 (length + (addr - page_floor addr)) 12) as (d & Hd & Hdm & Hdr); [lia | lia | lia |].
  change (2 ^ 12) with 4096 in *. rewrite Hd. rewrite u64_small by lia.
  apply Z.mod_divide in Hdm as [c Hc']; [| lia]. lia.
Qed.

Lemma early_empty_ok (Hnn : forall a a', fs_inv a -> alloc_page a <> Ok (PfnNone, a')) e m : fs_inv (allocator m) ->
  match empty_early alloc_page e m with
  | Ok (go, m') => go = true /\ exists page a', alloc_page (allocator m) = Ok (page, a') /\ page <> PfnNone /\ m' = new_entry e page a' m
  | Fail f => alloc_page (allocator m) = Fail f \/ f = AssertFailed /\ exists a', alloc_page (allocator m) = Ok (PfnNone, a')
  end.
Proof.
  intros Hi. unfold empty_early. destruct (alloc_page (allocator m)) as [[page a']|f] eqn:Ea; cbn; [| by left].
  split; [done |]. exists page, a'. split_and!; [done | | done]. intros ->. by apply (Hnn _ _ Hi Ea).
Qed.

Lemma EarlyMapMemory_spec m addr length :
  (forall a a', fs_inv a -> alloc_page a <> Ok (PfnNone, a')) ->
  pt_ok m -> 0 <= addr -> 0 < length -> addr + length + kPageSize <= 2 ^ 47 ->
  unmapped m (page_floor addr) (page_ceil (addr + length)) ->
  match EarlyMapMemory alloc_page root addr length m with
  | Ok m' => mapped m (page_floor addr) (page_ceil (addr + length)) (page_floor addr) m'
  | Fail f => exists a, fs_inv a /\ (forall q, fs_free a q -> fs_free (allocator m) q) /\ alloc_page a = Fail f
  end.
Proof.
  intros Hnn Hok Ha Hl Hb [Hun Hnt]. unfold EarlyMapMemory. destruct (early_range addr length Ha Hl Hb) as [Hal He].
  rewrite He, Hal. destruct (page_floor_spec addr) as [Hf1 Hf2], (page_ceil_spec (addr + length)) as [Hc1 Hc2].
  set (vs := page_floor addr) in *. set (ve := page_ceil (addr + length)) in *.
  assert (0 <= vs < ve) as Hr by (destruct Hf1 as [k Hk]; change kPageSize with 4096 in *; lia).
  assert (ve <= 2 ^ 47) by (change kPageSize with 4096 in *; lia).
  set (found := fun _ _ _ _ => _) in |- *.
  pose proof (mapping_ok vs ve vs Hr ltac:(lia) Hf1 Hc1 ltac:(lia) ltac:(lia) ltac:(lia) Hf1
    ltac:(intros b _; rewrite Z.sub_diag; apply Z.divide_0_r) m Hun Hnt found (empty_early alloc_page)) as Hg.
  assert (forall e b n m1, Pte.Present (read_pte e m1) = false -> vs <= b -> b + page_step n <= ve ->
    found e b n m1 = Ok (write_pte e (Pte.Set_ (vs + (b - vs)) (is_large n) Pte.kPermAll) m1)) as Hfo
    by (intros e b n m1 Hp H1 H2; unfold found; rewrite Hp; by replace (vs + (b - vs)) with b by lia).
  specialize (Hg Hfo (early_empty_ok Hnn) Hok).
  destruct (TraversePageTable _ _ _ _ _ _ _ _ _) as [m'|f]; [by apply upto_mapped |].
  destruct Hg as (a & Hi & Hsub & [Hfl|(_ & a' & Ha')]); [by exists a | by apply Hnn in Ha'].
Qed.

(** *** The first page of the translation table *)

Lemma map_page_early m vs p :
  (forall a a', fs_inv a -> alloc_page a <> Ok (PfnNone, a')) ->
  pt_ok m -> mappable vs (vs + kPageSize) (ToAddr p) -> unmapped m vs (vs + kPageSize) ->
  match TraversePageTable read_pte (found_map vs (ToAddr p)) (empty_early alloc_page) 4 root vs (u64 (vs + kPageSize)) 0 m with
  | Ok m' => mapped m vs (vs + kPageSize) (ToAddr p) m'
  | Fail f => exists a, fs_inv a /\ alloc_page a = Fail f
  end.
Proof.
  intros Hnn Hok Hm [Hun Hnt]. pose proof Hm as [H1 H2 (H3 & H4 & H5) [H6 H7] H8]. rewrite u64_small by lia.
  pose proof (mapping_ok vs (vs + kPageSize) (ToAddr p) H1 ltac:(lia) H3 H4 ltac:(lia) H6 H7 H5 H8 m Hun Hnt
    (found_map vs (ToAddr p)) (empty_early alloc_page) (map_found_ok _ _ _ Hm) (early_empty_ok Hnn) Hok) as Hr.
  destruct (TraversePageTable _ _ _ _ _ _ _ _ _); [by apply upto_mapped |].
  destruct Hr as (a & Hi & _ & [Hfl|(_ & a' & Ha')]); [by exists a | by apply Hnn in Ha'].
Qed.

Lemma trans_Init_spec m vs :
  (forall a a', fs_inv a -> alloc_page a <> Ok (PfnNone, a')) ->
  pt_ok m -> 0 <= vs -> vs + kPageSize <= 2 ^ 47 \/ 2 ^ 64 - 2 ^ 47 <= vs /\ vs + kPageSize <= 2 ^ 64 - 2 ^ 21 ->
  (kPageSize | vs) -> (forall va, vs <= va < vs + kPageSize -> tr m va = None) ->
  match trans_Init alloc_page vs root m with
  | Ok m' => pt_ok m' /\ exists p, fs_free (allocator m) p /\ page_zero p m' /\
      (forall va, canonical va -> tr m' va = if decide (vs <= va < vs + kPageSize) then Some (ToAddr p + (va - vs)) else tr m va) /\
      (forall q, fs_free (allocator m') q -> fs_free (allocator m) q /\ q <> p) /\
      (forall q, fs_free (allocator m) q -> ~ fs_free (allocator m') q -> q <> p -> exists d va, (d <= 3)%nat /\ tb m' d va = Some (ToAddr q)) /\
      (forall d va, (d <= 3)%nat -> tb m' d va <> Some (ToAddr p)) /\
      (forall d va q, (d <= 3)%nat -> tb m' d va = Some q -> tb m d va = Some q \/ exists x, q = ToAddr x /\ fs_free (allocator m) x)
  | Fail f => exists a, fs_inv a /\ alloc_page a = Fail f
  end.
Proof.
  intros Hnn Hok H0 Hh Hal Hun. unfold trans_Init. pose proof Hok as (Hi & _ & _).
  destruct (alloc_page (allocator m)) as [[p a']|f] eqn:Ha; cbn [mbind outcome_bind]; [| by exists (allocator m)].
  assert (p <> PfnNone) as Hp by (intros ->; by apply Hnn in Ha).
  destruct (taken_ok m p a' Hok Ha Hp) as (Hok' & Hfree & Hpr & Hrest & Hq & Hr).
  destruct (page_mappable vs p H0 Hh Hal Hpr) as [Hmp Hnl].
  pose proof (map_page_early (mkMemory (words m) a') vs p Hnn Hok' Hmp) as Hmap. cbn [words allocator] in *.
  destruct (TraversePageTable _ _ _ _ _ _ _ _ _) as [m2|f]; cbn [mbind outcome_bind]; [| apply Hmap; split; [done | intros b Hb; by apply Hnl in Hb]].
  destruct Hmap as (Hok2 & Htr & Hsub & Hused & _ & _ & Hnew & _); [split; [done | intros b Hb; by apply Hnl in Hb] |].
  cbn [words allocator] in *.
  assert (forall d va, (d <= 3)%nat -> tb m2 d va <> Some (ToAddr p)) as Hnt.
  { intros d va Hd Ht. destruct (Hnew d va _ Hd Ht) as [Ho|(q & Heq & Hqf)]; [by apply (Hq d va Hd) |].
    apply Hrest in Hqf as [Hqf Hne]. apply Hne. pose proof (fs_range _ _ Hi Hqf) as Hqr.
    destruct (ToAddr_page p Hpr) as (E1 & _), (ToAddr_page q Hqr) as (E2 & _). change kPageSize with 4096 in *. lia. }
  destruct (clear_frame m2 p Hok2 Hpr Hnt Hr) as (Hok3 & Htr3 & Htab3 & Hz).
  split; [done |]. exists p. split_and!; [done | done | | | | |].
  - intros va Hc. rewrite Htr3. by apply Htr.
  - intros q Hqf. apply Hrest. by apply Hsub.
  - intros q H1 H2 H3. destruct (Hused q) as (d & va & Hd & Ht); [by apply Hrest | done |]. exists d, va. by rewrite Htab3.
  - intros d va Hd. rewrite Htab3 by done. by apply Hnt.
  - intros d va q Hd. rewrite Htab3 by done. intros Ht. destruct (Hnew d va q Hd Ht) as [?|(x & -> & Hx)]; [by left | right].
    exists x. split; [done | by apply Hrest].
Qed.
End Map.

(** ** Examples *)

(** An allocator that hands out the pages from [a] on. *)
Definition bump (a : Z) : outcome (Z * Z) := if a <? 2 ^ 40 then Ok (a, a + 1) else Fail Aborted.

#[export] Instance bump_source : FrameSource bump.
Proof.
  refine {| fs_inv := fun a => 0 <= a; fs_free := fun a p => a <= p < 2 ^ 40 |}.
  - lia.
  - intros a p a' Ha. unfold bump. destruct (Z.ltb_spec a (2 ^ 40)); [| done]. intros [= <- <-] _. split_and!; [lia | lia | lia |].
    intros q. lia.
Defined.

Lemma empty_tab root d va : tab ∅ root d va = None.
Proof. induction d as [|d IH]; cbn [tab]; [done | by rewrite IH]. Qed.

Lemma empty_pt_ok root : 0 <= root < 4096 -> pt_ok bump root (mkMemory ∅ 1).
Proof.
  intros Hr. split_and!; [done | split |]; cbn [words].
  - intros d va d' va' p _ _. by rewrite empty_tab.
  - intros d va p _. by rewrite empty_tab.
  - intros d va p _. by rewrite empty_tab.
  - intros p [H1 H2]. split; [intros d va _; by rewrite empty_tab |]. cbn in H1. rewrite ToAddr_eq by lia. change kPageSize with 4096. lia.
Qed.

Definition get_ok {A} (d : A) (r : outcome A) : A := match r with Ok a => a | Fail _ => d end.

(** A small page, a large page and a small page. *)
Definition m_map : Memory Z := get_ok (mkMemory ∅ 0) (MapMemory bump 8 0x1ff 0x5ff 0x202000 (mkMemory ∅ 1)).
Lemma m_map_ok : MapMemory bump 8 0x1ff 0x5ff 0x202000 (mkMemory ∅ 1) = Ok m_map.
Proof.
  unfold m_map. assert (isOk (MapMemory bump 8 0x1ff 0x5ff 0x202000 (mkMemory ∅ 1)) = true) as H by (by vm_compute).
  by destruct (MapMemory bump 8 0x1ff 0x5ff 0x202000 (mkMemory ∅ 1)).
Qed.

Lemma MapMemory_correct_witness :
  translate (words m_map) 8 0x1ff010 = Some 0x5ff010 /\ translate (words m_map) 8 0x3fffff = Some 0x7fffff /\
  translate (words m_map) 8 0x401000 = None.
Proof.
  destruct (MapMemory_correct bump 8 (mkMemory ∅ 1) 0x1ff 0x5ff 0x202000) as [H _].
  - apply empty_pt_ok. lia.
  - split; [by vm_compute | by left | | by vm_compute |].
    + split_and!; [by exists 0x1ff | by exists 0x401 | by exists 0x5ff].
    + intros b _. by exists 2.
  - split; intros; [done | apply empty_tab].
  - rewrite m_map_ok in H. destruct H as (_ & Htr & _).
    split_and!; rewrite Htr by (left; split; by vm_compute); [| | done].
    + by rewrite decide_True by (split; by vm_compute).
    + by rewrite decide_True by (split; by vm_compute).
Defined.

(** The first fault on the translation table. *)
Definition m_fault : Memory Z := get_ok (mkMemory ∅ 0) (trans_HandleFault bump 8 0xFFFFFFFF00000018 (mkMemory ∅ 1)).
Lemma m_fault_ok : trans_HandleFault bump 8 0xFFFFFFFF00000018 (mkMemory ∅ 1) = Ok m_fault.
Proof.
  unfold m_fault. assert (isOk (trans_HandleFault bump 8 0xFFFFFFFF00000018 (mkMemory ∅ 1)) = true) as H by (by vm_compute).
  by destruct (trans_HandleFault bump 8 0xFFFFFFFF00000018 (mkMemory ∅ 1)).
Qed.


(** A range that holds a large page is mapped to other frames than asked for,
    when the frames are not aligned like the addresses: the processor ignores
    the low bits of the address in the entry of a large page. *)
Theorem MapMemory_misaligned :
  exists m', MapMemory bump 8 0x200 0x201 0x200000 (mkMemory ∅ 1) = Ok m' /\
    translate (words m') 8 0x200000 = Some 0x200000 /\ ToAddr 0x201 = 0x201000.
Proof.
  eexists. split; [| split; [| done]].
  - assert (isOk (MapMemory bump 8 0x200 0x201 0x200000 (mkMemory ∅ 1)) = true) as H by (by vm_compute).
    instantiate (1 := get_ok (mkMemory ∅ 0) (MapMemory bump 8 0x200 0x201 0x200000 (mkMemory ∅ 1))).
    by destruct (MapMemory bump 8 0x200 0x201 0x200000 (mkMemory ∅ 1)).
  - by vm_compute.
Qed.
