(* ===== verification/GeneralPurposeAllocator.v ===== *)
(** * The general purpose allocator

    Models src/src/native/GeneralPurposeAllocator.h: the size classes served by
    slab allocators, the large regions backed by 2 MB pages, and the handler that
    maps a large region on the cores that fault on it. *)

From S2P Require Import Prelude Pfn MemMap PageAllocator Slab VMemAllocator VMem.

Definition large_page_size : Z := 2 * 1024 * 1024.
Definition large_page_order : nat := 9.

(** GeneralPurposeAllocatorType *)
Definition gp_sizes : list Z :=
  [8; 16; 32; 64; 96; 128; 192; 256; 512; 1024; 2 * 1024; 4 * 1024; 8 * 1024;
   16 * 1024; 32 * 1024; 64 * 1024; 128 * 1024; 256 * 1024; 512 * 1024;
   1024 * 1024; 2 * 1024 * 1024; 4 * 1024 * 1024; 8 * 1024 * 1024].

(** [Indexer<index, sizes...>]; [None] is -1. *)
Fixpoint Indexer (index : nat) (sizes : list Z) (size : Z) : option nat :=
  match sizes with
  | [] => None
  | head :: tail => if size <=? head then Some index else Indexer (S index) tail size
  end.

(** [Construct]: one root per size. *)
Fixpoint Construct (sizes : list Z) : outcome (list SlabAllocatorRoot) :=
  match sizes with
  | [] => Ok []
  | head :: tail => r ← new_SlabAllocatorRoot head 0; rs ← Construct tail; Ok (r :: rs)
  end.

(** ** LargeRegionFaultHandler *)

Record LargeRegion := mkLargeRegion { sAddr : Z; vecPfns : list Z }.

(** [HandleFault]: the arguments of [MapMemoryLarge]. *)
Definition large_fault (h : LargeRegion) (faulted_address : Z) : outcome (Z * Z) :=
  let mAddr := ToLAddr (PfnLDown faulted_address) in
  _ ← kassert (sAddr h <=? mAddr);
  let index := (mAddr - sAddr h) / kLargePageSize in
  _ ← kassert (index <? Z.of_nat (length (vecPfns h)));
  pfn ← deref (vecPfns h !! Z.to_nat index);
  Ok (mAddr, pfn).

Definition LargeRegion_HandleFault {A} (alloc_page : A -> outcome (Z * A)) (root : Z) (h : LargeRegion)
    (faulted_address : Z) (m : Memory A) : outcome (Memory A) :=
  '(mAddr, pfn) ← large_fault h faulted_address;
  MapMemoryLarge alloc_page root mAddr pfn kLargePageSize m.

(** ** The allocator *)

Record GP (P : Type) := mkGP {
  slab : Slab P;
  words_ : gmap Z Z;                 (* the page tables *)
  vregions : regions;                (* vmem_allocator *)
  handlers : list LargeRegion        (* the handlers of large regions, by number *)
}.
Arguments mkGP {P}.
Arguments slab {P}.
Arguments words_ {P}.
Arguments vregions {P}.
Arguments handlers {P}.

Section Operations.
Context {P : Type} `{PageSource P}.
Context (roots : nat -> SlabAllocatorRoot) (sizes : list Z) (node_of : nat -> Z).
Implicit Types s : GP P.

Definition set_slab (x : Slab P) s : GP P := mkGP x (words_ s) (vregions s) (handlers s).

(** The memory of page tables, whose allocator is the page allocator, with the
    large pages taken so far. *)
Definition LargeMap : Type := Memory P * list Z.

Definition lm_alloc (me : nat) (k : nat) (m : LargeMap) : outcome (Z * LargeMap) :=
  '(pfn, p) ← ps_Alloc (allocator m.1) k (node_of me);
  _ ← kassert (negb (pfn =? PfnNone));
  Ok (pfn, (mkMemory (words m.1) p, m.2)).

Definition lm_read (addr : Z) (m : LargeMap) : Z := read_pte addr m.1.
Definition lm_write (addr raw : Z) (m : LargeMap) : LargeMap := (write_pte addr raw m.1, m.2).

(** The callbacks of the traversal. *)
Definition lm_found (me : nat) (entry base_virt : Z) (level : nat) (m : LargeMap) : outcome LargeMap :=
  _ ← kassert (negb (Pte.Present (lm_read entry m)) && (level =? 1)%nat);
  '(pfn, m) ← lm_alloc me large_page_order m;
  Ok (lm_write entry (Pte.SetLarge (ToAddr pfn)) (m.1, m.2 ++ [pfn])).

Definition lm_empty (me : nat) (entry : Z) (m : LargeMap) : outcome (bool * LargeMap) :=
  '(pfn, m) ← lm_alloc me 0 m;
  let m := (new_table (ToAddr pfn) m.1, m.2) in
  Ok (true, lm_write entry (Pte.SetNormal (ToAddr pfn)) m).

Definition map_large (me : nat) (root vaddr sz : Z) s : outcome (list Z * GP P) :=
  '(m, pfns) ← TraversePageTable lm_read (lm_found me) (lm_empty me)
                 4 root vaddr (u64 (vaddr + sz)) 0 (mkMemory (words_ s) (pages (slab s)), []);
  Ok (pfns, mkGP (set_pages (allocator m) (slab s)) (words m) (vregions s) (handlers s)).

(** [Alloc(size)] on core [me], whose CR3 is at [root]. *)
Definition GPAlloc (me : nat) (root size : Z) s : outcome (Z * GP P) :=
  match Indexer 0 sizes size with
  | Some index =>
      '(ret, x) ← SlabAlloc roots node_of me index (slab s);
      match ret with
      | None => Fail AssertFailed
      | Some a => Ok (a, set_slab x s)
      end
  | None =>
      let sz := AlignUp size large_page_size in
      let npages := sz / kPageSize in
      let pages_per_large_page := large_page_size / kPageSize in
      let id := length (handlers s) in
      let s := mkGP (slab s) (words_ s) (vregions s) (handlers s ++ [mkLargeRegion 0 []]) in
      '(vfn, v) ← VAllocAligned npages pages_per_large_page (Some id) (vregions s);
      _ ← kassert (negb (vfn =? PfnNone));
      let vaddr := ToAddr vfn in
      '(vec, s) ← map_large me root vaddr sz (mkGP (slab s) (words_ s) v (handlers s));
      Ok (vaddr, mkGP (slab s) (words_ s) (vregions s) (<[id := mkLargeRegion vaddr vec]> (handlers s)))
  end.

(** [Alloc(size, alignment)]: the region has no fault handler. *)
Definition GPAllocAligned (me : nat) (root size alignment : Z) s : outcome (Z * GP P) :=
  match Indexer 0 sizes size with
  | Some index =>
      '(ret, x) ← SlabAlloc roots node_of me index (slab s);
      match ret with
      | None => Fail AssertFailed
      | Some a => Ok (a, set_slab x s)
      end
  | None =>
      let sz := AlignUp size large_page_size in
      let npages := sz / kPageSize in
      let align := AlignUp alignment large_page_size in
      let align_pages := align / kPageSize in
      '(vfn, v) ← VAllocAligned npages align_pages None (vregions s);
      _ ← kassert (negb (vfn =? PfnNone));
      let vaddr := ToAddr vfn in
      '(_, s) ← map_large me root vaddr sz (mkGP (slab s) (words_ s) v (handlers s));
      Ok (vaddr, s)
  end.

Definition GPAllocNid (me : nat) (size nid : Z) s : outcome (Z * GP P) :=
  match Indexer 0 sizes size with
  | None => Fail AssertFailed
  | Some index =>
      '(ret, x) ← SlabAllocNid roots node_of me index nid (slab s);
      match ret with
      | None => Fail AssertFailed
      | Some a => Ok (a, set_slab x s)
      end
  end.

Definition GPFree (me : nat) (p : Z) s : outcome (GP P) :=
  if p =? 0 then Ok s
  else if 0xFFFF800000000000 <? p then Ok s        (* large regions are not freed *)
  else
    match AddrToPage p (slab s) with
    | None => Fail AssertFailed
    | Some page =>
        match slab_cache (slab_data page) with
        | None => Fail UndefinedBehaviour
        | Some c => x ← SlabFree roots node_of me (cache_root c) p (slab s); Ok (set_slab x s)
        end
    end.
End Operations.
