(* ===== verification/GPCorrect.v ===== *)
(** * The general purpose allocator is correct

    The size classes, the safety of small objects and large regions together,
    and the fault handler of large regions (src/src/native/GeneralPurposeAllocator.h).
    The slab, virtual and page-table theorems meet here: they share one page
    allocator. *)

From S2P Require Import Prelude Pfn MemMap PageAllocator BuddyInvariant.
From S2P Require Import Slab SlabInvariant SlabCorrect SlabSize VMemAllocator VMem VMemCorrect GeneralPurposeAllocator.

(** ** Size classes *)

Lemma Indexer_spec sizes size : forall k,
  match Indexer k sizes size with
  | Some i => exists j h, i = (k + j)%nat /\ sizes !! j = Some h /\ size <= h /\
      forall j' h', (j' < j)%nat -> sizes !! j' = Some h' -> h' < size
  | None => forall j h, sizes !! j = Some h -> h < size
  end.
Proof.
  induction sizes as [|h l IH]; intros k; cbn [Indexer]; [done |].
  destruct (Z.leb_spec size h).
  - exists O, h. split_and!; [lia | done | done | lia].
  - specialize (IH (S k)). destruct (Indexer (S k) l size) as [i|].
    + destruct IH as (j & h' & -> & Hj & Hs & Hlt). exists (S j), h'. split_and!; [lia | done | done |].
      intros [|j'] h'' Hj' Hl; [by injection Hl as <- | apply (Hlt j'); [lia | done]].
    + intros [|j] h' Hl; [by injection Hl as <- | by apply (IH j)].
Qed.

(** The roots of the size classes. *)
Definition gp_root_list : list SlabAllocatorRoot :=
  match Construct gp_sizes with Ok l => l | Fail _ => [] end.
Definition gp_default : SlabAllocatorRoot := mkRoot 8 8 0 256 1024.
Definition gp_roots (r : nat) : SlabAllocatorRoot := default gp_default (gp_root_list !! r).

(** [new SlabAllocatorRoot(head)] passes 0 as the alignment, which rounds up to
    that of a pointer. *)
Lemma new_root_default size : new_SlabAllocatorRoot size 0 = new_SlabAllocatorRoot size (2 ^ 3).
Proof. done. Qed.

Lemma Construct_ok sizes :
  Forall (fun z => 0 <= z <= kMaxSlabSize) sizes ->
  exists l, Construct sizes = Ok l /\ Forall2 (fun z r => root_ok r /\ z <= size_ r) sizes l.
Proof.
  induction 1 as [|z sizes Hz _ (l & IH & Hl)]; [by exists [] |]. cbn [Construct]. rewrite new_root_default.
  destruct (new_root_spec z 3 Hz) as (r & -> & Hr & Hs & _); [lia |]. rewrite bind_Ok, IH, bind_Ok.
  exists (r :: l). split; [done |]. by constructor.
Qed.

Lemma gp_roots_spec : Forall2 (fun z r => root_ok r /\ z <= size_ r) gp_sizes gp_root_list.
Proof.
  destruct (Construct_ok gp_sizes) as (l & E & Hl).
  - unfold gp_sizes. change kMaxSlabSize with 8388608. repeat constructor; lia.
  - unfold gp_root_list. by rewrite E.
Qed.

Lemma gp_roots_ok r : root_ok (gp_roots r).
Proof.
  unfold gp_roots. destruct (gp_root_list !! r) as [x|] eqn:E; cbn.
  - destruct (Forall2_lookup_r _ _ _ _ _ gp_roots_spec E) as (z & _ & Hx & _). done.
  - constructor; cbn; unfold kMaxOrder; try lia. by vm_compute.
Qed.

(** A request of up to 8 MB is served from the smallest size class that holds
    it, whose slabs fit in the page allocator's blocks and whose objects are at
    least as large as the request; larger requests get a region of their own. *)
Theorem gp_class_correct size :
  match Indexer 0 gp_sizes size with
  | Some i => size <= size_ (gp_roots i) /\ root_ok (gp_roots i) /\
      (exists h, gp_sizes !! i = Some h /\ size <= h) /\
      forall j h, (j < i)%nat -> gp_sizes !! j = Some h -> h < size
  | None => 8 * 1024 * 1024 < size
  end.
Proof.
  pose proof (Indexer_spec gp_sizes size 0) as Hi. destruct (Indexer 0 gp_sizes size) as [i|].
  - destruct Hi as (j & h & -> & Hj & Hs & Hlt). cbn [Nat.add]. split_and!; [| apply gp_roots_ok | eauto | exact Hlt].
    destruct (Forall2_lookup_l _ _ _ _ _ gp_roots_spec Hj) as (r & Hr & _ & Hsz).
    unfold gp_roots. rewrite Hr. cbn. lia.
  - apply (Hi 22%nat). done.
Qed.

Section Correct.
Context {P : Type} `{PageSourceOk P}.
Context (roots : nat -> SlabAllocatorRoot) (Hroots : forall r, root_ok (roots r)).
Context (sizes : list Z).
Context (node_of : nat -> Z).
Implicit Types s : GP P.

Notation SlabInv := (SlabInv roots).

(** ** The pages a large region takes *)

Definition large_block (pfn : Z) : block := (pfn, large_page_order).

(** The traversal has taken the large pages of [m.2] and the page tables [T]. *)
Definition lm_ok (S : list (Z * nat)) (X : list block) (p0 : P) (m : LargeMap (P := P)) : Prop :=
  exists T, holds (allocator m.1) ((slab_block roots <$> S) ++ (large_block <$> m.2) ++ T ++ X) /\
    (forall x, covers (slab_block roots <$> S) x -> ps_page (allocator m.1) x = ps_page p0 x).

Lemma lm_alloc_ok S X p0 me k m pfn m' :
  (k <= kMaxOrder)%nat -> lm_ok S X p0 m -> lm_alloc node_of me k m = Ok (pfn, m') ->
  m'.2 = m.2 /\
  exists T, holds (allocator m'.1) ((pfn, k) :: (slab_block roots <$> S) ++ (large_block <$> m.2) ++ T ++ X) /\
    (forall x, covers (slab_block roots <$> S) x -> ps_page (allocator m'.1) x = ps_page p0 x).
Proof.
  intros Hk (T & Hh & Hp) E. unfold lm_alloc in E.
  destruct (ps_Alloc_ok _ _ k (node_of me) Hh Hk) as (pfn' & p' & E' & Hat & Hc). rewrite E', bind_Ok in E.
  apply bind_ok in E as (_ & Hn%kassert_ok & E). injection E as <- <-. cbn. split; [done |].
  destruct Hc as [[-> _]|[_ Hh']]; [by rewrite Z.eqb_refl in Hn |]. exists T. split; [done |].
  intros x Hx. rewrite Hat; [by apply Hp |]. rewrite covers_app. by left.
Qed.

Lemma lm_found_ok S X p0 me e b n m m' :
  lm_ok S X p0 m -> lm_found node_of me e b n m = Ok m' -> lm_ok S X p0 m'.
Proof.
  intros Hm E. unfold lm_found in E. apply bind_ok in E as (_ & _ & E). apply bind_ok in E as ([pfn m1] & Ha & E).
  apply (lm_alloc_ok S X p0) in Ha as (H2 & T & Hh & Hp); [| by vm_compute; lia | done].
  injection E as <-. exists T. cbn. split; [| done]. eapply holds_perm; [| exact Hh].
  rewrite H2, fmap_app. cbn. solve_Permutation.
Qed.

Lemma lm_empty_ok S X p0 me e m b m' :
  lm_ok S X p0 m -> lm_empty node_of me e m = Ok (b, m') -> lm_ok S X p0 m'.
Proof.
  intros Hm E. unfold lm_empty in E. apply bind_ok in E as ([pfn m1] & Ha & E).
  apply (lm_alloc_ok S X p0) in Ha as (H2 & T & Hh & Hp); [| lia | done].
  injection E as <- <-. exists ((pfn, O) :: T). cbn. split; [| done]. eapply holds_perm; [| exact Hh].
  rewrite H2. cbn. solve_Permutation.
Qed.

Lemma map_large_inv S X U me root vaddr sz s vec s' :
  SlabInv S X U (slab s) -> map_large node_of me root vaddr sz s = Ok (vec, s') ->
  exists T, SlabInv S ((large_block <$> vec) ++ T ++ X) U (slab s') /\
    vregions s' = vregions s /\ handlers s' = handlers s.
Proof.
  intros I E. unfold map_large in E. apply bind_ok in E as ([m pfns] & Ht & E). injection E as <- <-. cbn.
  eapply (traversal_preserves _ _ _ (lm_ok S X (pages (slab s)))) in Ht as (T & Hh & Hp).
  - exists T. split_and!; [| done | done]. eapply (inv_pages roots Hroots); [exact I | exact Hh |].
    intros x Hx. unfold slab_at, PfnToPage. cbn. cbn in Hp. by rewrite Hp.
  - intros e b n y y' Hy Hf. by eapply lm_found_ok.
  - intros e y b y' Hy Hf. by eapply lm_empty_ok.
  - exists []. cbn. split; [apply I | done].
Qed.

(** ** Small objects and large regions together *)

(** The slab invariant and the tiling of virtual memory; [X] grows with the
    large regions. *)
Definition gp_inv (U : list (Z * nat)) s : Prop :=
  (exists S X, SlabInv S X U (slab s)) /\ tiled range_hi (vregions s) range_lo.

(** What an allocation adds to the objects held: nothing when it is a region. *)
Definition gp_new (size a : Z) : list (Z * nat) :=
  match Indexer 0 sizes size with Some i => [(a, i)] | None => [] end.

Inductive gp_step : GP P * list (Z * nat) -> GP P * list (Z * nat) -> Prop :=
| gp_alloc me root size s U a s' :
    0 < size < 2 ^ 63 -> GPAlloc roots sizes node_of me root size s = Ok (a, s') ->
    gp_step (s, U) (s', gp_new size a ++ U)
| gp_alloc_aligned me root size k s U a s' :
    0 < size < 2 ^ 63 -> 0 <= k < 63 -> GPAllocAligned roots sizes node_of me root size (2 ^ k) s = Ok (a, s') ->
    gp_step (s, U) (s', gp_new size a ++ U)
| gp_alloc_nid me size nid s U a s' :
    0 < size < 2 ^ 63 -> GPAllocNid roots sizes node_of me size nid s = Ok (a, s') ->
    gp_step (s, U) (s', gp_new size a ++ U)
| gp_free me a r s U U' s' :
    U ≡ₚ (a, r) :: U' -> 0 < a <= 0xFFFF800000000000 -> GPFree roots node_of me a s = Ok s' ->
    gp_step (s, U) (s', U').

(** A region of whole large pages, of at least the size asked. *)
Lemma region_size size :
  0 < size < 2 ^ 63 ->
  exists n, AlignUp size large_page_size = n * large_page_size /\ 0 < n /\ size <= n * large_page_size /\
    n * large_page_size / kPageSize = n * 512 /\ n * 512 < 2 ^ 64.
Proof.
  intros Hs. change large_page_size with (2 ^ 21).
  destruct (AlignUp_pow2 size 21) as (d & -> & Hd & Hr); [lia | lia | lia |].
  apply Z.mod_divide in Hd as [n ->]; [| lia]. exists n. split_and!; [done | lia | lia | | lia].
  change (n * 2 ^ 21 / kPageSize) with (n * (512 * 4096) / 4096). rewrite Z.mul_assoc. by apply Z.div_mul.
Qed.

Lemma GPAlloc_slab me root size s a s' i :
  Indexer 0 sizes size = Some i -> GPAlloc roots sizes node_of me root size s = Ok (a, s') ->
  exists x, SlabAlloc roots node_of me i (slab s) = Ok (Some a, x) /\ s' = set_slab x s.
Proof.
  intros Ei. unfold GPAlloc. rewrite Ei. intros ([ret x] & Ha & E)%bind_ok.
  destruct ret; [| done]. injection E as <- <-. eauto.
Qed.

Lemma slab_alloc_gp U s x a i me c nid :
  gp_inv U s -> alloc_or_grow roots me c nid (slab s) = Ok (Some a, x) -> cache_root c = i ->
  gp_inv ([(a, i)] ++ U) (set_slab x s).
Proof.
  intros [(S & X & I) Ht] E <-. edestruct (alloc_post roots Hroots) as [S' I']; [exact I | exact E |].
  split; [| done]. by exists S', X.
Qed.

(** The tail of both allocations of a region. *)
Lemma region_gp U s n k h v vfn hs s' me root sz vec :
  gp_inv U s -> 0 < n < 2 ^ 64 -> 0 <= k -> VAllocAligned n (2 ^ k) h (vregions s) = Ok (vfn, v) ->
  map_large node_of me root (ToAddr vfn) sz (mkGP (slab s) (words_ s) v hs) = Ok (vec, s') ->
  gp_inv U s'.
Proof.
  intros [(S & X & I) Ht] Hn Hk Ev Em. destruct range_bounds as [B0 B1].
  pose proof (VAllocAligned_spec _ _ B0 B1 _ n k h Ht Hn Hk) as Hv. rewrite Ev in Hv. destruct Hv as [[Ht' _] _].
  apply (map_large_inv S X U) in Em as (Y & I' & Hvr & _); [| done].
  split; [eauto |]. by rewrite Hvr.
Qed.

Lemma align_pages k : 0 <= k < 63 -> AlignUp (2 ^ k) large_page_size / kPageSize = 2 ^ Z.max 9 (k - 12).
Proof.
  intros Hk. change large_page_size with (2 ^ 21). change kPageSize with (2 ^ 12).
  assert (AlignUp (2 ^ k) (2 ^ 21) = 2 ^ Z.max 21 k) as ->.
  { assert (0 < 2 ^ k) as Hp by (apply pow2_pos; lia).
    assert (2 ^ k < 2 ^ 63) as Hlt by (apply Z.pow_lt_mono_r; lia).
    destruct (AlignUp_pow2 (2 ^ k) 21) as (d & -> & Hd & Hr); [lia | lia | lia |].
    apply Z.mod_divide in Hd as [q ->]; [| lia]. destruct (Z.le_gt_cases k 21).
    - rewrite Z.max_l by done. assert (2 ^ k <= 2 ^ 21) by (apply Z.pow_le_mono_r; lia). lia.
    - rewrite Z.max_r by lia. replace (2 ^ k) with (2 ^ (k - 21) * 2 ^ 21) in * by (rewrite <- Z.pow_add_r by lia; f_equal; lia). lia. }
  rewrite <- Z.pow_sub_r by lia. f_equal. lia.
Qed.

Lemma gp_step_inv x y : gp_step x y -> gp_inv x.2 x.1 -> gp_inv y.2 y.1.
Proof.
  intros Hs I. destruct Hs as [me root size s U a s' Hz E|me root size k s U a s' Hz Hk E|me size nid s U a s' Hz E|me a r s U U' s' HU Ha E];
    cbn in I |- *.
  - unfold GPAlloc in E. unfold gp_new. destruct (Indexer 0 sizes size) as [i|].
    + apply bind_ok in E as ([[b|] x] & Ha & E); [| done]. injection E as <- <-. by eapply slab_alloc_gp.
    + destruct (region_size size Hz) as (n & Hsz & Hn & _ & Hnp & Hb). cbv zeta in E. rewrite Hsz, Hnp in E.
      apply bind_ok in E as ([vfn v] & Ev & E). apply bind_ok in E as (_ & _ & E).
      apply bind_ok in E as ([vec s1] & Em & E). injection E as <- <-. cbn.
      assert (gp_inv U s1) as I1 by (eapply (region_gp U s _ 9); [done | | lia | exact Ev | exact Em]; lia). exact I1.
  - unfold GPAllocAligned in E. unfold gp_new. destruct (Indexer 0 sizes size) as [i|].
    + apply bind_ok in E as ([[b|] x] & Ha & E); [| done]. injection E as <- <-. by eapply slab_alloc_gp.
    + destruct (region_size size Hz) as (n & Hsz & Hn & _ & Hnp & Hb). cbv zeta in E.
      rewrite Hsz, Hnp, align_pages in E by done.
      apply bind_ok in E as ([vfn v] & Ev & E). apply bind_ok in E as (_ & _ & E).
      apply bind_ok in E as ([vec s1] & Em & E). injection E as <- <-. cbn.
      eapply (region_gp U s (n * 512)); [done | | | exact Ev | exact Em]; lia.
  - unfold GPAllocNid in E. unfold gp_new. destruct (Indexer 0 sizes size) as [i|]; [| done].
    apply bind_ok in E as ([[b|] x] & Ha & E); [| done]. injection E as <- <-.
    unfold SlabAllocNid, NodeAlloc in Ha. case_match; by eapply slab_alloc_gp.
  - destruct I as [(S & X & I) Ht]. apply (SlabInv_perm roots S S X U ((a, r) :: U') _ (reflexivity S) HU) in I.
    destruct (object_home roots Hroots _ _ _ _ a r I) as (page & c & Hp & Hc & Hr & _); [set_solver |].
    unfold GPFree in E. destruct (Z.eqb_spec a 0); [lia |]. destruct (Z.ltb_spec 0xFFFF800000000000 a); [lia |].
    rewrite Hp, Hc, Hr in E. apply bind_ok in E as (x & Hf & E). injection E as <-.
    destruct (SlabFree_inv roots Hroots node_of S X U' (slab s) me r a I) as (S' & s1 & Hf' & I').
    rewrite Hf in Hf'. injection Hf' as <-. split; [| done]. by exists S', X.
Qed.

(** [w]: the page tables at boot. *)
Definition new_GP (w : gmap Z Z) (p : P) : GP P := mkGP (new_Slab p) w new_VMemAllocator [].

Lemma gp_reachable w p X x : holds p X -> rtc gp_step (new_GP w p, []) x -> gp_inv x.2 x.1.
Proof.
  intros Hh Hr. assert (gp_inv [] (new_GP w p)) as I0.
  { split; [exists [], X; by apply new_Slab_inv | by vm_compute]. }
  remember (new_GP w p, []) as y eqn:Ey. assert (gp_inv y.2 y.1) as I by (by subst). clear Ey I0.
  induction Hr as [|y z x Hyz _ IH]; [done |]. by eapply IH, gp_step_inv.
Qed.

(** ** Large regions *)

(** A traversal over whole large pages takes one large page for each. *)
Lemma map_large_count me root v n s vec s' :
  map_large node_of me root (v * large_page_size) (n * large_page_size) s = Ok (vec, s') ->
  0 < n -> 2 ^ 64 - 2 ^ 47 <= v * large_page_size -> (v + n) * large_page_size <= 2 ^ 64 - 2 ^ 21 ->
  Z.of_nat (length vec) = n.
Proof.
  intros E Hn Hlo Hhi. unfold map_large in E. apply bind_ok in E as ([m pfns] & Ht & E). injection E as <- <-.
  change large_page_size with 2097152 in *. rewrite u64_small in Ht by lia.
  set (m0 := (mkMemory (words_ s) (pages (slab s)), [])) in Ht.
  assert (forall e y b y', lm_empty node_of me e y = Ok (b, y') -> b = true) as Hemp.
  { intros e y b y' Hy. unfold lm_empty in Hy. apply bind_ok in Hy as ([pfn m1] & _ & Hy). by injection Hy as <- _. }
  pose proof (traversal_spec lm_read (lm_found node_of me) (lm_empty node_of me)
    (v * 2097152) (v * 2097152 + n * 2097152) root m0 Hemp) as Hc. rewrite Ht in Hc.
  destruct Hc as (l & Hl & Hlog); [lia | lia | | | right; lia |].
  { exists (v * 512). change kPageSize with 4096. lia. }
  { exists ((v + n) * 512). change kPageSize with 4096. lia. }
  eapply (traversal_preserves _ _ _ (fun x => length x.1.2 = length x.2)) in Hlog; [| | | done].
  - cbn in Hlog. rewrite Hlog. change 2097152 with (page_step 1) in *.
    assert (v * page_step 1 + Z.of_nat (length l) * page_step 1 = v * page_step 1 + n * page_step 1) as Heq.
    { eapply tiles_large_length; [| apply Z.le_refl | by apply Z.divide_factor_r | exact Hl].
      apply Z.divide_add_r; by apply Z.divide_factor_r. }
    pose proof (page_step_pos 1). apply (Z.mul_reg_r _ _ (page_step 1)); lia.
  - intros e b k y y' Hy Hf. unfold found_log in Hf. apply bind_ok in Hf as (y1 & Hf & Hy'). injection Hy' as <-. cbn.
    rewrite length_app. cbn. unfold lm_found in Hf. apply bind_ok in Hf as (_ & _ & Hf). apply bind_ok in Hf as ([pfn m1] & Ha & Hf).
    injection Hf as <-. cbn. rewrite length_app. cbn. unfold lm_alloc in Ha. apply bind_ok in Ha as ([q p'] & _ & Ha).
    apply bind_ok in Ha as (_ & _ & Ha). injection Ha as _ <-. cbn. by f_equal.
  - intros e y b y' Hy Hf. unfold empty_log in Hf. apply bind_ok in Hf as ([b1 y1] & Hf & Hy'). injection Hy' as _ <-. cbn.
    unfold lm_empty in Hf. apply bind_ok in Hf as ([pfn m1] & Ha & Hf). injection Hf as _ <-. cbn.
    unfold lm_alloc in Ha. apply bind_ok in Ha as ([q p'] & _ & Ha). apply bind_ok in Ha as (_ & _ & Ha). by injection Ha as _ <-.
Qed.

Lemma LDown_eq addr : 0 <= addr < 2 ^ 64 -> ToLAddr (PfnLDown addr) = addr / large_page_size * large_page_size.
Proof.
  intros Ha. unfold ToLAddr, PfnLDown. rewrite Z.shiftr_div_pow2, Z.shiftl_mul_pow2 by done.
  change (2 ^ kLargePageShift) with large_page_size. rewrite u64_small; [done |].
  assert (0 < large_page_size) by done. pose proof (Z.mul_div_le addr large_page_size ltac:(done)).
  pose proof (Z.div_pos addr large_page_size). lia.
Qed.

(** The handler of a region at [q] large pages finds the page of every address. *)
Lemma large_fault_spec q vec addr :
  0 <= q -> (q + Z.of_nat (length vec)) * large_page_size <= 2 ^ 64 ->
  q * large_page_size <= addr < (q + Z.of_nat (length vec)) * large_page_size ->
  exists pfn, vec !! Z.to_nat (addr / large_page_size - q) = Some pfn /\
    large_fault (mkLargeRegion (q * large_page_size) vec) addr = Ok (addr / large_page_size * large_page_size, pfn).
Proof.
  intros Hq Hhi Ha. assert (0 < large_page_size) as Hl by done.
  assert (q <= addr / large_page_size < q + Z.of_nat (length vec)) as Hd.
  { split; [apply Z.div_le_lower_bound; lia | apply Z.div_lt_upper_bound; lia]. }
  destruct (lookup_lt_is_Some_2 vec (Z.to_nat (addr / large_page_size - q))) as [pfn Hp]; [lia |].
  exists pfn. split; [done |]. unfold large_fault. cbn [sAddr vecPfns].
  rewrite LDown_eq by lia. change kLargePageSize with large_page_size.
  rewrite <- Z.mul_sub_distr_r, Z.div_mul by done.
  assert ((q * large_page_size <=? addr / large_page_size * large_page_size) = true) as ->.
  { apply Z.leb_le, Z.mul_le_mono_nonneg_r; lia. }
  assert ((addr / large_page_size - q <? Z.of_nat (length vec)) = true) as -> by (apply Z.ltb_lt; lia).
  cbn [kassert]. rewrite !bind_Ok, Hp. done.
Qed.

(** What both allocations of a region of [n] large pages achieve. *)
Lemma region_spec U s n k h v vfn hs s' me root vec :
  gp_inv U s -> 0 < n -> n * 512 < 2 ^ 64 -> 9 <= k ->
  VAllocAligned (n * 512) (2 ^ k) h (vregions s) = Ok (vfn, v) ->
  map_large node_of me root (ToAddr vfn) (n * large_page_size) (mkGP (slab s) (words_ s) v hs) = Ok (vec, s') ->
  exists q, ToAddr vfn = q * large_page_size /\ kVMemRangeStart <= q * large_page_size /\
    (q + n) * large_page_size <= kVMemStart /\ q mod 2 ^ (k - 9) = 0 /\ Z.of_nat (length vec) = n /\
    vregions s' = v /\ handlers s' = hs /\
    separated (large_block <$> vec) /\ tiled range_hi v range_lo /\
    (q * 512, q * 512 + n * 512, h) ∈ in_use range_hi v.
Proof.
  intros [(S & X & I) Ht] Hn Hb Hk Ev Em. destruct range_bounds as [B0 B1].
  pose proof (VAllocAligned_spec _ _ B0 B1 _ (n * 512) k h Ht ltac:(lia) ltac:(lia)) as Hv. rewrite Ev in Hv.
  destruct Hv as [(Ht' & Hu & Hlo & Hhi) Hmod].
  assert (exists q, vfn = q * 512 /\ q mod 2 ^ (k - 9) = 0) as (q & -> & Hq).
  { apply Z.mod_divide in Hmod as [x ->]; [| apply Z.pow_nonzero; lia].
    assert (2 ^ k = 2 ^ (k - 9) * 2 ^ 9) as -> by (rewrite <- Z.pow_add_r by lia; f_equal; lia).
    exists (x * 2 ^ (k - 9)). split; [lia |].
    apply Z.mod_mul, Z.pow_nonzero; lia. }
  change range_lo with 0xFFFF800000000 in Hlo. change range_hi with 0xFFFFFFFF00000 in Hhi.
  assert (ToAddr (q * 512) = q * large_page_size) as Ha.
  { rewrite ToAddr_eq by lia. change large_page_size with (512 * kPageSize). lia. }
  rewrite Ha in Em. exists q. change kVMemRangeStart with (0xFFFF800000000 * 4096).
  change kVMemStart with (0xFFFFFFFF00000 * 4096). change large_page_size with (512 * 4096) in *.
  pose proof Em as Ec. apply map_large_count in Ec; change large_page_size with (512 * 4096) in *; [| lia..].
  apply (map_large_inv S X U) in Em as (T & I' & Hvr & Hhs); [| done].
  pose proof (holds_sep _ _ (si_hold _ _ _ _ _ I')) as (_ & (Hsep & _)%separated_app & _)%separated_app.
  split_and!; try done; try lia. rewrite Hu. by left.
Qed.

Lemma region_fault v q n addr h :
  tiled range_hi v range_lo -> 0 <= addr < 2 ^ 64 -> (q * 512, q * 512 + n * 512, h) ∈ in_use range_hi v ->
  q * large_page_size <= addr < (q + n) * large_page_size ->
  HandlePageFault addr v = match h with Some h => Ok (ToHandler h addr) | None => Fail UndefinedBehaviour end.
Proof.
  intros Ht Ha Hin Hr. destruct (page_fault_spec v addr Ht Ha) as [Hf _]. apply (Hf _ _ _ Hin).
  unfold PfnDown. rewrite Z.shiftr_div_pow2 by done. change (2 ^ kPageShift) with 4096.
  change large_page_size with (512 * 4096) in Hr.
  split; [apply Z.div_le_lower_bound; lia | apply Z.div_lt_upper_bound; lia].
Qed.


(** A request of more than 8 MB with an alignment gets a region aligned as
    asked, but without a fault handler: a core that did not map it and touches
    it makes the fault handler call through a null pointer. *)
Theorem aligned_region_unhandled w p X s U me root size k a s' :
  holds p X -> rtc gp_step (new_GP w p, []) (s, U) ->
  Indexer 0 sizes size = None -> 0 < size < 2 ^ 63 -> 0 <= k < 63 ->
  GPAllocAligned roots sizes node_of me root size (2 ^ k) s = Ok (a, s') ->
  a mod 2 ^ k = 0 /\ a mod large_page_size = 0 /\
  forall addr, a <= addr < a + size -> HandlePageFault addr (vregions s') = Fail UndefinedBehaviour.
Proof.
  intros Hh Hr Ei Hs Hk E. apply (gp_reachable w p X) in Hr as I; [| done]. cbn in I.
  unfold GPAllocAligned in E. rewrite Ei in E. destruct (region_size size Hs) as (n & Hsz & Hn & Hle & Hnp & Hb).
  cbv zeta in E. rewrite Hsz, Hnp, align_pages in E by done.
  apply bind_ok in E as ([vfn v] & Ev & E). apply bind_ok in E as (_ & _ & E).
  apply bind_ok in E as ([vec s1] & Em & E). injection E as <- <-.
  destruct (region_spec U s n (Z.max 9 (k - 12)) _ v vfn _ s1 me root vec I Hn Hb ltac:(lia) Ev Em)
    as (q & -> & Hlo & Hhi & Hq & _ & -> & _ & _ & Ht & Hin).
  assert (0 < large_page_size) as Hl by done. split_and!.
  - apply Z.mod_divide in Hq as [x ->]; [| apply Z.pow_nonzero; lia].
    change large_page_size with (2 ^ 21). rewrite <- Z.mul_assoc, <- Z.pow_add_r by lia.
    replace (2 ^ (Z.max 9 (k - 12) - 9 + 21)) with (2 ^ (Z.max 21 k - k) * 2 ^ k)
      by (rewrite <- Z.pow_add_r by lia; f_equal; lia).
    rewrite Z.mul_assoc. apply Z.mod_mul, Z.pow_nonzero; lia.
  - by apply Z.mod_mul.
  - intros addr Ha. change kVMemStart with 0xFFFFFFFF00000000 in Hhi.
    change kVMemRangeStart with 0xFFFF800000000000 in Hlo.
    assert (q * large_page_size <= addr < (q + n) * large_page_size) as Hr' by lia.
    by rewrite (region_fault v q n addr None Ht ltac:(lia) Hin Hr').
Qed.

(** ** Safety *)

Context (Hsizes : forall i h, sizes !! i = Some h -> h <= size_ (roots i)).


End Correct.
