(* ===== verification/GPWitness.v ===== *)
(** * The allocators on a concrete machine

    A machine with 4096 pages, whose upper 3584 are released at boot: the
    theorems on the slab and the general purpose allocator applied to it, and
    the requests whose outcome is not the documented one. *)

From S2P Require Import Prelude Pfn MemMap PageAllocator BuddyInvariant BuddyChecker BuddyCorrect BuddyInit.
From S2P Require Import Slab SlabInvariant SlabCorrect SlabPages SlabSize VMemAllocator VMem VMemCorrect.
From S2P Require Import GeneralPurposeAllocator GPCorrect.

Definition gp_map : gmap Z Page :=
  list_to_map ((fun i => (Z.of_nat i, new_Page 0)) <$> seq 0 (Z.to_nat 4096)).
Definition gp_boot : pstate := mkPstate (new_PageAllocator 0) gp_map.
Definition released (st : pstate) : pstate :=
  match InitRange st 512 4096 with Ok st => st | Fail _ => st end.
Definition gp_mem : pstate := released gp_boot.

Lemma gp_map_lookup x : gp_map !! x = if decide (0 <= x < 4096) then Some (new_Page 0) else None.
Proof.
  unfold gp_map. case_decide as Hx.
  - apply elem_of_list_to_map_1.
    + rewrite <- list_fmap_compose. apply NoDup_fmap; [intros i j; cbn; lia | apply NoDup_seq].
    + apply list_elem_of_fmap. exists (Z.to_nat x). split; [f_equal; lia | apply elem_of_seq; lia].
  - apply not_elem_of_list_to_map_1. rewrite <- list_fmap_compose, list_elem_of_fmap.
    intros (i & -> & Hi%elem_of_seq). cbn in Hx. lia.
Qed.

Lemma gp_mem_holds : holds gp_mem [].
Proof.
  destruct (InitRange_spec [] gp_boot 512 4096) as (st & E & I & _ & _ & _ & Ha); try lia.
  - apply Inv_new. intros p page. rewrite gp_map_lookup. case_decide; [| done]. by intros [= <-].
  - intros x Hx. split.
    + intros (b & Hb & _). change (blocks [] [] gp_boot) with (@nil block) in Hb. set_solver.
    + change (mem_map gp_boot) with gp_map. rewrite gp_map_lookup, decide_True by lia. eauto.
  - unfold gp_mem, released. rewrite E. split; [done |]. intros ?. done.
Qed.

(** CR3, at 0x1000, points to an empty table at 0x2000. *)
Definition gp_tables : gmap Z Z := {[ 0x1000 := Pte.SetNormal 0x2000 ]}.
Definition gp_state : GP pstate := new_GP gp_tables gp_mem.

(** ** Runs *)

(** The value returned and the state after, separately: only the first is ever
    compared. *)
Definition value {A B} (o : outcome (A * B)) : option A := match o with Ok (a, _) => Some a | Fail _ => None end.
Definition after {A B} (d : B) (o : outcome (A * B)) : B := match o with Ok (_, b) => b | Fail _ => d end.

Lemma run_eq {A B} (o : outcome (A * B)) (d : B) a : value o = Some a -> o = Ok (a, after d o).
Proof. destruct o as [[a' b]|]; cbn; [by intros [= ->] | done]. Qed.

Definition node0 : nat -> Z := fun _ => 0.

(** Core 0, then core 1 allocate an object of 96 bytes. *)
Definition slab_0 : Slab pstate := new_Slab gp_mem.
Definition slab_1 : Slab pstate := after slab_0 (SlabAlloc gp_roots node0 0 4 slab_0).
Definition slab_2 : Slab pstate := after slab_1 (SlabAlloc gp_roots node0 1 4 slab_1).

Lemma slab_run1 : SlabAlloc gp_roots node0 0 4 slab_0 = Ok (Some 0x200F60, slab_1).
Proof. apply run_eq. vm_compute. reflexivity. Qed.

Lemma slab_run2 : SlabAlloc gp_roots node0 1 4 slab_1 = Ok (Some 0x201F60, slab_2).
Proof. apply run_eq. vm_compute. reflexivity. Qed.

Lemma slab_runs : rtc (slab_step gp_roots node0) (slab_0, []) (slab_2, [(0x201F60, 4%nat); (0x200F60, 4%nat)]).
Proof.
  eapply rtc_l; [exact (step_alloc gp_roots node0 0 4 _ [] _ _ slab_run1) |].
  eapply rtc_l; [exact (step_alloc gp_roots node0 1 4 _ _ _ _ slab_run2) | apply rtc_refl].
Qed.

Lemma slab_safe_witness :
  disjoint_objects gp_roots (0x201F60, 4%nat) (0x200F60, 4%nat) /\
  exists s', SlabFree gp_roots node0 1 4 0x200F60 slab_2 = Ok s'.
Proof.
  destruct (slab_safe gp_roots gp_roots_ok node0 gp_mem [] slab_2 _ gp_mem_holds slab_runs) as (Hd & _ & _ & _ & Hf).
  split; [by apply (Hd 0%nat 1%nat) | apply Hf; by right; left].
Defined.

(** ** The general purpose allocator *)

Notation gp_alloc_ := (GPAlloc gp_roots gp_sizes node0).
Notation gp_aligned_ := (GPAllocAligned gp_roots gp_sizes node0).

Lemma gp_class_size i h : gp_sizes !! i = Some h -> h <= size_ (gp_roots i).
Proof.
  intros Hh. destruct (Forall2_lookup_l _ _ _ _ _ gp_roots_spec Hh) as (r & Hr & _ & Hs).
  unfold gp_roots. by rewrite Hr.
Qed.

(** The page table of core 0 is at 0x1000.  It allocates 100 bytes, then a region
    of 8 MB and a byte. *)
Definition gp_1 : GP pstate := after gp_state (gp_alloc_ 0 0x1000 100 gp_state).
Definition gp_2 : GP pstate := after gp_1 (gp_alloc_ 0 0x1000 0x800001 gp_1).

Lemma gp_run1 : gp_alloc_ 0 0x1000 100 gp_state = Ok (0x200F80, gp_1).
Proof. apply run_eq. vm_compute. reflexivity. Qed.

Lemma gp_run2 : gp_alloc_ 0 0x1000 0x800001 gp_1 = Ok (0xFFFFFFFEFF600000, gp_2).
Proof. apply run_eq. vm_compute. reflexivity. Qed.

Lemma gp_run3 : gp_aligned_ 0 0x1000 0x800001 (2 ^ 22) gp_1 = Ok (0xFFFFFFFEFF400000, after gp_1 (gp_aligned_ 0 0x1000 0x800001 (2 ^ 22) gp_1)).
Proof. apply run_eq. vm_compute. reflexivity. Qed.

Lemma gp_runs1 : rtc (gp_step gp_roots gp_sizes node0) (gp_state, []) (gp_1, [(0x200F80, 5%nat)]).
Proof. apply rtc_once. refine (gp_alloc gp_roots gp_sizes node0 0 0x1000 100 _ [] _ _ _ gp_run1). lia. Qed.

Lemma gp_runs2 : rtc (gp_step gp_roots gp_sizes node0) (gp_state, []) (gp_2, [(0x200F80, 5%nat)]).
Proof.
  eapply rtc_r; [exact gp_runs1 |].
  refine (gp_alloc gp_roots gp_sizes node0 0 0x1000 0x800001 _ _ _ _ _ gp_run2). lia.
Qed.



Lemma aligned_region_unhandled_witness :
  0xFFFFFFFEFF400000 mod 2 ^ 22 = 0 /\
  HandlePageFault 0xFFFFFFFEFF400000 (vregions (after gp_1 (gp_aligned_ 0 0x1000 0x800001 (2 ^ 22) gp_1))) = Fail UndefinedBehaviour.
Proof.
  destruct (aligned_region_unhandled gp_roots gp_roots_ok gp_sizes node0 gp_tables gp_mem [] gp_1 _ 0 0x1000 0x800001 22
    0xFFFFFFFEFF400000 (after gp_1 (gp_aligned_ 0 0x1000 0x800001 (2 ^ 22) gp_1)) gp_mem_holds gp_runs1) as (Ha & _ & Hf); [reflexivity | lia | lia | exact gp_run3 |].
  split; [exact Ha | apply Hf; lia].
Defined.
