(* ===== verification/Newlib.v ===== *)
(** * The memory functions of the C library

    Models src/src/native/Newlib.cc, [ebbrt_newlib_malloc] to
    [ebbrt_newlib_memalign], on the general purpose allocator and a memory of
    bytes, and shows what they keep of the C library's contract. *)

From S2P Require Import Prelude Pfn MemMap PageAllocator BuddyInvariant.
From S2P Require Import Slab SlabInvariant SlabCorrect SlabPages SlabSize VMemAllocator VMem VMemCorrect.
From S2P Require Import GeneralPurposeAllocator GPCorrect GPWitness.

Record Heap (P : Type) := mkHeap { gp : GP P; bytes : gmap Z Z }.
Arguments mkHeap {P}.
Arguments gp {P}.
Arguments bytes {P}.

Definition read_byte (m : gmap Z Z) (a : Z) : Z := default 0 (m !! a).

(** [std::memcpy] of [n] bytes, and [std::memset] to zero. *)
Definition memcpy (dst src : Z) (n : nat) (m : gmap Z Z) : gmap Z Z :=
  foldr (fun i m' => <[dst + Z.of_nat i := read_byte m (src + Z.of_nat i)]> m') m (seq 0 n).
Definition memset0 (dst : Z) (n : nat) (m : gmap Z Z) : gmap Z Z :=
  foldr (fun i m' => <[dst + Z.of_nat i := 0]> m') m (seq 0 n).

Section Operations.
Context {P : Type} `{PageSource P}.
Context (roots : nat -> SlabAllocatorRoot) (sizes : list Z) (node_of : nat -> Z).
Context (me : nat) (root : Z).

Definition newlib_malloc (size : Z) (h : Heap P) : outcome (Z * Heap P) :=
  '(p, g) ← GPAlloc roots sizes node_of me root size (gp h);
  Ok (p, mkHeap g (bytes h)).

Definition newlib_free (ptr : Z) (h : Heap P) : outcome (Heap P) :=
  g ← GPFree roots node_of me ptr (gp h);
  Ok (mkHeap g (bytes h)).

Definition newlib_realloc (buf size : Z) (h : Heap P) : outcome (Z * Heap P) :=
  '(p, h) ← newlib_malloc size h;
  if negb (buf =? 0) then Ok (p, mkHeap (gp h) (memcpy p buf (Z.to_nat size) (bytes h)))
  else Ok (p, h).

Definition newlib_calloc (num size : Z) (h : Heap P) : outcome (Z * Heap P) :=
  '(p, h) ← newlib_malloc (u64 (num * size)) h;
  if p =? 0 then Ok (p, h)
  else Ok (p, mkHeap (gp h) (memset0 p (Z.to_nat (u64 (num * size))) (bytes h))).

Definition newlib_memalign (alignment size : Z) (h : Heap P) : outcome (Z * Heap P) :=
  let size := Z.max size alignment in
  '(ptr, g) ← GPAllocAligned roots sizes node_of me root size alignment (gp h);
  _ ← kassert (AlignDown ptr alignment =? ptr);
  Ok (ptr, mkHeap g (bytes h)).
End Operations.

(** ** Memory *)

Lemma foldr_store (f : Z -> Z) dst n m x :
  read_byte (foldr (fun i m' => <[dst + Z.of_nat i := f (Z.of_nat i)]> m') m (seq 0 n)) x =
  if decide (dst <= x < dst + Z.of_nat n) then f (x - dst) else read_byte m x.
Proof.
  enough (forall k, read_byte (foldr (fun i m' => <[dst + Z.of_nat i := f (Z.of_nat i)]> m') m (seq k n)) x =
    if decide (dst + Z.of_nat k <= x < dst + Z.of_nat (k + n)) then f (x - dst) else read_byte m x) as Hk.
  { rewrite (Hk O). by rewrite Z.add_0_r. }
  induction n as [|n IH]; intros k; cbn.
  - rewrite decide_False by lia. done.
  - unfold read_byte. destruct (decide (x = dst + Z.of_nat k)) as [->|Hx].
    + rewrite lookup_insert_eq, decide_True by lia. cbn. f_equal. lia.
    + rewrite lookup_insert_ne by done. fold (read_byte (foldr (fun i m' => <[dst + Z.of_nat i := f (Z.of_nat i)]> m') m (seq (S k) n)) x).
      rewrite IH. do 2 case_decide; try done; lia.
Qed.

Lemma memcpy_spec dst src n m x :
  read_byte (memcpy dst src n m) x =
  if decide (dst <= x < dst + Z.of_nat n) then read_byte m (src + (x - dst)) else read_byte m x.
Proof. apply (foldr_store (fun i => read_byte m (src + i))). Qed.

Lemma memset0_spec dst n m x :
  read_byte (memset0 dst n m) x = if decide (dst <= x < dst + Z.of_nat n) then 0 else read_byte m x.
Proof. apply (foldr_store (fun _ => 0)). Qed.

(** ** Alignment *)

Lemma cache_class size i :
  0 < size -> size mod 64 = 0 -> Indexer 0 gp_sizes size = Some i -> size_ (gp_roots i) mod 64 = 0.
Proof.
  intros H0 Hm E. pose proof (Indexer_spec gp_sizes size 0) as Hi. rewrite E in Hi.
  destruct Hi as (j & h & -> & Hj & Hs & Hlt). cbn [Nat.add].
  apply Z.mod_divide in Hm as [q ->]; [| lia].
  destruct (decide (h < 64)); [lia |].
  destruct (decide (j = 4%nat)) as [->|Hj4].
  { injection Hj as <-. specialize (Hlt 3%nat 64 ltac:(lia) eq_refl). lia. }
  assert (forallb (fun k => (k <? 3)%nat || (k =? 4)%nat || (size_ (gp_roots k) mod 64 =? 0)) (seq 0 23) = true) as Ha
    by (vm_compute; reflexivity).
  assert (j < 23)%nat as Hj' by (by apply lookup_lt_Some in Hj).
  rewrite forallb_forall in Ha. specialize (Ha j ltac:(apply in_seq; lia)).
  assert (~ (j < 3)%nat).
  { intros Hj3. destruct j as [|[|[|j]]]; [.. | lia]; injection Hj as <-; lia. }
  destruct (Nat.ltb_spec j 3); [done |]. destruct (Nat.eqb_spec j 4); [done |]. by apply Z.eqb_eq in Ha.
Qed.

Section Correct.
Context {P : Type} `{PageSourceOk P}.
Context (node_of : nat -> Z).
Notation memalign := (newlib_memalign gp_roots gp_sizes node_of).
Notation realloc := (newlib_realloc gp_roots gp_sizes node_of).
Notation calloc := (newlib_calloc gp_roots gp_sizes node_of).
Notation step := (gp_step gp_roots gp_sizes node_of).
Implicit Types h : Heap P.

(** An object is aligned as its class is. *)
Lemma object_aligned S X U (s : Slab P) a r :
  SlabInv gp_roots S X U s -> (a, r) ∈ U -> size_ (gp_roots r) mod 64 = 0 -> a mod 64 = 0.
Proof.
  intros I Ha Hm. assert ((a, r) ∈ (S ≫= slab_objs gp_roots)) as Ho.
  { rewrite (si_perm _ _ _ _ _ I), !elem_of_app. auto. }
  apply slab_objs_elem in Ho as (pfn & Hp & Ho).
  pose proof (slab_wf gp_roots _ _ _ _ _ _ I Hp) as Hwf.
  apply (slab_objects_elem _ (gp_roots_ok r)) in Ho as (i & _ & ->).
  rewrite (slab_addr _ _ Hwf). apply Z.mod_divide in Hm as [q ->]; [| lia].
  apply Z.mod_divide; [lia |]. exists (pfn * 64 + i * q). change kPageSize with (64 * 64). lia.
Qed.

(** [memalign] for a cache line (the only use of it in the kernel) gives a
    pointer aligned to 64 bytes for every size that is a multiple of 64 and has a
    size class, and stops only when the page allocator has no block for a slab. *)
Theorem memalign_cache_line w p X h U me root size :
  holds p X -> rtc step (new_GP w p, []) (gp h, U) -> 0 < size <= 8 * 1024 * 1024 -> size mod 64 = 0 ->
  (exists a h', memalign me root 64 size h = Ok (a, h') /\ a mod 64 = 0) \/
  (memalign me root 64 size h = Fail AssertFailed /\
   exists q q' k, ps_Alloc q k (node_of me) = Ok (PfnNone, q')).
Proof.
  intros Hh Hr Hs Hm. apply (gp_reachable gp_roots gp_roots_ok gp_sizes node_of w p X) in Hr as [(S & Y & I) _]; [| done].
  cbn in I. assert (64 <= size) by (apply Z.mod_divide in Hm as [q ->]; lia).
  unfold newlib_memalign. rewrite Z.max_l by done. unfold GPAllocAligned.
  destruct (Indexer 0 gp_sizes size) as [i|] eqn:Ei.
  2: { pose proof (Indexer_spec gp_sizes size 0) as Hi. rewrite Ei in Hi. specialize (Hi 22%nat _ eq_refl). lia. }
  unfold SlabAlloc.
  destruct (alloc_or_grow_inv gp_roots gp_roots_ok S Y U (slab (gp h)) me (mkCacheId i (OfCpu me)) (node_of me) I)
    as (ret & S' & s' & -> & Hp).
  rewrite bind_Ok. destruct ret as [a|].
  - left. assert (a mod 64 = 0) as Ha.
    { eapply (object_aligned S' Y _ s' a i); [exact Hp | by left | by eapply cache_class; [| | exact Ei]; lia]. }
    exists a, (mkHeap (set_slab s' (gp h)) (bytes h)). split; [| done].
    rewrite bind_Ok. change 64 with (2 ^ 6) in Ha |- *. rewrite AlignDown_pow2, Ha, Z.sub_0_r, Z.eqb_refl by done. done.
  - right. split; [done |]. destruct Hp as (_ & _ & q & Hq). by exists q, (pages s'), (order_ (gp_roots i)).
Qed.

(** [realloc] returns a block that holds the bytes of the old one, but the old
    block stays allocated: the caller holds both. *)
Theorem realloc_copies h U me root buf size a h' :
  0 < size < 2 ^ 63 -> buf <> 0 -> realloc me root buf size h = Ok (a, h') ->
  step (gp h, U) (gp h', gp_new gp_sizes size a ++ U) /\
  forall i, 0 <= i < size -> read_byte (bytes h') (a + i) = read_byte (bytes h) (buf + i).
Proof.
  intros Hs Hb E. unfold newlib_realloc, newlib_malloc in E. apply bind_ok in E as ([p h1] & E1 & E).
  apply bind_ok in E1 as ([p' g] & Eg & E1). injection E1 as <- <-. destruct (Z.eqb_spec buf 0); [done |].
  injection E as <- <-. split; [by eapply gp_alloc |]. intros i Hi. cbn.
  rewrite memcpy_spec, decide_True by lia. f_equal. lia.
Qed.

(** [calloc] returns a block of zeroes when the product of its arguments fits
    in 64 bits; when it does not, the block has the size of the wrapped product. *)
Theorem calloc_zeroed h U me root num size a h' :
  0 < u64 (num * size) < 2 ^ 63 -> calloc me root num size h = Ok (a, h') ->
  step (gp h, U) (gp h', gp_new gp_sizes (u64 (num * size)) a ++ U) /\
  (a <> 0 -> forall i, 0 <= i < u64 (num * size) -> read_byte (bytes h') (a + i) = 0).
Proof.
  intros Hs E. unfold newlib_calloc, newlib_malloc in E. apply bind_ok in E as ([p h1] & E1 & E).
  apply bind_ok in E1 as ([p' g] & Eg & E1). injection E1 as <- <-. destruct (Z.eqb_spec p' 0) as [->|Hp].
  - injection E as <- <-. split; [by eapply gp_alloc | done].
  - injection E as <- <-. split; [by eapply gp_alloc |]. intros _ i Hi. cbn. rewrite memset0_spec, decide_True by lia. done.
Qed.
End Correct.

(** ** On the concrete machine *)

Definition heap_0 : Heap pstate := mkHeap gp_state ∅.

Lemma memalign_cache_line_witness :
  exists a h', newlib_memalign gp_roots gp_sizes node0 0 0x1000 64 128 heap_0 = Ok (a, h') /\ a mod 64 = 0.
Proof.
  destruct (memalign_cache_line node0 gp_tables gp_mem [] heap_0 [] 0 0x1000 128 gp_mem_holds) as [Hok|[Hf _]];
    [apply rtc_refl | lia | done | exact Hok |].
  assert (isOk (newlib_memalign gp_roots gp_sizes node0 0 0x1000 64 128 heap_0) = true) as Hc by (vm_compute; reflexivity).
  rewrite Hf in Hc. discriminate Hc.
Defined.

(** [memalign(64, 96)] on a fresh machine: the size class of 96 bytes is not
    aligned to a cache line, and the check of the result stops the machine. *)
Theorem memalign_96_stops : newlib_memalign gp_roots gp_sizes node0 0 0x1000 64 96 heap_0 = Fail AssertFailed.
Proof. vm_compute. reflexivity. Qed.
