(* ===== verification/Locks.v ===== *)
(** * Locks and barriers

    Models src/src/SpinLock.h, src/src/SpinBarrier.h and the mutexes of
    src/src/native/Gthread.cc, with the interleaving of the cores at each atomic
    operation. *)

From S2P Require Import Prelude.

(** ** SpinLock *)

Module SpinLock.

Inductive pc := Outside | Spinning | Inside.

(** [lock_], and where each core is. *)
Record state := mkState { flag : bool; cores : list pc }.

(** [lock]: one [test_and_set]; [unlock]: the clear. *)
Definition try_lock (i : nat) (s : state) : state :=
  if flag s then mkState true (<[i := Spinning]> (cores s)) else mkState true (<[i := Inside]> (cores s)).
Definition unlock (i : nat) (s : state) : state := mkState false (<[i := Outside]> (cores s)).

Inductive step : state -> state -> Prop :=
| step_lock i s p : cores s !! i = Some p -> p <> Inside -> step s (try_lock i s)
| step_unlock i s : cores s !! i = Some Inside -> step s (unlock i s).

Definition start (n : nat) : state := mkState false (replicate n Outside).

Definition ok (s : state) : Prop :=
  (forall i, cores s !! i = Some Inside -> flag s = true) /\
  (forall i j, cores s !! i = Some Inside -> cores s !! j = Some Inside -> i = j).

Lemma step_ok s s' : step s s' -> ok s -> ok s'.
Proof.
  intros Hs [Hf Hu]. destruct Hs as [i s p Hi Hp|i s Hi].
  - unfold try_lock. destruct (flag s) eqn:Ef; (split; cbn; [done |]); intros j k Hj Hk.
    + apply list_lookup_insert_Some in Hj as [(-> & [=] & _)|[_ Hj]], Hk as [(-> & [=] & _)|[_ Hk]]. eauto.
    + apply list_lookup_insert_Some in Hj as [(-> & _ & _)|[_ Hj]], Hk as [(-> & _ & _)|[_ Hk]]; [done | | | eauto];
        [apply Hf in Hk | apply Hf in Hj]; congruence.
  - split; cbn; [intros j Hj | intros j k Hj Hk].
    + apply list_lookup_insert_Some in Hj as [(-> & [=] & _)|[Hne Hj]]. exfalso. apply Hne. by eapply Hu.
    + apply list_lookup_insert_Some in Hj as [(-> & [=] & _)|[_ Hj]], Hk as [(-> & [=] & _)|[_ Hk]]. eauto.
Qed.

(** Over any interleaving of the cores at most one is between [lock] and
    [unlock], and a core that finds the flag clear gets the lock. *)
Theorem spin_lock_exclusive n s :
  rtc step (start n) s ->
  (forall i j, cores s !! i = Some Inside -> cores s !! j = Some Inside -> i = j) /\
  (forall i p, cores s !! i = Some p -> (forall j, cores s !! j <> Some Inside) -> flag s = false ->
     cores (try_lock i s) !! i = Some Inside).
Proof.
  intros Hr. assert (ok s) as [_ Hu].
  { assert (ok (start n)) as H0 by (split; [intros i | intros i j]; cbn; rewrite lookup_replicate; by intros [[=] _]).
    revert H0. induction Hr as [|x y z Hxy _ IH]; [done |]. intros H0. by eapply IH, step_ok. }
  split; [done |]. intros i p Hi _ Hf. unfold try_lock. rewrite Hf. cbn. apply list_lookup_insert_eq. by eapply lookup_lt_Some.
Qed.

Lemma spin_lock_exclusive_witness : rtc step (start 2) (try_lock 1 (try_lock 0 (start 2))) /\
  forall i j, cores (try_lock 1 (try_lock 0 (start 2))) !! i = Some Inside ->
    cores (try_lock 1 (try_lock 0 (start 2))) !! j = Some Inside -> i = j.
Proof.
  assert (rtc step (start 2) (try_lock 1 (try_lock 0 (start 2)))) as Hr.
  { eapply rtc_l; [by eapply (step_lock 0) |]. apply rtc_once. by eapply (step_lock 1). }
  split; [exact Hr |]. exact (proj1 (spin_lock_exclusive 2 _ Hr)).
Defined.
End SpinLock.

(** ** SpinBarrier *)

Module Barrier.

(** Where a core is in [Wait]: not in it, after the load of completed_, in the
    loop, or the last to arrive, before the store and before the second
    [fetch_add]. *)
Inductive pc := Out | Loaded (step : Z) | Waiting (step : Z) | Last | Releasing.
Record core := mkCore { at_ : pc; passed : nat }.        (* [passed]: how often it left [Wait] *)

Record state := mkState { n_ : nat; waiters_ : Z; completed_ : Z; cores : list core }.

Definition put (i : nat) (c : core) (w d : Z) (s : state) : state := mkState (n_ s) w d (<[i := c]> (cores s)).

(** One atomic operation of [Wait] on core [i]. *)
Definition move (i : nat) (s : state) : option state :=
  match cores s !! i with
  | None => None
  | Some (mkCore p k) =>
      match p with
      | Out => Some (put i (mkCore (Loaded (completed_ s)) k) (waiters_ s) (completed_ s) s)
      | Loaded step =>
          let last := waiters_ s =? u32 (Z.of_nat (n_ s) - 1) in
          Some (put i (mkCore (if last then Last else Waiting step) k) (u32 (waiters_ s + 1)) (completed_ s) s)
      | Last => Some (put i (mkCore Releasing k) 0 (completed_ s) s)
      | Releasing => Some (put i (mkCore Out (S k)) (waiters_ s) (u32 (completed_ s + 1)) s)
      | Waiting step =>
          if completed_ s =? step then Some s
          else Some (put i (mkCore Out (S k)) (waiters_ s) (completed_ s) s)
      end
  end.

Inductive step : state -> state -> Prop := step_move i s s' : move i s = Some s' -> step s s'.

Definition start (n : nat) : state := mkState n 0 0 (replicate n (mkCore Out 0)).

Definition arrived (c : core) : bool := match at_ c with Waiting _ | Last | Releasing => true | _ => false end.

(** ** Counting *)

Definition b2n (b : bool) : nat := if b then 1 else 0.
Definition tally {A} (f : A -> bool) (l : list A) : nat := sum_list_with (fun x => b2n (f x)) l.

Lemma tally_insert {A} (f : A -> bool) l i x y :
  l !! i = Some x -> (tally f (<[i := y]> l) + b2n (f x) = tally f l + b2n (f y))%nat.
Proof.
  intros Hx. assert (tally f l = tally f (take i l ++ x :: drop (S i) l)) as -> by (by rewrite take_drop_middle).
  rewrite insert_take_drop by (by eapply lookup_lt_Some). unfold tally. rewrite !sum_list_with_app. cbn. lia.
Qed.

Lemma tally_le {A} (f : A -> bool) l : (tally f l <= length l)%nat.
Proof. induction l as [|x l IH]; cbn; [lia |]. unfold tally in IH. destruct (f x); cbn; lia. Qed.

Lemma tally_lt {A} (f : A -> bool) l i x : l !! i = Some x -> f x = false -> (S (tally f l) <= length l)%nat.
Proof.
  revert i. induction l as [|a l IH]; intros i Hi Hx; [done |].
  change (tally f (a :: l)) with (b2n (f a) + tally f l)%nat. cbn [length].
  destruct i as [|i]; cbn in Hi.
  - injection Hi as ->. rewrite Hx. pose proof (tally_le f l). cbn. lia.
  - specialize (IH i Hi Hx). destruct (f a); cbn; lia.
Qed.

Lemma tally_lt2 {A} (f : A -> bool) l i x j y :
  l !! i = Some x -> l !! j = Some y -> i <> j -> f x = false -> f y = false -> (S (S (tally f l)) <= length l)%nat.
Proof.
  revert i j. induction l as [|a l IH]; intros i j Hi Hj Hij Hx Hy; [done |].
  change (tally f (a :: l)) with (b2n (f a) + tally f l)%nat. cbn [length].
  destruct i as [|i], j as [|j]; cbn in Hi, Hj; try done.
  - injection Hi as ->. rewrite Hx. pose proof (tally_lt f l j y Hj Hy). cbn. lia.
  - injection Hj as ->. rewrite Hy. pose proof (tally_lt f l i x Hi Hx). cbn. lia.
  - specialize (IH i j Hi Hj ltac:(congruence) Hx Hy). destruct (f a); cbn; lia.
Qed.

(** If all but one satisfy [f] and [x] does not, the others do. *)
Lemma tally_others {A} (f : A -> bool) l i x :
  l !! i = Some x -> f x = false -> S (tally f l) = length l -> forall j y, l !! j = Some y -> j <> i -> f y = true.
Proof.
  intros Hx Hf Hn j y Hy Hji. destruct (f y) eqn:Hfy; [done |].
  pose proof (tally_lt2 f l i x j y Hx Hy ltac:(done) Hf Hfy). lia.
Qed.

(** ** The rounds

    In round [r], [completed_] is [r] modulo 2^32; a core has left [Wait] [r]
    times, or [r - 1] times and is still in the loop of the last round. *)
Definition in_round (r : nat) (c : core) : Prop :=
  (passed c = r /\ match at_ c with Loaded st | Waiting st => st = u32 (Z.of_nat r) | _ => True end) \/
  (S (passed c) = r /\ at_ c = Waiting (u32 (Z.of_nat (passed c)))).

Definition counted (r : nat) (c : core) : bool := (passed c =? r)%nat && arrived c.

Definition leading (c : core) : bool := match at_ c with Last | Releasing => true | _ => false end.

(** Everyone but [i] waits for round [r] to complete. *)
Definition led (r : nat) (i : nat) (p : pc) (s : state) : Prop :=
  cores s !! i = Some (mkCore p r) /\
  forall j c, cores s !! j = Some c -> j <> i -> c = mkCore (Waiting (u32 (Z.of_nat r))) r.

Inductive phase (r : nat) (s : state) : Prop :=
| gathering : (forall j c, cores s !! j = Some c -> leading c = false) ->
    waiters_ s = Z.of_nat (tally (counted r) (cores s)) -> (tally (counted r) (cores s) < n_ s)%nat -> phase r s
| complete i : led r i Last s -> phase r s
| released i : led r i Releasing s -> waiters_ s = 0 -> phase r s.

Record Inv (r : nat) (s : state) : Prop := {
  inv_n : (0 < n_ s)%nat /\ Z.of_nat (n_ s) < 2 ^ 32;
  inv_len : length (cores s) = n_ s;
  inv_done : completed_ s = u32 (Z.of_nat r);
  inv_cores : forall j c, cores s !! j = Some c -> in_round r c;
  inv_phase : phase r s
}.

Lemma Inv_start n : (0 < n)%nat -> Z.of_nat n < 2 ^ 32 -> Inv 0 (start n).
Proof.
  intros Hn Hw. split; cbn; [done | apply length_replicate | done | |].
  - intros j c Hc. apply lookup_replicate in Hc as [-> _]. by left.
  - assert (tally (counted 0) (replicate n (mkCore Out 0)) = 0%nat) as Ht by (clear; induction n; [done | exact IHn]).
    apply gathering; cbn -[tally counted]; rewrite ?Ht; [| done | done].
    intros j c Hc. by apply lookup_replicate in Hc as [-> _].
Qed.

(** While cores gather, a core that is not the last to arrive moves within the
    round and is counted when it arrives. *)
Lemma gather_put r s i c c' w :
  Inv r s -> (forall j c, cores s !! j = Some c -> leading c = false) -> cores s !! i = Some c ->
  in_round r c' -> leading c' = false ->
  w = Z.of_nat (tally (counted r) (<[i := c']> (cores s))) -> (tally (counted r) (<[i := c']> (cores s)) < n_ s)%nat ->
  Inv r (put i c' w (completed_ s) s).
Proof.
  intros HI Hl Hi Hc' Hl' Hw Hlt. split; cbn; [apply HI | rewrite length_insert; apply HI | apply HI | |].
  - intros j d Hd. apply list_lookup_insert_Some in Hd as [(-> & <- & _)|[_ Hd]]; [done | by eapply (inv_cores _ _ HI)].
  - apply gathering; cbn; [| done | done].
    intros j d Hd. apply list_lookup_insert_Some in Hd as [(-> & <- & _)|[_ Hd]]; eauto.
Qed.

Lemma arrive_gathering r s i k st :
  Inv r s -> (forall j c, cores s !! j = Some c -> leading c = false) ->
  waiters_ s = Z.of_nat (tally (counted r) (cores s)) -> (tally (counted r) (cores s) < n_ s)%nat ->
  cores s !! i = Some (mkCore (Loaded st) k) ->
  Inv r (put i (mkCore (if waiters_ s =? u32 (Z.of_nat (n_ s) - 1) then Last else Waiting st) k)
    (u32 (waiters_ s + 1)) (completed_ s) s).
Proof.
  intros HI Hl Hw Hlt Hi. destruct (inv_cores _ _ HI _ _ Hi) as [[Hk Hst]|[_ [=]]]. cbn in Hk, Hst. subst k st.
  pose proof (inv_n _ _ HI) as [Hn0 Hn1].
  assert (u32 (Z.of_nat (n_ s) - 1) = Z.of_nat (n_ s) - 1) as -> by (apply Z.mod_small; lia).
  assert (u32 (waiters_ s + 1) = waiters_ s + 1) as -> by (apply Z.mod_small; lia).
  pose proof (tally_insert (counted r) _ _ _ (mkCore (Waiting (u32 (Z.of_nat r))) r) Hi) as Ht.
  unfold counted in Ht at 2 4. cbn in Ht. rewrite Nat.eqb_refl in Ht. cbn in Ht.
  destruct (Z.eqb_spec (waiters_ s) (Z.of_nat (n_ s) - 1)) as [E|E].
  - assert (forall j c, cores s !! j = Some c -> j <> i -> c = mkCore (Waiting (u32 (Z.of_nat r))) r) as Ho.
    { intros j [p k] Hj Hji. assert (counted r (mkCore p k) = true) as Hc.
      { eapply (tally_others _ _ i); [exact Hi | | | exact Hj | done].
        - unfold counted. cbn. apply andb_false_r.
        - rewrite (inv_len _ _ HI). lia. }
      apply andb_prop in Hc as [Hk Ha]. apply Nat.eqb_eq in Hk. cbn in Hk. subst k.
      specialize (Hl _ _ Hj). destruct (inv_cores _ _ HI _ _ Hj) as [[_ Hst]|[Hbad _]]; cbn in *; [| lia].
      destruct p; try discriminate. by subst. }
    split; cbn; [apply HI | rewrite length_insert; apply HI | apply HI | |].
    + intros j d Hd. apply list_lookup_insert_Some in Hd as [(-> & <- & _)|[_ Hd]]; [by left | by eapply (inv_cores _ _ HI)].
    + apply (complete _ _ i). split; cbn; [apply list_lookup_insert_eq; by eapply lookup_lt_Some |].
      intros j d Hd Hji. apply list_lookup_insert_Some in Hd as [(-> & _ & _)|[_ Hd]]; [done | eauto].
  - eapply gather_put; [done | done | exact Hi | by left | done | lia | lia].
Qed.

Lemma u32_succ (r : nat) : u32 (u32 (Z.of_nat r) + 1) = u32 (Z.of_nat (S r)).
Proof. unfold u32, wrap. rewrite Zplus_mod_idemp_l. f_equal. lia. Qed.

Lemma u32_succ_ne (r : nat) : u32 (Z.of_nat (S r)) <> u32 (Z.of_nat r).
Proof.
  unfold u32, wrap. intros E. replace (Z.of_nat (S r)) with (Z.of_nat r + 1) in E by lia.
  pose proof (Z.div_mod (Z.of_nat r) (2 ^ 32) ltac:(lia)). pose proof (Z.div_mod (Z.of_nat r + 1) (2 ^ 32) ltac:(lia)).
  rewrite E in H0. nia.
Qed.

Lemma move_gathering r s i s' :
  Inv r s -> (forall j c, cores s !! j = Some c -> leading c = false) ->
  waiters_ s = Z.of_nat (tally (counted r) (cores s)) -> (tally (counted r) (cores s) < n_ s)%nat ->
  move i s = Some s' -> Inv r s'.
Proof.
  intros HI Hl Hw Hlt E. unfold move in E. destruct (cores s !! i) as [[p k]|] eqn:Hi; [| done].
  pose proof (inv_cores _ _ HI _ _ Hi) as Hc. pose proof (Hl _ _ Hi) as Hli.
  destruct p; try discriminate.
  - injection E as <-. destruct Hc as [[Hk _]|[_ [=]]]. cbn in Hk. subst k.
    pose proof (tally_insert (counted r) _ _ _ (mkCore (Loaded (completed_ s)) r) Hi) as Ht.
    unfold counted in Ht at 2 4. cbn in Ht. rewrite andb_false_r in Ht. cbn in Ht.
    eapply gather_put; [done | done | exact Hi | | done | lia | lia]. left. split; [done |]. apply HI.
  - injection E as <-. by apply arrive_gathering.
  - destruct (Z.eqb_spec (completed_ s) step0) as [_|Hne]; injection E as <-; [done |].
    rewrite (inv_done _ _ HI) in Hne. destruct Hc as [[_ Hst]|[Hk _]]; cbn in *; [congruence |].
    pose proof (tally_insert (counted r) _ _ _ (mkCore Out (S k)) Hi) as Ht.
    unfold counted in Ht at 2 4. cbn in Ht. rewrite andb_false_r in Ht.
    assert ((k =? r)%nat = false) as Hkr by (apply Nat.eqb_neq; lia). rewrite Hkr in Ht. cbn in Ht.
    eapply gather_put; [done | done | exact Hi | by left | done | lia | lia].
Qed.

Lemma led_ins r i p q w d s :
  led r i p s -> led r i q (put i (mkCore q r) w d s).
Proof.
  intros [Hi Ho]. split; cbn; [apply list_lookup_insert_eq; by eapply lookup_lt_Some |].
  intros j c Hc Hji. apply list_lookup_insert_Some in Hc as [(-> & _ & _)|[_ Hc]]; [done | eauto].
Qed.

(** In a round that is complete the cores that wait do not move. *)
Lemma led_others r i p s j s' : Inv r s -> led r i p s -> j <> i -> move j s = Some s' -> s' = s.
Proof.
  intros HI [Hi Ho] Hji E. unfold move in E. destruct (cores s !! j) as [c|] eqn:Hj; [| done].
  rewrite (Ho _ _ Hj Hji), (inv_done _ _ HI), Z.eqb_refl in E. congruence.
Qed.

(** The last [fetch_add] starts the next round. *)
Lemma release_next r i s : Inv r s -> led r i Releasing s -> waiters_ s = 0 ->
  Inv (S r) (put i (mkCore Out (S r)) 0 (u32 (completed_ s + 1)) s).
Proof.
  intros HI [Hi Ho] Hw.
  assert (forall j c, <[i := mkCore Out (S r)]> (cores s) !! j = Some c ->
    c = mkCore Out (S r) \/ c = mkCore (Waiting (u32 (Z.of_nat r))) r) as Hall.
  { intros j c Hc. apply list_lookup_insert_Some in Hc as [(-> & <- & _)|[Hji Hc]]; [by left | right; by eapply Ho]. }
  assert (tally (counted (S r)) (<[i := mkCore Out (S r)]> (cores s)) = 0%nat) as Ht.
  { revert Hall. generalize (<[i := mkCore Out (S r)]> (cores s)). clear. intros l. induction l as [|c l IH]; intros Hall; [done |].
    change (tally (counted (S r)) (c :: l)) with (b2n (counted (S r) c) + tally (counted (S r)) l)%nat.
    rewrite IH by (intros j d Hd; exact (Hall (S j) d Hd)).
    destruct (Hall 0%nat c eq_refl) as [->| ->]; unfold counted; cbn; [by rewrite andb_false_r |].
    destruct (Nat.eqb_spec r (S r)); [lia | done]. }
  split; cbn; [apply HI | rewrite length_insert; apply HI | rewrite (inv_done _ _ HI); apply u32_succ | |].
  - intros j c Hc. destruct (Hall _ _ Hc) as [->| ->]; [by left | by right].
  - apply gathering; cbn -[tally counted]; rewrite ?Ht; [| done | apply HI].
    intros j c Hc. by destruct (Hall _ _ Hc) as [->| ->].
Qed.

Lemma Inv_move r s i s' : Inv r s -> move i s = Some s' -> Inv r s' \/ Inv (S r) s'.
Proof.
  intros HI E. destruct (inv_phase _ _ HI) as [Hl Hw Hlt|l Hd|l Hd Hw].
  - left. by eapply move_gathering.
  - left. destruct (decide (i = l)) as [->|Hne]; [| by rewrite (led_others _ _ _ _ _ _ HI Hd Hne E)].
    unfold move in E. rewrite (proj1 Hd) in E. injection E as <-.
    split; cbn; [apply HI | rewrite length_insert; apply HI | apply HI | |].
    + intros j c Hc. apply list_lookup_insert_Some in Hc as [(-> & <- & _)|[_ Hc]]; [by left | by eapply (inv_cores _ _ HI)].
    + apply (released _ _ l); [by eapply led_ins | done].
  - destruct (decide (i = l)) as [->|Hne]; [| left; by rewrite (led_others _ _ _ _ _ _ HI Hd Hne E)].
    right. unfold move in E. rewrite (proj1 Hd) in E. injection E as <-. rewrite Hw. by apply release_next.
Qed.

Lemma Inv_reach n s : (0 < n)%nat -> Z.of_nat n < 2 ^ 32 -> rtc step (start n) s -> exists r, Inv r s.
Proof.
  intros Hn Hw Hr. assert (exists r, Inv r (start n)) as H0 by (eexists; by apply Inv_start).
  revert H0. induction Hr as [|x y z [i ? ? E] _ IH]; [done |]. intros [r HI]. apply IH.
  destruct (Inv_move _ _ _ _ HI E); eauto.
Qed.

(** A core that has not arrived in the round can move on. *)
Lemma Inv_progress r s : Inv r s -> (forall j c, cores s !! j = Some c -> at_ c <> Out) ->
  exists i s', move i s = Some s' /\ s' <> s.
Proof.
  intros HI Hin.
  assert (forall i c c' w d, cores s !! i = Some c -> c <> c' -> put i c' w d s <> s) as Hput.
  { intros i c c' w d Hi Hne E. apply (f_equal (fun x => cores x !! i)) in E. cbn in E.
    rewrite list_lookup_insert_eq in E by (by eapply lookup_lt_Some). congruence. }
  destruct (inv_phase _ _ HI) as [Hl Hw Hlt|l [Hd _]|l [Hd _] _].
  - assert (exists i c, cores s !! i = Some c /\ counted r c = false) as (i & [p k] & Hi & Hc).
    { rewrite <- (inv_len _ _ HI) in Hlt. revert Hlt. generalize (cores s). clear. intros l. induction l as [|c l IH]; [cbn; lia |].
      destruct (counted r c) eqn:E; [| intros _; by exists 0%nat, c].
      change (tally (counted r) (c :: l)) with (b2n (counted r c) + tally (counted r) l)%nat. rewrite E. cbn. intros Hlt.
      destruct IH as (i & d & Hi & Hd); [lia |]. by exists (S i), d. }
    exists i. unfold move. rewrite Hi. specialize (Hin _ _ Hi). specialize (Hl _ _ Hi).
    destruct (inv_cores _ _ HI _ _ Hi) as [[Hk Hst]|[Hk Hst]]; cbn in *; subst.
    + destruct p; try discriminate; [done | |].
      * eexists. split; [done |]. eapply Hput; [exact Hi |]. intros [=E]. by destruct (_ =? _).
      * unfold counted in Hc. cbn in Hc. by rewrite Nat.eqb_refl in Hc.
    + destruct (Z.eqb_spec (completed_ s) (u32 (Z.of_nat k))) as [E|E].
      * rewrite (inv_done _ _ HI) in E. by apply u32_succ_ne in E.
      * eexists. split; [done |]. by eapply Hput; [exact Hi |].
  - exists l. unfold move. rewrite Hd. eexists. split; [done |]. by eapply Hput; [exact Hd |].
  - exists l. unfold move. rewrite Hd. eexists. split; [done |]. by eapply Hput; [exact Hd |].
Qed.

(** [SpinBarrier]: over any interleaving of [n] cores that reuse the barrier, a
    core leaves its [k]-th [Wait] only when every core has arrived [k] times; no
    core is ever more than one round ahead, although [completed_] wraps around;
    and when all cores are in [Wait] one of them moves on. *)
Theorem barrier_safe n s :
  (0 < n)%nat -> Z.of_nat n < 2 ^ 32 -> rtc step (start n) s ->
  (forall i j ci cj, cores s !! i = Some ci -> cores s !! j = Some cj ->
     (passed ci <= passed cj + b2n (arrived cj))%nat) /\
  ((forall j c, cores s !! j = Some c -> at_ c <> Out) -> exists i s', move i s = Some s' /\ s' <> s).
Proof.
  intros Hn Hw Hr. destruct (Inv_reach _ _ Hn Hw Hr) as [r HI]. split; [| by eapply Inv_progress].
  intros i j ci cj Hi Hj. apply (inv_cores _ _ HI) in Hi, Hj. unfold arrived.
  destruct Hi as [[? _]|[? _]], Hj as [[? _]|[? ->]]; cbn; lia.
Qed.

Definition moves (l : list nat) (s : state) : option state :=
  foldl (fun o i => match o with Some s => move i s | None => None end) (Some s) l.

Lemma moves_rtc l s s' : moves l s = Some s' -> rtc step s s'.
Proof.
  unfold moves. revert s. induction l as [|i l IH]; cbn; intros s E; [by injection E as -> |].
  destruct (move i s) as [t|] eqn:Em; [eapply rtc_l; [by econstructor | by apply IH] |].
  exfalso. clear -E. induction l as [|j l IH]; [done | by apply IH].
Qed.

(** Two cores, the first of which is still in the loop of the first round when
    the other arrives in the second. *)
Definition two_rounds : list nat := [0; 1; 0; 1; 1; 1; 1; 1]%nat.

Lemma barrier_safe_witness : exists s, moves two_rounds (start 2) = Some s /\
  map passed (cores s) = [0; 1]%nat /\ map at_ (cores s) = [Waiting 0; Waiting 1] /\
  exists i s', move i s = Some s' /\ s' <> s.
Proof.
  assert (moves two_rounds (start 2) = Some (mkState 2 1 1 [mkCore (Waiting 0) 0; mkCore (Waiting 1) 1])) as E
    by (vm_compute; reflexivity).
  eexists. split; [exact E |]. split; [reflexivity |]. split; [reflexivity |].
  refine (proj2 (barrier_safe 2 _ ltac:(lia) ltac:(lia) (moves_rtc _ _ _ E)) _).
  intros [|[|j]] c Hc; cbn in Hc; simplify_eq/=; discriminate.
Defined.
End Barrier.
