(* ===== verification/Gthread.v ===== *)
(** * Mutexes, once flags and thread-specific data

    Models src/src/native/Gthread.cc, the threads interface of the C++ runtime on
    top of events: mutexes, recursive mutexes, [once], and the keys of
    thread-specific data; and the lock functions of src/src/native/Newlib.cc,
    which use it. *)

From S2P Require Import Prelude.

(** ** Mutexes: an atomic flag *)

Definition gthread_mutex_init : bool := false.

(** [(returned, flag)] *)
Definition gthread_mutex_trylock (flag : bool) : bool * bool := (negb flag, true).

Definition gthread_mutex_lock (flag : bool) : outcome bool :=
  let '(got, flag) := gthread_mutex_trylock flag in
  if got then Ok flag else Fail AssertFailed.

Definition gthread_mutex_unlock (flag : bool) : bool := false.

(** ** Recursive mutexes

    Every operation but the test of [core] in the loop of [lock] runs with the
    spin lock of the mutex held, as one step. *)

Record RecursiveLock := mkRecursiveLock {
  event_id : Z;          (* uint32_t *)
  count : Z;             (* uint8_t *)
  core : Z               (* int8_t *)
}.

Definition gthread_recursive_mutex_init (l : RecursiveLock) : RecursiveLock := mkRecursiveLock (event_id l) 0 (-1).

Definition s8 (z : Z) : Z := let v := u8 z in if v <? 2 ^ 7 then v else v - 2 ^ 8.

(** [trylock] of event [ev] on core [me]. *)
Definition gthread_recursive_mutex_trylock (ev me : Z) (l : RecursiveLock) : bool * RecursiveLock :=
  if count l =? 255 then (false, l)
  else if count l =? 0 then (true, mkRecursiveLock ev (u8 (count l + 1)) (s8 me))
  else if event_id l =? ev then (true, mkRecursiveLock (event_id l) (u8 (count l + 1)) (s8 me))
  else (false, l).

(** One round of the loop of [lock]: [None] is one more round. *)
Definition lock_round (ev me : Z) (l : RecursiveLock) : outcome (option RecursiveLock) :=
  let '(got, l) := gthread_recursive_mutex_trylock ev me l in
  if got then Ok (Some l)
  else if u8 (core l) =? me then Fail AssertFailed
  else Ok None.

(** [lock] while no other core changes the mutex. *)
Fixpoint gthread_recursive_mutex_lock (fuel : nat) (ev me : Z) (l : RecursiveLock) : outcome RecursiveLock :=
  match fuel with
  | O => Fail Diverges
  | S fuel =>
      r ← lock_round ev me l;
      match r with
      | Some l => Ok l
      | None => gthread_recursive_mutex_lock fuel ev me l
      end
  end.

Definition gthread_recursive_mutex_unlock (l : RecursiveLock) : RecursiveLock :=
  mkRecursiveLock (event_id l) (u8 (count l - 1)) (-1).

(** ** once *)

(** The call up to [func], with whether [func] is called, and its end. *)
Definition gthread_once (flag : Z) : outcome (bool * Z) :=
  if flag =? 0 then Ok (true, 1)
  else
    _ ← kassert (negb (flag =? 1));
    _ ← kassert (flag =? 2);
    Ok (false, flag).

Definition gthread_once_done (flag : Z) : Z := 2.

(** ** Keys of thread-specific data *)

(** [key_create]: the key, and the next value of [key_val]. *)
Definition gthread_key_create (key_val : Z) : Z * Z := (key_val, u64 (key_val + 1)).

(** The map of an event; [operator\[\]] adds a null pointer for a key it has not. *)
Definition gthread_getspecific (key : Z) (m : gmap Z Z) : Z * gmap Z Z :=
  match m !! key with
  | Some v => (v, m)
  | None => (0, <[key := 0]> m)
  end.

Definition gthread_setspecific (key ptr : Z) (m : gmap Z Z) : gmap Z Z := <[key := ptr]> m.

(** ** The locks of Newlib

    [_LOCK_RECURSIVE_T] is initialised as an [RLock], an owner and a count of 32
    bits each, and used as a [RecursiveLock]: the count is the first byte of the
    second word, the core the next. *)
Record RLock := mkRLock { owner : Z; rcount : Z }.

Definition kNoOwner : Z := u32 (-1).

Definition newlib_lock_init_recursive : RLock := mkRLock kNoOwner 0.

Definition as_recursive (l : RLock) : RecursiveLock :=
  mkRecursiveLock (owner l) (u8 (rcount l)) (s8 (Z.shiftr (rcount l) 8)).

Definition newlib_lock_acquire (flag : bool) : outcome bool := gthread_mutex_lock flag.
Definition newlib_lock_release (flag : bool) : bool := gthread_mutex_unlock flag.
Definition newlib_lock_acquire_recursive (fuel : nat) (ev me : Z) (l : RecursiveLock) : outcome RecursiveLock :=
  gthread_recursive_mutex_lock fuel ev me l.
Definition newlib_lock_release_recursive (l : RecursiveLock) : RecursiveLock := gthread_recursive_mutex_unlock l.

(** ** A recursive mutex implements a reentrant lock

    The specification: nobody, or an event and how deep it holds the lock, at most
    255 times. *)
Definition Holder : Type := option (Z * nat).

Definition spec_trylock (ev : Z) (h : Holder) : bool * Holder :=
  match h with
  | None => (true, Some (ev, 1%nat))
  | Some (e, d) => if (e =? ev) && (d <? 255)%nat then (true, Some (e, S d)) else (false, h)
  end.

(** Only the holder unlocks. *)
Definition spec_unlock (ev : Z) (h : Holder) : option Holder :=
  match h with
  | Some (e, d) => if e =? ev then Some (if (d =? 1)%nat then None else Some (e, (d - 1)%nat)) else None
  | None => None
  end.

Inductive op := TryLock (ev me : Z) | Unlock (ev : Z).

Fixpoint spec_run (ops : list op) (h : Holder) : option (list bool * Holder) :=
  match ops with
  | [] => Some ([], h)
  | TryLock ev me :: ops =>
      let '(b, h) := spec_trylock ev h in
      match spec_run ops h with Some (bs, h) => Some (b :: bs, h) | None => None end
  | Unlock ev :: ops => match spec_unlock ev h with Some h => spec_run ops h | None => None end
  end.

Fixpoint run (ops : list op) (l : RecursiveLock) : list bool * RecursiveLock :=
  match ops with
  | [] => ([], l)
  | TryLock ev me :: ops =>
      let '(b, l) := gthread_recursive_mutex_trylock ev me l in
      let '(bs, l) := run ops l in (b :: bs, l)
  | Unlock ev :: ops => run ops (gthread_recursive_mutex_unlock l)
  end.

Definition holds (l : RecursiveLock) (h : Holder) : Prop :=
  match h with
  | None => count l = 0
  | Some (e, d) => event_id l = e /\ count l = Z.of_nat d /\ (1 <= d <= 255)%nat
  end.

Lemma u8_small z : 0 <= z < 256 -> u8 z = z.
Proof. apply Z.mod_small. Qed.

Lemma trylock_holds ev me l h :
  holds l h -> (gthread_recursive_mutex_trylock ev me l).1 = (spec_trylock ev h).1 /\
               holds (gthread_recursive_mutex_trylock ev me l).2 (spec_trylock ev h).2.
Proof.
  intros Hh. unfold gthread_recursive_mutex_trylock, spec_trylock. destruct h as [[e d]|]; cbn in Hh.
  - destruct Hh as (He & Hc & Hd). rewrite He, Hc.
    destruct (Z.eqb_spec (Z.of_nat d) 255) as [E|E].
    { assert ((d <? 255)%nat = false) as -> by (apply Nat.ltb_ge; lia). rewrite andb_false_r. by cbn. }
    assert ((d <? 255)%nat = true) as -> by (apply Nat.ltb_lt; lia). rewrite andb_true_r.
    assert ((Z.of_nat d =? 0) = false) as -> by (apply Z.eqb_neq; lia).
    destruct (Z.eqb_spec e ev) as [->|Hne]; cbn; [| done].
    split; [done |]. split; [done |]. split; [rewrite u8_small by lia |]; lia.
  - rewrite Hh. cbn. split; [done |]. split; [done |]. split; [done | lia].
Qed.

Lemma unlock_holds ev l h h' : holds l h -> spec_unlock ev h = Some h' -> holds (gthread_recursive_mutex_unlock l) h'.
Proof.
  intros Hh E. destruct h as [[e d]|]; [| done]. cbn in Hh, E. destruct Hh as (He & Hc & Hd).
  destruct (e =? ev); [| done]. injection E as <-.
  destruct (Nat.eqb_spec d 1) as [->|Hne]; cbn; rewrite Hc; [done |]. split; [done |]. split; [rewrite u8_small by lia |]; lia.
Qed.

(** Recursive mutexes: over any sequence of operations of any events in which
    only the holder unlocks, [trylock] succeeds exactly when the lock is free or
    the event holds it fewer than 255 times, so that at most one event holds it,
    and it is free again after as many [unlock]s as successful [trylock]s. *)
Theorem recursive_mutex_refines ops l bs h :
  spec_run ops None = Some (bs, h) ->
  exists l', run ops (gthread_recursive_mutex_init l) = (bs, l') /\ holds l' h.
Proof.
  assert (holds (gthread_recursive_mutex_init l) None) as H0 by done. revert H0.
  generalize (gthread_recursive_mutex_init l), (@None (Z * nat)). clear l.
  revert bs h. induction ops as [|o ops IH]; intros bs h l h0 H0 E; cbn in E |- *.
  - injection E as <- <-. by exists l.
  - destruct o as [ev me|ev].
    + pose proof (trylock_holds ev me _ _ H0) as [Hb Hh].
      destruct (gthread_recursive_mutex_trylock ev me l) as [b l1], (spec_trylock ev h0) as [b' h1].
      cbn in Hb, Hh. subst b'. destruct (spec_run ops h1) as [[bs1 h2]|] eqn:E1; [| done]. injection E as <- <-.
      destruct (IH _ _ _ _ Hh E1) as (l' & Hr & Hl). rewrite Hr. by exists l'.
    + destruct (spec_unlock ev h0) as [h1|] eqn:E1; [| done].
      eapply IH; [| exact E]. by eapply unlock_holds.
Qed.

Definition two_events : list op :=
  [TryLock 7 0; TryLock 7 0; TryLock 9 1; Unlock 7; TryLock 9 1; Unlock 7; TryLock 9 1].

Lemma recursive_mutex_refines_witness : exists l',
  run two_events (gthread_recursive_mutex_init (mkRecursiveLock 0 0 0)) = ([true; true; false; false; true], l') /\
  holds l' (Some (9, 1%nat)).
Proof. apply recursive_mutex_refines. vm_compute. reflexivity. Defined.

(** ** Deadlocks *)

Lemma u8_s8 z : 0 <= z < 256 -> u8 (s8 z) = z.
Proof.
  intros Hz. unfold s8. rewrite (u8_small z) by lia. destruct (Z.ltb_spec z (2 ^ 7)).
  - by apply u8_small.
  - unfold u8, wrap. replace (z - 2 ^ 8) with (z + (-1) * 2 ^ 8) by lia. rewrite Z_mod_plus_full. by apply Z.mod_small.
Qed.

(** A mutex that is held and has no core is waited for without end. *)
Lemma lock_spins fuel ev me l :
  gthread_recursive_mutex_trylock ev me l = (false, l) -> u8 (core l) <> me ->
  gthread_recursive_mutex_lock fuel ev me l = Fail Diverges.
Proof.
  intros Ht Hc. induction fuel as [|fuel IH]; [done |]. cbn. unfold lock_round. rewrite Ht.
  apply Z.eqb_neq in Hc. rewrite Hc, bind_Ok. exact IH.
Qed.

Lemma nested_lock e me l :
  gthread_recursive_mutex_unlock (gthread_recursive_mutex_trylock e me
    (gthread_recursive_mutex_trylock e me (gthread_recursive_mutex_init l)).2).2 = mkRecursiveLock e 1 (-1).
Proof. unfold gthread_recursive_mutex_trylock. cbn. by rewrite Z.eqb_refl. Qed.

(** Deadlock detection: an event that locks a mutex held by another event of its
    core stops the kernel. But [unlock] clears the core also when the mutex stays
    held: after a nested [unlock] the event spins for ever instead, and an event
    on core 255 stops the kernel for a mutex that a different core will release. *)
Theorem nested_unlock_hides_deadlock l e ev me other fuel :
  e <> ev -> 0 <= me < 255 -> 0 <= other < 255 ->
  let held := (gthread_recursive_mutex_trylock e me (gthread_recursive_mutex_init l)).2 in
  let nested := gthread_recursive_mutex_unlock (gthread_recursive_mutex_trylock e me held).2 in
  gthread_recursive_mutex_lock (S fuel) ev me held = Fail AssertFailed /\
  holds nested (Some (e, 1%nat)) /\
  gthread_recursive_mutex_lock fuel ev me nested = Fail Diverges /\
  gthread_recursive_mutex_lock (S fuel) ev 255
    (gthread_recursive_mutex_unlock (gthread_recursive_mutex_trylock e other
      (gthread_recursive_mutex_trylock e other (gthread_recursive_mutex_init l)).2).2) = Fail AssertFailed.
Proof.
  intros Hne Hme Ho held nested. unfold nested, held. rewrite !nested_lock.
  assert (forall c, lock_round ev c (mkRecursiveLock e 1 (s8 c)) = if u8 (s8 c) =? c then Fail AssertFailed else Ok None) as Hr.
  { intros c. unfold lock_round, gthread_recursive_mutex_trylock. cbn -[s8]. apply Z.eqb_neq in Hne. by rewrite Hne. }
  split; [| split; [cbn; repeat split; lia | split]].
  - cbn -[lock_round s8]. rewrite Hr, u8_s8, Z.eqb_refl by lia. done.
  - apply lock_spins; [| change (255 <> me); lia]. unfold gthread_recursive_mutex_trylock. cbn. apply Z.eqb_neq in Hne. by rewrite Hne.
  - cbn -[lock_round]. pose proof (Hr 255) as H255. change (s8 255) with (-1) in H255. by rewrite H255.
Qed.

Lemma nested_unlock_hides_deadlock_witness :
  gthread_recursive_mutex_lock 1000 9 0
    (gthread_recursive_mutex_unlock (gthread_recursive_mutex_trylock 7 0
      (gthread_recursive_mutex_trylock 7 0 (gthread_recursive_mutex_init (mkRecursiveLock 0 0 0))).2).2) = Fail Diverges.
Proof.
  exact (proj1 (proj2 (proj2 (nested_unlock_hides_deadlock (mkRecursiveLock 0 0 0) 7 9 0 1 1000
    ltac:(lia) ltac:(lia) ltac:(lia))))).
Defined.

(** The lock that Newlib initialises through [RLock] is free, with core 0. *)
Lemma newlib_lock_fresh ev me : 
  holds (as_recursive newlib_lock_init_recursive) None /\
  (gthread_recursive_mutex_trylock ev me (as_recursive newlib_lock_init_recursive)).1 = true.
Proof. done. Qed.

(** ** once *)

(** Calls and ends of calls of the function, over all cores. *)
Inductive once_op := Call | Finish.

(** The results of the calls: whether each calls [func]. *)
Fixpoint once_run (ops : list once_op) (flag : Z) : outcome (list bool * Z) :=
  match ops with
  | [] => Ok ([], flag)
  | Call :: ops => '(b, flag) ← gthread_once flag; '(bs, flag) ← once_run ops flag; Ok (b :: bs, flag)
  | Finish :: ops => if flag =? 1 then once_run ops (gthread_once_done flag) else Fail UndefinedBehaviour
  end.

Lemma once_run_done ops bs flag : once_run ops 2 = Ok (bs, flag) -> Forall (eq false) bs /\ flag = 2.
Proof.
  revert bs. induction ops as [|[] ops IH]; intros bs E; cbn in E; [by injection E as <- <- | | done].
  apply bind_ok in E as ([bs1 f1] & E1 & E). injection E as <- <-. destruct (IH _ E1) as [H1 ->]. split; [by constructor | done].
Qed.

(** [once]: whatever the calls, the function is called by the first only; a call
    that returns without calling it comes after the function has returned, and a
    call while it runs, on any core or from the function itself, stops the kernel
    instead of waiting. *)
Theorem once_runs_once ops bs flag :
  once_run ops 0 = Ok (bs, flag) ->
  (bs = [] \/ exists rest, bs = true :: rest /\ Forall (eq false) rest /\ (rest <> [] -> flag = 2)) /\
  (flag = 1 -> gthread_once flag = Fail AssertFailed).
Proof.
  intros E. split; [| by intros ->]. destruct ops as [|[] ops]; cbn in E; [injection E as <- <-; by left | | done].
  apply bind_ok in E as ([bs1 f1] & E1 & E). injection E as <- <-. right. exists bs1. split; [done |].
  destruct ops as [|[] ops]; cbn in E1; [injection E1 as <- <-; done | done |].
  apply once_run_done in E1 as [H1 ->]. done.
Qed.

Lemma once_runs_once_witness :
  [true; false; false] = [] \/ exists rest, [true; false; false] = true :: rest /\ Forall (eq false) rest /\ (rest <> [] -> 2 = 2).
Proof. exact (proj1 (once_runs_once [Call; Finish; Call; Call] [true; false; false] 2 eq_refl)). Defined.

(** ** Thread-specific data *)

(** What an event stored under a key it finds there, whatever it reads or stores
    under other keys; a key never stored under is null. *)
Lemma specific_get_set key ptr key' (m : gmap Z Z) :
  (gthread_getspecific key (gthread_getspecific key' (gthread_setspecific key ptr m)).2).1 = ptr /\
  (key' <> key -> (gthread_getspecific key (gthread_setspecific key' ptr m)).1 = (gthread_getspecific key m).1) /\
  (gthread_getspecific key ∅).1 = 0.
Proof.
  unfold gthread_getspecific, gthread_setspecific. split; [| split; [| by rewrite lookup_empty]].
  - destruct (decide (key' = key)) as [->|Hne].
    + rewrite lookup_insert_eq. cbn. by rewrite lookup_insert_eq.
    + rewrite (lookup_insert_ne m key key') by done. destruct (m !! key'); cbn.
      * by rewrite lookup_insert_eq.
      * rewrite lookup_insert_ne by done. by rewrite lookup_insert_eq.
  - intros Hne. rewrite lookup_insert_ne by done. by destruct (m !! key).
Qed.

(** [mutex_lock] does not wait: a mutex that is held, by whatever core, stops the
    kernel, also for the locks that Newlib takes through [lock_acquire]; a
    free one is taken, and free again after [unlock]. *)
Theorem mutex_lock_never_waits flag :
  (flag = false -> gthread_mutex_lock flag = Ok true) /\
  (flag = true -> gthread_mutex_lock flag = Fail AssertFailed /\ newlib_lock_acquire flag = Fail AssertFailed) /\
  gthread_mutex_lock (gthread_mutex_unlock flag) = Ok true.
Proof. by destruct flag. Qed.
