(* ===== verification/Future.v ===== *)
(** * Futures and promises

    Models src/src/Future.h: the shared states, [Then] and its launch policies,
    [flatten], [WhenAll] and the functions that fulfil a promise.  A state is
    known by its number; the futures and the promise of a state are its number.
    [tasks] are the events given to [event_manager->Spawn].

    User code is the environment: when a function of the user is called, the
    value it returns or the exception it throws is the argument [ret] of the
    operation.  What it does to other futures meanwhile are operations of their
    own. *)

From S2P Require Import Prelude.

Inductive exn := UnreadyFutureError | MultipleThens | UserExn (z : Z).

(** A value of type [Res]; [VMoved] is a future that has been moved from. *)
Inductive value := VUnit | VData (z : Z) | VFuture (f : nat) | VMoved | VVec (l : list value).

(** The function objects passed to [Then]. *)
Inductive func :=
| User                               (* a function of the user *)
| FlattenOuter (prom : nat)          (* the lambda of [flatten], and the one inside *)
| FlattenInner (prom : nat)
| WhenAllElem (w i : nat).           (* the lambda of [WhenAll] for element [i] *)

(** The lambda stored by [ThenHelp] or spawned by [Async]: it calls [fn] with the
    future [fut] and fulfils [prom]. *)
Record closure := Continue { c_prom : nat; c_fut : nat; c_fn : func }.

(** [State<Res>]; [depth] is the number of futures around the type [Res]. *)
Record State := mkState {
  depth : nat;
  val_ : value;
  eptr_ : option exn;
  func_ : option closure;
  ready_ : bool
}.

(** The objects that the lambdas of one [WhenAll] share. *)
Record When := mkWhen { container : list value; count : Z; w_promise : nat }.

Record Futures := mkFutures {
  states : list State;
  whens : list When;
  tasks : list closure
}.

(** ** Code that changes the futures and can throw *)

Definition M (A : Type) : Type := Futures -> outcome ((A + exn) * Futures).

Definition ret {A} (a : A) : M A := fun h => Ok (inl a, h).
Definition throw {A} (e : exn) : M A := fun h => Ok (inr e, h).
Definition bindM {A B} (m : M A) (k : A -> M B) : M B := fun h =>
  '(r, h) ← m h;
  match r with inl a => k a h | inr e => Ok (inr e, h) end.
Definition catch {A} (m : M A) (k : exn -> M A) : M A := fun h =>
  '(r, h) ← m h;
  match r with inl a => Ok (inl a, h) | inr e => k e h end.

Declare Scope future_scope.
Delimit Scope future_scope with fut.
Notation "x <~ m ; k" := (bindM m (fun x => k)) (at level 20, m at level 100, k at level 200, right associativity) : future_scope.
Open Scope future_scope.

Definition state (f : nat) : M State := fun h => s ← deref (states h !! f); Ok (inl s, h).
Definition put (f : nat) (s : State) : M unit := fun h =>
  Ok (inl tt, mkFutures (<[f := s]> (states h)) (whens h) (tasks h)).
Definition alloc (s : State) : M nat := fun h =>
  Ok (inl (length (states h)), mkFutures (states h ++ [s]) (whens h) (tasks h)).
Definition Spawn (c : closure) : M unit := fun h =>
  Ok (inl tt, mkFutures (states h) (whens h) (tasks h ++ [c])).

Definition set_func (c : option closure) (s : State) : State := mkState (depth s) (val_ s) (eptr_ s) c (ready_ s).

(** ** State, Promise, MakeReadyFuture, MakeFailedFuture *)

Definition Promise (d : nat) : M nat := alloc (mkState d VUnit None None false).
Definition MakeReadyFuture (d : nat) (v : value) : M nat := alloc (mkState d v None None true).
Definition MakeFailedFuture (d : nat) (e : exn) : M nat := alloc (mkState d VUnit (Some e) None true).

(** [if (func_) event_manager->Spawn(std::move(func_))]. *)
Definition spawn_func (f : nat) (s : State) : M unit :=
  match func_ s with
  | Some c => _ <~ put f (set_func None s); Spawn c
  | None => put f s
  end.

Definition SetValue (f : nat) (v : value) : M unit :=
  s <~ state f;
  spawn_func f (mkState (depth s) v (eptr_ s) (func_ s) true).

Definition SetException (f : nat) (e : exn) : M unit :=
  s <~ state f;
  spawn_func f (mkState (depth s) (val_ s) (Some e) (func_ s) true).

Definition Get (f : nat) : M value :=
  s <~ state f;
  if negb (ready_ s) then throw UnreadyFutureError
  else match eptr_ s with Some e => throw e | None => ret (val_ s) end.

(** [std::move(fut.Get())], assigned from. *)
Definition moved_from (v : value) : value :=
  match v with VFuture _ | VVec _ => VMoved | _ => v end.
Definition GetMove (f : nat) : M value :=
  v <~ Get f;
  s <~ state f;
  _ <~ put f (mkState (depth s) (moved_from v) (eptr_ s) (func_ s) (ready_ s));
  ret v.

(** ** Then *)

Inductive Launch := Sync | Async.

(** [ThenHelp] up to the call of [flatten]; [app] calls the function. *)
Definition ThenHelp (app : func -> nat -> M value) (policy : Launch) (d : nat) (fn : func) (fut : nat) : M nat :=
  s <~ state fut;
  if negb (ready_ s) then
    prom <~ Promise d;
    match func_ s with
    | Some _ => throw MultipleThens
    | None => _ <~ put fut (set_func (Some (Continue prom fut fn)) s); ret prom
    end
  else
    match policy with
    | Sync => catch (v <~ app fn fut; MakeReadyFuture d v) (MakeFailedFuture d)
    | Async => prom <~ Promise d; _ <~ Spawn (Continue prom fut fn); ret prom
    end.

(** The lambdas that call no other [Then]. *)
Definition set_elem (w i : nat) (v : value) : M bool := fun h =>
  x ← deref (whens h !! w);
  if (i <? length (container x))%nat then
    let x' := mkWhen (<[i := v]> (container x)) (u64 (count x - 1)) (w_promise x) in
    Ok (inl (count x =? 1), mkFutures (states h) (<[w := x']> (whens h)) (tasks h))
  else Fail UndefinedBehaviour.
Definition when (w : nat) : M When := fun h => x ← deref (whens h !! w); Ok (inl x, h).

(** An exception of [Get] fails the promise; else the element is stored, and the
    last one fulfils the promise. *)
Definition when_elem (w i fut : nat) : M value :=
  x <~ when w;
  catch
    (v <~ GetMove fut;
     last <~ set_elem w i v;
     _ <~ (if (last : bool) then x <~ when w; SetValue (w_promise x) (VVec (container x)) else ret tt);
     ret VUnit)
    (fun e => _ <~ SetException (w_promise x) e; ret VUnit).

Definition app0 (fn : func) (fut : nat) : M value :=
  match fn with
  | FlattenInner prom =>
      _ <~ catch (v <~ GetMove fut; SetValue prom v) (fun e => SetException prom e);
      ret VUnit
  | WhenAllElem w i => when_elem w i fut
  | _ => fun _ => Fail UndefinedBehaviour
  end.

Definition then0 : Launch -> nat -> func -> nat -> M nat := ThenHelp app0.

(** The outer lambda of [flatten]. *)
Definition flatten_outer (prom fut : nat) : M value := fun h =>
  '(r, h) ← GetMove fut h;
  match r with
  | inr e => (_ <~ SetException prom e; ret VUnit) h
  | inl (VFuture inner) => (_ <~ then0 Sync 0 (FlattenInner prom) inner; ret VUnit) h
  | inl _ => Fail UndefinedBehaviour
  end.

Definition app1 (fn : func) (fut : nat) : M value :=
  match fn with FlattenOuter prom => flatten_outer prom fut | _ => app0 fn fut end.

(** [flatten] of a future whose type has [d] futures inside. *)
Fixpoint flatten (d : nat) (fut : nat) : M nat :=
  match d with
  | O => ret fut
  | S d =>
      p <~ Promise d;
      _ <~ ThenHelp app1 Sync 0 (FlattenOuter p) fut;
      flatten d p
  end.

(** A call of a user function gives [r]. *)
Definition app2 (r : value + exn) (fn : func) (fut : nat) : M value :=
  match fn with
  | User => match r with inl v => ret v | inr e => throw e end
  | _ => app1 fn fut
  end.

(** [Then]: [d] is the depth of the type that the function returns. *)
Definition Then (r : value + exn) (policy : Launch) (d : nat) (fn : func) (fut : nat) : M nat :=
  f <~ ThenHelp (app2 r) policy d fn fut;
  flatten d f.

(** ** WhenAll *)

Definition new_when (n : nat) (prom : nat) : M nat := fun h =>
  Ok (inl (length (whens h)),
      mkFutures (states h) (whens h ++ [mkWhen (replicate n VUnit) (Z.of_nat n) prom]) (tasks h)).

Fixpoint when_loop (w i : nat) (futs : list nat) : M unit :=
  match futs with
  | [] => ret tt
  | f :: futs => _ <~ then0 Sync 0 (WhenAllElem w i) f; when_loop w (S i) futs
  end.

Definition WhenAll (futs : list nat) : M nat :=
  prom <~ Promise 0;
  w <~ new_when (length futs) prom;
  _ <~ when_loop w 0 futs;
  ret prom.

(** The variant on a vector has a case for the empty one. *)
Definition when_all (futs : list nat) : M nat :=
  match futs with [] => MakeReadyFuture 0 (VVec []) | _ => WhenAll futs end.

(** ** The event loop: task number [k] runs *)

Definition run_closure (r : value + exn) (c : closure) : M unit :=
  catch (v <~ app2 r (c_fn c) (c_fut c); SetValue (c_prom c) v) (SetException (c_prom c)).

Definition run_task (r : value + exn) (k : nat) (h : Futures) : outcome Futures :=
  c ← deref (tasks h !! k);
  '(_, h) ← run_closure r c (mkFutures (states h) (whens h) (delete k (tasks h)));
  Ok h.
