(* ===== verification/FutureCorrect.v ===== *)
(** * Futures are fulfilled exactly once

    The ownership invariant of src/src/Future.h for futures that are used once
    ([Future], not [SharedFuture]): every promise that is not fulfilled is in the
    hands of the user or owed by exactly one stored or spawned lambda, and every
    future is in hand, inside a value, or consumed by exactly one lambda. *)

From S2P Require Import Prelude Future.

Definition closures (h : Futures) : list closure := omap func_ (states h) ++ tasks h.

(** The promises that a lambda fulfils when it runs. *)
Definition owed (c : closure) : list nat :=
  c_prom c :: match c_fn c with FlattenOuter q | FlattenInner q => [q] | _ => [] end.
Definition obligations (h : Futures) : list nat := closures h ≫= owed.

(** The futures inside values. *)
Definition held_val (v : value) : option nat := match v with VFuture g => Some g | _ => None end.
Definition held (h : Futures) : list nat := omap (fun s => held_val (val_ s)) (states h).

Definition depth_of (h : Futures) (f : nat) : option nat := depth <$> states h !! f.

Definition typed (h : Futures) (d : nat) (v : value) : Prop :=
  match d, v with
  | O, (VUnit | VData _) => True
  | S d, VFuture g => depth_of h g = Some d
  | S _, VMoved => True
  | _, _ => False
  end.

Definition state_ok (h : Futures) (s : State) : Prop :=
  if ready_ s then match eptr_ s with None => typed h (depth s) (val_ s) | Some _ => held_val (val_ s) = None end
  else val_ s = VUnit /\ eptr_ s = None.

Definition moved (h : Futures) (f : nat) : Prop := exists s, states h !! f = Some s /\ val_ s = VMoved.

(** The types of the lambda's future and promises agree. *)
Definition closure_ok (h : Futures) (c : closure) : Prop :=
  is_Some (depth_of h (c_fut c)) /\ ~ moved h (c_fut c) /\
  match c_fn c with
  | User => True
  | FlattenOuter q => depth_of h (c_prom c) = Some 0%nat /\
      exists d, depth_of h q = Some d /\ depth_of h (c_fut c) = Some (S d)
  | FlattenInner q => depth_of h (c_prom c) = Some 0%nat /\ depth_of h q = depth_of h (c_fut c)
  | WhenAllElem _ _ => False
  end.

(** [E]: the promises in hand; [G]: the futures in hand. *)
Record FInv (E G : list nat) (h : Futures) : Prop := {
  fi_owed : NoDup (E ++ obligations h);
  fi_unready p : p ∈ E ++ obligations h <-> exists s, states h !! p = Some s /\ ready_ s = false;
  fi_own : NoDup (G ++ held h ++ (c_fut <$> closures h));
  fi_valid f : f ∈ G ++ held h -> is_Some (states h !! f);
  fi_func f s c : states h !! f = Some s -> func_ s = Some c -> ready_ s = false /\ c_fut c = f;
  fi_task c : c ∈ tasks h -> exists s, states h !! c_fut c = Some s /\ ready_ s = true;
  fi_state f s : states h !! f = Some s -> state_ok h s;
  fi_closure c : c ∈ closures h -> closure_ok h c;
  fi_hand f : f ∈ G ++ held h -> ~ moved h f
}.

(** ** Lists *)

Lemma omap_insert_perm {A B} (f : A -> option B) (l : list A) i x y :
  l !! i = Some x ->
  exists R, omap f l ≡ₚ option_list (f x) ++ R /\ omap f (<[i := y]> l) ≡ₚ option_list (f y) ++ R.
Proof.
  intros Hx. assert (omap f l = omap f (take i l ++ x :: drop (S i) l)) as -> by (by rewrite take_drop_middle).
  rewrite insert_take_drop by (by eapply lookup_lt_Some).
  exists (omap f (take i l) ++ omap f (drop (S i) l)).
  rewrite !omap_app. cbn. split.
  - destruct (f x); cbn; solve_Permutation.
  - destruct (f y); cbn; solve_Permutation.
Qed.

Lemma omap_snoc {A B} (f : A -> option B) (l : list A) x : omap f (l ++ [x]) = omap f l ++ option_list (f x).
Proof. rewrite omap_app. cbn. by destruct (f x). Qed.

Lemma nodup_perm {A} (l l' : list A) : l ≡ₚ l' -> NoDup l -> NoDup l'.
Proof. by intros ->. Qed.

Lemma elem_of_option_list {A} (o : option A) x : x ∈ option_list o <-> o = Some x.
Proof. destruct o; cbn; [rewrite list_elem_of_singleton; naive_solver | set_solver]. Qed.

(** ** Basic steps *)

Lemma closures_put h f s s' T :
  states h !! f = Some s ->
  exists R, closures h ≡ₚ option_list (func_ s) ++ R ++ tasks h /\
    closures (mkFutures (<[f := s']> (states h)) (whens h) T) ≡ₚ option_list (func_ s') ++ R ++ T.
Proof.
  intros Hs. destruct (omap_insert_perm func_ (states h) f s s' Hs) as (R & H1 & H2).
  exists R. unfold closures. cbn. rewrite H1, H2. split; solve_Permutation.
Qed.

Lemma held_put h f s s' T :
  states h !! f = Some s ->
  exists R, held h ≡ₚ option_list (held_val (val_ s)) ++ R /\
    held (mkFutures (<[f := s']> (states h)) (whens h) T) ≡ₚ option_list (held_val (val_ s')) ++ R.
Proof. intros Hs. apply (omap_insert_perm (fun s => held_val (val_ s)) (states h) f s s' Hs). Qed.

Lemma depth_put h f s s' T x :
  states h !! f = Some s -> depth s' = depth s ->
  depth_of (mkFutures (<[f := s']> (states h)) (whens h) T) x = depth_of h x.
Proof.
  intros Hs Hd. unfold depth_of. cbn. destruct (decide (x = f)) as [->|Hx].
  - rewrite list_lookup_insert_eq by (by eapply lookup_lt_Some). rewrite Hs. cbn. by rewrite Hd.
  - by rewrite list_lookup_insert_ne by done.
Qed.

Lemma lookup_put h f s s' x y :
  states h !! f = Some s -> <[f := s']> (states h) !! x = Some y -> x = f /\ y = s' \/ x <> f /\ states h !! x = Some y.
Proof.
  intros Hs. destruct (decide (x = f)) as [->|Hx].
  - rewrite list_lookup_insert_eq by (by eapply lookup_lt_Some). intros [= <-]. by left.
  - rewrite list_lookup_insert_ne by done. by right.
Qed.

Lemma typed_ext h h' d v : (forall x, depth_of h' x = depth_of h x) -> typed h d v -> typed h' d v.
Proof. intros Hd. destruct d, v; cbn; try done. by rewrite Hd. Qed.

Lemma state_ok_ext h h' s : (forall x, depth_of h' x = depth_of h x) -> state_ok h s -> state_ok h' s.
Proof. intros Hd. unfold state_ok. repeat case_match; try done. by apply typed_ext. Qed.

Lemma closure_ok_ext h h' c :
  (forall x, depth_of h' x = depth_of h x) -> (moved h' (c_fut c) -> moved h (c_fut c)) ->
  closure_ok h c -> closure_ok h' c.
Proof.
  intros Hd Hm. unfold closure_ok. rewrite !Hd. intros (Hv & Hn & Hc). split_and!; [done | tauto |].
  destruct (c_fn c); rewrite ?Hd; naive_solver.
Qed.

Lemma FInv_perm E E' G G' h : E ≡ₚ E' -> G ≡ₚ G' -> FInv E G h -> FInv E' G' h.
Proof. intros HE HG []. constructor; try done; setoid_rewrite <- HE || setoid_rewrite <- HG; done. Qed.

Lemma FInv_drop E G f h : FInv E (f :: G) h -> FInv E G h.
Proof.
  intros []. constructor; try done.
  - by apply NoDup_cons in fi_own0 as [_ ?].
  - intros x Hx. apply fi_valid0. by right.
  - intros x Hx. apply fi_hand0. by right.
Qed.

(** The state of a promise in hand. *)
Lemma hand_state p E G h : FInv (p :: E) G h ->
  exists s, states h !! p = Some s /\ ready_ s = false /\ val_ s = VUnit /\ eptr_ s = None.
Proof.
  intros I. destruct (proj1 (fi_unready _ _ _ I p)) as (s & Hs & Hr); [by left |].
  exists s. pose proof (fi_state _ _ _ I _ _ Hs) as Ho. unfold state_ok in Ho. rewrite Hr in Ho. naive_solver.
Qed.

Definition fulfilled (p : nat) (s : State) (v : value) (eo : option exn) (h : Futures) : Futures :=
  mkFutures (<[p := mkState (depth s) v eo None true]> (states h)) (whens h) (tasks h ++ option_list (func_ s)).

Lemma fulfilled_depth p s v eo h x : states h !! p = Some s -> depth_of (fulfilled p s v eo h) x = depth_of h x.
Proof. intros Hs. by apply depth_put with s. Qed.

Lemma fulfil_inv p E G h s v eo :
  FInv (p :: E) (option_list (held_val v) ++ G) h -> states h !! p = Some s -> v <> VMoved ->
  match eo with None => typed h (depth s) v | Some _ => held_val v = None end ->
  FInv E G (fulfilled p s v eo h).
Proof.
  intros I Hs Hm Ht. destruct (hand_state _ _ _ _ I) as (s0 & Hs0 & Hr & Hv & He).
  rewrite Hs in Hs0. injection Hs0 as <-.
  pose proof (fulfilled_depth p s v eo h) as Hd.
  destruct (closures_put h p s (mkState (depth s) v eo None true) (tasks h ++ option_list (func_ s)) Hs) as (R & C1 & C2).
  assert (closures (fulfilled p s v eo h) ≡ₚ closures h) as HC.
  { unfold fulfilled. rewrite C1, C2. cbn. solve_Permutation. }
  destruct (held_put h p s (mkState (depth s) v eo None true) (tasks h ++ option_list (func_ s)) Hs) as (H & H1 & H2).
  rewrite Hv in H1. cbn in H1. cbn in H2.
  assert (held (fulfilled p s v eo h) ≡ₚ option_list (held_val v) ++ held h) as HH by (by rewrite H1).
  assert (forall x, moved (fulfilled p s v eo h) x -> moved h x) as Hmv.
  { intros x (y & Hy & Hym). apply (lookup_put _ _ _ _ _ _ Hs) in Hy as [[-> ->]|[_ Hy]]; [done | by exists y]. }
  assert (forall x, is_Some (states h !! x) -> is_Some (states (fulfilled p s v eo h) !! x)) as Hvl.
  { intros x. unfold fulfilled. cbn. rewrite !lookup_lt_is_Some, length_insert. done. }
  destruct I as [Iow Iun Iown Iva Ifn Itk Ist Icl Iha]. unfold obligations in *.
  constructor; unfold obligations; rewrite ?HC.
  - by apply NoDup_cons in Iow as [_ ?].
  - intros q. rewrite HC. cbn in Iow. apply NoDup_cons in Iow as [Hp _]. specialize (Iun q). cbn [app] in Iun. split.
    + intros Hq. destruct (proj1 Iun) as (y & Hy & Hyr); [by right |]. exists y. cbn.
      rewrite list_lookup_insert_ne by (intros ->; done). done.
    + intros (y & Hy & Hyr). apply (lookup_put _ _ _ _ _ _ Hs) in Hy as [[-> ->]|[Hne Hy]]; [done |].
      assert (q ∈ p :: E ++ (closures h ≫= owed)) as Hq by (apply Iun; eauto). by apply elem_of_cons in Hq as [|].
  - rewrite HH. eapply nodup_perm; [| exact Iown]. solve_Permutation.
  - intros f. rewrite HH. intros Hf. apply Hvl, Iva. rewrite !elem_of_app in Hf |- *. tauto.
  - intros f y c Hy Hc. apply (lookup_put _ _ _ _ _ _ Hs) in Hy as [[-> ->]|[_ Hy]]; [done | eauto].
  - intros c. unfold fulfilled. cbn. rewrite elem_of_app, elem_of_option_list. intros [Hc|Hc].
    + destruct (Itk c Hc) as (y & Hy & Hyr). destruct (decide (c_fut c = p)) as [Hcp|]; [rewrite Hcp in Hy; congruence |].
      exists y. by rewrite list_lookup_insert_ne.
    + destruct (Ifn _ _ _ Hs Hc) as [_ ->]. eexists. rewrite list_lookup_insert_eq by (by eapply lookup_lt_Some). done.
  - intros f y Hy. apply (lookup_put _ _ _ _ _ _ Hs) in Hy as [[-> ->]|[_ Hy]].
    + unfold state_ok. cbn. destruct eo; [done |]. by apply (typed_ext h); [intros x; apply Hd |].
    + apply (state_ok_ext h); [intros x; by apply Hd | eauto].
  - intros c. rewrite HC. intros Hc. apply (closure_ok_ext h); [intros x; by apply Hd | apply Hmv | eauto].
  - intros f. rewrite HH. intros Hf Hmf. apply (Iha f); [| by apply Hmv]. rewrite !elem_of_app in Hf |- *. tauto.
Qed.

(** The depth of a state never changes. *)
Definition ext (h h' : Futures) : Prop := forall x d, depth_of h x = Some d -> depth_of h' x = Some d.

Lemma ext_refl h : ext h h.
Proof. by intros x d. Qed.
Lemma ext_trans h1 h2 h3 : ext h1 h2 -> ext h2 h3 -> ext h1 h3.
Proof. intros H1 H2 x d Hx. by apply H2, H1. Qed.
Lemma ext_eq h h' : (forall x, depth_of h' x = depth_of h x) -> ext h h'.
Proof. intros Hd x d. by rewrite Hd. Qed.
#[local] Hint Resolve ext_refl ext_trans ext_eq : core.

Lemma depth_state h f s : states h !! f = Some s -> depth_of h f = Some (depth s).
Proof. unfold depth_of. by intros ->. Qed.

Definition ready_at (h : Futures) (f : nat) : Prop := exists s, states h !! f = Some s /\ ready_ s = true.

Lemma fulfilled_ready p s v eo h : states h !! p = Some s -> ready_at (fulfilled p s v eo h) p.
Proof. intros Hs. eexists. cbn. rewrite list_lookup_insert_eq by (by eapply lookup_lt_Some). done. Qed.

Lemma SetValue_ok p E G h v d :
  FInv (p :: E) (option_list (held_val v) ++ G) h -> v <> VMoved -> depth_of h p = Some d -> typed h d v ->
  exists h', SetValue p v h = Ok (inl tt, h') /\ FInv E G h' /\ ext h h' /\ ready_at h' p.
Proof.
  intros I Hm Hd Ht. destruct (hand_state _ _ _ _ I) as (s & Hs & Hr & Hv & He).
  rewrite (depth_state _ _ _ Hs) in Hd. injection Hd as <-.
  exists (fulfilled p s v None h). split_and!; [| by apply fulfil_inv | apply ext_eq; intros x; by apply fulfilled_depth | by apply fulfilled_ready].
  unfold SetValue, bindM, state. rewrite Hs. cbn. unfold spawn_func, fulfilled. cbn. rewrite He.
  destruct (func_ s); cbn; [done |]. unfold put. by rewrite app_nil_r.
Qed.

Lemma SetException_ok p E G h e :
  FInv (p :: E) G h -> exists h', SetException p e h = Ok (inl tt, h') /\ FInv E G h' /\ ext h h' /\ ready_at h' p.
Proof.
  intros I. destruct (hand_state _ _ _ _ I) as (s & Hs & Hr & Hv & He).
  exists (fulfilled p s VUnit (Some e) h).
  split_and!; [| by apply fulfil_inv | apply ext_eq; intros x; by apply fulfilled_depth | by apply fulfilled_ready].
  unfold SetException, bindM, state. rewrite Hs. cbn. unfold spawn_func, fulfilled. cbn. rewrite Hv.
  destruct (func_ s); cbn; [done |]. unfold put. by rewrite app_nil_r.
Qed.

(** A state at the end of the heap. *)
Lemma alloc_frame h s x : depth_of h x <> None ->
  depth_of (mkFutures (states h ++ [s]) (whens h) (tasks h)) x = depth_of h x.
Proof.
  unfold depth_of. cbn. destruct (states h !! x) eqn:E; cbn; [| done]. by rewrite (lookup_app_l_Some _ _ _ _ E).
Qed.

Lemma alloc_ext h s : ext h (mkFutures (states h ++ [s]) (whens h) (tasks h)).
Proof. intros x d Hx. by rewrite alloc_frame, Hx by (by rewrite Hx). Qed.

Lemma lookup_alloc h s x y :
  (states h ++ [s]) !! x = Some y -> x = length (states h) /\ y = s \/ states h !! x = Some y.
Proof.
  rewrite lookup_app_Some. intros [|[Hl Hx]]; [by right | left].
  apply list_lookup_singleton_Some in Hx as [Hx ->]. split; [lia | done].
Qed.

Lemma typed_grow h h' d v : ext h h' -> typed h d v -> typed h' d v.
Proof. intros Hd. destruct d, v; cbn; try done. apply Hd. Qed.

Lemma closure_grow h h' c :
  ext h h' -> (is_Some (states h !! c_fut c) -> moved h' (c_fut c) -> moved h (c_fut c)) ->
  closure_ok h c -> closure_ok h' c.
Proof.
  intros Hd Hm. unfold closure_ok. intros ([d Hv] & Hn & Hc).
  assert (depth_of h' (c_fut c) = Some d) as Hv' by (by apply Hd).
  assert (is_Some (states h !! c_fut c)) as Hs.
  { unfold depth_of in Hv. destruct (states h !! c_fut c); [eauto | done]. }
  split_and!; [eauto | naive_solver |]. destruct (c_fn c); try done.
  - destruct Hc as (H1 & d' & H3 & H4). split; [by apply Hd |]. exists d'. split; by apply Hd.
  - destruct Hc as [H1 H3]. split; [by apply Hd |]. rewrite Hv in H3. rewrite Hv'. by apply Hd.
Qed.

Lemma state_alloc_inv E G h s :
  FInv E (option_list (held_val (val_ s)) ++ G) h -> func_ s = None -> val_ s <> VMoved -> state_ok h s ->
  FInv (if ready_ s then E else length (states h) :: E) (length (states h) :: G)
    (mkFutures (states h ++ [s]) (whens h) (tasks h)).
Proof.
  intros [Iow Iun Iown Iva Ifn Itk Ist Icl Iha] Hf Hm Hok. set (p := length (states h)). set (h' := mkFutures _ _ _).
  assert (closures h' = closures h) as HC.
  { unfold closures, h'. cbn. rewrite omap_snoc, Hf. cbn. by rewrite app_nil_r. }
  assert (held h' = held h ++ option_list (held_val (val_ s))) as HH by (unfold held, h'; cbn; by rewrite omap_snoc).
  assert (forall f, f ∈ G ++ held h' <-> f ∈ (option_list (held_val (val_ s)) ++ G) ++ held h) as HG.
  { intros f. rewrite HH, !elem_of_app. tauto. }
  assert (states h !! p = None) as Hp by (by apply lookup_ge_None).
  assert (states h' !! p = Some s) as Hnew by (by apply list_lookup_middle).
  assert (forall x y, states h !! x = Some y -> states h' !! x = Some y) as Hold.
  { intros x y. apply lookup_app_l_Some. }
  assert (forall x, is_Some (states h !! x) -> moved h' x -> moved h x) as Hmv.
  { intros x [y Hy] (z & Hz & Hzm). apply lookup_alloc in Hz as [[-> ->]|Hz]; [done |]. by exists z. }
  assert (p ∉ E ++ obligations h) as HpE by (intros (y & Hy & _)%Iun; congruence).
  assert (p ∉ G ++ held h' ++ (c_fut <$> closures h)) as HpG.
  { rewrite app_assoc, elem_of_app, HG. intros [[y Hy]%Iva|Hc]; [congruence |].
    apply list_elem_of_fmap in Hc as (c & Hpc & Hc). destruct (Icl c Hc) as [[d Hd] _]. unfold depth_of in Hd.
    destruct (states h !! c_fut c) eqn:E1; [| done]. rewrite <- Hpc in E1. congruence. }
  constructor; unfold obligations; rewrite ?HC.
  - destruct (ready_ s); [done |]. cbn. by apply NoDup_cons.
  - intros q. fold (obligations h). assert (q ∈ (if ready_ s then E else p :: E) ++ obligations h <->
      (q = p /\ ready_ s = false) \/ q ∈ E ++ obligations h) as ->.
    { destruct (ready_ s); [naive_solver |]. cbn. rewrite elem_of_cons. naive_solver. }
    rewrite Iun. split.
    + intros [[-> Hr]|(y & Hy & Hr)]; [by exists s | exists y; eauto].
    + intros (y & Hy & Hr). apply lookup_alloc in Hy as [[-> ->]|Hy]; [by left | right; eauto].
  - cbn [app]. apply NoDup_cons. split; [done |]. rewrite HH. eapply nodup_perm; [| exact Iown]. solve_Permutation.
  - intros f. cbn [app]. intros [->|Hx]%elem_of_cons; [eauto |]. apply HG in Hx. destruct (Iva f Hx) as [y Hy]. eauto.
  - intros f y c Hy Hc. apply lookup_alloc in Hy as [[-> ->]|Hy]; [congruence | eauto].
  - intros c Hc. destruct (Itk c Hc) as (y & Hy & Hr). exists y. eauto.
  - intros f y Hy. assert (forall z, state_ok h z -> state_ok h' z) as Hz.
    { intros z. unfold state_ok. repeat case_match; try done. apply typed_grow, alloc_ext. }
    apply lookup_alloc in Hy as [[-> ->]|Hy]; eauto.
  - intros c Hc. apply (closure_grow h); [apply alloc_ext | apply Hmv | eauto].
  - intros f. cbn [app]. intros [Hfp|Hx%HG]%elem_of_cons Hmf.
    + destruct Hmf as (y & Hy & Hym). rewrite Hfp, Hnew in Hy. congruence.
    + apply (Iha f Hx), Hmv; [by apply Iva | done].
Qed.

(** A future in hand has no continuation. *)
Lemma hand_free E G h f s : FInv E (f :: G) h -> states h !! f = Some s -> func_ s = None.
Proof.
  intros I Hs. destruct (func_ s) as [c|] eqn:Hc; [| done]. exfalso.
  destruct (fi_func _ _ _ I _ _ _ Hs Hc) as [_ Hf]. pose proof (fi_own _ _ _ I) as Hn.
  apply NoDup_cons in Hn as [Hn _]. apply Hn. rewrite !elem_of_app. right. right. apply list_elem_of_fmap.
  exists c. split; [done |]. unfold closures. rewrite elem_of_app. left. apply list_elem_of_omap. exists s.
  split; [by eapply list_elem_of_lookup_2 | done].
Qed.

Lemma hand_lookup E G h f : FInv E (f :: G) h -> exists s, states h !! f = Some s.
Proof. intros I. apply (fi_valid _ _ _ I). by left. Qed.

Lemma hand_not_moved E G h f : FInv E (f :: G) h -> ~ moved h f.
Proof. intros I. apply (fi_hand _ _ _ I). by left. Qed.

(** A new lambda takes over promises and the future that it waits for. *)
Lemma add_closure E G h h' c :
  FInv (owed c ++ E) (c_fut c :: G) h -> closures h' ≡ₚ c :: closures h -> held h' = held h ->
  (forall f s, states h' !! f = Some s -> exists s0, states h !! f = Some s0 /\ s = set_func (func_ s) s0) ->
  length (states h') = length (states h) ->
  (forall f s, states h' !! f = Some s -> func_ s = Some c \/ states h !! f = Some s) ->
  (forall f s, states h' !! f = Some s -> func_ s = Some c -> ready_ s = false /\ c_fut c = f) ->
  (forall c', c' ∈ tasks h' -> c' ∈ tasks h \/ c' = c /\ exists s, states h' !! c_fut c = Some s /\ ready_ s = true) ->
  closure_ok h c -> FInv E G h'.
Proof.
  intros [Iow Iun Iown Iva Ifn Itk Ist Icl Iha] HC HH Hst Hlen Hst' Hfn Htk Hok.
  assert (forall f s0, states h !! f = Some s0 -> exists s, states h' !! f = Some s /\ s = set_func (func_ s) s0) as Hback.
  { intros f s0 Hs0. destruct (lookup_lt_is_Some_2 (states h') f) as [s Hs].
    { rewrite Hlen. by eapply lookup_lt_Some. }
    exists s. split; [done |]. destruct (Hst f s Hs) as (s1 & Hs1 & Heq). rewrite Hs0 in Hs1. by injection Hs1 as <-. }
  assert (forall x, depth_of h' x = depth_of h x) as Hd.
  { intros x. unfold depth_of. destruct (states h !! x) as [s0|] eqn:E0.
    - destruct (Hback x s0 E0) as (s & -> & Heq). cbn. by rewrite Heq.
    - destruct (states h' !! x) eqn:E1; [| done]. destruct (Hst _ _ E1) as (s1 & Hs1 & _). congruence. }
  assert (forall x, moved h' x -> moved h x) as Hm.
  { intros x (s & Hs & Hv). destruct (Hst _ _ Hs) as (s0 & Hs0 & Heq). exists s0. split; [done |]. by rewrite Heq in Hv. }
  assert (obligations h' ≡ₚ owed c ++ obligations h) as HO.
  { unfold obligations. rewrite HC. done. }
  constructor.
  - rewrite HO. eapply nodup_perm; [| exact Iow]. solve_Permutation.
  - intros p. rewrite HO. assert (p ∈ E ++ owed c ++ obligations h <-> p ∈ (owed c ++ E) ++ obligations h) as ->.
    { rewrite !elem_of_app. tauto. }
    rewrite Iun. split.
    + intros (s0 & Hs0 & Hr). destruct (Hback _ _ Hs0) as (s & Hs & Heq). exists s. split; [done |]. by rewrite Heq.
    + intros (s & Hs & Hr). destruct (Hst _ _ Hs) as (s0 & Hs0 & Heq). exists s0. split; [done |]. by rewrite Heq in Hr.
  - rewrite HC, HH. cbn. eapply nodup_perm; [| exact Iown]. cbn. solve_Permutation.
  - intros f. rewrite HH. intros Hf. destruct (Iva f) as [s0 Hs0]; [by right |]. destruct (Hback _ _ Hs0) as (s & Hs & _). eauto.
  - intros f s c' Hs Hc'. destruct (Hst' f s Hs) as [Hc|Hs0]; [| eauto]. rewrite Hc in Hc'. injection Hc' as <-. eauto.
  - intros c' Hc'. destruct (Htk c' Hc') as [Hin|(-> & s & Hs & Hr)]; [| eauto].
    destruct (Itk c' Hin) as (s0 & Hs0 & Hr). destruct (Hback _ _ Hs0) as (s & Hs & Heq). exists s. split; [done |]. by rewrite Heq.
  - intros f s Hs. destruct (Hst _ _ Hs) as (s0 & Hs0 & Heq). rewrite Heq. apply (state_ok_ext h); [done |]. exact (Ist f s0 Hs0).
  - intros c'. rewrite HC. intros [->|Hin]%elem_of_cons; apply (closure_ok_ext h); eauto.
  - intros f. rewrite HH. intros Hf Hmf. apply (Iha f); [by right | by apply Hm].
Qed.

Lemma register_inv E G h c s :
  FInv (owed c ++ E) (c_fut c :: G) h -> states h !! c_fut c = Some s -> ready_ s = false -> closure_ok h c ->
  FInv E G (mkFutures (<[c_fut c := set_func (Some c) s]> (states h)) (whens h) (tasks h)).
Proof.
  intros I Hs Hr Hok. pose proof (hand_free _ _ _ _ _ I Hs) as Hf.
  destruct (closures_put h (c_fut c) s (set_func (Some c) s) (tasks h) Hs) as (R & C1 & C2).
  eapply add_closure; [exact I | | | | by cbn; rewrite length_insert | | | by left | done].
  - rewrite C1, C2, Hf. done.
  - unfold held. cbn. rewrite <- (take_drop_middle _ _ _ Hs) at 2.
    rewrite insert_take_drop by (by eapply lookup_lt_Some). by rewrite !omap_app.
  - intros f y Hy. apply (lookup_put _ _ _ _ _ _ Hs) in Hy as [[-> ->]|[_ Hy]]; [by exists s |].
    exists y. split; [done |]. by destruct y.
  - intros f y Hy. apply (lookup_put _ _ _ _ _ _ Hs) in Hy as [[-> ->]|[_ Hy]]; auto.
  - intros f y Hy Hc. apply (lookup_put _ _ _ _ _ _ Hs) in Hy as [[-> ->]|[Hne Hy]]; [done |].
    by destruct (fi_func _ _ _ I _ _ _ Hy Hc).
Qed.

Lemma spawn_inv E G h c s :
  FInv (owed c ++ E) (c_fut c :: G) h -> states h !! c_fut c = Some s -> ready_ s = true -> closure_ok h c ->
  FInv E G (mkFutures (states h) (whens h) (tasks h ++ [c])).
Proof.
  intros I Hs Hr Hok. eapply add_closure; [exact I | | done | | done | by right | | | done].
  - unfold closures. cbn. solve_Permutation.
  - intros f y Hy. exists y. split; [done |]. by destruct y.
  - intros f y Hy Hc. by destruct (fi_func _ _ _ I _ _ _ Hy Hc).
  - intros c'. cbn. rewrite elem_of_app, list_elem_of_singleton. intros [|Hc]; [by left | right; subst; eauto].
Qed.

(** The event loop takes a task. *)
Lemma take_inv E G h k c :
  FInv E G h -> tasks h !! k = Some c ->
  FInv (owed c ++ E) (c_fut c :: G) (mkFutures (states h) (whens h) (delete k (tasks h))).
Proof.
  intros [Iow Iun Iown Iva Ifn Itk Ist Icl Iha] Hk. set (h' := mkFutures _ _ _).
  assert (closures h ≡ₚ c :: closures h') as HC.
  { unfold closures. cbn. rewrite (delete_Permutation (tasks h) k c Hk) at 1. solve_Permutation. }
  assert (c ∈ tasks h) as Hin by (by eapply list_elem_of_lookup_2).
  assert (forall c', c' ∈ closures h' -> c' ∈ closures h) as Hsub by (intros c' Hc'; rewrite HC; by right).
  unfold obligations in *. constructor; unfold obligations.
  - rewrite HC in Iow. eapply nodup_perm; [| exact Iow]. cbn. solve_Permutation.
  - intros p. transitivity (p ∈ E ++ (closures h ≫= owed)); [| apply Iun]. rewrite HC.
    change ((c :: closures h') ≫= owed) with (owed c ++ (closures h' ≫= owed)). rewrite !elem_of_app. tauto.
  - rewrite HC in Iown. eapply nodup_perm; [| exact Iown]. cbn. solve_Permutation.
  - intros f. cbn. intros [->|Hf]%elem_of_cons; [destruct (Itk c Hin) as (s & Hs & _); eauto | by apply Iva].
  - done.
  - intros c' Hc'. apply Itk. rewrite (delete_Permutation (tasks h) k c Hk). by right.
  - done.
  - intros c' Hc'. apply Icl. auto.
  - intros f. cbn. intros [->|Hf]%elem_of_cons; [| by apply Iha]. apply (Icl c). rewrite HC. by left.
Qed.

(** Moving the value out of a future in hand. *)
Lemma move_inv E G h f s :
  FInv E (f :: G) h -> states h !! f = Some s -> ready_ s = true -> eptr_ s = None ->
  FInv E (option_list (held_val (val_ s)) ++ G)
    (mkFutures (<[f := mkState (depth s) (moved_from (val_ s)) None (func_ s) true]> (states h)) (whens h) (tasks h)).
Proof.
  intros I Hs Hr He. pose proof (hand_free _ _ _ _ _ I Hs) as Hf. set (s' := mkState _ _ _ _ _).
  assert (forall x, depth_of (mkFutures (<[f := s']> (states h)) (whens h) (tasks h)) x = depth_of h x) as Hd.
  { intros x. by apply depth_put with s. }
  destruct (closures_put h f s s' (tasks h) Hs) as (R & C1 & C2).
  change (func_ s') with (func_ s) in C2. rewrite Hf in C1, C2.
  destruct (held_put h f s s' (tasks h) Hs) as (H & H1 & H2).
  assert (held_val (val_ s') = None) as Hn by (cbn; by destruct (val_ s)). rewrite Hn in H2. change (option_list None ++ H) with H in H2.
  set (h' := mkFutures _ _ _) in *.
  assert (closures h' ≡ₚ closures h) as HC by (by rewrite C1, C2).
  assert (held h ≡ₚ option_list (held_val (val_ s)) ++ held h') as HH by (rewrite H1; f_equiv; by rewrite H2).
  assert (forall x, moved h' x -> x = f \/ moved h x) as Hmv.
  { intros x (y & Hy & Hym). apply (lookup_put _ _ _ _ _ _ Hs) in Hy as [[-> ->]|[_ Hy]]; [by left | right; by exists y]. }
  destruct I as [Iow Iun Iown Iva Ifn Itk Ist Icl Iha]. unfold obligations in *.
  pose proof Iown as Hfn. apply NoDup_cons in Hfn as [Hfn _].
  constructor; unfold obligations; rewrite ?HC.
  - done.
  - intros p. rewrite HC, Iun. split; intros (y & Hy & Hyr).
    + exists y. cbn. rewrite list_lookup_insert_ne; [done |]. intros ->. congruence.
    + apply (lookup_put _ _ _ _ _ _ Hs) in Hy as [[-> ->]|[_ Hy]]; [done | eauto].
  - apply NoDup_cons in Iown as [_ Iown]. eapply nodup_perm; [| exact Iown]. rewrite HH. solve_Permutation.
  - intros x Hx. assert (is_Some (states h !! x)) as Hy.
    { apply Iva. right. rewrite HH. rewrite !elem_of_app in Hx |- *. tauto. }
    cbn. rewrite lookup_lt_is_Some in Hy |- *. by rewrite length_insert.
  - intros x y c Hy Hc. apply (lookup_put _ _ _ _ _ _ Hs) in Hy as [[-> ->]|[_ Hy]]; [cbn in Hc; congruence | eauto].
  - intros c Hc. destruct (Itk c Hc) as (y & Hy & Hyr). destruct (decide (c_fut c = f)) as [Hcf|].
    + exists s'. cbn. rewrite Hcf, list_lookup_insert_eq by (by eapply lookup_lt_Some). done.
    + exists y. cbn. by rewrite list_lookup_insert_ne.
  - intros x y Hy. apply (lookup_put _ _ _ _ _ _ Hs) in Hy as [[-> ->]|[_ Hy]].
    + specialize (Ist _ _ Hs). unfold state_ok in Ist |- *. rewrite Hr, He in Ist. cbn. destruct (depth s), (val_ s); done.
    + apply (state_ok_ext h); eauto.
  - intros c. rewrite HC. intros Hc. apply (closure_ok_ext h); [done | | eauto]. intros [Hcf|]%Hmv; [| done].
    exfalso. apply Hfn. rewrite !elem_of_app. right. right. apply list_elem_of_fmap. eauto.
  - intros x Hx [->|Hmx]%Hmv.
    + apply Hfn. rewrite HH, !elem_of_app. rewrite !elem_of_app in Hx. tauto.
    + apply (Iha x); [| done]. right. rewrite HH. rewrite !elem_of_app in Hx |- *. tauto.
Qed.

(** ** Programs *)

Definition runs {A} (m : M A) (h : Futures) (Q : A + exn -> Futures -> Prop) : Prop :=
  exists r h', m h = Ok (r, h') /\ Q r h'.

Lemma runs_bind {A B} (m : M A) (k : A -> M B) h Q :
  runs m h (fun r h' => match r with inl a => runs (k a) h' Q | inr e => Q (inr e) h' end) -> runs (bindM m k) h Q.
Proof.
  intros (r & h' & E & H). unfold runs, bindM. rewrite E, bind_Ok. destruct r; [done | eauto].
Qed.

Lemma runs_catch {A} (m : M A) (k : exn -> M A) h Q :
  runs m h (fun r h' => match r with inl a => Q (inl a) h' | inr e => runs (k e) h' Q end) -> runs (catch m k) h Q.
Proof.
  intros (r & h' & E & H). unfold runs, catch. rewrite E, bind_Ok. destruct r; [eauto | done].
Qed.

Lemma runs_ret {A} (a : A) h Q : Q (inl a) h -> runs (ret a) h Q.
Proof. intros H. by exists (inl a), h. Qed.

Lemma runs_weaken {A} (m : M A) h (Q Q' : A + exn -> Futures -> Prop) :
  runs m h Q -> (forall r h', Q r h' -> Q' r h') -> runs m h Q'.
Proof. intros (r & h' & E & H) HQ. exists r, h'. auto. Qed.

Lemma runs_state f s h Q : states h !! f = Some s -> Q (inl s) h -> runs (state f) h Q.
Proof. intros Hs H. exists (inl s), h. unfold state. by rewrite Hs. Qed.

(** The calls below return normally, in a state with these promises and futures
    in hand. *)
Definition returns {A} (h : Futures) (Q : A -> Futures -> Prop) (r : A + exn) (h' : Futures) : Prop :=
  exists a, r = inl a /\ ext h h' /\ Q a h'.

Lemma runs_SetValue p E G h v d :
  FInv (p :: E) (option_list (held_val v) ++ G) h -> v <> VMoved -> depth_of h p = Some d -> typed h d v ->
  runs (SetValue p v) h (returns h (fun _ h' => FInv E G h' /\ ready_at h' p)).
Proof. intros I H1 H2 H3. destruct (SetValue_ok _ _ _ _ _ _ I H1 H2 H3) as (h' & E' & I' & Hx & Hr). eexists _, h'. split; [done |]. by exists tt. Qed.

Lemma runs_SetException p E G h e :
  FInv (p :: E) G h -> runs (SetException p e) h (returns h (fun _ h' => FInv E G h' /\ ready_at h' p)).
Proof. intros I. destruct (SetException_ok _ _ _ _ e I) as (h' & E' & I' & Hx & Hr). eexists _, h'. split; [done |]. by exists tt. Qed.

Lemma runs_Promise E G h d :
  FInv E G h -> runs (Promise d) h (returns h (fun p h' => FInv (p :: E) (p :: G) h' /\ depth_of h' p = Some d)).
Proof.
  intros I. eexists _, _. split; [done |]. eexists. split; [done |]. split; [apply alloc_ext |]. split.
  - by apply (state_alloc_inv E G h (mkState d VUnit None None false)).
  - unfold depth_of. cbn. by rewrite list_lookup_middle.
Qed.

Lemma runs_MakeReady E G h v d :
  FInv E (option_list (held_val v) ++ G) h -> typed h d v -> v <> VMoved ->
  runs (MakeReadyFuture d v) h (returns h (fun f h' => FInv E (f :: G) h' /\ depth_of h' f = Some d)).
Proof.
  intros I Ht Hm. eexists _, _. split; [done |]. eexists. split; [done |]. split; [apply alloc_ext |]. split.
  - by apply (state_alloc_inv E G h (mkState d v None None true)).
  - unfold depth_of. cbn. by rewrite list_lookup_middle.
Qed.

Lemma runs_MakeFailed E G h d e :
  FInv E G h -> runs (MakeFailedFuture d e) h (returns h (fun f h' => FInv E (f :: G) h' /\ depth_of h' f = Some d)).
Proof.
  intros I. eexists _, _. split; [done |]. eexists. split; [done |]. split; [apply alloc_ext |]. split.
  - by apply (state_alloc_inv E G h (mkState d VUnit (Some e) None true)).
  - unfold depth_of. cbn. by rewrite list_lookup_middle.
Qed.

Lemma hand_value E G h f s :
  FInv E (f :: G) h -> states h !! f = Some s -> ready_ s = true -> eptr_ s = None ->
  typed h (depth s) (val_ s) /\ val_ s <> VMoved.
Proof.
  intros I Hs Hr He. pose proof (fi_state _ _ _ I _ _ Hs) as Ho. unfold state_ok in Ho. rewrite Hr, He in Ho.
  split; [done |]. intros Hv. apply (hand_not_moved _ _ _ _ I). by exists s.
Qed.

Lemma runs_GetMove E G h f s :
  FInv E (f :: G) h -> states h !! f = Some s -> ready_ s = true ->
  runs (GetMove f) h (fun r h' =>
    match eptr_ s with
    | Some e => r = inr e /\ h' = h
    | None => r = inl (val_ s) /\ ext h h' /\ FInv E (option_list (held_val (val_ s)) ++ G) h'
    end).
Proof.
  intros I Hs Hr. apply runs_bind. unfold Get. apply runs_bind. apply (runs_state _ _ _ _ Hs). rewrite Hr. cbn [negb].
  destruct (eptr_ s) as [e|] eqn:He; [by eexists _, _ |]. apply runs_ret, runs_bind, (runs_state _ _ _ _ Hs).
  apply runs_bind. eexists _, _. split; [done |]. apply runs_ret. rewrite He, Hr. split_and!; [done | |].
  - apply ext_eq. intros x. by apply depth_put with s.
  - by apply move_inv.
Qed.

(** The promises besides its own that a lambda fulfils. *)
Definition extra (fn : func) : list nat := match fn with FlattenOuter q | FlattenInner q => [q] | _ => [] end.

Lemma runs_ThenHelp app policy d fn f E G h s :
  FInv (extra fn ++ E) (f :: G) h -> states h !! f = Some s ->
  (forall p h', ext h h' -> depth_of h' p = Some d -> ~ moved h' f -> closure_ok h' (Continue p f fn)) ->
  (ready_ s = true -> policy = Sync -> runs (app fn f) h (fun r h' => ext h h' /\
     match r with
     | inl v => typed h' d v /\ v <> VMoved /\ FInv E (option_list (held_val v) ++ G) h'
     | inr _ => FInv E G h'
     end)) ->
  runs (ThenHelp app policy d fn f) h (returns h (fun x h' => FInv E (x :: G) h' /\ depth_of h' x = Some d)).
Proof.
  intros I Hs Hc Happ. unfold ThenHelp. apply runs_bind, (runs_state _ _ _ _ Hs).
  assert (runs (Promise d) h (returns h (fun p h' => FInv (owed (Continue p f fn) ++ E) (f :: p :: G) h' /\
    states h' !! f = Some s /\ depth_of h' p = Some d))) as Hp.
  { destruct (runs_Promise _ _ _ d I) as (r & h' & Er & p & -> & Hx & Ip & Hd).
    exists (inl p), h'. split; [done |]. exists p. split_and!; [done | done | | | done].
    - eapply FInv_perm; [| | exact Ip]; [done | solve_Permutation].
    - injection Er as _ <-. cbn. by apply lookup_app_l_Some. }
  destruct (ready_ s) eqn:Hr; cbn [negb].
  - destruct policy.
    + apply runs_catch, runs_bind. eapply runs_weaken; [by apply Happ |]. intros [v|e] h1 [Hx H1].
      * destruct H1 as (Ht & Hm & I1). eapply runs_weaken; [by eapply runs_MakeReady |].
        intros r h2 (x & -> & Hx2 & I2 & Hd2). exists x. eauto 6.
      * eapply runs_weaken; [by eapply runs_MakeFailed |].
        intros r h2 (x & -> & Hx2 & I2 & Hd2). exists x. eauto 6.
    + apply runs_bind. eapply runs_weaken; [exact Hp |]. intros r h1 (p & -> & Hx & I1 & Hs1 & Hd).
      apply runs_bind. eexists _, _. split; [done |]. apply runs_ret. exists p. split_and!; [done | | | done].
      * eapply ext_trans; [exact Hx |]. by apply ext_eq.
      * eapply (spawn_inv _ _ h1 (Continue p f fn)); [exact I1 | exact Hs1 | done |].
        apply Hc; [done | done | by eapply hand_not_moved].
  - apply runs_bind. eapply runs_weaken; [exact Hp |]. intros r h1 (p & -> & Hx & I1 & Hs1 & Hd).
    rewrite (hand_free _ _ _ _ _ I Hs). apply runs_bind. eexists _, _. split; [done |]. apply runs_ret. exists p.
    assert (forall x, depth_of (mkFutures (<[f := set_func (Some (Continue p f fn)) s]> (states h1)) (whens h1) (tasks h1)) x
      = depth_of h1 x) as Hd1 by (intros x; by apply depth_put with s).
    split_and!; [done | | | by rewrite Hd1].
    + eapply ext_trans; [exact Hx |]. by apply ext_eq.
    + eapply (register_inv _ _ h1 (Continue p f fn)); [exact I1 | exact Hs1 | done |].
      apply Hc; [done | done | by eapply hand_not_moved].
Qed.

Lemma depth_lookup h f d : depth_of h f = Some d -> exists s, states h !! f = Some s /\ depth s = d.
Proof. unfold depth_of. destruct (states h !! f) as [s|]; cbn; [intros [= <-]; eauto | done]. Qed.

(** The inner lambda of [flatten]. *)
Lemma runs_inner q f E G h s :
  FInv (q :: E) (f :: G) h -> states h !! f = Some s -> ready_ s = true -> depth_of h q = Some (depth s) ->
  runs (app0 (FlattenInner q) f) h (returns h (fun v h' => v = VUnit /\ FInv E G h')).
Proof.
  intros I Hs Hr Hq. apply runs_bind.
  assert (runs (catch (v <~ GetMove f; SetValue q v) (fun e => SetException q e)) h (returns h (fun _ => FInv E G))) as Hc.
  { apply runs_catch, runs_bind. eapply runs_weaken; [by apply (runs_GetMove _ _ _ _ _ I Hs) |].
    intros r h1. destruct (eptr_ s) as [e|] eqn:He.
    - intros [-> ->]. eapply runs_weaken; [by apply (runs_SetException _ _ _ _ e (FInv_drop _ _ _ _ I)) |].
      intros r h2 (a & -> & Hx2 & I2 & _). exists a. eauto.
    - intros (-> & Hx & I1). destruct (hand_value _ _ _ _ _ I Hs Hr He) as [Ht Hm].
      eapply runs_weaken; [apply (runs_SetValue _ _ _ _ _ _ I1 Hm (Hx _ _ Hq)); by eapply typed_grow |].
      intros r h2 (a & -> & Hx2 & I2 & _). exists a. eauto. }
  eapply runs_weaken; [exact Hc |]. intros r h1 (a & -> & Hx & I1). apply runs_ret. exists VUnit. done.
Qed.

Lemma runs_then0 q f E G h d :
  FInv (q :: E) (f :: G) h -> depth_of h q = Some d -> depth_of h f = Some d ->
  runs (then0 Sync 0 (FlattenInner q) f) h (returns h (fun x h' => FInv E (x :: G) h' /\ depth_of h' x = Some 0%nat)).
Proof.
  intros I Hq Hf. destruct (depth_lookup _ _ _ Hf) as (s & Hs & Hd).
  apply (runs_ThenHelp app0 Sync 0 (FlattenInner q) f E G h s); [exact I | exact Hs | |].
  - intros p h' Hx Hp Hm. unfold closure_ok; cbn [c_fn c_fut c_prom]; split_and!; [rewrite (Hx _ _ Hf); eauto | done | done |]. by rewrite (Hx _ _ Hq), (Hx _ _ Hf).
  - intros Hr _. eapply runs_weaken; [apply (runs_inner q f E G h s I Hs Hr); by rewrite Hd |].
    intros r h' (v & -> & Hx & -> & I'). done.
Qed.

(** The outer lambda of [flatten]. *)
Lemma runs_outer p f E G h s d :
  FInv (p :: E) (f :: G) h -> states h !! f = Some s -> ready_ s = true -> depth s = S d -> depth_of h p = Some d ->
  runs (app1 (FlattenOuter p) f) h (returns h (fun v h' => v = VUnit /\ FInv E G h')).
Proof.
  intros I Hs Hr Hd Hp. unfold app1, flatten_outer.
  destruct (runs_GetMove _ _ _ _ _ I Hs Hr) as (r & h1 & E1 & H1). unfold runs. rewrite E1, bind_Ok.
  destruct (eptr_ s) as [e|] eqn:He.
  - destruct H1 as [-> ->]. apply runs_bind. eapply runs_weaken; [by apply (runs_SetException _ _ _ _ e (FInv_drop _ _ _ _ I)) |].
    intros r h2 (a & -> & Hx & I2 & _). apply runs_ret. by exists VUnit.
  - destruct H1 as (-> & Hx & I1). destruct (hand_value _ _ _ _ _ I Hs Hr He) as [Ht Hm]. rewrite Hd in Ht.
    destruct (val_ s) as [| |g| |]; try done. cbn in Ht, I1. apply runs_bind.
    eapply runs_weaken; [apply (runs_then0 p g E G h1 d I1); by apply Hx |].
    intros r h2 (a & -> & Hx2 & I2 & _). apply runs_ret. exists VUnit. split; [done |]. split; [eauto |].
    split; [done | by eapply FInv_drop].
Qed.

Lemma runs_flatten d : forall f E G h,
  FInv E (f :: G) h -> depth_of h f = Some d ->
  runs (flatten d f) h (returns h (fun x h' => FInv E (x :: G) h' /\ depth_of h' x = Some 0%nat)).
Proof.
  induction d as [|d IH]; intros f E G h I Hf; cbn [flatten].
  - apply runs_ret. exists f. eauto.
  - apply runs_bind. eapply runs_weaken; [exact (runs_Promise _ _ _ d I) |]. intros r h1 (p & -> & Hx1 & I1 & Hp).
    apply runs_bind. apply Hx1 in Hf as Hf1. destruct (depth_lookup _ _ _ Hf1) as (s & Hs & Hd).
    assert (FInv (p :: E) (f :: p :: G) h1) as I1' by (eapply FInv_perm; [| | exact I1]; [done | solve_Permutation]).
    eapply runs_weaken.
    + apply (runs_ThenHelp app1 Sync 0 (FlattenOuter p) f E (p :: G) h1 s); [exact I1' | exact Hs | |].
      * intros q h' Hx Hq Hm. unfold closure_ok; cbn [c_fn c_fut c_prom]; split_and!; [rewrite (Hx _ _ Hf1); eauto | done | done |]. exists d. split; by apply Hx.
      * intros Hr _. eapply runs_weaken; [by apply (runs_outer p f E (p :: G) h1 s d) |].
        intros r h' (v & -> & Hx & -> & I'). done.
    + intros r h2 (x & -> & Hx2 & I2 & _). apply FInv_drop in I2.
      eapply runs_weaken; [apply (IH p E G h2 I2); by apply Hx2 |].
      intros r h3 (y & -> & Hx3 & I3 & Hd3). exists y. eauto 6.
Qed.

(** ** User code *)

(** What a user function returned: the futures in it, and its type. *)
Definition ret_futures (r : value + exn) : list nat := match r with inl v => option_list (held_val v) | inr _ => [] end.
Definition ret_ok (h : Futures) (d : nat) (r : value + exn) : Prop :=
  match r with inl v => typed h d v /\ v <> VMoved | inr _ => True end.

Lemma user_closure p f h h' s :
  ext h h' -> states h !! f = Some s -> ~ moved h' f -> closure_ok h' (Continue p f User).
Proof. intros Hx Hs Hm. split; [| done]. cbn [c_fut]. rewrite (Hx _ _ (depth_state _ _ _ Hs)). eauto. Qed.

(** The function is called later. *)
Lemma runs_Then_later r policy d f E G h s :
  FInv E (f :: G) h -> states h !! f = Some s -> ready_ s = false \/ policy = Async ->
  runs (Then r policy d User f) h (returns h (fun x h' => FInv E (x :: G) h' /\ depth_of h' x = Some 0%nat)).
Proof.
  intros I Hs Hl. apply runs_bind. eapply runs_weaken.
  - apply (runs_ThenHelp (app2 r) policy d User f E G h s I Hs).
    + intros p h' Hx _ Hm. by eapply user_closure.
    + intros Hr ->. destruct Hl; congruence.
  - intros r' h1 (x & -> & Hx & I1 & Hd). eapply runs_weaken; [by apply (runs_flatten d x E G h1) |].
    intros r'' h2 (y & -> & Hx2 & I2 & Hd2). exists y. eauto 6.
Qed.

(** It is called at once. *)
Lemma runs_Then_now r d f E G h s :
  FInv E (f :: ret_futures r ++ G) h -> states h !! f = Some s -> ready_ s = true -> ret_ok h d r ->
  runs (Then r Sync d User f) h (returns h (fun x h' => FInv E (x :: G) h' /\ depth_of h' x = Some 0%nat)).
Proof.
  intros I Hs Hr Hok. apply FInv_drop in I. apply runs_bind. unfold ThenHelp. apply runs_bind, (runs_state _ _ _ _ Hs).
  rewrite Hr. cbn [negb]. apply runs_catch, runs_bind.
  assert (forall x h1, ext h h1 -> FInv E (x :: G) h1 -> depth_of h1 x = Some d ->
    runs (flatten d x) h1 (returns h (fun x h' => FInv E (x :: G) h' /\ depth_of h' x = Some 0%nat))) as Hfl.
  { intros x h1 Hx I1 Hd. eapply runs_weaken; [by apply (runs_flatten d x E G h1) |].
    intros r'' h2 (y & -> & Hx2 & I2 & Hd2). exists y. eauto 6. }
  destruct r as [v|e]; cbn [app2].
  - destruct Hok as [Ht Hm]. apply runs_ret. eapply runs_weaken; [by apply (runs_MakeReady E G h v d) |].
    intros r h1 (x & -> & Hx & I1 & Hd). by apply Hfl.
  - eexists (inr e), h. split; [done |]. eapply runs_weaken; [by apply (runs_MakeFailed E G h d e) |].
    intros r h1 (x & -> & Hx & I1 & Hd). by apply Hfl.
Qed.

(** A task runs. *)
Lemma run_task_ok r k c E G h d :
  FInv E (ret_futures r ++ G) h -> tasks h !! k = Some c -> depth_of h (c_prom c) = Some d -> ret_ok h d r ->
  (c_fn c <> User -> r = inl VUnit) ->
  exists h', run_task r k h = Ok h' /\ FInv E G h' /\ ready_at h' (c_prom c).
Proof.
  intros I Hk Hd Hr Hu. unfold run_task. rewrite Hk. cbn [deref]. rewrite bind_Ok.
  pose proof (fi_closure _ _ _ I c) as Hok. destruct Hok as (_ & Hm & Hok).
  { unfold closures. rewrite elem_of_app. right. by eapply list_elem_of_lookup_2. }
  destruct (fi_task _ _ _ I c) as (s & Hs & Hrd); [by eapply list_elem_of_lookup_2 |].
  apply (take_inv _ _ _ _ _ I) in Hk as I1. set (h1 := mkFutures _ _ _) in I1 |- *.
  assert (runs (run_closure r c) h1 (returns h (fun _ h' => FInv E G h' /\ ready_at h' (c_prom c)))) as (r' & h' & Eh & a & -> & Hx & I' & Hrp).
  2: { rewrite Eh, bind_Ok. eauto. }
  assert (forall hh vv, ext h hh -> FInv (c_prom c :: E) (option_list (held_val vv) ++ G) hh -> vv <> VMoved -> typed hh d vv ->
    runs (SetValue (c_prom c) vv) hh (fun r' h' => match r' with inl a => returns h (fun (_ : unit) h' => FInv E G h' /\ ready_at h' (c_prom c)) (inl a) h'
      | inr e => runs (SetException (c_prom c) e) h' (returns h (fun (_ : unit) h' => FInv E G h' /\ ready_at h' (c_prom c))) end)) as Hset.
  { intros hh vv Hx I2 Hv Ht. eapply runs_weaken; [apply (runs_SetValue _ _ _ _ _ _ I2 Hv (Hx _ _ Hd) Ht) |].
    intros r2 h2 (a & -> & Hx2 & I3). exists a. eauto 7. }
  apply runs_catch, runs_bind. destruct (c_fn c) as [|q|q|w i] eqn:Hfn; cbn [app2].
  - unfold owed in I1. rewrite Hfn in I1. cbn [app] in I1. destruct r as [v|e].
    + destruct Hr as [Ht Hv]. apply runs_ret, Hset; [by intros x dd | by apply FInv_drop in I1 | done | exact Ht].
    + eexists (inr e), h1. split; [done |]. apply FInv_drop in I1. by apply (runs_SetException (c_prom c) E G h1 e).
  - specialize (Hu ltac:(done)). subst r. destruct Hok as (Hd0 & dq & Hq & Hf).
    rewrite Hd in Hd0. injection Hd0 as ->. rewrite (depth_state _ _ _ Hs) in Hf. injection Hf as Hf.
    unfold owed in I1. rewrite Hfn in I1. cbn [app ret_futures held_val option_list] in I1.
    eapply runs_weaken.
    + apply (runs_outer q (c_fut c) (c_prom c :: E) G h1 s dq); [| done | done | done | done].
      eapply FInv_perm; [apply perm_swap | reflexivity | exact I1].
    + intros r2 h2 (a & -> & Hx2 & -> & I2). by apply Hset.
  - specialize (Hu ltac:(done)). subst r. destruct Hok as [Hd0 Hq].
    rewrite Hd in Hd0. injection Hd0 as ->. rewrite (depth_state _ _ _ Hs) in Hq.
    unfold owed in I1. rewrite Hfn in I1. cbn [app ret_futures held_val option_list] in I1.
    eapply runs_weaken.
    + apply (runs_inner q (c_fut c) (c_prom c :: E) G h1 s); [| done | done | done].
      eapply FInv_perm; [apply perm_swap | reflexivity | exact I1].
    + intros r2 h2 (a & -> & Hx2 & -> & I2). by apply Hset.
  - done.
Qed.

(** A run of a program: [E] and [G] are the promises and futures in the hands of
    the user. *)
Definition world : Type := Futures * list nat * list nat.
Definition no_futures : world := (mkFutures [] [] [], [], []).

Inductive fut_step : world -> world -> Prop :=
| fs_promise d h E G p h' :
    Promise d h = Ok (inl p, h') -> fut_step (h, E, G) (h', p :: E, p :: G)
| fs_ready d v h E G G' f h' :
    G ≡ₚ option_list (held_val v) ++ G' -> typed h d v -> v <> VMoved ->
    MakeReadyFuture d v h = Ok (inl f, h') -> fut_step (h, E, G) (h', E, f :: G')
| fs_value p v h E E' G G' d h' r :
    E ≡ₚ p :: E' -> G ≡ₚ option_list (held_val v) ++ G' -> depth_of h p = Some d -> typed h d v -> v <> VMoved ->
    SetValue p v h = Ok (r, h') -> fut_step (h, E, G) (h', E', G')
| fs_exception p e h E E' G h' r :
    E ≡ₚ p :: E' -> SetException p e h = Ok (r, h') -> fut_step (h, E, G) (h', E', G)
| fs_then_later r policy d f s h E G G' x h' :
    G ≡ₚ f :: G' -> states h !! f = Some s -> ready_ s = false \/ policy = Async ->
    Then r policy d User f h = Ok (inl x, h') -> fut_step (h, E, G) (h', E, x :: G')
| fs_then_now r d f s h E G G' x h' :
    G ≡ₚ f :: ret_futures r ++ G' -> states h !! f = Some s -> ready_ s = true -> ret_ok h d r ->
    Then r Sync d User f h = Ok (inl x, h') -> fut_step (h, E, G) (h', E, x :: G')
| fs_task r k c d h E G G' h' :
    G ≡ₚ ret_futures r ++ G' -> tasks h !! k = Some c -> depth_of h (c_prom c) = Some d -> ret_ok h d r ->
    (c_fn c <> User -> r = inl VUnit) -> run_task r k h = Ok h' -> fut_step (h, E, G) (h', E, G')
| fs_drop f h E G G' : G ≡ₚ f :: G' -> fut_step (h, E, G) (h, E, G').

Definition world_ok (w : world) : Prop := FInv w.1.2 w.2 w.1.1.

Lemma fut_step_ok w w' : fut_step w w' -> world_ok w -> world_ok w'.
Proof.
  unfold world_ok. intros Hs I. destruct Hs as [d h E G p h' Hp|d v h E G G' f h' HG Ht Hm Hf|p v h E E' G G' d h' r HE HG Hd Ht Hm Hv
    |p e h E E' G h' r HE He|r policy d f s h E G G' x h' HG Hs Hl Ht|r d f s h E G G' x h' HG Hs Hr Hok Ht
    |r k c d h E G G' h' HG Hk Hd Hok Hu Ht|f h E G G' HG]; cbn in I |- *;
    try (apply (FInv_perm _ _ _ _ _ (reflexivity _) HG) in I).
  - destruct (runs_Promise E G h d I) as (r & h1 & E1 & y & -> & _ & I1 & _). rewrite Hp in E1. by injection E1 as -> ->.
  - destruct (runs_MakeReady E G' h v d I Ht Hm) as (r & h1 & E1 & y & -> & _ & I1 & _). rewrite Hf in E1. by injection E1 as -> ->.
  - apply (FInv_perm _ _ _ _ _ HE (reflexivity _)) in I.
    destruct (runs_SetValue p E' G' h v d I Hm Hd Ht) as (r1 & h1 & E1 & y & -> & _ & I1 & _). rewrite Hv in E1. by injection E1 as -> ->.
  - apply (FInv_perm _ _ _ _ _ HE (reflexivity _)) in I.
    destruct (runs_SetException p E' G h e I) as (r1 & h1 & E1 & y & -> & _ & I1 & _). rewrite He in E1. by injection E1 as -> ->.
  - destruct (runs_Then_later r policy d f E G' h s I Hs Hl) as (r1 & h1 & E1 & y & -> & _ & I1 & _). rewrite Ht in E1. by injection E1 as -> ->.
  - destruct (runs_Then_now r d f E G' h s I Hs Hr Hok) as (r1 & h1 & E1 & y & -> & _ & I1 & _). rewrite Ht in E1. by injection E1 as -> ->.
  - destruct (run_task_ok r k c E G' h d I Hk Hd Hok Hu) as (h1 & E1 & I1 & _). rewrite Ht in E1. by injection E1 as ->.
  - by apply FInv_drop in I.
Qed.

Lemma no_futures_ok : world_ok no_futures.
Proof.
  constructor; cbn; try done; try constructor; try set_solver.
Qed.

Lemma fut_reachable w : rtc fut_step no_futures w -> world_ok w.
Proof.
  intros Hr. pose proof no_futures_ok as I. induction Hr as [|x y z Hxy _ IH]; [done |]. by eapply IH, fut_step_ok.
Qed.

Lemma bind_owner {A B} (f : A -> list B) l x y b :
  NoDup (l ≫= f) -> x ∈ l -> y ∈ l -> b ∈ f x -> b ∈ f y -> x = y.
Proof.
  induction l as [|a l IH]; cbn; [set_solver |]. intros (_ & Hd & Hn)%NoDup_app Hx Hy Hbx Hby.
  apply elem_of_cons in Hx as [->|Hx], Hy as [->|Hy]; [done | | | eauto].
  - exfalso. apply (Hd b Hbx). apply list_elem_of_bind. eauto.
  - exfalso. apply (Hd b Hby). apply list_elem_of_bind. eauto.
Qed.



(** ** A run: a promise, and a [Then] whose function will return a future *)

Definition demo1 : Futures := match Promise 0 (mkFutures [] [] []) with Ok (_, h) => h | Fail _ => mkFutures [] [] [] end.
Definition demo2 : Futures := match Then (inl VUnit) Sync 1 User 0 demo1 with Ok (_, h) => h | Fail _ => demo1 end.

Lemma demo_run : rtc fut_step no_futures (demo2, [0%nat], [2%nat]).
Proof.
  eapply rtc_l; [by apply (fs_promise 0) |]. apply rtc_once.
  apply (fs_then_later (inl VUnit) Sync 1 0 (mkState 0 VUnit None None false) demo1 [0%nat] [0%nat] [] 2 demo2); auto.
Qed.


