(* ===== verification/FutureWhen.v ===== *)
(** * WhenAll, and the race between Then and SetValue

    [WhenAll] (src/src/Future.h) collects the values of its futures whatever the
    order in which they become ready.  [SetException] excludes [Then] by the
    mutex of the state; [SetValue] does not, and a continuation can be lost. *)

From S2P Require Import Prelude Future FutureCorrect.

(** ** The lambdas of WhenAll, in any order *)

Section WhenAll.
Context (w p : nat) (futs : list nat) (vs : list value).
Context (Hlen : length futs = length vs) (Hsize : Z.of_nat (length vs) < 2 ^ 64).
Context (Hnodup : NoDup (p :: futs)).

(** The elements [todo] are left. *)
Definition collecting (todo : list nat) (h : Futures) : Prop :=
  exists x sp,
    whens h !! w = Some x /\ w_promise x = p /\ length (container x) = length vs /\
    count x = Z.of_nat (length todo) /\
    (forall j v, vs !! j = Some v -> j ∉ todo -> container x !! j = Some v) /\
    states h !! p = Some sp /\ eptr_ sp = None /\ (todo <> [] -> ready_ sp = false) /\
    (todo = [] -> ready_ sp = true /\ val_ sp = VVec vs) /\
    (forall i, i ∈ todo -> exists f v s, futs !! i = Some f /\ vs !! i = Some v /\
       states h !! f = Some s /\ ready_ s = true /\ eptr_ s = None /\ val_ s = v).

Lemma collect_value i f v s h :
  futs !! i = Some f -> states h !! f = Some s -> ready_ s = true -> eptr_ s = None -> val_ s = v ->
  exists h1, GetMove f h = Ok (inl v, h1) /\ whens h1 = whens h /\ tasks h1 = tasks h /\
    (forall g, g <> f -> states h1 !! g = states h !! g).
Proof.
  intros Hf Hs Hr He Hv. unfold GetMove, Get, bindM, state. rewrite Hs. cbn. rewrite Hr. cbn. rewrite He. cbn. rewrite Hs, Hv. cbn.
  eexists. split; [done |]. cbn. split_and!; [done | done |]. intros g Hg. by rewrite list_lookup_insert_ne.
Qed.

Lemma SetValue_at q s v h :
  states h !! q = Some s ->
  exists h1, SetValue q v h = Ok (inl tt, h1) /\ whens h1 = whens h /\
    (forall g, g <> q -> states h1 !! g = states h !! g) /\
    states h1 !! q = Some (mkState (depth s) v (eptr_ s) None true).
Proof.
  intros Hs. assert (q < length (states h))%nat by (by eapply lookup_lt_Some).
  unfold SetValue, bindM, state. rewrite Hs. cbn. unfold spawn_func. cbn. destruct (func_ s) eqn:Hf; cbn; (eexists; split; [done |]); cbn.
  - split_and!; [done | | by rewrite list_lookup_insert_eq]. intros g Hg. by rewrite list_lookup_insert_ne.
  - split_and!; [done | | by rewrite list_lookup_insert_eq]. intros g Hg. by rewrite list_lookup_insert_ne.
Qed.

Lemma collect_container i todo (x : When) v :
  length (container x) = length vs ->
  (forall j u, vs !! j = Some u -> j ∉ i :: todo -> container x !! j = Some u) -> vs !! i = Some v ->
  forall j u, vs !! j = Some u -> j ∉ todo -> <[i := v]> (container x) !! j = Some u.
Proof.
  intros Hl Hc Hv j u Hu Hj. destruct (decide (j = i)) as [->|Hji].
  - rewrite list_lookup_insert_eq; [congruence |]. rewrite Hl. by eapply lookup_lt_Some.
  - rewrite list_lookup_insert_ne by done. apply Hc; [done |]. by apply not_elem_of_cons.
Qed.

(** The element is stored; what is left to do is [k]. *)
Lemma when_elem_stores i f v x h h1 :
  whens h !! w = Some x -> GetMove f h = Ok (inl v, h1) -> whens h1 = whens h -> (i < length (container x))%nat ->
  exists h2, states h2 = states h1 /\ tasks h2 = tasks h1 /\
    whens h2 !! w = Some (mkWhen (<[i := v]> (container x)) (u64 (count x - 1)) (w_promise x)) /\
    forall h3, (count x <> 1 -> h3 = h2) ->
      (count x = 1 -> SetValue (w_promise x) (VVec (<[i := v]> (container x))) h2 = Ok (inl tt, h3)) ->
      when_elem w i f h = Ok (inl VUnit, h3).
Proof.
  intros Hw Hg Hws Hi. eexists (mkFutures (states h1) (<[w := _]> (whens h1)) (tasks h1)). cbn.
  assert (w < length (whens h1))%nat by (rewrite Hws; by eapply lookup_lt_Some).
  split_and!; [done | done | by rewrite list_lookup_insert_eq |]. intros h3 Hn Hl.
  unfold when_elem, bindM, when. rewrite Hw. cbn. unfold catch. rewrite Hg. cbn.
  assert ((i <? length (container x))%nat = true) as Hlt by (by apply Nat.ltb_lt).
  unfold set_elem. rewrite Hws, Hw. cbn [deref]. rewrite bind_Ok, Hlt.
  rewrite Hws in Hn, Hl. destruct (Z.eqb_spec (count x) 1) as [H1|H1]; cbn; [| by rewrite (Hn H1)].
  rewrite list_lookup_insert_eq by congruence. cbn. by rewrite (Hl H1).
Qed.

Lemma collect_step i todo h :
  NoDup (i :: todo) -> collecting (i :: todo) h ->
  exists f h', futs !! i = Some f /\ when_elem w i f h = Ok (inl VUnit, h') /\ collecting todo h'.
Proof.
  intros Hn (x & sp & Hw & Hp & Hl & Hc & Hd & Hsp & Hep & Hur & _ & Ht).
  destruct (Ht i) as (f & v & s & Hf & Hv & Hs & Hr & He & Hsv); [by left |].
  assert (f <> p) as Hfp.
  { intros ->. apply NoDup_cons in Hnodup as [Hx _]. apply Hx. by eapply list_elem_of_lookup_2. }
  destruct (collect_value i f v s h Hf Hs Hr He Hsv) as (h1 & Hg & Hw1 & Ht1 & Hst).
  assert (i < length (container x))%nat as Hi by (rewrite Hl; by eapply lookup_lt_Some).
  destruct (when_elem_stores i f v x h h1 Hw Hg Hw1 Hi) as (h2 & Hs2 & Ht2 & Hw2 & Hrun).
  pose proof (collect_container i todo x v Hl Hd Hv) as Hd2.
  assert (states h2 !! p = Some sp) as Hp2 by (by rewrite Hs2, Hst).
  cbn [length] in Hc. assert (count x - 1 = Z.of_nat (length todo)) as Hc1 by lia.
  assert (Z.of_nat (length todo) < 2 ^ 64) as Hbound.
  { assert (length (i :: todo) <= length vs)%nat; [| cbn in *; lia].
    rewrite <- (length_seq (length vs) 0). apply submseteq_length, NoDup_submseteq; [done |].
    intros j Hj. destruct (Ht j Hj) as (_ & u & _ & _ & Hu & _). apply elem_of_seq. split; [lia |]. by eapply lookup_lt_Some. }
  rewrite Hc1, u64_small in Hw2 by lia.
  assert (forall j, j ∈ todo -> exists g u t, futs !! j = Some g /\ vs !! j = Some u /\ g <> p /\
    states h2 !! g = Some t /\ ready_ t = true /\ eptr_ t = None /\ val_ t = u) as Ht'.
  { intros j Hj. destruct (Ht j) as (g & u & t & Hg' & Hu & Hgt & Hrest); [by right |].
    exists g, u, t. apply NoDup_cons in Hnodup as [Hpn Hnd]. split_and!; try done; try apply Hrest.
    - intros ->. apply Hpn. by eapply list_elem_of_lookup_2.
    - rewrite Hs2, Hst; [done |]. intros ->. assert (j = i) by (by eapply (NoDup_lookup futs)). subst.
      by apply NoDup_cons in Hn as [? _]. }
  exists f. destruct todo as [|j todo].
  - destruct (SetValue_at p sp (VVec (<[i := v]> (container x))) h2 Hp2) as (h3 & Hset & Hw3 & Hst3 & Hp3).
    exists h3. split_and!; [done | apply Hrun; [cbn in Hc; lia | intros _; by rewrite Hp] |].
    assert (<[i := v]> (container x) = vs) as Hcv.
    { apply list_eq_same_length with (length vs); [done | by rewrite length_insert |].
      intros k a b Hk Ha Hb. rewrite (Hd2 k b Hb) in Ha by (apply not_elem_of_nil). congruence. }
    rewrite Hcv in Hw2, Hp3. unfold collecting. rewrite Hw3, Hp3, Hw2. eexists _, _. split; [reflexivity |].
    split; [done |]. split; [done |]. split; [done |]. split; [by intros k u Hu |]. split; [reflexivity |].
    cbn. split_and!; [done | done | done |]. by intros k ?%not_elem_of_nil.
  - exists h2. split_and!; [done | apply Hrun; [done | cbn in Hc; lia] |].
    unfold collecting. rewrite Hw2. eexists _, sp. split; [reflexivity |]. cbn [container w_promise count].
    split; [done |]. split; [by rewrite length_insert |]. split; [done |]. split; [exact Hd2 |]. split; [done |].
    split; [done |]. split; [intros _; by apply Hur |]. split; [done |].
    intros k Hk. destruct (Ht' k Hk) as (g & u & t & H1 & H2 & _ & H3). by exists g, u, t.
Qed.

(** The lambdas run in the order of [l]. *)
Fixpoint run_elems (l : list nat) (h : Futures) : outcome Futures :=
  match l with
  | [] => Ok h
  | i :: l => f ← deref (futs !! i); '(_, h) ← when_elem w i f h; run_elems l h
  end.

Lemma collect_run l rest h :
  NoDup (l ++ rest) -> collecting (l ++ rest) h -> exists h', run_elems l h = Ok h' /\ collecting rest h'.
Proof.
  revert h. induction l as [|i l IH]; intros h Hn Hc; [by exists h |].
  destruct (collect_step i (l ++ rest) h Hn Hc) as (f & h1 & Hf & Hrun & Hc1).
  cbn [run_elems]. rewrite Hf. cbn [deref]. rewrite bind_Ok, Hrun, bind_Ok. apply IH; [by apply NoDup_cons in Hn as [_ ?] | done].
Qed.
End WhenAll.

(** The lambdas of [WhenAll], run in any order on futures that are ready,
    fulfil the promise with the values in the order of the futures, and the last
    one does, not one before. *)
Theorem when_all_correct w p futs vs order h sp :
  0 < Z.of_nat (length vs) < 2 ^ 64 -> length futs = length vs -> NoDup (p :: futs) -> order ≡ₚ seq 0 (length vs) ->
  whens h !! w = Some (mkWhen (replicate (length vs) VUnit) (Z.of_nat (length vs)) p) ->
  states h !! p = Some sp -> ready_ sp = false -> eptr_ sp = None ->
  (forall i f v, futs !! i = Some f -> vs !! i = Some v ->
     exists s, states h !! f = Some s /\ ready_ s = true /\ eptr_ s = None /\ val_ s = v) ->
  (exists h' sp', run_elems w futs order h = Ok h' /\ states h' !! p = Some sp' /\
     ready_ sp' = true /\ eptr_ sp' = None /\ val_ sp' = VVec vs) /\
  (forall l rest, order = l ++ rest -> rest <> [] ->
     exists h' sp', run_elems w futs l h = Ok h' /\ states h' !! p = Some sp' /\ ready_ sp' = false).
Proof.
  intros Hn Hl Hnd Ho Hw Hp Hr He Hf.
  assert (NoDup order) as Hno by (rewrite Ho; apply NoDup_seq).
  assert (length order = length vs) as Hlo by (by rewrite Ho, length_seq).
  assert (collecting w p futs vs order h) as Hc.
  { eexists _, sp. split; [exact Hw |]. cbn [container count w_promise].
    split; [done |]. split; [apply length_replicate |]. split; [by rewrite Hlo |]. split.
    { intros j v Hv Hj. exfalso. apply Hj. rewrite Ho, elem_of_seq. split; [lia |]. by eapply lookup_lt_Some. }
    split; [done |]. split; [done |]. split; [done |]. split; [intros ->; cbn in Hlo; lia |].
    intros i Hi. rewrite Ho, elem_of_seq in Hi. destruct (lookup_lt_is_Some_2 vs i) as [v Hv]; [lia |].
    destruct (lookup_lt_is_Some_2 futs i) as [f Hfi]; [lia |]. destruct (Hf i f v Hfi Hv) as (s & Hs). by exists f, v, s. }
  split.
  - destruct (collect_run w p futs vs Hl ltac:(lia) Hnd order [] h) as (h' & Hrun & x & sp' & Hc'); [by rewrite app_nil_r.. |].
    exists h', sp'. naive_solver.
  - intros l rest -> Hne. destruct (collect_run w p futs vs Hl ltac:(lia) Hnd l rest h Hno Hc) as (h' & Hrun & x & sp' & Hc').
    exists h', sp'. naive_solver.
Qed.

(** Three promises, their [WhenAll] and their values, set from the last to the
    first. *)
Definition demo : M nat :=
  a <~ Promise 0; b <~ Promise 0; c <~ Promise 0;
  p <~ WhenAll [a; b; c];
  _ <~ SetValue c (VData 3); _ <~ SetValue b (VData 2); _ <~ SetValue a (VData 1);
  ret p.
Definition demo_heap : Futures :=
  match demo (mkFutures [] [] []) with Ok (_, h) => h | Fail _ => mkFutures [] [] [] end.

Lemma when_all_correct_witness :
  exists h' sp', run_elems 0 [0; 1; 2]%nat [2; 0; 1]%nat demo_heap = Ok h' /\ states h' !! 3%nat = Some sp' /\
    val_ sp' = VVec [VData 1; VData 2; VData 3].
Proof.
  destruct (when_all_correct 0 3 [0; 1; 2]%nat [VData 1; VData 2; VData 3] [2; 0; 1]%nat demo_heap
    (mkState 0 VUnit None None false)) as [(h' & sp' & H1 & H2 & _ & _ & H3) _];
    [cbn; lia | reflexivity | apply (bool_decide_unpack _); vm_compute; exact I | apply (bool_decide_unpack _); vm_compute; exact I
    | vm_compute; reflexivity | vm_compute; reflexivity | reflexivity | reflexivity | | exists h', sp'; split_and!; assumption].
  intros i f v Hf Hv. do 3 (destruct i as [|i]; [injection Hf as <-; injection Hv as <-; eexists; split; [vm_compute; reflexivity | split_and!; reflexivity] |]).
  discriminate Hf.
Defined.

(** [WhenAll] of an empty range returns a future that nobody will fulfil: no
    lambda is stored or spawned. *)
Theorem when_all_empty_hangs h :
  exists p h', WhenAll [] h = Ok (inl p, h') /\
    states h' !! p = Some (mkState 0 VUnit None None false) /\ closures h' = closures h.
Proof.
  eexists _, _. split; [reflexivity |]. cbn. split; [by apply list_lookup_middle |].
  unfold closures. cbn. rewrite omap_snoc. cbn. by rewrite app_nil_r.
Qed.

(** ** Then against SetValue and SetException, load by load

    One core runs [ThenHelp] on a future while another fulfils its promise.  The
    counters follow the loads and stores of ready_, func_ and mutex_; a core that
    finds the mutex taken stays where it is. *)

Module Race.

Inductive then_pc := T_ready | T_lock | T_recheck | T_store | T_unlock | T_call | T_stored | T_called.
Inductive set_pc := S_lock | S_value | S_ready | S_func | S_unlock | S_done.

(** [owner]: who holds the mutex; [spawned]: how often func_ was given to [Spawn]. *)
Inductive core := Thener | Setter.
Record shared := mkShared {
  ready : bool; func : bool; owner : option core; spawned : nat; tpc : then_pc; spc : set_pc
}.

Definition set_owner (o : option core) s := mkShared (ready s) (func s) o (spawned s) (tpc s) (spc s).
Definition at_then (pc : then_pc) s := mkShared (ready s) (func s) (owner s) (spawned s) pc (spc s).
Definition at_set (pc : set_pc) s := mkShared (ready s) (func s) (owner s) (spawned s) (tpc s) pc.

(** [ThenHelp]. *)
Definition then_step (s : shared) : shared :=
  match tpc s with
  | T_ready => at_then (if ready s then T_call else T_lock) s
  | T_lock => match owner s with None => at_then T_recheck (set_owner (Some Thener) s) | Some _ => s end
  | T_recheck => if ready s then at_then T_call (set_owner None s) else at_then T_store s
  | T_store => at_then T_unlock (mkShared (ready s) true (owner s) (spawned s) (tpc s) (spc s))
  | T_unlock => at_then T_stored (set_owner None s)
  | T_call => at_then T_called s
  | T_stored | T_called => s
  end.

(** [SetException] takes the mutex, [SetValue] does not. *)
Definition set_step (locks : bool) (s : shared) : shared :=
  match spc s with
  | S_lock =>
      if locks then match owner s with None => at_set S_value (set_owner (Some Setter) s) | Some _ => s end
      else at_set S_value s
  | S_value => at_set S_ready s
  | S_ready => at_set S_func (mkShared true (func s) (owner s) (spawned s) (tpc s) (spc s))
  | S_func =>
      at_set (if locks then S_unlock else S_done)
        (if func s then mkShared (ready s) false (owner s) (S (spawned s)) (tpc s) (spc s) else s)
  | S_unlock => at_set S_done (set_owner None s)
  | S_done => s
  end.

Definition start : shared := mkShared false false None 0 T_ready S_lock.

(** The cores move in the order of [sched]. *)
Fixpoint run (locks : bool) (sched : list core) (s : shared) : shared :=
  match sched with
  | [] => s
  | Thener :: l => run locks l (then_step s)
  | Setter :: l => run locks l (set_step locks s)
  end.

(** Nobody has anything left to do. *)
Definition over (s : shared) : Prop := (tpc s = T_stored \/ tpc s = T_called) /\ spc s = S_done.

(** What holds between any two steps when the setter locks. *)
Definition then_inside (pc : then_pc) : bool := match pc with T_recheck | T_store | T_unlock => true | _ => false end.
Definition set_inside (pc : set_pc) : bool := match pc with S_value | S_ready | S_func | S_unlock => true | _ => false end.

Definition owned (s : shared) : bool :=
  match owner s with
  | Some Thener => then_inside (tpc s) && negb (set_inside (spc s))
  | Some Setter => negb (then_inside (tpc s)) && set_inside (spc s)
  | None => negb (then_inside (tpc s)) && negb (set_inside (spc s))
  end.
Definition flags (s : shared) (f : bool) (n : nat) : bool := Bool.eqb (func s) f && (spawned s =? n)%nat.
Definition race_inv (s : shared) : bool :=
  owned s &&
  Bool.eqb (ready s) (match spc s with S_lock | S_value | S_ready => false | _ => true end) &&
  match tpc s with
  | T_store => flags s false 0 && negb (ready s)
  | T_unlock | T_stored => match spc s with S_unlock | S_done => flags s false 1 | _ => flags s true 0 end
  | _ => flags s false 0
  end.

Lemma race_step c s : race_inv s = true -> race_inv (run true [c] s) = true.
Proof.
  destruct s as [rd fn ow sp tp sp'].
  destruct c, ow as [[]|], tp, sp'; try (intros H; exact H); try (intros H; cbn in H; discriminate H);
    destruct rd; try (intros H; cbn in H; discriminate H); destruct fn, sp as [|[|sp]];
    intros H; cbn in H |- *; first [discriminate H | reflexivity].
Qed.

Lemma run_app locks l1 l2 s : run locks (l1 ++ l2) s = run locks l2 (run locks l1 s).
Proof. revert s. induction l1 as [|[] l1 IH]; intros s; cbn; auto. Qed.

Lemma race_run sched : race_inv (run true sched start) = true.
Proof.
  induction sched as [|c l IH] using rev_ind; [done |].
  rewrite run_app. by apply race_step.
Qed.

(** Against [SetException], whatever the interleaving, once both are over the
    continuation has been called by [Then] or spawned by [SetException], exactly
    once; against [SetValue] there is an interleaving in which it is neither: it
    stays in a future that is ready. *)
Theorem set_value_loses_continuation :
  (forall sched, over (run true sched start) ->
     tpc (run true sched start) = T_called /\ spawned (run true sched start) = 0%nat \/
     tpc (run true sched start) = T_stored /\ spawned (run true sched start) = 1%nat) /\
  exists sched, over (run false sched start) /\ tpc (run false sched start) = T_stored /\
    spawned (run false sched start) = 0%nat /\ func (run false sched start) = true /\ ready (run false sched start) = true.
Proof.
  split.
  - intros sched [Ht Hs]. pose proof (race_run sched) as H. unfold race_inv in H.
    apply andb_true_iff in H as [_ H]. unfold flags in H.
    destruct Ht as [Ht|Ht]; rewrite Ht in H |- *; rewrite ?Hs in H; apply andb_true_iff in H as [_ H%Nat.eqb_eq]; auto.
  - exists ([Thener; Thener; Thener] ++ [Setter; Setter; Setter; Setter] ++ [Thener; Thener]).
    split; [split; [left; reflexivity | reflexivity] | split_and!; reflexivity].
Qed.
End Race.
