(* ===== verification/Timer.v ===== *)
(** * Timers

    Models src/src/native/Timer.cc and src/src/Timer.h.  [timers_] is a
    boost::intrusive::multiset ordered by fire time: a list of hooks in the order
    of iteration.  As documented, [insert] puts a hook after the equal ones and
    [erase] of a value removes every element that compares equal to it.  The
    readings of the clock are an input. *)

From S2P Require Import Prelude.

Record Hook := mkHook { fire_time_ : Z; repeat_us_ : Z }.      (* ns, us *)

(** [dcr] and [init_count] are the registers kX2apicDcr and kX2apicInitCount. *)
Record Timer := mkTimer {
  ticks_per_us_ : Z;
  hooks : gmap nat Hook;
  timers_ : list nat;
  dcr : Z;
  init_count : Z
}.

Definition hook (x : nat) (t : Timer) : Hook := default (mkHook 0 0) (hooks t !! x).
Definition time (x : nat) (t : Timer) : Z := fire_time_ (hook x t).
Definition set_hook (x : nat) (h : Hook) (t : Timer) : Timer :=
  mkTimer (ticks_per_us_ t) (<[x := h]> (hooks t)) (timers_ t) (dcr t) (init_count t).
Definition set_timers (l : list nat) (t : Timer) : Timer :=
  mkTimer (ticks_per_us_ t) (hooks t) l (dcr t) (init_count t).
Definition write_msr (d c : Z) (t : Timer) : Timer :=
  mkTimer (ticks_per_us_ t) (hooks t) (timers_ t) d c.

(** ** The multiset *)

Fixpoint insert_sorted (key : nat -> Z) (x : nat) (l : list nat) : list nat :=
  match l with
  | [] => [x]
  | y :: l' => if key x <? key y then x :: l else y :: insert_sorted key x l'
  end.
Definition erase_value (key : nat -> Z) (x : nat) (l : list nat) : list nat :=
  filter (fun y => key y <> key x) l.

Definition insert (x : nat) (t : Timer) : Timer := set_timers (insert_sorted (fun y => time y t) x (timers_ t)) t.
Definition erase (x : nat) (t : Timer) : Timer := set_timers (erase_value (fun y => time y t) x (timers_ t)) t.

(** ** SetTimer *)

(** [while (ticks > 0xFFFFFFFF) { ticks >>= 1; divider++; }]. *)
Fixpoint divide_loop (fuel : nat) (ticks divider : Z) : outcome (Z * Z) :=
  if 0xFFFFFFFF <? ticks then
    match fuel with
    | O => Fail Diverges
    | S fuel => divide_loop fuel (Z.shiftr ticks 1) (divider + 1)
    end
  else Ok (ticks, divider).

Definition SetTimer (from_now : Z) (t : Timer) : outcome Timer :=
  if from_now =? 0 then Ok (write_msr 0xb 1 t) else
  let ticks := u64 (u64 from_now * ticks_per_us_ t) in
  '(ticks, divider) ← divide_loop 33 ticks (-1);
  let '(divider, ticks) := if 7 <? divider then (7, 0xFFFFFFFF) else (divider, ticks) in
  let divider_set := if divider =? -1 then 0xb else divider in
  _ ← kassert (0 <? ticks);
  Ok (write_msr divider_set ticks t).

Definition StopTimer (t : Timer) : Timer := write_msr (dcr t) 0 t.

(** [duration_cast<microseconds>] truncates. *)
Definition to_us (ns : Z) : Z := Z.quot ns 1000.

(** ** Start and Stop, at time [now] *)

Definition Start (now : Z) (x : nat) (timeout : Z) (repeat : bool) (t : Timer) : outcome Timer :=
  let t := set_hook x (mkHook (now + timeout * 1000) (repeat_us_ (hook x t))) t in
  t ← (match timers_ t with
       | [] => SetTimer timeout t
       | y :: _ => if time x t <? time y t then SetTimer timeout t else Ok t
       end);
  let t := set_hook x (mkHook (time x t) (if repeat then timeout else 0)) t in
  Ok (insert x t).

Definition Stop (now : Z) (x : nat) (t : Timer) : outcome Timer :=
  let t := erase x t in
  match timers_ t with
  | [] => Ok (StopTimer t)
  | y :: _ => if now <? time y t then SetTimer (to_us (time y t - now)) t else Ok t
  end.

(** ** The interrupt handler

    [fire] is what [Hook::Fire] does to the timer; [nows] are the readings of the
    clock, the first one taken on entry.  The result lists the hooks fired. *)

Section Interrupt.
Context (fire : nat -> Timer -> outcome Timer).

Fixpoint fire_loop (nows : list Z) (now : Z) (t : Timer) : outcome (list nat * Z * Timer) :=
  match timers_ t with
  | x :: _ =>
      if time x t <=? now then
        let t := erase x t in
        let t := if negb (repeat_us_ (hook x t) =? 0)
                 then insert x (set_hook x (mkHook (now + repeat_us_ (hook x t) * 1000) (repeat_us_ (hook x t))) t)
                 else t in
        t ← fire x t;
        match nows with
        | [] => Fail Diverges                   (* the readings are used up *)
        | now :: nows => '(fired, now, t) ← fire_loop nows now t; Ok (x :: fired, now, t)
        end
      else Ok ([], now, t)
  | [] => Ok ([], now, t)
  end.

Definition Interrupt (nows : list Z) (t : Timer) : outcome (list nat * Timer) :=
  match nows with
  | [] => Fail Diverges
  | now :: nows =>
      '(fired, now, t) ← fire_loop nows now t;
      match timers_ t with
      | [] => Ok (fired, t)
      | y :: _ => t ← SetTimer (to_us (time y t - now)) t; Ok (fired, t)
      end
  end.
End Interrupt.

(** The constructor: the calibration over 10 ms, from the remaining count. *)
Definition calibrate (remaining : Z) : Z :=
  let elapsed := u32 (0xFFFFFFFF - remaining) in
  u32 (elapsed * 16) / 10000.
