(* ===== verification/TimerCorrect.v ===== *)
(** * Timers are programmed and fired correctly, when their times differ

    [SetTimer] never programs a delay longer than the one asked for; the
    interrupt handler fires one hook for each fire time that has passed
    (src/src/native/Timer.cc), which is every hook only if no two hooks have the
    same fire time. *)

From Stdlib Require Import Sorting.Sorted.
From S2P Require Import Prelude Timer.

(** ** SetTimer *)

Lemma divide_loop_spec fuel : forall ticks d,
  0 <= ticks < 2 ^ (32 + Z.of_nat fuel) ->
  exists k, 0 <= k /\ divide_loop fuel ticks d = Ok (ticks / 2 ^ k, d + k) /\
    ticks / 2 ^ k <= 0xFFFFFFFF /\ (k = 0 \/ 2 ^ 31 <= ticks / 2 ^ k).
Proof.
  induction fuel as [|fuel IH]; intros ticks d Ht; cbn [divide_loop].
  - destruct (Z.ltb_spec 0xFFFFFFFF ticks); [change (2 ^ (32 + Z.of_nat 0)) with 0x100000000 in Ht; lia |].
    exists 0. rewrite Z.div_1_r, Z.add_0_r. split_and!; [lia | done | lia | by left].
  - destruct (Z.ltb_spec 0xFFFFFFFF ticks) as [Hgt|Hle].
    2: { exists 0. rewrite Z.div_1_r, Z.add_0_r. split_and!; [lia | done | lia | by left]. }
    rewrite Z.shiftr_div_pow2 by lia. change (2 ^ 1) with 2.
    destruct (IH (ticks / 2) (d + 1)) as (k & Hk & -> & Hc & Hl).
    { split; [apply Z.div_pos; lia |]. apply Z.div_lt_upper_bound; [lia |].
      replace (32 + Z.of_nat (S fuel)) with (1 + (32 + Z.of_nat fuel)) in Ht by lia. rewrite Z.pow_add_r in Ht by lia. lia. }
    exists (1 + k). rewrite Z.pow_add_r by lia. change (2 ^ 1) with 2. rewrite <- Z.div_div by lia.
    split_and!; [lia | f_equal; f_equal; lia | done |]. right. destruct Hl as [->|]; [| done].
    rewrite Z.div_1_r. apply Z.div_le_lower_bound; lia.
Qed.

(** For a delay whose ticks fit in 64 bits, [SetTimer] programs a count of 1 to
    2^32 - 1 and one of the nine dividers, whose product is never above the ticks
    asked for, and within one divided tick of them as long as they are below
    2^40; [d + 1] is the power of two of the divider. *)
Theorem SetTimer_correct from_now t :
  let ticks := from_now * ticks_per_us_ t in
  0 < from_now -> 0 < ticks_per_us_ t -> ticks < 2 ^ 64 ->
  exists d c, SetTimer from_now t = Ok (write_msr (if d =? -1 then 0xb else d) c t) /\
    -1 <= d <= 7 /\ 0 < c <= 0xFFFFFFFF /\ c * 2 ^ (d + 1) <= ticks /\
    (ticks < 2 ^ 40 -> ticks < (c + 1) * 2 ^ (d + 1)).
Proof.
  intros ticks Hf Ht Hb. assert (0 < ticks) as H0 by (apply Z.mul_pos_pos; lia).
  assert (from_now <= ticks) by (unfold ticks; nia).
  unfold SetTimer. destruct (Z.eqb_spec from_now 0); [lia |]. rewrite (u64_small from_now) by lia.
  fold ticks. rewrite (u64_small ticks) by lia.
  destruct (divide_loop_spec 33 ticks (-1)) as (k & Hk & -> & Hc & Hl).
  { split; [lia |]. change (32 + Z.of_nat 33) with 65. change (2 ^ 64) with 18446744073709551616 in Hb.
    change (2 ^ 65) with 36893488147419103232. lia. }
  rewrite bind_Ok. assert (0 < 2 ^ k) as Hp by (apply Z.pow_pos_nonneg; lia).
  assert (0 < ticks / 2 ^ k) as Hpos.
  { destruct Hl as [->|Hl]; [by rewrite Z.div_1_r |]. eapply Z.lt_le_trans; [| exact Hl]. done. }
  destruct (Z.ltb_spec 7 (-1 + k)) as [Hbig|Hsmall].
  - assert (2 ^ 40 <= ticks) as H40.
    { destruct Hl as [->|Hl]; [lia |]. assert (2 ^ 9 <= 2 ^ k) by (apply Z.pow_le_mono_r; lia).
      pose proof (Z.mul_div_le ticks (2 ^ k) Hp). change (2 ^ 40) with (2 ^ 9 * 2 ^ 31).
      eapply Z.le_trans; [| exact H2]. apply Z.mul_le_mono_nonneg; lia. }
    exists 7, 0xFFFFFFFF. split_and!; [done | lia..].
  - exists (-1 + k), (ticks / 2 ^ k). destruct (Z.ltb_spec 0 (ticks / 2 ^ k)); [| lia]. cbn [kassert]. rewrite bind_Ok.
    replace (-1 + k + 1) with k by lia. pose proof (Z.mul_div_le ticks (2 ^ k) Hp).
    pose proof (Z.mul_succ_div_gt ticks (2 ^ k) Hp). split_and!; [done | lia..].
Qed.

Lemma SetTimer_correct_witness :
  exists d c, SetTimer 1000000 (mkTimer 1000 ∅ [] 0 0) = Ok (write_msr (if d =? -1 then 0xb else d) c (mkTimer 1000 ∅ [] 0 0)) /\
    -1 <= d <= 7 /\ 0 < c <= 0xFFFFFFFF.
Proof.
  destruct (SetTimer_correct 1000000 (mkTimer 1000 ∅ [] 0 0)) as (d & c & H1 & H2 & H3 & _); [lia | cbn; lia | cbn; lia |].
  exists d, c. split_and!; [exact H1 | lia..].
Defined.

(** ** The interrupt handler *)

Definition sorted (key : nat -> Z) (l : list nat) : Prop := StronglySorted (fun a b => key a <= key b) l.

Lemma insert_perm key x l : insert_sorted key x l ≡ₚ x :: l.
Proof. induction l as [|y l IH]; cbn; [done |]. case_match; [done |]. rewrite IH. apply perm_swap. Qed.

Lemma insert_sorted_sorted key x l : sorted key l -> sorted key (insert_sorted key x l).
Proof.
  unfold sorted. induction 1 as [|y l Hl IH Hy]; cbn; [repeat constructor |].
  destruct (Z.ltb_spec (key x) (key y)).
  - constructor; [by constructor |]. constructor; [lia |]. eapply Forall_impl; [exact Hy |]. cbn. lia.
  - constructor; [done |]. rewrite insert_perm. constructor; [lia | done].
Qed.

Lemma sorted_ext key key' l : (forall y, y ∈ l -> key' y = key y) -> sorted key l -> sorted key' l.
Proof.
  unfold sorted. induction 2 as [|y l Hl IH Hy]; [constructor |]. constructor; [apply IH; set_solver |].
  rewrite Forall_forall in Hy |- *. intros z Hz. rewrite !H by set_solver. by apply Hy.
Qed.

Lemma filter_sorted key (P : nat -> Prop) `{!forall x, Decision (P x)} l : sorted key l -> sorted key (filter P l).
Proof.
  unfold sorted. induction 1 as [|y l Hl IH Hy]; [constructor |]. rewrite filter_cons. case_decide; [| done].
  constructor; [done |]. rewrite Forall_forall in Hy |- *. intros z [_ Hz]%list_elem_of_filter. auto.
Qed.

Lemma time_set x h y t l : y <> x -> time y (set_timers l (set_hook x h t)) = time y t.
Proof. intros Hy. unfold time, hook. cbn. by rewrite lookup_insert_ne. Qed.

(** The state after the first hook is removed, and put back if it repeats. *)
Definition rearm (now : Z) (x : nat) (t : Timer) : Timer :=
  let t := erase x t in
  if negb (repeat_us_ (hook x t) =? 0)
  then insert x (set_hook x (mkHook (now + repeat_us_ (hook x t) * 1000) (repeat_us_ (hook x t))) t)
  else t.

Record timers_ok (t : Timer) : Prop := {
  tm_sorted : sorted (fun y => time y t) (timers_ t);
  tm_nodup : NoDup (timers_ t);
  tm_repeat y : y ∈ timers_ t -> 0 <= repeat_us_ (hook y t)
}.

Lemma rearm_spec now x l t :
  timers_ok t -> timers_ t = x :: l -> time x t <= now ->
  let t' := rearm now x t in
  timers_ok t' /\
  (forall y, y <> x -> time y t' = time y t /\ hook y t' = hook y t /\
     (y ∈ timers_ t' <-> y ∈ timers_ t /\ time y t <> time x t)) /\
  (x ∈ timers_ t' -> now < time x t' /\ hook x t' = mkHook (now + repeat_us_ (hook x t) * 1000) (repeat_us_ (hook x t))) /\
  (x ∈ timers_ t' <-> repeat_us_ (hook x t) <> 0).
Proof.
  intros [Hs Hn Hr] Hl Hx. pose proof (Hr x ltac:(rewrite Hl; by left)) as Hrx. unfold rearm.
  assert (forall y, y ∈ timers_ (erase x t) <-> y ∈ timers_ t /\ time y t <> time x t) as He.
  { intros y. cbn. unfold erase_value. rewrite list_elem_of_filter. tauto. }
  assert (x ∉ timers_ (erase x t)) as Hxe by (rewrite He; tauto).
  assert (sorted (fun y => time y t) (timers_ (erase x t))) as Hse by (by apply filter_sorted).
  assert (NoDup (timers_ (erase x t))) as Hne by (by apply NoDup_filter).
  change (hook x (erase x t)) with (hook x t). destruct (Z.eqb_spec (repeat_us_ (hook x t)) 0) as [H0|H0]; cbn [negb].
  - split_and!; [constructor; [exact Hse | exact Hne |] | | tauto |].
    + intros y [Hy _]%He. by apply Hr.
    + intros y _. split_and!; [done | done | apply He].
    + split; [by intros ?%Hxe | tauto].
  - set (t1 := set_hook x _ (erase x t)).
    assert (forall y, y <> x -> time y t1 = time y t) as Ht1 by (intros y Hy; by apply (time_set x _ y t (timers_ (erase x t)))).
    assert (time x t1 = now + repeat_us_ (hook x t) * 1000) as Htx by (unfold time, hook; cbn; by rewrite lookup_insert_eq).
    assert (hook x t1 = mkHook (now + repeat_us_ (hook x t) * 1000) (repeat_us_ (hook x t))) as Hhx
      by (unfold hook; cbn; by rewrite lookup_insert_eq).
    assert (forall y, y ∈ timers_ (insert x t1) <-> y = x \/ y ∈ timers_ (erase x t)) as Hi.
    { intros y. cbn. rewrite insert_perm, elem_of_cons. done. }
    assert (forall y, time y (insert x t1) = time y t1) as Hti by done.
    assert (forall y, y <> x -> hook y (insert x t1) = hook y t) as Hh by (intros y Hy; unfold hook; cbn; by rewrite lookup_insert_ne).
    split_and!; [constructor | | intros _; rewrite Hti, Htx; split; [lia | exact Hhx] | rewrite Hi; tauto].
    + apply insert_sorted_sorted. eapply (sorted_ext (fun y => time y t)); [| exact Hse]. intros y Hy. apply Ht1. by intros ->.
    + cbn. rewrite insert_perm. by apply NoDup_cons.
    + intros y [->|Hy]%Hi.
      * change (hook x (insert x t1)) with (hook x t1). by rewrite Hhx.
      * rewrite Hh by (by intros ->). apply Hr, He, Hy.
    + intros y Hy. split_and!; [by rewrite Hti, Ht1 | by apply Hh |]. rewrite Hi, He. tauto.
Qed.

Definition due (now : Z) (t : Timer) : list nat := filter (fun y => time y t <= now) (timers_ t).

(** What the handler does when the clock stands at [now]. *)
Record fired_ok (now : Z) (t : Timer) (fired : list nat) (t' : Timer) : Prop := {
  fo_due x : x ∈ fired -> x ∈ timers_ t /\ time x t <= now;
  fo_once y : y ∈ timers_ t -> time y t <= now -> exists x, x ∈ fired /\ time x t = time y t;
  fo_nodup : NoDup fired;
  fo_distinct x y : x ∈ fired -> y ∈ fired -> time x t = time y t -> x = y;
  fo_rest y : y ∈ timers_ t' <-> (y ∈ timers_ t /\ now < time y t) \/ (y ∈ fired /\ repeat_us_ (hook y t) <> 0);
  fo_later y : y ∈ timers_ t' -> now < time y t';
  fo_ticks : ticks_per_us_ t' = ticks_per_us_ t;
  fo_bound B : (forall y, y ∈ timers_ t -> time y t <= B /\ now + repeat_us_ (hook y t) * 1000 <= B) ->
    forall y, y ∈ timers_ t' -> time y t' <= B
}.

Definition nop (_ : nat) (t : Timer) : outcome Timer := Ok t.

Lemma fire_idle now t nows :
  (forall y, y ∈ timers_ t -> now < time y t) ->
  fire_loop nop nows now t = Ok ([], now, t) /\ fired_ok now t [] t.
Proof.
  intros Hall. split.
  - destruct nows; cbn; destruct (timers_ t) as [|x l]; try done;
      (destruct (Z.leb_spec (time x t) now); [specialize (Hall x ltac:(by left)); lia | done]).
  - constructor; try (intros; exfalso; set_solver); [| constructor | set_solver | exact Hall | done | naive_solver].
    intros y Hy Hd. specialize (Hall y Hy). lia.
Qed.

Lemma idle_head now x l t : timers_ok t -> timers_ t = x :: l -> now < time x t -> forall y, y ∈ timers_ t -> now < time y t.
Proof.
  intros Hok El Hx y. pose proof (tm_sorted t Hok) as Hs. rewrite El in Hs |- *. apply StronglySorted_inv in Hs as [_ Hs].
  rewrite Forall_forall in Hs. intros [->|Hy]%elem_of_cons; [done |]. specialize (Hs y Hy). cbn in Hs. lia.
Qed.

(** One hook fires, and the rest of the loop starts from [rearm]. *)
Lemma fired_cons now x l t fired t' :
  timers_ok t -> timers_ t = x :: l -> time x t <= now ->
  fired_ok now (rearm now x t) fired t' -> fired_ok now t (x :: fired) t'.
Proof.
  intros Hok El Hx Hf. destruct (rearm_spec now x l t Hok El Hx) as (_ & Hother & Hlater & Hback).
  assert (x ∉ fired) as Hxf.
  { intros Hin. apply (fo_due _ _ _ _ Hf) in Hin as [Hin Hd]. destruct (Hlater Hin). lia. }
  assert (forall y, y ∈ fired -> y <> x /\ y ∈ timers_ t /\ time y (rearm now x t) = time y t /\
    hook y (rearm now x t) = hook y t /\ time y t <= now /\ time y t <> time x t) as Hin.
  { intros y Hy. assert (y <> x) as Hyx by (by intros ->). destruct (Hother y Hyx) as (Ht & Hh & Hm).
    apply (fo_due _ _ _ _ Hf) in Hy as [Hy Hd]. apply Hm in Hy as [Hy Hne]. rewrite Ht in Hd. done. }
  constructor.
  - intros y [->|Hy]%elem_of_cons; [rewrite El; split; [by left | done] |]. apply Hin in Hy. tauto.
  - intros y Hy Hd. destruct (decide (time y t = time x t)) as [He|He]; [exists x; split; [by left | done] |].
    assert (y <> x) as Hyx by (by intros ->). destruct (Hother y Hyx) as (Ht & _ & Hm).
    destruct (fo_once _ _ _ _ Hf y) as (z & Hz & Hzt); [by apply Hm | by rewrite Ht |].
    exists z. split; [by right |]. destruct (Hin z Hz) as (_ & _ & Hzt' & _). congruence.
  - constructor; [done | apply Hf].
  - intros y z [->|Hy]%elem_of_cons [->|Hz]%elem_of_cons He; [done | | |].
    + apply Hin in Hz. naive_solver.
    + apply Hin in Hy. naive_solver.
    + apply (fo_distinct _ _ _ _ Hf); [done | done |]. apply Hin in Hy, Hz. naive_solver congruence.
  - intros y. rewrite (fo_rest _ _ _ _ Hf y), elem_of_cons. destruct (decide (y = x)) as [->|Hyx].
    + rewrite Hback. split; [intros [[Hr _]|[Hc _]]; [right; split; [by left | done] | done] |].
      intros [[_ Hlt]|[_ Hr]]; [lia |]. left. split; [done | by apply Hlater, Hback].
    + destruct (Hother y Hyx) as (Ht & Hh & Hm). rewrite Ht, Hh, Hm. split.
      * intros [[[Hy _] Hlt]|[Hy Hr]]; [left; tauto | right; split; [by right | done]].
      * intros [[Hy Hlt]|[[->|Hy] Hr]]; [left; split; [split; [done | lia] | done] | done | right; tauto].
  - apply Hf.
  - rewrite (fo_ticks _ _ _ _ Hf). unfold rearm. by case_match.
  - intros B HB. apply (fo_bound _ _ _ _ Hf). intros y Hy. destruct (decide (y = x)) as [->|Hyx].
    + destruct (Hlater Hy) as [_ Hh]. unfold time. rewrite Hh. cbn. specialize (HB x ltac:(rewrite El; by left)). lia.
    + destruct (Hother y Hyx) as (Ht & Hh & Hm). rewrite Ht, Hh. apply HB. by apply Hm.
Qed.

Lemma due_shrinks now x l t :
  timers_ok t -> timers_ t = x :: l -> time x t <= now -> (length (due now (rearm now x t)) < length (due now t))%nat.
Proof.
  intros Hok El Hx. destruct (rearm_spec now x l t Hok El Hx) as (Hok' & Hother & Hlater & _).
  assert (NoDup (due now t)) as Hn by (apply NoDup_filter, Hok).
  assert (x ∈ due now t) as Hxd by (apply list_elem_of_filter; rewrite El; split; [done | by left]).
  apply elem_of_Permutation in Hxd as [r Hr]. rewrite Hr. cbn. apply Nat.lt_succ_r.
  apply submseteq_length, NoDup_submseteq; [apply NoDup_filter, Hok' |].
  intros y [Hd Hy]%list_elem_of_filter. assert (y <> x) as Hyx by (intros ->; destruct (Hlater Hy); lia).
  destruct (Hother y Hyx) as (Ht & _ & Hm). assert (y ∈ due now t) as Hyd.
  { apply list_elem_of_filter. rewrite Ht in Hd. split; [done | by apply Hm]. }
  rewrite Hr in Hyd. by apply elem_of_cons in Hyd as [|].
Qed.

Lemma fire_loop_spec now n : forall m t,
  timers_ok t -> (length (due now t) <= n)%nat -> (n <= m)%nat ->
  exists fired t', fire_loop nop (replicate m now) now t = Ok (fired, now, t') /\ timers_ok t' /\ fired_ok now t fired t'.
Proof.
  induction n as [|n IH]; intros m t Hok Hn Hm; (destruct (timers_ t) as [|x l] eqn:El;
    [| destruct (Z.leb_spec (time x t) now) as [Hx|Hx]]).
  all: try (destruct (fire_idle now t (replicate m now)) as [H1 H2];
    [first [by eapply idle_head | intros y; rewrite El; by intros ?%not_elem_of_nil] | exists [], t; done]).
  - pose proof (due_shrinks now x l t Hok El Hx). lia.
  - destruct m as [|m]; [lia |]. pose proof (due_shrinks now x l t Hok El Hx) as Hsh.
    destruct (rearm_spec now x l t Hok El Hx) as (Hok' & _).
    destruct (IH m (rearm now x t) Hok') as (fired & t' & Hrun & Ht' & Hf); [lia | lia |].
    exists (x :: fired), t'. split_and!; [| done | by eapply fired_cons].
    cbn [replicate fire_loop]. rewrite El. destruct (Z.leb_spec (time x t) now); [| lia].
    cbv zeta. fold (rearm now x t). change (nop x (rearm now x t)) with (Ok (rearm now x t)). by rewrite bind_Ok, Hrun.
Qed.

Lemma SetTimer_total from_now t :
  0 <= from_now -> 0 < ticks_per_us_ t -> from_now * ticks_per_us_ t < 2 ^ 64 ->
  exists d c, SetTimer from_now t = Ok (write_msr d c t).
Proof.
  intros Hf Ht Hb. destruct (Z.eqb_spec from_now 0) as [->|Hne]; [unfold SetTimer; cbn; eauto |].
  assert (from_now <= from_now * ticks_per_us_ t) by nia. assert (0 < from_now * ticks_per_us_ t) as H0 by (apply Z.mul_pos_pos; lia).
  unfold SetTimer. destruct (Z.eqb_spec from_now 0); [lia |].
  rewrite (u64_small from_now) by lia. rewrite (u64_small (from_now * _)) by lia.
  destruct (divide_loop_spec 33 (from_now * ticks_per_us_ t) (-1)) as (k & Hk & -> & Hc & Hl).
  { split; [lia |]. change (32 + Z.of_nat 33) with 65. eapply Z.lt_trans; [exact Hb |]. done. }
  rewrite bind_Ok. assert (0 < from_now * ticks_per_us_ t / 2 ^ k) as Hpos.
  { destruct Hl as [->|Hl]; [by rewrite Z.div_1_r |]. eapply Z.lt_le_trans; [| exact Hl]. done. }
  destruct (Z.ltb_spec 7 (-1 + k)); cbn [kassert]; [eauto |].
  destruct (Z.ltb_spec 0 (from_now * ticks_per_us_ t / 2 ^ k)); [cbn; eauto | lia].
Qed.

(** When the interrupt handler ends, one hook has been fired for each fire time
    that has passed, repeating hooks are set again, no other hook was touched and
    the timer is programmed for the next one; if no two hooks have the same fire
    time, every hook whose time has passed was fired. *)
Theorem interrupt_fires now m t B :
  timers_ok t -> (length (timers_ t) <= m)%nat -> 0 < ticks_per_us_ t ->
  (forall y, y ∈ timers_ t -> time y t <= B /\ now + repeat_us_ (hook y t) * 1000 <= B) ->
  (B - now) * ticks_per_us_ t < 2 ^ 64 ->
  exists fired t' d c, Interrupt nop (now :: replicate m now) t = Ok (fired, write_msr d c t') /\ fired_ok now t fired t' /\
    ((forall x y, x ∈ timers_ t -> y ∈ timers_ t -> time x t = time y t -> x = y) ->
     forall y, y ∈ timers_ t -> time y t <= now -> y ∈ fired).
Proof.
  intros Hok Hm Htk HB Hb. destruct (fire_loop_spec now (length (timers_ t)) m t Hok) as (fired & t' & Hrun & Hok' & Hf).
  { unfold due. apply submseteq_length, sublist_submseteq, sublist_filter. }
  { done. }
  assert (exists d c, Interrupt nop (now :: replicate m now) t = Ok (fired, write_msr d c t')) as (d & c & HI).
  { unfold Interrupt. rewrite Hrun, bind_Ok. destruct (timers_ t') as [|y l] eqn:El; [exists (dcr t'), (init_count t'); by destruct t' |].
    assert (y ∈ timers_ t') as Hy by (rewrite El; by left).
    pose proof (fo_later _ _ _ _ Hf y Hy). pose proof (fo_bound _ _ _ _ Hf B HB y Hy).
    assert (0 <= to_us (time y t' - now) <= B - now) as Hus.
    { unfold to_us. split; [apply Z.quot_pos; lia |]. rewrite Z.quot_div_nonneg by lia. apply Z.div_le_upper_bound; lia. }
    destruct (SetTimer_total (to_us (time y t' - now)) t') as (d & c & ->); [lia | by rewrite (fo_ticks _ _ _ _ Hf) | |].
    - rewrite (fo_ticks _ _ _ _ Hf). eapply Z.le_lt_trans; [| exact Hb]. apply Z.mul_le_mono_nonneg_r; lia.
    - exists d, c. done. }
  exists fired, t', d, c. split_and!; [done | done |].
  intros Hd y Hy Hle. destruct (fo_once _ _ _ _ Hf y Hy Hle) as (x & Hx & Hxy).
  rewrite <- (Hd x y); [done | by apply (fo_due _ _ _ _ Hf) in Hx as [? _] | done | done].
Qed.

(** Two hooks at 1 us and 2 us, a third at 2 us as well. *)
Definition demo_timer (l : list nat) : Timer :=
  mkTimer 1000 (list_to_map [(0%nat, mkHook 1000 0); (1%nat, mkHook 2000 0); (2%nat, mkHook 2000 0)]) l 0 0.

Lemma demo_timer_ok : timers_ok (demo_timer [0; 1]%nat).
Proof.
  constructor.
  - repeat constructor; vm_compute; discriminate.
  - apply (bool_decide_unpack _). vm_compute. exact I.
  - intros y. cbn. rewrite !elem_of_cons, elem_of_nil. intros [->|[->|[]]]; vm_compute; discriminate.
Qed.

Lemma interrupt_fires_witness :
  exists fired t' d c, Interrupt nop [1500; 1500; 1500] (demo_timer [0; 1]%nat) = Ok (fired, write_msr d c t') /\
    fired_ok 1500 (demo_timer [0; 1]%nat) fired t'.
Proof.
  destruct (interrupt_fires 1500 2 (demo_timer [0; 1]%nat) 2000 demo_timer_ok) as (fired & t' & d & c & H1 & H2 & _);
    [cbn; lia | cbn; lia | | cbn; lia | exists fired, t', d, c; split; assumption].
  intros y. cbn. rewrite !elem_of_cons, elem_of_nil. intros [->|[->|[]]]; vm_compute; split; discriminate.
Defined.

(** Two hooks with the same fire time: the handler fires the first and forgets
    the second, and [Stop] of one stops both. *)
Theorem equal_times_lost :
  Interrupt nop [2500; 2500; 2500; 2500] (demo_timer [1; 2]%nat) =
    Ok ([1%nat], set_timers [] (demo_timer [1; 2]%nat)) /\
  Stop 0 1 (demo_timer [1; 2]%nat) = Ok (set_timers [] (demo_timer [1; 2]%nat)).
Proof. vm_compute. split; reflexivity. Qed.
