(* ===== verification/EarlyPageAllocator.v ===== *)
(** * The early (boot-time) page allocator

    Models src/src/native/EarlyPageAllocator.h and EarlyPageAllocator.cc: an
    ordered set of free page ranges, with coalescing insertion, allocation from
    the top of the first fitting range, NUMA tagging, and the subtraction of
    reserved memory.  Each range object lives in the first page it describes,
    so a range is identified by its start frame. *)

From S2P Require Import Prelude Pfn.

Definition NidNone : Z := -1.
Definition NidAny : Z := -2.

(** class PageRange. *)
Record PageRange := mkRange { rstart : Z; rnpages : Z; rnid : Z }.
Definition rend (r : PageRange) : Z := PfnAdd (rstart r) (rnpages r).

(** The position of [insert] in the ordered set. *)
Fixpoint split_at (s : Z) (l : list PageRange) : list PageRange * list PageRange :=
  match l with
  | [] => ([], [])
  | r :: l => if rstart r <? s then let '(bef, aft) := split_at s l in (r :: bef, aft) else ([], r :: l)
  end.

(** [coalesce(a, b)] for adjacent iterators: the merged range when [a] ends
    where [b] starts. *)
Definition coalesce (a b : PageRange) : option PageRange :=
  if rend a =? rstart b then Some (mkRange (rstart a) (u64 (rnpages a + rnpages b)) (rnid a)) else None.

(** [FreePageRange]: constructing the range object over one that is still
    linked (same start) corrupts the set. *)
Definition FreePageRange (free_pages : list PageRange) (start end_ nid : Z) : outcome (list PageRange) :=
  let range := mkRange start (PfnSub end_ start) nid in
  let '(bef, aft) := split_at start free_pages in
  if match aft with b :: _ => rstart b =? start | [] => false end then Fail UndefinedBehaviour else
  let '(bef, it) :=
    match last bef with
    | Some a => match coalesce a range with Some c => (removelast bef, c) | None => (bef, range) end
    | None => (bef, range)
    end in
  let '(it, aft) :=
    match aft with
    | b :: aft' => match coalesce it b with Some c => (c, aft') | None => (it, aft) end
    | [] => (it, [])
    end in
  Ok (bef ++ it :: aft).

(** [AllocatePage]: from the end of the first range of that node that is large
    enough; the subtraction is on unsigned frame numbers. *)
Fixpoint AllocatePage (free_pages : list PageRange) (npages nid : Z) : outcome (Z * list PageRange) :=
  match free_pages with
  | [] => Fail Aborted
  | it :: rest =>
      let skip := '(p, l) ← AllocatePage rest npages nid; Ok (p, it :: l) in
      if negb (nid =? NidAny) && negb (rnid it =? nid) then skip else
      let ret := PfnSub (rend it) npages in
      if ret <? rstart it then skip
      else if ret =? rstart it then Ok (ret, rest)
      else Ok (ret, mkRange (rstart it) (u64 (rnpages it - npages)) (rnid it) :: rest)
  end.

(** [SetNidRange]: ranges inserted by the loop come right after the current
    one and are visited next.  A range is split at most twice, which bounds
    the iterations. *)
Fixpoint SetNidLoop (fuel : nat) (l : list PageRange) (start end_ nid : Z) : outcome (list PageRange) :=
  match l with
  | [] => Ok []
  | it :: rest =>
      match fuel with
      | O => Fail Aborted
      | S fuel =>
          if rend it <=? start then cons it <$> SetNidLoop fuel rest start end_ nid
          else if end_ <=? rstart it then Ok (it :: rest)
          else if (rstart it <? start) && (start <? rend it) then
            let new_end := Z.min end_ (rend it) in
            let new_range := mkRange start (PfnSub new_end start) nid in
            cons (mkRange (rstart it) (PfnSub start (rstart it)) (rnid it)) <$>
              SetNidLoop fuel (new_range :: rest) start end_ nid
          else if (rstart it <? end_) && (end_ <? rend it) then
            let new_range := mkRange end_ (PfnSub (rend it) end_) NidAny in
            cons (mkRange (rstart it) (PfnSub end_ (rstart it)) nid) <$>
              SetNidLoop fuel (new_range :: rest) start end_ nid
          else cons (mkRange (rstart it) (rnpages it) nid) <$> SetNidLoop fuel rest start end_ nid
      end
  end.
Definition SetNidRange (free_pages : list PageRange) (start end_ nid : Z) : outcome (list PageRange) :=
  SetNidLoop (S (2 * length free_pages)) free_pages start end_ nid.

(** [ReleaseFreePages]: every range is passed on, lowest first, and the set is
    left empty. *)
Definition ReleaseFreePages (free_pages : list PageRange) : list (Z * Z * Z) * list PageRange :=
  ((fun r => (rstart r, rend r, rnid r)) <$> free_pages, []).

(** [ReserveRange]: the reserved table holds 256 half-open byte intervals. *)
Definition kMaxReserved : nat := 256.
Definition ReserveRange (reserved : list (Z * Z)) (begin_ end_ : Z) : outcome (list (Z * Z)) :=
  if (length reserved <? kMaxReserved)%nat then Ok (reserved ++ [(begin_, end_)])
  else Fail (Thrown "bad_alloc").

(** ** FreeMemoryRange *)

(** The operations of Boost.ICL on right-open intervals that the code uses,
    with their documented behaviour. *)
Definition in_ivl (i : Z * Z) (x : Z) : Prop := i.1 <= x < i.2.
Class Icl := {
  intersects : Z * Z -> Z * Z -> bool;
  left_subtract : Z * Z -> Z * Z -> Z * Z;
  right_subtract : Z * Z -> Z * Z -> Z * Z;
  intersects_spec : forall i j, intersects i j = true <-> exists x, in_ivl i x /\ in_ivl j x;
  left_subtract_spec : forall i j, intersects i j = true ->
    forall x, in_ivl (left_subtract i j) x <-> in_ivl i x /\ j.2 <= x;
  right_subtract_spec : forall i j, intersects i j = true ->
    forall x, in_ivl (right_subtract i j) x <-> in_ivl i x /\ x < j.1
}.

Section FreeMemory.
Context `{Icl}.
Context (reserved_ranges : list (Z * Z)) (nid : Z).

Definition is_empty (i : Z * Z) : bool := i.2 <=? i.1.

(** The tail of [FreeMemoryRange], after the loop over the reserved ranges. *)
Definition free_interval (free_pages : list PageRange) (interval : Z * Z) : outcome (list PageRange) :=
  if interval.2 - interval.1 <? kPageSize then Ok free_pages else
  let pfn_start := PfnUp interval.1 in
  let pfn_end := PfnDown interval.2 in
  if pfn_end <=? pfn_start then Ok free_pages
  else FreePageRange free_pages pfn_start pfn_end nid.

(** The loop over the reserved ranges, given the recursive call. *)
Section Loop.
Variable recurse : list PageRange -> Z -> Z -> outcome (list PageRange).
Fixpoint reserved_loop (res : list (Z * Z)) (free_pages : list PageRange) (interval : Z * Z) :
    outcome (list PageRange) :=
  match res with
  | [] => free_interval free_pages interval
  | it :: res =>
      if negb (intersects interval it) then reserved_loop res free_pages interval else
      let left_over := left_subtract interval it in
      let right_over := right_subtract interval it in
      if is_empty left_over && is_empty right_over then Ok free_pages
      else if is_empty left_over then reserved_loop res free_pages right_over
      else if is_empty right_over then reserved_loop res free_pages left_over
      else
        free_pages ← recurse free_pages right_over.1 (right_over.2 - right_over.1);
        reserved_loop res free_pages left_over
  end.
End Loop.

(** [fuel] bounds the nesting of the recursive call, made when a reserved range
    splits the interval in two: each level leaves one reserved range behind. *)
Fixpoint FreeMemoryLoop (fuel : nat) (free_pages : list PageRange) (begin_ length_ : Z) :
    outcome (list PageRange) :=
  match fuel with
  | O => Fail Aborted
  | S fuel =>
      reserved_loop (FreeMemoryLoop fuel) reserved_ranges free_pages (begin_, u64 (begin_ + length_))
  end.
Definition FreeMemoryRange (free_pages : list PageRange) (begin_ length_ : Z) : outcome (list PageRange) :=
  FreeMemoryLoop (S (length reserved_ranges)) free_pages begin_ length_.
End FreeMemory.

(** ** The set of free pages *)

Definition range_pages (r : PageRange) (x : Z) : Prop := rstart r <= x < rstart r + rnpages r.
Definition cover (l : list PageRange) (x : Z) : Prop := exists r, r ∈ l /\ range_pages r x.

(** Non-empty ranges of 52-bit frames, in increasing order, not overlapping. *)
Fixpoint wf_ranges (lo : Z) (l : list PageRange) : Prop :=
  match l with
  | [] => True
  | r :: l => lo <= rstart r /\ 0 < rnpages r /\ rstart r + rnpages r <= 2 ^ 52 /\
              wf_ranges (rstart r + rnpages r) l
  end.

Fixpoint last_end (lo : Z) (l : list PageRange) : Z :=
  match l with [] => lo | r :: l => last_end (rstart r + rnpages r) l end.

Lemma cover_nil x : cover [] x <-> False.
Proof. unfold cover. set_solver. Qed.
Lemma cover_cons r l x : cover (r :: l) x <-> range_pages r x \/ cover l x.
Proof. unfold cover. set_solver. Qed.
Lemma cover_app l1 l2 x : cover (l1 ++ l2) x <-> cover l1 x \/ cover l2 x.
Proof. unfold cover. set_solver. Qed.

Lemma wf_ranges_app lo l1 l2 :
  wf_ranges lo (l1 ++ l2) <-> wf_ranges lo l1 /\ wf_ranges (last_end lo l1) l2.
Proof. revert lo. induction l1 as [|r l1 IH]; intros lo; cbn; [tauto |]. rewrite IH. tauto. Qed.

Lemma wf_ranges_mono lo lo' l : lo' <= lo -> wf_ranges lo l -> wf_ranges lo' l.
Proof. destruct l; cbn; [done |]. intuition lia. Qed.

Lemma wf_ranges_cover lo l x : wf_ranges lo l -> cover l x -> lo <= x < 2 ^ 52.
Proof.
  revert lo. induction l as [|r l IH]; intros lo; [by rewrite cover_nil |].
  cbn. rewrite cover_cons. unfold range_pages. intros (? & ? & ? & W) [?|?]; [lia |].
  specialize (IH _ W ltac:(done)). lia.
Qed.

Lemma last_end_app lo l1 l2 : last_end lo (l1 ++ l2) = last_end (last_end lo l1) l2.
Proof. revert lo. induction l1; intros lo; cbn; auto. Qed.

Lemma rend_eq r : 0 <= rstart r -> 0 <= rnpages r -> rstart r + rnpages r <= 2 ^ 52 ->
  rend r = rstart r + rnpages r.
Proof. intros. unfold rend, PfnAdd, u64. apply wrap_small. unfold in_u. lia. Qed.

Lemma PfnSub_small a b : 0 <= b <= a -> a <= 2 ^ 52 -> PfnSub a b = a - b.
Proof. intros. unfold PfnSub, u64. apply wrap_small. unfold in_u. lia. Qed.

(** ** FreePageRange *)

Lemma split_at_spec s l bef aft lo :
  split_at s l = (bef, aft) -> wf_ranges lo l ->
  l = bef ++ aft /\ (forall r, r ∈ bef -> rstart r < s) /\ (forall r, r ∈ aft -> s <= rstart r).
Proof.
  revert bef lo. induction l as [|r l IH]; intros bef lo; cbn.
  - intros [= <- <-] _. set_solver.
  - destruct (Z.ltb_spec (rstart r) s).
    + destruct (split_at s l) as [b a] eqn:E. intros [= <- <-] (_ & _ & _ & W).
      destruct (IH b _ eq_refl W) as (-> & ? & ?). split_and!; [done | | done].
      intros q. rewrite elem_of_cons. intros [->|]; auto.
    + intros [= <- <-] (? & ? & ? & W). split_and!; [done | set_solver |].
      intros q. rewrite elem_of_cons. intros [->|Hq]; [lia |].
      assert (cover l (rstart q)) as Hc.
      { exists q. split; [done |]. unfold range_pages. clear -W Hq. revert W Hq.
        generalize (rstart r + rnpages r). induction l as [|a l IH]; intros lo; [set_solver |].
        cbn. rewrite elem_of_cons. intros (? & ? & ? & ?) [->|]; [lia | eauto]. }
      pose proof (wf_ranges_cover _ _ _ W Hc). lia.
Qed.

Lemma coalesce_eq a b :
  0 <= rstart a -> 0 < rnpages a -> rstart a + rnpages a <= 2 ^ 52 ->
  0 < rnpages b -> rstart b + rnpages b <= 2 ^ 52 ->
  coalesce a b = if rstart a + rnpages a =? rstart b
    then Some (mkRange (rstart a) (rnpages a + rnpages b) (rnid a)) else None.
Proof.
  intros. unfold coalesce. rewrite rend_eq by lia.
  destruct (Z.eqb_spec (rstart a + rnpages a) (rstart b)); [| done].
  unfold u64. rewrite wrap_small; [done |]. unfold in_u. lia.
Qed.

(** Merging with the predecessor. *)
Lemma coalesce_left lo bef it :
  0 <= lo -> wf_ranges lo bef -> last_end lo bef <= rstart it -> 0 < rnpages it ->
  rstart it + rnpages it <= 2 ^ 52 ->
  exists bef' it', match last bef with
    | Some a => match coalesce a it with Some c => (removelast bef, c) | None => (bef, it) end
    | None => (bef, it)
    end = (bef', it') /\
    wf_ranges lo bef' /\ lo <= last_end lo bef' <= rstart it' /\ 0 < rnpages it' /\
    rstart it' + rnpages it' = rstart it + rnpages it /\
    (forall x, cover bef' x \/ range_pages it' x <-> cover bef x \/ range_pages it x).
Proof.
  intros H0 W HL Hn Hb.
  assert (forall l, wf_ranges lo l -> lo <= last_end lo l) as Hlo.
  { clear. intros l. revert lo. induction l as [|r l IH]; intros lo; cbn; [lia |].
    intros (? & ? & ? & W). specialize (IH _ W). lia. }
  assert (lo <= last_end lo bef) by auto.
  destruct (last bef) as [a|] eqn:E; [| exists bef, it; naive_solver lia].
  apply last_Some in E as [b ->]. rewrite wf_ranges_app in W. destruct W as [Wb (W1 & W2 & W3 & _)].
  rewrite last_end_app in HL. cbn in HL. assert (lo <= last_end lo b) by auto.
  rewrite coalesce_eq, removelast_last by lia.
  destruct (Z.eqb_spec (rstart a + rnpages a) (rstart it)) as [Heq|].
  - exists b, (mkRange (rstart a) (rnpages a + rnpages it) (rnid a)). cbn.
    split_and!; [done.. | lia | lia | lia | lia |].
    intros x. rewrite cover_app, cover_cons, cover_nil. unfold range_pages. cbn.
    split; [intros [?|?] | intros [[?|[?|[]]]|?]]; try tauto; try (right; lia); try (left; tauto).
    destruct (decide (x < rstart it)); [left; right; left; lia | right; lia].
  - exists (b ++ [a]), it. split_and!; [done | | lia | | lia | lia | done].
    + rewrite wf_ranges_app. cbn. tauto.
    + rewrite last_end_app. cbn. lia.
Qed.

Lemma FreePageRange_ok lo l s e nid :
  0 <= lo -> wf_ranges lo l -> lo <= s < e -> e <= 2 ^ 52 -> (forall x, s <= x < e -> ~ cover l x) ->
  exists l', FreePageRange l s e nid = Ok l' /\ wf_ranges lo l' /\
    (forall x, cover l' x <-> s <= x < e \/ cover l x).
Proof.
  intros H0 W Hs He Hf. unfold FreePageRange. rewrite PfnSub_small by lia.
  destruct (split_at s l) as [bef aft] eqn:E.
  destruct (split_at_spec _ _ _ _ _ E W) as (-> & Hb & Ha).
  pose proof W as W'. rewrite wf_ranges_app in W'. destruct W' as [Wb Wa].
  set (it := mkRange s (e - s) nid) in *.
  assert (last_end lo bef <= s) as HL.
  { destruct (last bef) as [a|] eqn:El.
    - apply last_Some in El as [b ->]. rewrite last_end_app. cbn.
      assert (rstart a < s) by (apply Hb; set_solver).
      rewrite wf_ranges_app in Wb. destruct Wb as [_ (? & ? & ? & _)].
      destruct (decide (rstart a + rnpages a <= s)); [done | exfalso].
      apply (Hf s); [lia |]. exists a. split; [set_solver |]. unfold range_pages. lia.
    - apply last_None in El as ->. cbn. lia. }
  assert (wf_ranges e aft) as Wa'.
  { destruct aft as [|b aft]; [done |]. cbn in Wa |- *.
    assert (s <= rstart b) by (apply Ha; by left).
    destruct (decide (rstart b < e)) as [|]; [exfalso | intuition lia].
    apply (Hf (rstart b)); [lia |]. exists b. split; [set_solver |]. unfold range_pages. lia. }
  replace (match aft with b :: _ => rstart b =? s | [] => false end) with false
    by (destruct aft; cbn in Wa'; [done | symmetry; apply Z.eqb_neq; lia]).
  destruct (coalesce_left lo bef it H0 Wb) as (bef' & it' & -> & Wb' & HL' & Hn' & He' & Hc'); cbn; try lia.
  replace (rstart it + rnpages it) with e in He' by (cbn; lia).
  assert (exists it2 aft2, match aft with
      | b :: aft' => match coalesce it' b with Some c => (c, aft') | None => (it', aft) end
      | [] => (it', []) end = (it2, aft2) /\ rstart it2 = rstart it' /\ 0 < rnpages it2 /\
      rstart it2 + rnpages it2 <= 2 ^ 52 /\
      wf_ranges (rstart it2 + rnpages it2) aft2 /\
      (forall x, range_pages it2 x \/ cover aft2 x <-> range_pages it' x \/ cover aft x))
    as (it2 & aft2 & -> & Hs2 & Hn2 & He2 & W2 & Hc2).
  { destruct aft as [|b aft]; [exists it', []; rewrite He'; naive_solver lia |].
    cbn in Wa'. destruct Wa' as (? & ? & ? & Wa'). rewrite coalesce_eq by lia.
    destruct (Z.eqb_spec (rstart it' + rnpages it') (rstart b)).
    - eexists _, aft. split; [done |]. cbn. split_and!; [done | lia | lia | |].
      + by replace (rstart it' + (rnpages it' + rnpages b)) with (rstart b + rnpages b) by lia.
      + intros x. rewrite cover_cons. unfold range_pages. cbn.
        split; [intros [?|?] | intros [?|[?|?]]]; try tauto; try (left; lia).
        destruct (decide (x < rstart b)); [left; lia | right; left; lia].
    - exists it', (b :: aft). rewrite He'. cbn. naive_solver lia. }
  eexists. split; [done |]. split.
  - rewrite wf_ranges_app. cbn. split_and!; [done | lia | done | done | done].
  - intros x. rewrite cover_app, cover_cons, Hc2. specialize (Hc' x).
    assert (range_pages it x <-> s <= x < e) as Hit by (unfold range_pages; cbn; lia).
    rewrite cover_app. tauto.
Qed.

(** ** AllocatePage *)

(** The range can serve requests for node [nid]. *)
Definition serves (nid : Z) (r : PageRange) : Prop := nid = NidAny \/ rnid r = nid.

Lemma serves_test nid r :
  negb (nid =? NidAny) && negb (rnid r =? nid) = false <-> serves nid r.
Proof.
  unfold serves. rewrite andb_false_iff, !negb_false_iff, !Z.eqb_eq. done.
Qed.

Section AllocatePage.
Context (n nid : Z).
Hypothesis (Hn : 0 < n).

Lemma AllocatePage_spec lo l :
  0 <= lo -> wf_ranges lo l -> (forall r, r ∈ l -> n <= rstart r + rnpages r) ->
  match AllocatePage l n nid with
  | Ok (p, l') =>
      wf_ranges lo l' /\ lo <= p /\
      (forall x, cover l x <-> p <= x < p + n \/ cover l' x) /\
      (forall x, p <= x < p + n -> ~ cover l' x) /\
      exists r, r ∈ l /\ serves nid r /\ (forall x, p <= x < p + n -> range_pages r x)
  | Fail f => f = Aborted /\ forall r, r ∈ l -> serves nid r -> rnpages r < n
  end.
Proof.
  intros H0. revert lo H0. induction l as [|r l IH]; intros lo H0 W Hbig; cbn [AllocatePage].
  - split; [done | set_solver].
  - destruct W as (W1 & W2 & W3 & W).
    pose proof (Hbig r ltac:(by left)) as Hr.
    specialize (IH (rstart r + rnpages r) ltac:(lia) W ltac:(intros; apply Hbig; by right)).
    assert (forall (c : bool), (c = true -> ~ serves nid r \/ rnpages r < n) -> c = true ->
      match ('(p, l0) ← AllocatePage l n nid; Ok (p, r :: l0)) with
      | Ok (p, l') => wf_ranges lo l' /\ lo <= p /\
          (forall x, cover (r :: l) x <-> p <= x < p + n \/ cover l' x) /\
          (forall x, p <= x < p + n -> ~ cover l' x) /\
          exists r0, r0 ∈ r :: l /\ serves nid r0 /\ (forall x, p <= x < p + n -> range_pages r0 x)
      | Fail f => f = Aborted /\ forall r0, r0 ∈ r :: l -> serves nid r0 -> rnpages r0 < n
      end) as Hskip.
    { intros c Hc Hct. destruct (AllocatePage l n nid) as [[p l']|f]; cbn.
      - destruct IH as (I1 & I2 & I3 & I4 & q & I5 & I6 & I7). split_and!; [done.. | lia | | |].
        + intros x. rewrite !cover_cons, I3. tauto.
        + intros x Hx. rewrite cover_cons. intros [Hp|]; [| by apply (I4 x)].
          unfold range_pages in Hp. lia.
        + exists q. split_and!; [by right | done | done].
      - destruct IH as [-> IH]. split; [done |]. intros q. rewrite elem_of_cons.
        intros [->|Hq] Hs; [destruct (Hc Hct); tauto | auto]. }
    rewrite rend_eq by lia. rewrite PfnSub_small by lia.
    destruct (negb _ && negb _) eqn:Es.
    { apply (Hskip true); [| done]. intros _. left. intros Hs. apply serves_test in Hs. congruence. }
    apply serves_test in Es.
    destruct (Z.ltb_spec (rstart r + rnpages r - n) (rstart r)).
    { apply (Hskip true); [| done]. intros _. right. lia. }
    assert (exists r0, r0 ∈ r :: l /\ serves nid r0 /\
      (forall x, rstart r + rnpages r - n <= x < rstart r + rnpages r - n + n -> range_pages r0 x)) as Hex.
    { exists r. split_and!; [by left | done |]. unfold range_pages. lia. }
    assert (forall x, cover l x -> rstart r + rnpages r <= x) as Hl
      by (intros x Hx; pose proof (wf_ranges_cover _ _ _ W Hx); lia).
    destruct (Z.eqb_spec (rstart r + rnpages r - n) (rstart r)).
    + split_and!; [by eapply wf_ranges_mono; [| done]; lia | lia | | | done].
      * intros x. rewrite cover_cons. unfold range_pages.
        split; (intros [?|?]; [left; lia | by right]).
      * intros x Hx Hc. specialize (Hl x Hc). lia.
    + replace (u64 (rnpages r - n)) with (rnpages r - n)
        by (unfold u64; rewrite wrap_small; [done | unfold in_u; lia]).
      split_and!; [| lia | | | done].
      * cbn. split_and!; [lia.. |]. eapply wf_ranges_mono; [| done]. lia.
      * intros x. rewrite !cover_cons. unfold range_pages. cbn.
        split; [intros [?|?] | intros [?|[?|?]]]; try tauto; try (left; lia).
        destruct (decide (rstart r + rnpages r - n <= x)); [left; lia | right; left; lia].
      * intros x Hx. rewrite cover_cons. unfold range_pages. cbn.
        intros [?|Hc]; [lia |]. specialize (Hl x Hc). lia.
Qed.
End AllocatePage.

(** ** SetNidRange *)

(** No range sticks out of [start, end) on both sides. *)
Definition no_straddle (start end_ : Z) (l : list PageRange) : Prop :=
  forall r, r ∈ l -> ~ (rstart r < start /\ end_ < rstart r + rnpages r).

Lemma SetNidLoop_step fuel it rest start end_ nid :
  SetNidLoop (S fuel) (it :: rest) start end_ nid =
  if rend it <=? start then cons it <$> SetNidLoop fuel rest start end_ nid
  else if end_ <=? rstart it then Ok (it :: rest)
  else if (rstart it <? start) && (start <? rend it) then
    cons (mkRange (rstart it) (PfnSub start (rstart it)) (rnid it)) <$>
      SetNidLoop fuel (mkRange start (PfnSub (Z.min end_ (rend it)) start) nid :: rest) start end_ nid
  else if (rstart it <? end_) && (end_ <? rend it) then
    cons (mkRange (rstart it) (PfnSub end_ (rstart it)) nid) <$>
      SetNidLoop fuel (mkRange end_ (PfnSub (rend it) end_) NidAny :: rest) start end_ nid
  else cons (mkRange (rstart it) (rnpages it) nid) <$> SetNidLoop fuel rest start end_ nid.
Proof. done. Qed.

(** What becomes of the ranges: one inside the interval has the node; one
    outside is either untouched or what is left of a range that was cut. *)
Definition cut (start end_ nid : Z) (l : list PageRange) (r : PageRange) : Prop :=
  (start <= rstart r /\ rstart r + rnpages r <= end_ /\ rnid r = nid) \/
  ((rstart r + rnpages r <= start \/ end_ <= rstart r) /\
   (r ∈ l \/ exists r0, r0 ∈ l /\ rstart r0 <= rstart r /\ rstart r + rnpages r <= rstart r0 + rnpages r0 /\
                      rstart r0 < end_ /\ start < rstart r0 + rnpages r0)).

Lemma cut_cons start end_ nid it l r : cut start end_ nid l r -> cut start end_ nid (it :: l) r.
Proof. intros [?|[? [?|(r0 & ? & ?)]]]; [by left | right | right]; (split; [done |]); [left; by right |]. right. exists r0. split; [by right | done]. Qed.

Lemma cut_untouched lo start end_ nid l r : wf_ranges lo l -> end_ <= lo -> r ∈ l -> cut start end_ nid l r.
Proof.
  intros W Hlo Hr. right. split; [| by left]. right. revert lo W Hlo.
  induction l as [|a l IH]; intros lo W Hlo; [by apply elem_of_nil in Hr |]. destruct W as (W1 & W2 & W3 & W).
  apply elem_of_cons in Hr as [->|Hr]; [lia |]. apply (IH Hr _ W). lia.
Qed.

Section SetNidLoop.
Context (start end_ nid : Z) (Hs : 0 <= start < end_) (He : end_ <= 2 ^ 52).

(** The outcome of the loop on [l]. *)
Definition nid_set (lo : Z) (l : list PageRange) (o : outcome (list PageRange)) : Prop :=
  exists l', o = Ok l' /\ wf_ranges lo l' /\ (forall x, cover l' x <-> cover l x) /\
    (forall r, r ∈ l' -> cut start end_ nid l r).

(** The first range is kept, with [nid'] for its node. *)
Lemma nid_set_keep lo it rest nid' o :
  lo <= rstart it -> 0 < rnpages it -> rstart it + rnpages it <= 2 ^ 52 ->
  cut start end_ nid (it :: rest) (mkRange (rstart it) (rnpages it) nid') ->
  nid_set (rstart it + rnpages it) rest o ->
  nid_set lo (it :: rest) (cons (mkRange (rstart it) (rnpages it) nid') <$> o).
Proof.
  intros ? ? ? Hcut (l' & -> & Wl & Hc & Hn). eexists. split; [done |]. split_and!.
  - cbn. tauto.
  - intros x. by rewrite !cover_cons, Hc.
  - intros r. rewrite elem_of_cons. intros [->|Hr]; [done |]. by apply cut_cons, Hn.
Qed.

(** A range that sticks out below: the new range is visited next and only gets its node. *)
Lemma nid_set_below fuel lo it rest :
  0 <= lo <= rstart it -> rstart it + rnpages it <= 2 ^ 52 ->
  rstart it < start < rstart it + rnpages it -> rstart it + rnpages it <= end_ ->
  nid_set (rstart it + rnpages it) rest (SetNidLoop fuel rest start end_ nid) ->
  nid_set lo (it :: rest) (cons (mkRange (rstart it) (start - rstart it) (rnid it)) <$>
    SetNidLoop (S fuel) (mkRange start (rstart it + rnpages it - start) nid :: rest) start end_ nid).
Proof using Hs He.
  intros H0 H52 H1 H2 (l' & E & Wl & Hc & Hn).
  rewrite SetNidLoop_step, (rend_eq (mkRange start _ nid)) by (cbn; lia). cbn [rstart rnpages rnid].
  replace (start + (rstart it + rnpages it - start)) with (rstart it + rnpages it) by lia.
  destruct (Z.leb_spec (rstart it + rnpages it) start); [lia |].
  destruct (Z.leb_spec end_ start); [lia |]. rewrite Z.ltb_irrefl. cbn [andb].
  destruct (Z.ltb_spec end_ (rstart it + rnpages it)); [lia |]. rewrite andb_false_r, E. cbn.
  eexists. split; [done |]. split_and!.
  - cbn. replace (rstart it + (start - rstart it)) with start by lia.
    replace (start + (rstart it + rnpages it - start)) with (rstart it + rnpages it) by lia. intuition lia.
  - intros x. rewrite !cover_cons, Hc. unfold range_pages. cbn.
    split; [intros [?|[?|?]] | intros [?|?]]; try tauto; try (left; lia).
    destruct (decide (x < start)); [left; lia | right; left; lia].
  - intros r. rewrite !elem_of_cons. intros [->|[->|Hr]]; [| left; cbn; lia | by apply cut_cons, Hn].
    right. cbn. split; [lia |]. right. exists it. split; [by left | lia].
Qed.

(** A range that sticks out above: the remainder stops the loop. *)
Lemma nid_set_above fuel lo it rest :
  0 <= lo <= rstart it -> start <= rstart it < end_ -> end_ < rstart it + rnpages it ->
  rstart it + rnpages it <= 2 ^ 52 -> wf_ranges (rstart it + rnpages it) rest ->
  nid_set lo (it :: rest) (cons (mkRange (rstart it) (end_ - rstart it) nid) <$>
    SetNidLoop (S fuel) (mkRange end_ (rstart it + rnpages it - end_) NidAny :: rest) start end_ nid).
Proof using Hs He.
  intros H0 H1 H2 H52 W.
  rewrite SetNidLoop_step, (rend_eq (mkRange end_ _ NidAny)) by (cbn; lia). cbn [rstart rnpages].
  destruct (Z.leb_spec (end_ + (rstart it + rnpages it - end_)) start); [lia |].
  rewrite Z.leb_refl. cbn. eexists. split; [done |]. split_and!.
  - cbn. replace (rstart it + (end_ - rstart it)) with end_ by lia.
    replace (end_ + (rstart it + rnpages it - end_)) with (rstart it + rnpages it) by lia. intuition lia.
  - intros x. rewrite !cover_cons. unfold range_pages. cbn.
    split; [intros [?|[?|?]] | intros [?|?]]; try tauto; try (left; lia).
    destruct (decide (x < end_)); [left; lia | right; left; lia].
  - intros r. rewrite !elem_of_cons. intros [->|[->|Hr]]; [left; cbn; lia | |].
    + right. cbn. split; [lia |]. right. exists it. split; [by left | lia].
    + apply cut_cons. eapply cut_untouched; [exact W | lia | done].
Qed.

Lemma SetNidLoop_ok fuel lo l :
  0 <= lo -> wf_ranges lo l -> no_straddle start end_ l -> (2 * length l <= fuel)%nat ->
  nid_set lo l (SetNidLoop fuel l start end_ nid).
Proof using Hs He.
  intros H0 W. revert fuel lo H0 W.
  induction l as [|it rest IH]; intros fuel lo H0 W Hst Hf.
  { exists []. destruct fuel; cbn; (split_and!; [done | done | done | set_solver]). }
  destruct fuel as [|[|fuel]]; [cbn in Hf; lia.. |].
  destruct W as (W1 & W2 & W3 & W).
  assert (no_straddle start end_ rest) as Hst' by (intros r Hr; apply Hst; by right).
  assert (forall f, (2 * length rest <= f)%nat ->
    nid_set (rstart it + rnpages it) rest (SetNidLoop f rest start end_ nid)) as IH'
    by (intros f Hf'; apply IH; [lia | done | done | lia]).
  cbn in Hf. pose proof (Hst it ltac:(by left)) as Hit. assert (it = mkRange (rstart it) (rnpages it) (rnid it)) as Ei by (by destruct it).
  rewrite SetNidLoop_step, rend_eq by lia.
  destruct (Z.leb_spec (rstart it + rnpages it) start).
  { rewrite Ei at 2. apply nid_set_keep; [lia.. | | apply IH'; lia]. right. cbn. split; [lia |]. left. rewrite <- Ei. by left. }
  destruct (Z.leb_spec end_ (rstart it)).
  { exists (it :: rest). split_and!; [done | cbn; tauto | done |].
    intros r. apply (cut_untouched (rstart it)); [cbn; intuition lia | lia]. }
  destruct (Z.ltb_spec (rstart it) start); destruct (Z.ltb_spec start (rstart it + rnpages it)); cbn [andb];
    try lia.
  - rewrite Z.min_r, !PfnSub_small by lia. apply nid_set_below; [lia.. | apply IH'; lia].
  - destruct (Z.ltb_spec (rstart it) end_); [| lia]. cbn [andb].
    destruct (Z.ltb_spec end_ (rstart it + rnpages it)).
    + rewrite !PfnSub_small by lia. by apply nid_set_above; try lia.
    + apply nid_set_keep; [lia.. | | apply IH'; lia]. left. cbn. lia.
Qed.
End SetNidLoop.

Lemma SetNidRange_spec l start end_ nid :
  wf_ranges 0 l -> 0 <= start < end_ -> end_ <= 2 ^ 52 -> no_straddle start end_ l ->
  nid_set start end_ nid 0 l (SetNidRange l start end_ nid).
Proof. intros. apply SetNidLoop_ok; [lia.. | done | done | lia]. Qed.

(** ** FreeMemoryRange *)

(** All the bytes of page [p] lie in the interval. *)
Definition page_bytes (p : Z) : Z * Z := (p * kPageSize, (p + 1) * kPageSize).
Definition subivl (i j : Z * Z) : Prop := forall x, in_ivl i x -> in_ivl j x.
Definition page_in (i : Z * Z) (p : Z) : Prop := subivl (page_bytes p) i.
Definition touches (p : Z) (j : Z * Z) : Prop := exists x, in_ivl (page_bytes p) x /\ in_ivl j x.

Lemma page_in_bounds i p : page_in i p <-> i.1 <= p * kPageSize /\ (p + 1) * kPageSize <= i.2.
Proof.
  unfold page_in, subivl, page_bytes, in_ivl. cbn [fst snd]. change kPageSize with 4096. split.
  - intros Hp. pose proof (Hp (p * 4096)). pose proof (Hp ((p + 1) * 4096 - 1)). lia.
  - intros [? ?] x. lia.
Qed.

Lemma PfnUp_bounds a : 0 <= a -> a + kPageSize <= 2 ^ 64 ->
  a <= PfnUp a * kPageSize < a + kPageSize.
Proof.
  unfold PfnUp, u64, kPageSize, kPageShift. change (Z.shiftl 1 12) with 4096. intros.
  rewrite wrap_small by (unfold in_u; lia). rewrite Z.shiftr_div_pow2 by lia.
  change (2 ^ 12) with 4096. pose proof (Z.div_mod (a + 4096 - 1) 4096).
  pose proof (Z.mod_pos_bound (a + 4096 - 1) 4096). lia.
Qed.

Lemma PfnDown_bounds a : PfnDown a * kPageSize <= a < PfnDown a * kPageSize + kPageSize.
Proof.
  unfold PfnDown, kPageSize, kPageShift. change (Z.shiftl 1 12) with 4096.
  rewrite Z.shiftr_div_pow2 by lia. change (2 ^ 12) with 4096.
  pose proof (Z.div_mod a 4096). pose proof (Z.mod_pos_bound a 4096). lia.
Qed.

(** The interval lies in a 64-bit address space that leaves room to round up. *)
Definition fits (i : Z * Z) : Prop := forall x, in_ivl i x -> 0 <= x /\ x + 1 + kPageSize <= 2 ^ 64.
Definition fresh (l : list PageRange) (i : Z * Z) : Prop := forall p, page_in i p -> ~ cover l p.

Lemma free_interval_ok nid l i :
  wf_ranges 0 l -> fits i -> fresh l i ->
  exists l', free_interval nid l i = Ok l' /\ wf_ranges 0 l' /\
    forall p, cover l' p <-> cover l p \/ page_in i p.
Proof.
  intros W Hfit Hfr. unfold free_interval.
  assert (kPageSize = 4096) as Hk by done. unfold fits, in_ivl in Hfit.
  destruct (Z.ltb_spec (i.2 - i.1) kPageSize).
  { exists l. split_and!; [done | done |]. intros p. rewrite page_in_bounds, Hk. intuition lia. }
  pose proof (Hfit i.1 ltac:(unfold in_ivl; lia)). pose proof (Hfit (i.2 - 1) ltac:(unfold in_ivl; lia)).
  pose proof (PfnUp_bounds i.1 ltac:(lia) ltac:(lia)). pose proof (PfnDown_bounds i.2).
  rewrite Hk in *.
  assert (forall p, page_in i p <-> PfnUp i.1 <= p < PfnDown i.2) as Hp
    by (intros p; rewrite page_in_bounds, Hk; lia).
  destruct (Z.leb_spec (PfnDown i.2) (PfnUp i.1)).
  { exists l. split_and!; [done | done |]. intros p. rewrite Hp. intuition lia. }
  destruct (FreePageRange_ok 0 l (PfnUp i.1) (PfnDown i.2) nid) as (l' & -> & W' & Hc);
    [lia | done | lia | lia | |].
  - intros x Hx. apply Hfr. by apply Hp.
  - exists l'. split_and!; [done | done |]. intros p. rewrite Hc, Hp. tauto.
Qed.

Section FreeMemoryProof.
Context `{Icl} (reserved : list (Z * Z)) (nid : Z).

(** The pages of [i] with no byte in one of the ranges [res]. *)
Definition clear_page (res : list (Z * Z)) (i : Z * Z) (p : Z) : Prop :=
  page_in i p /\ forall j, j ∈ res -> ~ touches p j.

Definition hits (res : list (Z * Z)) (i : Z * Z) : nat :=
  length (filter (fun j => intersects i j = true) res).

Lemma is_empty_spec i : is_empty i = true <-> forall x, ~ in_ivl i x.
Proof.
  unfold is_empty, in_ivl. rewrite Z.leb_le. split; [lia |].
  intros Hx. specialize (Hx i.1). lia.
Qed.

Lemma page_start p : in_ivl (page_bytes p) (p * kPageSize).
Proof. unfold in_ivl, page_bytes. cbn [fst snd]. change kPageSize with 4096. lia. Qed.

Lemma intersects_mono i i' j : subivl i' i -> intersects i' j = true -> intersects i j = true.
Proof. rewrite !intersects_spec. unfold subivl. naive_solver. Qed.

Lemma hits_mono res i i' : subivl i' i -> (hits res i' <= hits res i)%nat.
Proof.
  intros Hs. unfold hits. induction res as [|j l IH]; [done |]. rewrite !filter_cons.
  destruct (decide (intersects i' j = true)) as [E|E].
  - rewrite decide_True by (by eapply intersects_mono). cbn. lia.
  - case_decide; cbn; lia.
Qed.

#[local] Instance hits_Permutation : Proper ((≡ₚ) ==> (=) ==> (=)) hits.
Proof. intros r1 r2 Hr i ? <-. unfold hits. by rewrite Hr. Qed.

Lemma hits_lt res i i' j : j ∈ res -> subivl i' i -> intersects i j = true ->
  intersects i' j = false -> (hits res i' < hits res i)%nat.
Proof.
  intros Hj Hs Hi Hi'. apply elem_of_Permutation in Hj as [res' ->].
  pose proof (hits_mono res' i i' Hs) as Hm. revert Hm. unfold hits. rewrite !filter_cons.
  rewrite decide_False by congruence. rewrite decide_True by done. cbn. lia.
Qed.

Lemma left_over_spec i j : intersects i j = true ->
  subivl (left_subtract i j) i /\ intersects (left_subtract i j) j = false /\
  forall p, page_in (left_subtract i j) p <-> page_in i p /\ j.2 <= p * kPageSize.
Proof.
  intros Hi. pose proof (left_subtract_spec i j Hi) as Hl. split_and!.
  - intros x Hx. by apply Hl.
  - apply not_true_iff_false. rewrite intersects_spec. unfold in_ivl at 2.
    intros (x & Hx & ?). apply Hl in Hx. lia.
  - intros p. unfold page_in, subivl. split.
    + intros Hp. split; [intros x Hx; by apply Hl, Hp | by apply Hl, Hp, page_start].
    + intros [Hp Hj] x Hx. apply Hl. split; [auto |]. destruct Hx. cbn in *. lia.
Qed.

Lemma right_over_spec i j : intersects i j = true ->
  subivl (right_subtract i j) i /\ intersects (right_subtract i j) j = false /\
  forall p, page_in (right_subtract i j) p <-> page_in i p /\ (p + 1) * kPageSize <= j.1.
Proof.
  intros Hi. pose proof (right_subtract_spec i j Hi) as Hl. split_and!.
  - intros x Hx. by apply Hl.
  - apply not_true_iff_false. rewrite intersects_spec. unfold in_ivl at 2.
    intros (x & Hx & ?). apply Hl in Hx. lia.
  - intros p. unfold page_in, subivl. split.
    + intros Hp. split; [intros x Hx; by apply Hl, Hp |].
      assert (in_ivl (page_bytes p) ((p + 1) * kPageSize - 1)) as Hx
        by (unfold in_ivl, page_bytes; cbn [fst snd]; change kPageSize with 4096; lia).
      apply Hp, Hl in Hx. lia.
    + intros [Hp Hj] x Hx. apply Hl. split; [auto |]. destruct Hx. cbn in *. lia.
Qed.

(** A page clear of a range that is met lies on one side of it. *)
Lemma clear_sides i j p : intersects i j = true ->
  ~ touches p j <-> j.2 <= p * kPageSize \/ (p + 1) * kPageSize <= j.1.
Proof.
  rewrite intersects_spec. unfold touches, in_ivl, page_bytes. cbn [fst snd].
  change kPageSize with 4096. intros (y & _ & ?). split.
  - intros Ht. destruct (decide (j.2 <= p * 4096)); [by left | right].
    apply Z.nlt_ge. intros ?. apply Ht. exists (Z.max j.1 (p * 4096)). lia.
  - intros ? (x & ? & ?). lia.
Qed.

Lemma not_touched i j p : intersects i j = false -> page_in i p -> ~ touches p j.
Proof.
  intros Hi Hp (x & Hx & Hj). apply not_true_iff_false in Hi. apply Hi, intersects_spec.
  exists x. split; [by apply Hp | done].
Qed.

Lemma empty_page i p : is_empty i = true -> ~ page_in i p.
Proof. rewrite is_empty_spec. intros Hi Hp. apply (Hi (p * kPageSize)), Hp, page_start. Qed.

(** What freeing the clear pages of [i] in [l] gives. *)
Definition freed (res : list (Z * Z)) (i : Z * Z) (l : list PageRange) (o : outcome (list PageRange)) : Prop :=
  exists l', o = Ok l' /\ wf_ranges 0 l' /\ forall p, cover l' p <-> cover l p \/ clear_page res i p.

Lemma freed_ext res res' i i' l o :
  (forall p, clear_page res i p <-> clear_page res' i' p) -> freed res i l o -> freed res' i' l o.
Proof.
  intros He (l' & -> & W & Hc). exists l'. split_and!; [done | done |]. intros p. by rewrite Hc, He.
Qed.

Section Loop.
Context (recurse : list PageRange -> Z -> Z -> outcome (list PageRange)) (n : nat).
Hypothesis recurse_ok : forall l i, wf_ranges 0 l -> fits i -> fresh l i -> is_empty i = false ->
  (hits reserved i < n)%nat -> freed reserved i l (recurse l i.1 (i.2 - i.1)).

Lemma reserved_loop_ok res : forall done_ l i, done_ ++ res = reserved ->
  wf_ranges 0 l -> fits i -> fresh l i -> (hits reserved i <= n)%nat ->
  (forall j, j ∈ done_ -> intersects i j = false) ->
  freed res i l (reserved_loop nid recurse res l i).
Proof.
  induction res as [|j res IH]; intros done_ l i Hres W Hfit Hfr Hn Hd; cbn [reserved_loop].
  { destruct (free_interval_ok nid l i) as (l' & -> & W' & Hc); [done.. |].
    exists l'. split_and!; [done | done |]. intros p. rewrite Hc. unfold clear_page. set_solver. }
  assert ((done_ ++ [j]) ++ res = reserved) as Hres' by (by rewrite <- app_assoc).
  assert (j ∈ reserved) as Hj by (rewrite <- Hres; set_solver).
  assert (forall i' l', subivl i' i -> intersects i' j = false -> wf_ranges 0 l' -> fresh l' i' ->
    freed res i' l' (reserved_loop nid recurse res l' i')) as Hrest.
  { intros i' l' Hs Hj' W' Hfr'. apply (IH (done_ ++ [j])); [done | done | by intros x Hx; apply Hfit, Hs | done | |].
    - pose proof (hits_mono reserved i i' Hs). lia.
    - intros k. rewrite elem_of_app, list_elem_of_singleton. intros [Hk| ->]; [| done].
      apply not_true_iff_false. intros Hk'. 
      by apply (intersects_mono i) in Hk'; [apply Hd in Hk; congruence |]. }
  destruct (intersects i j) eqn:Hij; cbn [negb]; cycle 1.
  { eapply freed_ext; [| apply (Hrest i l); [by intros x | done..]].
    intros p. unfold clear_page. split; intros [Hp Hc]; (split; [done |]); [| set_solver].
    intros k. rewrite elem_of_cons. intros [->|]; [by eapply not_touched | auto]. }
  destruct (left_over_spec i j Hij) as (Ls & Lj & Lp), (right_over_spec i j Hij) as (Rs & Rj & Rp).
  assert (forall p, clear_page (j :: res) i p <->
    clear_page res (left_subtract i j) p \/ clear_page res (right_subtract i j) p) as Hsplit.
  { intros p. unfold clear_page. rewrite Lp, Rp. setoid_rewrite elem_of_cons.
    pose proof (clear_sides i j p Hij). naive_solver. }
  assert (forall i', subivl i' i -> fresh l i') as Hfr'
    by (intros i' Hs p Hp; apply Hfr; intros x Hx; by apply Hs, Hp).
  destruct (is_empty (left_subtract i j)) eqn:Le; destruct (is_empty (right_subtract i j)) eqn:Re;
    cbn [andb].
  - exists l. split_and!; [done | done |]. intros p. rewrite Hsplit. unfold clear_page.
    pose proof (empty_page _ p Le). pose proof (empty_page _ p Re). tauto.
  - eapply freed_ext; [| by apply Hrest; auto]. intros p. rewrite Hsplit. unfold clear_page.
    pose proof (empty_page _ p Le). tauto.
  - eapply freed_ext; [| by apply Hrest; auto]. intros p. rewrite Hsplit. unfold clear_page.
    pose proof (empty_page _ p Re). tauto.
  - destruct (recurse_ok l (right_subtract i j)) as (l1 & -> & W1 & Hc1); [done | | auto | done | |].
    { intros x Hx. by apply Hfit, Rs. }
    { pose proof (hits_lt reserved i _ j Hj Rs Hij Rj). lia. }
    cbn [mbind outcome_bind].
    assert (forall p, clear_page reserved (right_subtract i j) p <->
      clear_page res (right_subtract i j) p) as Hrr.
    { intros p. unfold clear_page. split; intros [Hp Hc]; (split; [done |]); [set_solver |].
      intros k. rewrite <- Hres, elem_of_app, elem_of_cons. intros [Hk|[->|Hk]]; [| | auto].
      - apply (not_touched i); [auto |]. intros x Hx. by apply Rs, Hp.
      - by apply (not_touched (right_subtract i j)). }
    destruct (Hrest (left_subtract i j) l1) as (l2 & -> & W2 & Hc2); [done | done | done | |].
    { intros p Hp. rewrite Hc1. intros [?|[Hp' _]]; [by apply (Hfr' (left_subtract i j) Ls p) |].
      apply Lp in Hp as [_ ?]. apply Rp in Hp' as [_ ?].
      pose proof (clear_sides i j p Hij). apply intersects_spec in Hij as (y & _ & ?).
      unfold in_ivl in *. change kPageSize with 4096 in *. lia. }
    exists l2. split_and!; [done | done |]. intros p. rewrite Hc2, Hc1, Hsplit, Hrr. tauto.
Qed.
End Loop.

Lemma FreeMemoryLoop_ok fuel : forall l i, wf_ranges 0 l -> fits i -> fresh l i -> is_empty i = false ->
  (hits reserved i < fuel)%nat ->
  freed reserved i l (FreeMemoryLoop reserved nid fuel l i.1 (i.2 - i.1)).
Proof.
  induction fuel as [|fuel IH]; intros l i W Hfit Hfr He Hh; [lia |]. cbn [FreeMemoryLoop].
  assert ((i.1, u64 (i.1 + (i.2 - i.1))) = i) as ->.
  { unfold is_empty in He. apply Z.leb_gt in He. unfold u64. rewrite wrap_small.
    - destruct i; cbn. f_equal. lia.
    - pose proof (Hfit i.1). pose proof (Hfit (i.2 - 1)). unfold in_ivl, in_u in *.
      change kPageSize with 4096 in *. lia. }
  eapply (reserved_loop_ok _ fuel IH reserved []); [done | done | done | done | lia | set_solver].
Qed.

Lemma hits_bound i : (hits reserved i <= length reserved)%nat.
Proof. apply length_filter. Qed.
End FreeMemoryProof.

Lemma FreeMemoryRange_spec `{Icl} reserved nid l begin_ length_ :
  wf_ranges 0 l -> 0 <= begin_ -> 0 <= length_ -> begin_ + length_ + kPageSize <= 2 ^ 64 ->
  (forall p, page_in (begin_, begin_ + length_) p -> ~ cover l p) ->
  exists l', FreeMemoryRange reserved nid l begin_ length_ = Ok l' /\ wf_ranges 0 l' /\
    forall p, cover l' p <-> cover l p \/ clear_page reserved (begin_, begin_ + length_) p.
Proof.
  intros W H0 Hl Hb Hfr. destruct (decide (length_ = 0)) as [->|Hl0].
  - exists l. rewrite Z.add_0_r. split_and!; [| done |].
    + unfold FreeMemoryRange. cbn [FreeMemoryLoop]. rewrite u64_small, Z.add_0_r by (change kPageSize with 4096 in Hb; lia).
      generalize (FreeMemoryLoop reserved nid (length reserved)). intros rc.
      assert (forall j, intersects (begin_, begin_) j = false) as Hno.
      { intros j. apply not_true_is_false. rewrite intersects_spec. intros (x & Hx & _). unfold in_ivl in Hx. cbn in Hx. lia. }
      clear W Hfr. induction reserved as [|j res IH]; cbn [reserved_loop]; [| by rewrite Hno].
      unfold free_interval. cbn [fst snd]. rewrite Z.sub_diag. done.
    + intros p. split; [by left |]. intros [?|[Hp _]]; [done |]. rewrite page_in_bounds in Hp. cbn in Hp. change kPageSize with 4096 in Hp. lia.
  - pose proof (hits_bound reserved (begin_, begin_ + length_)).
    destruct (FreeMemoryLoop_ok reserved nid (S (length reserved)) l (begin_, begin_ + length_))
      as (l' & Hl' & W' & Hc); [done | | done | apply Z.leb_gt; cbn; lia | lia |].
    { unfold fits, in_ivl. cbn [fst snd]. change kPageSize with 4096 in *. lia. }
    cbn [fst snd] in Hl'. replace (begin_ + length_ - begin_) with length_ in Hl' by lia. by exists l'.
Qed.

(** Freeing a memory range terminates and adds exactly the whole pages that
    lie inside [begin, begin + length) and have no byte in a reserved range;
    the set of free ranges stays ordered and disjoint. *)
Theorem FreeMemoryRange_correct `{Icl} reserved nid l begin_ length_ :
  wf_ranges 0 l -> 0 <= begin_ -> 0 < length_ -> begin_ + length_ + kPageSize <= 2 ^ 64 ->
  (forall p, page_in (begin_, begin_ + length_) p -> ~ cover l p) ->
  exists l', FreeMemoryRange reserved nid l begin_ length_ = Ok l' /\ wf_ranges 0 l' /\
    forall p, cover l' p <-> cover l p \/
      (begin_ <= p * kPageSize /\ (p + 1) * kPageSize <= begin_ + length_ /\
       forall j x, j ∈ reserved -> p * kPageSize <= x < (p + 1) * kPageSize -> ~ in_ivl j x).
Proof.
  intros W H0 Hl Hb Hfr.
  destruct (FreeMemoryRange_spec reserved nid l begin_ length_) as (l' & Hl' & W' & Hc); [done | done | lia | done | done |].
  exists l'. split_and!; [done | done |]. intros p. rewrite Hc. unfold clear_page.
  rewrite page_in_bounds. unfold touches, page_bytes. cbn [fst snd].
  unfold in_ivl at 1. cbn [fst snd]. naive_solver.
Qed.

(** Boost.ICL's operations, computed. *)
Definition icl_impl : Icl.
Proof.
  refine {|
    intersects := fun i j => Z.max i.1 j.1 <? Z.min i.2 j.2;
    left_subtract := fun i j => (Z.max i.1 j.2, i.2);
    right_subtract := fun i j => (i.1, Z.min i.2 j.1) |}; unfold in_ivl; cbn.
  - intros i j. rewrite Z.ltb_lt. split; [intros; exists (Z.max i.1 j.1); lia | intros (x & ? & ?); lia].
  - intros i j _ x. lia.
  - intros i j _ x. lia.
Defined.

(** Physical memory [0, 0x20000) with a reserved area in the middle. *)
Lemma FreeMemoryRange_correct_witness :
  exists l', FreeMemoryRange (H := icl_impl) [(0x3800, 0x5001)] 0 [] 0 0x20000 = Ok l' /\
    wf_ranges 0 l' /\ ~ cover l' 3 /\ ~ cover l' 5 /\ cover l' 6.
Proof.
  destruct (@FreeMemoryRange_correct icl_impl [(0x3800, 0x5001)] 0 [] 0 0x20000)
    as (l' & E & W & Hc); [done | lia | lia | by vm_compute | by intros p _ Hp; apply cover_nil in Hp |].
  exists l'. split_and!; [done | done | ..]; rewrite Hc, cover_nil; change kPageSize with 4096.
  - intros [[]|(_ & _ & Hj)]. apply (Hj (0x3800, 0x5001) 0x3800); [by left | lia | unfold in_ivl; cbn; lia].
  - intros [[]|(_ & _ & Hj)]. apply (Hj (0x3800, 0x5001) 0x5000); [by left | lia | unfold in_ivl; cbn; lia].
  - right. split_and!; [lia | lia |]. intros j x ->%list_elem_of_singleton. unfold in_ivl. cbn. lia.
Defined.

(** [AllocatePage] takes [n] contiguous free pages of a range of the
    requested node, and removes exactly these; it aborts only when no range of
    that node has [n] pages. *)
Theorem AllocatePage_correct n nid lo l :
  0 < n -> 0 <= lo -> wf_ranges lo l -> (forall r, r ∈ l -> n <= rstart r + rnpages r) ->
  match AllocatePage l n nid with
  | Ok (p, l') =>
      wf_ranges lo l' /\ lo <= p /\
      (forall x, cover l x <-> p <= x < p + n \/ cover l' x) /\
      (forall x, p <= x < p + n -> ~ cover l' x) /\
      exists r, r ∈ l /\ serves nid r /\ (forall x, p <= x < p + n -> range_pages r x)
  | Fail f => f = Aborted /\ forall r, r ∈ l -> serves nid r -> rnpages r < n
  end.
Proof. intros. by apply AllocatePage_spec. Qed.

Lemma AllocatePage_correct_witness :
  AllocatePage [mkRange 16 8 0; mkRange 64 32 1] 4 1 = Ok (92, [mkRange 16 8 0; mkRange 64 28 1]) /\
  ~ cover [mkRange 16 8 0; mkRange 64 28 1] 93.
Proof.
  assert (AllocatePage [mkRange 16 8 0; mkRange 64 32 1] 4 1 =
    Ok (92, [mkRange 16 8 0; mkRange 64 28 1])) as E by done.
  split; [exact E |].
  pose proof (AllocatePage_correct 4 1 0 [mkRange 16 8 0; mkRange 64 32 1]) as C.
  rewrite E in C. apply C; [lia | lia | cbn; lia | | lia].
  intros r. rewrite !elem_of_cons. intros [->|[->|[]%elem_of_nil]]; cbn; lia.
Defined.

(** The frame arithmetic of [AllocatePage] is unsigned: a first range that
    ends below frame [n] is taken to have room, and a frame number near 2^64
    that is not free is returned. *)
Theorem AllocatePage_wraps n nid r l :
  serves nid r -> 0 <= rstart r -> 0 < rnpages r -> rstart r + rnpages r < n -> n < 2 ^ 32 ->
  AllocatePage (r :: l) n nid =
    Ok (2 ^ 64 + (rstart r + rnpages r) - n,
        mkRange (rstart r) (2 ^ 64 + rnpages r - n) (rnid r) :: l).
Proof.
  intros Hs H0 Hp Hn Hb. cbn [AllocatePage]. apply serves_test in Hs as ->.
  rewrite rend_eq by lia. unfold PfnSub, u64, wrap.
  rewrite <- (Z_mod_plus_full (rstart r + rnpages r - n) 1), Z.mod_small by lia.
  rewrite <- (Z_mod_plus_full (rnpages r - n) 1), Z.mod_small by lia.
  destruct (Z.ltb_spec (rstart r + rnpages r - n + 1 * 2 ^ 64) (rstart r)); [lia |].
  destruct (Z.eqb_spec (rstart r + rnpages r - n + 1 * 2 ^ 64) (rstart r)); [lia |].
  repeat f_equal; lia.
Qed.

Lemma AllocatePage_wraps_witness :
  AllocatePage [mkRange 1 4 0; mkRange 64 32 0] 8 0 =
    Ok (2 ^ 64 - 3, [mkRange 1 (2 ^ 64 - 4) 0; mkRange 64 32 0]).
Proof.
  rewrite (AllocatePage_wraps 8 0 (mkRange 1 4 0)); [done | by right | cbn; lia..].
Defined.

(** When no free range sticks out of [start, end) on both sides,
    [SetNidRange] terminates, keeps the set of free pages, and all free pages
    of [start, end) get the node. *)
Theorem SetNidRange_correct l start end_ nid :
  wf_ranges 0 l -> 0 <= start < end_ -> end_ <= 2 ^ 52 -> no_straddle start end_ l ->
  exists l', SetNidRange l start end_ nid = Ok l' /\ wf_ranges 0 l' /\
    (forall x, cover l' x <-> cover l x) /\
    (forall r x, r ∈ l' -> range_pages r x -> start <= x < end_ -> rnid r = nid).
Proof.
  intros W Hs He Hst. destruct (SetNidRange_spec l start end_ nid W Hs He Hst) as (l' & E & Wl & Hc & Hn).
  exists l'. split_and!; [done.. |]. intros r x Hr Hx ?. unfold range_pages in Hx.
  destruct (Hn r Hr) as [?|[? _]]; [tauto | lia].
Qed.

Lemma SetNidRange_correct_witness :
  exists l', SetNidRange [mkRange 0 10 NidAny; mkRange 20 10 NidAny] 5 25 1 = Ok l' /\
    forall r x, r ∈ l' -> range_pages r x -> 5 <= x < 25 -> rnid r = 1.
Proof.
  destruct (SetNidRange_correct [mkRange 0 10 NidAny; mkRange 20 10 NidAny] 5 25 1)
    as (l' & E & _ & _ & Hn); [cbn; lia | lia | lia | | by exists l'].
  intros r. rewrite !elem_of_cons. intros [->|[->|[]%elem_of_nil]]; cbn; lia.
Defined.

(** A free range that sticks out on both sides loses its pages from [end] on. *)
Theorem SetNidRange_loses_pages s n nid0 start end_ nid :
  0 <= s < start -> start < end_ -> end_ < s + n -> s + n <= 2 ^ 52 ->
  SetNidRange [mkRange s n nid0] start end_ nid =
    Ok [mkRange s (start - s) nid0; mkRange start (end_ - start) nid] /\
  (forall x, end_ <= x < s + n -> cover [mkRange s n nid0] x /\
    ~ cover [mkRange s (start - s) nid0; mkRange start (end_ - start) nid] x).
Proof.
  intros. split.
  - unfold SetNidRange. cbn [length Nat.mul Nat.add]. rewrite SetNidLoop_step, rend_eq by (cbn; lia).
    cbn [rstart rnpages rnid]. rewrite Z.min_l by lia. rewrite !PfnSub_small by lia.
    rewrite (proj2 (Z.leb_gt _ _)), (proj2 (Z.leb_gt _ _)), !(proj2 (Z.ltb_lt _ _)) by lia. cbn [andb].
    rewrite SetNidLoop_step, rend_eq by (cbn; lia). cbn [rstart rnpages rnid].
    rewrite (proj2 (Z.leb_gt _ _)), (proj2 (Z.leb_gt _ _)), Z.ltb_irrefl by lia. cbn [andb].
    rewrite (proj2 (Z.ltb_ge end_ _)) by lia. rewrite andb_false_r. done.
  - intros x Hx. rewrite !cover_cons, !cover_nil. unfold range_pages. cbn. lia.
Qed.

Lemma SetNidRange_loses_pages_witness :
  SetNidRange [mkRange 0 100 NidAny] 10 20 1 = Ok [mkRange 0 10 NidAny; mkRange 10 10 1] /\
  cover [mkRange 0 100 NidAny] 50 /\ ~ cover [mkRange 0 10 NidAny; mkRange 10 10 1] 50.
Proof.
  destruct (SetNidRange_loses_pages 0 100 NidAny 10 20 1) as [E Hx]; [lia.. |].
  split; [exact E |]. apply Hx. lia.
Defined.
