(* ===== verification/Boot.v ===== *)
(** * Discovery and hand-over of memory at boot

    Models src/src/native/E820.{h,cc}, Multiboot.{h,cc}, Numa.{h,cc}, the table
    of processors of Cpu.{h,cc}, the reading of the ACPI tables in Acpi.cc, the
    boot loop of MemMap.cc, and the part of Main.cc that composes them: from the
    boot loader's memory map to the page allocator. *)

From Stdlib Require Import Sorting.Sorted.
From S2P Require Import Prelude Pfn MemMap PageAllocator VMemAllocator VMem EarlyPageAllocator.

(** ** Memory and containers *)

(** The bytes of physical memory; an address that is not mapped faults. *)
Definition bytes := gmap Z Z.
Definition byte_at (mem : bytes) (a : Z) : outcome Z :=
  match mem !! a with Some b => Ok b | None => Fail UndefinedBehaviour end.
Fixpoint le_at (mem : bytes) (n : nat) (a : Z) : outcome Z :=
  match n with
  | O => Ok 0
  | S n => b ← byte_at mem a; r ← le_at mem n (a + 1); Ok (b + 256 * r)
  end.

(** std::strlen; each byte read is mapped, which bounds the loop. *)
Fixpoint strlen_from (fuel : nat) (mem : bytes) (a : Z) : outcome Z :=
  match fuel with
  | O => Fail UndefinedBehaviour
  | S fuel => b ← byte_at mem a; if b =? 0 then Ok 0 else n ← strlen_from fuel mem (a + 1); Ok (n + 1)
  end.
Definition strlen (mem : bytes) (a : Z) : outcome Z := strlen_from (S (size mem)) mem a.

(** boost::container::static_vector of [cap] elements: [emplace_back]. *)
Definition emplace_back {A} (cap : nat) (x : A) (l : list A) : outcome (list A) :=
  if (length l <? cap)%nat then Ok (l ++ [x]) else Fail (Thrown "bad_alloc").

Definition kbugon (b : bool) : outcome unit := kassert (negb b).

(** std::sort: some permutation of the elements, in order; the order of
    equivalent elements is not specified. *)
Class StdSort := {
  std_sort : forall {A : Type}, (A -> A -> bool) -> list A -> list A;
  std_sort_perm : forall {A} (f : A -> Z) l, std_sort (fun x y => f x <? f y) l ≡ₚ l;
  std_sort_sorted : forall {A} (f : A -> Z) l,
    StronglySorted (fun x y => f x <= f y) (std_sort (fun x y => f x <? f y) l)
}.

(** ** e820::Entry *)

Module E820.

Record Entry := mkEntry { addr : Z; length : Z; type : Z }.
Definition kTypeRam : Z := 1.
Definition kMaxEntries : nat := 128.

Definition TrimBelow (new_addr : Z) (e : Entry) : Entry :=
  if (new_addr <? addr e) || (u64 (addr e + length e) <? new_addr) then e
  else mkEntry new_addr (u64 (length e - u64 (new_addr - addr e))) (type e).

Definition TrimAbove (new_addr : Z) (e : Entry) : Entry :=
  if (new_addr <? addr e) || (u64 (addr e + length e) <? new_addr) then e
  else mkEntry (addr e) (u64 (length e - u64 (u64 (addr e + length e) - new_addr))) (type e).

Definition entry_lt (a b : Entry) : bool := addr a <? addr b.

(** [ForEachUsableRegion]: the entries that [f] is called on. *)
Definition usable (map : list Entry) : list Entry := filter (fun e => type e = kTypeRam) map.

End E820.

(** ** multiboot *)

(** The fields of [multiboot::Information] that are read. *)
Record Information := mkInformation {
  has_command_line_ : bool;
  command_line_ : Z;
  has_boot_modules_ : bool;
  modules_count_ : Z;
  modules_address_ : Z;
  memory_map_length_ : Z;
  memory_map_address_ : Z
}.
Definition sizeofInformation : Z := 88.
Definition sizeofModule : Z := 16.

(** struct MemoryRegion, packed. *)
Record MemoryRegion := mkRegion { size_ : Z; base_address_ : Z; length_ : Z; type_ : Z }.
Definition read_region (mem : bytes) (p : Z) : outcome MemoryRegion :=
  s ← le_at mem 4 p;
  b ← le_at mem 8 (p + 4);
  l ← le_at mem 8 (p + 12);
  t ← le_at mem 4 (p + 20);
  Ok (mkRegion s b l t).

(** [ForEachRegion]: the step is a 32-bit sum; a step of zero repeats the same
    region for ever.  Any other step is at least one byte, which bounds the
    iterations. *)
Section ForEach.
Context {S_ : Type} (mem : bytes) (f : MemoryRegion -> S_ -> outcome S_).
Fixpoint each_region (fuel : nat) (p end_addr : Z) (s : S_) : outcome S_ :=
  if p <? end_addr then
    match fuel with
    | O => Fail Aborted
    | S fuel =>
        region ← read_region mem p;
        s ← f region s;
        let step := u32 (size_ region + 4) in
        if step =? 0 then Fail Diverges else each_region fuel (u64 (p + step)) end_addr s
    end
  else Ok s.
Definition ForEachRegion (buffer size : Z) (s : S_) : outcome S_ :=
  each_region (Z.to_nat size) buffer (u64 (buffer + size)) s.
End ForEach.

Definition e820_Init `{StdSort} (mem : bytes) (mbi : Information) : outcome (list E820.Entry) :=
  map ← ForEachRegion mem
    (fun r m => emplace_back E820.kMaxEntries (E820.mkEntry (base_address_ r) (length_ r) (type_ r)) m)
    (memory_map_address_ mbi) (memory_map_length_ mbi) [];
  Ok (std_sort E820.entry_lt map).

(** One module of the loop of [Reserve]. *)
Definition reserve_module (mem : bytes) (mods i : Z) (res : list (Z * Z)) : outcome (list (Z * Z)) :=
  let m := mods + i * sizeofModule in
  start ← le_at mem 4 m;
  end_ ← le_at mem 4 (m + 4);
  res ← ReserveRange res start end_;
  str_addr ← le_at mem 4 (m + 8);
  len ← strlen mem str_addr;
  ReserveRange res str_addr (str_addr + len + 1).

Fixpoint reserve_modules (mem : bytes) (mods i : Z) (n : nat) (res : list (Z * Z)) : outcome (list (Z * Z)) :=
  match n with
  | O => Ok res
  | S n => res ← reserve_module mem mods i res; reserve_modules mem mods (i + 1) n res
  end.

Definition Reserve (mem : bytes) (mbi_addr : Z) (mbi : Information) (res : list (Z * Z)) : outcome (list (Z * Z)) :=
  res ← ReserveRange res mbi_addr (mbi_addr + sizeofInformation);
  res ← (if has_command_line_ mbi then
           len ← strlen mem (command_line_ mbi);
           ReserveRange res (command_line_ mbi) (command_line_ mbi + len + 1)
         else Ok res);
  if has_boot_modules_ mbi && (0 <? modules_count_ mbi) then
    let module_addr := modules_address_ mbi in
    let module_end := module_addr + modules_count_ mbi * sizeofModule in
    res ← ReserveRange res module_addr module_end;
    reserve_modules mem module_addr 0 (Z.to_nat (modules_count_ mbi)) res
  else Ok res.

(** ** The table of processors *)

Record Cpu := mkCpu { index_ : Z; acpi_id_ : Z; apic_id_ : Z; cpu_nid_ : Z }.
Definition kMaxCpus : nat := 256.
Definition set_acpi_id (id : Z) (c : Cpu) : Cpu := mkCpu (index_ c) (u8 id) (apic_id_ c) (cpu_nid_ c).
Definition set_apic_id (id : Z) (c : Cpu) : Cpu := mkCpu (index_ c) (acpi_id_ c) (u8 id) (cpu_nid_ c).
Definition set_nid (nid : Z) (c : Cpu) : Cpu := mkCpu (index_ c) (acpi_id_ c) (apic_id_ c) nid.

Definition Cpu_Create (cpus : list Cpu) : outcome (list Cpu) :=
  emplace_back kMaxCpus (mkCpu (Z.of_nat (length cpus)) 0 0 NidNone) cpus.

(** The index of the processor that [GetByIndex] or [GetByApicId] returns. *)
Definition Cpu_GetByIndex (cpus : list Cpu) (index : Z) : option nat :=
  if u64 (Z.of_nat (length cpus) - 1) <? index then None else Some (Z.to_nat index).
Definition Cpu_GetByApicId (cpus : list Cpu) (apic_id : Z) : option nat :=
  fst <$> list_find (fun c => apic_id_ c = apic_id) cpus.

(** ** numa *)

Record Memblock := mkMemblock { mstart : Z; mend : Z; mnid : Z }.
Definition memblock_lt (a b : Memblock) : bool := mstart a <? mstart b.
Record Node := mkNode { memblocks : list Memblock; pfn_start : Z; pfn_end : Z }.
Definition kMaxNodes : nat := 256.
Definition kMaxMemblocks : nat := 256.
Definition kMaxPxmDomains : Z := 256.
Definition new_Node : Node := mkNode [] PfnNone PfnNone.

Record Numa := mkNuma { nodes : list Node; pxm_to_node_map : list Z; node_to_pxm_map : list Z }.
Definition numa_EarlyInit : Numa :=
  mkNuma [] (replicate (Z.to_nat kMaxPxmDomains) NidNone) (replicate kMaxNodes (-1)).

Definition SetupNode (proximity_domain : Z) (n : Numa) : outcome (Z * Numa) :=
  _ ← kbugon (kMaxPxmDomains <=? proximity_domain);
  let node := default NidNone (pxm_to_node_map n !! Z.to_nat proximity_domain) in
  if node =? NidNone then
    ns ← emplace_back kMaxNodes new_Node (nodes n);
    let node := Z.of_nat (length ns) - 1 in
    Ok (node, mkNuma ns (<[Z.to_nat proximity_domain := node]> (pxm_to_node_map n))
                (<[Z.to_nat node := proximity_domain]> (node_to_pxm_map n)))
  else Ok (node, n).

Definition MapApicToNode (apic_id nid : Z) (cpus : list Cpu) : outcome (list Cpu) :=
  match Cpu_GetByApicId cpus apic_id with
  | None => Fail AssertFailed
  | Some p => Ok (alter (set_nid nid) p cpus)
  end.

Definition AddMemBlock (nid start end_ : Z) (n : Numa) : outcome Numa :=
  match nodes n !! Z.to_nat nid with
  | None => Fail UndefinedBehaviour
  | Some nd =>
      ms ← emplace_back kMaxMemblocks (mkMemblock start end_ nid) (memblocks nd);
      Ok (mkNuma (<[Z.to_nat nid := mkNode ms (pfn_start nd) (pfn_end nd)]> (nodes n))
                 (pxm_to_node_map n) (node_to_pxm_map n))
  end.

(** The loop over the blocks of one node. *)
Fixpoint set_nids (ms : list Memblock) (free_pages : list PageRange) : outcome (list PageRange) :=
  match ms with
  | [] => Ok free_pages
  | m :: ms => fp ← SetNidRange free_pages (mstart m) (mend m) (mnid m); set_nids ms fp
  end.

Definition node_span (ms : list Memblock) : Node :=
  match ms, last ms with
  | b :: _, Some e => mkNode ms (mstart b) (mend e)
  | _, _ => mkNode ms PfnNone PfnNone
  end.

Fixpoint init_nodes `{StdSort} (ns : list Node) (free_pages : list PageRange) : outcome (list Node * list PageRange) :=
  match ns with
  | [] => Ok ([], free_pages)
  | n :: ns =>
      let ms := std_sort memblock_lt (memblocks n) in
      fp ← set_nids ms free_pages;
      '(ns, fp) ← init_nodes ns fp;
      Ok (node_span ms :: ns, fp)
  end.
Definition numa_Init `{StdSort} (n : Numa) (free_pages : list PageRange) : outcome (Numa * list PageRange) :=
  '(ns, fp) ← init_nodes (nodes n) free_pages;
  Ok (mkNuma ns (pxm_to_node_map n) (node_to_pxm_map n), fp).

(** ** The ACPI tables *)

(** What AcpiInitializeTables and AcpiGetTable of ACPICA give: the addresses of
    the tables. *)
Record AcpiTables := mkAcpi { init_ok : bool; madt : option Z; srat : option Z }.

(** The sizes of the tables' headers and entries (ACPI specification). *)
Definition sizeofMadt : Z := 44.
Definition sizeofLocalApic : Z := 8.
Definition sizeofIoApic : Z := 12.
Definition sizeofInterruptOverride : Z := 10.
Definition sizeofLocalApicNmi : Z := 6.
Definition sizeofSrat : Z := 48.
Definition sizeofCpuAffinity : Z := 16.
Definition sizeofMemAffinity : Z := 40.

(** An enabled local APIC.  The first one is the processor that boots. *)
Definition madt_cpu (acpi_id apic_id : Z) (first_cpu : bool) (cpus : list Cpu) : outcome (list Cpu) :=
  let ids c := set_apic_id apic_id (set_acpi_id acpi_id c) in
  if first_cpu then
    match Cpu_GetByIndex cpus 0 with
    | None => Fail AssertFailed
    | Some i => Ok (alter ids i cpus)
    end
  else
    cpus ← Cpu_Create cpus;
    Ok (alter ids (length cpus - 1)%nat cpus).

(** Every entry that is accepted takes at least six bytes. *)
Fixpoint madt_loop (fuel : nat) (mem : bytes) (madt offset len : Z) (first_cpu : bool) (cpus : list Cpu) : outcome (list Cpu) :=
  if offset <? len then
    match fuel with
    | O => Fail Aborted
    | S fuel =>
        let subtable := madt + offset in
        type ← byte_at mem subtable;
        if type =? 0 then
          flags ← le_at mem 4 (subtable + 4);
          if Z.testbit flags 0 then
            acpi_id ← byte_at mem (subtable + 2);
            apic_id ← byte_at mem (subtable + 3);
            cpus ← madt_cpu acpi_id apic_id first_cpu cpus;
            madt_loop fuel mem madt (offset + sizeofLocalApic) len false cpus
          else madt_loop fuel mem madt (offset + sizeofLocalApic) len first_cpu cpus
        else if type =? 1 then madt_loop fuel mem madt (offset + sizeofIoApic) len first_cpu cpus
        else if type =? 2 then madt_loop fuel mem madt (offset + sizeofInterruptOverride) len first_cpu cpus
        else if type =? 4 then madt_loop fuel mem madt (offset + sizeofLocalApicNmi) len first_cpu cpus
        else Fail Aborted
    end
  else Ok cpus.
Definition ParseMadt (mem : bytes) (madt : Z) (cpus : list Cpu) : outcome (list Cpu) :=
  len ← le_at mem 4 (madt + 4);
  madt_loop (Z.to_nat len) mem madt sizeofMadt len true cpus.

Definition srat_cpu (mem : bytes) (e : Z) (n : Numa) (cpus : list Cpu) : outcome (Numa * list Cpu) :=
  flags ← le_at mem 4 (e + 4);
  if Z.testbit flags 0 then
    lo ← byte_at mem (e + 2);
    apic_id ← byte_at mem (e + 3);
    hi ← le_at mem 3 (e + 9);
    let prox_domain := u64 (s32 (Z.lor lo (Z.shiftl hi 8))) in
    '(node, n) ← SetupNode prox_domain n;
    cpus ← MapApicToNode apic_id node cpus;
    match Cpu_GetByApicId cpus apic_id with
    | None => Fail AssertFailed
    | Some i => Ok (n, alter (set_nid node) i cpus)
    end
  else Ok (n, cpus).

Definition srat_memory (mem : bytes) (e : Z) (n : Numa) : outcome Numa :=
  flags ← le_at mem 4 (e + 28);
  if Z.testbit flags 0 then
    base ← le_at mem 8 (e + 8);
    len ← le_at mem 8 (e + 16);
    prox ← le_at mem 4 (e + 2);
    let start := PfnUp base in
    let end_ := PfnDown (u64 (base + len)) in
    '(node, n) ← SetupNode prox n;
    AddMemBlock node start end_ n
  else Ok n.

(** A type of entry that the switch does not list is not stepped over. *)
Fixpoint srat_loop (fuel : nat) (mem : bytes) (srat offset len : Z) (n : Numa) (cpus : list Cpu) : outcome (Numa * list Cpu) :=
  if offset <? len then
    match fuel with
    | O => Fail Aborted
    | S fuel =>
        let subtable := srat + offset in
        type ← byte_at mem subtable;
        if type =? 0 then
          '(n, cpus) ← srat_cpu mem subtable n cpus;
          srat_loop fuel mem srat (offset + sizeofCpuAffinity) len n cpus
        else if type =? 1 then
          n ← srat_memory mem subtable n;
          srat_loop fuel mem srat (offset + sizeofMemAffinity) len n cpus
        else if type =? 2 then Fail Aborted
        else Fail Diverges
    end
  else Ok (n, cpus).
Definition ParseSrat (mem : bytes) (srat : Z) (n : Numa) (cpus : list Cpu) : outcome (Numa * list Cpu) :=
  len ← le_at mem 4 (srat + 4);
  srat_loop (Z.to_nat len) mem srat sizeofSrat len n cpus.

(** Without an SRAT: one node with all processors and all memory. *)
Fixpoint attach_cpus (node : Z) (i : Z) (k : nat) (cpus : list Cpu) : outcome (list Cpu) :=
  match k with
  | O => Ok cpus
  | S k =>
      cpus ← match Cpu_GetByIndex cpus i ≫= (fun j => pair j <$> cpus !! j) with
             | None => Ok cpus
             | Some (j, c) => cpus ← MapApicToNode (apic_id_ c) node cpus; Ok (alter (set_nid node) j cpus)
             end;
      attach_cpus node (i + 1) k cpus
  end.
Fixpoint attach_memory (node : Z) (es : list E820.Entry) (n : Numa) : outcome Numa :=
  match es with
  | [] => Ok n
  | e :: es =>
      n ← AddMemBlock node (PfnUp (E820.addr e)) (PfnDown (u64 (E820.addr e + E820.length e))) n;
      attach_memory node es n
  end.

Definition BootInit (mem : bytes) (tables : AcpiTables) (map : list E820.Entry) (n : Numa) (cpus : list Cpu) :
    outcome (Numa * list Cpu) :=
  if negb (init_ok tables) then Fail Aborted else
  match madt tables with
  | None => Fail Aborted
  | Some m =>
      cpus ← ParseMadt mem m cpus;
      match srat tables with
      | None =>
          '(node, n) ← SetupNode 0 n;
          cpus ← attach_cpus node 0 kMaxCpus cpus;
          n ← attach_memory node (E820.usable map) n;
          Ok (n, cpus)
      | Some s => ParseSrat mem s n cpus
      end
  end.

(** ** mem_map::Init *)

Section MemMapInit.
Context (sizeofPage : Z).

(** The sections that a block touches, from the one of its first page on; a
    frame beyond the last section is out of the bounds of the array. *)
Fixpoint mark_sections (fuel : nat) (pfn end_ nid : Z) (sections : list Z) : outcome (list Z) :=
  if pfn <? end_ then
    match fuel with
    | O => Fail Aborted
    | S fuel =>
        let i := Z.to_nat (Z.shiftr pfn kPfnSectionShift) in
        match sections !! i with
        | None => Fail UndefinedBehaviour
        | Some w =>
            let sections := if Section_.Present w then sections else <[i := Section_.SetEarlyNid nid]> sections in
            mark_sections fuel (u64 (pfn + kPagesPerSection)) end_ nid sections
        end
    end
  else Ok sections.
Definition mark_block (m : Memblock) (sections : list Z) : outcome (list Z) :=
  let start := Z.land (mstart m) kPageSectionMask in
  mark_sections (S (length sections)) start (mend m) (mnid m) sections.
Fixpoint mark_blocks (ms : list Memblock) (sections : list Z) : outcome (list Z) :=
  match ms with
  | [] => Ok sections
  | m :: ms => s ← mark_block m sections; mark_blocks ms s
  end.

Definition section_map_bytes : Z := kPagesPerSection * sizeofPage.
Definition section_map_pages : Z := Z.shiftr (AlignUp section_map_bytes kPageSize) kPageShift.

(** The descriptors of one section. *)
Fixpoint new_pages (n : nat) (pfn nid : Z) (mm : gmap Z Page) : gmap Z Page :=
  match n with
  | O => mm
  | S n => new_pages n (pfn + 1) nid (<[pfn := new_Page nid]> mm)
  end.

Fixpoint map_sections (i : Z) (sections : list Z) (mm : gmap Z Page) (fp : list PageRange) :
    outcome (list Z * gmap Z Page * list PageRange) :=
  match sections with
  | [] => Ok ([], mm, fp)
  | w :: sections =>
      if Section_.Present w then
        let nid := Section_.EarlyNid w in
        '(map_pfn, fp) ← AllocatePage fp section_map_pages nid;
        let mm := new_pages (Z.to_nat kPagesPerSection) (i * kPagesPerSection) nid mm in
        '(ss, mm, fp) ← map_sections (i + 1) sections mm fp;
        Ok (Section_.SetMap sizeofPage (ToAddr map_pfn) i :: ss, mm, fp)
      else
        '(ss, mm, fp) ← map_sections (i + 1) sections mm fp;
        Ok (w :: ss, mm, fp)
  end.

Definition mem_map_Init (ns : list Node) (fp : list PageRange) : outcome (list Z * gmap Z Page * list PageRange) :=
  sections ← mark_blocks (concat (memblocks <$> ns)) (replicate (Z.to_nat kSections) 0);
  map_sections 0 sections ∅ fp.
End MemMapInit.

(** ** Main *)

Section Main.
Context `{Icl} `{StdSort}.
Context (root : Z).            (* the address of [page_table_root] *)
Context (kend_addr : Z).       (* the end of the kernel *)
Context (sizeofPage : Z).

Definition initial_map_end : Z := Z.shiftl 1 30.
Definition early_alloc (nid : Z) (fp : list PageRange) : outcome (Z * list PageRange) := AllocatePage fp 1 nid.

Definition free_region (reserved : list (Z * Z)) (begin_ length_ : Z) (m : Memory (list PageRange)) :
    outcome (Memory (list PageRange)) :=
  fp ← FreeMemoryRange reserved NidAny (allocator m) begin_ length_;
  Ok (mkMemory (words m) fp).

(** The first pass: memory below [initial_map_end] is freed, all of it is mapped. *)
Definition first_region (reserved : list (Z * Z)) (entry : E820.Entry) (m : Memory (list PageRange)) :
    outcome (Memory (list PageRange)) :=
  if u64 (E820.addr entry + E820.length entry) <=? kend_addr then Ok m else
  let begin_ := E820.addr entry in
  let length_ := E820.length entry in
  let entry := E820.TrimAbove initial_map_end (E820.TrimBelow kend_addr entry) in
  m ← (if E820.addr entry <? initial_map_end
       then free_region reserved (E820.addr entry) (E820.length entry) m else Ok m);
  EarlyMapMemory (early_alloc NidAny) root begin_ length_ m.

(** The second pass: memory above [initial_map_end]. *)
Definition second_region (reserved : list (Z * Z)) (entry : E820.Entry) (m : Memory (list PageRange)) :
    outcome (Memory (list PageRange)) :=
  if u64 (E820.addr entry + E820.length entry) <? initial_map_end then Ok m else
  let entry := E820.TrimBelow initial_map_end entry in
  free_region reserved (E820.addr entry) (E820.length entry) m.

Fixpoint each_entry {S_} (f : E820.Entry -> S_ -> outcome S_) (es : list E820.Entry) (s : S_) : outcome S_ :=
  match es with [] => Ok s | e :: es => s ← f e s; each_entry f es s end.

(** From the memory map of the boot loader to the early page allocator. *)
Definition boot_memory (mem : bytes) (mbi_addr : Z) (mbi : Information) :
    outcome (list E820.Entry * Memory (list PageRange)) :=
  map ← e820_Init mem mbi;
  reserved ← Reserve mem mbi_addr mbi [];
  m ← each_entry (first_region reserved) (E820.usable map) (mkMemory ∅ []);
  m ← each_entry (second_region reserved) (E820.usable map) m;
  Ok (map, m).

(** ACPICA maps and unmaps the tables it reads through AcpiOsMapMemory and
    AcpiOsUnmapMemory. *)
Inductive acpi_call := AcpiOsMapMemory (where_ length_ : Z) | AcpiOsUnmapMemory (logical size : Z).
Fixpoint acpi_calls (cs : list acpi_call) (m : Memory (list PageRange)) : outcome (Memory (list PageRange)) :=
  match cs with
  | [] => Ok m
  | AcpiOsMapMemory w l :: cs => m ← EarlyMapMemory (early_alloc NidAny) root w l m; acpi_calls cs m
  | AcpiOsUnmapMemory w l :: cs => m ← EarlyUnmapMemory root w l m; acpi_calls cs m
  end.

(** From the early page allocator to the page allocator, given the nodes. *)
Definition boot_pages (page_checker : bool) (my_node : Z) (n : Numa) (m : Memory (list PageRange)) :
    outcome (Numa * list Z * Memory (list PageRange) * system) :=
  '(n, fp) ← numa_Init n (allocator m);
  '(sections, mm, fp) ← mem_map_Init sizeofPage (nodes n) fp;
  m ← trans_Init (early_alloc my_node) kVMemStart root (mkMemory (words m) fp);
  let '(ranges, fp) := ReleaseFreePages (allocator m) in
  sys ← Init page_checker (length (nodes n)) mm ranges;
  Ok (n, sections, mkMemory (words m) fp, sys).

(** The part of [Main] up to PageAllocator::Init that concerns memory.  The
    structure of the first processor exists before ([Cpu::Create]). *)
Definition boot (page_checker : bool) (mem : bytes) (mbi_addr : Z) (mbi : Information)
    (calls : list acpi_call) (tables : AcpiTables) : outcome (list Cpu * (Numa * list Z * Memory (list PageRange) * system)) :=
  cpus ← Cpu_Create [];
  '(map, m) ← boot_memory mem mbi_addr mbi;
  m ← acpi_calls calls m;
  '(n, cpus) ← BootInit mem tables map numa_EarlyInit cpus;
  let my_node := default NidNone (cpu_nid_ <$> head cpus) in
  r ← boot_pages page_checker my_node n m;
  Ok (cpus, r).
End Main.
