(* ===== verification/BootCorrect.v ===== *)
(** * Memory discovery at boot is correct

    From the memory map of the boot loader, [Main] (src/src/native/Main.cc)
    frees exactly the usable pages that are above the kernel and not reserved,
    and maps usable memory to itself; the pages of the page tables come from
    these. *)

From Stdlib Require Import Sorting.Sorted.
From S2P Require Import Prelude Pfn MemMap PageAllocator VMemAllocator VMem VMemCorrect VMemWalk VMemMap EarlyPageAllocator Boot.

(** ** The early allocator as a source of pages for tables *)

Lemma wf_range_in lo l r : wf_ranges lo l -> r ∈ l -> lo <= rstart r /\ 0 < rnpages r /\ rstart r + rnpages r <= 2 ^ 52.
Proof.
  revert lo. induction l as [|x l IH]; intros lo W Hr; [by apply elem_of_nil in Hr |].
  cbn in W. destruct W as (? & ? & ? & W). apply elem_of_cons in Hr as [->|Hr]; [lia |]. specialize (IH _ W Hr). lia.
Qed.

Lemma early_alloc_spec nid fp p fp' : wf_ranges 0 fp -> early_alloc nid fp = Ok (p, fp') ->
  wf_ranges 0 fp' /\ cover fp p /\ forall q, cover fp' q <-> cover fp q /\ q <> p.
Proof.
  intros W E. pose proof (AllocatePage_spec 1 nid ltac:(lia) 0 fp ltac:(lia) W) as S. unfold early_alloc in E. rewrite E in S.
  destruct S as (W' & _ & Hc & Hn & _); [intros r Hr; pose proof (wf_range_in _ _ _ W Hr); lia |].
  split_and!; [done | apply Hc; left; lia |]. intros q. rewrite Hc. specialize (Hn q). split.
  - intros Hq. split; [by right | intros ->]. apply Hn; [lia | done].
  - intros [[Hq|Hq] Hne]; [lia | done].
Qed.

Definition early_inv (fp : list PageRange) : Prop := wf_ranges 0 fp /\ forall p, cover fp p -> p < 2 ^ 40.

#[export] Instance early_source nid : FrameSource (early_alloc nid).
Proof.
  refine {| fs_inv := early_inv; fs_free := cover |}.
  - intros fp p [W Hp] Hc. pose proof (wf_ranges_cover _ _ _ W Hc). specialize (Hp p Hc). lia.
  - intros fp p fp' [W Hp] E _. destruct (early_alloc_spec nid fp p fp' W E) as (W' & Hc & Hq).
    split; [split; [done |] | by split]. intros q Hcq. apply Hp. by apply Hq.
Defined.

Lemma early_not_none nid fp fp' : early_inv fp -> early_alloc nid fp <> Ok (PfnNone, fp').
Proof.
  intros [W Hp] E. destruct (early_alloc_spec nid fp _ fp' W E) as (_ & Hc & _). by apply Hp in Hc.
Qed.

Lemma early_fail nid fp f : early_alloc nid fp = Fail f -> f = Aborted.
Proof.
  unfold early_alloc. induction fp as [|r fp IH]; cbn [AllocatePage]; [by intros [= <-] |].
  destruct (negb (nid =? NidAny) && negb (rnid r =? nid));
    [| destruct (PfnSub (rend r) 1 <? rstart r); [| by destruct (PfnSub (rend r) 1 =? rstart r)]];
    (destruct (AllocatePage fp 1 nid) as [[]|]; cbn; [done |]; intros [= <-]; by apply IH).
Qed.

(** ** The ranges that [Main] frees *)

Section Passes.
Context `{Icl}.
Context (root kend_addr : Z) (reserved : list (Z * Z)).
Context (Hroot : 0 <= root < kend_addr) (Hkend : kend_addr < initial_map_end).
Implicit Types (e : E820.Entry) (m : Memory (list PageRange)).

Local Notation tr m := (translate (words m) root).
Local Notation tb m := (tab (words m) root).

Definition eend e : Z := E820.addr e + E820.length e.
(** Memory of at most 2^46 bytes. *)
Definition entry_ok e : Prop := 0 <= E820.addr e /\ 0 < E820.length e /\ eend e <= 2 ^ 46.
(** The pages that the mapping of an entry covers. *)
Definition efloor e : Z := page_floor (E820.addr e).
Definition eceil e : Z := page_ceil (eend e).
Definition entry_sep e e' : Prop := eceil e <= efloor e' \/ eceil e' <= efloor e.

(** The part of the entry above the kernel, in the two passes. *)
Definition part1 e : Z * Z := (Z.max (E820.addr e) kend_addr, Z.min (eend e) initial_map_end).
Definition part2 e : Z * Z := (Z.max (E820.addr e) initial_map_end, eend e).
Definition usable_page e p : Prop := clear_page reserved (Z.max (E820.addr e) kend_addr, eend e) p.

Lemma parts_page e p : entry_ok e -> usable_page e p <-> clear_page reserved (part1 e) p \/ clear_page reserved (part2 e) p.
Proof.
  intros (? & ? & ?). unfold usable_page, clear_page. rewrite !page_in_bounds. unfold part1, part2. cbn [fst snd].
  change initial_map_end with (0x40000 * 4096) in *. change kPageSize with 4096.
  split; [intros [? ?] | intros [[? ?]|[? ?]]].
  - destruct (decide (p < 0x40000)); [left | right]; (split; [lia | done]).
  - split; [lia | done].
  - split; [lia | done].
Qed.

(** What the first pass frees of an entry. *)
Lemma first_trim e : entry_ok e -> kend_addr < eend e ->
  let t := E820.TrimAbove initial_map_end (E820.TrimBelow kend_addr e) in
  E820.addr t = Z.max (E820.addr e) kend_addr /\
  (E820.addr t < initial_map_end -> E820.addr t + E820.length t = Z.min (eend e) initial_map_end).
Proof.
  unfold entry_ok, eend. intros (H0 & H1 & H2) Hk. assert (initial_map_end = 2 ^ 30) as Hi by done. rewrite Hi in *.
  unfold E820.TrimBelow. rewrite u64_small by lia.
  destruct (Z.ltb_spec kend_addr (E820.addr e)); cbn [orb].
  - unfold E820.TrimAbove. rewrite u64_small by lia.
    destruct (Z.ltb_spec (2 ^ 30) (E820.addr e)), (Z.ltb_spec (E820.addr e + E820.length e) (2 ^ 30)); cbn [orb E820.addr E820.length];
      rewrite ?u64_small by (rewrite ?u64_small; lia); rewrite ?u64_small by lia; lia.
  - destruct (Z.ltb_spec (E820.addr e + E820.length e) kend_addr); [lia |].
    unfold E820.TrimAbove. cbn [E820.addr E820.length]. rewrite (u64_small (kend_addr - _)), (u64_small (E820.length e - _)) by lia.
    rewrite u64_small by lia.
    destruct (Z.ltb_spec (2 ^ 30) kend_addr), (Z.ltb_spec (kend_addr + (E820.length e - (kend_addr - E820.addr e))) (2 ^ 30)); cbn [orb E820.addr E820.length];
      rewrite ?u64_small by (rewrite ?u64_small; lia); rewrite ?u64_small by lia; lia.
Qed.

Lemma second_trim e : entry_ok e -> initial_map_end <= eend e ->
  let t := E820.TrimBelow initial_map_end e in
  E820.addr t = (part2 e).1 /\ E820.addr t + E820.length t = (part2 e).2 /\ 0 <= E820.length t.
Proof.
  unfold entry_ok, eend, part2. intros (H0 & H1 & H2) Hk. assert (initial_map_end = 2 ^ 30) as Hi by done. rewrite Hi in *. cbn [fst snd].
  unfold E820.TrimBelow, eend. rewrite u64_small by lia.
  destruct (Z.ltb_spec (2 ^ 30) (E820.addr e)), (Z.ltb_spec (E820.addr e + E820.length e) (2 ^ 30)); cbn [orb E820.addr E820.length];
    rewrite ?u64_small by (rewrite ?u64_small; lia); rewrite ?u64_small by lia; lia.
Qed.

(** ** The first pass *)

Definition is_table m (p : Z) : Prop := 0 <= p < 2 ^ 40 /\ exists d va, (d <= 3)%nat /\ tb m d va = Some (ToAddr p).

Record Inv1 (done : list E820.Entry) m : Prop := {
  i1_ok : pt_ok (early_alloc NidAny) root m;
  i1_pages : forall p, cover (allocator m) p \/ is_table m p <-> exists e, e ∈ done /\ clear_page reserved (part1 e) p;
  i1_tr : forall va, canonical va ->
    tr m va = if decide (Exists (fun e => kend_addr < eend e /\ efloor e <= va < eceil e) done) then Some va else None;
  i1_tab : forall b, canonical b -> tb m 3 b <> None ->
    exists e, e ∈ done /\ meets (efloor e) (eceil e) b
}.

Lemma entry_bounds e : entry_ok e ->
  (kPageSize | efloor e) /\ (kPageSize | eceil e) /\ 0 <= efloor e <= E820.addr e /\ eend e <= eceil e < eend e + kPageSize /\
  efloor e < eceil e.
Proof.
  intros (H0 & H1 & H2). destruct (page_floor_spec (E820.addr e)) as [F1 F2], (page_ceil_spec (eend e)) as [C1 C2].
  unfold efloor, eceil, eend in *. split_and!; [done | done | destruct F1; change kPageSize with 4096 in *; lia | lia | lia | lia | lia].
Qed.

(** The pages of a part lie between the bounds of its entry. *)
Lemma part1_page e p : entry_ok e -> page_in (part1 e) p ->
  efloor e <= p * kPageSize /\ (p + 1) * kPageSize <= eceil e /\ kend_addr <= p * kPageSize /\ (p + 1) * kPageSize <= initial_map_end /\ 0 <= p < 2 ^ 40.
Proof.
  intros Hok. pose proof Hok as (H0 & H1 & H2). destruct (entry_bounds e Hok) as (_ & _ & B1 & B2 & _).
  rewrite page_in_bounds. unfold part1. cbn [fst snd]. change initial_map_end with (2 ^ 30) in *. change kPageSize with 4096 in *. lia.
Qed.
Lemma part2_page e p : entry_ok e -> page_in (part2 e) p ->
  efloor e <= p * kPageSize /\ (p + 1) * kPageSize <= eceil e /\ initial_map_end <= p * kPageSize /\ 0 <= p < 2 ^ 40.
Proof.
  intros Hok. pose proof Hok as (H0 & H1 & H2). destruct (entry_bounds e Hok) as (_ & _ & B1 & B2 & _).
  rewrite page_in_bounds. unfold part2. cbn [fst snd]. change initial_map_end with (2 ^ 30) in *. change kPageSize with 4096 in *. lia.
Qed.

Lemma ToAddr_inj p q : 0 <= p < 2 ^ 40 -> 0 <= q < 2 ^ 40 -> ToAddr p = ToAddr q -> p = q.
Proof. intros Hp Hq. rewrite !ToAddr_eq by lia. change kPageSize with 4096. lia. Qed.

#[export] Instance cover_dec l x : Decision (cover l x).
Proof.
  refine (cast_if (decide (Exists (fun r => rstart r <= x < rstart r + rnpages r) l))); rewrite Exists_exists in *; done.
Defined.

(** A region is freed between the parts that were freed before. *)
Lemma free_region_spec b l m :
  wf_ranges 0 (allocator m) -> 0 <= b -> 0 <= l -> b + l <= 2 ^ 46 ->
  (forall p, page_in (b, b + l) p -> ~ cover (allocator m) p) ->
  exists fp, free_region reserved b l m = Ok (mkMemory (words m) fp) /\ wf_ranges 0 fp /\
    forall p, cover fp p <-> cover (allocator m) p \/ clear_page reserved (b, b + l) p.
Proof.
  intros W Hb Hl Hbl Hfr. destruct (FreeMemoryRange_spec reserved NidAny (allocator m) b l) as (fp & E & W' & Hc);
    [done | done | done | change kPageSize with 4096; lia | done |].
  exists fp. unfold free_region. rewrite E. by split_and!.
Qed.

(** Pages added to the free ones stay apart from the tables. *)
Lemma pt_ok_free m fp : pt_ok (early_alloc NidAny) root m -> wf_ranges 0 fp ->
  (forall p, cover fp p -> cover (allocator m) p \/ 0 <= p < 2 ^ 40 /\ kend_addr <= p * kPageSize /\ ~ is_table m p) ->
  pt_ok (early_alloc NidAny) root (mkMemory (words m) fp).
Proof.
  intros ([W Hb] & HT & Hfr) W' Hc. split_and!; [split; [done |] | done |].
  - intros p Hp. destruct (Hc p Hp) as [?|[? _]]; [by apply Hb | cbn; lia].
  - intros p Hp. destruct (Hc p Hp) as [?|(Hr & Hk & Hnt)]; [by apply Hfr |]. split.
    + intros d va Hd Hp'. apply Hnt. split; [done |]. by exists d, va.
    + rewrite ToAddr_eq by lia. lia.
Qed.

Section Step.
Context (e : E820.Entry) (done : list E820.Entry) (He : entry_ok e) (Hdone : Forall entry_ok done).
Context (Hsep : Forall (entry_sep e) done).

Lemma done_sep e' : e' ∈ done -> entry_ok e' /\ entry_sep e e'.
Proof. rewrite !Forall_forall in *. auto. Qed.

(** No page is in a part of [e] and in a part of an entry that was done. *)
Lemma part1_fresh e' p : e' ∈ done -> page_in (part1 e) p -> page_in (part1 e') p -> False.
Proof.
  intros H' H1 H2. destruct (done_sep e' H') as [Ho Hs]. apply part1_page in H1, H2; [| done..].
  unfold entry_sep in Hs. change kPageSize with 4096 in *. lia.
Qed.

Lemma first_freed m : Inv1 done m -> kend_addr < eend e ->
  let t := E820.TrimAbove initial_map_end (E820.TrimBelow kend_addr e) in
  exists fp, (if E820.addr t <? initial_map_end then free_region reserved (E820.addr t) (E820.length t) m else Ok m) =
      Ok (mkMemory (words m) fp) /\
    (forall p, cover fp p <-> cover (allocator m) p \/ clear_page reserved (part1 e) p) /\
    pt_ok (early_alloc NidAny) root (mkMemory (words m) fp).
Proof.
  intros I Hk t. destruct (first_trim e He Hk) as [Ht1 Ht2]. fold t in Ht1, Ht2. pose proof He as (H0 & H1 & H2).
  pose proof (i1_ok _ _ I) as Hok. pose proof Hok as ([W _] & _ & _).
  assert (exists fp, (if E820.addr t <? initial_map_end then free_region reserved (E820.addr t) (E820.length t) m else Ok m) =
      Ok (mkMemory (words m) fp) /\ wf_ranges 0 fp /\
    (forall p, cover fp p <-> cover (allocator m) p \/ clear_page reserved (part1 e) p)) as (fp & E & W' & Hc).
  { destruct (Z.ltb_spec (E820.addr t) initial_map_end) as [Hlt|Hge].
    - specialize (Ht2 Hlt). change initial_map_end with (2 ^ 30) in *. unfold eend in *.
      assert (part1 e = (E820.addr t, E820.addr t + E820.length t)) as Hp1.
      { unfold part1, eend. change initial_map_end with (2 ^ 30). by rewrite Ht2, Ht1. }
      rewrite Hp1. apply free_region_spec; [done | lia | lia | lia |].
      intros p Hp Hcov. destruct (proj1 (i1_pages _ _ I p) (or_introl Hcov)) as (e' & He' & [Hp' _]).
      rewrite <- Hp1 in Hp. by eapply part1_fresh.
    - exists (allocator m). destruct m. split_and!; [done | done |]. intros p. split; [by left |]. intros [?|[Hp _]]; [done |].
      apply part1_page in Hp; [| done]. rewrite Ht1 in Hge. unfold part1 in *. change initial_map_end with (2 ^ 30) in *. unfold eend in *.
      change kPageSize with 4096 in *. destruct (entry_bounds e He) as (_ & _ & B1 & _). unfold efloor in *.
      destruct (page_floor_spec (E820.addr e)) as [_ F]. change kPageSize with 4096 in *. lia. }
  exists fp. split_and!; [done | done |]. apply pt_ok_free; [done | done |].
  intros p Hp. apply Hc in Hp as [?|Hp]; [by left | right]. destruct (part1_page e p He (proj1 Hp)) as (_ & _ & ? & _ & ?).
  split_and!; [lia | lia | done |]. intros Ht. destruct (proj1 (i1_pages _ _ I p) (or_intror Ht)) as (e' & He' & [Hp' _]).
  eapply part1_fresh; [done | apply Hp | done].
Qed.

Lemma first_unmapped m (fp : list PageRange) : Inv1 done m -> unmapped root (mkMemory (words m) fp) (efloor e) (eceil e).
Proof.
  intros I. destruct (entry_bounds e He) as (_ & _ & B1 & B2 & _). pose proof He as (H0 & H1 & H2).
  assert (forall x, efloor e <= x < eceil e -> canonical x) as Hcan
    by (intros x Hx; left; unfold eend in *; change kPageSize with 4096 in *; lia).
  split.
  - intros va Hva. cbn [words]. rewrite (i1_tr _ _ I) by auto. rewrite decide_False; [done |]. rewrite Exists_exists.
    intros (e' & He' & _ & Hin). destruct (done_sep e' He') as [_ Hs]. unfold entry_sep in Hs. lia.
  - intros b Hb. cbn [words]. destruct (tb m 3 b) eqn:E; [exfalso | done]. unfold in_large_page in Hb.
    pose proof (Z.mod_pos_bound b (page_step 1) ltac:(done)).
    destruct (i1_tab _ _ I b) as (e' & He' & Hm); [apply Hcan; lia | by rewrite E |].
    destruct (done_sep e' He') as [_ Hs]. unfold entry_sep, meets in *. lia.
Qed.

Lemma first_step m : Inv1 done m ->
  match first_region root kend_addr reserved e m with
  | Ok m' => Inv1 (e :: done) m'
  | Fail f => f = Aborted
  end.
Proof.
  intros I. unfold first_region. pose proof He as (H0 & H1 & H2). unfold eend in H2. rewrite u64_small by lia.
  assert (E820.addr e + E820.length e + kPageSize <= 2 ^ 47) as H47 by (change kPageSize with 4096; lia). fold (eend e) in H2 |- *.
  destruct (Z.leb_spec (eend e) kend_addr) as [Hle|Hk].
  - destruct I as [I1 I2 I3 I4]. split; [done | | |].
    + intros p. rewrite I2. split; [intros (e' & ? & ?); exists e'; split; [by right | done] |].
      intros (e' & He' & Hp). apply elem_of_cons in He' as [->|He']; [exfalso | by exists e'].
      destruct Hp as [Hp _]. rewrite page_in_bounds in Hp. unfold part1 in Hp. cbn [fst snd] in Hp. change kPageSize with 4096 in Hp. lia.
    + intros va Hva. rewrite I3 by done. apply decide_ext. rewrite Exists_cons. naive_solver lia.
    + intros b Hb Ht. destruct (I4 b Hb Ht) as (e' & ? & ?). exists e'. split; [by right | done].
  - destruct (first_freed m I Hk) as (fp & -> & Hc & Hok). rewrite bind_Ok.
    pose proof (EarlyMapMemory_spec (early_alloc NidAny) root (mkMemory (words m) fp) (E820.addr e) (E820.length e)
      (early_not_none NidAny) Hok H0 H1 H47 (first_unmapped m fp I)) as Hmap.
    fold (eend e) in Hmap. destruct (EarlyMapMemory _ _ _ _ _) as [m'|f].
    2: { destruct Hmap as (a & _ & _ & Ha). by apply early_fail in Ha. }
    fold (efloor e) (eceil e) in Hmap. destruct Hmap as (Hok' & Htr & Hfr & Hused & Htab & _ & Hnew & Hlat). cbn [words allocator] in *.
    split; [done | | |].
    + intros p. assert (cover (allocator m') p \/ is_table m' p <-> cover fp p \/ is_table m p) as ->.
      { split; intros [Hp|[Hr (d & va & Hd & Ht)]].
        - left. by apply Hfr.
        - destruct (Hnew d va _ Hd Ht) as [Ht'|(q & Hq & Hcq)]; [right; split; [done | by exists d, va] | left].
          destruct Hok as (Hi & _ & _). pose proof (fs_range fp q Hi Hcq). by rewrite (ToAddr_inj p q).
        - destruct (decide (cover (allocator m') p)) as [?|Hn]; [by left | right]. split; [apply (fs_range fp p); [apply Hok | done] |].
          by apply Hused.
        - right. split; [done |]. exists d, va. split; [done |]. by apply Hlat. }
      transitivity ((cover (allocator m) p \/ is_table m p) \/ clear_page reserved (part1 e) p); [rewrite Hc; tauto |].
      rewrite (i1_pages _ _ I). setoid_rewrite elem_of_cons. naive_solver.
    + intros va Hva. rewrite Htr, (i1_tr _ _ I) by done. case_decide as Hin.
      * rewrite decide_True by (rewrite Exists_cons; by left). f_equal. lia.
      * apply decide_ext. rewrite Exists_cons. naive_solver.
    + intros b Hb Ht. destruct (Htab b Hb Ht) as [Ht'|Hm]; [| exists e; split; [by left | done]].
      destruct (i1_tab _ _ I b Hb Ht') as (e' & ? & ?). exists e'. split; [by right | done].
Qed.
End Step.

Fixpoint pairwise_sep (es : list E820.Entry) : Prop :=
  match es with [] => True | e :: es => Forall (entry_sep e) es /\ pairwise_sep es end.

Lemma entry_sep_sym e e' : entry_sep e e' -> entry_sep e' e.
Proof. unfold entry_sep. tauto. Qed.

Lemma first_pass es : forall dn m, Forall entry_ok es -> Forall entry_ok dn -> pairwise_sep es ->
  Forall (fun e => Forall (entry_sep e) dn) es -> Inv1 dn m ->
  match each_entry (first_region root kend_addr reserved) es m with
  | Ok m' => Inv1 (rev es ++ dn) m'
  | Fail f => f = Aborted
  end.
Proof.
  induction es as [|e es IH]; intros dn m Hok Hd Hps Hs I; cbn [each_entry rev]; [done |].
  destruct Hps as [Hp Hps].
  apply Forall_cons in Hok as [He Hok], Hs as [Hse Hs].
  pose proof (first_step e dn He Hd Hse m I) as Hst.
  destruct (first_region _ _ _ e m) as [m1|f]; cbn [mbind outcome_bind]; [| done].
  rewrite <- app_assoc. apply IH; [done | by constructor | done | | done].
  rewrite Forall_forall in *. intros e' He'. constructor; [by apply entry_sep_sym, Hp | by apply Hs].
Qed.

(** ** The second pass *)

Record Inv2 (m1 : Memory (list PageRange)) (done : list E820.Entry) m : Prop := {
  i2_words : words m = words m1;
  i2_ok : pt_ok (early_alloc NidAny) root m;
  i2_pages : forall p, cover (allocator m) p <-> cover (allocator m1) p \/ exists e, e ∈ done /\ clear_page reserved (part2 e) p
}.

Section Second.
Context (all : list E820.Entry) (Hall : Forall entry_ok all) (m1 : Memory (list PageRange)) (I1 : Inv1 all m1).

(** Pages and tables of the first pass are below [initial_map_end]. *)
Lemma first_below p : cover (allocator m1) p \/ is_table m1 p -> (p + 1) * kPageSize <= initial_map_end.
Proof.
  intros Hp. apply (i1_pages _ _ I1) in Hp as (e & He & [Hp _]). rewrite Forall_forall in Hall.
  destruct (part1_page e p (Hall e He) Hp) as (_ & _ & _ & ? & _). done.
Qed.

Lemma second_step e dn m : entry_ok e -> Forall entry_ok dn -> Forall (entry_sep e) dn -> Inv2 m1 dn m ->
  exists m', second_region reserved e m = Ok m' /\ Inv2 m1 (e :: dn) m'.
Proof.
  intros He Hd Hs I. unfold second_region. pose proof He as (H0 & H1 & H2). unfold eend in H2. rewrite u64_small by lia. fold (eend e) in H2 |- *.
  destruct I as [Iw Io Ip]. destruct (Z.ltb_spec (eend e) initial_map_end) as [Hlt|Hge].
  - exists m. split; [done |]. split; [done | done |]. intros p. rewrite Ip. setoid_rewrite elem_of_cons.
    assert (~ page_in (part2 e) p) as Hn.
    { rewrite page_in_bounds. unfold part2. cbn [fst snd]. change kPageSize with 4096. lia. }
    unfold clear_page. naive_solver.
  - destruct (second_trim e He Hge) as (Ht1 & Ht2 & Ht3). set (t := E820.TrimBelow initial_map_end e) in *.
    assert (part2 e = (E820.addr t, E820.addr t + E820.length t)) as Hp2 by (rewrite Ht2, Ht1; by destruct (part2 e)).
    assert (forall p, page_in (part2 e) p -> ~ cover (allocator m) p) as Hfr.
    { intros p Hp Hc. apply Ip in Hc as [Hc|(e' & He' & [Hp' _])].
      - pose proof (first_below p (or_introl Hc)). apply part2_page in Hp; [| done]. change kPageSize with 4096 in *. lia.
      - rewrite Forall_forall in *. specialize (Hs e' He'). apply part2_page in Hp, Hp'; [| auto..].
        unfold entry_sep in Hs. change kPageSize with 4096 in *. lia. }
    pose proof Io as ([W _] & _ & _).
    destruct (free_region_spec (E820.addr t) (E820.length t) m) as (fp & E & W' & Hc).
    + done.
    + rewrite Ht1. unfold part2. cbn. change initial_map_end with (2 ^ 30). lia.
    + done.
    + rewrite Ht2. by unfold part2.
    + by rewrite <- Hp2.
    + rewrite E. eexists. split; [done |]. rewrite <- Hp2 in Hc. split; cbn [words allocator]; [done | |].
      * apply pt_ok_free; [done | done |]. intros p Hp. apply Hc in Hp as [?|[Hp _]]; [by left | right].
        destruct (part2_page e p He Hp) as (_ & _ & B1 & B2). change kPageSize with 4096 in *. split_and!; [lia | lia | lia |].
        intros Ht. assert (is_table m1 p) as Ht1' by (unfold is_table in *; by rewrite <- Iw).
        pose proof (first_below p (or_intror Ht1')). change kPageSize with 4096 in *. lia.
      * intros p. rewrite Hc, Ip. setoid_rewrite elem_of_cons. naive_solver.
Qed.

Lemma second_pass es : forall dn m, Forall entry_ok es -> Forall entry_ok dn -> pairwise_sep es ->
  Forall (fun e => Forall (entry_sep e) dn) es -> Inv2 m1 dn m ->
  exists m', each_entry (second_region reserved) es m = Ok m' /\ Inv2 m1 (rev es ++ dn) m'.
Proof.
  induction es as [|e es IH]; intros dn m Hok Hd Hps Hs I; cbn [each_entry rev]; [by exists m |].
  destruct Hps as [Hp Hps].
  apply Forall_cons in Hok as [He Hok], Hs as [Hse Hs].
  destruct (second_step e dn m He Hd Hse I) as (m2 & -> & I2). rewrite bind_Ok.
  destruct (IH (e :: dn) m2) as (m' & -> & I'); [done | by constructor | done | | done |].
  - rewrite Forall_forall in *. intros e' He'. constructor; [by apply entry_sep_sym, Hp | by apply Hs].
  - exists m'. split; [done |]. by rewrite <- app_assoc.
Qed.
End Second.
End Passes.

Lemma elem_of_rev {A} (x : A) l : x ∈ rev l <-> x ∈ l.
Proof. by rewrite !list_elem_of_In, <- in_rev. Qed.

Lemma start_Inv1 root kend_addr reserved : Inv1 root kend_addr reserved [] (mkMemory ∅ []).
Proof.
  split; cbn [words allocator].
  - split_and!; [split; [done |]; intros p Hp; by apply cover_nil in Hp | split |].
    + intros d va d' va' p _ _. by rewrite empty_tab.
    + intros d va p _. by rewrite empty_tab.
    + intros d va p _. by rewrite empty_tab.
    + intros p Hp. by apply cover_nil in Hp.
  - intros p. rewrite cover_nil. split; [intros [[]|(_ & d & va & _ & Ht)]; by rewrite empty_tab in Ht |].
    intros (e & He & _). by apply elem_of_nil in He.
  - intros va _. rewrite decide_False; [done | by intros []%Exists_nil].
  - intros b _. by rewrite empty_tab.
Qed.

(** The free pages and the tables together are the usable pages above the
    kernel that are not reserved; usable memory is mapped to itself. *)
Definition memory_ready (root kend_addr : Z) (reserved : list (Z * Z)) (es : list E820.Entry) (m : Memory (list PageRange)) : Prop :=
  pt_ok (early_alloc NidAny) root m /\
  (forall p, cover (allocator m) p \/ is_table root m p <-> exists e, e ∈ es /\ usable_page kend_addr reserved e p) /\
  (forall p, cover (allocator m) p -> ~ is_table root m p) /\
  (forall e va, e ∈ es -> kend_addr < eend e -> E820.addr e <= va < eend e -> translate (words m) root va = Some va) /\
  (forall va, canonical va -> (forall e, e ∈ es -> ~ efloor e <= va < eceil e) -> translate (words m) root va = None).

Lemma passes_ready `{Icl} root kend_addr reserved es :
  0 <= root < kend_addr -> kend_addr < initial_map_end -> Forall entry_ok es -> pairwise_sep es ->
  match (m ← each_entry (first_region root kend_addr reserved) es (mkMemory ∅ []); each_entry (second_region reserved) es m) with
  | Ok m => memory_ready root kend_addr reserved es m
  | Fail f => f = Aborted
  end.
Proof.
  intros Hr Hk Hok Hsep.
  pose proof (first_pass root kend_addr reserved Hr Hk es [] (mkMemory ∅ []) Hok ltac:(constructor) Hsep
    ltac:(by apply Forall_forall; constructor) (start_Inv1 _ _ _)) as Hf.
  destruct (each_entry (first_region root kend_addr reserved) es _) as [m1|f]; cbn [mbind outcome_bind]; [| done].
  rewrite app_nil_r in Hf. assert (Forall entry_ok (rev es)) as Hokr by (rewrite Forall_forall in *; intros e He; apply Hok; by apply elem_of_rev).
  destruct (second_pass root kend_addr reserved Hr Hk (rev es) Hokr m1 Hf es [] m1 Hok ltac:(constructor) Hsep
    ltac:(by apply Forall_forall; constructor)) as (m & -> & I2).
  { split; [done | apply Hf |]. intros p. split; [by left |]. intros [?|(e & He & _)]; [done |]. by apply elem_of_nil in He. }
  rewrite app_nil_r in I2. destruct I2 as [Iw Io Ip].
  assert (forall p, is_table root m p <-> is_table root m1 p) as Ht by (intros p; unfold is_table; by rewrite Iw).
  assert (forall p, cover (allocator m) p -> ~ is_table root m p) as Hdis.
  { intros p Hc [_ (d & va & Hd & Hp)]. destruct Io as (_ & _ & Hfr). destruct (Hfr p Hc) as [Hn _]. by apply (Hn d va Hd). }
  split_and!; [done | | done | |].
  - intros p. rewrite Ht, Ip. setoid_rewrite elem_of_rev.
    transitivity ((cover (allocator m1) p \/ is_table root m1 p) \/ exists e, e ∈ es /\ clear_page reserved (part2 e) p); [tauto |].
    rewrite (i1_pages _ _ _ _ _ Hf). setoid_rewrite elem_of_rev. rewrite Forall_forall in Hok. split.
    + intros [(e & He & Hp)|(e & He & Hp)]; exists e; (split; [done |]); apply parts_page; auto.
    + intros (e & He & Hp). apply parts_page in Hp as [Hp|Hp]; [left | right | done | by apply Hok]; by exists e.
  - intros e va He Hke Hva. rewrite Iw. rewrite Forall_forall in Hok. pose proof (Hok e He) as Heo. pose proof Heo as (H0 & H1 & H2).
    destruct (entry_bounds e Heo) as (_ & _ & B1 & B2 & _). rewrite (i1_tr _ _ _ _ _ Hf) by (left; unfold eend in *; lia).
    rewrite decide_True; [done |]. apply Exists_exists. exists e. rewrite elem_of_rev. split_and!; [done | done | lia | lia].
  - intros va Hva Hout. rewrite Iw, (i1_tr _ _ _ _ _ Hf) by done. rewrite decide_False; [done |]. rewrite Exists_exists.
    intros (e & He & _ & Hin). apply (Hout e); [by apply elem_of_rev | done].
Qed.

Lemma boot_memory_spec `{Icl} `{StdSort} root kend_addr mem mbi_addr mbi map reserved :
  e820_Init mem mbi = Ok map -> Reserve mem mbi_addr mbi [] = Ok reserved ->
  0 <= root < kend_addr -> kend_addr < initial_map_end ->
  Forall entry_ok (E820.usable map) -> pairwise_sep (E820.usable map) ->
  match boot_memory root kend_addr mem mbi_addr mbi with
  | Ok (map', m) => map' = map /\ memory_ready root kend_addr reserved (E820.usable map) m
  | Fail f => f = Aborted
  end.
Proof.
  intros Hm Hres Hr Hk Hok Hsep. unfold boot_memory. rewrite Hm, bind_Ok, Hres, bind_Ok.
  pose proof (passes_ready root kend_addr reserved (E820.usable map) Hr Hk Hok Hsep) as Hp.
  destruct (each_entry (first_region root kend_addr reserved) _ _) as [m1|f]; cbn [mbind outcome_bind] in *; [| done].
  destruct (each_entry (second_region reserved) _ m1) as [m|f]; cbn; [by split | done].
Qed.


(** ** A machine *)

(** Insertion sort is a std::sort. *)
Fixpoint sort_insert {A} (lt : A -> A -> bool) (x : A) (l : list A) : list A :=
  match l with
  | [] => [x]
  | y :: l => if lt y x then y :: sort_insert lt x l else x :: y :: l
  end.
Definition insertion_sort {A} (lt : A -> A -> bool) (l : list A) : list A := foldr (sort_insert lt) [] l.

Section InsertionSort.
Context {A : Type} (f : A -> Z).
#[local] Notation lt := (fun x y : A => f x <? f y).
Lemma sort_insert_perm x l : sort_insert lt x l ≡ₚ x :: l.
Proof. induction l as [|y l IH]; cbn; [done |]. destruct (f y <? f x); [| done]. rewrite IH. constructor. Qed.
Lemma insertion_sort_perm l : insertion_sort lt l ≡ₚ l.
Proof. induction l as [|x l IH]; cbn; [done |]. by rewrite sort_insert_perm, IH. Qed.
Lemma sort_insert_sorted x l :
  StronglySorted (fun x y => f x <= f y) l -> StronglySorted (fun x y => f x <= f y) (sort_insert lt x l).
Proof.
  induction 1 as [|y l Hl IH Hy]; cbn; [by repeat constructor |].
  destruct (Z.ltb_spec (f y) (f x)).
  - constructor; [done |]. rewrite sort_insert_perm. constructor; [lia | done].
  - constructor; [by constructor |]. constructor; [lia |]. eapply Forall_impl; [exact Hy |]. cbn. lia.
Qed.
Lemma insertion_sort_sorted l : StronglySorted (fun x y => f x <= f y) (insertion_sort lt l).
Proof. induction l as [|x l IH]; cbn; [constructor |]. by apply sort_insert_sorted. Qed.
End InsertionSort.

Definition sort_impl : StdSort := {|
  std_sort := @insertion_sort; std_sort_perm := @insertion_sort_perm; std_sort_sorted := @insertion_sort_sorted |}.

(** A boot loader that reports 16 MiB from the first megabyte on, and no modules. *)
Definition le_bytes (n : nat) (v : Z) : list Z := (fun k : nat => u8 (Z.shiftr v (8 * Z.of_nat k))) <$> seq 0 n.
Definition store_bytes (a : Z) (l : list Z) (mem : bytes) : bytes :=
  foldr (fun p m => <[fst p := snd p]> m) mem (imap (fun k b => (a + Z.of_nat k, b)) l).
Definition w_mem : bytes :=
  store_bytes 0x8000 (le_bytes 4 20 ++ le_bytes 8 0x100000 ++ le_bytes 8 0x1000000 ++ le_bytes 4 1) ∅.
Definition w_mbi : Information := mkInformation false 0 false 0 0 24 0x8000.
Definition w_map : list E820.Entry := [E820.mkEntry 0x100000 0x1000000 1].

Lemma w_e820 : @e820_Init sort_impl w_mem w_mbi = Ok w_map.
Proof. by vm_compute. Qed.
Lemma w_reserve : Reserve w_mem 0x9000 w_mbi [] = Ok [(0x9000, 0x9058)].
Proof. by vm_compute. Qed.
Lemma w_boots : match @boot_memory icl_impl sort_impl 0x1ff000 0x200000 w_mem 0x9000 w_mbi with Ok _ => true | Fail _ => false end = true.
Proof. by vm_compute. Qed.

