(* ===== verification/BootPages.v ===== *)
(** * From the early page allocator to the page allocator

    Theorems about the second half of Boot.v on a machine without an SRAT: the
    one NUMA node gets all processors and all usable memory, every free range
    gets its number, the memory map gets the descriptors of all usable pages,
    and the page allocator starts with exactly the pages that are left. *)

From Stdlib Require Import Sorting.Sorted.
From S2P Require Import Prelude Pfn MemMap PageAllocator BuddyInvariant BuddyChecker BuddyCorrect BuddyInit VMemAllocator VMem VMemCorrect VMemWalk VMemMap EarlyPageAllocator Boot BootCorrect.

(** ** Blocks of memory *)

Definition in_block (b : Memblock) (x : Z) : Prop := mstart b <= x < mend b.
Definition block_ok (b : Memblock) : Prop := 0 <= mstart b < mend b /\ mend b <= 2 ^ 31 /\ mnid b = 0.
Definition inside (r : PageRange) (b : Memblock) : Prop := mstart b <= rstart r /\ rstart r + rnpages r <= mend b.
Definition apart (r : PageRange) (b : Memblock) : Prop := rstart r + rnpages r <= mstart b \/ mend b <= rstart r.
Definition before (b b' : Memblock) : Prop := mend b <= mstart b'.
Definition on_node (l : list PageRange) : Prop := forall r, r ∈ l -> rnid r = 0.

Lemma first_covered lo l r : wf_ranges lo l -> r ∈ l -> cover l (rstart r) /\ 0 < rnpages r.
Proof. intros W Hr. pose proof (wf_range_in _ _ _ W Hr). split; [| lia]. exists r. split; [done | unfold range_pages; lia]. Qed.

Section SetNids.
Context (dn : list Memblock) (b : Memblock) (ms : list Memblock) (l : list PageRange).
Context (Hok : Forall block_ok (dn ++ b :: ms)) (Hdn : forall b', b' ∈ dn -> before b' b) (Hms : Forall (before b) ms).
Context (W : wf_ranges 0 l) (Hcov : forall x, cover l x -> exists b', b' ∈ dn ++ b :: ms /\ in_block b' x).
Context (Hl : forall r, r ∈ l -> (exists b', b' ∈ dn /\ inside r b' /\ rnid r = 0) \/ (forall b', b' ∈ dn -> apart r b')).

(** A range that begins before the block ends before it. *)
Lemma block_no_straddle : no_straddle (mstart b) (mend b) l.
Proof using Hok Hdn Hms W Hcov Hl.
  intros r Hr [H1 H2]. destruct (first_covered _ _ _ W Hr) as [Hc Hp]. destruct (Hcov _ Hc) as (b0 & Hb0 & Hin).
  unfold in_block in Hin. apply elem_of_app in Hb0 as [Hb0|[->|Hb0]%elem_of_cons]; [| lia |].
  - destruct (Hl r Hr) as [(b1 & Hb1 & [_ ?] & _)|Hap].
    + specialize (Hdn _ Hb1). unfold before in Hdn. rewrite Forall_forall in Hok.
      destruct (Hok b) as (? & _); [rewrite elem_of_app, elem_of_cons; tauto | lia].
    + specialize (Hap _ Hb0). unfold apart in Hap. lia.
  - rewrite Forall_forall in Hms. specialize (Hms _ Hb0). unfold before in Hms.
    rewrite Forall_forall in Hok. destruct (Hok b) as (? & _); [rewrite elem_of_app, elem_of_cons; tauto | lia].
Qed.

Lemma block_set : exists l', SetNidRange l (mstart b) (mend b) (mnid b) = Ok l' /\ wf_ranges 0 l' /\
  (forall x, cover l' x <-> cover l x) /\
  forall r, r ∈ l' -> (exists b', b' ∈ b :: dn /\ inside r b' /\ rnid r = 0) \/ (forall b', b' ∈ b :: dn -> apart r b').
Proof using Hok Hdn Hms W Hcov Hl.
  assert (block_ok b) as (H0 & H1 & H2) by (rewrite Forall_forall in Hok; apply Hok; rewrite elem_of_app, elem_of_cons; tauto).
  destruct (SetNidRange_spec l (mstart b) (mend b) (mnid b) W H0 ltac:(lia) block_no_straddle) as (l' & E & W' & Hc & Hn).
  exists l'. split_and!; [done.. |]. intros r Hr. destruct (Hn r Hr) as [(? & ? & ?)|[Hout Hold]].
  - left. exists b. split; [by left |]. unfold inside. split; [done | congruence].
  - assert (apart r b) as Hab by (unfold apart; lia). destruct Hold as [Ho|(r0 & Ho & B1 & B2 & B3 & B4)].
    + destruct (Hl r Ho) as [(b' & ? & ?)|Hap]; [left; exists b'; split; [by right | done] |].
      right. intros b' [->|?]%elem_of_cons; [done | by apply Hap].
    + destruct (Hl r0 Ho) as [(b' & Hb' & [_ ?] & _)|Hap].
      * specialize (Hdn _ Hb'). unfold before in Hdn. lia.
      * right. intros b' [->|Hb']%elem_of_cons; [done |]. specialize (Hap _ Hb'). unfold apart in *. lia.
Qed.
End SetNids.

(** All free ranges are cut at the bounds of the blocks and get the node. *)
Lemma set_nids_spec ms : forall dn l,
  Forall block_ok (dn ++ ms) -> (forall b b', b ∈ dn -> b' ∈ ms -> before b b') -> StronglySorted before ms ->
  wf_ranges 0 l -> (forall x, cover l x -> exists b', b' ∈ dn ++ ms /\ in_block b' x) ->
  (forall r, r ∈ l -> (exists b', b' ∈ dn /\ inside r b' /\ rnid r = 0) \/ (forall b', b' ∈ dn -> apart r b')) ->
  exists l', set_nids ms l = Ok l' /\ wf_ranges 0 l' /\ (forall x, cover l' x <-> cover l x) /\ on_node l'.
Proof.
  induction ms as [|b ms IH]; intros dn l Hok Hdn Hs W Hcov Hl; cbn [set_nids].
  - exists l. split_and!; [done.. |]. intros r Hr. destruct (Hl r Hr) as [(b' & _ & _ & ?)|Hap]; [done | exfalso].
    destruct (first_covered _ _ _ W Hr) as [Hc Hp]. destruct (Hcov _ Hc) as (b' & Hb' & Hin). rewrite app_nil_r in Hb'.
    specialize (Hap _ Hb'). unfold apart, in_block in *. lia.
  - apply StronglySorted_inv in Hs as [Hs Hb].
    destruct (block_set dn b ms l Hok ltac:(intros; apply Hdn; [done | by left]) Hb W Hcov Hl) as (l1 & -> & W1 & Hc1 & Hl1).
    rewrite bind_Ok. destruct (IH (b :: dn) l1) as (l' & -> & W' & Hc' & Hn); [| | done | done | | done |].
    + rewrite Forall_forall in *. intros b'. rewrite elem_of_app, elem_of_cons. intros Hb'. apply Hok.
      rewrite elem_of_app, elem_of_cons. tauto.
    + rewrite Forall_forall in Hb. intros b1 b2 [->|H1]%elem_of_cons H2; [by apply Hb |]. apply Hdn; [done | by right].
    + intros x Hx. apply Hc1, Hcov in Hx as (b' & Hb' & ?). exists b'. split; [| done].
      rewrite elem_of_app, elem_of_cons in *. tauto.
    + exists l'. split_and!; [done.. | | done]. intros x. by rewrite Hc', Hc1.
Qed.

(** Blocks that do not overlap, in any order. *)
Definition blocks_sep (ms : list Memblock) : Prop :=
  NoDup ms /\ forall b b', b ∈ ms -> b' ∈ ms -> b <> b' -> before b b' \/ before b' b.

Lemma sorted_before ms : Forall block_ok ms -> blocks_sep ms ->
  StronglySorted (fun x y => mstart x <= mstart y) ms -> StronglySorted before ms.
Proof.
  intros Hok [Hnd Hsep] Hs. induction Hs as [|b ms Hs IH Hb]; [constructor |].
  apply Forall_cons in Hok as [Hbo Hok]. apply NoDup_cons in Hnd as [Hni Hnd].
  constructor; [apply IH; [done | done |]; intros; apply Hsep; try (by right); done |].
  rewrite Forall_forall in *. intros b' Hb'. destruct (Hsep b b') as [?|Hbb]; [by left | by right | by intros -> | done |].
  specialize (Hb _ Hb'). destruct (Hok _ Hb') as [? _]. unfold before in *. lia.
Qed.

Lemma blocks_sep_perm ms ms' : ms ≡ₚ ms' -> blocks_sep ms -> blocks_sep ms'.
Proof. intros P [Hnd Hsep]. split; [by rewrite <- P |]. intros b b'. rewrite <- P. apply Hsep. Qed.

(** numa::Init on one node. *)
Lemma numa_Init_one `{StdSort} n nd fp :
  nodes n = [nd] -> Forall block_ok (memblocks nd) -> blocks_sep (memblocks nd) ->
  wf_ranges 0 fp -> (forall x, cover fp x -> exists b, b ∈ memblocks nd /\ in_block b x) ->
  exists ms fp', numa_Init n fp = Ok (mkNuma [node_span ms] (pxm_to_node_map n) (node_to_pxm_map n), fp') /\
    ms ≡ₚ memblocks nd /\ wf_ranges 0 fp' /\ (forall x, cover fp' x <-> cover fp x) /\ on_node fp'.
Proof.
  intros Hn Hok Hsep W Hcov. unfold numa_Init. rewrite Hn. cbn [init_nodes].
  set (ms := std_sort memblock_lt (memblocks nd)).
  assert (ms ≡ₚ memblocks nd) as P by apply (std_sort_perm mstart).
  assert (StronglySorted (fun x y => mstart x <= mstart y) ms) as Hs by apply (std_sort_sorted mstart).
  assert (Forall block_ok ms) as Hok' by (by rewrite P).
  destruct (set_nids_spec ms [] fp) as (fp' & -> & W' & Hc & Hon); [done | | | done | | |].
  - by intros b b' ?%elem_of_nil.
  - apply sorted_before; [done | | done]. eapply blocks_sep_perm; [| done]. done.
  - intros x Hx. setoid_rewrite P. by apply Hcov.
  - intros r Hr. right. by intros b' ?%elem_of_nil.
  - exists ms, fp'. by split_and!.
Qed.

Lemma memblocks_span ms : memblocks (node_span ms) = ms.
Proof. unfold node_span. destruct ms as [|b ms]; [done |]. by destruct (last (b :: ms)). Qed.

(** ** The memory map *)

(** A section word while the sections are being marked: absent, or node 0. *)
Definition early_word (w : Z) : Prop := w = 0 \/ w = 1.

(** Section [i] has a page of the block. *)
Definition meets_section (i : Z) (b : Memblock) : Prop := mstart b - mstart b mod kPagesPerSection <= i * kPagesPerSection < mend b.
#[export] Instance meets_section_dec i b : Decision (meets_section i b).
Proof. unfold meets_section. apply _. Defined.

Lemma mark_sections_spec fuel : forall pfn end_ ss,
  0 <= pfn -> (kPagesPerSection | pfn) -> end_ <= kPagesPerSection * Z.of_nat (length ss) -> end_ <= 2 ^ 60 ->
  end_ <= pfn + kPagesPerSection * Z.of_nat fuel -> Forall early_word ss ->
  exists ss', mark_sections fuel pfn end_ 0 ss = Ok ss' /\ Forall early_word ss' /\
    forall i : nat, ss' !! i = (fun w => if decide (pfn <= Z.of_nat i * kPagesPerSection < end_) then 1 else w) <$> ss !! i.
Proof.
  change kPagesPerSection with 32768.
  induction fuel as [|fuel IH]; intros pfn end_ ss H0 [k Hk] Hlen H60 Hf Hw; cbn [mark_sections];
    (destruct (Z.ltb_spec pfn end_) as [Hlt|Hge];
      [| exists ss; split_and!; [done | done |]; intros i; destruct (ss !! i); [| done]; cbn; by rewrite decide_False by lia]); [lia |].
  assert (Z.shiftr pfn kPfnSectionShift = k) as -> by (rewrite Z.shiftr_div_pow2 by done; change (2 ^ kPfnSectionShift) with 32768; by rewrite Hk, Z.div_mul).
  destruct (lookup_lt_is_Some_2 ss (Z.to_nat k)) as [w Hk']; [lia |]. rewrite Hk'.
  set (ss1 := if Section_.Present w then ss else <[Z.to_nat k := Section_.SetEarlyNid 0]> ss).
  assert (w = 0 \/ w = 1) as Hww by (rewrite Forall_forall in Hw; apply Hw; by eapply list_elem_of_lookup_2).
  assert (ss1 = <[Z.to_nat k := 1]> ss) as ->.
  { unfold ss1. destruct Hww as [-> | ->]; [done |]. symmetry. by apply list_insert_id. }
  change kPagesPerSection with 32768. rewrite u64_small by lia.
  destruct (IH (pfn + 32768) end_ (<[Z.to_nat k := 1]> ss)) as (ss' & -> & Hw' & Hss').
  { lia. } { exists (k + 1). lia. } { rewrite length_insert. lia. } { done. } { lia. } { apply Forall_insert; [done | by right]. }
  exists ss'. split_and!; [done | done |]. intros i. rewrite Hss'. destruct (decide (i = Z.to_nat k)) as [->|Hne].
  - rewrite list_lookup_insert_eq by (by eapply lookup_lt_Some). rewrite Hk'. cbn. rewrite (decide_True (P := pfn <= _ < _)) by lia. by destruct (decide _).
  - rewrite list_lookup_insert_ne by done. destruct (ss !! i); [| done]. cbn. f_equal. apply decide_ext. lia.
Qed.

Lemma mark_blocks_spec ms : forall ss,
  Forall block_ok ms -> 2 ^ 31 <= kPagesPerSection * Z.of_nat (length ss) -> Forall early_word ss ->
  exists ss', mark_blocks ms ss = Ok ss' /\ Forall early_word ss' /\
    forall i : nat, ss' !! i = (fun w => if decide (Exists (meets_section (Z.of_nat i)) ms) then 1 else w) <$> ss !! i.
Proof.
  induction ms as [|b ms IH]; intros ss Hok Hlen Hw; cbn [mark_blocks].
  - exists ss. split_and!; [done | done |]. intros i. destruct (ss !! i); [| done]. cbn. rewrite decide_False; [done |].
    by intros ?%Exists_nil.
  - apply Forall_cons in Hok as [(H0 & H1 & H2) Hok]. unfold mark_block. rewrite H2.
    assert (Z.land (mstart b) kPageSectionMask = mstart b - mstart b mod kPagesPerSection) as ->.
    { change kPageSectionMask with (Z.lnot (Z.ones 15)). rewrite <- Z.ldiff_land, Z.ldiff_ones_r by done.
      rewrite Z.shiftl_mul_pow2, Z.shiftr_div_pow2 by done. change kPagesPerSection with 32768. change (2 ^ 15) with 32768. pose proof (Z.div_mod (mstart b) 32768). lia. }
    destruct (mark_sections_spec (S (length ss)) (mstart b - mstart b mod kPagesPerSection) (mend b) ss) as (s1 & -> & Hw1 & Hs1);
      change kPagesPerSection with 32768 in *; [pose proof (Z.mod_le (mstart b) 32768); lia | | lia | lia | pose proof (Z.mod_pos_bound (mstart b) 32768); lia | done |].
    { exists (mstart b / 32768). pose proof (Z.div_mod (mstart b) 32768). lia. }
    rewrite bind_Ok. assert (length s1 = length ss) as Hl1.
    { apply Nat.le_antisymm; apply Nat.nlt_ge; intros Hlt.
      - apply lookup_lt_is_Some_2 in Hlt as [w Hx]. rewrite Hs1 in Hx. by rewrite (lookup_ge_None_2 ss) in Hx by lia.
      - apply lookup_lt_is_Some_2 in Hlt as [w Hx]. specialize (Hs1 (length s1)). rewrite Hx in Hs1. by rewrite (lookup_ge_None_2 s1) in Hs1 by lia. }
    destruct (IH s1 Hok ltac:(rewrite Hl1; lia) Hw1) as (s2 & -> & Hw2 & Hs2). exists s2. split_and!; [done | done |].
    intros i. rewrite Hs2, Hs1. destruct (ss !! i) as [w|]; [| done]. cbn. f_equal. unfold meets_section. change kPagesPerSection with 32768.
    destruct (decide (Exists _ ms)) as [He|He]; [by rewrite decide_True by (rewrite Exists_cons; by right) |].
    apply decide_ext. rewrite Exists_cons. tauto.
Qed.

Lemma AllocatePage_nids n nid l p l' : AllocatePage l n nid = Ok (p, l') -> forall r', r' ∈ l' -> exists r, r ∈ l /\ rnid r' = rnid r.
Proof.
  revert l'. induction l as [|r l IH]; intros l'; cbn [AllocatePage]; [done |].
  assert (forall o : outcome (Z * list PageRange), o = ('(p, l1) ← AllocatePage l n nid; Ok (p, r :: l1)) -> o = Ok (p, l') ->
    forall r', r' ∈ l' -> exists r0, r0 ∈ r :: l /\ rnid r' = rnid r0) as Hrec.
  { intros o -> E. destruct (AllocatePage l n nid) as [[p1 l1]|] eqn:El; cbn in E; [| done]. injection E as -> <-.
    intros r' [->|Hr']%elem_of_cons; [exists r; split; [by left | done] |].
    destruct (IH l1 eq_refl r' Hr') as (r0 & ? & ?). exists r0. split; [by right | done]. }
  destruct (negb (nid =? NidAny) && negb (rnid r =? nid)); [by apply Hrec |].
  destruct (PfnSub (rend r) n <? rstart r); [by apply Hrec |].
  destruct (PfnSub (rend r) n =? rstart r); intros [= <- <-] r' Hr'.
  - exists r'. split; [by right | done].
  - apply elem_of_cons in Hr' as [->|?]; [exists r; split; [by left | done] | exists r'; split; [by right | done]].
Qed.

Lemma new_pages_lookup n nid mm : forall pfn x,
  new_pages n pfn nid mm !! x = if decide (pfn <= x < pfn + Z.of_nat n) then Some (new_Page nid) else mm !! x.
Proof.
  revert mm. induction n as [|n IH]; intros mm pfn x; cbn [new_pages]; [by rewrite decide_False by lia |].
  rewrite IH. destruct (decide (x = pfn)) as [->|Hne].
  - rewrite decide_False, lookup_insert_eq, decide_True by lia. done.
  - rewrite lookup_insert_ne by done. apply decide_ext. lia.
Qed.

Section Maps.
Context (sz : Z).
#[local] Notation n := (section_map_pages sz).
Context (Hn : 0 < n).

(** [M] gives the first frame of the array of each section that has one: the
    arrays are apart, and what they take is no longer free. *)
Definition mapped_sections (i : Z) (ss : list Z) fp (ss' : list Z) fp' (M : nat -> Z) : Prop :=
  (forall k, ss !! k = Some 1 -> ss' !! k = Some (Section_.SetMap sz (ToAddr (M k)) (i + Z.of_nat k))) /\
  (forall x, cover fp x <-> cover fp' x \/ exists k, ss !! k = Some 1 /\ M k <= x < M k + n) /\
  (forall k x, ss !! k = Some 1 -> M k <= x < M k + n -> ~ cover fp' x) /\
  (forall k k' x, ss !! k = Some 1 -> ss !! k' = Some 1 -> M k <= x < M k + n -> M k' <= x < M k' + n -> k = k').

Definition descriptors (i : Z) (ss : list Z) (mm mm' : gmap Z Page) : Prop :=
  (forall x pg, mm' !! x = Some pg -> pg = new_Page 0) /\ (forall x, is_Some (mm !! x) -> is_Some (mm' !! x)) /\
  (forall (k : nat) x, ss !! k = Some 1 -> (i + Z.of_nat k) * kPagesPerSection <= x < (i + Z.of_nat k + 1) * kPagesPerSection -> is_Some (mm' !! x)).

Lemma mapped_sections_cons i ss fp p fp1 ss' fp' M :
  (forall x, cover fp x <-> p <= x < p + n \/ cover fp1 x) -> (forall x, p <= x < p + n -> ~ cover fp1 x) ->
  mapped_sections (i + 1) ss fp1 ss' fp' M ->
  mapped_sections i (1 :: ss) fp (Section_.SetMap sz (ToAddr p) i :: ss') fp' (fun k => match k with O => p | S k => M k end).
Proof.
  intros Hc Hd (H1 & H2 & H3 & H4). split_and!.
  - intros [|k] Hk; [cbn; by rewrite Z.add_0_r |]. replace (i + Z.of_nat (S k)) with (i + 1 + Z.of_nat k) by lia. exact (H1 k Hk).
  - intros x. rewrite Hc, H2. split.
    + intros [?|[?|(k & ? & ?)]]; [right; by exists 0%nat | by left | right; by exists (S k)].
    + intros [?|([|k] & ? & ?)]; [right; by left | by left | right; right; by exists k].
  - intros [|k] x Hk Hx; cbn in *; [| by eapply H3]. intros Hf. apply (Hd x Hx), H2. by left.
  - intros [|k] [|k'] x Hk Hk' Hx Hx'; cbn in *; [done | | | f_equal; by eapply H4];
      exfalso; (eapply Hd; [| apply H2; right; eauto]); done.
Qed.

Lemma mapped_sections_skip i ss fp ss' fp' M :
  mapped_sections (i + 1) ss fp ss' fp' M ->
  mapped_sections i (0 :: ss) fp (0 :: ss') fp' (fun k => match k with O => 0 | S k => M k end).
Proof.
  intros (H1 & H2 & H3 & H4). split_and!.
  - intros [|k] Hk; [done |]. replace (i + Z.of_nat (S k)) with (i + 1 + Z.of_nat k) by lia. exact (H1 k Hk).
  - intros x. rewrite H2. split; (intros [?|(k & ? & ?)]; [by left | right]); [by exists (S k) |]. destruct k as [|k]; [done | by exists k].
  - intros [|k] x Hk Hx; cbn in *; [done | by eapply H3].
  - intros [|k] [|k'] x Hk Hk' Hx Hx'; cbn in *; [done | done | done | f_equal; by eapply H4].
Qed.

Lemma map_sections_spec ss : forall i mm fp,
  Forall early_word ss -> wf_ranges 0 fp -> on_node fp -> (forall x, cover fp x -> n <= x) ->
  (forall x pg, mm !! x = Some pg -> pg = new_Page 0) ->
  match map_sections sz i ss mm fp with
  | Ok (ss', mm', fp') => wf_ranges 0 fp' /\ on_node fp' /\ descriptors i ss mm mm' /\ exists M, mapped_sections i ss fp ss' fp' M
  | Fail f => f = Aborted
  end.
Proof using Hn.
  unfold descriptors. induction ss as [|w ss IH]; intros i mm fp Hw W Hon Hge Hmm; cbn [map_sections].
  { split_and!; [done | done | done | done | done |]. exists (fun _ => 0). split_and!; [done | | done | done].
    intros x. split; [by left | intros [?|(k & ? & _)]; done]. }
  apply Forall_cons in Hw as [[->| ->] Hw].
  - change (Section_.Present 0) with false. cbn [mbind outcome_bind]. specialize (IH (i + 1) mm fp Hw W Hon Hge Hmm).
    destruct (map_sections sz (i + 1) ss mm fp) as [[[ss' mm'] fp']|f]; cbn [mbind outcome_bind]; [| done].
    destruct IH as (? & ? & (D1 & D2 & D3) & M & HM). split_and!; [done | done | done | done | | eexists; by apply mapped_sections_skip].
    intros [|k] x Hk Hx; cbn in *; [done |]. apply (D3 k); [done | lia].
  - change (Section_.Present 1) with true. change (Section_.EarlyNid 1) with 0. cbn iota.
    pose proof (AllocatePage_spec n 0 Hn 0 fp ltac:(lia) W) as Ha.
    destruct (AllocatePage fp n 0) as [[p fp1]|f] eqn:E; cbn [mbind outcome_bind]; [| apply Ha].
    2: { intros r Hr. destruct (first_covered _ _ _ W Hr) as [Hc ?]. specialize (Hge _ Hc). lia. }
    destruct Ha as (W1 & _ & Hc & Hd & _); [intros r Hr; destruct (first_covered _ _ _ W Hr) as [Hc ?]; specialize (Hge _ Hc); lia |].
    assert (on_node fp1) as Hon1 by (intros r Hr; destruct (AllocatePage_nids _ _ _ _ _ E r Hr) as (r0 & ? & ->); auto).
    specialize (IH (i + 1) (new_pages (Z.to_nat kPagesPerSection) (i * kPagesPerSection) 0 mm) fp1 Hw W1 Hon1
      ltac:(intros x Hx; apply Hge, Hc; by right)).
    destruct (map_sections sz (i + 1) ss _ fp1) as [[[ss' mm'] fp']|f]; cbn [mbind outcome_bind].
    2: { apply IH. intros x pg. rewrite new_pages_lookup. case_decide; [by intros [= <-] | apply Hmm]. }
    destruct IH as (? & ? & (D1 & D2 & D3) & M & HM).
    { intros x pg. rewrite new_pages_lookup. case_decide; [by intros [= <-] | apply Hmm]. }
    split_and!; [done | done | done | | | eexists; by apply (mapped_sections_cons i ss fp p fp1)].
    + intros x Hx. apply D2. rewrite new_pages_lookup. by case_decide.
    + intros [|k] x Hk Hx; cbn in *; [| apply (D3 k); [done | lia]]. apply D2. rewrite new_pages_lookup.
      rewrite decide_True by (change kPagesPerSection with 32768 in *; lia). done.
Qed.
End Maps.

(** The boot loop of the memory map. *)
Lemma mem_map_Init_spec sz ms fp : 0 < section_map_pages sz -> Forall block_ok ms ->
  wf_ranges 0 fp -> on_node fp -> (forall x, cover fp x -> section_map_pages sz <= x) ->
  match mem_map_Init sz [node_span ms] fp with
  | Ok (sections, mm, fp') => wf_ranges 0 fp' /\ on_node fp' /\ exists ss M,
      (forall k : nat, ss !! k = Some 1 <-> Exists (meets_section (Z.of_nat k)) ms /\ (k < Z.to_nat kSections)%nat) /\
      descriptors 0 ss ∅ mm /\ mapped_sections sz 0 ss fp sections fp' M
  | Fail f => f = Aborted
  end.
Proof.
  intros Hn Hok W Hon Hge. unfold mem_map_Init. cbn [fmap list_fmap concat]. rewrite memblocks_span, app_nil_r.
  set (N := Z.to_nat kSections). assert (Z.of_nat N = 2 ^ 19) as HN by (unfold N; by rewrite Z2Nat.id). clearbody N.
  destruct (mark_blocks_spec ms (replicate N 0) Hok) as (ss & -> & Hw & Hss).
  { rewrite length_replicate, HN. done. } { apply Forall_replicate. by left. }
  rewrite bind_Ok. pose proof (map_sections_spec sz Hn ss 0 ∅ fp Hw W Hon Hge ltac:(by intros x pg ?%lookup_empty_Some)) as Hm.
  destruct (map_sections sz 0 ss ∅ fp) as [[[sections mm] fp']|f]; [| done].
  destruct Hm as (W' & Hon' & HD & M & HM). split_and!; [done | done |]. exists ss, M. split_and!; [| done | done].
  intros k. rewrite Hss. destruct (decide (k < N)%nat) as [Hk|Hk].
  - rewrite lookup_replicate_2 by done. cbn. split; [| intros [? _]; by rewrite decide_True]. case_decide; [done | by intros [=]].
  - rewrite (lookup_ge_None_2 (replicate N 0)) by (rewrite length_replicate; lia). split; [done | tauto].
Qed.

(** ** The page allocator *)

Lemma ranges_ok mm fp : forall lo, 0 <= lo -> wf_ranges lo fp -> on_node fp ->
  (forall x, cover fp x -> 0 < x < 2 ^ 31 /\ is_Some (mm !! x)) ->
  let rs := fst (ReleaseFreePages fp) in
  Forall (range_ok mm) rs /\ ranges_disjoint rs /\ (forall x, (exists r, r ∈ rs /\ range_in r x) <-> cover fp x).
Proof.
  induction fp as [|r fp IH]; intros lo H0 W Hon Hx; cbn.
  { split_and!; [by constructor | done |]. intros x. split; [by intros (? & ?%elem_of_nil & _) | by intros (? & ?%elem_of_nil & _)]. }
  destruct W as (W1 & W2 & W3 & W). rewrite rend_eq by lia.
  destruct (IH (rstart r + rnpages r) ltac:(lia) W) as (F & D & C).
  { intros r' Hr'. apply Hon. by right. } { intros x Hc. apply Hx. rewrite cover_cons. by right. }
  cbn in F, D, C. split_and!.
  - constructor; [| done]. rewrite (Hon r ltac:(by left)).
    destruct (Hx (rstart r)) as [B1 _]; [rewrite cover_cons; left; unfold range_pages; lia |].
    destruct (Hx (rstart r + rnpages r - 1)) as [B2 _]; [rewrite cover_cons; left; unfold range_pages; lia |].
    cbn. split_and!; [done | lia | lia | lia | lia |]. intros x Hr. apply Hx. rewrite cover_cons. by left.
  - apply Forall_forall. intros r' Hr' x Hx1 Hx2.
    assert (cover fp x) as Hc by (apply C; by exists r').
    pose proof (wf_ranges_cover _ _ _ W Hc). cbn in Hx1. lia.
  - done.
  - intros x. rewrite cover_cons, <- C. setoid_rewrite elem_of_cons. unfold range_pages. split.
    + intros (r' & [->|?] & ?); [by left | right; eauto].
    + intros [?|(r' & ? & ?)]; [eexists; split; [by left | done] | eauto].
Qed.

Definition node_inv (fp : list PageRange) : Prop := early_inv fp /\ on_node fp.
Definition node_source nid : FrameSource (early_alloc nid).
Proof.
  refine {| fs_inv := node_inv; fs_free := cover |}.
  - intros fp p [Hi _]. by apply (@fs_range _ _ (early_source nid)).
  - intros fp p fp' [Hi Hon] E Hp. destruct (@fs_alloc _ _ (early_source nid) fp p fp' Hi E Hp) as (Hi' & Hc & Hr).
    split; [| by split]. split; [done |]. intros r Hr'. destruct (AllocatePage_nids _ _ _ _ _ E r Hr') as (r0 & ? & ->). by apply Hon.
Defined.
#[local] Notation node_ok nid := (@pt_ok _ (early_alloc nid) (node_source nid)).

Lemma node_pt_ok nid root m fp : pt_ok (early_alloc NidAny) root m -> wf_ranges 0 fp -> on_node fp ->
  (forall x, cover fp x -> cover (allocator m) x) -> node_ok nid root (mkMemory (words m) fp).
Proof.
  intros ([W Hb] & HT & Hfr) W' Hon Hc. split_and!; [split; [split; [done |] | done] | done |].
  - intros p Hp. by apply Hb, Hc.
  - intros p Hp. by apply Hfr, Hc.
Qed.

(** ** Hand-over *)

(** The state after boot.  [M k] is the first frame of the descriptors of section
    [k] and [tp] the first page of the translation table. *)
Record pages_ready (pc : bool) (root sz : Z) (ms : list Memblock) (m : Memory (list PageRange))
    (sections : list Z) (m' : Memory (list PageRange)) (a : PageAllocator) (mm : gmap Z Page) (M : Z -> Z) (tp : Z) : Prop := {
  pr_alloc : CInv pc [] (mkPstate a mm);
  pr_free : forall x, covers (free_blocks a) x -> cover (allocator m) x;
  pr_all : forall x, cover (allocator m) x ->
    covers (free_blocks a) x \/ (exists k, Exists (meets_section k) ms /\ 0 <= k /\ M k <= x < M k + section_map_pages sz) \/ x = tp \/ is_table root m' x;
  pr_maps : forall k x, Exists (meets_section k) ms -> 0 <= k -> M k <= x < M k + section_map_pages sz ->
    cover (allocator m) x /\ ~ covers (free_blocks a) x /\ x <> tp /\ ~ is_table root m' x;
  pr_apart : forall k k' x, Exists (meets_section k) ms -> Exists (meets_section k') ms -> 0 <= k -> 0 <= k' ->
    M k <= x < M k + section_map_pages sz -> M k' <= x < M k' + section_map_pages sz -> k = k';
  pr_page : cover (allocator m) tp /\ ~ covers (free_blocks a) tp /\ ~ is_table root m' tp /\ page_zero tp m';
  pr_tables : forall x, is_table root m' x -> ~ covers (free_blocks a) x;
  pr_tr : forall va, canonical va -> translate (words m') root va =
    if decide (kVMemStart <= va < kVMemStart + kPageSize) then Some (ToAddr tp + (va - kVMemStart)) else translate (words m) root va;
  pr_lookup : forall b x, b ∈ ms -> in_block b x ->
    let k := x / kPagesPerSection in
    Section_.PfnToPage sz sections x =
      Ok (if u64 (ToAddr (M k) - k * kPagesPerSection * sz) =? 0 then None
          else Some (ToAddr (M k) + (x - k * kPagesPerSection) * sz))
}.

Lemma block_section b x : block_ok b -> in_block b x ->
  let k := x / kPagesPerSection in meets_section k b /\ 0 <= k < kSections /\ k * kPagesPerSection <= x < (k + 1) * kPagesPerSection.
Proof.
  intros (H0 & H1 & _) Hx k. unfold meets_section, in_block in *. change kSections with (2 ^ 19). change kPagesPerSection with 32768 in *.
  pose proof (Z.div_mod x 32768 ltac:(done)) as Dx. pose proof (Z.mod_pos_bound x 32768 ltac:(done)) as Mx. fold k in Dx.
  pose proof (Z.div_mod (mstart b) 32768 ltac:(done)) as Db. pose proof (Z.mod_pos_bound (mstart b) 32768 ltac:(done)) as Mb.
  assert (mstart b / 32768 <= k) by (apply Z.div_le_mono; lia). lia.
Qed.

(** The array of a section lies in usable memory, so that its addresses do not wrap. *)
Lemma section_lookup sz sections p k x : 0 < sz -> 0 <= k -> 0 <= p < 2 ^ 31 -> sz < 2 ^ 40 ->
  sections !! Z.to_nat k = Some (Section_.SetMap sz (ToAddr p) k) -> k * kPagesPerSection <= x < (k + 1) * kPagesPerSection ->
  Section_.PfnToPage sz sections x =
    Ok (if u64 (ToAddr p - k * kPagesPerSection * sz) =? 0 then None else Some (ToAddr p + (x - k * kPagesPerSection) * sz)).
Proof.
  intros Hsz Hk Hp Hs Hsec Hx. destruct (ToAddr_page p ltac:(lia)) as (E & _ & ?).
  apply PfnToPage_section; [done | | | done | done].
  - rewrite E. change kPageSize with (1024 * 4). by rewrite Z.mul_assoc, Z_mod_mult.
  - change kPagesPerSection with 32768. change kPageSize with 4096 in *. lia.
Qed.

Lemma section_map_pages_eq sz : 0 < sz < 2 ^ 40 -> section_map_pages sz = 8 * sz.
Proof.
  intros Hs. unfold section_map_pages, section_map_bytes. change kPagesPerSection with 32768.
  destruct (AlignUp_pow2 (32768 * sz) 12) as (d & Hd & Hdm & Hdr); [lia | lia | lia |].
  change (2 ^ 12) with 4096 in *. change kPageSize with 4096. rewrite Hd. rewrite Z.shiftr_div_pow2 by done. change (2 ^ kPageShift) with 4096.
  apply Z.mod_divide in Hdm as [c Hc]; [| lia].
  assert (d = (8 * sz) * 4096) as -> by lia. by rewrite Z.div_mul.
Qed.

Section HandOver.
Context `{StdSort} (pc : bool) (nid root sz : Z) (n : Numa) (nd : Node) (m : Memory (list PageRange)).
Context (Hsz : 0 < sz < 2 ^ 40) (Hnd : nodes n = [nd]) (Hok : Forall block_ok (memblocks nd)) (Hsep : blocks_sep (memblocks nd)).
Context (Hpt : pt_ok (early_alloc NidAny) root m).
Context (Hcov : forall x, cover (allocator m) x -> section_map_pages sz <= x /\ exists b, b ∈ memblocks nd /\ in_block b x).
Context (Hun : forall va, kVMemStart <= va < kVMemStart + kPageSize -> translate (words m) root va = None).

Lemma trans_Init_node fp : wf_ranges 0 fp -> on_node fp -> (forall x, cover fp x -> cover (allocator m) x) ->
  match trans_Init (early_alloc nid) kVMemStart root (mkMemory (words m) fp) with
  | Ok m' => node_ok nid root m' /\ exists p, cover fp p /\ page_zero p m' /\
      (forall va, canonical va -> translate (words m') root va =
         if decide (kVMemStart <= va < kVMemStart + kPageSize) then Some (ToAddr p + (va - kVMemStart)) else translate (words m) root va) /\
      (forall q, cover (allocator m') q -> cover fp q /\ q <> p) /\
      (forall q, cover fp q -> ~ cover (allocator m') q -> q <> p -> is_table root m' q) /\ ~ is_table root m' p /\
      (forall q, is_table root m' q -> ~ cover (allocator m') q) /\
      (forall q, is_table root m' q -> is_table root m q \/ cover fp q)
  | Fail f => f = Aborted
  end.
Proof using Hpt Hun.
  intros W Hon Hsub.
  pose proof (@trans_Init_spec _ (early_alloc nid) (node_source nid) root (mkMemory (words m) fp) kVMemStart
    ltac:(intros a a' [Ha _]; by apply early_not_none) (node_pt_ok nid root m fp Hpt W Hon Hsub) ltac:(done)
    ltac:(right; by vm_compute) ltac:(by exists (kVMemStart / kPageSize)) Hun) as Ht.
  destruct (trans_Init _ _ _ _) as [m'|f]; [| destruct Ht as (a & _ & Hf); by eapply early_fail].
  destruct Ht as (Hpt' & p & Hp & Hz & Htr & Hs & Hu & Hnt & Hl). split; [done |]. exists p.
  pose proof Hpt' as ([[_ Hb] _] & _ & Hfr).
  split_and!; [done | done | done | done | | | |].
  - intros q H1 H2 H3. split; [| by apply Hu]. destruct Hpt as ([_ Hb0] & _). pose proof (wf_ranges_cover _ _ _ W H1). specialize (Hb0 q (Hsub _ H1)). lia.
  - intros [_ (d & va & Hd & Htb)]. by apply (Hnt d va Hd).
  - intros q [_ (d & va & Hd & Htb)] Hc. destruct (Hfr q Hc) as [Hn _]. by apply (Hn d va Hd).
  - intros q [Hr (d & va & Hd & Htb)]. destruct (Hl d va _ Hd Htb) as [?|(x & Heq & Hx)]; [left; split; [done | by exists d, va] | right].
    cbn in Hx. destruct Hpt as ([_ Hb0] & _). pose proof (wf_ranges_cover _ _ _ W Hx). specialize (Hb0 x (Hsub _ Hx)).
    by rewrite (ToAddr_inj q x Hr ltac:(lia) Heq).
Qed.

(** What each step contributes to the state after boot. *)
Lemma assemble ss M0 sections fp1 fp2 fp3 m' a mm tp :
  (forall x, cover fp1 x <-> cover (allocator m) x) ->
  (forall k : nat, ss !! k = Some 1 <-> Exists (meets_section (Z.of_nat k)) (memblocks nd) /\ (k < Z.to_nat kSections)%nat) ->
  mapped_sections sz 0 ss fp1 sections fp2 M0 ->
  cover fp2 tp -> page_zero tp m' ->
  (forall va, canonical va -> translate (words m') root va =
     if decide (kVMemStart <= va < kVMemStart + kPageSize) then Some (ToAddr tp + (va - kVMemStart)) else translate (words m) root va) ->
  (forall q, cover fp3 q -> cover fp2 q /\ q <> tp) ->
  (forall q, cover fp2 q -> ~ cover fp3 q -> q <> tp -> is_table root m' q) -> ~ is_table root m' tp ->
  (forall q, is_table root m' q -> ~ cover fp3 q) ->
  (forall q, is_table root m' q -> is_table root m q \/ cover fp2 q) ->
  CInv pc [] (mkPstate a mm) -> (forall x, covers (free_blocks a) x <-> cover fp3 x) ->
  pages_ready pc root sz (memblocks nd) m sections m' a mm (fun k => M0 (Z.to_nat k)) tp.
Proof using Hsz Hok Hpt Hcov.
  intros C1 S (h1 & h2 & h3 & h4) T1 T2 T3 T4 T5 T6 T7 T8 A1 A2.
  pose proof (section_map_pages_eq sz Hsz) as Hn.
  assert (forall k, Exists (meets_section k) (memblocks nd) -> 0 <= k -> ss !! Z.to_nat k = Some 1) as Sk.
  { intros k Hk H0. apply S. rewrite Z2Nat.id by done. split; [done |]. apply Exists_exists in Hk as (b & Hb & Ht).
    rewrite Forall_forall in Hok. destruct (Hok b Hb) as (_ & ? & _). unfold meets_section in Ht.
    change kPagesPerSection with 32768 in Ht. apply Z2Nat.inj_lt; [done | done |]. change kSections with (2 ^ 19). lia. }
  assert (forall x, is_table root m x -> ~ cover (allocator m) x) as Hmt.
  { intros x [_ (d & va & Hd & Ht)] Hc. destruct Hpt as (_ & _ & Hfr). destruct (Hfr x Hc) as [Hx _]. by apply (Hx d va Hd). }
  assert (forall k x, Exists (meets_section k) (memblocks nd) -> 0 <= k -> M0 (Z.to_nat k) <= x < M0 (Z.to_nat k) + section_map_pages sz ->
    cover (allocator m) x /\ ~ cover fp2 x) as Hmap.
  { intros k x Hk H0 Hx. split; [apply C1, h2; right; eauto | eapply h3; eauto]. }
  split.
  - done.
  - intros x Hx. apply C1, h2. left. by apply T4, A2.
  - intros x Hx. apply C1, h2 in Hx as [Hx|(k & Hk & Hx)].
    + rewrite A2. destruct (decide (cover fp3 x)); [by left |]. destruct (decide (x = tp)); [tauto |]. eauto.
    + right. left. exists (Z.of_nat k). rewrite Nat2Z.id. split_and!; [by apply S | lia | lia | lia].
  - intros k x Hk H0 Hx. destruct (Hmap k x Hk H0 Hx) as [H1 H2]. split_and!; [done | | by intros -> |].
    + rewrite A2. by intros [? _]%T4.
    + intros [Ht|?]%T8; [by apply Hmt in Ht | done].
  - intros k k' x Hk Hk' H0 H0' Hx Hx'. apply Z2Nat.inj; [done | done |]. eapply h4; eauto.
  - split_and!; [apply C1, h2; by left | rewrite A2; by intros [_ ?]%T4 | done | done].
  - intros x Hx. rewrite A2. by apply T7.
  - done.
  - intros b x Hb Hx k. rewrite Forall_forall in Hok. destruct (block_section b x (Hok b Hb) Hx) as (Ht & Hk & Hkx). fold k in Ht, Hk, Hkx.
    assert (Exists (meets_section k) (memblocks nd)) as He by (apply Exists_exists; eauto).
    destruct (Hmap k (M0 (Z.to_nat k)) He ltac:(lia) ltac:(lia)) as [Hc _]. destruct (Hcov _ Hc) as [_ (b' & Hb' & Hin)].
    destruct (Hok b' Hb') as (? & ? & _). unfold in_block in Hin. apply section_lookup; [lia | lia | lia | lia | | done].
    rewrite (h1 _ (Sk k He ltac:(lia))). rewrite Z2Nat.id by lia. done.
Qed.

Lemma boot_pages_spec :
  match boot_pages root sz pc nid n m with
  | Ok (_, sections, m', sys) => exists a mm M tp, sys = mkSystem [a] mm /\ pages_ready pc root sz (memblocks nd) m sections m' a mm M tp
  | Fail f => f = Aborted
  end.
Proof using Hsz Hok Hpt Hcov Hnd Hsep Hun.
  unfold boot_pages. pose proof (section_map_pages_eq sz Hsz) as Hn. pose proof Hpt as ([W _] & _ & _).
  destruct (numa_Init_one n nd (allocator m) Hnd Hok Hsep W ltac:(intros x Hx; apply (Hcov x Hx)))
    as (ms & fp1 & -> & P & W1 & C1 & Hon1).
  rewrite bind_Ok. cbn [nodes].
  pose proof (mem_map_Init_spec sz ms fp1 ltac:(lia) ltac:(by rewrite P) W1 Hon1 ltac:(intros x Hx; apply (Hcov x), C1, Hx)) as Hm.
  destruct (mem_map_Init sz [node_span ms] fp1) as [[[sections mm] fp2]|f]; [| done]. rewrite bind_Ok.
  destruct Hm as (W2 & Hon2 & ss & M0 & S & (D1 & _ & D3) & HM). pose proof HM as (_ & h2 & _).
  assert (forall x, cover fp2 x -> cover (allocator m) x) as Hsub by (intros x Hx; apply C1, h2; by left).
  pose proof (trans_Init_node fp2 W2 Hon2 Hsub) as Ht.
  destruct (trans_Init _ _ _ _) as [m'|f]; [| done]. rewrite bind_Ok.
  destruct Ht as (([[W3 _] Hon3] & _ & _) & tp & T1 & T2 & T3 & T4 & T5 & T6 & T7 & T8).
  assert (forall k : nat, ss !! k = Some 1 <-> Exists (meets_section (Z.of_nat k)) (memblocks nd) /\ (k < Z.to_nat kSections)%nat) as S'.
  { intros k. rewrite S, !Exists_exists. by setoid_rewrite P. }
  assert (forall x, cover (allocator m') x -> 0 < x < 2 ^ 31 /\ is_Some (mm !! x)) as Hx.
  { intros x Hx. apply T4 in Hx as [Hx _]. destruct (Hcov x (Hsub x Hx)) as [? (b & Hb & Hin)].
    rewrite Forall_forall in Hok. pose proof (Hok b Hb) as Hbo. destruct (block_section b x Hbo Hin) as (Hto & Hk & Hkx).
    split; [destruct Hbo as (? & ? & _); unfold in_block in Hin; lia |].
    apply (D3 (Z.to_nat (x / kPagesPerSection))); [| by rewrite Z2Nat.id by lia].
    apply S'. rewrite Z2Nat.id by lia. split; [apply Exists_exists; eauto | apply Z2Nat.inj_lt; lia]. }
  destruct (ranges_ok mm (allocator m') 0 ltac:(lia) W3 Hon3 Hx) as (F & D & C). cbn [ReleaseFreePages fst] in F, D, C |- *.
  destruct (Init_single_spec pc mm _ ltac:(by intros x pg ->%D1) F D) as (a & mm' & E & A1 & A2).
  change (length [node_span ms]) with 1%nat. unfold ReleaseFreePages. rewrite E, bind_Ok.
  exists a, mm', (fun k => M0 (Z.to_nat k)), tp. split; [done |].
  apply (assemble ss M0 sections fp1 fp2 (allocator m') (mkMemory (words m') []) a mm' tp C1 S' HM T1 T2 T3 T4 T5 T6 T7 T8 A1).
  intros x. by rewrite A2.
Qed.
End HandOver.
