(* ===== verification/BootMain.v ===== *)
(** * Boot, end to end

    Theorems about [boot] of Boot.v, the part of [Main] that concerns memory,
    and about its steps: processors and memory blocks without an SRAT, the
    hand-over to the page allocator, and a machine that boots. *)

From S2P Require Import Prelude Pfn MemMap PageAllocator BuddyInvariant BuddyChecker VMemAllocator VMem VMemWalk VMemMap EarlyPageAllocator Boot BootCorrect BootPages.

(** ** Processors *)

Section AttachCpus.
Context (node : Z).
#[local] Notation on := (set_nid node).

Lemma alter_on p (cpus : list Cpu) : on <$> alter on p cpus = on <$> cpus.
Proof.
  apply list_eq. intros j. rewrite !list_lookup_fmap, list_lookup_alter. case_decide as E; [| done]. rewrite E.
  by destruct (cpus !! j).
Qed.

Lemma alter_on_nid p (cpus : list Cpu) j c : alter on p cpus !! j = Some c ->
  (forall c0, cpus !! j = Some c0 -> cpu_nid_ c0 = node) \/ j = p -> cpu_nid_ c = node.
Proof.
  rewrite list_lookup_alter. case_decide as E; [rewrite E | intros Hc [H| ->]; [by apply H | done]].
  by intros (c0 & _ & ->)%fmap_Some _.
Qed.

Lemma attach_cpus_spec k : forall i cpus, 0 <= i -> Z.of_nat (length cpus) < 2 ^ 63 ->
  (forall j c, cpus !! j = Some c -> Z.of_nat j < i -> cpu_nid_ c = node) ->
  exists cpus', attach_cpus node i k cpus = Ok cpus' /\ on <$> cpus' = on <$> cpus /\
    forall j c, cpus' !! j = Some c -> Z.of_nat j < i + Z.of_nat k -> cpu_nid_ c = node.
Proof.
  induction k as [|k IH]; intros i cpus H0 Hlen Hdone; cbn [attach_cpus].
  { exists cpus. split_and!; [done | done |]. intros j c Hj Hlt. apply (Hdone j); [done | lia]. }
  destruct (Cpu_GetByIndex cpus i ≫= (fun j => pair j <$> cpus !! j)) as [[j c]|] eqn:E.
  - unfold Cpu_GetByIndex in E. destruct (_ <? i); [done |]. cbn in E. destruct (cpus !! Z.to_nat i) as [c0|] eqn:Ec; [| done].
    injection E as <- <-. unfold MapApicToNode, Cpu_GetByApicId.
    destruct (list_find_elem_of (fun c => apic_id_ c = apic_id_ c0) cpus c0) as [[p c1] Hp]; [by eapply list_elem_of_lookup_2 | done |].
    rewrite Hp. cbn [fmap option_fmap option_map fst]. rewrite !bind_Ok.
    destruct (IH (i + 1) (alter on (Z.to_nat i) (alter on p cpus))) as (cpus' & -> & E2 & Hn); [lia | by rewrite !length_alter | |].
    + intros j c Hj Hlt. eapply alter_on_nid; [exact Hj |]. destruct (decide (j = Z.to_nat i)) as [->|Hne]; [by right | left].
      intros c2 Hc2. eapply alter_on_nid; [exact Hc2 |]. left. intros c3 Hc3. apply (Hdone j); [done | lia].
    + exists cpus'. split_and!; [done | by rewrite E2, !alter_on |]. intros j c Hj Hlt. apply (Hn j); [done | lia].
  - rewrite bind_Ok. destruct (IH (i + 1) cpus) as (cpus' & -> & E2 & Hn); [lia | done | |].
    + intros j c Hj Hlt. destruct (decide (Z.of_nat j < i)); [by apply (Hdone j) |]. exfalso.
      assert (j = Z.to_nat i) as -> by lia. pose proof (lookup_lt_Some _ _ _ Hj). unfold Cpu_GetByIndex in E.
      rewrite u64_small in E by lia. destruct (Z.ltb_spec (Z.of_nat (length cpus) - 1) i); [lia |].
      cbn in E. by rewrite Hj in E.
    + exists cpus'. split_and!; [done | done |]. intros j c Hj Hlt. apply (Hn j); [done | lia].
Qed.

(** Without an SRAT, all processors are on the node. *)
Lemma attach_cpus_all cpus : (length cpus <= kMaxCpus)%nat -> attach_cpus node 0 kMaxCpus cpus = Ok (on <$> cpus).
Proof.
  intros Hlen. destruct (attach_cpus_spec kMaxCpus 0 cpus) as (cpus' & -> & E & Hn); [lia | unfold kMaxCpus in *; lia | lia |].
  f_equal. rewrite <- E. apply list_eq. intros j. rewrite list_lookup_fmap. destruct (cpus' !! j) as [c|] eqn:Hj; [| done].
  cbn. f_equal. assert (length cpus' = length cpus) as El by (rewrite <- (length_fmap on cpus'), E; apply length_fmap).
  pose proof (lookup_lt_Some _ _ _ Hj). rewrite <- (Hn j c Hj) by lia. by destruct c.
Qed.
End AttachCpus.

Lemma Cpu_Create_length cpus cpus' : Cpu_Create cpus = Ok cpus' -> (length cpus' <= kMaxCpus)%nat.
Proof.
  unfold Cpu_Create, emplace_back. destruct (Nat.ltb_spec (length cpus) kMaxCpus); [| done]. intros [= <-].
  rewrite length_app. cbn [length]. lia.
Qed.

Lemma madt_length mem fuel : forall madt offset len first cpus cpus', (length cpus <= kMaxCpus)%nat ->
  madt_loop fuel mem madt offset len first cpus = Ok cpus' -> (length cpus' <= kMaxCpus)%nat.
Proof.
  induction fuel as [|fuel IH]; intros madt offset len first cpus cpus' Hl; cbn [madt_loop];
    (destruct (offset <? len); [| by intros [= <-]]); [done |].
  intros E. run_ok. repeat (case_match; run_ok); try (by eapply IH; [| eassumption]).
  eapply IH; [| eassumption].
  match goal with H : madt_cpu _ _ _ _ = Ok _ |- _ => unfold madt_cpu in H end. destruct first.
  - destruct (Cpu_GetByIndex cpus 0); run_ok. by rewrite length_alter.
  - run_ok. rewrite length_alter. by eapply Cpu_Create_length.
Qed.

(** ** Memory *)

(** What the entries of the boot loader's map become. *)
Definition block_of (e : E820.Entry) : Memblock :=
  mkMemblock (PfnUp (E820.addr e)) (PfnDown (u64 (E820.addr e + E820.length e))) 0.

Lemma each_region_inv {S_} (Q : S_ -> Prop) mem f fuel : forall p end_addr s s',
  (forall r s s', Q s -> f r s = Ok s' -> Q s') -> Q s -> each_region mem f fuel p end_addr s = Ok s' -> Q s'.
Proof.
  induction fuel as [|fuel IH]; intros p end_addr s s' Hf Hs; cbn [each_region]; (destruct (p <? end_addr); [| by intros [= <-]]); [done |].
  intros E. run_ok. case_match; [done |]. eapply IH; [done | | eassumption]. by eapply Hf.
Qed.

Lemma usable_length `{StdSort} mem mbi map : e820_Init mem mbi = Ok map -> (length (E820.usable map) <= E820.kMaxEntries)%nat.
Proof.
  unfold e820_Init. intros E. run_ok.
  match goal with H : ForEachRegion _ _ _ _ _ = Ok ?l |- _ =>
    assert (length l <= E820.kMaxEntries)%nat as Hl;
    [unfold ForEachRegion in H; eapply (each_region_inv (fun l => length l <= E820.kMaxEntries)%nat); [| | exact H]; [| cbn; lia] |] end.
  - intros r s s' _. unfold emplace_back. destruct (Nat.ltb_spec (length s) E820.kMaxEntries); [| done]. intros [= <-].
    rewrite length_app. cbn [length]. lia.
  - etrans; [apply length_filter |]. by rewrite (std_sort_perm E820.addr).
Qed.

Lemma attach_memory_spec es : forall n nd, nodes n = [nd] -> (length (memblocks nd) + length es <= kMaxMemblocks)%nat ->
  exists n', attach_memory 0 es n = Ok n' /\ nodes n' = [mkNode (memblocks nd ++ (block_of <$> es)) (pfn_start nd) (pfn_end nd)].
Proof.
  induction es as [|e es IH]; intros n nd Hn Hl; cbn [attach_memory].
  { exists n. split; [done |]. cbn. rewrite app_nil_r, Hn. by destruct nd. }
  unfold AddMemBlock, emplace_back. rewrite Hn. change (Z.to_nat 0) with 0%nat. cbn [lookup list_lookup length] in *.
  destruct (Nat.ltb_spec (length (memblocks nd)) kMaxMemblocks); [| lia]. rewrite !bind_Ok.
  match goal with |- context [attach_memory 0 es ?n1] =>
    destruct (IH n1 (mkNode (memblocks nd ++ [block_of e]) (pfn_start nd) (pfn_end nd))) as (n' & E & E') end;
    [done | cbn [memblocks]; rewrite length_app; cbn [length]; lia |].
  rewrite E. exists n'. split; [done |]. rewrite E'. cbn. by rewrite <- app_assoc.
Qed.

(** acpi::BootInit without an SRAT: one node. *)
Lemma BootInit_one_node mem m map cpus0 cpus :
  (length cpus0 <= kMaxCpus)%nat -> (length (E820.usable map) <= E820.kMaxEntries)%nat -> ParseMadt mem m cpus0 = Ok cpus ->
  exists n, BootInit mem (mkAcpi true (Some m) None) map numa_EarlyInit cpus0 = Ok (n, set_nid 0 <$> cpus) /\
    nodes n = [mkNode (block_of <$> E820.usable map) PfnNone PfnNone].
Proof.
  intros Hc Hl Hp. unfold BootInit. cbn [init_ok madt srat negb]. rewrite Hp, bind_Ok.
  assert (SetupNode 0 numa_EarlyInit = Ok (0, mkNuma [new_Node] (<[0%nat := 0]> (pxm_to_node_map numa_EarlyInit))
    (<[0%nat := 0]> (node_to_pxm_map numa_EarlyInit)))) as -> by done.
  rewrite bind_Ok. unfold ParseMadt in Hp. run_ok. rewrite attach_cpus_all by (by eapply madt_length).
  rewrite bind_Ok. edestruct (attach_memory_spec (E820.usable map)) as (n & -> & En); [done | |].
  { cbn [memblocks new_Node length]. unfold kMaxMemblocks, E820.kMaxEntries in *. lia. }
  by exists n.
Qed.

(** A region below 8 TiB that holds at least one whole page. *)
Definition region_ok (e : E820.Entry) : Prop := entry_ok e /\ eend e <= 2 ^ 43 /\ mstart (block_of e) < mend (block_of e).

Lemma block_bounds e : entry_ok e ->
  E820.addr e <= mstart (block_of e) * kPageSize < E820.addr e + kPageSize /\
  mend (block_of e) * kPageSize <= eend e < mend (block_of e) * kPageSize + kPageSize.
Proof.
  intros (H0 & H1 & H2). unfold block_of, eend in *. cbn [mstart mend]. rewrite u64_small by lia. split; [| apply PfnDown_bounds].
  apply PfnUp_bounds; change kPageSize with 4096; lia.
Qed.

Lemma region_block e : region_ok e -> block_ok (block_of e).
Proof.
  intros (Ho & Hb & Hl). destruct (block_bounds e Ho) as [B1 B2]. destruct Ho as (H0 & _).
  change kPageSize with 4096 in *. split_and!; [lia | lia | lia | done].
Qed.

Lemma usable_block kend_addr reserved e x : entry_ok e -> usable_page kend_addr reserved e x ->
  in_block (block_of e) x /\ kend_addr <= x * kPageSize.
Proof.
  intros Ho [Hp _]. apply page_in_bounds in Hp. cbn [fst snd] in Hp. destruct (block_bounds e Ho) as [B1 B2].
  unfold in_block. change kPageSize with 4096 in *. lia.
Qed.

Lemma sep_before e e' : region_ok e -> region_ok e' -> entry_sep e e' -> before (block_of e) (block_of e') \/ before (block_of e') (block_of e).
Proof.
  intros (Ho & _ & Hl) (Ho' & _ & Hl') Hs. destruct (block_bounds e Ho) as [B1 B2], (block_bounds e' Ho') as [B1' B2'].
  destruct (entry_bounds e Ho) as (_ & _ & F1 & F2 & _), (entry_bounds e' Ho') as (_ & _ & F1' & F2' & _).
  unfold entry_sep, before in *. change kPageSize with 4096 in *. lia.
Qed.

Lemma regions_sep es : Forall region_ok es -> pairwise_sep es -> blocks_sep (block_of <$> es).
Proof.
  induction es as [|e es IH]; intros Hok Hs; [split; [constructor | by intros b b' ?%elem_of_nil] |].
  apply Forall_cons in Hok as [He Hok]. destruct Hs as [Hs1 Hs]. destruct (IH Hok Hs) as [Hnd Hsep].
  assert (forall b, b ∈ block_of <$> es -> before (block_of e) b \/ before b (block_of e)) as Hh.
  { intros b (e' & -> & He')%list_elem_of_fmap. rewrite !Forall_forall in *. apply sep_before; auto. }
  split.
  - cbn. constructor; [| done]. intros Hin. destruct He as (_ & _ & ?). destruct (Hh _ Hin); unfold before in *; lia.
  - intros b b'. cbn [fmap list_fmap]. rewrite !elem_of_cons. intros [->|Hb] [->|Hb'] Hne; [done | by apply Hh | | by apply Hsep].
    destruct (Hh b Hb); tauto.
Qed.


(** ** A machine *)

(** 32 MiB from the first megabyte on, a kernel that ends at 8 MiB, and two processors. *)
Definition v_mem : bytes :=
  store_bytes 0x8000 (le_bytes 4 20 ++ le_bytes 8 0x100000 ++ le_bytes 8 0x2000000 ++ le_bytes 4 1)
    (store_bytes 0xa000 (le_bytes 4 0 ++ le_bytes 4 (44 + 16))
      (store_bytes 0xa02c ([0; 8; 0; 0] ++ le_bytes 4 1 ++ [0; 8; 1; 7] ++ le_bytes 4 1) ∅)).
Definition v_map : list E820.Entry := [E820.mkEntry 0x100000 0x2000000 1].
Definition v_cpus : list Cpu := [mkCpu 0 0 0 NidNone; mkCpu 1 1 7 NidNone].
Definition v_boot := @boot icl_impl sort_impl 0x1ff000 0x800000 128 true v_mem 0x9000 w_mbi [] (mkAcpi true (Some 0xa000) None).

Lemma v_e820 : @e820_Init sort_impl v_mem w_mbi = Ok v_map.
Proof. by vm_compute. Qed.
Lemma v_reserve : Reserve v_mem 0x9000 w_mbi [] = Ok [(0x9000, 0x9058)].
Proof. by vm_compute. Qed.
Lemma v_madt : ParseMadt v_mem 0xa000 [mkCpu 0 0 0 NidNone] = Ok v_cpus.
Proof. by vm_compute. Qed.
Lemma v_boots : match v_boot with Ok _ => true | Fail _ => false end = true.
Proof. by vm_compute. Qed.
Lemma v_regions : Forall region_ok (E820.usable v_map).
Proof. repeat constructor; by vm_compute. Qed.
Lemma v_section : section_map_pages 128 * kPageSize <= 0x800000.
Proof. by vm_compute. Qed.

