(* ===== verification/Checksum.v ===== *)
(** * The Internet checksum

    Models src/src/native/NetChecksum.cc and the address type of
    src/src/native/NetIpAddress.h that its pseudo-header uses.  Memory is
    little-endian; a buffer is its address (only the alignment matters) and its
    bytes.  The inline assembly is modelled with its carry flag. *)

From S2P Require Import Prelude.

(** ** class Ipv4Address: the four bytes in memory order *)

Record Ipv4Address := mkIp { ip0 : Z; ip1 : Z; ip2 : Z; ip3 : Z }.

#[export] Instance Ipv4Address_eq_dec : EqDecision Ipv4Address.
Proof. solve_decision. Defined.

Definition ip_Any : Ipv4Address := mkIp 0 0 0 0.
Definition ip_Broadcast : Ipv4Address := mkIp 0xff 0xff 0xff 0xff.
Definition ip_Mask (a mask : Ipv4Address) : Ipv4Address :=
  mkIp (Z.land (ip0 a) (ip0 mask)) (Z.land (ip1 a) (ip1 mask))
       (Z.land (ip2 a) (ip2 mask)) (Z.land (ip3 a) (ip3 mask)).
Definition ip_compl (a : Ipv4Address) : Ipv4Address :=
  mkIp (u8 (Z.lnot (ip0 a))) (u8 (Z.lnot (ip1 a))) (u8 (Z.lnot (ip2 a))) (u8 (Z.lnot (ip3 a))).
Definition isAny (a : Ipv4Address) : bool :=
  (ip0 a =? 0) && (ip1 a =? 0) && (ip2 a =? 0) && (ip3 a =? 0).
Definition isBroadcast (a : Ipv4Address) : bool :=
  isAny a || ((ip0 a =? 0xff) && (ip1 a =? 0xff) && (ip2 a =? 0xff) && (ip3 a =? 0xff)).
Definition isMulticast (a : Ipv4Address) : bool := Z.land (ip0 a) 0xf0 =? 0xe0.
Definition isLinkLocal (a : Ipv4Address) : bool := (ip0 a =? 169) && (ip1 a =? 254).

(** ** Little-endian loads *)

Definition le (bs : list Z) : Z := fold_right (fun b acc => b + 256 * acc) 0 bs.
Definition load (n : nat) (buf : list Z) : Z := le (take n buf).

Definition toU32 (a : Ipv4Address) : Z := le [ip0 a; ip1 a; ip2 a; ip3 a].
Definition ip_of_u32 (addr : Z) : Ipv4Address :=
  mkIp (u8 addr) (u8 (Z.shiftr addr 8)) (u8 (Z.shiftr addr 16)) (u8 (Z.shiftr addr 24)).

(** ** The assembly *)

(** [add]/[adc] at width [w]: the result and the carry flag. *)
Definition adc (w a b cf : Z) : Z * Z := ((a + b + cf) mod 2 ^ w, (a + b + cf) / 2 ^ w).

(** [add] of the first word, [adc] of the others, [adc $0]. *)
Definition adc_chain (w a : Z) (ws : list Z) : Z :=
  let '(r, cf) := fold_left (fun '(r, cf) b => adc w r b cf) ws (a, 0) in
  (adc w r 0 cf).1.

Definition CsumFold (sum : Z) : Z :=
  let lower_sum := u32 (Z.shiftl sum 16) in
  let sum := Z.land sum 0xffff0000 in
  let '(sum, cf) := adc 32 sum lower_sum 0 in
  let '(sum, _) := adc 32 sum 0xffff cf in
  u16 (Z.lnot (Z.shiftr sum 16)).

Definition From32To16 (val : Z) : Z := adc_chain 16 (u16 (Z.shiftr val 16)) [u16 val].
Definition Add32WithCarry (a b : Z) : Z := adc_chain 32 a [b].

(** ** Csum *)

(** The [while (count64)] loop: a cache line at a time. *)
Fixpoint csum_lines (count64 : nat) (result : Z) (buf : list Z) : Z * list Z :=
  match count64 with
  | O => (result, buf)
  | S count64 =>
      let ws := (fun i => load 8 (drop (8 * i) buf)) <$> seq 0 8 in
      csum_lines count64 (adc_chain 64 result ws) (drop 64 buf)
  end.

(** The [while (count)] loop: 8 bytes at a time. *)
Fixpoint csum_qwords (count : nat) (result : Z) (buf : list Z) : Z * list Z :=
  match count with
  | O => (result, buf)
  | S count => csum_qwords count (adc_chain 64 result [load 8 buf]) (drop 8 buf)
  end.

(** The block under [if (count)] for 32-bit words. *)
Definition csum_dwords (count result len : Z) (buf : list Z) (addr : Z) : Z * Z * list Z :=
  let '(result, count, len, buf) :=
    if negb (Z.land addr 4 =? 0)
    then (u64 (result + load 4 buf), count - 1, len - 4, drop 4 buf)
    else (result, count, len, buf) in
  let count := Z.shiftr count 1 in
  let count64 := u32 (Z.shiftr count 3) in
  let '(result, buf) := csum_lines (Z.to_nat count64) result buf in
  let '(result, buf) := csum_qwords (Z.to_nat (count mod 8)) result buf in
  let result := Add32WithCarry (Z.shiftr result 32) (Z.land result 0xffffffff) in
  if negb (Z.land len 4 =? 0) then (u64 (result + load 4 buf), len, drop 4 buf) else (result, len, buf).

(** The block under [if (count)] for 16-bit words. *)
Definition csum_words (count result len : Z) (buf : list Z) (addr : Z) : Z * Z * list Z :=
  let '(result, count, len, buf, addr) :=
    if negb (Z.land addr 2 =? 0)
    then (u64 (result + load 2 buf), count - 1, len - 2, drop 2 buf, addr + 2)
    else (result, count, len, buf, addr) in
  let count := Z.shiftr count 1 in
  let '(result, len, buf) :=
    if negb (count =? 0) then csum_dwords count result len buf addr else (result, len, buf) in
  if negb (Z.land len 2 =? 0) then (u64 (result + load 2 buf), len, drop 2 buf) else (result, len, buf).

Definition Csum (addr : Z) (buf : list Z) (offset : Z) : Z :=
  let len := Z.of_nat (length buf) in
  if len =? 0 then 0 else
  let odd_ptr := Z.land addr 1 in
  let '(result, len, buf, addr) :=
    if negb (odd_ptr =? 0)
    then (Z.shiftl (load 1 buf) 8, len - 1, drop 1 buf, addr + 1)
    else (0, len, buf, addr) in
  let count := Z.shiftr len 1 in
  let '(result, len, buf) :=
    if negb (count =? 0) then csum_words count result len buf addr else (result, len, buf) in
  let result := if negb (Z.land len 1 =? 0) then u64 (result + load 1 buf) else result in
  let result := Add32WithCarry (Z.shiftr result 32) (Z.land result 0xffffffff) in
  if negb (Z.lxor odd_ptr (Z.land offset 1) =? 0) then
    let result := From32To16 result in
    Z.lor (Z.land (Z.shiftr result 8) 0xff) (Z.shiftl (Z.land result 0xff) 8)
  else result.

(** ** Buffer chains: each element is the data of one IOBuf *)

Definition chain : Type := list (Z * list Z).
Definition chain_data (c : chain) : list Z := concat (snd <$> c).
Definition ComputeChainDataLength (c : chain) : Z := foldr (fun b n => Z.of_nat (length b.2) + n) 0 c.

Definition IpCsumNoFold (buf : chain) : Z :=
  (fold_left (fun '(ret, offset) b =>
     (Add32WithCarry ret (Csum b.1 b.2 offset), u64 (offset + Z.of_nat (length b.2)))) buf (0, 0)).1.

Definition ntohs (x : Z) : Z := Z.lor (Z.shiftr (u16 x) 8) (u16 (Z.shiftl x 8)).

Definition PseudoCsum (len proto : Z) (src dst : Ipv4Address) : Z :=
  let lenproto := u32 (Z.shiftl (ntohs len) 16 + Z.shiftl proto 8) in
  adc_chain 32 0 [toU32 dst; toU32 src; lenproto].

Definition OffloadPseudoCsum (buf : chain) (proto : Z) (src dst : Ipv4Address) : Z :=
  From32To16 (PseudoCsum (u16 (ComputeChainDataLength buf)) proto src dst).

Definition IpPseudoCsum (buf : chain) (proto : Z) (src dst : Ipv4Address) : Z :=
  let sum := IpCsumNoFold buf in
  let header_sum := PseudoCsum (u16 (ComputeChainDataLength buf)) proto src dst in
  CsumFold (Add32WithCarry sum header_sum).

Definition IpCsum (buf : chain) : Z := CsumFold (IpCsumNoFold buf).
Definition IpCsum_region (addr : Z) (buf : list Z) : Z := CsumFold (Csum addr buf 0).

(** ** Reference: the one's-complement sum of RFC 1071 *)

(** 16-bit words as stored, an odd last byte padded with zero. *)
Fixpoint words16 (bs : list Z) : list Z :=
  match bs with
  | a :: b :: bs => (a + 256 * b) :: words16 bs
  | [a] => [a]
  | [] => []
  end.
(** End-around carry addition. *)
Definition add1c (a b : Z) : Z := if a + b <? 2 ^ 16 then a + b else a + b - 65535.
Definition ones_sum (bs : list Z) : Z := fold_left add1c (words16 bs) 0.
Definition compl16 (x : Z) : Z := 65535 - x.

(** ** One's-complement equivalence

    Equal modulo 65535, and zero only together: what end-around carry
    additions at any width, and the order of the words, preserve. *)
Definition csim (x y : Z) : Prop := 0 <= x /\ 0 <= y /\ x mod 65535 = y mod 65535 /\ (x = 0 <-> y = 0).

Lemma csim_refl x : 0 <= x -> csim x x.
Proof. unfold csim. tauto. Qed.
Lemma csim_sym x y : csim x y -> csim y x.
Proof. unfold csim. intuition congruence. Qed.
Lemma csim_trans x y z : csim x y -> csim y z -> csim x z.
Proof. unfold csim. intuition congruence. Qed.

Lemma csim_add x x' y y' : csim x x' -> csim y y' -> csim (x + y) (x' + y').
Proof.
  unfold csim. intros (? & ? & Hx & ?) (? & ? & Hy & ?). split_and!; [lia | lia | | lia].
  by rewrite Z.add_mod, Hx, Hy, <- Z.add_mod by lia.
Qed.
Lemma csim_mul c x x' : 0 < c -> csim x x' -> csim (c * x) (c * x').
Proof.
  unfold csim. intros ? (? & ? & Hx & ?). split_and!; [lia | lia | | nia].
  by rewrite Z.mul_mod, Hx, <- Z.mul_mod by lia.
Qed.

(** A number is equivalent to any other that differs by a multiple of 65535,
    if neither is zero. *)
Lemma csim_shift x y k : 0 < x -> 0 < y -> x = y + k * 65535 -> csim x y.
Proof. intros ? ? ->. unfold csim. rewrite Z_mod_plus_full. lia. Qed.

(** Multiplying by 2^16 is the identity. *)
Lemma csim_pow16 x : 0 <= x -> csim (2 ^ 16 * x) x.
Proof.
  intros. destruct (decide (x = 0)) as [->|]; [by apply csim_refl |].
  apply (csim_shift _ _ x); lia.
Qed.
Lemma csim_pow16n n x : 0 <= x -> csim (2 ^ (16 * Z.of_nat n) * x) x.
Proof.
  intros Hx. induction n as [|n IH]; [rewrite Z.mul_1_l; by apply csim_refl |].
  replace (16 * Z.of_nat (S n)) with (16 + 16 * Z.of_nat n) by lia.
  rewrite Z.pow_add_r, <- Z.mul_assoc by lia. eapply csim_trans; [| exact IH].
  apply csim_pow16. pose proof (pow2_pos (16 * Z.of_nat n)). nia.
Qed.

(** Equivalent 16-bit values are equal. *)
Lemma csim_eq16 x y : csim x y -> x <= 65535 -> y <= 65535 -> x = y.
Proof.
  intros (? & ? & Hm & ?) ? ?.
  destruct (decide (x = 65535)) as [->|], (decide (y = 65535)) as [->|]; [done | | |].
  - rewrite Z_mod_same_full, Z.mod_small in Hm by lia. lia.
  - rewrite Z_mod_same_full, Z.mod_small in Hm by lia. lia.
  - by rewrite !Z.mod_small in Hm by lia.
Qed.

(** ** Bytes *)

Definition bytes (bs : list Z) : Prop := Forall (fun b => 0 <= b < 256) bs.

Definition bytes_b (bs : list Z) : bool := forallb (fun b => (0 <=? b) && (b <? 256)) bs.
Lemma bytes_b_spec bs : bytes_b bs = true -> bytes bs.
Proof.
  unfold bytes_b. rewrite forallb_forall. intros Hf. apply Forall_forall. intros b Hb.
  apply list_elem_of_In, Hf in Hb. bool_to_prop. lia.
Qed.

Lemma bytes_take n bs : bytes bs -> bytes (take n bs).
Proof. apply Forall_take. Qed.
Lemma bytes_drop n bs : bytes bs -> bytes (drop n bs).
Proof. apply Forall_drop. Qed.
#[export] Hint Resolve bytes_take bytes_drop : ebbrt.

Lemma le_cons b bs : le (b :: bs) = b + 256 * le bs.
Proof. done. Qed.

Lemma le_range bs : bytes bs -> 0 <= le bs < 2 ^ (8 * Z.of_nat (length bs)).
Proof.
  induction 1 as [|b bs Hb _ IH]; [cbn; lia |]. rewrite le_cons. cbn [length].
  replace (8 * Z.of_nat (S (length bs))) with (8 + 8 * Z.of_nat (length bs)) by lia.
  rewrite Z.pow_add_r by lia. change (2 ^ 8) with 256. lia.
Qed.

Lemma le_nonneg bs : bytes bs -> 0 <= le bs.
Proof. intros. by apply le_range. Qed.

Lemma le_app a b : le (a ++ b) = le a + 2 ^ (8 * Z.of_nat (length a)) * le b.
Proof.
  induction a as [|x a IH]; [cbn [app length]; change (le []) with 0; lia |].
  cbn [app length]. rewrite !le_cons, IH.
  replace (8 * Z.of_nat (S (length a))) with (8 + 8 * Z.of_nat (length a)) by lia.
  rewrite Z.pow_add_r by lia. change (2 ^ 8) with 256. lia.
Qed.

(** Splitting at an even position adds the sums. *)
Lemma csim_app a b : bytes a -> bytes b -> Nat.even (length a) = true -> csim (le a + le b) (le (a ++ b)).
Proof.
  intros Ha Hb He. rewrite le_app. apply csim_add; [by apply csim_refl, le_nonneg |].
  apply Nat.even_spec in He as [n ->]. apply csim_sym.
  replace (8 * Z.of_nat (2 * n)) with (16 * Z.of_nat n) by lia.
  by apply csim_pow16n, le_nonneg.
Qed.

Lemma load_range n buf : bytes buf -> 0 <= load n buf < 2 ^ (8 * Z.of_nat n).
Proof.
  intros Hb. unfold load. pose proof (le_range (take n buf) (bytes_take _ _ Hb)) as Hr.
  assert (2 ^ (8 * Z.of_nat (length (take n buf))) <= 2 ^ (8 * Z.of_nat n)); [| lia].
  apply Z.pow_le_mono_r; [lia |]. rewrite length_take. lia.
Qed.

(** A load of [n] bytes, [n] even, and the rest. *)
Lemma csim_load n buf : bytes buf -> Nat.even n = true -> (n <= length buf)%nat ->
  csim (load n buf + le (drop n buf)) (le buf).
Proof.
  intros Hb He Hn. rewrite <- (take_drop n buf) at 3. apply csim_app; auto with ebbrt.
  rewrite length_take_le; done.
Qed.

(** ** Carry chains *)

(** The widths at which 2^w - 1 is a multiple of 65535. *)
Definition csum_width (w : Z) : Prop := exists k, 0 < k /\ 2 ^ w = 1 + k * 65535.
Lemma csum_width16 : csum_width 16.
Proof. by exists 1. Qed.
Lemma csum_width32 : csum_width 32.
Proof. by exists 65537. Qed.
Lemma csum_width64 : csum_width 64.
Proof. by exists ((2 ^ 64 - 1) / 65535). Qed.
#[export] Hint Resolve csum_width16 csum_width32 csum_width64 : ebbrt.

Definition zsum (ws : list Z) : Z := foldr Z.add 0 ws.

(** The pending carry never meets a full register, so the last [adc $0] does
    not overflow. *)
Lemma adc_fold w ws : csum_width w -> forall r cf t,
  Forall (in_u w) ws -> 0 <= r -> 0 <= cf <= 1 -> r + cf < 2 ^ w -> csim (r + cf) t ->
  exists r' cf', fold_left (fun '(r, cf) b => adc w r b cf) ws (r, cf) = (r', cf') /\
    0 <= r' /\ 0 <= cf' <= 1 /\ r' + cf' < 2 ^ w /\ csim (r' + cf') (t + zsum ws).
Proof.
  intros (k & Hk & Hw). induction ws as [|b ws IH]; intros r cf t Hws Hr Hcf Hlt Hs.
  { exists r, cf. cbn. rewrite Z.add_0_r. done. }
  apply Forall_cons in Hws as [Hb Hws]. unfold in_u in Hb. cbn [fold_left].
  assert (exists r1 cf1, adc w r b cf = (r1, cf1) /\ 0 <= r1 /\ 0 <= cf1 <= 1 /\ r1 + cf1 < 2 ^ w /\
    csim (r1 + cf1) (t + b)) as (r1 & cf1 & E & H1 & H2 & H3 & H4).
  { unfold adc. destruct (decide (r + b + cf < 2 ^ w)).
    - rewrite Z.mod_small, Z.div_small by lia. eexists _, _. split; [done |]. split_and!; [lia.. |].
      replace (r + b + cf + 0) with (r + cf + b) by lia. apply csim_add; [done | apply csim_refl; lia].
    - assert ((r + b + cf) / 2 ^ w = 1) as Hd by (symmetry; apply (Z.div_unique _ _ 1 (r + b + cf - 2 ^ w)); lia).
      assert ((r + b + cf) mod 2 ^ w = r + b + cf - 2 ^ w) as Hm by (rewrite Z.mod_eq, Hd; lia).
      rewrite Hd, Hm. eexists _, _. split; [done |]. split_and!; [lia.. |].
      eapply csim_trans; [| apply csim_add; [exact Hs | apply csim_refl; lia]].
      apply (csim_shift _ _ (- k)); lia. }
  rewrite E. destruct (IH r1 cf1 (t + b)) as (r' & cf' & E' & ?); [done.. |].
  exists r', cf'. split; [done |]. cbn [zsum foldr]. rewrite Z.add_assoc. done.
Qed.

Lemma adc_chain_spec w a ws : csum_width w -> in_u w a -> Forall (in_u w) ws ->
  in_u w (adc_chain w a ws) /\ csim (adc_chain w a ws) (a + zsum ws).
Proof.
  intros Hw Ha Hws. unfold in_u in Ha. unfold adc_chain.
  destruct (adc_fold w ws Hw a 0 a) as (r & cf & -> & ? & ? & ? & Hs); [done | lia | lia | lia | |].
  { rewrite Z.add_0_r. apply csim_refl. lia. }
  unfold adc. cbn [fst]. rewrite Z.add_0_r, Z.mod_small by lia. unfold in_u. split; [lia | done].
Qed.

Lemma Add32WithCarry_spec a b : in_u 32 a -> in_u 32 b ->
  in_u 32 (Add32WithCarry a b) /\ csim (Add32WithCarry a b) (a + b).
Proof.
  intros Ha Hb. pose proof (adc_chain_spec 32 a [b] csum_width32 Ha) as Hc.
  cbn [zsum foldr] in Hc. rewrite Z.add_0_r in Hc. apply Hc. by apply Forall_singleton.
Qed.

(** The two halves of a [2w]-bit value. *)
Lemma csim_halves w x : csum_width w -> 0 < w -> 0 <= x -> csim (x / 2 ^ w + x mod 2 ^ w) x.
Proof.
  intros (k & ? & Hw) ? Hx. pose proof (Z.div_mod x (2 ^ w) ltac:(lia)) as Hd.
  pose proof (Z.mod_pos_bound x (2 ^ w) ltac:(lia)).
  assert (0 <= x / 2 ^ w) by (apply Z.div_pos; lia).
  destruct (decide (x = 0)) as [->|].
  { rewrite Z.div_0_l, Z.mod_0_l by lia. by apply csim_refl. }
  apply (csim_shift _ _ (- (k * (x / 2 ^ w)))); [nia | lia | nia].
Qed.

Lemma fold64_spec x : in_u 64 x ->
  let r := Add32WithCarry (Z.shiftr x 32) (Z.land x 0xffffffff) in in_u 32 r /\ csim r x.
Proof.
  intros Hx. unfold in_u in Hx. rewrite Z.shiftr_div_pow2 by lia.
  change 0xffffffff with (Z.ones 32). rewrite Z.land_ones by lia.
  destruct (Add32WithCarry_spec (x / 2 ^ 32) (x mod 2 ^ 32)) as [Hr Hs].
  - unfold in_u. split; [apply Z.div_pos; lia | apply Z.div_lt_upper_bound; lia].
  - apply Z.mod_pos_bound. lia.
  - split; [done |]. eapply csim_trans; [exact Hs |]. apply csim_halves; [apply csum_width32 | lia | lia].
Qed.

Lemma From32To16_spec x : in_u 32 x -> in_u 16 (From32To16 x) /\ csim (From32To16 x) x.
Proof.
  intros Hx. unfold in_u in Hx. unfold From32To16, u16.
  rewrite Z.shiftr_div_pow2 by lia.
  assert (in_u 16 (x / 2 ^ 16)) as Hd
    by (unfold in_u; split; [apply Z.div_pos; lia | apply Z.div_lt_upper_bound; lia]).
  rewrite (wrap_small 16 (x / 2 ^ 16)) by done. unfold wrap.
  destruct (adc_chain_spec 16 (x / 2 ^ 16) [x mod 2 ^ 16]) as [Hr Hs];
    [apply csum_width16 | done | apply Forall_singleton; apply Z.mod_pos_bound; lia |].
  split; [done |]. eapply csim_trans; [exact Hs |]. cbn [zsum foldr]. rewrite Z.add_0_r.
  apply csim_halves; [apply csum_width16 | lia | lia].
Qed.

Lemma CsumFold_spec s : in_u 32 s -> in_u 16 (CsumFold s) /\ csim (compl16 (CsumFold s)) s.
Proof.
  intros Hs. unfold in_u in Hs. set (h := s / 2 ^ 16). set (l := s mod 2 ^ 16).
  assert (s = h * 2 ^ 16 + l) as Es by (unfold h, l; rewrite (Z.div_mod s (2 ^ 16)) at 1; lia).
  assert (0 <= l < 2 ^ 16) by (apply Z.mod_pos_bound; lia).
  assert (0 <= h < 2 ^ 16) by lia.
  assert (Z.land s 0xffff0000 = h * 2 ^ 16) as E1.
  { change 0xffff0000 with (Z.land (Z.ones 32) (Z.lnot (Z.ones 16))).
    rewrite Z.land_assoc, Z.land_ones, Z.mod_small, <- Z.ldiff_land, Z.ldiff_ones_r by lia.
    by rewrite Z.shiftl_mul_pow2, Z.shiftr_div_pow2 by lia. }
  assert (u32 (Z.shiftl s 16) = l * 2 ^ 16) as E2.
  { unfold u32, wrap. rewrite Z.shiftl_mul_pow2 by lia. change (2 ^ 32) with (2 ^ 16 * 2 ^ 16).
    by rewrite Z.mul_mod_distr_r by lia. }
  assert (CsumFold s = 65535 - (if h + l <? 2 ^ 16 then h + l else h + l - 65535)) as ->.
  { unfold CsumFold. rewrite E1, E2. unfold adc.
    assert (forall v x, 0 <= v < 2 ^ 16 -> 0 <= x < 2 ^ 16 ->
      u16 (Z.lnot (Z.shiftr ((v * 2 ^ 16 + x) mod 2 ^ 32) 16)) = 65535 - v) as Hout.
    { intros v x ? ?. rewrite Z.mod_small, Z.shiftr_div_pow2, Z.div_add_l, (Z.div_small x) by lia.
      rewrite Z.add_0_r. unfold Z.lnot, u16, wrap.
      rewrite <- (Z_mod_plus_full _ 1), Z.mod_small; lia. }
    destruct (Z.ltb_spec (h + l) (2 ^ 16)).
    - rewrite (Z.mod_small (h * _ + _ + 0)), (Z.div_small (h * _ + _ + 0)) by lia.
      rewrite <- (Hout (h + l) 65535) by lia. do 4 f_equal. lia.
    - assert ((h * 2 ^ 16 + l * 2 ^ 16 + 0) / 2 ^ 32 = 1) as Hd
        by (symmetry; apply (Z.div_unique _ _ 1 ((h + l - 2 ^ 16) * 2 ^ 16)); lia).
      assert ((h * 2 ^ 16 + l * 2 ^ 16 + 0) mod 2 ^ 32 = (h + l - 2 ^ 16) * 2 ^ 16) as Hm
        by (rewrite Z.mod_eq, Hd; lia).
      rewrite Hd, Hm, <- (Hout (h + l - 65535) 0) by lia. do 4 f_equal. lia. }
  unfold compl16, in_u. destruct (Z.ltb_spec (h + l) (2 ^ 16)).
  - split; [lia |]. replace (65535 - (65535 - (h + l))) with (h + l) by lia.
    apply csim_halves; [apply csum_width16 | lia | lia].
  - split; [lia |]. apply (csim_shift _ _ (- h - 1)); lia.
Qed.

(** ** The loops of Csum: every step keeps the total of the accumulator and the
    bytes still to be read *)

Lemma csum_qwords_spec n r buf : bytes buf -> in_u 64 r -> (8 * n <= length buf)%nat ->
  exists r', csum_qwords n r buf = (r', drop (8 * n) buf) /\ in_u 64 r' /\
    csim (r' + le (drop (8 * n) buf)) (r + le buf).
Proof.
  revert r buf. induction n as [|n IH]; intros r buf Hb Hr Hl; cbn [csum_qwords].
  { exists r. rewrite drop_0. split_and!; [done | done |]. apply csim_refl.
    pose proof (le_nonneg _ Hb). unfold in_u in Hr. lia. }
  pose proof (load_range 8 buf Hb) as Hload.
  destruct (adc_chain_spec 64 r [load 8 buf]) as [Hr' Hs];
    [apply csum_width64 | done | by apply Forall_singleton |].
  destruct (IH (adc_chain 64 r [load 8 buf]) (drop 8 buf)) as (r' & -> & Hin & Hc);
    [auto with ebbrt | done | rewrite length_drop; lia |].
  exists r'. rewrite drop_drop. replace (8 + 8 * n)%nat with (8 * S n)%nat by lia.
  rewrite drop_drop in Hc. replace (8 + 8 * n)%nat with (8 * S n)%nat in Hc by lia.
  split_and!; [done | done |]. eapply csim_trans; [exact Hc |].
  eapply csim_trans; [apply csim_add; [exact Hs | by apply csim_refl, le_nonneg, bytes_drop] |].
  cbn [zsum foldr]. rewrite Z.add_0_r, <- Z.add_assoc. apply csim_add; [| apply csim_load; [done | done | lia]].
  apply csim_refl. unfold in_u in Hr. lia.
Qed.

Lemma zsum_snoc l x : zsum (l ++ [x]) = zsum l + x.
Proof. unfold zsum. induction l as [|y l IH]; cbn in *; lia. Qed.

Lemma zsum_nonneg w l : Forall (in_u w) l -> 0 <= zsum l.
Proof. unfold zsum, in_u. induction 1; cbn in *; lia. Qed.

(** Consecutive loads of [k] bytes. *)
Lemma line_loads k n buf : Nat.even k = true -> bytes buf -> (k * n <= length buf)%nat ->
  Forall (in_u (8 * Z.of_nat k)) ((fun i => load k (drop (k * i) buf)) <$> seq 0 n) /\
  csim (zsum ((fun i => load k (drop (k * i) buf)) <$> seq 0 n) + le (drop (k * n) buf)) (le buf).
Proof.
  intros Hk Hb. induction n as [|n IH]; intros Hl.
  { split; [apply Forall_nil_2 |]. rewrite Nat.mul_0_r, drop_0. cbn. by apply csim_refl, le_nonneg. }
  destruct IH as [IHf IHs]; [lia |]. rewrite seq_S, fmap_app. cbn [fmap list_fmap Nat.add]. split.
  { apply Forall_app_2; [done |]. apply Forall_singleton, (load_range k), bytes_drop, Hb. }
  eapply csim_trans; [| exact IHs].
  rewrite zsum_snoc.
  pose proof (zsum_nonneg _ _ IHf) as Hz.
  rewrite <- Z.add_assoc. apply csim_add; [by apply csim_refl |].
  replace (k * S n)%nat with (k * n + k)%nat by lia. rewrite <- drop_drop.
  apply csim_load; [auto with ebbrt | done | rewrite length_drop; lia].
Qed.

Lemma csum_lines_spec n r buf : bytes buf -> in_u 64 r -> (64 * n <= length buf)%nat ->
  exists r', csum_lines n r buf = (r', drop (64 * n) buf) /\ in_u 64 r' /\
    csim (r' + le (drop (64 * n) buf)) (r + le buf).
Proof.
  revert r buf. induction n as [|n IH]; intros r buf Hb Hr Hl; cbn [csum_lines].
  { exists r. rewrite drop_0. split_and!; [done | done |]. apply csim_refl.
    pose proof (le_nonneg _ Hb). unfold in_u in Hr. lia. }
  destruct (line_loads 8 8 buf eq_refl Hb ltac:(lia)) as [Hf Hs8]. change (8 * Z.of_nat 8) with 64 in Hf.
  set (ws := (fun i => load 8 (drop (8 * i) buf)) <$> seq 0 8) in *.
  destruct (adc_chain_spec 64 r ws) as [Hr' Hs]; [apply csum_width64 | done | done |].
  destruct (IH (adc_chain 64 r ws) (drop 64 buf)) as (r' & -> & Hin & Hc);
    [auto with ebbrt | done | rewrite length_drop; lia |].
  exists r'. rewrite drop_drop in *. replace (64 + 64 * n)%nat with (64 * S n)%nat in * by lia.
  split_and!; [done | done |]. eapply csim_trans; [exact Hc |].
  eapply csim_trans; [apply csim_add; [exact Hs | by apply csim_refl, le_nonneg, bytes_drop] |].
  rewrite <- Z.add_assoc. apply csim_add; [| exact Hs8].
  apply csim_refl. unfold in_u in Hr. lia.
Qed.

Lemma land_bit n k : 0 <= k -> negb (Z.land n (2 ^ k) =? 0) = ((n / 2 ^ k) mod 2 =? 1).
Proof.
  intros Hk. pose proof (pow2_pos k Hk).
  assert (Z.land n (2 ^ k) = if Z.testbit n k then 2 ^ k else 0) as ->.
  { apply Z.bits_inj'. intros j Hj. rewrite Z.land_spec, Z.pow2_bits_eqb by lia.
    destruct (Z.eqb_spec k j) as [->|].
    - destruct (Z.testbit n j); [by rewrite Z.pow2_bits_true | by rewrite Z.bits_0].
    - rewrite andb_false_r. destruct (Z.testbit n k); [by rewrite Z.pow2_bits_false by lia | by rewrite Z.bits_0]. }
  pose proof (Z.testbit_spec' n k Hk) as Hb. rewrite <- Hb.
  destruct (Z.testbit n k); cbn [Z.b2z]; [| done]. destruct (Z.eqb_spec (2 ^ k) 0); [lia | done].
Qed.

#[local] Ltac Zify.zify_post_hook ::= Z.to_euclidean_division_equations.

(** A plain load of [n] bytes, far from overflow. *)
Lemma read_step n r buf : bytes buf -> (n = 2 \/ n = 4)%nat -> (n <= length buf)%nat -> 0 <= r < 2 ^ 40 ->
  u64 (r + load n buf) = r + load n buf /\ 0 <= load n buf < 2 ^ 32 /\
  csim (r + load n buf + le (drop n buf)) (r + le buf).
Proof.
  intros Hb Hn Hl Hr. pose proof (load_range n buf Hb) as Hld.
  assert (2 ^ (8 * Z.of_nat n) <= 2 ^ 32) by (apply Z.pow_le_mono_r; lia).
  split_and!; [unfold u64; apply wrap_small; unfold in_u; lia | lia | lia |].
  rewrite <- Z.add_assoc. apply csim_add; [apply csim_refl; lia |].
  apply csim_load; [done | destruct Hn as [->| ->]; done | done].
Qed.

Lemma csum_loops_spec q r buf : bytes buf -> 0 <= r < 2 ^ 40 -> 0 <= q < 2 ^ 35 ->
  8 * q <= Z.of_nat (length buf) ->
  exists r' r0, csum_lines (Z.to_nat (u32 (Z.shiftr q 3))) r buf =
      (r0, drop (64 * Z.to_nat (q / 8)) buf) /\
    csum_qwords (Z.to_nat (q mod 8)) r0 (drop (64 * Z.to_nat (q / 8)) buf) =
      (r', drop (Z.to_nat (8 * q)) buf) /\
    in_u 64 r' /\ csim (r' + le (drop (Z.to_nat (8 * q)) buf)) (r + le buf).
Proof.
  intros Hb Hr Hq Hl. rewrite Z.shiftr_div_pow2 by lia. change (2 ^ 3) with 8.
  assert (u32 (q / 8) = q / 8) as -> by (apply wrap_small; unfold in_u; lia).
  destruct (csum_lines_spec (Z.to_nat (q / 8)) r buf) as (r0 & -> & H0 & C0);
    [done | unfold in_u; lia | lia |].
  destruct (csum_qwords_spec (Z.to_nat (q mod 8)) r0 (drop (64 * Z.to_nat (q / 8)) buf))
    as (r' & E & H1 & C1); [auto with ebbrt | done | rewrite length_drop; lia |].
  rewrite drop_drop in E, C1.
  replace (64 * Z.to_nat (q / 8) + 8 * Z.to_nat (q mod 8))%nat with (Z.to_nat (8 * q)) in E, C1 by lia.
  exists r', r0. split_and!; [done | exact E | apply H1.. |]. by eapply csim_trans.
Qed.

Lemma csum_dwords_spec r buf addr : bytes buf -> 0 <= r < 2 ^ 33 ->
  4 <= Z.of_nat (length buf) < 2 ^ 38 ->
  let len := Z.of_nat (length buf) in
  exists r' len' buf', csum_dwords (len / 4) r len buf addr = (r', len', buf') /\
    0 <= r' < 2 ^ 34 /\ bytes buf' /\ 0 <= len' /\ Z.of_nat (length buf') = len' mod 4 /\
    len' mod 4 = len mod 4 /\ csim (r' + le buf') (r + le buf).
Proof.
  intros Hb Hr Hl len. unfold csum_dwords.
  change (Z.land addr 4) with (Z.land addr (2 ^ 2)). rewrite land_bit by lia.
  change (2 ^ 2) with 4.
  assert (exists r1 len1 buf1,
    (if (addr / 4) mod 2 =? 1 then (u64 (r + load 4 buf), len / 4 - 1, len - 4, drop 4 buf)
     else (r, len / 4, len, buf)) = (r1, len1 / 4, len1, buf1) /\
    0 <= r1 < 2 ^ 34 /\ bytes buf1 /\ len1 = Z.of_nat (length buf1) /\ len1 <= len /\
    len1 mod 4 = len mod 4 /\ csim (r1 + le buf1) (r + le buf))
    as (r1 & len1 & buf1 & -> & Hr1 & Hb1 & Hl1 & Hle & Hm1 & C1).
  { destruct (_ =? 1).
    - destruct (read_step 4 r buf) as (-> & ? & ?); [done | by right | lia | lia |].
      exists (r + load 4 buf), (len - 4), (drop 4 buf). rewrite length_drop.
      split_and!; [f_equal; f_equal; f_equal; lia | lia | lia | auto with ebbrt | lia.. | done].
    - exists r, len, buf. split_and!; [done | lia | lia | done | lia.. |]. apply csim_refl.
      pose proof (le_nonneg _ Hb). lia. }
  rewrite !(Z.shiftr_div_pow2 _ 1) by lia. change (2 ^ 1) with 2.
  destruct (csum_loops_spec (len1 / 4 / 2) r1 buf1) as (r2 & r0 & -> & -> & H2 & C2); [done | lia.. |].
  destruct (fold64_spec r2 H2) as [H3 C3]. cbn zeta in H3, C3.
  change (Z.land len1 4) with (Z.land len1 (2 ^ 2)). rewrite land_bit by lia.
  set (r3 := Add32WithCarry _ _) in *. set (buf2 := drop (Z.to_nat (8 * (len1 / 4 / 2))) buf1) in *.
  assert (bytes buf2) as Hb2 by (unfold buf2; auto with ebbrt).
  assert (Z.of_nat (length buf2) = len1 mod 8) as Hl2 by (unfold buf2; rewrite length_drop; lia).
  assert (csim (r3 + le buf2) (r + le buf)) as C4.
  { eapply csim_trans; [| exact C1]. eapply csim_trans; [| exact C2].
    apply csim_add; [done | by apply csim_refl, le_nonneg]. }
  unfold in_u in H3. change (2 ^ 2) with 4. destruct (Z.eqb_spec ((len1 / 4) mod 2) 1).
  - destruct (read_step 4 r3 buf2) as (-> & ? & C5); [done | by right | lia | lia |].
    eexists _, _, _. split; [done |]. rewrite length_drop.
    split_and!; [lia | lia | auto with ebbrt | lia | lia | lia | by eapply csim_trans].
  - eexists _, _, _. split; [done |]. split_and!; [lia | lia | done | lia | lia | lia | done].
Qed.

Lemma csum_words_spec r buf addr : bytes buf -> 0 <= r < 2 ^ 32 ->
  2 <= Z.of_nat (length buf) < 2 ^ 38 ->
  let len := Z.of_nat (length buf) in
  exists r' len' buf', csum_words (len / 2) r len buf addr = (r', len', buf') /\
    0 <= r' < 2 ^ 35 /\ bytes buf' /\ 0 <= len' /\ Z.of_nat (length buf') = len' mod 2 /\
    csim (r' + le buf') (r + le buf).
Proof.
  intros Hb Hr Hl len. unfold csum_words.
  change (Z.land addr 2) with (Z.land addr (2 ^ 1)). rewrite land_bit by lia.
  assert (exists r1 len1 buf1 addr1,
    (if (addr / 2 ^ 1) mod 2 =? 1 then (u64 (r + load 2 buf), len / 2 - 1, len - 2, drop 2 buf, addr + 2)
     else (r, len / 2, len, buf, addr)) = (r1, len1 / 2, len1, buf1, addr1) /\
    0 <= r1 < 2 ^ 33 /\ bytes buf1 /\ len1 = Z.of_nat (length buf1) /\ len1 <= len /\
    csim (r1 + le buf1) (r + le buf))
    as (r1 & len1 & buf1 & addr1 & -> & Hr1 & Hb1 & Hl1 & Hle & C1).
  { destruct (_ =? 1).
    - destruct (read_step 2 r buf) as (-> & ? & ?); [done | by left | lia | lia |].
      exists (r + load 2 buf), (len - 2), (drop 2 buf), (addr + 2). rewrite length_drop.
      split_and!; [f_equal; f_equal; f_equal; f_equal; lia | lia | lia | auto with ebbrt | lia.. | done].
    - exists r, len, buf, addr. split_and!; [done | lia | lia | done | lia.. |]. apply csim_refl.
      pose proof (le_nonneg _ Hb). lia. }
  rewrite (Z.shiftr_div_pow2 _ 1) by lia. change (2 ^ 1) with 2.
  replace (len1 / 2 / 2) with (len1 / 4) by (rewrite Z.div_div; lia).
  assert (exists r2 len2 buf2,
    (if negb (len1 / 4 =? 0) then csum_dwords (len1 / 4) r1 len1 buf1 addr1 else (r1, len1, buf1))
      = (r2, len2, buf2) /\ 0 <= r2 < 2 ^ 34 /\ bytes buf2 /\ 0 <= len2 /\
    Z.of_nat (length buf2) = len2 mod 4 /\ csim (r2 + le buf2) (r + le buf))
    as (r2 & len2 & buf2 & -> & Hr2 & Hb2 & Hl2 & Hm2 & C2).
  { destruct (Z.eqb_spec (len1 / 4) 0); cbn [negb].
    - exists r1, len1, buf1. split_and!; [done | lia | lia | done | lia | lia | done].
    - destruct (csum_dwords_spec r1 buf1 addr1) as (r2 & len2 & buf2 & E & ? & ? & ? & ? & ? & ?);
        [done | lia | lia |]. rewrite <- Hl1 in E. exists r2, len2, buf2.
      split_and!; [done | lia | lia | done | lia | lia | by eapply csim_trans]. }
  change (Z.land len2 2) with (Z.land len2 (2 ^ 1)). rewrite land_bit by lia. change (2 ^ 1) with 2.
  destruct (Z.eqb_spec ((len2 / 2) mod 2) 1).
  - destruct (read_step 2 r2 buf2) as (-> & ? & C5); [done | by left | lia | lia |].
    eexists _, _, _. split; [done |]. rewrite length_drop.
    split_and!; [lia | lia | auto with ebbrt | lia | lia | by eapply csim_trans].
  - eexists _, _, _. split; [done |]. split_and!; [lia | lia | done | lia | lia | done].
Qed.

(** Swapping the bytes of a 16-bit sum multiplies it by 2^8. *)
Lemma bswap16_spec x : in_u 16 x ->
  let y := Z.lor (Z.land (Z.shiftr x 8) 0xff) (Z.shiftl (Z.land x 0xff) 8) in
  y = x / 256 + 256 * (x mod 256) /\ in_u 16 y /\ csim y (256 * x).
Proof.
  intros Hx y. unfold in_u in *.
  assert (y = x / 256 + 256 * (x mod 256)) as Ey.
  { unfold y. change 0xff with (Z.ones 8).
    rewrite !Z.land_ones, Z.shiftr_div_pow2 by lia. change (2 ^ 8) with 256.
    rewrite (Z.mod_small (x / 256)), lor_shiftl by lia. lia. }
  split; [done |]. split; [lia |]. rewrite Ey. destruct (decide (x = 0)) as [->|]; [by apply csim_refl |].
  apply (csim_shift _ _ (- (x / 256))); lia.
Qed.

(** The weight of the bytes when the first one is a high byte. *)
Definition parity (odd : bool) : Z := if odd then 256 else 1.

Lemma in_u16_32 x : in_u 16 x -> in_u 32 x.
Proof. unfold in_u. lia. Qed.

Lemma land1_odd n : Z.land n 1 = if Z.odd n then 1 else 0.
Proof. change 1 with (Z.ones 1) at 1. rewrite Z.land_ones, Zmod_odd by lia. done. Qed.

(** The byte before the first even address. *)
Lemma csum_head_spec (odd : bool) buf addr : bytes buf -> buf <> [] ->
  let len := Z.of_nat (length buf) in
  exists r1 len1 buf1 addr1,
    (if negb ((if odd then 1 else 0) =? 0)
     then (Z.shiftl (load 1 buf) 8, len - 1, drop 1 buf, addr + 1)
     else (0, len, buf, addr)) = (r1, len1, buf1, addr1) /\
    0 <= r1 < 2 ^ 32 /\ bytes buf1 /\ len1 = Z.of_nat (length buf1) /\ len1 <= len /\
    csim (r1 + le buf1) (parity odd * le buf).
Proof.
  intros Hb Hne len. pose proof (le_nonneg _ Hb) as Hn. unfold parity. destruct odd; cbn [negb Z.eqb].
  - destruct buf as [|b buf]; [done |]. apply Forall_cons in Hb as [Hb Hb']. cbn beta in Hb.
    assert (Z.shiftl (load 1 (b :: buf)) 8 = b * 256) as ->.
    { rewrite Z.shiftl_mul_pow2 by lia. unfold load. cbn [take]. rewrite take_0. cbn. lia. }
    eexists _, _, _, _. split; [done |]. rewrite le_cons. cbn [drop length] in *. rewrite drop_0.
    pose proof (le_nonneg _ Hb'). split_and!; [lia | lia | done | lia.. |].
    replace (256 * (b + 256 * le buf)) with (b * 256 + 2 ^ 16 * le buf) by lia.
    apply csim_add; [apply csim_refl; lia |]. by apply csim_sym, csim_pow16.
  - eexists _, _, _, _. split; [done |]. split_and!; [lia | lia | done | done | lia |].
    rewrite Z.mul_1_l, Z.add_0_l. by apply csim_refl.
Qed.

(** The words and the last byte. *)
Lemma csum_body_spec r buf addr t : bytes buf -> 0 <= r < 2 ^ 32 -> Z.of_nat (length buf) < 2 ^ 38 ->
  csim (r + le buf) t ->
  let len := Z.of_nat (length buf) in
  exists r' len' buf',
    (if negb (len / 2 =? 0) then csum_words (len / 2) r len buf addr else (r, len, buf)) = (r', len', buf') /\
    let r3 := if negb (Z.land len' 1 =? 0) then u64 (r' + load 1 buf') else r' in
    in_u 64 r3 /\ csim r3 t.
Proof.
  intros Hb Hr Hl C len.
  assert (exists r2 len2 buf2,
    (if negb (len / 2 =? 0) then csum_words (len / 2) r len buf addr else (r, len, buf))
      = (r2, len2, buf2) /\ 0 <= r2 < 2 ^ 35 /\ bytes buf2 /\ 0 <= len2 /\
    Z.of_nat (length buf2) = len2 mod 2 /\ csim (r2 + le buf2) t)
    as (r2 & len2 & buf2 & -> & Hr2 & Hb2 & Hl2 & Hm2 & C2).
  { destruct (Z.eqb_spec (len / 2) 0); cbn [negb].
    - exists r, len, buf. split_and!; [done | lia | lia | done | lia | lia | done].
    - destruct (csum_words_spec r buf addr) as (r2 & len2 & buf2 & E & ? & ? & ? & ? & ?);
        [done | lia | lia |]. exists r2, len2, buf2.
      split_and!; [done | lia | lia | done | lia | lia | by eapply csim_trans]. }
  eexists _, _, _. split; [done |]. cbn zeta.
  change (Z.land len2 1) with (Z.land len2 (2 ^ 0)). rewrite land_bit by lia.
  change (2 ^ 0) with 1. unfold in_u. destruct (Z.eqb_spec ((len2 / 1) mod 2) 1).
  - destruct buf2 as [|b [|]]; [cbn in Hm2; lia | | cbn [length] in Hm2; lia].
    pose proof (load_range 1 [b] Hb2). unfold u64. rewrite wrap_small by (unfold in_u; lia).
    split; [lia | done].
  - destruct buf2; [| cbn [length] in Hm2; lia]. split; [lia |].
    change (le []) with 0 in C2. by rewrite Z.add_0_r in C2.
Qed.

(** The sum is the one of the bytes, seen at the parity of [offset]. *)
Lemma Csum_spec addr buf offset : bytes buf -> Z.of_nat (length buf) < 2 ^ 38 ->
  in_u 32 (Csum addr buf offset) /\ csim (Csum addr buf offset) (parity (Z.odd offset) * le buf).
Proof.
  intros Hb Hl. unfold Csum. pose proof (le_nonneg _ Hb) as Hn.
  destruct (Z.eqb_spec (Z.of_nat (length buf)) 0) as [H0|H0].
  { destruct buf; [| cbn in H0; lia]. split; [done |]. change (le []) with 0.
    rewrite Z.mul_0_r. by apply csim_refl. }
  rewrite !land1_odd. set (odd := Z.odd addr).
  destruct (csum_head_spec odd buf addr Hb) as (r1 & len1 & buf1 & addr1 & -> & Hr1 & Hb1 & -> & Hle & C1);
    [by intros -> |].
  rewrite (Z.shiftr_div_pow2 _ 1) by lia. change (2 ^ 1) with 2.
  destruct (csum_body_spec r1 buf1 addr1 _ Hb1 Hr1 ltac:(lia) C1) as (r2 & len2 & buf2 & -> & Hr3 & C3).
  cbn zeta in Hr3, C3. set (r3 := if negb (Z.land len2 1 =? 0) then _ else _) in *.
  destruct (fold64_spec r3 Hr3) as [H4 C4]. cbn zeta in H4, C4. set (r4 := Add32WithCarry _ _) in *.
  assert (csim r4 (parity odd * le buf)) as C5 by (by eapply csim_trans).
  destruct (From32To16_spec r4 H4) as [H6 C6]. destruct (bswap16_spec _ H6) as (_ & H7 & C7).
  cbn zeta in H7, C7. unfold parity in *.
  destruct odd, (Z.odd offset); cbn [Z.lxor Pos.lxor Z.eqb negb]; try done.
  - split; [by apply in_u16_32 |]. eapply csim_trans; [exact C7 |].
    eapply csim_trans; [apply csim_mul; [lia | by eapply csim_trans] |].
    rewrite Z.mul_assoc, Z.mul_1_l. by apply csim_pow16.
  - split; [by apply in_u16_32 |]. eapply csim_trans; [exact C7 |].
    apply csim_mul; [lia |]. rewrite Z.mul_1_l in C5. rewrite ?Z.mul_1_l. by eapply csim_trans.
Qed.

(** ** Chains *)

Lemma csim_parity n x : 0 <= x -> csim (2 ^ (8 * Z.of_nat n) * x) (parity (Z.odd (Z.of_nat n)) * x).
Proof.
  intros Hx.
  destruct (Nat.even n) eqn:E.
  - apply Nat.even_spec in E as [m ->]. replace (8 * Z.of_nat (2 * m)) with (16 * Z.of_nat m) by lia.
    rewrite Nat2Z.inj_mul, Z.odd_mul. cbn [andb Z.odd Z.of_nat Pos.of_succ_nat parity Pos.succ].
    rewrite Z.mul_1_l. by apply csim_pow16n.
  - assert (Nat.odd n = true) as [m ->]%Nat.odd_spec by (unfold Nat.odd; by rewrite E).
    replace (8 * Z.of_nat (2 * m + 1)) with (16 * Z.of_nat m + 8) by lia.
    replace (Z.of_nat (2 * m + 1)) with (1 + 2 * Z.of_nat m) by lia.
    rewrite Z.odd_add_mul_2. cbn [Z.odd parity]. rewrite Z.pow_add_r, <- Z.mul_assoc by lia.
    apply csim_pow16n. lia.
Qed.

Definition chain_ok (c : chain) : Prop := bytes (chain_data c) /\ Z.of_nat (length (chain_data c)) < 2 ^ 38.

Lemma IpCsumNoFold_fold c : forall d ret, bytes d -> bytes (chain_data c) ->
  Z.of_nat (length (d ++ chain_data c)) < 2 ^ 38 -> in_u 32 ret -> csim ret (le d) ->
  let r := (fold_left (fun '(ret, offset) b =>
     (Add32WithCarry ret (Csum b.1 b.2 offset), u64 (offset + Z.of_nat (length b.2)))) c
     (ret, Z.of_nat (length d))).1 in
  in_u 32 r /\ csim r (le (d ++ chain_data c)).
Proof.
  induction c as [|[addr buf] c IH]; intros d ret Hd Hc Hl Hr Hs.
  { cbn. by rewrite app_nil_r. }
  change (chain_data ((addr, buf) :: c)) with (buf ++ chain_data c) in *.
  apply Forall_app in Hc as [Hb Hc]. rewrite app_assoc in *. cbn [fold_left fst snd].
  rewrite !length_app in Hl. rewrite (wrap_small 64) by (unfold in_u; lia).
  rewrite <- Nat2Z.inj_add, <- length_app.
  destruct (Csum_spec addr buf (Z.of_nat (length d)) Hb ltac:(lia)) as [Hi Ci].
  destruct (Add32WithCarry_spec ret _ Hr Hi) as [Ha Ca].
  apply IH; [by apply Forall_app_2 | done | rewrite !length_app; lia | done |].
  eapply csim_trans; [exact Ca |]. rewrite le_app. apply csim_add; [done |].
  eapply csim_trans; [exact Ci |]. by apply csim_sym, csim_parity, le_nonneg.
Qed.

Lemma IpCsumNoFold_spec c : chain_ok c ->
  in_u 32 (IpCsumNoFold c) /\ csim (IpCsumNoFold c) (le (chain_data c)).
Proof.
  intros [Hb Hl]. apply (IpCsumNoFold_fold c [] 0); [apply Forall_nil_2 | done | done | done | by apply csim_refl].
Qed.

(** ** The reference *)

Lemma add1c_spec a b : in_u 16 a -> in_u 16 b -> in_u 16 (add1c a b) /\ csim (add1c a b) (a + b).
Proof.
  unfold in_u, add1c. intros. destruct (Z.ltb_spec (a + b) (2 ^ 16)).
  - split; [lia | apply csim_refl; lia].
  - split; [lia |]. apply (csim_shift _ _ (-1)); lia.
Qed.

Lemma words16_ind (P : list Z -> Prop) :
  P [] -> (forall a, P [a]) -> (forall a b bs, P bs -> P (a :: b :: bs)) -> forall bs, P bs.
Proof.
  intros H0 H1 H2 bs. enough (P bs /\ forall a, P (a :: bs)) by tauto.
  induction bs as [|b bs [IH1 IH2]]; split; auto.
Qed.

Lemma ones_sum_fold bs : bytes bs -> forall acc t, in_u 16 acc -> csim acc t ->
  in_u 16 (fold_left add1c (words16 bs) acc) /\ csim (fold_left add1c (words16 bs) acc) (t + le bs).
Proof.
  induction bs as [|a|a b bs IH] using words16_ind; intros Hb acc t Ha Hs; cbn [words16 fold_left].
  - change (le []) with 0. by rewrite Z.add_0_r.
  - apply Forall_cons in Hb as [Hb _]. cbn beta in Hb.
    destruct (add1c_spec acc a Ha ltac:(unfold in_u; lia)) as [Hi Ci].
    split; [done |]. eapply csim_trans; [exact Ci |]. rewrite le_cons. change (le []) with 0.
    rewrite Z.mul_0_r, Z.add_0_r. apply csim_add; [done | apply csim_refl; lia].
  - apply Forall_cons in Hb as [Hba Hb]. apply Forall_cons in Hb as [Hbb Hb]. cbn beta in Hba, Hbb.
    destruct (add1c_spec acc (a + 256 * b) Ha ltac:(unfold in_u; lia)) as [Hi Ci].
    destruct (IH Hb (add1c acc (a + 256 * b)) (t + (a + 256 * b)) Hi) as [Hr Cr].
    { eapply csim_trans; [exact Ci |]. apply csim_add; [done | apply csim_refl; lia]. }
    split; [done |]. eapply csim_trans; [exact Cr |]. pose proof (le_nonneg _ Hb).
    rewrite !le_cons, <- Z.add_assoc. apply csim_add; [apply csim_refl; destruct Hs; lia |].
    replace (a + 256 * (b + 256 * le bs)) with ((a + 256 * b) + 2 ^ 16 * le bs) by lia.
    apply csim_add; [apply csim_refl; lia | by apply csim_sym, csim_pow16].
Qed.

Lemma ones_sum_spec bs : bytes bs -> in_u 16 (ones_sum bs) /\ csim (ones_sum bs) (le bs).
Proof. intros Hb. apply (ones_sum_fold bs Hb 0 0); [done | by apply csim_refl]. Qed.

(** A folded sum is the complement of the reference. *)
Lemma CsumFold_ref s bs : bytes bs -> in_u 32 s -> csim s (le bs) -> CsumFold s = compl16 (ones_sum bs).
Proof.
  intros Hb Hs C. destruct (CsumFold_spec s Hs) as [Hi Ci], (ones_sum_spec bs Hb) as [Ho Co].
  unfold in_u in *. assert (compl16 (CsumFold s) = ones_sum bs) as <-; [| unfold compl16; lia].
  apply csim_eq16; [| unfold compl16; lia | lia].
  eapply csim_trans; [exact Ci |]. eapply csim_trans; [exact C |]. by apply csim_sym.
Qed.

Lemma IpCsum_region_spec addr buf : bytes buf -> Z.of_nat (length buf) < 2 ^ 38 ->
  IpCsum_region addr buf = compl16 (ones_sum buf).
Proof.
  intros Hb Hl. destruct (Csum_spec addr buf 0 Hb Hl) as [Hi C]. cbn [Z.odd parity] in C.
  rewrite Z.mul_1_l in C. by apply CsumFold_ref.
Qed.

(** ** Pseudo-header *)

Definition ip_bytes (a : Ipv4Address) : list Z := [ip0 a; ip1 a; ip2 a; ip3 a].
Definition ip_ok (a : Ipv4Address) : Prop := bytes (ip_bytes a).

(** The pseudo-header of RFC 793: source, destination, zero, protocol, and the
    length in network order. *)
Definition pseudo_header (len proto : Z) (src dst : Ipv4Address) : list Z :=
  ip_bytes src ++ ip_bytes dst ++ [0; proto; len / 256; len mod 256].

Lemma ntohs_spec x : in_u 16 x -> ntohs x = x / 256 + 256 * (x mod 256) /\ in_u 16 (ntohs x).
Proof.
  intros Hx. unfold in_u in Hx.
  assert (ntohs x = x / 256 + 256 * (x mod 256)) as E.
  { unfold ntohs, u16. rewrite (wrap_small 16 x) by done.
    assert (wrap 16 (Z.shiftl x 8) = Z.shiftl (x mod 256) 8) as ->.
    { unfold wrap. rewrite !Z.shiftl_mul_pow2 by lia. change (2 ^ 16) with (256 * 256).
      change (2 ^ 8) with 256. by rewrite Z.mul_mod_distr_r by lia. }
    rewrite Z.shiftr_div_pow2 by lia. change (2 ^ 8) with 256. rewrite lor_shiftl by lia. lia. }
  split; [done |]. unfold in_u. lia.
Qed.

Lemma pseudo_header_bytes len proto src dst :
  in_u 16 len -> in_u 8 proto -> ip_ok src -> ip_ok dst -> bytes (pseudo_header len proto src dst).
Proof.
  unfold in_u. intros. apply Forall_app_2; [done |]. apply Forall_app_2; [done |].
  repeat (apply Forall_cons_2; [lia |]). apply Forall_nil_2.
Qed.

Lemma PseudoCsum_spec len proto src dst :
  in_u 16 len -> in_u 8 proto -> ip_ok src -> ip_ok dst ->
  in_u 32 (PseudoCsum len proto src dst) /\
  csim (PseudoCsum len proto src dst) (le (pseudo_header len proto src dst)).
Proof.
  intros Hl Hp Hs Hd. unfold PseudoCsum.
  pose proof (le_range (ip_bytes dst) Hd : in_u 32 (toU32 dst)) as Hd32.
  pose proof (le_range (ip_bytes src) Hs : in_u 32 (toU32 src)) as Hs32.
  destruct (ntohs_spec len Hl) as [En Hn].
  assert (u32 (Z.shiftl (ntohs len) 16 + Z.shiftl proto 8) = le [0; proto; len / 256; len mod 256]) as ->.
  { rewrite !Z.shiftl_mul_pow2 by lia. unfold in_u in *. unfold u32. rewrite wrap_small by (unfold in_u; lia).
    rewrite En. cbn [le foldr]. lia. }
  set (tail := [0; proto; len / 256; len mod 256]).
  assert (bytes tail) as Ht.
  { unfold in_u in *. repeat (apply Forall_cons_2; [lia |]). apply Forall_nil_2. }
  pose proof (le_range tail Ht : in_u 32 (le tail)) as Ht32.
  destruct (adc_chain_spec 32 0 [toU32 dst; toU32 src; le tail]) as [Hr C];
    [apply csum_width32 | done | repeat (apply Forall_cons_2; [done |]); apply Forall_nil_2 |].
  split; [done |]. eapply csim_trans; [exact C |]. unfold pseudo_header. fold tail.
  eapply csim_trans; [| apply csim_app; [done | by apply Forall_app_2 | done]].
  replace (0 + zsum _) with (le (ip_bytes src) + (le (ip_bytes dst) + le tail))
    by (cbn [zsum foldr]; unfold toU32, ip_bytes; lia).
  apply csim_add; [by apply csim_refl, le_nonneg | by apply csim_app].
Qed.

Lemma chain_length_spec c : ComputeChainDataLength c = Z.of_nat (length (chain_data c)).
Proof.
  induction c as [|[addr buf] c IH]; [done |].
  change (chain_data ((addr, buf) :: c)) with (buf ++ chain_data c). rewrite length_app, Nat2Z.inj_add, <- IH. done.
Qed.

(** ** The theorems *)

(** C27. The checksum of a buffer chain is the complement of the RFC 1071 sum of
    its bytes, whatever the fragmentation of the chain and the alignment of its
    buffers. *)
Theorem IpCsum_correct c : chain_ok c -> IpCsum c = compl16 (ones_sum (chain_data c)).
Proof. intros Hc. destruct (IpCsumNoFold_spec c Hc). by apply CsumFold_ref; [apply Hc | ..]. Qed.

(** Fragments of 3, 50 and 80 bytes at addresses of different alignment. *)
Definition demo_chain : chain := [(0x1003, [0x45; 0x00; 0x12]); (0x2000, (fun n => Z.of_nat n + 200) <$> seq 0 50);
  (0x3006, (fun n => 3 * Z.of_nat n) <$> seq 0 80)].
Lemma IpCsum_correct_witness :
  IpCsum demo_chain = compl16 (ones_sum (chain_data demo_chain)) /\ IpCsum demo_chain = 44743.
Proof.
  split; [| by vm_compute]. apply IpCsum_correct. split; [by apply bytes_b_spec | by vm_compute].
Defined.

(** The TCP and UDP checksum is the complement of the RFC 1071 sum of the
    pseudo-header followed by the segment. *)
Theorem IpPseudoCsum_correct c proto src dst :
  bytes (chain_data c) -> Z.of_nat (length (chain_data c)) < 2 ^ 16 ->
  in_u 8 proto -> ip_ok src -> ip_ok dst ->
  IpPseudoCsum c proto src dst =
  compl16 (ones_sum (pseudo_header (Z.of_nat (length (chain_data c))) proto src dst ++ chain_data c)).
Proof.
  intros Hb Hl Hp Hs Hd. unfold IpPseudoCsum. rewrite chain_length_spec.
  set (len := Z.of_nat (length (chain_data c))) in *.
  assert (in_u 16 len) as Hlen by (unfold in_u; lia). unfold u16. rewrite wrap_small by done.
  destruct (IpCsumNoFold_spec c) as [H1 C1]; [split; [done | lia] |].
  destruct (PseudoCsum_spec len proto src dst) as [H2 C2]; [done.. |].
  destruct (Add32WithCarry_spec _ _ H1 H2) as [H3 C3].
  pose proof (pseudo_header_bytes len proto src dst Hlen Hp Hs Hd) as Hph.
  apply CsumFold_ref; [by apply Forall_app_2 | done |].
  eapply csim_trans; [exact C3 |]. rewrite Z.add_comm.
  eapply csim_trans; [apply csim_add; [exact C2 | exact C1] |]. by apply csim_app.
Qed.

Definition demo_src : Ipv4Address := mkIp 192 168 0 1.
Definition demo_dst : Ipv4Address := mkIp 192 168 0 199.
Lemma IpPseudoCsum_correct_witness :
  IpPseudoCsum [(0x1001, [1; 2; 3]); (0, [4; 5])] 6 demo_src demo_dst =
  compl16 (ones_sum (pseudo_header 5 6 demo_src demo_dst ++ [1; 2; 3; 4; 5])).
Proof.
  apply (IpPseudoCsum_correct [(0x1001, [1; 2; 3]); (0, [4; 5])]);
    [| done | done | |]; by apply bytes_b_spec.
Defined.

(** What is handed to the card for offloading is the sum of the
    pseudo-header alone, not complemented. *)
Theorem OffloadPseudoCsum_correct c proto src dst :
  Z.of_nat (length (chain_data c)) < 2 ^ 16 -> in_u 8 proto -> ip_ok src -> ip_ok dst ->
  OffloadPseudoCsum c proto src dst =
  ones_sum (pseudo_header (Z.of_nat (length (chain_data c))) proto src dst).
Proof.
  intros Hl Hp Hs Hd. unfold OffloadPseudoCsum. rewrite chain_length_spec.
  set (len := Z.of_nat (length (chain_data c))) in *.
  assert (in_u 16 len) as Hlen by (unfold in_u; lia). unfold u16. rewrite wrap_small by done.
  destruct (PseudoCsum_spec len proto src dst) as [H2 C2]; [done.. |].
  destruct (From32To16_spec _ H2) as [H3 C3].
  destruct (ones_sum_spec _ (pseudo_header_bytes len proto src dst Hlen Hp Hs Hd)) as [H4 C4].
  unfold in_u in *. apply csim_eq16; [| lia | lia].
  eapply csim_trans; [exact C3 |]. eapply csim_trans; [exact C2 |]. by apply csim_sym.
Qed.

Lemma OffloadPseudoCsum_correct_witness :
  OffloadPseudoCsum [(0, [1; 2; 3])] 17 demo_src demo_dst = ones_sum (pseudo_header 3 17 demo_src demo_dst).
Proof.
  apply (OffloadPseudoCsum_correct [(0, [1; 2; 3])]);
    [done | done | |]; by apply bytes_b_spec.
Defined.

(** A region that holds its own checksum at an even position sums to the
    negative zero. *)
Lemma ones_sum_verifies pre post : bytes pre -> bytes post -> Nat.even (length pre) = true ->
  let c := compl16 (ones_sum (pre ++ [0; 0] ++ post)) in
  0 <= c <= 65535 /\ bytes (pre ++ [c mod 256; c / 256] ++ post) /\ ones_sum (pre ++ [c mod 256; c / 256] ++ post) = 65535.
Proof.
  intros Hpre Hpost He c.
  assert (bytes (pre ++ [0; 0] ++ post)) as Hb0
    by (repeat (apply Forall_app_2; [done |] || apply Forall_cons_2 || lia); done).
  destruct (ones_sum_spec _ Hb0) as [Ho Co]. unfold in_u in Ho.
  assert (0 <= c <= 65535) as Hc by (unfold c, compl16; lia).
  assert (bytes ([c mod 256; c / 256])) as Hcb by (apply Forall_cons_2; [lia | apply Forall_singleton; lia]).
  assert (bytes (pre ++ [c mod 256; c / 256] ++ post)) as Hb1
    by (apply Forall_app_2; [done | by apply Forall_app_2]).
  destruct (ones_sum_spec _ Hb1) as [H1 C1]. unfold in_u in H1.
  assert (forall w, bytes w -> length w = 2%nat -> csim (le pre + (le w + le post)) (le (pre ++ w ++ post))) as Hsum.
  { intros w Hw Hlw. eapply csim_trans; [| apply csim_app; [done | by apply Forall_app_2 | done]].
    apply csim_add; [by apply csim_refl, le_nonneg |]. apply csim_app; [done | done | by rewrite Hlw]. }
  split_and!; [lia | lia | done |]. apply csim_eq16; [| lia | lia].
  eapply csim_trans; [exact C1 |]. eapply csim_trans; [apply csim_sym, Hsum; done |].
  replace (le [c mod 256; c / 256]) with c by (cbn [le foldr]; lia).
  replace (le pre + (c + le post)) with (c + (le pre + (le [0; 0] + le post))) by (cbn [le foldr]; lia).
  eapply csim_trans; [apply csim_add; [apply csim_refl; lia |] |].
  - eapply csim_trans; [apply Hsum; [by repeat constructor | done] |]. apply csim_sym, Co.
  - unfold c, compl16. replace (65535 - _ + _) with 65535 by lia. by apply csim_refl.
Qed.

(** Storing the checksum computed over a zeroed field at an even position
    makes the checksum of the whole region zero, which is what the receiver
    tests. *)
Theorem IpCsum_verifies pre post addr addr' :
  bytes pre -> bytes post -> Nat.even (length pre) = true ->
  Z.of_nat (length pre + 2 + length post) < 2 ^ 38 ->
  let c := IpCsum_region addr (pre ++ [0; 0] ++ post) in
  IpCsum_region addr' (pre ++ [u8 c; Z.shiftr c 8] ++ post) = 0.
Proof.
  intros Hpre Hpost He Hl c.
  assert (bytes (pre ++ [0; 0] ++ post)) as Hb0
    by (repeat (apply Forall_app_2; [done |] || apply Forall_cons_2 || lia); done).
  assert (c = compl16 (ones_sum (pre ++ [0; 0] ++ post))) as ->
    by (apply IpCsum_region_spec; [done | rewrite !length_app; cbn [length]; lia]).
  destruct (ones_sum_verifies pre post Hpre Hpost He) as (Hc & Hb1 & Hs).
  unfold u8, wrap. rewrite Z.shiftr_div_pow2 by lia. change (2 ^ 8) with 256.
  rewrite IpCsum_region_spec, Hs by (done || (rewrite !length_app; cbn [length]; lia)). done.
Qed.

Lemma IpCsum_verifies_witness :
  let c := IpCsum_region 0x1000 ([0x45; 0; 0; 0x73; 0; 0; 0x40; 0; 0x40; 0x11] ++ [0; 0] ++ [0xc0; 0xa8; 0; 1]) in
  IpCsum_region 0x2001 ([0x45; 0; 0; 0x73; 0; 0; 0x40; 0; 0x40; 0x11] ++ [u8 c; Z.shiftr c 8] ++ [0xc0; 0xa8; 0; 1]) = 0.
Proof.
  apply IpCsum_verifies; [| | done | done]; by apply bytes_b_spec.
Defined.
