(* ===== verification/NetIp.v ===== *)
(** * Packets, IPv4 and ICMP

    Models src/src/native/NetIp.h, NetIp.cc, NetIcmp.cc, NetMisc.h and the entry
    point of Net.cc on the bytes of packet buffers: validation and
    demultiplexing of received packets, the header checksum (inline assembly),
    construction of the header of a sent packet, and the reply to an echo
    request, which is made in the buffer of the request. *)

From S2P Require Import Prelude.
From S2P Require Import Checksum.

(** ** Packet buffers *)

(** One buffer: its address, and its bytes before, in and after the data. *)
Record Buf := mkBuf { b_addr : Z; b_pre : list Z; b_data : list Z; b_post : list Z }.
Definition packet : Type := list Buf.

Definition pkt_data (p : packet) : list Z := concat (b_data <$> p).
Definition pkt_len (p : packet) : Z := Z.of_nat (length (pkt_data p)).
(** The chain the checksum routines read. *)
Definition pkt_chain (p : packet) : chain :=
  (fun b => (u64 (b_addr b + Z.of_nat (length (b_pre b))), b_data b)) <$> p.

Definition buf_advance (n : nat) (b : Buf) : Buf :=
  mkBuf (b_addr b) (b_pre b ++ take n (b_data b)) (drop n (b_data b)) (b_post b).
Definition pkt_Advance (n : Z) (p : packet) : outcome packet :=
  match p with
  | [] => Fail UndefinedBehaviour
  | b :: t => _ ← kassert (n <=? Z.of_nat (length (b_data b))); Ok (buf_advance (Z.to_nat n) b :: t)
  end.

Definition buf_retreat (n : nat) (b : Buf) : Buf :=
  let k := (length (b_pre b) - n)%nat in
  mkBuf (b_addr b) (take k (b_pre b)) (drop k (b_pre b) ++ b_data b) (b_post b).
Definition pkt_Retreat (n : Z) (p : packet) : outcome packet :=
  match p with
  | [] => Fail UndefinedBehaviour
  | b :: t => _ ← kassert (n <=? Z.of_nat (length (b_pre b))); Ok (buf_retreat (Z.to_nat n) b :: t)
  end.

(** [TrimEnd] of the first buffer; more than its length is an underflow. *)
Definition pkt_TrimEnd (n : Z) (p : packet) : outcome packet :=
  match p with
  | [] => Fail UndefinedBehaviour
  | b :: t =>
      let k := (length (b_data b) - Z.to_nat n)%nat in
      if n <=? Z.of_nat (length (b_data b))
      then Ok (mkBuf (b_addr b) (b_pre b) (take k (b_data b)) (drop k (b_data b) ++ b_post b) :: t)
      else Fail UndefinedBehaviour
  end.

(** [GetMutDataPointer().Get<T>()]: the bytes of the first buffer with data, from
    its data to its end; the object must not straddle buffers. *)
Fixpoint pkt_Get (n : nat) (p : packet) : outcome (list Z) :=
  match p with
  | [] => Fail AssertFailed
  | b :: t =>
      match b_data b with
      | [] => pkt_Get n t
      | _ => if (length (b_data b) <? n)%nat then Fail (Thrown "MutDataPointer::Get(): request straddles buffer")
             else Ok (b_data b ++ b_post b)
      end
  end.

(** Bytes written to the first buffer with data. *)
Fixpoint pkt_Put (bs : list Z) (p : packet) : packet :=
  match p with
  | [] => []
  | b :: t =>
      match b_data b with
      | [] => b :: pkt_Put bs t
      | _ => mkBuf (b_addr b) (b_pre b) (bs ++ drop (length bs) (b_data b)) (b_post b) :: t
      end
  end.

(** ** Byte order *)

Definition byte_at (i : nat) (bs : list Z) : Z := nth i bs 0.
(** [ntohs] of the two bytes at [i]. *)
Definition be16 (i : nat) (bs : list Z) : Z := byte_at i bs * 256 + byte_at (S i) bs.
Definition be32 (i : nat) (bs : list Z) : Z := be16 i bs * 65536 + be16 (S (S i)) bs.
Definition to_be16 (x : Z) : list Z := [u8 (Z.shiftr x 8); u8 x].
(** A 16-bit value as it is stored. *)
Definition to_le16 (x : Z) : list Z := [u8 x; u8 (Z.shiftr x 8)].
(** Bytes [bs] stored at offset [i]. *)
Definition put_bytes (i : nat) (bs m : list Z) : list Z := take i m ++ bs ++ drop (i + length bs) m.
Definition to_be32 (x : Z) : list Z := to_be16 (Z.shiftr x 16) ++ to_be16 x.
Definition to_le32 (x : Z) : list Z := [u8 x; u8 (Z.shiftr x 8); u8 (Z.shiftr x 16); u8 (Z.shiftr x 24)].
Definition ip_at (i : nat) (bs : list Z) : Ipv4Address :=
  mkIp (byte_at i bs) (byte_at (i + 1) bs) (byte_at (i + 2) bs) (byte_at (i + 3) bs).

(** ** struct Ipv4Header *)

Definition sizeofIpv4Header : Z := 20.
Definition kMoreFragments : Z := 0x2000.
Definition kFragOffMask : Z := 0x1fff.
Definition kIpDefaultTtl : Z := 255.
Definition kIpProtoICMP : Z := 1.
Definition kIpProtoTCP : Z := 6.
Definition kIpProtoUDP : Z := 17.

Definition Version (h : list Z) : Z := Z.shiftr (byte_at 0 h) 4.
Definition HeaderLength (h : list Z) : Z := u8 (Z.land (byte_at 0 h) 0xf * 4).
Definition TotalLength (h : list Z) : Z := be16 2 h.
Definition MoreFragments (h : list Z) : bool := negb (Z.land (be16 6 h) kMoreFragments =? 0).
Definition FragmentOffset (h : list Z) : Z := Z.land (be16 6 h) kFragOffMask.
Definition Fragmented (h : list Z) : bool := MoreFragments h || negb (FragmentOffset h =? 0).
Definition ip_proto (h : list Z) : Z := byte_at 9 h.
Definition ip_src_of (h : list Z) : Ipv4Address := ip_at 12 h.
Definition ip_dst_of (h : list Z) : Ipv4Address := ip_at 16 h.

(** The assembly: the first five words are always read; with fewer than five the
    loop counter passes zero. *)
Definition ComputeChecksum (h : list Z) : outcome Z :=
  let words := Z.land (byte_at 0 h) 0xf in
  if (words <? 5) || (Z.of_nat (length h) <? 4 * words) then Fail UndefinedBehaviour else
  let sum := adc_chain 32 (load 4 h) ((fun i => load 4 (drop (4 * i) h)) <$> seq 1 (Z.to_nat words - 1)) in
  let '(s, cf) := adc 16 (u16 (Z.shiftr sum 16)) (u16 sum) 0 in
  Ok (u16 (Z.lnot (s + cf))).

(** ** struct ItfAddress *)

Record ItfAddress := mkItf { itf_address : Ipv4Address; netmask : Ipv4Address; gateway : Ipv4Address }.

Definition isLocalNetwork (a : ItfAddress) (addr : Ipv4Address) : bool :=
  bool_decide (ip_Mask addr (netmask a) = ip_Mask (itf_address a) (netmask a)).

Definition itf_isBroadcast (a : ItfAddress) (addr : Ipv4Address) : bool :=
  if isBroadcast addr then true
  else if bool_decide (addr = itf_address a) then false
  else isLocalNetwork a addr &&
       bool_decide (ip_Mask addr (ip_compl (netmask a)) = ip_Mask ip_Broadcast (ip_compl (netmask a))).

(** ** Receiving *)

(** Where a packet goes: it is dropped, or one of the protocols gets the header
    and the packet without it. *)
Inductive ip_result :=
| Drop
| ToIcmp (h : list Z) (p : packet)
| ToUdp (h : list Z) (p : packet)
| ToTcp (h : list Z) (p : packet).

Definition ReceiveIp (addr : option ItfAddress) (p : packet) : outcome ip_result :=
  let packet_len := pkt_len p in
  if packet_len <? sizeofIpv4Header then Ok Drop else
  h ← pkt_Get 20 p;
  if negb (Version h =? 4) then Ok Drop else
  let hlen := HeaderLength h in
  if hlen <? sizeofIpv4Header then Ok Drop else
  let tot_len := TotalLength h in
  if packet_len <? tot_len then Ok Drop else
  p ← pkt_TrimEnd (packet_len - tot_len) p;
  c ← ComputeChecksum h;
  if negb (c =? 0) then Ok Drop else
  if negb (ip_proto h =? kIpProtoUDP) &&
     match addr with
     | None => true
     | Some a => negb (itf_isBroadcast a (ip_dst_of h)) && negb (bool_decide (itf_address a = ip_dst_of h))
     end
  then Ok Drop else
  if isBroadcast (ip_src_of h) || isMulticast (ip_src_of h) then Ok Drop else
  if Fragmented h then Ok Drop else
  p ← pkt_Advance hlen p;
  let proto := ip_proto h in
  if proto =? kIpProtoICMP then Ok (ToIcmp h p)
  else if proto =? kIpProtoUDP then Ok (ToUdp h p)
  else if proto =? kIpProtoTCP then Ok (ToTcp h p)
  else Ok Drop.

(** ** Sending *)

(** struct PacketInfo. *)
Record PacketInfo := mkPinfo {
  pi_flags : Z; gso_type : Z; hdr_len : Z; gso_size : Z; csum_start : Z; csum_offset : Z
}.
Definition kNeedsCsum : Z := 1.
Definition kGsoTcpv4 : Z := 1.
Definition kGsoUdp : Z := 3.
Definition pinfo0 : PacketInfo := mkPinfo 0 0 0 0 0 0.
(** [csum_start += n; hdr_len += n]. *)
Definition pinfo_shift (n : Z) (i : PacketInfo) : PacketInfo :=
  mkPinfo (pi_flags i) (gso_type i) (u16 (hdr_len i + n)) (gso_size i) (u16 (csum_start i + n)) (csum_offset i).

Definition header_bytes (len proto chksum : Z) (src dst : Ipv4Address) : list Z :=
  [Z.lor (Z.shiftl 4 4) 5; 0] ++ to_be16 (u16 len) ++ [0; 0; 0; 0; kIpDefaultTtl; proto] ++ to_le16 chksum ++
  ip_bytes src ++ ip_bytes dst.

(** [Interface::SendIp], up to the call of EthArpSend with the header and the
    packet. *)
Definition SendIp (p : packet) (src dst : Ipv4Address) (proto : Z) (pinfo : PacketInfo) :
    outcome (list Z * packet * PacketInfo) :=
  p ← pkt_Retreat sizeofIpv4Header p;
  _ ← pkt_Get 20 p;
  let len := pkt_len p in
  chksum ← ComputeChecksum (header_bytes len proto 0 src dst);
  let ih := header_bytes len proto chksum src dst in
  c ← ComputeChecksum ih;
  _ ← kassert (c =? 0);
  Ok (ih, pkt_Put ih p, pinfo_shift sizeofIpv4Header pinfo).

(** [NetworkManager::IpRoute]: the loopback or the only other interface. *)
Definition IpRoute {I} (loopback_ interface_ : option I) (dest : Ipv4Address) : option I :=
  if isLinkLocal dest then loopback_ else interface_.

(** ** ICMP *)

Definition kIcmpEchoReply : Z := 0.
Definition kIcmpEchoRequest : Z := 8.
Definition htons (x : Z) : Z := ntohs x.

(** The incremental update of the stored checksum. *)
Definition adjust_checksum (c : Z) : Z :=
  let addend := Z.shiftl kIcmpEchoRequest 8 in
  if htons (0xffff - addend) <=? c then u16 (c + (htons addend + 1)) else u16 (c + htons addend).

(** The IP header of the reply: addresses swapped, TTL and checksum renewed. *)
Definition reply_header (h : list Z) : outcome (list Z) :=
  let h0 chk := take 8 h ++ [kIpDefaultTtl; byte_at 9 h] ++ to_le16 chk ++ ip_bytes (ip_dst_of h) ++ ip_bytes (ip_src_of h) ++
                drop 20 h in
  c ← ComputeChecksum (h0 0);
  Ok (h0 c).

Definition ReceiveIcmp (h : list Z) (p : packet) : outcome (option (list Z * packet)) :=
  if pkt_len p <? 8 then Ok None else
  m ← pkt_Get 8 p;
  if negb (IpCsum (pkt_chain p) =? 0) then Ok None else
  if byte_at 0 m =? kIcmpEchoRequest then
    let chk := adjust_checksum (load 2 (drop 2 m)) in
    let p := pkt_Put ([kIcmpEchoReply; byte_at 1 m] ++ to_le16 chk) p in
    ih ← reply_header h;
    p ← pkt_Retreat (HeaderLength ih) p;
    Ok (Some (ih, pkt_Put (take 20 ih) p))
  else Ok None.
