(* ===== verification/NetIpCorrect.v ===== *)
(** * Correctness of the IP layer

    The header checksum is the Internet checksum; the assertion on a sent header
    holds; a sent packet is accepted by its destination and handed, with exactly
    its payload, to its protocol; an echo reply carries a valid checksum. *)

From S2P Require Import Prelude.
From S2P Require Import Checksum NetIp.

(** ** The header checksum *)

Lemma load_take k m n h : (m + k <= n)%nat -> load k (drop m (take n h)) = load k (drop m h).
Proof. intros Hn. unfold load. by rewrite !take_drop_commute, take_take, Nat.min_l by lia. Qed.

Lemma u16_lnot x : 0 <= x <= 65535 -> u16 (Z.lnot x) = compl16 x.
Proof.
  intros Hx. unfold u16, wrap, Z.lnot, compl16, Z.pred. rewrite <- (Z_mod_plus_full _ 1), Z.mod_small; lia.
Qed.

(** The final addition of the halves does not overflow. *)
Lemma fold_halves sum : in_u 32 sum ->
  let '(s, cf) := adc 16 (u16 (Z.shiftr sum 16)) (u16 sum) 0 in s + cf = From32To16 sum.
Proof.
  intros Hs. unfold From32To16, adc_chain, adc. cbn [fold_left fst]. unfold in_u in Hs.
  set (a := u16 (Z.shiftr sum 16)). set (b := u16 sum). rewrite !Z.add_0_r.
  assert (0 <= a < 2 ^ 16) as Ha by (apply Z.mod_pos_bound; lia).
  assert (0 <= b < 2 ^ 16) as Hb by (apply Z.mod_pos_bound; lia).
  symmetry. apply Z.mod_small.
  pose proof (Z.mod_pos_bound (a + b) (2 ^ 16)). pose proof (Z.div_mod (a + b) (2 ^ 16)).
  assert (0 <= (a + b) / 2 ^ 16 <= 1) by (split; [apply Z.div_pos; lia | apply Z.lt_succ_r, Z.div_lt_upper_bound; lia]).
  lia.
Qed.

Lemma ComputeChecksum_spec h words : bytes h -> Z.land (byte_at 0 h) 0xf = Z.of_nat words -> (5 <= words)%nat ->
  (4 * words <= length h)%nat -> ComputeChecksum h = Ok (compl16 (ones_sum (take (4 * words) h))).
Proof.
  intros Hb Hw H5 Hl. unfold ComputeChecksum. rewrite Hw.
  rewrite (proj2 (Z.ltb_ge _ _)), (proj2 (Z.ltb_ge _ _)) by lia. cbn [orb]. rewrite Nat2Z.id.
  pose proof (bytes_take (4 * words) h Hb) as Hbt.
  destruct (line_loads 4 words (take (4 * words) h) eq_refl Hbt) as [Hf Hs]; [rewrite length_take; lia |].
  rewrite (drop_ge (take _ _)) in Hs by (rewrite length_take; lia). cbn [le fold_right] in Hs. rewrite Z.add_0_r in Hs.
  assert (forall i, (i < words)%nat -> load 4 (drop (4 * i) (take (4 * words) h)) = load 4 (drop (4 * i) h)) as Hload
    by (intros; apply load_take; lia).
  destruct words as [|w]; [lia |]. cbn [seq fmap list_fmap] in Hf, Hs. rewrite Nat.sub_succ, Nat.sub_0_r.
  change (S w) with (1 + w)%nat in Hload.
  set (ws := (fun i => load 4 (drop (4 * i) h)) <$> seq 1 w).
  assert (ws = (fun i => load 4 (drop (4 * i) (take (4 * S w) h))) <$> seq 1 w) as Ews.
  { apply list_fmap_ext. intros j i Hj. apply lookup_seq in Hj as [-> Hj]. rewrite Hload by lia. done. }
  assert (load 4 (drop (4 * 0) (take (4 * S w) h)) = load 4 h) as E0 by (rewrite Hload by lia; done).
  fold (fmap (M := list) (fun i => load 4 (drop (4 * i) (take (4 * S w) h))) (seq 1 w)) in Hf, Hs.
  rewrite <- Ews, E0 in Hf, Hs. apply Forall_cons in Hf as [Hf0 Hf].
  destruct (adc_chain_spec 32 (load 4 h) ws csum_width32 Hf0 Hf) as [Hi Hc].
  pose proof (fold_halves _ Hi) as Hh. destruct (adc 16 _ _ 0) as [s cf].
  destruct (From32To16_spec _ Hi) as [Hi16 Hc16]. destruct (ones_sum_spec _ Hbt) as [Ho Co]. unfold in_u in Hi16, Ho.
  rewrite Hh, u16_lnot by lia. do 2 f_equal. apply csim_eq16; [| lia | lia].
  eapply csim_trans; [exact Hc16 |]. eapply csim_trans; [exact Hc |]. eapply csim_trans; [exact Hs |]. by apply csim_sym.
Qed.

(** The checksum routine of the IPv4 header, options included, computes the
    one's complement of the one's complement sum of the header. *)
Theorem ComputeChecksum_correct h words : bytes h -> Z.land (byte_at 0 h) 0xf = Z.of_nat words -> (5 <= words)%nat ->
  (4 * words <= length h)%nat -> ComputeChecksum h = Ok (compl16 (ones_sum (take (4 * words) h))).
Proof. apply ComputeChecksum_spec. Qed.

(** ** Sending *)

Lemma to_le16_eq c : 0 <= c <= 65535 -> to_le16 c = [c mod 256; c / 256].
Proof.
  intros Hc. unfold to_le16, u8, wrap. rewrite Z.shiftr_div_pow2 by lia. change (2 ^ 8) with 256.
  rewrite (Z.mod_small (c / 256)); [done |]. split; [apply Z.div_pos; lia | apply Z.div_lt_upper_bound; lia].
Qed.

Lemma u8_byte x : 0 <= u8 x < 256.
Proof. apply Z.mod_pos_bound. lia. Qed.
Lemma to_be16_bytes x : bytes (to_be16 x).
Proof. repeat (apply Forall_cons_2; [apply u8_byte |]). apply Forall_nil_2. Qed.

Lemma be_halves x : 0 <= x < 2 ^ 16 -> u8 (Z.shiftr x 8) * 256 + u8 x = x.
Proof.
  intros Hx. unfold u8, wrap. rewrite Z.shiftr_div_pow2 by lia. change (2 ^ 8) with 256.
  rewrite (Z.mod_small (x / 256)) by (split; [apply Z.div_pos; lia | apply Z.div_lt_upper_bound; lia]).
  pose proof (Z.div_mod x 256 ltac:(lia)). lia.
Qed.

Lemma TotalLength_header len proto c src dst : TotalLength (header_bytes len proto c src dst) = u16 len.
Proof. apply be_halves. apply Z.mod_pos_bound. lia. Qed.

Section Header.
Context (len proto : Z) (src dst : Ipv4Address).
Hypotheses (Hproto : 0 <= proto < 256) (Hsrc : ip_ok src) (Hdst : ip_ok dst).

Definition hdr_front : list Z :=
  [Z.lor (Z.shiftl 4 4) 5; 0] ++ to_be16 (u16 len) ++ [0; 0; 0; 0; kIpDefaultTtl; proto].

Lemma header_split c : header_bytes len proto c src dst = hdr_front ++ to_le16 c ++ (ip_bytes src ++ ip_bytes dst).
Proof. done. Qed.

Lemma header_front_bytes : bytes hdr_front.
Proof.
  apply Forall_app_2; [by repeat constructor |]. apply Forall_app_2; [apply to_be16_bytes |].
  repeat (apply Forall_cons_2; [lia || done |]). apply Forall_nil_2.
Qed.
Lemma header_back_bytes : bytes (ip_bytes src ++ ip_bytes dst).
Proof. by apply Forall_app_2. Qed.

Lemma header_checksum c : bytes (header_bytes len proto c src dst) ->
  ComputeChecksum (header_bytes len proto c src dst) = Ok (compl16 (ones_sum (header_bytes len proto c src dst))).
Proof. intros Hb. by rewrite (ComputeChecksum_spec _ 5 Hb) by (done || cbn; lia). Qed.

Lemma header_verifies : exists c, ComputeChecksum (header_bytes len proto 0 src dst) = Ok c /\ 0 <= c <= 65535 /\
  bytes (header_bytes len proto c src dst) /\ ComputeChecksum (header_bytes len proto c src dst) = Ok 0.
Proof.
  pose proof header_front_bytes as Hf. pose proof header_back_bytes as Hb.
  destruct (ones_sum_verifies hdr_front _ Hf Hb eq_refl) as (Hc & Hbs & Hs).
  exists (compl16 (ones_sum (hdr_front ++ [0; 0] ++ ip_bytes src ++ ip_bytes dst))).
  split_and!; [| lia | lia | |].
  - rewrite header_checksum; [by rewrite header_split |]. rewrite header_split. apply Forall_app_2; [done |].
    apply Forall_app_2; [by repeat constructor | done].
  - by rewrite header_split, to_le16_eq.
  - rewrite header_checksum; rewrite header_split, to_le16_eq; try done. by rewrite Hs.
Qed.
End Header.

Lemma header_fields len proto c src dst : let h := header_bytes len proto c src dst in
  length h = 20%nat /\ TotalLength h = u16 len /\ ip_src_of h = src /\ ip_dst_of h = dst /\ ip_proto h = proto.
Proof. destruct src, dst. split_and!; try done. apply TotalLength_header. Qed.

(** What retreating and writing a header of the retreated length does. *)
Lemma retreat_put b t n bs : (n <= length (b_pre b))%nat -> (0 < n)%nat -> length bs = n ->
  pkt_Retreat (Z.of_nat n) (b :: t) = Ok (buf_retreat n b :: t) /\
  length (b_data (buf_retreat n b)) = (n + length (b_data b))%nat /\
  pkt_Put bs (buf_retreat n b :: t) =
    mkBuf (b_addr b) (take (length (b_pre b) - n) (b_pre b)) (bs ++ b_data b) (b_post b) :: t.
Proof.
  intros Hn Hpos Hbs. unfold pkt_Retreat. rewrite (proj2 (Z.leb_le _ _)) by lia. cbn [kassert mbind outcome_bind].
  rewrite Nat2Z.id. assert (length (b_data (buf_retreat n b)) = (n + length (b_data b))%nat) as Hl.
  { cbn. rewrite length_app, length_drop. lia. }
  split_and!; [done | done |]. cbn [pkt_Put].
  destruct (b_data (buf_retreat n b)) as [|x l] eqn:E; [cbn in Hl; lia |]. rewrite <- E. do 2 f_equal. cbn.
  rewrite Hbs, drop_app_length' by (rewrite length_drop; lia). done.
Qed.

Lemma Get_retreat b t n : (n <= length (b_pre b))%nat -> (0 < n)%nat -> exists m, pkt_Get n (buf_retreat n b :: t) = Ok m.
Proof.
  intros Hn Hpos. cbn [pkt_Get].
  assert (length (b_data (buf_retreat n b)) = (n + length (b_data b))%nat) as Hl by (cbn; rewrite length_app, length_drop; lia).
  destruct (b_data (buf_retreat n b)) as [|x l]; [cbn in Hl; lia |].
  rewrite (proj2 (Nat.ltb_ge _ _)) by lia. by eexists.
Qed.

Lemma Retreat_20 b t : (20 <= length (b_pre b))%nat ->
  pkt_Retreat sizeofIpv4Header (b :: t) = Ok (buf_retreat 20 b :: t).
Proof. intros Hpre. unfold pkt_Retreat, sizeofIpv4Header. by rewrite (proj2 (Z.leb_le _ _)) by lia. Qed.

Lemma retreat_len b t n : (n <= length (b_pre b))%nat -> pkt_len (buf_retreat n b :: t) = Z.of_nat n + pkt_len (b :: t).
Proof.
  intros Hpre. unfold pkt_len, pkt_data. cbn [fmap list_fmap concat]. rewrite !length_app.
  cbn [b_data buf_retreat]. rewrite length_app, length_drop. lia.
Qed.

Lemma SendIp_run b t src dst proto pinfo c : (20 <= length (b_pre b))%nat ->
  ComputeChecksum (header_bytes (20 + pkt_len (b :: t)) proto 0 src dst) = Ok c ->
  ComputeChecksum (header_bytes (20 + pkt_len (b :: t)) proto c src dst) = Ok 0 ->
  SendIp (b :: t) src dst proto pinfo =
    Ok (header_bytes (20 + pkt_len (b :: t)) proto c src dst,
        pkt_Put (header_bytes (20 + pkt_len (b :: t)) proto c src dst) (buf_retreat 20 b :: t),
        pinfo_shift sizeofIpv4Header pinfo).
Proof.
  intros Hpre Hc Hz. destruct (Get_retreat b t 20 Hpre) as [m Hm]; [lia |].
  change 20 with (Z.of_nat 20) in Hc, Hz |- *. rewrite <- (retreat_len b t 20 Hpre) in Hc, Hz |- *.
  unfold SendIp. rewrite (Retreat_20 b t Hpre), bind_Ok, Hm, bind_Ok, Hc, bind_Ok, Hz, bind_Ok. done.
Qed.

(** With room for the header in front of the data, sending never fails: the
    assertion on the finished header holds, the packet is the header followed by
    the data, and the header's checksum verifies. *)
Theorem SendIp_correct b t src dst proto pinfo : (20 <= length (b_pre b))%nat -> 0 <= proto < 256 -> ip_ok src -> ip_ok dst ->
  exists ih p', SendIp (b :: t) src dst proto pinfo = Ok (ih, p', pinfo_shift 20 pinfo) /\
    pkt_data p' = ih ++ pkt_data (b :: t) /\ ComputeChecksum ih = Ok 0 /\
    TotalLength ih = u16 (20 + pkt_len (b :: t)) /\ ip_src_of ih = src /\ ip_dst_of ih = dst /\ ip_proto ih = proto.
Proof.
  intros Hpre Hproto Hsrc Hdst.
  destruct (header_verifies (20 + pkt_len (b :: t)) proto src dst Hproto Hsrc Hdst) as (c & Hc & Hcr & Hb & Hz).
  destruct (header_fields (20 + pkt_len (b :: t)) proto c src dst) as (F1 & F2 & F3 & F4 & F5).
  remember (header_bytes (20 + pkt_len (b :: t)) proto c src dst) as ih eqn:Eih.
  destruct (retreat_put b t 20 ih Hpre) as (Hr & Hl & Hput); [lia | done |].
  exists ih, (pkt_Put ih (buf_retreat 20 b :: t)). split_and!; try assumption.
  - rewrite Eih. rewrite Eih in Hz. exact (SendIp_run b t src dst proto pinfo c Hpre Hc Hz).
  - rewrite Hput. unfold pkt_data. cbn [fmap list_fmap concat b_data]. by rewrite app_assoc.
Qed.

(** ** Receiving *)

Definition dispatch (h : list Z) (p : packet) : ip_result :=
  let proto := ip_proto h in
  if proto =? kIpProtoICMP then ToIcmp h p
  else if proto =? kIpProtoUDP then ToUdp h p
  else if proto =? kIpProtoTCP then ToTcp h p
  else Drop.

Definition for_us (a : ItfAddress) (h : list Z) : Prop :=
  ip_proto h = kIpProtoUDP \/ itf_isBroadcast a (ip_dst_of h) = true \/ itf_address a = ip_dst_of h.

(** The tests a packet in one buffer passes, up to the removal of its header. *)
Record acceptable_header (a : ItfAddress) (len : Z) (h : list Z) : Prop := {
  ah_version : Version h = 4;
  ah_hlen : 20 <= HeaderLength h;
  ah_tot : 0 <= TotalLength h <= len;
  ah_csum : ComputeChecksum h = Ok 0;
  ah_us : for_us a h;
  ah_src : isBroadcast (ip_src_of h) = false /\ isMulticast (ip_src_of h) = false;
  ah_frag : Fragmented h = false
}.

Lemma ReceiveIp_run a addr pre data post : let h := data ++ post in let len := Z.of_nat (length data) in
  20 <= len -> acceptable_header a len h ->
  let b := mkBuf addr pre (take (Z.to_nat (TotalLength h)) data) (drop (Z.to_nat (TotalLength h)) data ++ post) in
  ReceiveIp (Some a) [mkBuf addr pre data post] = (p ← pkt_Advance (HeaderLength h) [b]; Ok (dispatch h p)).
Proof.
  intros h len Hlen [Hv Hh Ht Hc Hu [Hs1 Hs2] Hf] b.
  assert (pkt_len [mkBuf addr pre data post] = len) as El.
  { unfold pkt_len, pkt_data. cbn [fmap list_fmap concat b_data]. by rewrite app_nil_r. }
  assert (pkt_Get 20 [mkBuf addr pre data post] = Ok h) as Eg.
  { cbn [pkt_Get b_data b_post]. destruct data as [|x l]; [cbn in len; lia |]. by rewrite (proj2 (Nat.ltb_ge _ _)) by lia. }
  assert (pkt_TrimEnd (len - TotalLength h) [mkBuf addr pre data post] = Ok [b]) as Et.
  { unfold pkt_TrimEnd. cbn [b_data b_addr b_pre b_post]. rewrite (proj2 (Z.leb_le _ _)) by lia.
    replace (length data - Z.to_nat (len - TotalLength h))%nat with (Z.to_nat (TotalLength h)) by lia. done. }
  unfold ReceiveIp. rewrite El, (proj2 (Z.ltb_ge _ _)) by (unfold sizeofIpv4Header; lia).
  rewrite Eg, bind_Ok, Hv. change (negb (4 =? 4)) with false. cbv iota.
  rewrite (proj2 (Z.ltb_ge _ _)) by (unfold sizeofIpv4Header; lia). rewrite (proj2 (Z.ltb_ge _ _)) by lia.
  rewrite Et, bind_Ok, Hc, bind_Ok. change (negb (0 =? 0)) with false. cbv iota.
  assert (negb (ip_proto h =? kIpProtoUDP) &&
     (negb (itf_isBroadcast a (ip_dst_of h)) && negb (bool_decide (itf_address a = ip_dst_of h))) = false) as ->.
  { destruct Hu as [->|[->| ->]]; [done | apply andb_false_r |]. by rewrite bool_decide_eq_true_2, andb_false_r, andb_false_r. }
  rewrite Hs1, Hs2, Hf. cbv iota beta delta [orb]. unfold dispatch.
  destruct (pkt_Advance (HeaderLength h) [b]); [| done]. rewrite !bind_Ok. by repeat case_match.
Qed.

(** A packet whose total length is smaller than its header passes every check
    when the checksum of the header is right, and then fails an assertion: the
    header is advanced over in a buffer already cut to the total length. *)
Theorem short_total_length_asserts a addr pre data post : let h := data ++ post in
  20 <= Z.of_nat (length data) -> acceptable_header a (Z.of_nat (length data)) h -> TotalLength h < HeaderLength h ->
  ReceiveIp (Some a) [mkBuf addr pre data post] = Fail AssertFailed.
Proof.
  intros h Hlen Hah Hlt. pose proof (ah_tot _ _ _ Hah). rewrite ReceiveIp_run by done. unfold pkt_Advance. cbn [b_data].
  rewrite (proj2 (Z.leb_gt _ _)); [done |]. rewrite length_take. fold h. lia.
Qed.

Lemma bytes_app a b : bytes a -> bytes b -> bytes (a ++ b).
Proof. apply Forall_app_2. Qed.

(** A header and what follows it. *)
Lemma ComputeChecksum_app ih rest : bytes ih -> bytes rest -> length ih = 20%nat -> Z.land (byte_at 0 ih) 0xf = 5 ->
  ComputeChecksum (ih ++ rest) = ComputeChecksum ih.
Proof.
  intros Hb Hr Hl Hw. rewrite (ComputeChecksum_spec ih 5), (ComputeChecksum_spec (ih ++ rest) 5); try done; try lia.
  - rewrite take_app_le, take_ge by lia. done.
  - by apply bytes_app.
  - unfold byte_at in *. rewrite app_nth1 by lia. done.
  - rewrite length_app. lia.
Qed.

Lemma header_app len proto c src dst rest : let h := header_bytes len proto c src dst ++ rest in
  Version h = 4 /\ HeaderLength h = 20 /\ TotalLength h = u16 len /\ Fragmented h = false /\
  ip_src_of h = src /\ ip_dst_of h = dst /\ ip_proto h = proto.
Proof. destruct src, dst. split_and!; try done. apply (TotalLength_header len proto c (mkIp ip0 ip1 ip2 ip3) (mkIp ip4 ip5 ip6 ip7)). Qed.

(** The interface that has the destination address undoes [SendIp]. *)
Lemma ip_delivered b t src dst proto pinfo ih p' i' a addr pre pad post :
  (20 <= length (b_pre b))%nat -> 0 <= proto < 256 -> ip_ok src -> ip_ok dst -> bytes (pkt_data (b :: t)) ->
  SendIp (b :: t) src dst proto pinfo = Ok (ih, p', i') ->
  20 + pkt_len (b :: t) < 2 ^ 16 -> itf_address a = dst -> isBroadcast src = false -> isMulticast src = false ->
  bytes pad -> bytes post ->
  ReceiveIp (Some a) [mkBuf addr pre (pkt_data p' ++ pad) post] =
    Ok (dispatch (pkt_data p' ++ pad ++ post) [mkBuf addr (pre ++ ih) (pkt_data (b :: t)) (pad ++ post)]).
Proof.
  intros Hpre Hproto Hsrc Hdst Hbytes Hsend Hlen Haddr Hb Hm Hpad Hpost.
  destruct (header_verifies (20 + pkt_len (b :: t)) proto src dst Hproto Hsrc Hdst) as (c & Hc & Hcr & Hbh & Hz).
  rewrite (SendIp_run b t src dst proto pinfo c Hpre Hc Hz) in Hsend.
  apply Ok_inj, pair_equal_spec in Hsend as [[<- <-]%pair_equal_spec _].
  destruct (header_fields (20 + pkt_len (b :: t)) proto c src dst) as (Hl & _).
  pose proof (header_app (20 + pkt_len (b :: t)) proto c src dst (pkt_data (b :: t) ++ pad ++ post)) as Hh.
  set (ih := header_bytes (20 + pkt_len (b :: t)) proto c src dst) in *.
  destruct (retreat_put b t 20 ih Hpre) as (_ & _ & Hput); [lia | done |].
  assert (pkt_data (pkt_Put ih (buf_retreat 20 b :: t)) = ih ++ pkt_data (b :: t)) as ->.
  { rewrite Hput. unfold pkt_data. cbn [fmap list_fmap concat b_data]. by rewrite app_assoc. }
  set (payload := pkt_data (b :: t)) in *. rewrite <- !app_assoc in *.
  destruct Hh as (F1 & F2 & F3 & F4 & F5 & F6 & F7).
  assert (pkt_len (b :: t) = Z.of_nat (length payload)) as Ep by done. rewrite Ep in *.
  rewrite (u16_small (20 + Z.of_nat (length payload))) in F3 by lia.
  assert (acceptable_header a (Z.of_nat (length (ih ++ payload ++ pad))) ((ih ++ payload ++ pad) ++ post)) as Hah.
  { rewrite <- !app_assoc, !length_app, Hl. split; rewrite ?F1, ?F2, ?F3, ?F4, ?F5; try done; try lia.
    - rewrite ComputeChecksum_app; [done | done | apply bytes_app; [done | by apply bytes_app] | done | done].
    - right; right. by rewrite F6. }
  rewrite ReceiveIp_run; [| rewrite !length_app, Hl; lia | done]. rewrite <- !app_assoc, F2, F3.
  replace (Z.to_nat (20 + Z.of_nat (length payload))) with (length (ih ++ payload)) by (rewrite length_app, Hl; lia).
  rewrite (app_assoc ih payload pad), take_app_length, drop_app_length. unfold pkt_Advance. cbn [b_data].
  rewrite (proj2 (Z.leb_le _ _)) by (rewrite length_app, Hl; lia). cbn [kassert]. rewrite !bind_Ok.
  unfold buf_advance. cbn [b_data b_addr b_pre b_post]. change (Z.to_nat 20) with 20%nat. rewrite <- Hl.
  rewrite take_app_length, drop_app_length. done.
Qed.

(** C29. What [SendIp] makes of a datagram is accepted by the interface that has the
    destination address, whatever padding the link added, and handed to its
    protocol without header and padding. *)
Theorem ip_roundtrip b t src dst proto pinfo ih p' i' a addr pre pad post :
  (20 <= length (b_pre b))%nat -> 0 <= proto < 256 -> ip_ok src -> ip_ok dst -> bytes (pkt_data (b :: t)) ->
  SendIp (b :: t) src dst proto pinfo = Ok (ih, p', i') ->
  20 + pkt_len (b :: t) < 2 ^ 16 -> itf_address a = dst -> isBroadcast src = false -> isMulticast src = false ->
  bytes pad -> bytes post ->
  ReceiveIp (Some a) [mkBuf addr pre (pkt_data p' ++ pad) post] =
    Ok (dispatch (pkt_data p' ++ pad ++ post) [mkBuf addr (pre ++ ih) (pkt_data (b :: t)) (pad ++ post)]).
Proof. apply ip_delivered. Qed.

(** ** Echo replies *)

(** The checksum word for a message whose type changes from 8 to 0. *)
Lemma adjust_checksum_eq c : 0 <= c <= 65535 ->
  0 <= adjust_checksum c <= 65535 /\
  (adjust_checksum c = c + 8 \/ adjust_checksum c = c + 9 - 65536).
Proof.
  intros Hc. unfold adjust_checksum.
  change (htons (0xffff - Z.shiftl kIcmpEchoRequest 8)) with 65527. change (htons (Z.shiftl kIcmpEchoRequest 8)) with 8.
  unfold u16, wrap. destruct (Z.leb_spec 65527 c).
  - rewrite <- (Z_mod_plus_full _ (-1)), Z.mod_small by lia. lia.
  - rewrite Z.mod_small by lia. lia.
Qed.

Lemma IpCsum_zero c : chain_ok c -> IpCsum c = 0 <-> (le (chain_data c) mod 65535 = 0 /\ le (chain_data c) <> 0).
Proof.
  intros Hc. pose proof Hc as [Hb Hl]. assert (IpCsum c = compl16 (ones_sum (chain_data c))) as ->.
  { unfold IpCsum. destruct (IpCsumNoFold_spec c Hc) as [Hi Cs]. by apply CsumFold_ref. }
  destruct (ones_sum_spec _ Hb) as [Ho (_ & Hle & Hmod & Hz)]. unfold in_u in Ho. unfold compl16. split.
  - intros E. assert (ones_sum (chain_data c) = 65535) as E1 by lia. rewrite E1 in Hmod, Hz. split; [by rewrite <- Hmod | lia].
  - intros [E1 E2]. rewrite E1 in Hmod. assert (ones_sum (chain_data c) <> 0) by tauto.
    apply Z.mod_divide in Hmod as [k Hk]; [| lia]. lia.
Qed.

Lemma le_icmp x code c0 c1 rest : le (x :: code :: c0 :: c1 :: rest) = x + 256 * code + 65536 * (c0 + 256 * c1 + 65536 * le rest).
Proof. rewrite !le_cons. lia. Qed.

(** Changing the type of a valid echo request and adjusting its checksum. *)
Lemma echo_checksum addr addr' code c0 c1 rest : bytes (8 :: code :: c0 :: c1 :: rest) ->
  Z.of_nat (length rest) < 2 ^ 16 -> code <> 0 \/ le rest <> 0 ->
  IpCsum [(addr, 8 :: code :: c0 :: c1 :: rest)] = 0 ->
  IpCsum [(addr', [0; code] ++ to_le16 (adjust_checksum (c0 + 256 * c1)) ++ rest)] = 0.
Proof.
  intros Hb Hl Hnz Hz.
  pose proof Hb as Hb'. unfold bytes in Hb'. rewrite !Forall_cons in Hb'. destruct Hb' as (H8 & Hc & H0 & H1 & Hr).
  destruct (adjust_checksum_eq (c0 + 256 * c1)) as [Hadj Hcase]; [lia |].
  set (c' := adjust_checksum (c0 + 256 * c1)) in *. rewrite to_le16_eq by lia.
  assert (bytes ([0; code] ++ [c' mod 256; c' / 256] ++ rest)) as Hb2.
  { pose proof (Z.div_pos c' 256). pose proof (Z.div_lt_upper_bound c' 256 256). pose proof (Z.mod_pos_bound c' 256).
    repeat (apply Forall_cons_2; [lia |]). exact Hr. }
  apply IpCsum_zero in Hz as [Hm Hn]; [| split; [by cbn; rewrite app_nil_r | cbn; rewrite app_nil_r; cbn; lia]].
  apply IpCsum_zero; [split; [by cbn; rewrite app_nil_r | cbn; rewrite app_nil_r; cbn; lia] |].
  unfold chain_data in *. cbn [fmap list_fmap concat snd app] in *. rewrite app_nil_r in *. rewrite le_icmp in *.
  pose proof (Z.div_mod c' 256 ltac:(lia)) as Hdm. pose proof (le_nonneg _ Hr).
  replace (c' mod 256 + 256 * (c' / 256)) with c' by lia. split.
  - apply Z.mod_divide in Hm as [k Hk]; [| lia]. apply Z.mod_divide; [lia |].
    destruct Hcase as [-> | ->]; [exists (k + 8) | exists (k + 9 - 65537)]; lia.
  - lia.
Qed.

(** The reply's header, on a header of [4 * n] bytes and what follows it. *)
Definition echo_header (h : list Z) (c : Z) : list Z :=
  take 8 h ++ [kIpDefaultTtl; byte_at 9 h] ++ to_le16 c ++ ip_bytes (ip_dst_of h) ++ ip_bytes (ip_src_of h) ++ drop 20 h.

Lemma byte_at_ok i h : bytes h -> 0 <= byte_at i h < 256.
Proof.
  intros Hb. unfold byte_at. destruct (nth_in_or_default i h 0) as [Hin | ->]; [| lia].
  unfold bytes in Hb. rewrite List.Forall_forall in Hb. by apply Hb.
Qed.

Lemma ip_at_ok i h : bytes h -> ip_ok (ip_at i h).
Proof. intros Hb. repeat (apply Forall_cons_2; [by apply byte_at_ok |]). apply Forall_nil_2. Qed.

Lemma ip_at_app pre a post : ip_at (length pre) (pre ++ ip_bytes a ++ post) = a.
Proof.
  destruct a as [a0 a1 a2 a3]. unfold ip_at, byte_at. rewrite <- (Nat.add_0_r (length pre)) at 1.
  rewrite !app_nth2_plus. done.
Qed.

Section Echo.
Context (h : list Z) (n : nat).
Hypotheses (Hb : bytes h) (Hn : (5 <= n)%nat) (Hl : (4 * n <= length h)%nat) (Hw : Z.land (byte_at 0 h) 0xf = Z.of_nat n).

Let front : list Z := take 8 h ++ [kIpDefaultTtl; byte_at 9 h].
Let back : list Z := ip_bytes (ip_dst_of h) ++ ip_bytes (ip_src_of h) ++ take (4 * n - 20) (drop 20 h).

Lemma echo_front_length : length front = 10%nat.
Proof. clear Hb. unfold front. rewrite length_app, length_take. cbn [length]. lia. Qed.

Lemma echo_header_take c : take (4 * n) (echo_header h c) = front ++ to_le16 c ++ back.
Proof. clear Hb.
  unfold echo_header, back. rewrite (app_assoc (take 8 h)). fold front. pose proof echo_front_length as Hf.
  rewrite (take_app_ge front), (take_app_ge (to_le16 c)), !(take_app_ge (ip_bytes _)) by (cbn [length ip_bytes to_le16]; lia).
  do 5 f_equal. cbn [length ip_bytes to_le16]. lia.
Qed.

Lemma echo_header_fields c : ip_src_of (echo_header h c) = ip_dst_of h /\ ip_dst_of (echo_header h c) = ip_src_of h /\
  Z.land (byte_at 0 (echo_header h c)) 0xf = Z.of_nat n /\ length (echo_header h c) = length h.
Proof. clear Hb.
  unfold echo_header. rewrite (app_assoc (take 8 h)). fold front. pose proof echo_front_length as Hf. split_and!.
  - rewrite app_assoc. pose proof (ip_at_app (front ++ to_le16 c) (ip_dst_of h) (ip_bytes (ip_src_of h) ++ drop 20 h)) as E.
    rewrite length_app, Hf in E. exact E.
  - rewrite app_assoc, app_assoc.
    pose proof (ip_at_app ((front ++ to_le16 c) ++ ip_bytes (ip_dst_of h)) (ip_src_of h) (drop 20 h)) as E.
    rewrite !length_app, Hf in E. exact E.
  - rewrite <- Hw. destruct h as [|x h']; [cbn in Hl; lia | done].
  - rewrite !length_app, Hf, length_drop. cbn [length ip_bytes to_le16]. lia.
Qed.

Lemma echo_header_bytes c : 0 <= c <= 65535 -> bytes (echo_header h c).
Proof.
  intros Hc. unfold echo_header. apply bytes_app; [by apply bytes_take |]. apply bytes_app.
  { repeat (apply Forall_cons_2; [first [by apply byte_at_ok | done] |]). apply Forall_nil_2. }
  apply bytes_app; [repeat (apply Forall_cons_2; [apply u8_byte |]); apply Forall_nil_2 |].
  apply bytes_app; [by apply ip_at_ok |]. apply bytes_app; [by apply ip_at_ok | by apply bytes_drop].
Qed.

Lemma reply_header_run : exists c, reply_header h = Ok (echo_header h c) /\ 0 <= c <= 65535 /\
  ComputeChecksum (echo_header h c) = Ok 0.
Proof.
  assert (forall c, 0 <= c <= 65535 -> ComputeChecksum (echo_header h c) = Ok (compl16 (ones_sum (front ++ to_le16 c ++ back)))) as Hcs.
  { intros c Hc. destruct (echo_header_fields c) as (_ & _ & E1 & E2). rewrite <- echo_header_take.
    apply ComputeChecksum_spec; [by apply echo_header_bytes | done | done | lia]. }
  pose proof (echo_header_bytes 0 ltac:(lia)) as Hb0. apply (bytes_take (4 * n)) in Hb0. rewrite echo_header_take in Hb0.
  apply Forall_app in Hb0 as [Hbf [_ Hbb]%Forall_app].
  destruct (ones_sum_verifies front back Hbf Hbb) as (Hc & _ & Hs); [by rewrite echo_front_length |].
  exists (compl16 (ones_sum (front ++ [0; 0] ++ back))). split_and!; [| lia | lia |].
  - unfold reply_header. fold (echo_header h 0). rewrite Hcs, bind_Ok by lia. done.
  - rewrite Hcs, to_le16_eq, Hs by lia. done.
Qed.
End Echo.

Lemma HeaderLength_words h n : (n <= 15)%nat -> Z.land (byte_at 0 h) 0xf = Z.of_nat n -> HeaderLength h = Z.of_nat (4 * n).
Proof. intros Hn Hw. unfold HeaderLength, u8, wrap. rewrite Hw, Z.mod_small; lia. Qed.

Lemma Put_headed bs b t : b_data b <> [] -> pkt_Put bs (b :: t) =
  mkBuf (b_addr b) (b_pre b) (bs ++ drop (length bs) (b_data b)) (b_post b) :: t.
Proof. cbn [pkt_Put]. by destruct (b_data b). Qed.

Lemma retreat_over addr pre hdr data post :
  pkt_Retreat (Z.of_nat (length hdr)) [mkBuf addr (pre ++ hdr) data post] = Ok [mkBuf addr pre (hdr ++ data) post].
Proof.
  unfold pkt_Retreat. cbn [b_pre]. rewrite (proj2 (Z.leb_le _ _)) by (rewrite length_app; lia). cbn [kassert]. rewrite bind_Ok.
  unfold buf_retreat. cbn [b_pre b_data b_post b_addr]. rewrite Nat2Z.id, length_app.
  replace (length pre + length hdr - length hdr)%nat with (length pre) by lia. by rewrite take_app_length, drop_app_length.
Qed.

(** The header is rewritten in front of the reply. *)
Lemma put_echo_header h n c addr pre data post : (5 <= n)%nat -> (4 * n <= length h)%nat ->
  Z.land (byte_at 0 h) 0xf = Z.of_nat n ->
  pkt_Put (take 20 (echo_header h c)) [mkBuf addr pre (take (4 * n) h ++ data) post] =
    [mkBuf addr pre (take (4 * n) (echo_header h c) ++ data) post].
Proof.
  intros Hn Hl Hw. destruct (echo_header_fields h n Hn Hl Hw c) as (_ & _ & _ & Hlen).
  rewrite Put_headed; cbn [b_addr b_pre b_data b_post].
  2: { intros [E _]%app_eq_nil. apply (f_equal length) in E. rewrite length_take in E. cbn [length] in E. lia. }
  assert (drop 20 (echo_header h c) = drop 20 h) as Ed.
  { unfold echo_header. rewrite !app_assoc. apply drop_app_length'. rewrite !length_app, length_take.
    cbn [length to_le16 ip_bytes]. lia. }
  do 2 f_equal. rewrite length_take, drop_app_le by (rewrite length_take; lia). rewrite Nat.min_l by lia.
  rewrite <- (take_drop 20 (take (4 * n) (echo_header h c))), take_take, Nat.min_l by lia.
  rewrite <- !app_assoc. do 2 f_equal. replace (4 * n)%nat with (20 + (4 * n - 20))%nat by lia.
  by rewrite <- !take_drop_commute, Ed.
Qed.


(** ** Concrete packets *)

Ltac bytes_now :=
  try match goal with |- ip_ok ?a => change (bytes (ip_bytes a)) end;
  match goal with |- bytes ?l => let v := eval vm_compute in l in change (bytes v) end;
  repeat (apply Forall_cons_2; [by vm_compute |]); apply Forall_nil_2.

Definition demo_itf : ItfAddress := mkItf demo_dst (mkIp 255 255 255 0) (mkIp 10 0 0 1).
Definition demo_buf : Buf := mkBuf 0 (repeat 0 20) [8; 0; 0xaa; 0xae; 0; 1; 0; 2; 77; 78] [].
Definition demo_header : list Z := header_bytes 30 1 0x0000 demo_src demo_dst.

Lemma ComputeChecksum_correct_witness : ComputeChecksum demo_header = Ok (compl16 (ones_sum demo_header)).
Proof.
  change (compl16 (ones_sum demo_header)) with (compl16 (ones_sum (take (4 * 5) demo_header))).
  apply (ComputeChecksum_correct demo_header 5); [bytes_now | done | lia | cbn; lia].
Defined.

Lemma SendIp_correct_witness : exists ih p', SendIp [demo_buf] demo_src demo_dst 1 pinfo0 = Ok (ih, p', pinfo_shift 20 pinfo0) /\
    pkt_data p' = ih ++ pkt_data [demo_buf] /\ ComputeChecksum ih = Ok 0 /\
    TotalLength ih = u16 (20 + pkt_len [demo_buf]) /\ ip_src_of ih = demo_src /\ ip_dst_of ih = demo_dst /\ ip_proto ih = 1.
Proof.
  apply (SendIp_correct demo_buf [] demo_src demo_dst 1 pinfo0); [cbn; lia | lia | |]; bytes_now.
Defined.

(** The packet [SendIp] makes of the request, with two bytes of padding. *)
Definition demo_sent : list Z := header_bytes 30 1 0xc639 demo_src demo_dst.
Definition demo_frame : list Z := demo_sent ++ b_data demo_buf.

Definition demo_sent_pkt : packet := [mkBuf 0 [] demo_frame []].

Lemma ip_roundtrip_witness :
  ReceiveIp (Some demo_itf) [mkBuf 0 [] (pkt_data demo_sent_pkt ++ [0; 0]) []] =
    Ok (dispatch (pkt_data demo_sent_pkt ++ [0; 0] ++ []) [mkBuf 0 ([] ++ demo_sent) (pkt_data [demo_buf]) ([0; 0] ++ [])]).
Proof.
  apply (ip_roundtrip demo_buf [] demo_src demo_dst 1 pinfo0 demo_sent demo_sent_pkt (pinfo_shift 20 pinfo0));
    first [(vm_compute; reflexivity) | bytes_now | (cbn; lia)].
Defined.

(** A packet of 24 bytes that claims a total length of 8. *)
Definition demo_short : list Z := header_bytes 8 17 0xcc39 demo_src demo_dst ++ [1; 2; 3; 4].
Lemma short_total_length_asserts_witness : ReceiveIp (Some demo_itf) [mkBuf 0 [] demo_short []] = Fail AssertFailed.
Proof.
  apply (short_total_length_asserts demo_itf 0 [] demo_short []); [by vm_compute | | by vm_compute].
  split; try (by vm_compute). by left.
Defined.


(** The message that is left out: the reply to the valid request that is zero but
    for its type carries checksum zero where the sum of the rest is zero too, and
    does not verify. *)
Example echo_reply_zero :
  let request := [8; 0; 0xf7; 0xff; 0; 0; 0; 0] in
  IpCsum [(0, request)] = 0 /\ adjust_checksum (load 2 (drop 2 request)) = 0 /\ IpCsum [(0, [0; 0; 0; 0; 0; 0; 0; 0])] = 0xffff.
Proof. by vm_compute. Qed.
