(* ===== verification/NetEth.v ===== *)
(** * Ethernet and ARP

    Models src/src/native/NetEth.h, NetEth.cc and the entry point of Net.cc: the
    cache of hardware addresses, the queue of packets that wait for one, requests
    and replies, and the framing of sent packets.

    The objects that hold hardware addresses have locations, because their
    lifetime matters; the cache is the map that the RCU hash table implements. *)

From S2P Require Import Prelude.
From S2P Require Import Checksum NetIp.

#[export] Instance Ipv4Address_countable : Countable Ipv4Address.
Proof.
  apply (inj_countable' (fun a => (ip0 a, ip1 a, ip2 a, ip3 a)) (fun t => mkIp t.1.1.1 t.1.1.2 t.1.2 t.2)). by intros [].
Defined.

(** ** Frames *)

Definition sizeofEthernetHeader : Z := 14.
Definition sizeofArpPacket : Z := 28.
Definition kEthTypeIp : Z := 0x800.
Definition kEthTypeArp : Z := 0x806.
Definition kHTypeEth : Z := 1.
Definition kPTypeIp : Z := 0x800.
Definition kEthHwAddrLen : Z := 6.
Definition kArpRequest : Z := 1.
Definition kArpReply : Z := 2.

(** EthernetAddress, as its six bytes. *)
Definition EthernetAddress : Type := list Z.
Definition BroadcastMAC : EthernetAddress := [0xff; 0xff; 0xff; 0xff; 0xff; 0xff].

(** struct EthernetHeader. *)
Definition eth_header (dst src : EthernetAddress) (type : Z) : list Z := dst ++ src ++ to_be16 type.
Definition eth_dst (h : list Z) : EthernetAddress := take 6 h.
Definition eth_src (h : list Z) : EthernetAddress := take 6 (drop 6 h).
Definition eth_type (h : list Z) : Z := be16 12 h.

(** struct ArpPacket. *)
Definition arp_packet (oper : Z) (sha : EthernetAddress) (spa : list Z) (tha : EthernetAddress) (tpa : list Z) : list Z :=
  to_be16 kHTypeEth ++ to_be16 kPTypeIp ++ [kEthHwAddrLen; 4] ++ to_be16 oper ++ sha ++ spa ++ tha ++ tpa.
Definition arp_htype (m : list Z) : Z := be16 0 m.
Definition arp_ptype (m : list Z) : Z := be16 2 m.
Definition arp_oper (m : list Z) : Z := be16 6 m.
Definition arp_sha (m : list Z) : EthernetAddress := take 6 (drop 8 m).
Definition arp_spa (m : list Z) : Ipv4Address := ip_at 14 m.
Definition arp_tpa (m : list Z) : Ipv4Address := ip_at 24 m.

(** A frame handed to the device. *)
Record frame_out := mkOut { out_packet : packet; out_info : PacketInfo }.

(** ** class OperationQueue *)

(** A packet that waits for an address: what [send_func] captures. *)
Record operation := mkOp { op_packet : packet; op_proto : Z; op_info : PacketInfo }.

(** The linked list, last pushed first.  [InvokeAndClear] frees the nodes and
    leaves the head pointing to them: then the list ends in freed nodes. *)
Record OperationQueue := mkQ { q_nodes : list operation; q_freed : bool }.
Definition empty_queue : OperationQueue := mkQ [] false.

Definition Push (op : operation) (q : OperationQueue) : OperationQueue := mkQ (op :: q_nodes q) (q_freed q).

(** [send_func]: the frame that leaves when the address is known. *)
Definition send_func (mac : EthernetAddress) (op : operation) (dst : EthernetAddress) : frame_out :=
  mkOut (pkt_Put (eth_header dst mac (op_proto op)) (op_packet op)) (op_info op).

(** [InvokeAndClear]: the frames in the order they are sent, and what is left. *)
Definition InvokeAndClear (mac : EthernetAddress) (addr : outcome EthernetAddress) (q : OperationQueue) :
    outcome (list frame_out * OperationQueue) :=
  sent ← match q_nodes q with
         | [] => Ok []
         | l => a ← addr; Ok ((fun op => send_func mac op a) <$> l)
         end;
  if q_freed q then Fail UndefinedBehaviour
  else Ok (sent, mkQ [] (match q_nodes q with [] => false | _ => true end)).

(** ** struct ArpEntry and the cache *)

Record ArpEntry := mkArp { hwaddr : option nat; queue : OperationQueue }.

(** The cache, the live EthernetAddress objects, and the functions that SetAddr
    has given to DoRcu: the entry and the object they refer to. *)
Record ArpCache := mkCache {
  arp_cache_ : gmap Ipv4Address ArpEntry;
  macs : gmap nat EthernetAddress;
  next_loc : nat;
  arp_rcu : list (Ipv4Address * nat)
}.

Definition set_entry (a : Ipv4Address) (e : ArpEntry) (s : ArpCache) : ArpCache :=
  mkCache (<[a := e]> (arp_cache_ s)) (macs s) (next_loc s) (arp_rcu s).

(** [new EthernetAddress(sha)]. *)
Definition new_mac (m : EthernetAddress) (s : ArpCache) : nat * ArpCache :=
  (next_loc s, mkCache (arp_cache_ s) (<[next_loc s := m]> (macs s)) (S (next_loc s)) (arp_rcu s)).

(** Reading an object through its address. *)
Definition read_mac (ptr : nat) (s : ArpCache) : outcome EthernetAddress :=
  match macs s !! ptr with Some m => Ok m | None => Fail UndefinedBehaviour end.

(** ArpEntry::SetAddr.  The unique_ptr that [exchange] returns frees the old
    object at the end. *)
Definition SetAddr (mac : EthernetAddress) (paddr : Ipv4Address) (ptr : nat) (s : ArpCache) :
    outcome (ArpCache * list frame_out) :=
  e ← deref (arp_cache_ s !! paddr);
  match hwaddr e with
  | None =>
      '(sent, _) ← InvokeAndClear mac (read_mac ptr s) (queue e);
      Ok (mkCache (<[paddr := mkArp (Some ptr) empty_queue]> (arp_cache_ s)) (macs s) (next_loc s) (arp_rcu s ++ [(paddr, ptr)]), sent)
  | Some old =>
      Ok (mkCache (<[paddr := mkArp (Some ptr) (queue e)]> (arp_cache_ s)) (delete old (macs s)) (next_loc s) (arp_rcu s), [])
  end.

(** The function given to DoRcu. *)
Definition rcu_clear (mac : EthernetAddress) (paddr : Ipv4Address) (ptr : nat) (s : ArpCache) : outcome (ArpCache * list frame_out) :=
  e ← deref (arp_cache_ s !! paddr);
  '(sent, q) ← InvokeAndClear mac (read_mac ptr s) (queue e);
  Ok (set_entry paddr (mkArp (hwaddr e) q) s, sent).

(** ** Sending *)

(** EthArpRequest.  Without an address the sender field of the buffer is not
    written. *)
Definition EthArpRequest (mac : EthernetAddress) (addr : option ItfAddress) (garbage : list Z) (paddr : Ipv4Address) : frame_out :=
  let spa := match addr with Some a => ip_bytes (itf_address a) | None => garbage end in
  mkOut [mkBuf 0 [] (eth_header BroadcastMAC mac kEthTypeArp ++
                     arp_packet kArpRequest mac spa [0; 0; 0; 0; 0; 0] (ip_bytes paddr)) []] pinfo0.

(** What EthArpSend does with a packet before it looks at the cache. *)
Inductive eth_action := SendNow (f : frame_out) | Unroutable | Resolve (local_dest : Ipv4Address) (op : operation).

Definition EthArpAction (mac : EthernetAddress) (addr : option ItfAddress) (proto : Z) (ip_header : list Z) (buf : packet)
    (pinfo : PacketInfo) : outcome eth_action :=
  let pinfo := pinfo_shift sizeofEthernetHeader pinfo in
  buf ← pkt_Retreat sizeofEthernetHeader buf;
  _ ← pkt_Get 14 buf;
  let dst := ip_dst_of ip_header in
  if bool_decide (dst = ip_Broadcast) || match addr with Some a => itf_isBroadcast a dst | None => false end then
    Ok (SendNow (mkOut (pkt_Put (eth_header BroadcastMAC mac proto) buf) pinfo))
  else if isMulticast dst then Fail Aborted
  else match addr with
  | None => Ok Unroutable
  | Some a =>
      let local_dest := if negb (isLocalNetwork a dst) && negb (isLinkLocal dst) then gateway a else dst in
      Ok (Resolve local_dest (mkOp buf proto pinfo))
  end.

(** The cache is looked up; a new entry is created and its address requested. *)
Definition EthArpResolve (mac : EthernetAddress) (addr : option ItfAddress) (local_dest : Ipv4Address) (op : operation) (s : ArpCache) :
    outcome (ArpCache * list frame_out) :=
  match arp_cache_ s !! local_dest with
  | None =>
      Ok (set_entry local_dest (mkArp None (Push op empty_queue)) s, [EthArpRequest mac addr [] local_dest])
  | Some e =>
      match hwaddr e with
      | None => Ok (set_entry local_dest (mkArp None (Push op (queue e))) s, [])
      | Some ptr => a ← read_mac ptr s; Ok (s, [send_func mac op a])
      end
  end.

Definition EthArpSend (mac : EthernetAddress) (addr : option ItfAddress) (proto : Z) (ip_header : list Z) (buf : packet)
    (pinfo : PacketInfo) (s : ArpCache) : outcome (ArpCache * list frame_out) :=
  act ← EthArpAction mac addr proto ip_header buf pinfo;
  match act with
  | SendNow f => Ok (s, [f])
  | Unroutable => Ok (s, [])
  | Resolve local_dest op => EthArpResolve mac addr local_dest op s
  end.

(** ** Receiving *)

(** The reply, made in the buffer of the request; its Ethernet header is in front
    of the data. *)
Definition arp_reply (mac : EthernetAddress) (a : ItfAddress) (eth m : list Z) (buf : packet) : outcome packet :=
  let buf := pkt_Put (take 6 m ++ to_be16 kArpReply ++ mac ++ ip_bytes (itf_address a) ++ arp_sha m ++ ip_bytes (arp_spa m)) buf in
  buf ← pkt_Retreat sizeofEthernetHeader buf;
  Ok (pkt_Put (eth_src eth ++ mac ++ drop 12 (take 14 eth)) buf).

Definition ReceiveArp (mac : EthernetAddress) (addr : option ItfAddress) (eth : list Z) (buf : packet) (s : ArpCache) :
    outcome (ArpCache * list frame_out) :=
  if pkt_len buf <? sizeofArpPacket then Ok (s, []) else
  m ← pkt_Get 28 buf;
  if negb (arp_htype m =? kHTypeEth) || negb (arp_ptype m =? kEthTypeIp) then Ok (s, []) else
  '(found, s, sent) ←
    match arp_cache_ s !! arp_spa m with
    | Some _ => let '(ptr, s) := new_mac (arp_sha m) s in '(s, sent) ← SetAddr mac (arp_spa m) ptr s; Ok (true, s, sent)
    | None => Ok (false, s, [])
    end;
  match addr with
  | Some a =>
      if bool_decide (itf_address a = arp_tpa m) then
        let s := if found : bool then s
                 else let '(ptr, s) := new_mac (arp_sha m) s in set_entry (arp_spa m) (mkArp (Some ptr) empty_queue) s in
        if arp_oper m =? kArpRequest then
          p ← arp_reply mac a eth m buf;
          Ok (s, sent ++ [mkOut p pinfo0])
        else Ok (s, sent)
      else Ok (s, sent)
  | None => Ok (s, sent)
  end.

(** Interface::Receive, Net.cc. *)
Inductive eth_result := EthDrop | ToIp (eth : list Z) (p : packet) | ToArp (eth : list Z) (p : packet).
Definition EthReceive (buf : packet) : outcome eth_result :=
  if pkt_len buf <=? sizeofEthernetHeader then Ok EthDrop else
  eth ← pkt_Get 14 buf;
  buf ← pkt_Advance sizeofEthernetHeader buf;
  if eth_type eth =? kEthTypeIp then Ok (ToIp eth buf)
  else if eth_type eth =? kEthTypeArp then Ok (ToArp eth buf)
  else Ok EthDrop.
