(* ===== verification/NetEthCorrect.v ===== *)
(** * Correctness of address resolution and framing

    Senders, replies and grace periods interleave: a packet that waits for a
    hardware address is sent exactly once when the address arrives.  A second
    reply before the grace period of the first ends frees an address that is
    still used. *)

From S2P Require Import Prelude.
From S2P Require Import Checksum NetIp NetIpCorrect NetEth.

(** ** Interleavings *)

(** A sender that has found no address and has not queued its packet yet. *)
Record sender := mkSender { snd_id : nat; snd_dest : Ipv4Address; snd_op : operation }.

(** A function that SetAddr has given to DoRcu; it runs after all senders that
    were then under way have queued their packets. *)
Record callback := mkCb { cb_entry : Ipv4Address; cb_ptr : nat; cb_readers : list nat }.

(** The cache, the senders and functions under way, and as a history the packets
    submitted for and sent to each destination. *)
Record ArpSys := mkAS {
  cache : ArpCache;
  senders : list sender;
  callbacks : list callback;
  submitted : list (Ipv4Address * operation);
  delivered : list (Ipv4Address * operation);
  next_id : nat
}.

Definition queued (d : Ipv4Address) (s : ArpSys) : list operation :=
  match arp_cache_ (cache s) !! d with Some e => q_nodes (queue e) | None => [] end.

Inductive astep (mac : EthernetAddress) : ArpSys -> ArpSys -> Prop :=
(* EthArpSend: no entry, one is created *)
| as_new c ss cb sub del n d op : arp_cache_ c !! d = None ->
    astep mac (mkAS c ss cb sub del n)
      (mkAS (set_entry d (mkArp None empty_queue) c) (mkSender n d op :: ss) cb ((d, op) :: sub) del (S n))
(* the entry has no address *)
| as_wait c ss cb sub del n d op e : arp_cache_ c !! d = Some e -> hwaddr e = None ->
    astep mac (mkAS c ss cb sub del n) (mkAS c (mkSender n d op :: ss) cb ((d, op) :: sub) del (S n))
(* the entry has an address: the packet is sent *)
| as_send c ss cb sub del n d op e c' fr : arp_cache_ c !! d = Some e -> hwaddr e <> None ->
    EthArpResolve mac None d op c = Ok (c', fr) ->
    astep mac (mkAS c ss cb sub del n) (mkAS c' ss cb ((d, op) :: sub) ((d, op) :: del) n)
(* a sender queues its packet *)
| as_push c l1 x l2 cb sub del n e : arp_cache_ c !! snd_dest x = Some e ->
    astep mac (mkAS c (l1 ++ x :: l2) cb sub del n)
      (mkAS (set_entry (snd_dest x) (mkArp (hwaddr e) (Push (snd_op x) (queue e))) c) (l1 ++ l2) cb sub del n)
(* a reply: the first address of the entry, or another one *)
| as_first c ss cb sub del n d m e c' fr : arp_cache_ c !! d = Some e -> hwaddr e = None ->
    SetAddr mac d (new_mac m c).1 (new_mac m c).2 = Ok (c', fr) ->
    astep mac (mkAS c ss cb sub del n)
      (mkAS c' ss (mkCb d (new_mac m c).1 (snd_id <$> ss) :: cb) sub ((pair d <$> q_nodes (queue e)) ++ del) n)
| as_again c ss cb sub del n d m e c' fr : arp_cache_ c !! d = Some e -> hwaddr e <> None ->
    SetAddr mac d (new_mac m c).1 (new_mac m c).2 = Ok (c', fr) ->
    astep mac (mkAS c ss cb sub del n) (mkAS c' ss cb sub del n)
(* an address is learned from a packet *)
| as_learn c ss cb sub del n d m : arp_cache_ c !! d = None ->
    astep mac (mkAS c ss cb sub del n)
      (mkAS (set_entry d (mkArp (Some (new_mac m c).1) empty_queue) (new_mac m c).2) ss cb sub del n)
(* a grace period ends *)
| as_rcu c ss l1 x l2 sub del n e c' fr : (forall y, y ∈ ss -> snd_id y ∉ cb_readers x) -> arp_cache_ c !! cb_entry x = Some e ->
    rcu_clear mac (cb_entry x) (cb_ptr x) c = Ok (c', fr) ->
    astep mac (mkAS c ss (l1 ++ x :: l2) sub del n)
      (mkAS c' ss (l1 ++ l2) sub ((pair (cb_entry x) <$> q_nodes (queue e)) ++ del) n).

Definition arp_start : ArpSys := mkAS (mkCache ∅ ∅ 0 []) [] [] [] [] 0.

(** ** The invariant *)

Definition for_dest {A} (d : Ipv4Address) (l : list (Ipv4Address * A)) : list A :=
  snd <$> filter (fun p => p.1 = d) l.
Definition sending (d : Ipv4Address) (ss : list sender) : list operation :=
  snd_op <$> filter (fun x => snd_dest x = d) ss.
Definition callbacks_of (d : Ipv4Address) (cb : list callback) : list callback := filter (fun x => cb_entry x = d) cb.

(** The state of one entry, with the senders and functions that are under way for it. *)
Definition entry_ok (oe : option ArpEntry) (ss : list sender) (cb : list callback) : Prop :=
  match oe with
  | None => ss = [] /\ cb = []
  | Some e =>
      match hwaddr e with
      | None => cb = [] /\ q_freed (queue e) = false
      | Some _ => (exists x, cb = [x] /\ q_freed (queue e) = false /\ forall y, y ∈ ss -> snd_id y ∈ cb_readers x) \/
                  (cb = [] /\ ss = [] /\ q_nodes (queue e) = [])
      end
  end.

Record AInv (s : ArpSys) : Prop := {
  ai_entry : forall d, entry_ok (arp_cache_ (cache s) !! d) (filter (fun x => snd_dest x = d) (senders s)) (callbacks_of d (callbacks s));
  ai_sum : forall d, for_dest d (submitted s) ≡ₚ for_dest d (delivered s) ++ queued d s ++ sending d (senders s)
}.

Lemma for_dest_cons {A} d d' (x : A) l : for_dest d ((d', x) :: l) = if decide (d' = d) then x :: for_dest d l else for_dest d l.
Proof. unfold for_dest. rewrite filter_cons. cbn [fst]. by case_decide. Qed.

Lemma for_dest_pairs {A} d d' (q : list A) l : for_dest d ((pair d' <$> q) ++ l) = (if decide (d' = d) then q else []) ++ for_dest d l.
Proof.
  induction q as [|x q IH]; cbn [fmap list_fmap app]; [by case_decide |]. fold (fmap (M := list) (pair (B := A) d') q).
  rewrite for_dest_cons, IH. by case_decide.
Qed.

Lemma queued_insert d d' e c : match arp_cache_ (set_entry d' e c) !! d with Some e => q_nodes (queue e) | None => [] end =
  if decide (d' = d) then q_nodes (queue e) else match arp_cache_ c !! d with Some e => q_nodes (queue e) | None => [] end.
Proof. cbn [set_entry arp_cache_]. case_decide as E; [subst; by rewrite lookup_insert_eq | by rewrite lookup_insert_ne]. Qed.

Lemma cache_insert d d' e c : arp_cache_ (set_entry d' e c) !! d = if decide (d' = d) then Some e else arp_cache_ c !! d.
Proof. cbn [set_entry arp_cache_]. case_decide as E; [subst; by rewrite lookup_insert_eq | by rewrite lookup_insert_ne]. Qed.

Lemma filter_one {A} (P : A -> Prop) `{forall x, Decision (P x)} l1 x l2 :
  filter P (l1 ++ x :: l2) = filter P l1 ++ (if decide (P x) then [x] else []) ++ filter P l2.
Proof. rewrite filter_app, filter_cons. by case_decide. Qed.

(** What the operations do to an entry. *)
Lemma InvokeAndClear_ok mac a q sent q' : InvokeAndClear mac a q = Ok (sent, q') -> q_freed q = false /\ q_nodes q' = [].
Proof.
  unfold InvokeAndClear. intros (x & _ & H)%bind_ok. destruct (q_freed q); [done |]. by injection H as <- <-.
Qed.

Lemma SetAddr_first mac d ptr c c' fr e : arp_cache_ c !! d = Some e -> hwaddr e = None -> SetAddr mac d ptr c = Ok (c', fr) ->
  arp_cache_ c' = <[d := mkArp (Some ptr) empty_queue]> (arp_cache_ c) /\ q_freed (queue e) = false.
Proof.
  intros He Hh. unfold SetAddr. rewrite He. cbn [deref]. rewrite bind_Ok, Hh. intros ([sent q] & Hi & H)%bind_ok.
  apply InvokeAndClear_ok in Hi as [Hf _]. by injection H as <- <-.
Qed.
Lemma SetAddr_again mac d ptr c c' fr e : arp_cache_ c !! d = Some e -> hwaddr e <> None -> SetAddr mac d ptr c = Ok (c', fr) ->
  arp_cache_ c' = <[d := mkArp (Some ptr) (queue e)]> (arp_cache_ c).
Proof.
  intros He Hh. unfold SetAddr. rewrite He. cbn [deref]. rewrite bind_Ok. destruct (hwaddr e); [| done]. by intros [= <- <-].
Qed.
Lemma rcu_clear_ok mac d ptr c c' fr e : arp_cache_ c !! d = Some e -> rcu_clear mac d ptr c = Ok (c', fr) ->
  exists q, arp_cache_ c' = <[d := mkArp (hwaddr e) q]> (arp_cache_ c) /\ q_nodes q = [].
Proof.
  intros He. unfold rcu_clear. rewrite He. cbn [deref]. rewrite bind_Ok. intros ([sent q] & Hi & H)%bind_ok.
  apply InvokeAndClear_ok in Hi as [_ Hq]. injection H as <- <-. by exists q.
Qed.

Lemma as_entry mac s s' : astep mac s s' -> AInv s -> forall d,
  entry_ok (arp_cache_ (cache s') !! d) (filter (fun x => snd_dest x = d) (senders s')) (callbacks_of d (callbacks s')).
Proof.
  intros Hst [HE _] d. unfold callbacks_of in *. pose proof (HE d) as Hd.
  destruct Hst as [c ss cb sub del n d' op Hn|c ss cb sub del n d' op e He Hh|c ss cb sub del n d' op e c' fr He Hh Hr
    |c l1 x l2 cb sub del n e He|c ss cb sub del n d' m e c' fr He Hh Hs|c ss cb sub del n d' m e c' fr He Hh Hs|c ss cb sub del n d' m Hn
    |c ss l1 x l2 sub del n e c' fr Hrd He Hr]; cbn [cache senders callbacks] in *.
  - rewrite cache_insert, filter_cons. cbn [snd_dest]. case_decide; [subst d' | done]. rewrite Hn in Hd. destruct Hd as [-> ->].
    done.
  - rewrite filter_cons. cbn [snd_dest]. case_decide; [subst d' | done]. rewrite He in Hd |- *. cbn in Hd |- *. by rewrite Hh in *.
  - unfold EthArpResolve in Hr. rewrite He in Hr. destruct (hwaddr e); [| done]. by apply bind_ok in Hr as (? & _ & [= <- <-]).
  - rewrite filter_one in Hd. rewrite cache_insert, filter_app. destruct (decide (snd_dest x = d)) as [<-|]; [| done].
    rewrite He in Hd. cbn [entry_ok hwaddr queue Push q_freed q_nodes] in *. destruct (hwaddr e); [| done].
    destruct Hd as [(y & -> & Hf & Hy)|(_ & Hnil & _)].
    + left. exists y. split_and!; [done | done |]. intros z Hz. apply Hy. set_solver.
    + exfalso. destruct (filter _ l1); discriminate Hnil.
  - destruct (SetAddr_first mac d' _ (new_mac m c).2 c' fr e He Hh Hs) as [-> _]. cbn [new_mac snd arp_cache_]. rewrite filter_cons. cbn [cb_entry].
    destruct (decide (d' = d)) as [->|]; [| by rewrite lookup_insert_ne]. rewrite lookup_insert_eq. rewrite He in Hd. cbn in Hd. rewrite Hh in Hd.
    destruct Hd as [-> _]. left. eexists. split_and!; [done | done |]. intros y Hy. cbn [cb_readers].
    apply list_elem_of_fmap. exists y. split; [done |]. by apply list_elem_of_filter in Hy as [_ ?].
  - rewrite (SetAddr_again mac d' _ (new_mac m c).2 c' fr e He Hh Hs). cbn [new_mac snd arp_cache_].
    destruct (decide (d' = d)) as [->|]; [| by rewrite lookup_insert_ne]. rewrite lookup_insert_eq. rewrite He in Hd. cbn in Hd |- *.
    by destruct (hwaddr e).
  - rewrite cache_insert. cbn [new_mac snd arp_cache_]. case_decide; [subst d' | done]. rewrite Hn in Hd. destruct Hd as [-> ->].
    cbn. right. done.
  - destruct (rcu_clear_ok _ _ _ _ _ _ e He Hr) as (q & -> & Hq). rewrite filter_one in Hd. rewrite filter_app.
    destruct (decide (cb_entry x = d)) as [<-|]; [| by rewrite lookup_insert_ne]. rewrite lookup_insert_eq, He in *.
    cbn [entry_ok hwaddr queue] in *. destruct (hwaddr e).
    + right. destruct Hd as [(y & Hy & _ & Hrds)|(Hnil & _)]; [| destruct (filter _ l1); discriminate Hnil].
      destruct (filter _ l1) as [|z [|]]; [| discriminate Hy..]. cbn in Hy. injection Hy as <- Hl2. rewrite Hl2. split_and!; [done | | done].
      destruct (filter _ ss) as [|z l] eqn:Ez; [done |]. exfalso.
      assert (z ∈ filter (fun y => snd_dest y = cb_entry x) ss) as Hz by (rewrite Ez; by left).
      apply (Hrd z); [by apply list_elem_of_filter in Hz as [_ ?] | apply Hrds; by left].
    + destruct Hd as [Hnil _]. destruct (filter _ l1); discriminate Hnil.
Qed.

Lemma queued_cache (mp : gmap Ipv4Address ArpEntry) d d' e : match <[d' := e]> mp !! d with Some e => q_nodes (queue e) | None => [] end =
  if decide (d' = d) then q_nodes (queue e) else match mp !! d with Some e => q_nodes (queue e) | None => [] end.
Proof. case_decide as E; [subst; by rewrite lookup_insert_eq | by rewrite lookup_insert_ne]. Qed.

Lemma as_sum mac s s' : astep mac s s' -> AInv s -> forall d,
  for_dest d (submitted s') ≡ₚ for_dest d (delivered s') ++ queued d s' ++ sending d (senders s').
Proof.
  intros Hst [_ HS] d. pose proof (HS d) as Hd. unfold queued, sending in *.
  destruct Hst as [c ss cb sub del n d' op Hn|c ss cb sub del n d' op e He Hh|c ss cb sub del n d' op e c' fr He Hh Hr
    |c l1 x l2 cb sub del n e He|c ss cb sub del n d' m e c' fr He Hh Hs|c ss cb sub del n d' m e c' fr He Hh Hs|c ss cb sub del n d' m Hn
    |c ss l1 x l2 sub del n e c' fr Hrd He Hr]; cbn [cache senders submitted delivered] in *.
  - rewrite for_dest_cons, filter_cons, queued_insert. cbn [snd_dest]. destruct (decide (d' = d)) as [->|]; [| done].
    rewrite Hn in Hd. rewrite Hd. cbn [queue empty_queue q_nodes fmap list_fmap snd_op]. solve_Permutation.
  - rewrite for_dest_cons, filter_cons. cbn [snd_dest]. destruct (decide (d' = d)) as [->|]; [| done].
    rewrite Hd. cbn [fmap list_fmap snd_op]. solve_Permutation.
  - unfold EthArpResolve in Hr. rewrite He in Hr. destruct (hwaddr e); [| done]. apply bind_ok in Hr as (? & _ & [= <- <-]).
    rewrite !for_dest_cons. case_decide; [| done]. rewrite Hd. solve_Permutation.
  - rewrite filter_one in Hd. rewrite queued_insert, filter_app. destruct (decide (snd_dest x = d)) as [<-|]; [| done].
    rewrite He in Hd. rewrite Hd. cbn [queue Push q_nodes]. rewrite !fmap_app. cbn [fmap list_fmap]. solve_Permutation.
  - destruct (SetAddr_first mac d' _ (new_mac m c).2 c' fr e He Hh Hs) as [-> _]. cbn [new_mac snd arp_cache_].
    rewrite for_dest_pairs, queued_cache. destruct (decide (d' = d)) as [->|]; [| done]. rewrite He in Hd. rewrite Hd.
    cbn [queue empty_queue q_nodes]. solve_Permutation.
  - rewrite (SetAddr_again mac d' _ (new_mac m c).2 c' fr e He Hh Hs). cbn [new_mac snd arp_cache_].
    rewrite queued_cache. destruct (decide (d' = d)) as [->|]; [| done]. by rewrite He in Hd.
  - rewrite queued_insert. cbn [new_mac snd arp_cache_]. destruct (decide (d' = d)) as [->|]; [| done]. by rewrite Hn in Hd.
  - destruct (rcu_clear_ok _ _ _ _ _ _ e He Hr) as (q & -> & Hq). rewrite for_dest_pairs, queued_cache.
    destruct (decide (cb_entry x = d)) as [<-|]; [| done]. rewrite He in Hd. rewrite Hd. cbn [queue]. rewrite Hq. solve_Permutation.
Qed.

Lemma reachable_AInv mac s : rtc (astep mac) arp_start s -> AInv s.
Proof.
  intros Hrun. assert (AInv arp_start) as I0 by (split; intros d; [by cbn; rewrite lookup_empty | unfold queued; cbn; by rewrite lookup_empty]).
  revert I0. induction Hrun as [s|s1 s2 s3 Hst _ IH]; [done |]. intros I. apply IH. split; [by eapply as_entry | by eapply as_sum].
Qed.


(** ** Lifetime of the addresses *)

Definition push_to (d : Ipv4Address) (op : operation) (c : ArpCache) : outcome ArpCache :=
  e ← deref (arp_cache_ c !! d);
  Ok (set_entry d (mkArp (hwaddr e) (Push op (queue e))) c).

Lemma InvokeAndClear_run mac a q : q_freed q = false ->
  exists q', InvokeAndClear mac (Ok a) q = Ok ((fun op => send_func mac op a) <$> q_nodes q, q').
Proof. intros Hf. unfold InvokeAndClear. rewrite Hf. destruct (q_nodes q); by eexists. Qed.

(** A sender finds no address; the reply arrives; the sender queues its packet;
    a second reply arrives before the grace period of the first is over.  Then the
    function of the first reply uses the address object that the second one has
    freed. *)
Theorem second_reply_use_after_free mac c d e m1 m2 op : arp_cache_ c !! d = Some e -> hwaddr e = None -> q_freed (queue e) = false ->
  exists c1 c2 c3 fr1 fr2,
    SetAddr mac d (new_mac m1 c).1 (new_mac m1 c).2 = Ok (c1, fr1) /\ push_to d op c1 = Ok c2 /\
    SetAddr mac d (new_mac m2 c2).1 (new_mac m2 c2).2 = Ok (c3, fr2) /\
    rcu_clear mac d (new_mac m1 c).1 c3 = Fail UndefinedBehaviour.
Proof.
  intros He Hh Hf. cbn [new_mac fst snd]. destruct (InvokeAndClear_run mac m1 (queue e) Hf) as [q' Hq].
  do 5 eexists. split; [| split; [| split]].
  - unfold SetAddr. cbn [arp_cache_]. rewrite He. cbn [deref]. rewrite bind_Ok, Hh.
    assert (read_mac (next_loc c) (mkCache (arp_cache_ c) (<[next_loc c := m1]> (macs c)) (S (next_loc c)) (arp_rcu c)) = Ok m1) as ->
      by (unfold read_mac; cbn [macs]; by rewrite lookup_insert_eq).
    rewrite Hq, bind_Ok. reflexivity.
  - unfold push_to. cbn [arp_cache_]. rewrite lookup_insert_eq. reflexivity.
  - unfold SetAddr. cbn [arp_cache_ set_entry]. rewrite lookup_insert_eq. cbn [deref]. rewrite bind_Ok. reflexivity.
  - unfold rcu_clear. cbn [arp_cache_]. rewrite lookup_insert_eq. cbn [deref]. rewrite bind_Ok.
    unfold InvokeAndClear, read_mac. cbn [queue Push empty_queue q_nodes macs set_entry next_loc]. by rewrite lookup_delete_eq.
Qed.

(** ** Replies *)

Lemma Get_single n addr pre data post : (n <= length data)%nat -> (0 < n)%nat -> pkt_Get n [mkBuf addr pre data post] = Ok (data ++ post).
Proof.
  intros Hn Hpos. cbn [pkt_Get b_data b_post]. destruct data as [|x l]; [cbn in Hn; lia |]. by rewrite (proj2 (Nat.ltb_ge _ _)) by (cbn in *; lia).
Qed.
Lemma pkt_len_single b : pkt_len [b] = Z.of_nat (length (b_data b)).
Proof. unfold pkt_len, pkt_data. cbn [fmap list_fmap concat]. by rewrite app_nil_r. Qed.

Lemma put_prefix addr pre old data post new : length new = length old -> old ++ data <> [] ->
  pkt_Put new [mkBuf addr pre (old ++ data) post] = [mkBuf addr pre (new ++ data) post].
Proof. intros Hl Hne. rewrite Put_headed by done. cbn [b_addr b_pre b_data b_post]. by rewrite Hl, drop_app_length. Qed.

Definition mac_ok (m : EthernetAddress) : Prop := length m = 6%nat.

Lemma to_be16_length x : length (to_be16 x) = 2%nat.
Proof. done. Qed.

Section ArpReply.
Context (mac : EthernetAddress) (a : ItfAddress) (sha tha : EthernetAddress) (spa tpa : Ipv4Address).
Hypotheses (Hmac : mac_ok mac) (Hsha : mac_ok sha) (Htha : mac_ok tha).

Lemma arp_fields oper rest : let m := arp_packet oper sha (ip_bytes spa) tha (ip_bytes tpa) ++ rest in
  0 <= oper < 2 ^ 16 -> arp_htype m = kHTypeEth /\ arp_ptype m = kEthTypeIp /\ arp_oper m = oper /\ arp_sha m = sha /\
  arp_spa m = spa /\ arp_tpa m = tpa /\ length (arp_packet oper sha (ip_bytes spa) tha (ip_bytes tpa)) = 28%nat.
Proof.
  intros m Ho. destruct sha as [|s0 [|s1 [|s2 [|s3 [|s4 [|s5 [|]]]]]]]; try discriminate Hsha.
  destruct tha as [|t0 [|t1 [|t2 [|t3 [|t4 [|t5 [|]]]]]]]; try discriminate Htha. destruct spa as [p0 p1 p2 p3], tpa as [q0 q1 q2 q3].
  split_and!; try done. exact (be_halves oper Ho).
Qed.

(** Addresses that have been allocated. *)
Definition CacheOk (s : ArpCache) : Prop := forall d e, arp_cache_ s !! d = Some e ->
  (hwaddr e = None -> q_freed (queue e) = false) /\ forall ptr, hwaddr e = Some ptr -> (ptr < next_loc s)%nat.

(** The entry of [d] has the address [m]. *)
Definition resolved (s : ArpCache) (d : Ipv4Address) (m : EthernetAddress) : Prop :=
  exists e ptr, arp_cache_ s !! d = Some e /\ hwaddr e = Some ptr /\ macs s !! ptr = Some m.

Lemma SetAddr_resolves s d m : CacheOk s -> is_Some (arp_cache_ s !! d) ->
  exists s' sent, SetAddr mac d (new_mac m s).1 (new_mac m s).2 = Ok (s', sent) /\ resolved s' d m.
Proof.
  intros Hok [e He]. destruct (Hok d e He) as [H1 H2]. cbn [new_mac fst snd]. unfold SetAddr. cbn [arp_cache_]. rewrite He. cbn [deref].
  rewrite bind_Ok. destruct (hwaddr e) as [old|] eqn:Eh.
  - do 2 eexists. split; [done |]. do 2 eexists. cbn [arp_cache_ macs]. rewrite lookup_insert_eq. split_and!; [done | done |].
    specialize (H2 old eq_refl). rewrite lookup_delete_ne by lia. by rewrite lookup_insert_eq.
  - destruct (InvokeAndClear_run mac m (queue e) (H1 eq_refl)) as [q' Hq].
    assert (read_mac (next_loc s) (mkCache (arp_cache_ s) (<[next_loc s := m]> (macs s)) (S (next_loc s)) (arp_rcu s)) = Ok m) as ->
      by (unfold read_mac; cbn [macs]; by rewrite lookup_insert_eq).
    rewrite Hq, bind_Ok. do 2 eexists. split; [done |]. do 2 eexists. cbn [arp_cache_ macs].
    rewrite lookup_insert_eq. split_and!; [done | done |]. by rewrite lookup_insert_eq.
Qed.

Lemma arp_reply_run at_ pre dst src pad post more : mac_ok dst -> mac_ok src ->
  let eth := eth_header dst src kEthTypeArp in
  let m := arp_packet kArpRequest sha (ip_bytes spa) tha (ip_bytes tpa) in
  arp_reply mac a (eth ++ more) (m ++ pad ++ post) [mkBuf at_ (pre ++ eth) (m ++ pad) post] =
    Ok [mkBuf at_ pre (eth_header src mac kEthTypeArp ++ arp_packet kArpReply mac (ip_bytes (itf_address a)) sha (ip_bytes spa) ++ pad) post].
Proof.
  intros Hdst Hsrc eth m. destruct (arp_fields kArpRequest (pad ++ post)) as (_ & _ & _ & E4 & E5 & _ & E7); [done |]. fold m in E4, E5, E7.
  unfold arp_reply. rewrite E4, E5. assert (take 6 (m ++ pad ++ post) = to_be16 kHTypeEth ++ to_be16 kPTypeIp ++ [kEthHwAddrLen; 4]) as -> by done.
  unfold mac_ok in *.
  assert (length (arp_packet kArpReply mac (ip_bytes (itf_address a)) sha (ip_bytes spa)) = 28%nat) as El
    by (unfold arp_packet; rewrite !length_app, Hmac, Hsha; done).
  match goal with |- context [pkt_Put ?bs _] => change bs with (arp_packet kArpReply mac (ip_bytes (itf_address a)) sha (ip_bytes spa)) end.
  rewrite put_prefix; [| by rewrite El, E7 | intros [E _]%app_eq_nil; by rewrite E in E7].
  assert (length eth = 14%nat) as Ee by (unfold eth, eth_header; rewrite !length_app, Hdst, Hsrc; done).
  change sizeofEthernetHeader with (Z.of_nat 14). rewrite <- Ee, retreat_over, bind_Ok.
  rewrite (take_app_length' eth more) by done.
  assert (eth_src (eth ++ more) ++ mac ++ drop 12 eth = eth_header src mac kEthTypeArp) as ->.
  { unfold eth_src, eth, eth_header. rewrite <- !app_assoc. rewrite (drop_app_length' dst) by (by rewrite Hdst).
    rewrite (take_app_length' src) by (by rewrite Hsrc). do 2 f_equal.
    rewrite (app_assoc dst src). apply drop_app_length'. by rewrite length_app, Hdst, Hsrc. }
  rewrite put_prefix; [done | | intros [E _]%app_eq_nil; by rewrite E in Ee].
  rewrite Ee. unfold eth_header. by rewrite !length_app, Hsrc, Hmac.
Qed.
End ArpReply.

(** A request for the address of the interface is answered with the hardware
    address of the interface, to the sender, in the same buffer, and the cache
    then has the address of the sender. *)
Theorem arp_request_answered mac a sha tha spa dst src at_ pre pad post more s :
  mac_ok mac -> mac_ok sha -> mac_ok tha -> mac_ok dst -> mac_ok src -> CacheOk s ->
  let eth := eth_header dst src kEthTypeArp in
  exists s' sent, ReceiveArp mac (Some a) (eth ++ more)
      [mkBuf at_ (pre ++ eth) (arp_packet kArpRequest sha (ip_bytes spa) tha (ip_bytes (itf_address a)) ++ pad) post] s =
    Ok (s', sent ++ [mkOut [mkBuf at_ pre (eth_header src mac kEthTypeArp ++
                              arp_packet kArpReply mac (ip_bytes (itf_address a)) sha (ip_bytes spa) ++ pad) post] pinfo0]) /\
    resolved s' spa sha.
Proof.
  intros Hmac Hsha Htha Hdst Hsrc Hok eth.
  destruct (arp_fields sha tha spa (itf_address a) Hsha Htha kArpRequest (pad ++ post)) as (E1 & E2 & E3 & E4 & E5 & E6 & E7); [done |].
  pose proof (arp_reply_run mac a sha tha spa (itf_address a) Hmac Hsha Htha at_ pre dst src pad post more Hdst Hsrc) as Hrep.
  cbv zeta in Hrep. fold eth in Hrep. set (m := arp_packet kArpRequest sha (ip_bytes spa) tha (ip_bytes (itf_address a))) in *.
  unfold ReceiveArp. rewrite pkt_len_single. cbn [b_data]. rewrite length_app, E7, (proj2 (Z.ltb_ge _ _)) by (unfold sizeofArpPacket; lia).
  rewrite Get_single by (rewrite ?length_app; lia). rewrite bind_Ok, <- app_assoc. rewrite E1, E2. change (negb (kHTypeEth =? kHTypeEth)) with false.
  change (negb (kEthTypeIp =? kEthTypeIp)) with false. cbv iota beta delta [orb]. rewrite E3, E4, E5, E6.
  rewrite bool_decide_eq_true_2 by done. change (kArpRequest =? kArpRequest) with true. cbv iota.
  destruct (arp_cache_ s !! spa) as [e|] eqn:Ec.
  - destruct (SetAddr_resolves mac s spa sha Hok) as (s' & sent & Hset & Hres); [by eexists |].
    unfold new_mac in Hset |- *. cbn [fst snd] in Hset. rewrite Hset, !bind_Ok, Hrep, bind_Ok. by exists s', sent.
  - rewrite bind_Ok. unfold new_mac. rewrite Hrep, bind_Ok. do 2 eexists. split; [done |]. do 2 eexists. cbn [set_entry arp_cache_ macs].
    rewrite lookup_insert_eq. split_and!; [done | done |]. by rewrite lookup_insert_eq.
Qed.

(** ** Frames *)

Definition next_hop (a : ItfAddress) (dst : Ipv4Address) : Ipv4Address :=
  if negb (isLocalNetwork a dst) && negb (isLinkLocal dst) then gateway a else dst.

Definition unicast (a : ItfAddress) (dst : Ipv4Address) : Prop :=
  dst <> ip_Broadcast /\ itf_isBroadcast a dst = false /\ isMulticast dst = false.

Lemma eth_header_length dst src type : mac_ok dst -> mac_ok src -> length (eth_header dst src type) = 14%nat.
Proof. intros Hd Hs. unfold eth_header. by rewrite !length_app, Hd, Hs. Qed.

(** A packet to a host whose hardware address is known leaves at once. *)
Lemma EthArpSend_run mac a proto h b t pinfo s m : (14 <= length (b_pre b))%nat -> mac_ok mac -> mac_ok m ->
  unicast a (ip_dst_of h) -> resolved s (next_hop a (ip_dst_of h)) m ->
  EthArpSend mac (Some a) proto h (b :: t) pinfo s =
    Ok (s, [mkOut (mkBuf (b_addr b) (take (length (b_pre b) - 14) (b_pre b)) (eth_header m mac proto ++ b_data b) (b_post b) :: t)
                  (pinfo_shift sizeofEthernetHeader pinfo)]).
Proof.
  intros Hpre Hmac Hm (Hb1 & Hb2 & Hb3) (e & ptr & He & Hh & Hp).
  destruct (retreat_put b t 14 (eth_header m mac proto) Hpre) as (Hr & _ & Hput); [lia | by apply eth_header_length |].
  destruct (Get_retreat b t 14 Hpre) as [g Hg]; [lia |].
  unfold EthArpSend, EthArpAction. change (Z.of_nat 14) with sizeofEthernetHeader in Hr. rewrite Hr, bind_Ok.
  rewrite Hg, bind_Ok. rewrite bool_decide_eq_false_2, Hb2, Hb3 by done. cbv iota beta delta [orb]. rewrite bind_Ok. fold (next_hop a (ip_dst_of h)).
  unfold EthArpResolve. rewrite He, Hh. unfold read_mac. rewrite Hp, bind_Ok. unfold send_func. cbn [op_packet op_proto op_info].
  by rewrite Hput.
Qed.

Lemma EthReceive_run at_ pre eth rest post : length eth = 14%nat -> rest <> [] ->
  EthReceive [mkBuf at_ pre (eth ++ rest) post] =
    Ok (if eth_type (eth ++ rest ++ post) =? kEthTypeIp then ToIp (eth ++ rest ++ post) [mkBuf at_ (pre ++ eth) rest post]
        else if eth_type (eth ++ rest ++ post) =? kEthTypeArp then ToArp (eth ++ rest ++ post) [mkBuf at_ (pre ++ eth) rest post]
        else EthDrop).
Proof.
  intros Hl Hr. assert (0 < length rest)%nat as Hr' by (destruct rest; [done | cbn; lia]).
  unfold EthReceive. rewrite pkt_len_single. cbn [b_data]. rewrite length_app, Hl, (proj2 (Z.leb_gt _ _)) by (unfold sizeofEthernetHeader; lia).
  rewrite Get_single by (rewrite ?length_app; lia). rewrite bind_Ok. unfold pkt_Advance. cbn [b_data].
  rewrite (proj2 (Z.leb_le _ _)) by (unfold sizeofEthernetHeader; rewrite length_app; lia). cbn [kassert]. rewrite !bind_Ok, <- app_assoc.
  unfold buf_advance. cbn [b_data b_addr b_pre b_post]. change (Z.to_nat sizeofEthernetHeader) with 14%nat.
  rewrite <- Hl, take_app_length, drop_app_length. by repeat case_match.
Qed.

Lemma eth_type_header dst src type rest : mac_ok dst -> mac_ok src -> 0 <= type < 2 ^ 16 ->
  eth_type (eth_header dst src type ++ rest) = type.
Proof.
  intros Hd Hs Ht. destruct dst as [|d0 [|d1 [|d2 [|d3 [|d4 [|d5 [|]]]]]]]; try discriminate Hd.
  destruct src as [|s0 [|s1 [|s2 [|s3 [|s4 [|s5 [|]]]]]]]; try discriminate Hs. exact (be_halves type Ht).
Qed.

(** ** Examples *)

Definition ex_mac : EthernetAddress := [2; 0; 0; 0; 0; 1].
Definition ex_peer : EthernetAddress := [2; 0; 0; 0; 0; 2].
Definition ex_ip : Ipv4Address := mkIp 10 0 0 9.
Definition ex_op : operation := mkOp [mkBuf 0 [] (repeat 0 14 ++ [77]) []] kEthTypeIp pinfo0.

(** A packet waits for the address; the reply sends it. *)
Definition ex_c0 : ArpCache := mkCache ∅ ∅ 0 [].
Definition ex_c1 : ArpCache := set_entry ex_ip (mkArp None empty_queue) ex_c0.
Definition ex_c2 : ArpCache := set_entry ex_ip (mkArp None (Push ex_op empty_queue)) ex_c1.
Definition ex_c3 : ArpCache := match SetAddr ex_mac ex_ip (new_mac ex_peer ex_c2).1 (new_mac ex_peer ex_c2).2 with Ok (c, _) => c | _ => ex_c2 end.


Lemma second_reply_use_after_free_witness : exists c1 c2 c3 fr1 fr2,
  SetAddr ex_mac ex_ip (new_mac ex_peer ex_c1).1 (new_mac ex_peer ex_c1).2 = Ok (c1, fr1) /\ push_to ex_ip ex_op c1 = Ok c2 /\
  SetAddr ex_mac ex_ip (new_mac ex_peer c2).1 (new_mac ex_peer c2).2 = Ok (c3, fr2) /\
  rcu_clear ex_mac ex_ip (new_mac ex_peer ex_c1).1 c3 = Fail UndefinedBehaviour.
Proof. apply (second_reply_use_after_free ex_mac ex_c1 ex_ip (mkArp None empty_queue) ex_peer ex_peer ex_op); by vm_compute. Defined.

Definition ex_eth : list Z := eth_header BroadcastMAC ex_peer kEthTypeArp.

Lemma arp_request_answered_witness : exists s' sent, ReceiveArp ex_mac (Some demo_itf) (ex_eth ++ [])
      [mkBuf 0 ([] ++ ex_eth) (arp_packet kArpRequest ex_peer (ip_bytes ex_ip) (repeat 0 6) (ip_bytes (itf_address demo_itf)) ++ [0; 0]) []] ex_c0 =
    Ok (s', sent ++ [mkOut [mkBuf 0 [] (eth_header ex_peer ex_mac kEthTypeArp ++
                              arp_packet kArpReply ex_mac (ip_bytes (itf_address demo_itf)) ex_peer (ip_bytes ex_ip) ++ [0; 0]) []] pinfo0]) /\
    resolved s' ex_ip ex_peer.
Proof.
  apply (arp_request_answered ex_mac demo_itf ex_peer (repeat 0 6) ex_ip BroadcastMAC ex_peer 0 [] [0; 0] [] [] ex_c0); try done.
Defined.
