(* ===== verification/IOBuf.v ===== *)
(** * IOBuf: circular chains of buffers

    Models src/src/IOBuf.h, IOBuf.cc, UniqueIOBuf.cc and IOBufRef.cc.  The
    objects live in a heap of nodes linked by [next_] and [prev_]; every
    operation is the sequence of reads and writes of the source.  The theorems
    relate the rings to lists of nodes, and [DataPointer] to a position in the
    bytes of the chain. *)

From S2P Require Import Prelude.

(** class IOBuf, with the owner's [Buffer()] and [Capacity()]. *)
Record IOBuf := mkIOBuf {
  next_ : nat; prev_ : nat;
  data_ : Z; length_ : Z;
  Buffer : Z; Capacity : Z
}.
Notation heap := (gmap nat IOBuf).

Definition node (h : heap) (p : nat) : outcome IOBuf :=
  match h !! p with Some n => Ok n | None => Fail UndefinedBehaviour end.
Definition with_next (q : nat) (n : IOBuf) : IOBuf :=
  mkIOBuf q (prev_ n) (data_ n) (length_ n) (Buffer n) (Capacity n).
Definition with_prev (q : nat) (n : IOBuf) : IOBuf :=
  mkIOBuf (next_ n) q (data_ n) (length_ n) (Buffer n) (Capacity n).
Definition with_view (d l : Z) (n : IOBuf) : IOBuf :=
  mkIOBuf (next_ n) (prev_ n) d l (Buffer n) (Capacity n).

(** [p->field = v]. *)
Definition store (f : IOBuf -> IOBuf) (p : nat) (h : heap) : outcome heap :=
  n ← node h p; Ok (<[p := f n]> h).

(** ** One buffer *)

Definition Advance (this : nat) (amount : Z) (h : heap) : outcome heap :=
  n ← node h this;
  _ ← kassert (amount <=? length_ n);
  store (with_view (u64 (data_ n + amount)) (length_ n - amount)) this h.

Definition Retreat (this : nat) (amount : Z) (h : heap) : outcome heap :=
  n ← node h this;
  _ ← kassert (Buffer n <=? u64 (data_ n - amount));
  store (with_view (u64 (data_ n - amount)) (u64 (length_ n + amount))) this h.

(** [TrimEnd] does not check the amount. *)
Definition TrimEnd (this : nat) (amount : Z) (h : heap) : outcome heap :=
  n ← node h this;
  store (with_view (data_ n) (u64 (length_ n - amount))) this h.

Definition IsChained (this : nat) (h : heap) : outcome bool :=
  n ← node h this; Ok (negb (next_ n =? this)%nat).

(** ** Links *)

Definition PrependChain (this other : nat) (h : heap) : outcome heap :=
  o ← node h other;
  let other_tail := prev_ o in
  t ← node h this;
  h ← store (with_next other) (prev_ t) h;
  t ← node h this;
  h ← store (with_prev (prev_ t)) other h;
  h ← store (with_next this) other_tail h;
  store (with_prev other_tail) this h.

Definition AppendChain (this other : nat) (h : heap) : outcome heap :=
  n ← node h this; PrependChain (next_ n) other h.

Definition Unlink (this : nat) (h : heap) : outcome heap :=
  n ← node h this;
  h ← store (with_prev (prev_ n)) (next_ n) h;
  n ← node h this;
  h ← store (with_next (next_ n)) (prev_ n) h;
  h ← store (with_prev this) this h;
  store (with_next this) this h.

Definition UnlinkEnd (this end_ : nat) (h : heap) : outcome heap :=
  e ← node h end_;
  let new_end := prev_ e in
  t ← node h this;
  h ← store (with_prev (prev_ t)) end_ h;
  e ← node h end_;
  h ← (if (next_ e =? this)%nat then store (with_next end_) end_ h else Ok h);
  t ← node h this;
  h ← store (with_next end_) (prev_ t) h;
  h ← store (with_prev new_end) this h;
  store (with_next this) new_end h.

(** The chain that followed, if any. *)
Definition Pop (this : nat) (h : heap) : outcome (option nat * heap) :=
  n ← node h this;
  let next := next_ n in
  h ← store (with_prev (prev_ n)) next h;
  n ← node h this;
  h ← store (with_next (next_ n)) (prev_ n) h;
  h ← store (with_prev this) this h;
  h ← store (with_next this) this h;
  Ok (if (next =? this)%nat then None else Some next, h).

(** ** Traversals

    [fuel] bounds the number of nodes visited; the number of nodes of the heap
    is enough. *)

(** The loops [for (current = next_; current != this; current = next_)]. *)
Fixpoint walk {A} (fuel : nat) (f : A -> IOBuf -> A) (this current : nat) (acc : A) (h : heap) : outcome A :=
  if (current =? this)%nat then Ok acc else
  match fuel with
  | O => Fail Aborted
  | S fuel => n ← node h current; walk fuel f this (next_ n) (f acc n) h
  end.

Definition CountChainElements (this : nat) (h : heap) : outcome Z :=
  n ← node h this;
  walk (size h) (fun elements _ => u64 (elements + 1)) this (next_ n) 1 h.

Definition ComputeChainDataLength (this : nat) (h : heap) : outcome Z :=
  n ← node h this;
  walk (size h) (fun len c => u64 (len + length_ c)) this (next_ n) (length_ n) h.

(** [AdvanceChain]: the iterator stops when it is back at the head. *)
Fixpoint advance_loop (fuel : nat) (head buf : nat) (amount : Z) (h : heap) : outcome heap :=
  match fuel with
  | O => Fail Aborted
  | S fuel =>
      n ← node h buf;
      let advance_len := Z.min (length_ n) amount in
      h ← Advance buf advance_len h;
      let amount := amount - advance_len in
      if amount =? 0 then Ok h
      else if (next_ n =? head)%nat then Ok h
      else advance_loop fuel head (next_ n) amount h
  end.
Definition AdvanceChain (this : nat) (amount : Z) (h : heap) : outcome heap :=
  len ← ComputeChainDataLength this h;
  _ ← kassert (amount <=? len);
  advance_loop (size h) this this amount h.

(** The destructor: the other nodes are unlinked and deleted one by one, then
    the storage of the node goes. *)
Fixpoint destroy_loop (fuel : nat) (this : nat) (h : heap) : outcome heap :=
  n ← node h this;
  if (next_ n =? this)%nat then Ok h else
  match fuel with
  | O => Fail Aborted
  | S fuel =>
      h ← Unlink (next_ n) h;
      destroy_loop fuel this (delete (next_ n) h)
  end.
Definition Destroy (this : nat) (h : heap) : outcome heap :=
  h ← destroy_loop (size h) this h; Ok (delete this h).

(** ** Creation *)

Definition new_IOBuf (p : nat) (buffer capacity : Z) : IOBuf := mkIOBuf p p buffer capacity buffer capacity.

(** [MakeUniqueIOBuf]: the storage comes from the allocator. *)
Definition MakeUniqueIOBuf (storage capacity : Z) (h : heap) : nat * heap :=
  let p := fresh (dom h) in (p, <[p := new_IOBuf p storage capacity]> h).

Definition CreateRef (buf : nat) (h : heap) : outcome (nat * heap) :=
  b ← node h buf;
  let head := fresh (dom h) in
  let h := <[head := new_IOBuf head (Buffer b) (Capacity b)]> h in
  h ← Advance head (data_ b - Buffer b) h;
  n ← node h head;
  h ← TrimEnd head (u64 (length_ n - length_ b)) h;
  Ok (head, h).

Fixpoint ref_loop (fuel : nat) (head first it : nat) (h : heap) : outcome heap :=
  if (it =? first)%nat then Ok h else
  match fuel with
  | O => Fail Aborted
  | S fuel =>
      '(r, h) ← CreateRef it h;
      h ← PrependChain head r h;
      n ← node h it;
      ref_loop fuel head first (next_ n) h
  end.
Definition CreateRefChain (buf : nat) (h : heap) : outcome (nat * heap) :=
  '(head, h1) ← CreateRef buf h;
  b ← node h1 buf;
  h ← ref_loop (size h) head buf (next_ b) h1;
  Ok (head, h).

(** ** DataPointer: reading through a chain

    [mem] is the memory the buffers point to.  The loops may go round the chain;
    every round consumes at least one byte, which bounds them. *)
Section DataPointer.
Context (mem : Z -> Z).

(** [n] bytes at address [a]. *)
Definition mem_bytes (a n : Z) : list Z := (fun i => mem (u64 (a + Z.of_nat i))) <$> seq 0 (Z.to_nat n).

Record DataPointer := mkDP { dp_p : nat; dp_offset : Z }.

Fixpoint skip_empty (fuel : nat) (p : nat) (h : heap) : outcome nat :=
  n ← node h p;
  if length_ n =? 0 then match fuel with O => Fail Aborted | S fuel => skip_empty fuel (next_ n) h end
  else Ok p.

Definition new_DataPointer (p : nat) (h : heap) : outcome DataPointer :=
  len ← ComputeChainDataLength p h;
  _ ← kassert (0 <? len);
  p ← skip_empty (size h) p h;
  Ok (mkDP p 0).

(** [Data()], and the bytes from there to the end of the buffer. *)
Definition dp_Data (d : DataPointer) (h : heap) : outcome Z :=
  n ← node h (dp_p d);
  _ ← kassert (0 <? length_ n);
  if u64 (length_ n - dp_offset d) =? 0 then Fail (Thrown "DataPointer::Data() past end of buffer")
  else Ok (u64 (data_ n + dp_offset d)).

(** The copy loop for a request that straddles buffers. *)
Fixpoint copy_loop (fuel : nat) (p : nat) (offset len : Z) (h : heap) : outcome (list Z) :=
  if len <=? 0 then Ok [] else
  match fuel with
  | O => Fail Aborted
  | S fuel =>
      n ← node h p;
      let remainder := Z.min (u64 (length_ n - offset)) len in
      let data := mem_bytes (u64 (data_ n + offset)) remainder in
      rest ← copy_loop fuel (next_ n) 0 (len - remainder) h;
      Ok (data ++ rest)
  end.
Definition rounds (size_ : Z) (h : heap) : nat := (Z.to_nat size_ + 1) * (size h + 1).

Definition GetNoAdvance (size_ : Z) (d : DataPointer) (h : heap) : outcome (list Z) :=
  n ← node h (dp_p d);
  _ ← kassert (0 <? length_ n);
  if u64 (length_ n - dp_offset d) <? size_ then copy_loop (rounds size_ h) (dp_p d) (dp_offset d) size_ h
  else a ← dp_Data d h; Ok (mem_bytes a size_).

Fixpoint dp_advance_loop (fuel : nat) (p : nat) (offset size_ : Z) (h : heap) : outcome DataPointer :=
  if size_ <=? 0 then p ← skip_empty (size h) p h; Ok (mkDP p offset) else
  match fuel with
  | O => Fail Aborted
  | S fuel =>
      n ← node h p;
      let remainder := u64 (length_ n - offset) in
      if size_ <? remainder then Ok (mkDP p (offset + size_))
      else dp_advance_loop fuel (next_ n) 0 (size_ - remainder) h
  end.
Definition dp_Advance (size_ : Z) (d : DataPointer) (h : heap) : outcome DataPointer :=
  n ← node h (dp_p d);
  _ ← kassert (0 <? length_ n);
  dp_advance_loop (rounds size_ h) (dp_p d) (dp_offset d) size_ h.

Definition dp_Get (size_ : Z) (d : DataPointer) (h : heap) : outcome (list Z * DataPointer) :=
  bs ← GetNoAdvance size_ d h;
  d ← dp_Advance size_ d h;
  Ok (bs, d).

(** [MutDataPointer::Get<T>]: the object must lie in one buffer. *)
Definition mdp_GetNoAdvance (sizeofT : Z) (d : DataPointer) (h : heap) : outcome Z :=
  n ← node h (dp_p d);
  _ ← kassert (0 <? length_ n);
  if u64 (length_ n - dp_offset d) <? sizeofT
  then Fail (Thrown "MutDataPointer::Get(): request straddles buffer")
  else dp_Data d h.
Definition mdp_Get (sizeofT : Z) (d : DataPointer) (h : heap) : outcome (Z * DataPointer) :=
  a ← mdp_GetNoAdvance sizeofT d h;
  d ← dp_Advance sizeofT d h;
  Ok (a, d).
End DataPointer.

(** ** Rings as lists *)

Definition next (h : heap) (p : nat) : option nat := next_ <$> h !! p.
Definition prev (h : heap) (p : nat) : option nat := prev_ <$> h !! p.

(** Consecutive nodes of the list point at each other. *)
Fixpoint linked (h : heap) (l : list nat) : Prop :=
  match l with
  | p :: (q :: _) as l' => next h p = Some q /\ prev h q = Some p /\ linked h l'
  | _ => True
  end.

(** The chain that starts at the head of [l] holds the nodes [l], in order. *)
Definition ring (h : heap) (l : list nat) : Prop :=
  NoDup l /\ match l with [] => False | p :: _ => linked h (l ++ [p]) end.

(** The data fields of a node. *)
Definition view (h : heap) (p : nat) : option (Z * Z * Z * Z) :=
  (fun n => (data_ n, length_ n, Buffer n, Capacity n)) <$> h !! p.

Lemma linked_app h l1 x l2 : linked h (l1 ++ x :: l2) <-> linked h (l1 ++ [x]) /\ linked h (x :: l2).
Proof.
  induction l1 as [|p l1 IH]; cbn [app]; [cbn; destruct l2; tauto |].
  destruct l1 as [|q l1]; cbn [app linked] in *; tauto.
Qed.

(** Only the successors of all but the last, and the predecessors of all but
    the first, matter. *)
Lemma linked_frame h h' l x :
  (forall p, p ∈ l -> next h' p = next h p) -> (forall p, p ∈ tail (l ++ [x]) -> prev h' p = prev h p) ->
  linked h (l ++ [x]) -> linked h' (l ++ [x]).
Proof.
  induction l as [|p l IH]; intros Hn Hp Hl; [done |].
  destruct l as [|q l]; cbn [app linked tail] in *.
  - destruct Hl as (H1 & H2 & _). rewrite Hn, Hp by set_solver. done.
  - destruct Hl as (H1 & H2 & H3). rewrite Hn, Hp by set_solver.
    split_and!; [done | done |]. apply IH; [set_solver | set_solver | done].
Qed.

Lemma linked_lookup h l x p : linked h (l ++ [x]) -> p ∈ l -> is_Some (h !! p).
Proof.
  induction l as [|q l IH]; [set_solver |]. cbn [app]. intros Hl. rewrite elem_of_cons.
  assert (is_Some (h !! q) /\ linked h (l ++ [x])) as [Hq Hl'].
  { destruct l as [|r l]; cbn [app linked] in Hl |- *; destruct Hl as (H1 & H2 & H3);
      (split; [unfold next in H1; apply fmap_Some in H1 as (? & ? & _); eauto | done]). }
  intros [->|]; [done | auto].
Qed.

Lemma ring_lookup h l p : ring h l -> p ∈ l -> is_Some (h !! p).
Proof. intros [_ Hl]. destruct l; [done |]. by eapply linked_lookup. Qed.

(** A ring can be entered at any node. *)
Lemma ring_rotate h l1 l2 : l2 <> [] -> ring h (l1 ++ l2) -> ring h (l2 ++ l1).
Proof.
  intros Hne [Hd Hl]. split; [by rewrite Permutation_app_comm |].
  destruct l2 as [|q l2]; [done |]. destruct l1 as [|p l1]; [by rewrite app_nil_r in * |].
  cbn [app] in *. rewrite <- app_assoc in Hl. cbn [app] in Hl.
  assert (linked h ((p :: l1) ++ q :: l2 ++ [p])) as Hl' by done.
  rewrite linked_app in Hl'. destruct Hl' as [H1 H2].
  rewrite <- app_assoc. cbn [app].
  assert (linked h ((q :: l2) ++ p :: l1 ++ [q])) as ?; [| done].
  apply linked_app. done.
Qed.

Lemma store_spec f p h n : h !! p = Some n -> store f p h = Ok (<[p := f n]> h).
Proof. intros E. unfold store, node. by rewrite E. Qed.
Lemma node_spec h p n : h !! p = Some n -> node h p = Ok n.
Proof. intros E. unfold node. by rewrite E. Qed.

(** ** Effects of the assignments on the links *)

Definition same_views (h h' : heap) : Prop := forall x, view h' x = view h x.
Lemma same_views_some h h' p : same_views h h' -> is_Some (h !! p) -> is_Some (h' !! p).
Proof.
  intros Hv [n E]. specialize (Hv p). unfold view in Hv. rewrite E in Hv. cbn in Hv.
  apply fmap_Some in Hv as (? & ? & _). eauto.
Qed.
Lemma same_views_trans h1 h2 h3 : same_views h1 h2 -> same_views h2 h3 -> same_views h1 h3.
Proof. intros ? ? x. congruence. Qed.

(** Function update. *)
Definition upd (f : nat -> option nat) (p q x : nat) : option nat := if decide (x = p) then Some q else f x.
Lemma upd_eq f p q : upd f p q p = Some q.
Proof. unfold upd. by rewrite decide_True. Qed.
Lemma upd_ne f p q x : x <> p -> upd f p q x = f x.
Proof. intros. unfold upd. by rewrite decide_False. Qed.

Lemma store_next_ok q p h : is_Some (h !! p) -> exists h', store (with_next q) p h = Ok h' /\
  (forall x, next h' x = upd (next h) p q x) /\ (forall x, prev h' x = prev h x) /\ same_views h h'.
Proof.
  intros [n E]. exists (<[p := with_next q n]> h). split; [by apply store_spec |].
  unfold same_views, next, prev, view, upd.
  split_and!; intros x; destruct (decide (x = p)) as [->|];
    by rewrite ?lookup_insert_eq, ?lookup_insert_ne, ?E by congruence.
Qed.

Lemma store_prev_ok q p h : is_Some (h !! p) -> exists h', store (with_prev q) p h = Ok h' /\
  (forall x, next h' x = next h x) /\ (forall x, prev h' x = upd (prev h) p q x) /\ same_views h h'.
Proof.
  intros [n E]. exists (<[p := with_prev q n]> h). split; [by apply store_spec |].
  unfold same_views, next, prev, view, upd.
  split_and!; intros x; destruct (decide (x = p)) as [->|];
    by rewrite ?lookup_insert_eq, ?lookup_insert_ne, ?E by congruence.
Qed.

Lemma node_ok h p : is_Some (h !! p) -> exists n, node h p = Ok n /\
  next h p = Some (next_ n) /\ prev h p = Some (prev_ n) /\
  view h p = Some (data_ n, length_ n, Buffer n, Capacity n).
Proof. intros [n E]. exists n. unfold node, next, prev, view. by rewrite E. Qed.

Lemma is_Some_prev h p q : prev h p = Some q -> is_Some (h !! p).
Proof. unfold prev. intros (? & ? & _)%fmap_Some. eauto. Qed.
Lemma is_Some_next h p q : next h p = Some q -> is_Some (h !! p).
Proof. unfold next. intros (? & ? & _)%fmap_Some. eauto. Qed.

(** Execute the next assignment or read of the goal. *)
Ltac links_some := first [done | eauto using is_Some_prev, is_Some_next, same_views_some, same_views_trans].
Ltac run_read :=
  match goal with
  | |- context [node ?h ?p] =>
      let n := fresh "n" in let E := fresh "E" in
      destruct (node_ok h p) as (n & E & ? & ? & ?); [links_some | rewrite E; cbn [mbind outcome_bind]]
  end.
Ltac merge_views :=
  try match goal with
  | H1 : same_views ?a ?b, H2 : same_views ?b ?c |- _ =>
      pose proof (same_views_trans a b c H1 H2); clear H1 H2
  end.
Ltac run_store :=
  match goal with
  | |- context [store (with_next ?q) ?p ?h] =>
      let h' := fresh "h" in let E := fresh "E" in
      destruct (store_next_ok q p h) as (h' & E & ? & ? & ?); [links_some | rewrite E; cbn [mbind outcome_bind]; merge_views]
  | |- context [store (with_prev ?q) ?p ?h] =>
      let h' := fresh "h" in let E := fresh "E" in
      destruct (store_prev_ok q p h) as (h' & E & ? & ? & ?); [links_some | rewrite E; cbn [mbind outcome_bind]; merge_views]
  end.

(** Evaluate a link from the equations collected for the assignments. *)
Ltac links_step :=
  match goal with
  | H : forall y : nat, next ?h y = _ |- context [next ?h ?x] => rewrite (H x)
  | H : forall y : nat, prev ?h y = _ |- context [prev ?h ?x] => rewrite (H x)
  end.
Ltac links_eq := repeat (links_step; unfold upd); unfold upd; repeat case_decide; congruence.
Ltac links_in H :=
  repeat (match type of H with
  | context [next ?h ?x] => match goal with E : forall y : nat, next h y = _ |- _ => rewrite (E x) in H end
  | context [prev ?h ?x] => match goal with E : forall y : nat, prev h y = _ |- _ => rewrite (E x) in H end
  end; unfold upd in H).

Lemma PrependChain_links this other t1 t2 h : this <> other ->
  prev h this = Some t1 -> prev h other = Some t2 -> is_Some (h !! t1) -> is_Some (h !! t2) ->
  exists h', PrependChain this other h = Ok h' /\ same_views h h' /\
    (forall x, next h' x = upd (upd (next h) t1 other) t2 this x) /\
    (forall x, prev h' x = upd (upd (prev h) other t1) this t2 x).
Proof.
  intros Hne H1 H2 S1 S2. unfold PrependChain. run_read. run_read. simplify_eq.
  run_store. run_read. run_store. run_store. run_store.
  assert (prev_ n1 = prev_ n) as Hp by congruence.
  eexists. split; [done |]. split; [eauto using same_views_trans |].
  split; intros x; links_eq.
Qed.

(** Splitting off the last node. *)
Lemma ring_last h p l : ring h (p :: l) -> exists l' t, p :: l = l' ++ [t] /\
  prev h p = Some t /\ next h t = Some p.
Proof.
  intros [_ Hl]. destruct (exists_last (l := p :: l)) as (l' & t & E); [done |].
  exists l', t. rewrite E in Hl. rewrite <- app_assoc in Hl. cbn [app] in Hl.
  apply linked_app in Hl as [_ Hl]. cbn in Hl. tauto.
Qed.

Lemma snoc_ends (p t : nat) (l m : list nat) :
  NoDup (p :: l) -> p :: l = m ++ [t] -> t ∉ m /\ p ∉ tail (m ++ [t]).
Proof.
  intros D E. rewrite <- E. cbn [tail]. split; [| by apply NoDup_cons in D as [? _]].
  rewrite E in D. apply NoDup_app in D as (_ & D & _). set_solver.
Qed.

(** [PrependChain] joins two disjoint chains into the concatenation of their
    nodes; no view changes and no other chain is affected. *)
Theorem PrependChain_correct h a l1 b l2 :
  ring h (a :: l1) -> ring h (b :: l2) -> (a :: l1) ## (b :: l2) ->
  exists h', PrependChain a b h = Ok h' /\ ring h' ((a :: l1) ++ (b :: l2)) /\ same_views h h' /\
    forall l, ring h l -> l ## (a :: l1) -> l ## (b :: l2) -> ring h' l.
Proof.
  intros R1 R2 Hd. destruct (ring_last _ _ _ R1) as (m1 & t1 & E1 & P1 & N1).
  destruct (ring_last _ _ _ R2) as (m2 & t2 & E2 & P2 & N2).
  assert (t1 ∈ a :: l1) as T1 by (rewrite E1; set_solver).
  assert (t2 ∈ b :: l2) as T2 by (rewrite E2; set_solver).
  destruct (PrependChain_links a b t1 t2 h) as (h' & Hok & Hv & Hn & Hp);
    [set_solver | done | done | exact (ring_lookup _ _ _ R1 T1) | exact (ring_lookup _ _ _ R2 T2) |].
  exists h'. split; [done |].
  destruct R1 as [D1 L1], R2 as [D2 L2].
  assert (forall l x, linked h (l ++ [x]) -> t1 ∉ l -> t2 ∉ l ->
    a ∉ tail (l ++ [x]) -> b ∉ tail (l ++ [x]) -> linked h' (l ++ [x])) as Hframe.
  { intros l x Hl ? ? ? ?. apply (linked_frame h); [| | done]; intros p ?.
    - rewrite Hn, !upd_ne by (intros ->; done). done.
    - rewrite Hp, !upd_ne by (intros ->; done). done. }
  destruct (snoc_ends _ _ _ _ D1 E1) as [F1 G1], (snoc_ends _ _ _ _ D2 E2) as [F2 G2].
  assert (forall x, x ∈ m1 ++ [t1] -> x ∈ b :: l2 -> False) as Hd1 by (rewrite <- E1; exact Hd).
  assert (forall x, x ∈ m2 ++ [t2] -> x ∈ a :: l1 -> False) as Hd2
    by (rewrite <- E2; intros x ? ?; by apply (Hd x)).
  assert (forall (x : nat) l, x ∈ tail l -> x ∈ l) as Htail by (intros x [|]; [done | by right]).
  split_and!; [| done |].
  - split; [apply NoDup_app; split_and!; [done | exact Hd | done] |]. cbn [app].
    change (linked h' (((a :: l1) ++ (b :: l2)) ++ [a])). rewrite E1, <- !app_assoc. cbn [app].
    rewrite E1, <- app_assoc in L1. rewrite E2, <- app_assoc in L2. cbn [app] in L1, L2.
    apply linked_app in L1 as [M1 _]. apply linked_app in L2 as [M2 _].
    apply linked_app. split.
    { apply Hframe; [done | done | intros ?; apply (Hd1 t2); [by apply elem_of_app; left | done] | done |].
      intros ?%Htail. apply (Hd1 b); [done | by left]. }
    assert (linked h' (b :: l2 ++ [a])) as L3.
    { change (linked h' ((b :: l2) ++ [a])). rewrite E2, <- app_assoc. apply linked_app. split.
      - apply Hframe; [done | intros ?; apply (Hd2 t1); [by apply elem_of_app; left | done] | done | | done].
        intros ?%Htail. apply (Hd2 a); [done | by left].
      - cbn. rewrite Hn, Hp, !upd_eq. done. }
    cbn [linked]. rewrite Hn, Hp, (upd_ne _ t2), (upd_ne _ a), !upd_eq; [done | |].
    + intros ->. by apply (Hd a); left.
    + intros ->. by apply (Hd t2).
  - intros l [Dl Ll] H1 H2. split; [done |]. destruct l as [|x l]; [done |].
    apply Hframe; [done | intros ?; by apply (H1 t1) | intros ?; by apply (H2 t2) | |]; cbn [tail app];
      rewrite elem_of_app, list_elem_of_singleton; intros [?|<-].
    + apply (H1 a); [by right | by left].
    + apply (H1 a); by left.
    + apply (H2 b); [by right | by left].
    + apply (H2 b); by left.
Qed.

(** Closing a segment. *)
Lemma seg_ring h h' p t l m :
  NoDup (p :: l) -> p :: l = m ++ [t] -> linked h (m ++ [t]) ->
  next h' t = Some p -> prev h' p = Some t ->
  (forall x, x ∈ m -> next h' x = next h x) -> (forall x, x ∈ l -> prev h' x = prev h x) ->
  ring h' (p :: l).
Proof.
  intros D E L Hn Hp Fn Fp. split; [done |]. rewrite E, <- app_assoc. cbn [app].
  apply linked_app. split; [| by cbn].
  apply (linked_frame h); [done | by rewrite <- E | done].
Qed.

(** A heap in which a chain is cut before [b], and the two parts closed. *)
Definition cut (h h' : heap) (a b t1 t2 : nat) : Prop :=
  (forall x, next h' x = upd (upd (next h) t1 a) t2 b x) /\
  (forall x, prev h' x = upd (upd (prev h) a t1) b t2 x) /\ same_views h h'.

Lemma ring_cut h h' a l1 b l2 m1 t1 m2 t2 :
  ring h ((a :: l1) ++ (b :: l2)) -> a :: l1 = m1 ++ [t1] -> b :: l2 = m2 ++ [t2] -> cut h h' a b t1 t2 ->
  ring h' (a :: l1) /\ ring h' (b :: l2) /\
  forall l, ring h l -> l ## (a :: l1) ++ (b :: l2) -> ring h' l.
Proof.
  intros [D L] E1 E2 (Hn & Hp & _). apply NoDup_app in D as (D1 & Hd & D2).
  destruct (snoc_ends _ _ _ _ D1 E1) as [F1 G1], (snoc_ends _ _ _ _ D2 E2) as [F2 G2].
  assert (t1 ∈ a :: l1) as T1 by (rewrite E1; apply elem_of_app; right; by left).
  assert (t2 ∈ b :: l2) as T2 by (rewrite E2; apply elem_of_app; right; by left).
  assert (t1 <> t2) as Ht by (intros ->; by apply (Hd t2)).
  assert (a <> b) as Hab by (intros ->; apply (Hd b); by left).
  cbn [app] in L. change (linked h (((a :: l1) ++ (b :: l2)) ++ [a])) in L.
  rewrite E1, E2, <- !app_assoc in L. cbn [app] in L. apply linked_app in L as [L1 L].
  assert (linked h (m2 ++ [t2])) as L2.
  { change (linked h ((t1 :: m2) ++ t2 :: [a])) in L. apply linked_app in L as [L _].
    destruct m2; [done |]. cbn in L. tauto. }
  split_and!.
  - eapply (seg_ring h); [done | done | done | ..].
    + by rewrite Hn, upd_ne, upd_eq by done.
    + by rewrite Hp, upd_ne, upd_eq by done.
    + intros x Hx. rewrite Hn, !upd_ne; [done | by intros -> |]. intros ->. apply (Hd t2); [| done].
      rewrite E1. apply elem_of_app. by left.
    + intros x Hx. rewrite Hp, !upd_ne; [done | by intros ->; apply NoDup_cons in D1 as [? _] |].
      intros ->. apply (Hd b); [by right | by left].
  - eapply (seg_ring h); [done | done | done | ..].
    + by rewrite Hn, upd_eq.
    + by rewrite Hp, upd_eq.
    + intros x Hx. rewrite Hn, !upd_ne; [done | | by intros ->]. intros ->. apply (Hd t1); [done |].
      rewrite E2. apply elem_of_app. by left.
    + intros x Hx. rewrite Hp, !upd_ne; [done | | by intros ->; apply NoDup_cons in D2 as [? _]].
      intros ->. apply (Hd a); [by left | by right].
  - intros l [Dl Ll] Hl. split; [done |]. destruct l as [|x l]; [done |].
    assert (forall y, y ∈ (x :: l) ++ [x] -> y ∉ (a :: l1) ++ (b :: l2)) as Hout.
    { intros y Hy Hy'. apply (Hl y); [| done]. rewrite elem_of_app, list_elem_of_singleton in Hy.
      destruct Hy as [?| ->]; [done | by left]. }
    apply (linked_frame h); [| | done]; intros y Hy.
    + rewrite Hn, !upd_ne; [done | |]; intros ->; (eapply Hout; [by apply elem_of_app; left |]);
        apply elem_of_app; tauto.
    + rewrite Hp, !upd_ne; [done | |]; intros ->; (eapply Hout; [cbn [tail app] in Hy; by right |]);
        apply elem_of_app; [left | right]; by left.
Qed.

(** The links around the cut of a ring. *)
Lemma ring_bounds h a l1 b l2 m1 t1 m2 t2 :
  ring h ((a :: l1) ++ (b :: l2)) -> a :: l1 = m1 ++ [t1] -> b :: l2 = m2 ++ [t2] ->
  next h t1 = Some b /\ prev h b = Some t1 /\ next h t2 = Some a /\ prev h a = Some t2.
Proof.
  intros [_ L] E1 E2. cbn [app] in L. change (linked h (((a :: l1) ++ (b :: l2)) ++ [a])) in L.
  rewrite E1, <- !app_assoc in L. apply linked_app in L as [_ L]. cbn [app] in L.
  destruct L as (? & ? & L). change (linked h ((b :: l2) ++ [a])) in L.
  rewrite E2, <- app_assoc in L. apply linked_app in L as [_ L]. cbn in L. tauto.
Qed.

Lemma last_snoc (p : nat) l : exists m t, p :: l = m ++ [t].
Proof. destruct (exists_last (l := p :: l)) as (m & t & ?); [done | eauto]. Qed.

(** The node before the head is the last one. *)
Lemma ring_next_head h a l1 b l2 m2 t2 :
  ring h ((a :: l1) ++ (b :: l2)) -> b :: l2 = m2 ++ [t2] -> next h b = Some a -> t2 = b.
Proof.
  intros [D L] E N. destruct l2 as [|c l2].
  { destruct m2 as [|x [|]]; [by injection E as -> | done | done]. }
  apply NoDup_app in D as (_ & Hd & _).
  change (linked h (((a :: l1) ++ (b :: c :: l2)) ++ [a])) in L.
  rewrite <- app_assoc in L. cbn [app] in L. change (linked h ((a :: l1) ++ b :: c :: l2 ++ [a])) in L.
  apply linked_app in L as [_ (N' & _)]. rewrite N in N'. injection N' as <-.
  exfalso. apply (Hd a); [by left | right; by left].
Qed.

(** Read [prev_] or [next_] of a node whose current link is known. *)
Lemma node_prev h p q : prev h p = Some q -> exists n, node h p = Ok n /\ prev_ n = q /\ next h p = Some (next_ n).
Proof. unfold prev, next, node. intros (n & -> & ->)%fmap_Some. eauto. Qed.
Lemma node_next h p q : next h p = Some q -> exists n, node h p = Ok n /\ next_ n = q /\ prev h p = Some (prev_ n).
Proof. unfold prev, next, node. intros (n & -> & ->)%fmap_Some. eauto. Qed.
Ltac read_prev q :=
  match goal with
  | |- context [node ?h ?p] =>
      let n := fresh "n" in let E := fresh "E" in let V := fresh "V" in
      destruct (node_prev h p q) as (n & E & V & ?); [links_eq | rewrite E; cbn [mbind outcome_bind]; rewrite ?V]
  end.

(** The value of a [next_] just read. *)
Ltac next_val :=
  match goal with |- next_ ?n = _ =>
    match goal with H : next _ _ = Some (next_ n) |- _ =>
      revert H; repeat (links_step; unfold upd); repeat case_decide; congruence
    end
  end.

Lemma UnlinkEnd_cut h a l1 b l2 m1 t1 m2 t2 :
  ring h ((a :: l1) ++ (b :: l2)) -> a :: l1 = m1 ++ [t1] -> b :: l2 = m2 ++ [t2] ->
  exists h', UnlinkEnd a b h = Ok h' /\ cut h h' a b t1 t2.
Proof.
  intros R E1 E2. destruct (ring_bounds _ _ _ _ _ _ _ _ _ R E1 E2) as (N1 & P1 & N2 & P2).
  pose proof (ring_next_head _ _ _ _ _ _ _ R E2) as Hhead.
  destruct R as [D _]. apply NoDup_app in D as (_ & Hd & _).
  assert (a <> b) as Hab by (intros ->; apply (Hd b); by left).
  assert (t1 <> t2) as Ht.
  { intros ->. apply (Hd t2); [rewrite E1 | rewrite E2]; apply elem_of_app; right; by left. }
  unfold UnlinkEnd, cut.
  destruct (node_prev h b t1 P1) as (nb & -> & Vb & Nb). cbn [mbind outcome_bind]. rewrite Vb.
  read_prev t2. run_store. read_prev t2.
  assert (next h0 b = next h b) as Hnb by links_eq.
  destruct (Nat.eqb_spec (next_ n0) a) as [Hna|Hna]; cbn [mbind outcome_bind].
  - assert (t2 = b) as -> by (apply Hhead; congruence).
    run_store. read_prev b. run_store. run_store. run_store.
    eexists. split; [done |]. split_and!; [intros x; links_eq.. | eauto using same_views_trans].
  - read_prev t2. run_store. run_store. run_store.
    eexists. split; [done |]. split_and!; [intros x; links_eq.. | eauto using same_views_trans].
Qed.

(** [UnlinkEnd] cuts a chain in two before the given node; views and other
    chains are unchanged. *)
Theorem UnlinkEnd_correct h a l1 b l2 : ring h ((a :: l1) ++ (b :: l2)) ->
  exists h', UnlinkEnd a b h = Ok h' /\ ring h' (a :: l1) /\ ring h' (b :: l2) /\ same_views h h' /\
    forall l, ring h l -> l ## (a :: l1) ++ (b :: l2) -> ring h' l.
Proof.
  intros R. destruct (last_snoc a l1) as (m1 & t1 & E1), (last_snoc b l2) as (m2 & t2 & E2).
  destruct (UnlinkEnd_cut _ _ _ _ _ _ _ _ _ R E1 E2) as (h' & Hok & Hcut).
  destruct (ring_cut _ _ _ _ _ _ _ _ _ _ R E1 E2 Hcut) as (R1 & R2 & Ro).
  exists h'. split_and!; [done.. | apply Hcut | done].
Qed.

(** Taking one node out of a longer chain. *)
Lemma Unlink_cut h p b l2 m2 t2 : ring h (p :: b :: l2) -> b :: l2 = m2 ++ [t2] ->
  exists h', Unlink p h = Ok h' /\ cut h h' p b p t2.
Proof.
  intros R E2. destruct (ring_bounds _ p [] _ _ [] p _ _ R eq_refl E2) as (N1 & P1 & N2 & P2).
  destruct R as [D _]. apply NoDup_cons in D as [Hp _].
  assert (p <> b) as Hab by (intros ->; apply Hp; by left).
  assert (p <> t2) as Ht.
  { intros ->. apply Hp. rewrite E2. apply elem_of_app. right. by left. }
  unfold Unlink, cut.
  destruct (node_prev h p t2 P2) as (n & -> & V & Nn). cbn [mbind outcome_bind].
  assert (next_ n = b) as -> by congruence. rewrite V. run_store. read_prev t2.
  assert (next_ n0 = b) as -> by next_val.
  run_store. run_store. run_store.
  eexists. split; [done |]. split_and!; [intros x; links_eq.. | eauto using same_views_trans].
Qed.

Lemma Unlink_single h p : ring h [p] ->
  exists h', Unlink p h = Ok h' /\ same_views h h' /\
    (forall x, next h' x = next h x) /\ (forall x, prev h' x = prev h x).
Proof.
  intros [_ (N & P & _)]. unfold Unlink.
  destruct (node_prev h p p P) as (n & -> & V & Nn). cbn [mbind outcome_bind].
  assert (next_ n = p) as -> by congruence. rewrite V. run_store. read_prev p.
  assert (next_ n0 = p) as -> by next_val.
  run_store. run_store. run_store.
  eexists. split; [done |]. split_and!; [eauto using same_views_trans | intros x; links_eq..].
Qed.

Lemma Pop_Unlink p h : Pop p h =
  (n ← node h p; h' ← Unlink p h; Ok (if (next_ n =? p)%nat then None else Some (next_ n), h')).
Proof.
  unfold Pop, Unlink. destruct (node h p) as [n|f]; [| done]. cbn [mbind outcome_bind].
  destruct (store _ (next_ n) h) as [h1|]; [| done]. cbn [mbind outcome_bind].
  destruct (node h1 p) as [n1|]; [| done]. cbn [mbind outcome_bind].
  destruct (store _ (prev_ n1) h1) as [h2|]; [| done]. cbn [mbind outcome_bind].
  destruct (store _ p h2) as [h3|]; [| done]. cbn [mbind outcome_bind]. by destruct (store _ p h3).
Qed.

(** [Pop] takes the head off its chain and returns the rest, or nothing when
    it was alone. *)
Theorem Pop_correct h p l : ring h (p :: l) ->
  exists h', Pop p h = Ok (head l, h') /\ ring h' [p] /\ (l <> [] -> ring h' l) /\ same_views h h' /\
    forall l', ring h l' -> l' ## p :: l -> ring h' l'.
Proof.
  intros R. rewrite Pop_Unlink. destruct l as [|b l].
  - destruct (Unlink_single h p R) as (h' & -> & Hv & Hn & Hp). destruct R as [D (N & P & _)].
    destruct (node_next h p p N) as (n & -> & Vn & _). cbn [mbind outcome_bind]. rewrite Vn, Nat.eqb_refl.
    assert (forall l, ring h l -> ring h' l) as Hr.
    { intros l [Dl Ll]. split; [done |]. destruct l; [done |]. by apply (linked_frame h). }
    exists h'. split_and!; [done | by apply Hr | done | done | auto].
  - destruct (last_snoc b l) as (m2 & t2 & E2).
    destruct (Unlink_cut _ _ _ _ _ _ R E2) as (h' & -> & Hcut).
    destruct (ring_cut _ _ _ [] _ _ [] p _ _ R eq_refl E2 Hcut) as (R1 & R2 & Ro).
    destruct (ring_bounds _ p [] _ _ [] p _ _ R eq_refl E2) as (N1 & _).
    destruct (node_next h p b N1) as (n & -> & Vn & _). cbn [mbind outcome_bind]. rewrite Vn.
    destruct (Nat.eqb_spec b p) as [->|].
    { destruct R as [D _]. apply NoDup_cons in D as [D _]. exfalso. apply D. by left. }
    exists h'. split_and!; [done | done | done | apply Hcut | done].
Qed.

(** ** Traversals *)

Lemma ring_size h l : ring h l -> (length l <= size h)%nat.
Proof.
  intros R. destruct R as [D L] eqn:E; clear E. rewrite <- (size_list_to_set (C := gset nat)) by done.
  rewrite <- size_dom. apply subseteq_size. intros p Hp. apply elem_of_dom, (ring_lookup h l p); [done |].
  by apply elem_of_list_to_set in Hp.
Qed.

(** The nodes of a list of pointers. *)
Definition nodes (h : heap) (l : list nat) (ns : list IOBuf) : Prop := Forall2 (fun p n => h !! p = Some n) l ns.

Lemma ring_nodes h l : ring h l -> exists ns, nodes h l ns.
Proof.
  intros R. assert (forall p, p ∈ l -> is_Some (h !! p)) as Hs by (intros; by eapply ring_lookup).
  clear R. induction l as [|p l IH]; [exists []; constructor |].
  destruct (Hs p) as [n En]; [by left |]. destruct IH as [ns Hns]; [intros; apply Hs; by right |].
  exists (n :: ns). by constructor.
Qed.

Lemma walk_spec {A} (f : A -> IOBuf -> A) h this l ns : nodes h l ns -> this ∉ l ->
  forall fuel current acc, (length l <= fuel)%nat -> linked h (l ++ [this]) ->
  head (l ++ [this]) = Some current ->
  walk fuel f this current acc h = Ok (fold_left f ns acc).
Proof.
  intros Hns. induction Hns as [|p n l ns Hp Hns IH]; intros Hni fuel current acc Hf Hl Hh; cbn in Hh.
  { injection Hh as <-. destruct fuel; cbn; by rewrite Nat.eqb_refl. }
  injection Hh as <-. destruct fuel as [|fuel]; [cbn in Hf; lia |]. cbn [walk].
  destruct (Nat.eqb_spec p this) as [->|]; [exfalso; apply Hni; by left |].
  unfold node. rewrite Hp. cbn [mbind outcome_bind fold_left].
  assert (linked h (l ++ [this]) /\ head (l ++ [this]) = Some (next_ n)) as [Hl' Hh'].
  { cbn [app] in Hl. destruct l as [|q l]; cbn [app linked] in Hl |- *;
      destruct Hl as (Hq & _ & Hl); unfold next in Hq; rewrite Hp in Hq; injection Hq as <-; done. }
  apply IH; [set_solver | cbn in Hf; lia | done | done].
Qed.

Lemma ring_walk {A} (f : A -> IOBuf -> A) h p l n ns acc : ring h (p :: l) -> nodes h (p :: l) (n :: ns) ->
  walk (size h) f p (next_ n) acc h = Ok (fold_left f ns acc).
Proof.
  intros R Hns. pose proof (ring_size h _ R) as Hs. cbn in Hs. destruct R as [D L].
  inversion Hns as [|? ? ? ? Hn Hns']; subst. apply NoDup_cons in D as [Hp _].
  eapply walk_spec; [done | done | lia | |].
  - cbn [app] in L. destruct l; [done |]. cbn in L |- *. tauto.
  - destruct l; cbn [app linked] in L |- *; destruct L as (Hq & _);
      unfold next in Hq; rewrite Hn in Hq; by injection Hq as <-.
Qed.

Lemma CountChainElements_spec h p l : ring h (p :: l) -> Z.of_nat (length (p :: l)) < 2 ^ 64 ->
  CountChainElements p h = Ok (Z.of_nat (length (p :: l))).
Proof.
  intros R Hl. destruct (ring_nodes _ _ R) as [ns Hns].
  inversion Hns as [|? n ? ns' Hn Hns']; subst. unfold CountChainElements, node. rewrite Hn. cbn [mbind outcome_bind].
  erewrite ring_walk by done. f_equal. pose proof (Forall2_length _ _ _ Hns') as El.
  assert (forall (ns : list IOBuf) acc, 0 <= acc -> acc + Z.of_nat (length ns) < 2 ^ 64 ->
    fold_left (fun elements _ => u64 (elements + 1)) ns acc = acc + Z.of_nat (length ns)) as Hf.
  { clear. induction ns as [|n ns IH]; intros acc H0 Hb; cbn [fold_left length] in *; [lia |].
    unfold u64. rewrite wrap_small by (unfold in_u; lia). rewrite IH; lia. }
  cbn [length] in *. rewrite Hf; lia.
Qed.

Definition total_len (ns : list IOBuf) : Z := foldr (fun n s => length_ n + s) 0 ns.

Lemma total_len_nonneg ns : Forall (fun n => 0 <= length_ n) ns -> 0 <= total_len ns.
Proof. unfold total_len. induction 1; cbn in *; lia. Qed.

Lemma ComputeChainDataLength_spec h l ns p : ring h (p :: l) -> nodes h (p :: l) ns ->
  Forall (fun n => 0 <= length_ n) ns -> total_len ns < 2 ^ 64 ->
  ComputeChainDataLength p h = Ok (total_len ns).
Proof.
  intros R Hns Hp Hl. inversion Hns as [|? n ? ns' Hn Hns']; subst.
  unfold ComputeChainDataLength, node. rewrite Hn. cbn [mbind outcome_bind].
  erewrite ring_walk by done. f_equal. apply Forall_cons in Hp as [H0 Hp].
  cbn beta in H0. clear Hns Hns' R Hn. revert H0 Hl. cbn [total_len foldr].
  fold (total_len ns'). generalize (length_ n).
  induction Hp as [|m ms Hm Hms IH]; intros acc H0 Hl; cbn [fold_left total_len foldr] in *; [lia |].
  fold (total_len ms) in *. pose proof (total_len_nonneg ms Hms).
  unfold u64. rewrite wrap_small by (unfold in_u; lia). rewrite IH; lia.
Qed.

(** ** DataPointer as a position in the bytes of the chain *)

Definition wf_node (n : IOBuf) : Prop := 0 <= length_ n /\ 0 <= data_ n /\ data_ n + length_ n <= 2 ^ 64 /\ length_ n < 2 ^ 64.

Section DataPointerProof.
Context (mem : Z -> Z) (h : heap).

Definition node_bytes (n : IOBuf) : list Z := mem_bytes mem (data_ n) (length_ n).
Definition chain_bytes (ns : list IOBuf) : list Z := concat (node_bytes <$> ns).

Lemma length_mem_bytes a n : length (mem_bytes mem a n) = Z.to_nat n.
Proof. unfold mem_bytes. by rewrite length_fmap, length_seq. Qed.

Lemma mem_bytes_app a n m : 0 <= n -> 0 <= m ->
  mem_bytes mem a (n + m) = mem_bytes mem a n ++ mem_bytes mem (u64 (a + n)) m.
Proof.
  intros Hn Hm. unfold mem_bytes. rewrite Z2Nat.inj_add, seq_app, fmap_app by lia. f_equal.
  rewrite Nat.add_0_l. rewrite <- (Nat.add_0_r (Z.to_nat n)) at 1. rewrite <- fmap_add_seq, <- list_fmap_compose.
  apply list_fmap_ext. intros i x _. cbn. f_equal. unfold u64, wrap.
  rewrite Zplus_mod_idemp_l. f_equal. lia.
Qed.

(** The part of a buffer from [offset], of [len] bytes. *)
Lemma node_bytes_sub n offset len : wf_node n -> 0 <= offset -> 0 <= len -> offset + len <= length_ n ->
  mem_bytes mem (u64 (data_ n + offset)) len = take (Z.to_nat len) (drop (Z.to_nat offset) (node_bytes n)).
Proof.
  intros _ H0 Hl Hb. unfold node_bytes.
  replace (length_ n) with (offset + (len + (length_ n - offset - len))) by lia.
  rewrite mem_bytes_app, drop_app_length' by (rewrite ?length_mem_bytes; lia).
  rewrite mem_bytes_app, take_app_length' by (rewrite ?length_mem_bytes; lia). done.
Qed.

Lemma length_chain_bytes ns : Forall wf_node ns -> Z.of_nat (length (chain_bytes ns)) = total_len ns.
Proof.
  induction 1 as [|n ns Hn _ IH]; [done |]. unfold chain_bytes in *. cbn [fmap list_fmap concat].
  rewrite length_app. unfold node_bytes at 1. rewrite length_mem_bytes. destruct Hn.
  cbn [total_len foldr]. fold (total_len ns). lia.
Qed.

Lemma wf_total ns : Forall wf_node ns -> 0 <= total_len ns.
Proof. intros Hw. apply total_len_nonneg. eapply Forall_impl; [exact Hw |]. by intros n []. Qed.

Lemma total_len_app ns1 ns2 : total_len (ns1 ++ ns2) = total_len ns1 + total_len ns2.
Proof. unfold total_len. induction ns1; cbn in *; lia. Qed.

(** Following the links along a path. *)
Lemma path_step l x p q : linked h (p :: l ++ [x]) -> head (l ++ [x]) = Some q -> next h p = Some q /\ linked h (l ++ [x]).
Proof. destruct l; cbn; intros (? & ? & ?) [= <-]; done. Qed.

Lemma node_at p n : h !! p = Some n -> node h p = Ok n.
Proof. unfold node. by intros ->. Qed.

Lemma next_at p n q : h !! p = Some n -> next h p = Some q -> next_ n = q.
Proof. unfold next. intros ->. by intros [= ->]. Qed.

Lemma copy_path l ns : nodes h l ns -> Forall wf_node ns ->
  forall fuel x p offset len, linked h (l ++ [x]) -> head (l ++ [x]) = Some p -> (length l < fuel)%nat ->
  0 <= offset -> (match ns with [] => offset = 0 | n :: _ => offset <= length_ n end) ->
  0 <= len <= total_len ns - offset ->
  copy_loop mem fuel p offset len h = Ok (take (Z.to_nat len) (drop (Z.to_nat offset) (chain_bytes ns))).
Proof.
  intros Hns. induction Hns as [|p n l ns Hp Hns IH];
    intros Hw fuel x p' offset len Hl Hh Hf H0 Ho Hlen.
  { cbn in Hlen. assert (len = 0) as -> by lia. destruct fuel; [lia |]. cbn. done. }
  apply Forall_cons in Hw as [Wn Hw]. pose proof Wn as (Wl & Wd & Wb & Wm).
  destruct fuel as [|fuel]; [lia |]. cbn in Hh. injection Hh as <-. cbn [copy_loop].
  destruct (Z.leb_spec len 0); [by replace (Z.to_nat len) with 0%nat by lia |].
  rewrite (node_at _ _ Hp). cbn [mbind outcome_bind].
  rewrite (u64_small (length_ n - offset)) by lia.
  cbn [total_len foldr] in Hlen. fold (total_len ns) in Hlen. cbn [length] in Hf.
  pose proof (wf_total ns Hw).
  destruct (head (l ++ [x])) as [q|] eqn:Hq; [| by destruct l].
  destruct (path_step _ _ _ _ Hl Hq) as [Nq Hl']. rewrite (next_at _ _ _ Hp Nq).
  rewrite (IH Hw fuel x q 0 (len - Z.min (length_ n - offset) len));
    [| done | done | lia | lia | by destruct ns; [| apply Forall_cons in Hw as [[? _] _]] | lia].
  cbn [mbind outcome_bind Z.to_nat]. rewrite drop_0. f_equal.
  rewrite node_bytes_sub by (done || lia). cbn [chain_bytes fmap list_fmap concat]. fold (chain_bytes ns).
  assert (length (node_bytes n) = Z.to_nat (length_ n)) as El by apply length_mem_bytes.
  rewrite drop_app_le by lia. rewrite take_app, length_drop, El.
  destruct (Z.min_spec (length_ n - offset) len) as [[? ->]|[? ->]].
  - f_equal; [rewrite !take_ge; [done | rewrite length_drop; lia | rewrite length_drop; lia] |].
    f_equal. lia.
  - f_equal. rewrite Z.sub_diag. by replace (Z.to_nat len - (Z.to_nat (length_ n) - Z.to_nat offset))%nat with 0%nat by lia.
Qed.

Lemma skip_path l ns : nodes h l ns -> Forall wf_node ns ->
  forall fuel x p, linked h (l ++ [x]) -> head (l ++ [x]) = Some p -> (length l <= S fuel)%nat ->
  0 < total_len ns ->
  exists l1 q l2 ns1 n ns2, l = l1 ++ q :: l2 /\ ns = ns1 ++ n :: ns2 /\ length l1 = length ns1 /\
    total_len ns1 = 0 /\ 0 < length_ n /\ skip_empty fuel p h = Ok q.
Proof.
  intros Hns. induction Hns as [|p n l ns Hp Hns IH]; intros Hw fuel x p' Hl Hh Hf Ht; [cbn in Ht; lia |].
  apply Forall_cons in Hw as [(Wl & _) Hw]. cbn in Hh. injection Hh as <-.
  cbn [total_len foldr] in Ht. fold (total_len ns) in Ht.
  assert (skip_empty fuel p h = if length_ n =? 0
    then match fuel with O => Fail Aborted | S fuel => skip_empty fuel (next_ n) h end else Ok p) as ->
    by (destruct fuel; cbn [skip_empty]; by rewrite (node_at _ _ Hp)).
  destruct (Z.eqb_spec (length_ n) 0) as [E|].
  - destruct (head (l ++ [x])) as [q|] eqn:Hq; [| by destruct l].
    destruct (path_step _ _ _ _ Hl Hq) as [Nq Hl']. rewrite (next_at _ _ _ Hp Nq).
    destruct ns as [|m ns]; [cbn in Ht; lia |]. pose proof (Forall2_length _ _ _ Hns) as El.
    destruct fuel as [|fuel]; [cbn in Hf, El; lia |].
    destruct (IH Hw fuel x q) as (l1 & r & l2 & ns1 & k & ns2 & -> & -> & ? & ? & ? & ->);
      [done | done | cbn in Hf; lia | lia |].
    exists (p :: l1), r, l2, (n :: ns1), k, ns2. cbn. split_and!; [done | done | lia | cbn; unfold total_len in *; lia | done | done].
  - exists [], p, l, [], n, ns. cbn. split_and!; [done.. | lia | done].
Qed.

Lemma advance_path l ns : nodes h l ns -> Forall wf_node ns ->
  forall fuel x p offset size_, linked h (l ++ [x]) -> head (l ++ [x]) = Some p ->
  (length l <= fuel)%nat -> (length l <= S (size h))%nat ->
  (match ns with [] => offset = 0 | n :: _ => offset = 0 \/ 0 <= offset < length_ n end) ->
  0 <= size_ < total_len ns - offset ->
  exists l1 q l2 ns1 n ns2 o, l = l1 ++ q :: l2 /\ ns = ns1 ++ n :: ns2 /\ length l1 = length ns1 /\
    total_len ns1 + o = offset + size_ /\ 0 <= o < length_ n /\
    dp_advance_loop fuel p offset size_ h = Ok (mkDP q o).
Proof.
  intros Hns. induction Hns as [|p n l ns Hp Hns IH];
    intros Hw fuel x p' offset size_ Hl Hh Hf Hs Ho Hsz; [cbn in Hsz; lia |].
  assert (nodes h (p :: l) (n :: ns)) as Hns' by (by constructor).
  pose proof Hw as Hw'. apply Forall_cons in Hw as [Wn Hw]. pose proof Wn as (Wl & Wd & Wb & Wm).
  assert (dp_advance_loop fuel p' offset size_ h = 
    if size_ <=? 0 then p ← skip_empty (size h) p' h; Ok (mkDP p offset) else
    match fuel with O => Fail Aborted | S fuel =>
      n ← node h p';
      if size_ <? u64 (length_ n - offset) then Ok (mkDP p' (offset + size_))
      else dp_advance_loop fuel (next_ n) 0 (size_ - u64 (length_ n - offset)) h end) as ->
    by (by destruct fuel).
  destruct (Z.leb_spec size_ 0).
  - destruct (skip_path _ _ Hns' Hw' (size h) x p') as (l1 & q & l2 & ns1 & m & ns2 & E1 & E2 & El & Et & Hm & ->);
      [done | done | done | cbn [total_len foldr] in *; destruct Ho; lia |].
    exists l1, q, l2, ns1, m, ns2, offset. split_and!; [done.. | lia | destruct Ho; lia | | done].
    destruct Ho as [->|Ho]; [done |]. destruct ns1 as [|k ns1]; [by injection E2 as -> _; lia |].
    injection E2 as <- E2. exfalso. rewrite E2 in Hw. apply Forall_app in Hw as [Hw _].
    pose proof (wf_total _ Hw). cbn [total_len foldr] in Et. fold (total_len ns1) in Et. lia.
  - cbn in Hh. injection Hh as <-. destruct fuel as [|fuel]; [cbn in Hf; lia |].
    rewrite (node_at _ _ Hp). cbn [mbind outcome_bind].
    rewrite (u64_small (length_ n - offset)) by (destruct Ho; lia).
    destruct (Z.ltb_spec size_ (length_ n - offset)).
    + exists [], p, l, [], n, ns, (offset + size_). cbn. split_and!; [done.. | destruct Ho; lia | lia | done].
    + destruct (head (l ++ [x])) as [q|] eqn:Hq; [| by destruct l].
      destruct (path_step _ _ _ _ Hl Hq) as [Nq Hl']. rewrite (next_at _ _ _ Hp Nq).
      cbn [total_len foldr] in Hsz. fold (total_len ns) in Hsz. cbn [length] in Hf, Hs.
      destruct (IH Hw fuel x q 0 (size_ - (length_ n - offset)))
        as (l1 & r & l2 & ns1 & k & ns2 & o & -> & -> & El & Et & Hk & ->);
        [done | done | lia | lia | by destruct ns; [| left] | lia |].
      exists (p :: l1), r, l2, (n :: ns1), k, ns2, o. cbn [total_len foldr app length]. fold (total_len ns1).
      split_and!; [done | done | lia | lia | lia | lia | done].
Qed.

(** The pointer stands at byte [k] of the chain [l]. *)
Definition at_pos (l : list nat) (ns : list IOBuf) (d : DataPointer) (k : Z) : Prop :=
  exists l1 l2 ns1 n ns2, l = l1 ++ dp_p d :: l2 /\ ns = ns1 ++ n :: ns2 /\ length l1 = length ns1 /\
    k = total_len ns1 + dp_offset d /\ 0 <= dp_offset d < length_ n.

(** From a node of a ring, once around. *)
Lemma ring_path l1 p l2 : ring h (l1 ++ p :: l2) ->
  exists x, linked h (((p :: l2) ++ (l1 ++ [p])) ++ [x]).
Proof.
  intros R. apply ring_rotate in R as [_ L]; [| done]. cbn [app] in L.
  assert (exists x, linked h [p; x]) as [x Hx].
  { destruct (l2 ++ l1) as [|x rest]; [by exists p |]. exists x. cbn in L. cbn. tauto. }
  exists x. rewrite <- !app_assoc. cbn [app].
  change (linked h ((p :: l2) ++ l1 ++ p :: [x])). rewrite app_assoc. apply linked_app.
  split; [exact L | exact Hx].
Qed.

Context (l : list nat) (ns : list IOBuf).
Hypothesis (Hring : ring h l) (Hnodes : nodes h l ns) (Hwf : Forall wf_node ns).

Lemma at_pos_nodes d k : at_pos l ns d k ->
  exists l1 l2 ns1 n ns2, l = l1 ++ dp_p d :: l2 /\ ns = ns1 ++ n :: ns2 /\
    k = total_len ns1 + dp_offset d /\ 0 <= dp_offset d < length_ n /\
    nodes h (dp_p d :: l2) (n :: ns2) /\ Forall wf_node (n :: ns2) /\ h !! dp_p d = Some n /\
    length l1 = length ns1.
Proof.
  intros (l1 & l2 & ns1 & n & ns2 & El & En & Elen & -> & Ho).
  exists l1, l2, ns1, n, ns2. rewrite El, En in Hnodes. rewrite En in Hwf.
  unfold nodes in Hnodes. apply Forall2_app_inv in Hnodes as [_ Hn]; [| done].
  apply Forall_app in Hwf as [_ Hw]. pose proof Hn as Hn'. inversion Hn' as [|? ? ? ? Hp _]; subst.
  split_and!; done || lia.
Qed.

Lemma at_pos_index d i n : l !! i = Some (dp_p d) -> ns !! i = Some n -> 0 <= dp_offset d < length_ n ->
  at_pos l ns d (total_len (take i ns) + dp_offset d).
Proof.
  intros Hl Hn Ho. exists (take i l), (drop (S i) l), (take i ns), n, (drop (S i) ns).
  rewrite !take_drop_middle by done. split_and!; [done | done | | done | lia | lia].
  apply lookup_lt_Some in Hl, Hn. rewrite !length_take_le; lia.
Qed.

Lemma GetNoAdvance_spec d k size_ : at_pos l ns d k -> 0 < size_ <= total_len ns - k ->
  GetNoAdvance mem size_ d h = Ok (take (Z.to_nat size_) (drop (Z.to_nat k) (chain_bytes ns))).
Proof.
  intros Hpos Hs. destruct (at_pos_nodes d k Hpos) as (l1 & l2 & ns1 & n & ns2 & El & En & -> & Ho & Hn & Hw & Hp & Elen).
  pose proof Hw as Hw'. apply Forall_cons in Hw' as [(Wl & Wd & Wb & Wm) Hw2].
  unfold GetNoAdvance. rewrite (node_at _ _ Hp). cbn [mbind outcome_bind].
  rewrite (proj2 (Z.ltb_lt 0 (length_ n))) by lia. cbn [kassert mbind outcome_bind].
  rewrite (u64_small (length_ n - dp_offset d)) by lia.
  assert (drop (Z.to_nat (total_len ns1 + dp_offset d)) (chain_bytes ns) =
          drop (Z.to_nat (dp_offset d)) (chain_bytes (n :: ns2))) as Hdrop.
  { rewrite En in Hwf |- *. apply Forall_app in Hwf as [Hw1 _]. pose proof (length_chain_bytes _ Hw1).
    pose proof (wf_total _ Hw1). unfold chain_bytes. rewrite fmap_app, concat_app.
    fold (chain_bytes ns1). fold (chain_bytes (n :: ns2)).
    rewrite Z2Nat.inj_add by lia. rewrite <- drop_drop. f_equal. apply drop_app_length'. lia. }
  rewrite En, total_len_app in Hs. rewrite Hdrop.
  destruct (Z.ltb_spec (length_ n - dp_offset d) size_).
  - destruct (ring_path l1 (dp_p d) l2) as [x Hx]; [by rewrite <- El |].
    assert (exists y, linked h ((dp_p d :: l2) ++ [y])) as [y Hy].
    { rewrite <- app_assoc in Hx. destruct (l1 ++ [dp_p d]) as [|y rest]; [exists x; exact Hx |]. exists y.
      by apply (linked_app h (dp_p d :: l2) y) in Hx as [? _]. }
    apply (copy_path _ _ Hn Hw _ y); [done | done | | lia | lia | lia].
    pose proof (ring_size _ _ Hring) as Hsz. rewrite El, length_app in Hsz. cbn [length] in *.
    unfold rounds. nia.
  - unfold dp_Data. rewrite (node_at _ _ Hp). cbn [mbind outcome_bind].
    rewrite (proj2 (Z.ltb_lt 0 (length_ n))) by lia. cbn [kassert mbind outcome_bind].
    rewrite (u64_small (length_ n - dp_offset d)) by lia.
    destruct (Z.eqb_spec (length_ n - dp_offset d) 0); [lia |]. cbn [mbind outcome_bind]. f_equal.
    rewrite node_bytes_sub by (done || lia). cbn [chain_bytes fmap list_fmap concat].
    assert (length (node_bytes n) = Z.to_nat (length_ n)) as Eb by apply length_mem_bytes.
    rewrite drop_app_le by lia. rewrite take_app_le; [done |]. rewrite length_drop. lia.
Qed.

Lemma dp_Advance_spec d k size_ : at_pos l ns d k -> 0 < size_ <= total_len ns - k ->
  exists d', dp_Advance size_ d h = Ok d' /\
    at_pos l ns d' (if k + size_ =? total_len ns then 0 else k + size_).
Proof.
  intros Hpos Hs. destruct (at_pos_nodes d k Hpos) as (l1 & l2 & ns1 & n & ns2 & El & En & -> & Ho & Hn & Hw & Hp & Elen).
  unfold dp_Advance. rewrite (node_at _ _ Hp). cbn [mbind outcome_bind].
  rewrite (proj2 (Z.ltb_lt 0 (length_ n))) by lia. cbn [kassert mbind outcome_bind].
  destruct (ring_path l1 (dp_p d) l2) as [x Hx]; [by rewrite <- El |].
  pose proof (ring_size _ _ Hring) as Hsz. rewrite El, length_app in Hsz. cbn [length] in Hsz.
  rewrite En in Hs.
  assert (nodes h ((dp_p d :: l2) ++ (l1 ++ [dp_p d])) ((n :: ns2) ++ (ns1 ++ [n]))) as Hpn.
  { rewrite El, En in Hnodes. apply Forall2_app_inv in Hnodes as [Hn1 _]; [| done].
    apply Forall2_app; [done |]. apply Forall2_app; [done | by repeat constructor]. }
  assert (Forall wf_node ((n :: ns2) ++ (ns1 ++ [n]))) as Hpw.
  { rewrite En in Hwf. apply Forall_app in Hwf as [Hw1 _]. apply Forall_cons in Hw as [Wn Hw2].
    repeat apply Forall_app_2; [by apply Forall_cons_2 | done | by apply Forall_singleton]. }
  pose proof (Forall2_length _ _ _ Hn) as Ela. cbn [length] in Ela.
  destruct (advance_path _ _ Hpn Hpw (rounds size_ h) x (dp_p d) (dp_offset d) size_)
    as (m1 & q & m2 & ks1 & m & ks2 & o & Em & Ek & Elk & Et & Hm & ->); [done | done | | | by right | |].
  { rewrite !length_app. cbn [length]. unfold rounds. nia. }
  { rewrite !length_app. cbn [length]. lia. }
  { rewrite !total_len_app in *. change (total_len [n]) with (length_ n + 0).
    rewrite En in Hwf. apply Forall_app in Hwf as [Hw1 _]. pose proof (wf_total _ Hw1). lia. }
  eexists. split; [done |].
  assert (Hq : ((dp_p d :: l2) ++ (l1 ++ [dp_p d])) !! length m1 = Some q)
    by (rewrite Em; by apply list_lookup_middle).
  assert (Hk : ((n :: ns2) ++ (ns1 ++ [n])) !! length m1 = Some m)
    by (rewrite Ek; apply list_lookup_middle; done).
  assert (Htk : ks1 = take (length m1) ((n :: ns2) ++ (ns1 ++ [n])))
    by (rewrite Ek, Elk; symmetry; by apply take_app_length').
  clear Em Ek. rewrite Htk in Et. clear Htk.
  rewrite En. destruct (decide (length m1 < length (n :: ns2))%nat) as [Hlt|Hge].
  - (* before the end of the chain *)
    rewrite lookup_app_l in Hq by (cbn in Hlt |- *; lia). rewrite lookup_app_l in Hk by done.
    rewrite take_app_le in Et by lia.
    assert (total_len (take (length m1) (n :: ns2)) + length_ m <= total_len (n :: ns2)) as Hlast.
    { rewrite <- (take_drop_middle (n :: ns2) (length m1) m Hk) at 2. rewrite total_len_app.
      cbn [total_len foldr]. fold (total_len (drop (S (length m1)) (n :: ns2))).
      apply Forall_drop with (n := S (length m1)) in Hw. pose proof (wf_total _ Hw). lia. }
    destruct (Z.eqb_spec (total_len ns1 + dp_offset d + size_) (total_len (ns1 ++ n :: ns2))) as [E|_];
      [rewrite total_len_app in E; lia |].
    replace (total_len ns1 + dp_offset d + size_) with
      (total_len (take (length ns1 + length m1) ns) + dp_offset (mkDP q o)).
    + rewrite <- En. apply (at_pos_index _ _ m); [| | done].
      * rewrite El, lookup_app_r, Elen by lia. by rewrite Nat.add_comm, Nat.add_sub.
      * rewrite En, lookup_app_r by lia. by rewrite Nat.add_comm, Nat.add_sub.
    + rewrite En, take_app_add, total_len_app. cbn [dp_offset]. lia.
  - (* exactly at the end: back to the first byte *)
    rewrite lookup_app_r in Hq by (cbn in Hge |- *; lia). rewrite lookup_app_r in Hk by lia.
    rewrite take_app_ge, total_len_app in Et by lia.
    replace (length (dp_p d :: l2)) with (length (n :: ns2)) in Hq by (cbn; lia).
    set (j := (length m1 - length (n :: ns2))%nat) in *.
    assert (0 <= total_len (take j (ns1 ++ [n]))) as Hj.
    { apply wf_total, Forall_take. by apply Forall_app in Hpw as [_ ?]. }
    rewrite total_len_app in Hs. rewrite total_len_app.
    destruct (Z.eqb_spec (total_len ns1 + dp_offset d + size_) (total_len ns1 + total_len (n :: ns2))) as [E|E];
      [| lia].
    replace 0 with (total_len (take j ns) + dp_offset (mkDP q o)).
    + rewrite <- En. apply (at_pos_index _ _ m); [| | done].
      * rewrite El. replace (l1 ++ dp_p d :: l2) with ((l1 ++ [dp_p d]) ++ l2) by (by rewrite <- app_assoc).
        rewrite lookup_app_l; [done | by eapply lookup_lt_Some].
      * rewrite En. replace (ns1 ++ n :: ns2) with ((ns1 ++ [n]) ++ ns2) by (by rewrite <- app_assoc).
        rewrite lookup_app_l; [done | by eapply lookup_lt_Some].
    + cbn [dp_offset]. rewrite En.
      replace (ns1 ++ n :: ns2) with ((ns1 ++ [n]) ++ ns2) by (by rewrite <- app_assoc).
      rewrite take_app_le by (apply lookup_lt_Some in Hk; lia). lia.
Qed.

Lemma new_DataPointer_spec p l' : l = p :: l' -> 0 < total_len ns < 2 ^ 64 ->
  exists d, new_DataPointer p h = Ok d /\ at_pos l ns d 0.
Proof.
  intros El Ht. unfold new_DataPointer. rewrite El in Hring, Hnodes.
  rewrite (ComputeChainDataLength_spec h l' ns p Hring Hnodes);
    [| eapply Forall_impl; [exact Hwf | by intros n []] | lia].
  cbn [mbind outcome_bind]. rewrite (proj2 (Z.ltb_lt 0 (total_len ns))) by lia. cbn [kassert mbind outcome_bind].
  pose proof (ring_size _ _ Hring) as Hsz. pose proof Hring as [_ L].
  destruct (skip_path _ _ Hnodes Hwf (size h) p p) as (l1 & q & l2 & ns1 & m & ns2 & E1 & E2 & Elen & Et & Hm & ->);
    [done | done | lia | lia |].
  cbn [mbind outcome_bind]. eexists. split; [done |].
  exists l1, l2, ns1, m, ns2. cbn [dp_p dp_offset]. split_and!; [by rewrite El | done | done | lia | lia | done].
Qed.
End DataPointerProof.

(** Reading [size] bytes at position [k] of a chain returns these bytes of
    the concatenated buffers, also when they straddle buffers, and advances the
    position; after the last byte the pointer is back at the first one. *)
Theorem DataPointer_Get_correct mem h l ns d k size_ :
  ring h l -> nodes h l ns -> Forall wf_node ns -> at_pos l ns d k -> 0 < size_ <= total_len ns - k ->
  exists d', dp_Get mem size_ d h = Ok (take (Z.to_nat size_) (drop (Z.to_nat k) (chain_bytes mem ns)), d') /\
    at_pos l ns d' (if k + size_ =? total_len ns then 0 else k + size_).
Proof.
  intros R Hn Hw Hp Hs. unfold dp_Get. rewrite (GetNoAdvance_spec mem h l ns R Hn Hw d k size_ Hp Hs).
  cbn [mbind outcome_bind]. destruct (dp_Advance_spec h l ns R Hn Hw d k size_ Hp Hs) as (d' & -> & Hd').
  by exists d'.
Qed.

(** ** AdvanceChain *)

Definition same_links (h h' : heap) : Prop := forall x, next h' x = next h x /\ prev h' x = prev h x.

Lemma Advance_spec h p n amount : h !! p = Some n -> wf_node n -> 0 <= amount <= length_ n ->
  exists h' n', Advance p amount h = Ok h' /\ h' = <[p := n']> h /\ same_links h h' /\ wf_node n' /\
    length_ n' = length_ n - amount /\ next_ n' = next_ n /\
    forall mem, node_bytes mem n' = drop (Z.to_nat amount) (node_bytes mem n).
Proof.
  intros Hp (Wl & Wd & Wb & Wm) Ha. unfold Advance, node. rewrite Hp. cbn [mbind outcome_bind].
  rewrite (proj2 (Z.leb_le amount (length_ n))) by lia. cbn [kassert mbind outcome_bind].
  rewrite (store_spec _ _ _ _ Hp). eexists _, _. split_and!; [done | done | ..].
  - intros x. unfold next, prev. destruct (decide (x = p)) as [->|];
      [by rewrite lookup_insert_eq, Hp | by rewrite lookup_insert_ne].
  - unfold with_view, wf_node. cbn. pose proof (wrap_range 64 (data_ n + amount)) as Hr. unfold in_u in Hr.
    unfold u64. destruct (decide (data_ n + amount = 2 ^ 64)) as [->|].
    + change (wrap 64 (2 ^ 64)) with 0. lia.
    + rewrite wrap_small by (unfold in_u; lia). lia.
  - done.
  - done.
  - intros mem. unfold node_bytes. cbn.
    replace (length_ n) with (amount + (length_ n - amount)) at 2 by lia.
    rewrite mem_bytes_app, drop_app_length' by (rewrite ?length_mem_bytes; lia). done.
Qed.

Lemma nodes_insert h p n l ns : p ∉ l -> nodes h l ns -> nodes (<[p := n]> h) l ns.
Proof.
  intros Hp Hn. induction Hn as [|q m l ns Hq Hn IH]; [constructor |]. constructor; [| apply IH; set_solver].
  rewrite lookup_insert_ne; [done | set_solver].
Qed.

Lemma linked_same h h' l : same_links h h' -> linked h l -> linked h' l.
Proof.
  intros Hs. induction l as [|p [|q l] IH]; [done | done |]. intros (? & ? & ?). cbn [linked].
  destruct (Hs p) as [-> _], (Hs q) as [_ ->]. split_and!; [done | done | by apply IH].
Qed.

Lemma advance_loop_spec x l ns : forall fuel h p n amount,
  nodes h (p :: l) (n :: ns) -> Forall wf_node (n :: ns) -> NoDup (p :: l) -> x ∉ l ->
  linked h ((p :: l) ++ [x]) -> (length (p :: l) <= fuel)%nat -> 0 <= amount <= total_len (n :: ns) ->
  exists h' ns', advance_loop fuel x p amount h = Ok h' /\ nodes h' (p :: l) ns' /\ Forall wf_node ns' /\
    same_links h h' /\ (forall q, q ∉ p :: l -> h' !! q = h !! q) /\
    total_len ns' = total_len (n :: ns) - amount /\
    forall mem, chain_bytes mem ns' = drop (Z.to_nat amount) (chain_bytes mem (n :: ns)).
Proof.
  revert ns. induction l as [|q l IH]; intros ns fuel h p n amount Hn Hw D Hx L Hf Ha;
    (destruct fuel as [|fuel]; [cbn in Hf; lia |]); cbn [advance_loop].
  - inversion Hn as [|? ? ? ? Hp Hns]; subst. inversion Hns; subst. apply Forall_cons in Hw as [Wn _].
    cbn in Ha. rewrite (node_at _ _ _ Hp). cbn [mbind outcome_bind]. rewrite Z.min_r by lia.
    destruct (Advance_spec h p n amount Hp Wn ltac:(lia)) as (h' & n' & -> & -> & Hs & Wn' & Hl & _ & Hb).
    cbn [mbind outcome_bind]. rewrite Z.sub_diag, Z.eqb_refl. exists (<[p := n']> h), [n'].
    split_and!; [done | | by apply Forall_singleton | done | | cbn; lia |].
    + constructor; [by rewrite lookup_insert_eq | constructor].
    + intros r Hr. rewrite lookup_insert_ne; [done | set_solver].
    + intros mem. cbn. rewrite !app_nil_r. apply Hb.
  - inversion Hn as [|? ? ? ? Hp Hns]; subst. destruct ns as [|m ns]; [by inversion Hns |].
    apply Forall_cons in Hw as [Wn Hw]. pose proof Wn as (Wl & _).
    rewrite (node_at _ _ _ Hp). cbn [mbind outcome_bind].
    assert (next_ n = q) as Enq by (destruct L as (N & _); by apply (next_at h p)).
    set (adv := Z.min (length_ n) amount).
    destruct (Advance_spec h p n adv Hp Wn ltac:(lia)) as (h' & n' & -> & -> & Hs & Wn' & Hl & _ & Hb).
    cbn [mbind outcome_bind]. apply NoDup_cons in D as [Dp D].
    assert (nodes (<[p := n']> h) (p :: q :: l) (n' :: m :: ns)) as Hn1.
    { constructor; [by rewrite lookup_insert_eq | by apply nodes_insert]. }
    change (total_len (n :: m :: ns)) with (length_ n + total_len (m :: ns)) in *.
    assert (forall mem, drop (Z.to_nat amount) (chain_bytes mem (n :: m :: ns)) =
      node_bytes mem n' ++ drop (Z.to_nat (amount - adv)) (chain_bytes mem (m :: ns))) as Hcb.
    { intros mem. change (chain_bytes mem (n :: m :: ns)) with (node_bytes mem n ++ chain_bytes mem (m :: ns)).
      rewrite Hb. unfold adv. assert (length (node_bytes mem n) = Z.to_nat (length_ n)) as El by apply length_mem_bytes.
      destruct (Z.min_spec (length_ n) amount) as [[? ->]|[? ->]].
      - rewrite drop_app, El. rewrite !(drop_ge (node_bytes mem n)) by lia. cbn [app]. f_equal. lia.
      - rewrite drop_app_le by lia. by replace (Z.to_nat (amount - amount)) with 0%nat by lia. }
    destruct (Z.eqb_spec (amount - adv) 0) as [E|E].
    + exists (<[p := n']> h), (n' :: m :: ns).
      split_and!; [done | done | by apply Forall_cons_2 | done | | cbn [total_len foldr]; fold (total_len (m :: ns)); lia |].
      * intros r Hr. rewrite lookup_insert_ne; [done | set_solver].
      * intros mem. rewrite Hcb. by replace (Z.to_nat (amount - adv)) with 0%nat by lia.
    + rewrite Enq. destruct (Nat.eqb_spec q x) as [->|]; [exfalso; apply Hx; by left |].
      destruct (IH ns fuel (<[p := n']> h) q m (amount - adv)) as (h2 & ns2 & -> & Hn2 & Hw2 & Hs2 & Hf2 & Ht2 & Hb2);
        [by inversion Hn1 | done | done | set_solver | | cbn in Hf |- *; lia | lia |].
      { apply (linked_same h); [done |]. by destruct L as (_ & _ & L). }
      exists h2, (n' :: ns2). split_and!; [done | | by apply Forall_cons_2 | | | |].
      * constructor; [| done]. rewrite Hf2 by done. by rewrite lookup_insert_eq.
      * intros y. destruct (Hs y), (Hs2 y). split; congruence.
      * intros r Hr. rewrite Hf2 by set_solver. rewrite lookup_insert_ne; [done | set_solver].
      * change (total_len (n' :: ns2)) with (length_ n' + total_len ns2). rewrite Ht2. lia.
      * intros mem. rewrite Hcb. change (chain_bytes mem (n' :: ns2)) with (node_bytes mem n' ++ chain_bytes mem ns2).
        by rewrite Hb2.
Qed.

(** [AdvanceChain] drops the first [amount] bytes of the chain, whatever its
    fragmentation, and touches no link and no other buffer. *)
Theorem AdvanceChain_correct h p l ns amount :
  ring h (p :: l) -> nodes h (p :: l) ns -> Forall wf_node ns -> total_len ns < 2 ^ 64 ->
  0 <= amount <= total_len ns ->
  exists h' ns', AdvanceChain p amount h = Ok h' /\ ring h' (p :: l) /\ nodes h' (p :: l) ns' /\
    (forall q, q ∉ p :: l -> h' !! q = h !! q) /\ total_len ns' = total_len ns - amount /\
    forall mem, chain_bytes mem ns' = drop (Z.to_nat amount) (chain_bytes mem ns).
Proof.
  intros R Hn Hw Ht Ha. unfold AdvanceChain.
  rewrite (ComputeChainDataLength_spec h l ns p R Hn); [| eapply Forall_impl; [exact Hw | by intros n []] | lia].
  cbn [mbind outcome_bind]. rewrite (proj2 (Z.leb_le amount (total_len ns))) by lia.
  cbn [kassert mbind outcome_bind]. pose proof (ring_size _ _ R) as Hs. destruct R as [D L].
  pose proof D as D'. apply NoDup_cons in D' as [Dp _].
  destruct ns as [|n ns]; [by inversion Hn |].
  destruct (advance_loop_spec p l ns (size h) h p n amount Hn Hw D Dp L Hs Ha)
    as (h' & ns' & -> & Hn' & _ & Hl & Hf & Ht' & Hb).
  exists h', ns'. split_and!; [done | | done | done | done | done].
  split; [done |]. by apply (linked_same h).
Qed.

(** ** The destructor *)

Lemma delete_links h q : (forall x, x <> q -> next (delete q h) x = next h x /\ prev (delete q h) x = prev h x /\
  view (delete q h) x = view h x).
Proof. intros x Hx. unfold next, prev, view. by rewrite !lookup_delete_ne by congruence. Qed.

Lemma ring_delete h q l : q ∉ l -> ring h l -> ring (delete q h) l.
Proof.
  intros Hq [D L]. split; [done |]. destruct l as [|p l]; [done |].
  apply (linked_frame h); [| | done]; intros x Hx; apply delete_links; intros ->.
  - done.
  - cbn [tail app] in Hx. rewrite elem_of_app, list_elem_of_singleton in Hx. apply Hq. destruct Hx as [?| ->]; [by right | by left].
Qed.

Lemma destroy_loop_spec p l : forall fuel h, (length l <= fuel)%nat -> ring h (p :: l) ->
  exists h', destroy_loop fuel p h = Ok h' /\ (forall q, q ∈ l -> h' !! q = None) /\
    (forall q, q ∉ l -> view h' q = view h q) /\
    forall l', ring h l' -> l' ## p :: l -> ring h' l'.
Proof.
  induction l as [|b l IH]; intros fuel h Hf R.
  - destruct R as [_ (N & _)]. destruct (node_next h p p N) as (n & En & Vn & _).
    exists h. split_and!; [| set_solver | done | done].
    destruct fuel; cbn [destroy_loop]; rewrite En; cbn [mbind outcome_bind]; by rewrite Vn, Nat.eqb_refl.
  - destruct fuel as [|fuel]; [cbn in Hf; lia |].
    assert (next h p = Some b) as N by (by destruct R as [_ (? & _)]).
    assert (b <> p) as Hbp by (destruct R as [D _]; apply NoDup_cons in D as [D _]; intros ->; apply D; by left).
    destruct (node_next h p b N) as (n & En & Vn & _). cbn [destroy_loop]. rewrite En. cbn [mbind outcome_bind].
    rewrite Vn. destruct (Nat.eqb_spec b p); [done |].
    assert (ring h ((b :: l) ++ [p])) as R' by (by apply (ring_rotate h [p])).
    assert (exists c l2, l ++ [p] = c :: l2) as (c & l2 & Ec) by (destruct l; eauto).
    cbn [app] in R'. rewrite Ec in R'. destruct (last_snoc c l2) as (m2 & t2 & E2).
    destruct (Unlink_cut _ _ _ _ _ _ R' E2) as (h1 & -> & Hcut).
    destruct (ring_cut _ _ _ [] _ _ [] b _ _ R' eq_refl E2 Hcut) as (_ & R2 & Ro).
    cbn [mbind outcome_bind]. rewrite <- Ec in *.
    assert (b ∉ p :: l) as Hb.
    { destruct R as [D _]. apply NoDup_cons in D as [Dp D]. apply NoDup_cons in D as [Db _]. set_solver. }
    assert (ring (delete b h1) (p :: l)) as R3.
    { apply ring_delete; [done |]. apply (ring_rotate h1 l [p]); [done | exact R2]. }
    destruct (IH fuel (delete b h1) ltac:(cbn in Hf; lia) R3) as (h' & -> & Hg & Hv & Hr).
    exists h'. split_and!; [done | | |].
    + intros q. rewrite elem_of_cons. intros [->|Hq]; [| by apply Hg].
      assert (view h' b = None) as Hb'.
      { rewrite Hv by set_solver. unfold view. by rewrite lookup_delete_eq. }
      unfold view in Hb'. by apply fmap_None in Hb'.
    + intros q Hq. rewrite Hv by set_solver. destruct (delete_links h1 b q) as (_ & _ & ->); [set_solver |].
      apply Hcut.
    + intros l' Rl Hd. apply Hr; [| set_solver]. apply ring_delete; [set_solver |].
      apply Ro; [done |]. cbn [app]. set_solver.
Qed.

(** Destroying the owner of a chain frees exactly the nodes of the chain. *)
Theorem Destroy_correct h p l : ring h (p :: l) ->
  exists h', Destroy p h = Ok h' /\ (forall q, q ∈ p :: l -> h' !! q = None) /\
    (forall q, q ∉ p :: l -> view h' q = view h q) /\
    forall l', ring h l' -> l' ## p :: l -> ring h' l'.
Proof.
  intros R. unfold Destroy. pose proof (ring_size _ _ R) as Hs. cbn in Hs.
  destruct (destroy_loop_spec p l (size h) h ltac:(lia) R) as (h' & -> & Hg & Hv & Hr).
  cbn [mbind outcome_bind]. exists (delete p h'). split_and!; [done | | |].
  - intros q Hq. destruct (decide (q = p)) as [->|]; [apply lookup_delete_eq |].
    rewrite lookup_delete_ne by congruence. apply Hg. set_solver.
  - intros q Hq. destruct (delete_links h' p q) as (_ & _ & ->); [set_solver |]. apply Hv. set_solver.
  - intros l' Rl Hd. apply ring_delete; [set_solver |]. by apply Hr.
Qed.

(** ** Examples: a chain of three buffers (the middle one empty) and a single one *)

Definition demo_heap : heap :=
  {[ 0%nat := mkIOBuf 1 3 100 3 100 10; 1%nat := mkIOBuf 3 0 200 0 200 10;
     3%nat := mkIOBuf 0 1 300 2 300 10; 2%nat := mkIOBuf 2 2 400 4 400 4 ]}.
Definition demo_nodes : list IOBuf :=
  [mkIOBuf 1 3 100 3 100 10; mkIOBuf 3 0 200 0 200 10; mkIOBuf 0 1 300 2 300 10].
Definition demo_mem (a : Z) : Z := a mod 256.

Lemma demo_ring : ring demo_heap [0; 1; 3]%nat.
Proof. split; [by apply (bool_decide_unpack _) | by vm_compute]. Qed.
Lemma demo_ring2 : ring demo_heap [2]%nat.
Proof. split; [by apply (bool_decide_unpack _) | by vm_compute]. Qed.
Lemma demo_nodes_ok : nodes demo_heap [0; 1; 3]%nat demo_nodes.
Proof. by repeat constructor. Qed.
Lemma demo_nodes_wf : Forall wf_node demo_nodes.
Proof. repeat (apply Forall_cons_2; [unfold wf_node; cbn; lia |]). apply Forall_nil_2. Qed.
Lemma demo_pos : at_pos [0; 1; 3]%nat demo_nodes (mkDP 0 1) 1.
Proof. exists [], [1; 3]%nat, [], (mkIOBuf 1 3 100 3 100 10), (tail demo_nodes). cbn. split_and!; (done || lia). Qed.

Lemma PrependChain_correct_witness :
  exists h', PrependChain 0 2 demo_heap = Ok h' /\ ring h' [0; 1; 3; 2]%nat.
Proof.
  destruct (PrependChain_correct demo_heap 0 [1; 3]%nat 2 []) as (h' & E & R & _);
    [exact demo_ring | exact demo_ring2 | set_solver | by exists h'].
Defined.

Lemma UnlinkEnd_correct_witness :
  exists h', UnlinkEnd 0 3 demo_heap = Ok h' /\ ring h' [0; 1]%nat /\ ring h' [3]%nat.
Proof.
  destruct (UnlinkEnd_correct demo_heap 0 [1]%nat 3 [] demo_ring) as (h' & E & R1 & R2 & _). by exists h'.
Defined.

Lemma Pop_correct_witness :
  exists h', Pop 0 demo_heap = Ok (Some 1%nat, h') /\ ring h' [0]%nat /\ ring h' [1; 3]%nat.
Proof.
  destruct (Pop_correct demo_heap 0 [1; 3]%nat demo_ring) as (h' & E & R1 & R2 & _).
  exists h'. split_and!; [exact E | exact R1 | by apply R2].
Defined.

Lemma DataPointer_Get_correct_witness :
  exists d, dp_Get demo_mem 4 (mkDP 0 1) demo_heap = Ok ([101; 102; 44; 45], d) /\
    at_pos [0; 1; 3]%nat demo_nodes d 0.
Proof.
  destruct (DataPointer_Get_correct demo_mem demo_heap [0; 1; 3]%nat demo_nodes (mkDP 0 1) 1 4
    demo_ring demo_nodes_ok demo_nodes_wf demo_pos) as (d & E & P); [cbn; lia |].
  exists d. split; [exact E | exact P].
Defined.

Lemma AdvanceChain_correct_witness :
  exists h' ns', AdvanceChain 0 4 demo_heap = Ok h' /\ nodes h' [0; 1; 3]%nat ns' /\
    chain_bytes demo_mem ns' = [45].
Proof.
  destruct (AdvanceChain_correct demo_heap 0 [1; 3]%nat demo_nodes 4 demo_ring demo_nodes_ok demo_nodes_wf)
    as (h' & ns' & E & _ & Hn & _ & _ & Hb); [by vm_compute | cbn; lia |].
  exists h', ns'. split_and!; [exact E | exact Hn | exact (Hb demo_mem)].
Defined.

Lemma Destroy_correct_witness :
  exists h', Destroy 0 demo_heap = Ok h' /\ h' !! 3%nat = None /\ ring h' [2]%nat.
Proof.
  destruct (Destroy_correct demo_heap 0 [1; 3]%nat demo_ring) as (h' & E & Hg & _ & Hr).
  exists h'. split_and!; [exact E | apply Hg; set_solver | apply Hr; [exact demo_ring2 | set_solver]].
Defined.
