(* ===== verification/RcuTable.v ===== *)
(** * Lists and hash tables that are read without locks

    Models src/src/native/RcuList.h and RcuTable.h: the singly linked bucket
    list whose nodes also hold the address of the cell that points to them, and
    the hash table over an array of such lists.  A mutation is the sequence of
    its stores, in program order, so that what a concurrent reader can see
    between two stores can be stated.  Memory is sequentially consistent. *)

From S2P Require Import Prelude.

Module Rcu.

(** ** Memory *)

(** The address of a cell that holds a node pointer: the head of a bucket, or
    the [next] of a node. *)
Inductive cell := CHead (b : nat) | CNext (n : nat).

(** struct RcuHListHook, and the key of the node it is part of. *)
Record Hook (K : Type) := mkHook { next : option nat; pprev : option cell; nkey : K }.
Arguments mkHook {K} next pprev nkey.
Arguments next {K} h. Arguments pprev {K} h. Arguments nkey {K} h.

(** The bucket array and the nodes. *)
Record Mem (K : Type) := mkMem { heads : list (option nat); hooks : gmap nat (Hook K) }.
Arguments mkMem {K} heads hooks. Arguments heads {K} m. Arguments hooks {K} m.

Section Ops.
Context {K : Type}.
Implicit Type m : Mem K.

Definition set_next (v : option nat) (h : Hook K) : Hook K := mkHook v (pprev h) (nkey h).
Definition set_pprev (v : option cell) (h : Hook K) : Hook K := mkHook (next h) v (nkey h).

Inductive store := StCell (c : cell) (v : option nat) | StPprev (n : nat) (v : option cell).

Definition do_store m (s : store) : Mem K :=
  match s with
  | StCell (CHead b) v => mkMem (<[b := v]> (heads m)) (hooks m)
  | StCell (CNext n) v => mkMem (heads m) (alter (set_next v) n (hooks m))
  | StPprev n v => mkMem (heads m) (alter (set_pprev v) n (hooks m))
  end.
Definition do_stores m (l : list store) : Mem K := foldl do_store m l.

(** ** RcuHList *)

Definition hook m (n : nat) : outcome (Hook K) := deref (hooks m !! n).
Definition head m (b : nat) : outcome (option nat) := deref (heads m !! b).

(** [empty], [begin]. *)
Definition empty m (b : nat) : outcome bool := h ← head m b; Ok (match h with None => true | Some _ => false end).

Definition clear (b : nat) : list store := [StCell (CHead b) None].
Definition clear_after (node : nat) : list store := [StCell (CNext node) None].
Definition set (b node : nat) : list store := [StCell (CHead b) (Some node)].

Definition push_front m (b node : nat) : outcome (list store) :=
  _ ← hook m node;
  h ← head m b;
  Ok ([StCell (CNext node) h; StPprev node (Some (CHead b)); StCell (CHead b) (Some node)] ++
      match h with Some h => [StPprev h (Some (CNext node))] | None => [] end).

Definition insert_before m (new_node node : nat) : outcome (list store) :=
  _ ← hook m new_node;
  k ← hook m node;
  c ← deref (pprev k);
  Ok [StPprev new_node (Some c); StCell (CNext new_node) (Some node); StCell c (Some new_node);
      StPprev node (Some (CNext new_node))].

Definition insert_after m (new_node node : nat) : outcome (list store) :=
  _ ← hook m new_node;
  k ← hook m node;
  Ok ([StCell (CNext new_node) (next k); StPprev new_node (Some (CNext node)); StCell (CNext node) (Some new_node)] ++
      match next k with Some x => [StPprev x (Some (CNext new_node))] | None => [] end).

(** The last node from [n] on. *)
Fixpoint last_node (fuel : nat) m (n : nat) : outcome nat :=
  match fuel with
  | O => Fail Aborted
  | S fuel =>
      k ← hook m n;
      match next k with Some x => last_node fuel m x | None => Ok n end
  end.

Definition splice_after (new_node node : nat) : list store :=
  [StPprev new_node (Some (CNext node)); StCell (CNext node) (Some new_node)].
Definition splice_end m (b new_node : nat) : outcome (list store) :=
  e ← empty m b;
  _ ← kassert (negb e);
  h ← head m b;
  n ← deref h;
  e ← last_node (S (size (hooks m))) m n;
  Ok (splice_after new_node e).

Definition erase m (node : nat) : outcome (list store) :=
  k ← hook m node;
  c ← deref (pprev k);
  Ok (StCell c (next k) :: match next k with Some x => [StPprev x (pprev k)] | None => [] end).

(** ** RcuHashTable *)

Context `{EqDecision K} (hash : K -> Z).

Definition bucket_count m : Z := Z.of_nat (length (heads m)).
Definition create (buckets_shift : Z) : Mem K := mkMem (replicate (Z.to_nat (Z.shiftl 1 buckets_shift)) None) ∅.
Definition index m (k : K) : nat := Z.to_nat (hash k mod bucket_count m).

Definition get_bucket m (i : nat) : outcome nat := _ ← kassert (Nat.ltb i (length (heads m))); Ok i.

(** The loop of [find] over the nodes of a bucket. *)
Fixpoint find_from (fuel : nat) m (k : K) (n : option nat) : outcome (option nat) :=
  match n with
  | None => Ok None
  | Some n =>
      match fuel with
      | O => Fail Aborted
      | S fuel =>
          h ← hook m n;
          if decide (k = nkey h) then Ok (Some n) else find_from fuel m k (next h)
      end
  end.
Definition find m (k : K) : outcome (option nat) :=
  b ← get_bucket m (index m k);
  h ← head m b;
  find_from (S (size (hooks m))) m k h.

Definition insert m (val : nat) : outcome (Mem K) :=
  h ← hook m val;
  b ← get_bucket m (index m (nkey h));
  do_stores m <$> push_front m b val.

Definition table_erase m (val : nat) : outcome (Mem K) := do_stores m <$> erase m val.

Definition table_clear m : Mem K := do_stores m (concat (clear <$> seq 0 (length (heads m)))).
End Ops.
End Rcu.
