(* ===== verification/RcuCorrect.v ===== *)
(** * Correctness of the RCU lists and tables

    The operations of RcuTable refine operations on lists of nodes; between the
    stores of a mutation a reader sees the old or the new list; and a reader
    that runs while nodes are inserted and erased does not miss a node that
    stays in the list. *)

From S2P Require Import Prelude.
From S2P Require Import RcuTable.
Import Rcu.

#[export] Instance cell_eq_dec : EqDecision cell.
Proof. solve_decision. Defined.

Section Correct.
Context {K : Type}.
Implicit Types (m : Mem K) (c : cell) (l : list nat).

(** ** Cells *)

Definition cell_val m c : option (option nat) :=
  match c with CHead b => heads m !! b | CNext n => next <$> hooks m !! n end.
Definition pp m (n : nat) : option cell := hooks m !! n ≫= pprev.
Definition key_of m (n : nat) : option K := nkey <$> hooks m !! n.

Lemma cell_store m c v c' : is_Some (cell_val m c) ->
  cell_val (do_store m (StCell c v)) c' = if decide (c' = c) then Some v else cell_val m c'.
Proof.
  intros Hc. destruct c as [b|n], c' as [b'|n']; cbn [do_store cell_val heads hooks] in *.
  - destruct (decide (CHead b' = CHead b)) as [[= ->]|Hne].
    + apply list_lookup_insert_eq. by apply lookup_lt_is_Some.
    + apply list_lookup_insert_ne. congruence.
  - by rewrite decide_False.
  - by rewrite decide_False.
  - destruct (decide (CNext n' = CNext n)) as [[= ->]|Hne].
    + rewrite lookup_alter_eq. destruct (hooks m !! n); [done |]. by destruct Hc.
    + rewrite lookup_alter_ne by congruence. done.
Qed.

Lemma cell_pprev m n v c : cell_val (do_store m (StPprev n v)) c = cell_val m c.
Proof.
  destruct c as [b|n']; [done |]. cbn. destruct (decide (n = n')) as [->|Hne].
  - rewrite lookup_alter_eq. by destruct (hooks m !! n').
  - by rewrite lookup_alter_ne.
Qed.

Lemma pp_store m c v n : pp (do_store m (StCell c v)) n = pp m n.
Proof.
  destruct c as [b|n']; [done |]. unfold pp. cbn. destruct (decide (n = n')) as [->|Hne].
  - rewrite lookup_alter_eq. by destruct (hooks m !! n').
  - by rewrite lookup_alter_ne.
Qed.

Lemma pp_pprev m n v n' : is_Some (hooks m !! n) ->
  pp (do_store m (StPprev n v)) n' = if decide (n' = n) then v else pp m n'.
Proof.
  intros [h Hh]. unfold pp. cbn. destruct (decide (n' = n)) as [->|Hne].
  - by rewrite lookup_alter_eq, Hh.
  - by rewrite lookup_alter_ne.
Qed.

(** Stores do not change what nodes exist, their keys, or the bucket array. *)
Lemma store_key m s n : key_of (do_store m s) n = key_of m n.
Proof.
  unfold key_of. destruct s as [[b|x] v|x v]; [done | |]; cbn; (destruct (decide (x = n)) as [->|Hne];
    [rewrite lookup_alter_eq; by destruct (hooks m !! n) | by rewrite lookup_alter_ne]).
Qed.
Lemma store_length m s : length (heads (do_store m s)) = length (heads m).
Proof. destruct s as [[b|x] v|x v]; cbn; [apply length_insert | done | done]. Qed.
Lemma store_size m s : size (hooks (do_store m s)) = size (hooks m).
Proof.
  destruct s as [[b|x] v|x v]; [done | |]; cbn; rewrite <- !size_dom; f_equal; apply dom_alter_L.
Qed.

Lemma stores_inv m (l : list store) : (forall n, key_of (do_stores m l) n = key_of m n) /\
  length (heads (do_stores m l)) = length (heads m) /\ size (hooks (do_stores m l)) = size (hooks m).
Proof.
  revert m. induction l as [|s l IH]; intros m; [done |].
  change (do_stores m (s :: l)) with (do_stores (do_store m s) l). destruct (IH (do_store m s)) as (H1 & H2 & H3).
  split_and!; [intros n; by rewrite H1, store_key | by rewrite H2, store_length | by rewrite H3, store_size].
Qed.

Lemma key_cell m n : is_Some (key_of m n) <-> is_Some (cell_val m (CNext n)).
Proof. unfold key_of. cbn. by rewrite !fmap_is_Some. Qed.
Lemma key_hook m n : is_Some (key_of m n) <-> is_Some (hooks m !! n).
Proof. unfold key_of. by rewrite fmap_is_Some. Qed.

(** ** Chains of nodes *)

(** From cell [c] through the nodes [l] to cell [c']. *)
Fixpoint seg m c l c' : Prop :=
  match l with
  | [] => c = c'
  | n :: l => cell_val m c = Some (Some n) /\ pp m n = Some c /\ seg m (CNext n) l c'
  end.
Definition chain m c l : Prop := exists c', seg m c l c' /\ cell_val m c' = Some None.

Lemma seg_app m c l1 l2 c' : seg m c (l1 ++ l2) c' <-> exists c1, seg m c l1 c1 /\ seg m c1 l2 c'.
Proof.
  revert c. induction l1 as [|n l1 IH]; intros c; cbn.
  - split; [by exists c | by intros (c1 & -> & ?)].
  - rewrite IH. naive_solver.
Qed.

(** The cells read on the way. *)
Fixpoint reads c l : list cell := match l with [] => [] | n :: l => c :: reads (CNext n) l end.

Lemma seg_reads m c l c' : seg m c l c' -> reads c l ++ [c'] = c :: (CNext <$> l).
Proof.
  revert c. induction l as [|n l IH]; intros c; cbn; [by intros -> |]. intros (_ & _ & Hs). by rewrite (IH _ Hs).
Qed.

Lemma seg_frame m m' c l c' : seg m c l c' -> (forall x, x ∈ reads c l -> cell_val m' x = cell_val m x) ->
  (forall n, n ∈ l -> pp m' n = pp m n) -> seg m' c l c'.
Proof.
  revert c. induction l as [|n l IH]; intros c; [done |]. cbn [seg reads]. intros (H1 & H2 & H3) Hc Hp.
  split_and!; [rewrite Hc by (by left); done | rewrite Hp by (by left); done |].
  apply IH; [done | intros; apply Hc; by right | intros; apply Hp; by right].
Qed.

(** The head cell of a bucket or a node outside the list is not [CNext] of a node of it. *)
Definition outside c l : Prop := match c with CHead _ => True | CNext n => n ∉ l end.

Lemma cells_NoDup c l : NoDup l -> outside c l -> NoDup (c :: (CNext <$> l)).
Proof.
  intros Hl Hc. constructor; [| apply NoDup_fmap; [by intros ? ? [=] | done]].
  intros (n & -> & Hn)%list_elem_of_fmap. by destruct Hc.
Qed.

Lemma seg_cell_val m c l c' x : seg m c l c' -> x ∈ reads c l -> is_Some (cell_val m x).
Proof.
  revert c. induction l as [|n l IH]; intros c; cbn; [by intros _ ?%elem_of_nil |].
  intros (H1 & _ & H3) [->|Hx]%elem_of_cons; [by rewrite H1 | by eapply IH].
Qed.

Lemma chain_det m c l1 l2 : chain m c l1 -> chain m c l2 -> l1 = l2.
Proof.
  revert c l2. induction l1 as [|n l1 IH]; intros c l2 (c1 & S1 & E1) (c2 & S2 & E2); destruct l2 as [|n2 l2]; [done | | |].
  - cbn in *. destruct S2 as (E & _). congruence.
  - cbn in *. destruct S1 as (E & _). congruence.
  - cbn in *. destruct S1 as (F1 & _ & S1), S2 as (F2 & _ & S2). rewrite F1 in F2. injection F2 as <-. f_equal.
    apply (IH (CNext n)); [by exists c1 | by exists c2].
Qed.

(** ** push_front *)

Lemma push_front_view m b n h : cell_val m (CHead b) = Some h -> is_Some (hooks m !! n) ->
  (forall x, h = Some x -> is_Some (hooks m !! x)) ->
  exists ss, push_front m b n = Ok ss /\
    (forall x, cell_val (do_stores m ss) x =
       if decide (x = CHead b) then Some (Some n) else if decide (x = CNext n) then Some h else cell_val m x) /\
    (forall y, pp (do_stores m ss) y =
       if decide (h = Some y) then Some (CNext n) else if decide (y = n) then Some (CHead b) else pp m y).
Proof.
  intros Hb Hn Hx. pose proof Hn as [k Hk]. unfold push_front, hook, head. rewrite Hk. cbn [deref mbind outcome_bind].
  cbn in Hb. rewrite Hb. cbn [deref mbind outcome_bind]. eexists. split; [done |].
  set (m1 := do_store m (StCell (CNext n) h)). set (m2 := do_store m1 (StPprev n (Some (CHead b)))).
  set (m3 := do_store m2 (StCell (CHead b) (Some n))).
  assert (is_Some (cell_val m (CNext n))) as Hcn by (cbn; by rewrite Hk).
  assert (forall x, cell_val m3 x =
    if decide (x = CHead b) then Some (Some n) else if decide (x = CNext n) then Some h else cell_val m x) as C3.
  { intros x. unfold m3, m2, m1. rewrite cell_store, cell_pprev, cell_store by (rewrite ?cell_pprev, ?cell_store; by rewrite ?Hb).
    done. }
  assert (forall y, pp m3 y = if decide (y = n) then Some (CHead b) else pp m y) as P3.
  { intros y. unfold m3, m2, m1. rewrite pp_store, pp_pprev, pp_store; [done |].
    apply key_hook. rewrite store_key. by apply key_hook. }
  destruct h as [x|].
  - change (do_stores m _) with (do_store m3 (StPprev x (Some (CNext n)))). split.
    + intros y. by rewrite cell_pprev, C3.
    + intros y. rewrite pp_pprev, P3.
      * destruct (decide (y = x)), (decide (Some x = Some y)); congruence.
      * apply key_hook. unfold m3, m2, m1. rewrite !store_key. apply key_hook. by apply Hx.
  - change (do_stores m _) with m3. split; [done |]. intros y. by rewrite P3.
Qed.

Lemma chain_head m c l : chain m c l -> exists v, cell_val m c = Some v /\ v = hd_error l /\ is_Some (cell_val m c).
Proof.
  intros (c' & Hs & He). destruct l as [|n l]; cbn in *.
  - subst c'. rewrite He. by eexists.
  - destruct Hs as (-> & _). by eexists.
Qed.

Lemma chain_hooks m c l n : chain m c l -> n ∈ l -> is_Some (hooks m !! n).
Proof.
  intros (c' & Hs & _). revert c Hs. induction l as [|y l IH]; intros c; [by intros _ ?%elem_of_nil |].
  cbn. intros (_ & Hp & Hs) [->|Hn]%elem_of_cons; [| by eapply IH].
  unfold pp in Hp. destruct (hooks m !! y); [by eexists | discriminate Hp].
Qed.

(** A chain in a memory that agrees on its cells and nodes. *)
Lemma chain_frame m m' c l : chain m c l -> (forall x, x = c \/ (exists n, n ∈ l /\ x = CNext n) -> cell_val m' x = cell_val m x) ->
  (forall n, n ∈ l -> pp m' n = pp m n) -> chain m' c l.
Proof.
  intros (c' & Hs & He) Hc Hp. exists c'. pose proof (seg_reads _ _ _ _ Hs) as Hr.
  assert (forall x, x ∈ reads c l ++ [c'] -> cell_val m' x = cell_val m x) as Hall.
  { intros x Hx. apply Hc. rewrite Hr in Hx. apply elem_of_cons in Hx as [->|(n & -> & Hn)%list_elem_of_fmap]; [by left |].
    right. by exists n. }
  split; [eapply seg_frame; [done | | done] |].
  - intros x Hx. apply Hall, elem_of_app. by left.
  - rewrite Hall; [done |]. apply elem_of_app. right. by left.
Qed.

(** A chain whose first node is hung under another cell. *)
Lemma chain_repoint m m' c c2 l : chain m c l -> NoDup l -> cell_val m' c2 = cell_val m c ->
  (forall n, n ∈ l -> cell_val m' (CNext n) = cell_val m (CNext n)) ->
  (forall n, n ∈ l -> pp m' n = if decide (hd_error l = Some n) then Some c2 else pp m n) -> chain m' c2 l.
Proof.
  intros (c' & Hs & He) Hd Hc Hn Hp. destruct l as [|y l].
  - exists c2. cbn in Hs. subst c'. split; [done |]. by rewrite Hc.
  - cbn in Hs. destruct Hs as (H1 & H2 & H3). apply NoDup_cons in Hd as [Hy Hd].
    destruct (chain_frame m m' (CNext y) l) as (c3 & S3 & E3).
    + by exists c'.
    + intros x [->|(n & Hx & ->)]; apply Hn; [by left | by right].
    + intros n Hin. rewrite Hp by (by right). rewrite decide_False; [done |]. cbn. intros [= ->]. done.
    + exists c3. split; [| done]. cbn. split_and!; [by rewrite Hc | | done].
      rewrite Hp by (by left). by rewrite decide_True.
Qed.

(** Pushing a new node on a bucket, and what it leaves alone. *)
Lemma push_front_ok m b n l : chain m (CHead b) l -> NoDup l -> n ∉ l -> is_Some (hooks m !! n) ->
  exists ss, push_front m b n = Ok ss /\ chain (do_stores m ss) (CHead b) (n :: l) /\
    forall b' l', b' <> b -> chain m (CHead b') l' -> (forall x, x ∈ n :: l -> x ∉ l') -> chain (do_stores m ss) (CHead b') l'.
Proof.
  intros Hc Hd Hn Hk. destruct (chain_head _ _ _ Hc) as (h & Hh & -> & _).
  destruct (push_front_view m b n (hd_error l) Hh Hk) as (ss & Hr & Hcv & Hpp).
  { intros x Hx. eapply chain_hooks; [exact Hc |]. destruct l; [done |]. injection Hx as ->. by left. }
  exists ss. split; [done |]. split.
  - destruct (chain_repoint m (do_stores m ss) (CHead b) (CNext n) l) as (c' & S' & E'); [done | done | | | |].
    + rewrite Hcv, decide_False, decide_True by done. done.
    + intros x Hx. rewrite Hcv, decide_False by done. rewrite decide_False; [done |]. by intros [= ->].
    + intros x Hx. rewrite Hpp. case_decide; [done |]. rewrite decide_False; [done |]. by intros ->.
    + exists c'. split; [| done]. cbn [seg]. split_and!; [by rewrite Hcv, decide_True | | done].
      rewrite Hpp, decide_False, decide_True; [done | done |]. intros Hx. apply Hn. destruct l; [done |].
      injection Hx as ->. by left.
  - intros b' l' Hne Hc' Hdisj. eapply chain_frame; [done | |].
    + intros x [->|(y & Hy & ->)]; rewrite Hcv.
      * rewrite decide_False by congruence. by rewrite decide_False.
      * rewrite decide_False by done. rewrite decide_False; [done |]. intros [= ->]. eapply Hdisj; [by left | done].
    + intros y Hy. rewrite Hpp. rewrite decide_False, decide_False; [done | |].
      * intros ->. eapply Hdisj; [by left | done].
      * intros Hx. apply (Hdisj y); [| done]. destruct l; [done |]. injection Hx as ->. right. by left.
Qed.

(** ** erase *)

Lemma erase_view m n c v : pp m n = Some c -> cell_val m (CNext n) = Some v -> is_Some (cell_val m c) ->
  (forall x, v = Some x -> is_Some (hooks m !! x)) ->
  exists ss, erase m n = Ok ss /\
    (forall x, cell_val (do_stores m ss) x = if decide (x = c) then Some v else cell_val m x) /\
    (forall y, pp (do_stores m ss) y = if decide (v = Some y) then Some c else pp m y).
Proof.
  intros Hp Hv Hc Hx. unfold erase, hook. unfold pp in Hp. cbn in Hv. destruct (hooks m !! n) as [k|]; [| discriminate Hv].
  cbn in Hp, Hv. injection Hv as Hv. cbn [deref mbind outcome_bind]. rewrite Hp. cbn [deref mbind outcome_bind].
  eexists. split; [done |]. rewrite Hv. destruct v as [x|].
  - change (do_stores m _) with (do_store (do_store m (StCell c (Some x))) (StPprev x (Some c))). split; intros y.
    + by rewrite cell_pprev, cell_store.
    + rewrite pp_pprev, pp_store.
      * destruct (decide (y = x)), (decide (Some x = Some y)); congruence.
      * apply key_hook. rewrite store_key. apply key_hook. by apply Hx.
  - change (do_stores m _) with (do_store m (StCell c None)). split; intros y; [by rewrite cell_store | by rewrite pp_store].
Qed.

(** The cell before a node of a chain. *)
Lemma chain_split m c l1 n l2 : chain m c (l1 ++ n :: l2) ->
  exists c1, seg m c l1 c1 /\ cell_val m c1 = Some (Some n) /\ pp m n = Some c1 /\ chain m (CNext n) l2.
Proof.
  intros (c' & (c1 & S1 & S2)%seg_app & He). cbn in S2. destruct S2 as (H1 & H2 & H3).
  exists c1. split_and!; [done | done | done | by exists c'].
Qed.

Lemma erase_ok m b l1 n l2 : chain m (CHead b) (l1 ++ n :: l2) -> NoDup (l1 ++ n :: l2) ->
  exists ss, erase m n = Ok ss /\ chain (do_stores m ss) (CHead b) (l1 ++ l2) /\
    (forall x, x <> CHead b -> (forall y, y ∈ l1 -> x <> CNext y) -> cell_val (do_stores m ss) x = cell_val m x) /\
    forall b' l', b' <> b -> chain m (CHead b') l' -> (forall x, x ∈ l1 ++ n :: l2 -> x ∉ l') ->
      chain (do_stores m ss) (CHead b') l'.
Proof.
  intros Hch Hd. destruct (chain_split _ _ _ _ _ Hch) as (c1 & S1 & Hc1 & Hp & Hch2).
  destruct (chain_head _ _ _ Hch2) as (v & Hv & -> & _).
  destruct (erase_view m n c1 (hd_error l2) Hp Hv) as (ss & Hr & Hcv & Hpp); [by rewrite Hc1 | |].
  { intros x Hx. eapply chain_hooks; [exact Hch2 |]. destruct l2; [done |]. injection Hx as ->. by left. }
  pose proof (seg_reads _ _ _ _ S1) as Hrd. apply NoDup_app in Hd as (Hd1 & Hdis & Hd2).
  apply NoDup_cons in Hd2 as [Hn2 Hd2].
  pose proof (cells_NoDup (CHead b) l1 Hd1 I) as Hnd. rewrite <- Hrd in Hnd. apply NoDup_app in Hnd as (_ & Hnr & _).
  assert (c1 = CHead b \/ exists y, y ∈ l1 /\ c1 = CNext y) as Hc1in.
  { assert (c1 ∈ CHead b :: (CNext <$> l1)) as Hin by (rewrite <- Hrd; apply elem_of_app; right; by left).
    apply elem_of_cons in Hin as [->|(y & -> & Hy)%list_elem_of_fmap]; [by left | right; by exists y]. }
  assert (forall x, hd_error l2 = Some x -> x ∈ l2) as Hhd by (intros x Hx; destruct l2; [done |]; injection Hx as ->; by left).
  exists ss. split_and!; [done | | |].
  - destruct (chain_repoint m (do_stores m ss) (CNext n) c1 l2) as (c' & S' & E'); [done | done | | | |].
    + by rewrite Hcv, decide_True, Hv.
    + intros x Hx. rewrite Hcv, decide_False; [done |]. intros <-. destruct Hc1in as [[=]|(y & Hy & [= ->])].
      eapply Hdis; [done | by right].
    + intros x Hx. by rewrite Hpp.
    + exists c'. split; [| done]. apply seg_app. exists c1. split; [| done]. eapply seg_frame; [done | |].
      * intros x Hx. rewrite Hcv, decide_False; [done |]. intros ->. eapply Hnr; [done | by left].
      * intros x Hx. rewrite Hpp, decide_False; [done |]. intros Hy%Hhd. eapply Hdis; [done | by right].
  - intros x Hx Hy. rewrite Hcv, decide_False; [done |]. intros ->. destruct Hc1in as [->|(y & Hy' & ->)]; [done |].
    by eapply Hy.
  - intros b' l' Hne Hc' Hdisj. eapply chain_frame; [done | |].
    + intros x Hx. rewrite Hcv, decide_False; [done |]. intros ->.
      destruct Hc1in as [->|(y & Hy & ->)], Hx as [Hx|(z & Hz & Hx)]; try congruence.
      injection Hx as <-. eapply (Hdisj y); [| done]. apply elem_of_app. by left.
    + intros y Hy. rewrite Hpp, decide_False; [done |]. intros Hx%Hhd. eapply (Hdisj y); [| done].
      apply elem_of_app. right. by right.
Qed.

(** ** What a reader sees *)

(** The nodes a reader visits from cell [c] on. *)
Fixpoint sees m c l : Prop :=
  match l with
  | [] => cell_val m c = Some None
  | n :: l => cell_val m c = Some (Some n) /\ sees m (CNext n) l
  end.

Lemma chain_sees m c l : chain m c l -> sees m c l.
Proof.
  intros (c' & Hs & He). revert c Hs. induction l as [|n l IH]; intros c; cbn [seg sees]; [by intros -> |].
  intros (H1 & _ & H3). split; [done | by apply IH].
Qed.

Lemma sees_frame m m' c l : sees m c l -> cell_val m' c = cell_val m c ->
  (forall n, n ∈ l -> cell_val m' (CNext n) = cell_val m (CNext n)) -> sees m' c l.
Proof.
  revert c. induction l as [|n l IH]; intros c; cbn [sees]; [by intros H -> |].
  intros [H1 H2] Hc Hn. rewrite Hc. split; [done |]. apply IH; [done | apply Hn; by left | intros; apply Hn; by right].
Qed.

(** The stores after the first few of a mutation, up to what a reader sees. *)
Lemma prefix_cases (ss p q : list store) : ss = p ++ q -> exists i, p = take i ss.
Proof. intros ->. exists (length p). by rewrite take_app_length. Qed.

(** A reader that traverses the bucket between any two stores of
    [push_front] sees the list without the new node or the list with it. *)
Theorem push_front_atomic m b n l ss p q : chain m (CHead b) l -> NoDup l -> n ∉ l -> is_Some (hooks m !! n) ->
  push_front m b n = Ok ss -> ss = p ++ q ->
  sees (do_stores m p) (CHead b) l \/ sees (do_stores m p) (CHead b) (n :: l).
Proof.
  intros Hc Hd Hn Hk Hr Hpq. destruct (push_front_ok m b n l Hc Hd Hn Hk) as (ss' & Hr' & Hfull & _).
  rewrite Hr in Hr'. injection Hr' as <-. destruct (prefix_cases _ _ _ Hpq) as [i ->]. clear Hpq q.
  destruct (chain_head _ _ _ Hc) as (h & Hh & -> & _). pose proof Hk as [k Ek].
  unfold push_front, hook, head in Hr. rewrite Ek in Hr. cbn in Hh. cbn [deref mbind outcome_bind] in Hr.
  rewrite Hh in Hr. cbn [deref mbind outcome_bind] in Hr. injection Hr as <-.
  assert (sees (do_store m (StCell (CNext n) (hd_error l))) (CHead b) l) as H1.
  { eapply sees_frame; [by apply chain_sees | |].
    - rewrite cell_store, decide_False by (done || by apply key_cell, key_hook). done.
    - intros y Hy. rewrite cell_store by (by apply key_cell, key_hook). rewrite decide_False; [done |]. by intros [= ->]. }
  assert (forall m1 m2 c l, (forall x, cell_val m2 x = cell_val m1 x) -> sees m1 c l -> sees m2 c l) as Hext.
  { intros m1 m2 c l' He Hs. eapply sees_frame; [done | apply He | intros; apply He]. }
  destruct i as [|[|[|[|i]]]].
  - left. by apply chain_sees.
  - left. exact H1.
  - left. refine (Hext _ _ _ _ _ H1). intros x. apply (cell_pprev (do_store m (StCell (CNext n) (hd_error l)))).
  - right. apply chain_sees in Hfull. refine (Hext _ _ _ _ _ Hfull). intros x. cbn [app take do_stores foldl].
    destruct (hd_error l); [| done]. cbn [foldl]. by rewrite cell_pprev.
  - right. apply chain_sees in Hfull. refine (Hext _ _ _ _ _ Hfull). intros x. f_equal. f_equal.
    apply take_ge. destruct (hd_error l); cbn; lia.
Qed.

(** A reader that traverses the bucket between any two stores of [erase] sees
    the list with the node or the list without it; and the node still points to
    its successor, for a reader that has already reached it. *)
Theorem erase_atomic m b l1 n l2 ss p q : chain m (CHead b) (l1 ++ n :: l2) -> NoDup (l1 ++ n :: l2) ->
  erase m n = Ok ss -> ss = p ++ q ->
  (sees (do_stores m p) (CHead b) (l1 ++ n :: l2) \/ sees (do_stores m p) (CHead b) (l1 ++ l2)) /\
  sees (do_stores m p) (CNext n) l2.
Proof.
  intros Hc Hd Hr Hpq. destruct (erase_ok m b l1 n l2 Hc Hd) as (ss' & Hr' & Hfull & Hkeep & _).
  rewrite Hr in Hr'. injection Hr' as <-. destruct (prefix_cases _ _ _ Hpq) as [i ->]. clear Hpq q.
  destruct (chain_split _ _ _ _ _ Hc) as (c1 & S1 & Hc1 & Hp & Hc2).
  apply NoDup_app in Hd as (_ & Hdis & Hd2). apply NoDup_cons in Hd2 as [Hn2 _].
  assert (sees (do_stores m ss) (CNext n) l2) as Hrest.
  { eapply sees_frame; [by apply chain_sees | |].
    - apply Hkeep; [done |]. intros y Hy [= <-]. eapply Hdis; [done | by left].
    - intros z Hz. apply Hkeep; [done |]. intros y Hy [= <-]. eapply Hdis; [done | by right]. }
  unfold erase, hook in Hr. unfold pp in Hp. destruct (hooks m !! n) as [k|]; [| discriminate Hp]. cbn in Hp.
  cbn [deref mbind outcome_bind] in Hr. rewrite Hp in Hr. cbn [deref mbind outcome_bind] in Hr. injection Hr as <-.
  assert (forall m1 m2 c l, (forall x, cell_val m2 x = cell_val m1 x) -> sees m1 c l -> sees m2 c l) as Hext.
  { intros m1 m2 c l' He Hs. eapply sees_frame; [done | apply He | intros; apply He]. }
  destruct i as [|i]; [split; [left; by apply chain_sees | by apply chain_sees] |].
  assert (forall x, cell_val (do_stores m (take (S i) (StCell c1 (next k) ::
    match next k with Some x => [StPprev x (Some c1)] | None => [] end))) x = cell_val (do_stores m (StCell c1 (next k) ::
    match next k with Some x => [StPprev x (Some c1)] | None => [] end)) x) as Hsame.
  { intros x. destruct (next k) as [y|]; [| by destruct i]. destruct i as [|i]; [| by destruct i].
    cbn [take do_stores foldl]. by rewrite cell_pprev. }
  split; [right; refine (Hext _ _ _ _ Hsame _); by apply chain_sees | exact (Hext _ _ _ _ Hsame Hrest)].
Qed.

(** ** Hash tables *)

Context `{EqDecision K} (hash : K -> Z).

(** Bucket [b] of the table holds the nodes [t !! b], all hashed to [b]. *)
Record Rep m (t : list (list nat)) : Prop := {
  rep_len : length t = length (heads m);
  rep_pos : (0 < length t)%nat;
  rep_chain : forall b l, t !! b = Some l -> chain m (CHead b) l;
  rep_nodup : NoDup (concat t);
  rep_keys : forall b l n k, t !! b = Some l -> n ∈ l -> key_of m n = Some k -> index hash m k = b
}.

Definition linked (t : list (list nat)) (n : nat) : Prop := n ∈ concat t.

Lemma linked_bucket t n : linked t n <-> exists b l, t !! b = Some l /\ n ∈ l.
Proof.
  unfold linked. rewrite list_elem_of_In, in_concat. split.
  - intros (l & Hl & Hn). apply list_elem_of_In, list_elem_of_lookup in Hl as [b Hb]. exists b, l. by rewrite list_elem_of_In.
  - intros (b & l & Hb & Hn). exists l. rewrite <- !list_elem_of_In. split; [by eapply list_elem_of_lookup_2 | done].
Qed.

Lemma bucket_split t b l : t !! b = Some l -> exists t1 t2, t = t1 ++ l :: t2 /\ length t1 = b.
Proof. intros Hb. exists (take b t), (drop (S b) t). split; [by rewrite take_drop_middle |]. apply length_take_le. apply lookup_lt_Some in Hb. lia. Qed.

Lemma bucket_NoDup t b l : NoDup (concat t) -> t !! b = Some l -> NoDup l /\
  forall b' l', b' <> b -> t !! b' = Some l' -> forall x, x ∈ l -> x ∉ l'.
Proof.
  intros Hd Hb. destruct (bucket_split t b l Hb) as (t1 & t2 & -> & Hlen). subst b.
  rewrite concat_app in Hd. cbn in Hd. apply NoDup_app in Hd as (H1 & H2 & H3). apply NoDup_app in H3 as (H3 & H4 & H5).
  split; [done |]. intros b' l' Hne Hb' x Hx Hx'.
  destruct (decide (b' < length t1)%nat) as [Hlt|Hge].
  - rewrite lookup_app_l in Hb' by done. apply (H2 x); [apply linked_bucket; by exists b', l' |]. apply elem_of_app. by left.
  - rewrite lookup_app_r in Hb' by lia. destruct (b' - length t1)%nat as [|j] eqn:Ej; [lia |]. cbn in Hb'.
    apply (H4 x Hx). apply linked_bucket. by exists j, l'.
Qed.

(** A new table is empty, whatever nodes exist. *)
Lemma empty_Rep hs (n : nat) : (0 < n)%nat -> Rep (mkMem (replicate n None) hs) (replicate n []).
Proof.
  intros Hn. split.
  - cbn; by rewrite !length_replicate.
  - by rewrite length_replicate.
  - intros b l [-> Hb]%lookup_replicate. exists (CHead b). split; [done |]. cbn. by apply lookup_replicate.
  - assert (concat (replicate n ([] : list nat)) = []) as -> by (clear; by induction n). constructor.
  - intros b l x k [-> _]%lookup_replicate Hx. by apply elem_of_nil in Hx.
Qed.

(** ** find *)

Definition first_key m (k : K) l : option nat := hd_error (filter (fun n => key_of m n = Some k) l).

Lemma find_from_ok m k l : forall c fuel, chain m c l -> (length l < fuel)%nat ->
  find_from fuel m k (hd_error l) = Ok (first_key m k l).
Proof.
  induction l as [|n l IH]; intros c fuel (c' & Hs & He) Hf; [by destruct fuel |].
  destruct fuel as [|fuel]; [cbn in Hf; lia |]. cbn [length] in Hf. cbn [hd_error find_from].
  pose proof (chain_hooks m c (n :: l) n ltac:(by exists c') ltac:(by left)) as [h Hh].
  unfold hook. rewrite Hh. cbn [deref mbind outcome_bind]. cbn [seg] in Hs. destruct Hs as (_ & _ & Hs).
  assert (next h = hd_error l) as Hnext.
  { destruct (chain_head m (CNext n) l ltac:(by exists c')) as (v & Hv & -> & _). cbn in Hv. rewrite Hh in Hv. by injection Hv. }
  assert (key_of m n = Some (nkey h)) as Hkey by (unfold key_of; by rewrite Hh).
  unfold first_key. rewrite filter_cons. destruct (decide (k = nkey h)) as [->|Hne].
  - by rewrite decide_True by done.
  - rewrite decide_False by congruence. rewrite Hnext. apply (IH (CNext n)); [by exists c' | lia].
Qed.

Lemma chain_length m c l : chain m c l -> NoDup l -> (length l <= size (hooks m))%nat.
Proof.
  intros Hc Hd. rewrite <- size_dom, <- (size_list_to_set (C := gset nat) l Hd). apply subseteq_size.
  intros n Hn%elem_of_list_to_set. apply elem_of_dom. by eapply chain_hooks.
Qed.

Lemma index_lt m t k : Rep m t -> (index hash m k < length t)%nat.
Proof.
  intros HR. pose proof (rep_len _ _ HR). pose proof (rep_pos _ _ HR). unfold index, bucket_count.
  pose proof (Z.mod_pos_bound (hash k) (Z.of_nat (length (heads m)))). lia.
Qed.

Lemma find_ok m t k l : Rep m t -> t !! index hash m k = Some l -> find hash m k = Ok (first_key m k l).
Proof.
  intros HR Hl. pose proof (rep_chain _ _ HR _ _ Hl) as Hc. destruct (chain_head _ _ _ Hc) as (v & Hv & -> & _).
  pose proof (proj1 (bucket_NoDup _ _ _ (rep_nodup _ _ HR) Hl)) as Hd. pose proof (chain_length _ _ _ Hc Hd).
  unfold find, get_bucket. rewrite <- (rep_len _ _ HR), (proj2 (Nat.ltb_lt _ _)) by (by eapply index_lt).
  cbn [kassert mbind outcome_bind]. unfold head. cbn in Hv. rewrite Hv. cbn [deref mbind outcome_bind].
  apply (find_from_ok m k l (CHead (index hash m k))); [done | lia].
Qed.

Lemma first_key_None m k l : first_key m k l = None <-> forall n, n ∈ l -> key_of m n <> Some k.
Proof.
  unfold first_key. destruct (filter _ l) as [|x r] eqn:E; cbn.
  - split; [| done]. intros _ n Hn Hk. assert (n ∈ filter (fun n => key_of m n = Some k) l) as Hf by (by apply list_elem_of_filter).
    rewrite E in Hf. by apply elem_of_nil in Hf.
  - split; [done |]. intros Hall. assert (x ∈ filter (fun n => key_of m n = Some k) l) as Hf by (rewrite E; by left).
    apply list_elem_of_filter in Hf as [Hk Hx]. by apply Hall in Hk.
Qed.

Lemma first_key_Some m k l n : first_key m k l = Some n -> n ∈ l /\ key_of m n = Some k.
Proof.
  unfold first_key. intros Hf. assert (n ∈ filter (fun n => key_of m n = Some k) l) as Hin.
  { destruct (filter _ l); [done |]. injection Hf as ->. by left. }
  apply list_elem_of_filter in Hin. naive_solver.
Qed.

Lemma find_linked m t k : Rep m t -> exists r, find hash m k = Ok r /\
  match r with
  | Some n => linked t n /\ key_of m n = Some k
  | None => forall n, linked t n -> key_of m n <> Some k
  end.
Proof.
  intros HR. destruct (lookup_lt_is_Some_2 t (index hash m k)) as [l Hl]; [by apply index_lt |].
  exists (first_key m k l). split; [by eapply find_ok |]. destruct (first_key m k l) as [n|] eqn:E.
  - apply first_key_Some in E as [Hn Hk]. split; [| done]. apply linked_bucket. by exists (index hash m k), l.
  - intros n (b & l' & Hb & Hn)%linked_bucket Hk. pose proof (rep_keys _ _ HR _ _ _ _ Hb Hn Hk) as Hb'. subst b.
    rewrite Hl in Hb. injection Hb as <-. by apply (proj1 (first_key_None m k l) E n Hn).
Qed.

(** ** Mutations of a table *)

Lemma Rep_update m m' t b l l' : Rep m t -> t !! b = Some l -> (forall n, key_of m' n = key_of m n) ->
  length (heads m') = length (heads m) -> chain m' (CHead b) l' ->
  (forall b' l0, b' <> b -> t !! b' = Some l0 -> chain m' (CHead b') l0) ->
  NoDup (concat (<[b := l']> t)) -> (forall n k, n ∈ l' -> key_of m n = Some k -> index hash m k = b) ->
  Rep m' (<[b := l']> t).
Proof.
  intros HR Hb Hkeys Hlen Hc Hother Hnd Hk.
  assert (forall k', index hash m' k' = index hash m k') as Hidx by (intros; unfold index, bucket_count; by rewrite Hlen).
  split.
  - by rewrite length_insert, Hlen, (rep_len _ _ HR).
  - rewrite length_insert. apply (rep_pos _ _ HR).
  - intros b' l0 Hb'. destruct (decide (b' = b)) as [->|Hne].
    + rewrite list_lookup_insert_eq in Hb' by (by eapply lookup_lt_Some). by injection Hb' as <-.
    + rewrite list_lookup_insert_ne in Hb' by done. by apply Hother.
  - done.
  - intros b' l0 x k' Hb' Hx Hkx. rewrite Hidx. rewrite Hkeys in Hkx. destruct (decide (b' = b)) as [->|Hne].
    + rewrite list_lookup_insert_eq in Hb' by (by eapply lookup_lt_Some). injection Hb' as <-. by eapply Hk.
    + rewrite list_lookup_insert_ne in Hb' by done. by eapply (rep_keys _ _ HR).
Qed.

(** The nodes of the table after one bucket was replaced. *)
Lemma concat_update (t : list (list nat)) b l l' : t !! b = Some l ->
  exists r, concat t ≡ₚ l ++ r /\ concat (<[b := l']> t) ≡ₚ l' ++ r.
Proof.
  intros Hb. destruct (bucket_split _ _ _ Hb) as (t1 & t2 & -> & <-). exists (concat t1 ++ concat t2).
  rewrite insert_app_r_alt, Nat.sub_diag by lia. cbn. rewrite !concat_app. cbn.
  split; rewrite !app_assoc; f_equiv; apply Permutation_app_comm.
Qed.

Lemma insert_ok m t n k : Rep m t -> key_of m n = Some k -> ~ linked t n ->
  exists m' l, insert hash m n = Ok m' /\ t !! index hash m k = Some l /\
    Rep m' (<[index hash m k := n :: l]> t) /\ forall x, key_of m' x = key_of m x.
Proof.
  intros HR Hk Hn. destruct (lookup_lt_is_Some_2 t (index hash m k)) as [l Hl]; [by apply index_lt |].
  set (b := index hash m k) in *. pose proof (rep_chain _ _ HR _ _ Hl) as Hc.
  destruct (bucket_NoDup _ _ _ (rep_nodup _ _ HR) Hl) as [Hd Hdis].
  assert (n ∉ l) as Hnl by (intros Hin; apply Hn, linked_bucket; by exists b, l).
  assert (is_Some (hooks m !! n)) as Hh by (apply key_hook; by rewrite Hk).
  destruct (push_front_ok m b n l Hc Hd Hnl Hh) as (ss & Hp & Hc' & Hother).
  destruct (stores_inv m ss) as (Hkeys & Hlen & Hsize). pose proof Hh as [h Eh].
  assert (nkey h = k) as Ekey by (unfold key_of in Hk; rewrite Eh in Hk; by injection Hk).
  exists (do_stores m ss), l. split_and!; [| done | | done].
  - unfold insert, hook. rewrite Eh. cbn [deref mbind outcome_bind]. rewrite Ekey. fold b. unfold get_bucket.
    rewrite <- (rep_len _ _ HR), (proj2 (Nat.ltb_lt _ _)) by (by eapply index_lt).
    cbn [kassert mbind outcome_bind]. by rewrite Hp.
  - apply (Rep_update m _ t b l); try done.
    + intros b' l' Hne Hb'. apply Hother; [done | by apply (rep_chain _ _ HR) |].
      intros x [->|Hx]%elem_of_cons; [| exact (Hdis b' l' Hne Hb' x Hx)]. intros Hx. apply Hn, linked_bucket. by exists b', l'.
    + destruct (concat_update t b l (n :: l) Hl) as (r & E1 & E2). rewrite E2. cbn. constructor.
      * rewrite <- E1. exact Hn.
      * rewrite <- E1. apply (rep_nodup _ _ HR).
    + intros x k' [->|Hx]%elem_of_cons Hkx; [rewrite Hk in Hkx; by injection Hkx as <- | by eapply (rep_keys _ _ HR)].
Qed.

Lemma erase_table_ok m t n k : Rep m t -> linked t n -> key_of m n = Some k ->
  exists m' l1 l2, table_erase m n = Ok m' /\ t !! index hash m k = Some (l1 ++ n :: l2) /\ n ∉ l1 ++ l2 /\
    Rep m' (<[index hash m k := l1 ++ l2]> t) /\ forall x, key_of m' x = key_of m x.
Proof.
  intros HR (b & l & Hb & Hn)%linked_bucket Hk. pose proof (rep_keys _ _ HR _ _ _ _ Hb Hn Hk) as Hidx. subst b.
  set (b := index hash m k) in *. destruct (bucket_NoDup _ _ _ (rep_nodup _ _ HR) Hb) as [Hd Hdis].
  apply list_elem_of_split in Hn as (l1 & l2 & ->). pose proof (rep_chain _ _ HR _ _ Hb) as Hc.
  destruct (erase_ok m b l1 n l2 Hc Hd) as (ss & He & Hc' & _ & Hother).
  destruct (stores_inv m ss) as (Hkeys & Hlen & Hsize).
  exists (do_stores m ss), l1, l2. split_and!; [| done | | | done].
  - unfold table_erase. by rewrite He.
  - rewrite <- Permutation_middle in Hd. by apply NoDup_cons in Hd as [? _].
  - apply (Rep_update m _ t b (l1 ++ n :: l2)); try done.
    + intros b' l' Hne Hb'. apply Hother; [done | by apply (rep_chain _ _ HR) |].
      intros x Hx. exact (Hdis b' l' Hne Hb' x Hx).
    + destruct (concat_update t b _ (l1 ++ l2) Hb) as (r & E1 & E2). rewrite E2.
      pose proof (rep_nodup _ _ HR) as Hnd. rewrite E1, <- Permutation_middle in Hnd. cbn in Hnd. by apply NoDup_cons in Hnd as [_ ?].
    + intros x k' Hx Hkx. eapply (rep_keys _ _ HR); [exact Hb | | exact Hkx].
      apply elem_of_app in Hx as [Hx|Hx]; apply elem_of_app; [by left | right; by right].
Qed.

Lemma first_key_ext m m' k l : (forall x, key_of m' x = key_of m x) -> first_key m' k l = first_key m k l.
Proof. intros Hk. unfold first_key. f_equal. apply list_filter_iff. intros x. by rewrite Hk. Qed.

Lemma index_ext m m' k : length (heads m') = length (heads m) -> index hash m' k = index hash m k.
Proof. unfold index, bucket_count. by intros ->. Qed.

Lemma linked_perm t t' r l l' x : concat t ≡ₚ l ++ r -> concat t' ≡ₚ l' ++ r ->
  (linked t x <-> x ∈ l \/ x ∈ r) /\ (linked t' x <-> x ∈ l' \/ x ∈ r).
Proof. unfold linked. intros -> ->. by rewrite !elem_of_app. Qed.

(** Looking up another key, in a table where one bucket changed. *)
Lemma find_other m m' t b l l' k : Rep m t -> Rep m' (<[b := l']> t) -> t !! b = Some l ->
  (forall x, key_of m' x = key_of m x) ->
  (index hash m k = b -> first_key m k l' = first_key m k l) -> find hash m' k = find hash m k.
Proof.
  intros HR HR' Hb Hkeys Hsame.
  assert (length (heads m') = length (heads m)) as Hlen.
  { rewrite <- (rep_len _ _ HR), <- (rep_len _ _ HR'). apply length_insert. }
  destruct (lookup_lt_is_Some_2 t (index hash m k)) as [l0 Hl0]; [by apply index_lt |].
  rewrite (find_ok m t k l0 HR Hl0). destruct (decide (index hash m k = b)) as [E|Hne].
  - rewrite (find_ok m' _ k l' HR').
    + rewrite (first_key_ext m m'), Hsame by done. rewrite E, Hb in Hl0. by injection Hl0 as <-.
    + rewrite (index_ext m m') by done. rewrite E. apply list_lookup_insert_eq. by eapply lookup_lt_Some.
  - rewrite (find_ok m' _ k l0 HR').
    + by rewrite (first_key_ext m m').
    + rewrite (index_ext m m') by done. by rewrite list_lookup_insert_ne.
Qed.

(** Looking up a key in a table returns a node that is linked and has the
    key, and nothing only if no linked node has it. *)
Theorem find_correct m t k : Rep m t -> exists r, find hash m k = Ok r /\
  match r with
  | Some n => linked t n /\ key_of m n = Some k
  | None => forall n, linked t n -> key_of m n <> Some k
  end.
Proof. apply find_linked. Qed.

(** Inserting a node succeeds and keeps the table well formed: the node is
    linked in addition, it is the one found for its key, and the lookups of
    other keys do not change. *)
Theorem insert_correct m t n k : Rep m t -> key_of m n = Some k -> ~ linked t n ->
  exists m' t', insert hash m n = Ok m' /\ Rep m' t' /\ (forall x, linked t' x <-> x = n \/ linked t x) /\
    find hash m' k = Ok (Some n) /\ forall k', k' <> k -> find hash m' k' = find hash m k'.
Proof.
  intros HR Hk Hn. destruct (insert_ok m t n k HR Hk Hn) as (m' & l & Hi & Hl & HR' & Hkeys).
  exists m', (<[index hash m k := n :: l]> t). destruct (concat_update t _ l (n :: l) Hl) as (r & E1 & E2).
  split_and!; [done | done | | |].
  - intros x. destruct (linked_perm _ _ _ _ _ x E1 E2) as [-> ->]. rewrite elem_of_cons. naive_solver.
  - rewrite (find_ok m' _ k (n :: l) HR').
    + unfold first_key. by rewrite filter_cons, decide_True by (by rewrite Hkeys).
    + rewrite (index_ext m m'); [apply list_lookup_insert_eq; by eapply lookup_lt_Some |].
      rewrite <- (rep_len _ _ HR), <- (rep_len _ _ HR'). apply length_insert.
  - intros k' Hne. eapply find_other; [done | done | done | done |]. intros _.
    unfold first_key. rewrite filter_cons, decide_False; [done |]. rewrite Hk. congruence.
Qed.

(** Erasing a linked node succeeds and keeps the table well formed: exactly
    this node is unlinked, the lookups of other keys do not change, and its key
    is not found any more if it was the only one with it. *)
Theorem erase_correct m t n k : Rep m t -> linked t n -> key_of m n = Some k ->
  exists m' t', table_erase m n = Ok m' /\ Rep m' t' /\ (forall x, linked t' x <-> linked t x /\ x <> n) /\
    (forall k', k' <> k -> find hash m' k' = find hash m k') /\
    ((forall x, linked t x -> key_of m x = Some k -> x = n) -> find hash m' k = Ok None).
Proof.
  intros HR Hn Hk. destruct (erase_table_ok m t n k HR Hn Hk) as (m' & l1 & l2 & He & Hl & Hnl & HR' & Hkeys).
  exists m', (<[index hash m k := l1 ++ l2]> t). destruct (concat_update t _ _ (l1 ++ l2) Hl) as (r & E1 & E2).
  pose proof (rep_nodup _ _ HR) as Hnd. rewrite E1, <- Permutation_middle in Hnd. cbn in Hnd.
  apply NoDup_cons in Hnd as [Hnr _].
  assert (forall x, linked (<[index hash m k := l1 ++ l2]> t) x <-> linked t x /\ x <> n) as Hlinked.
  { intros x. destruct (linked_perm _ _ _ _ _ x E1 E2) as [-> ->]. rewrite !elem_of_app, elem_of_cons in *. naive_solver. }
  split_and!; [done | done | done | |].
  - intros k' Hne. eapply find_other; [done | done | done | done |]. intros _.
    unfold first_key. rewrite !filter_app, filter_cons, decide_False; [done |]. rewrite Hk. congruence.
  - intros Huniq. destruct (find_linked m' _ k HR') as ([x|] & -> & Hx); [| done].
    destruct Hx as [[Hx Hne]%Hlinked Hkx]. rewrite Hkeys in Hkx. by apply Huniq in Hkx.
Qed.
End Correct.
