(* ===== verification/RcuReader.v ===== *)
(** * A reader of an RCU list among concurrent writers

    Nodes are pushed and erased while a reader walks the bucket; erased nodes
    are neither reused nor freed before the reader is done (the grace period of
    DoRcu).  A node that is in the list from the beginning to the end of the
    walk is visited, and no node is visited twice. *)

From S2P Require Import Prelude.
From S2P Require Import RcuTable RcuCorrect.
Import Rcu.

(** ** The order of insertion *)

(** [x] was inserted after [y]; the list is in the order of insertion, newest
    first. *)
Definition newer (H : list nat) (x y : nat) : Prop := exists k1 k2, H = k1 ++ k2 /\ x ∈ k1 /\ y ∈ k2.

Lemma newer_trans H x y z : NoDup H -> newer H x y -> newer H y z -> newer H x z.
Proof.
  intros Hd (k1 & k2 & -> & Hx & Hy) (j1 & j2 & E & Hy' & Hz).
  apply app_eq_inv in E as [(l & -> & ->)|(l & -> & ->)].
  - apply NoDup_app in Hd as (_ & Hdis & _). exfalso. apply (Hdis y); [| done]. apply elem_of_app. by left.
  - exists (k1 ++ l), j2. split_and!; [by rewrite app_assoc | | done]. apply elem_of_app. by left.
Qed.

Lemma newer_irrefl H x : NoDup H -> ~ newer H x x.
Proof. intros Hd (k1 & k2 & -> & H1 & H2). apply NoDup_app in Hd as (_ & Hdis & _). by eapply Hdis. Qed.

Lemma newer_in H x y : newer H x y -> x ∈ H /\ y ∈ H.
Proof. intros (k1 & k2 & -> & Hx & Hy). rewrite !elem_of_app. auto. Qed.

Lemma newer_cons n H x y : newer H x y -> newer (n :: H) x y.
Proof. intros (k1 & k2 & -> & Hx & Hy). exists (n :: k1), k2. split_and!; [done | by right | done]. Qed.

Lemma newer_new n H y : y ∈ H -> newer (n :: H) n y.
Proof. intros Hy. exists [n], H. split_and!; [done | by left | done]. Qed.

Lemma newer_cons_inv n H x y : NoDup (n :: H) -> newer (n :: H) x y -> x <> n -> newer H x y.
Proof.
  intros Hd (k1 & k2 & E & Hx & Hy) Hne. destruct k1 as [|a k1]; [by apply elem_of_nil in Hx |].
  cbn in E. injection E as <- ->. exists k1, k2. split_and!; [done | | done]. by apply elem_of_cons in Hx as [->|?].
Qed.

Lemma newer_sublist H l1 l2 x y : l1 ++ l2 `sublist_of` H -> x ∈ l1 -> y ∈ l2 -> newer H x y.
Proof.
  intros (k1 & k2 & -> & S1 & S2)%sublist_app_l Hx Hy. exists k1, k2.
  split_and!; [done | by eapply elem_of_sublist | by eapply elem_of_sublist].
Qed.

Section Reader.
Context {K : Type} (b : nat).

(** The memory; every node ever inserted, and those in the list now, newest
    first; the reader: the node it is at, and those it has visited. *)
Record Sys := mkSys { smem : Mem K; hist : list nat; live : list nat; cur : option nat; seen : list nat }.

Inductive sys_step : Sys -> Sys -> Prop :=
| sys_insert s n ss : n ∉ hist s -> is_Some (hooks (smem s) !! n) -> push_front (smem s) b n = Ok ss ->
    sys_step s (mkSys (do_stores (smem s) ss) (n :: hist s) (n :: live s) (cur s) (seen s))
| sys_erase s l1 n l2 ss : live s = l1 ++ n :: l2 -> erase (smem s) n = Ok ss ->
    sys_step s (mkSys (do_stores (smem s) ss) (hist s) (l1 ++ l2) (cur s) (seen s))
| sys_read s y h : cur s = Some y -> hooks (smem s) !! y = Some h ->
    sys_step s (mkSys (smem s) (hist s) (live s) (next h) (y :: seen s)).

(** Every node ever inserted, erased ones included, leads to all nodes of the
    list that are older. *)
Definition leads (m : Mem K) (H L : list nat) (n : nat) : Prop := exists v,
  cell_val m (CNext n) = Some v /\ (forall y, v = Some y -> newer H n y) /\
  forall x, x ∈ L -> newer H n x -> exists y, v = Some y /\ (y = x \/ newer H y x).

Record LInv (m : Mem K) (H L : list nat) : Prop := {
  li_nodup : NoDup H;
  li_chain : chain m (CHead b) L;
  li_sub : L `sublist_of` H;
  li_leads : forall n, n ∈ H -> leads m H L n
}.

Lemma li_live_nodup m H L : LInv m H L -> NoDup L.
Proof. intros I. eapply sublist_NoDup; [apply (li_nodup _ _ _ I) | apply (li_sub _ _ _ I)]. Qed.

Lemma insert_LInv m H L n ss : LInv m H L -> n ∉ H -> is_Some (hooks m !! n) -> push_front m b n = Ok ss ->
  LInv (do_stores m ss) (n :: H) (n :: L).
Proof.
  intros I Hn Hk Hr. pose proof (li_chain _ _ _ I) as Hc. pose proof (li_live_nodup _ _ _ I) as Hd.
  pose proof (li_sub _ _ _ I) as Hsub.
  assert (n ∉ L) as HnL by (intros Hin; apply Hn; by eapply elem_of_sublist).
  assert (NoDup (n :: H)) as HdH by (constructor; [done | apply (li_nodup _ _ _ I)]).
  destruct (chain_head _ _ _ Hc) as (h & Hh & -> & _).
  destruct (push_front_view m b n (hd_error L) Hh Hk) as (ss' & Hr' & Hcv & _).
  { intros x Hx. eapply chain_hooks; [exact Hc |]. destruct L; [done |]. injection Hx as ->. by left. }
  destruct (push_front_ok m b n L Hc Hd HnL Hk) as (ss2 & Hr2 & Hc' & _).
  rewrite Hr in Hr', Hr2. injection Hr' as <-. injection Hr2 as <-.
  split; [done | done | by apply sublist_skip |]. intros q [->|Hq]%elem_of_cons.
  - exists (hd_error L). split_and!.
    + by rewrite Hcv, decide_False, decide_True.
    + intros y Hy. apply newer_new. eapply elem_of_sublist; [| exact Hsub]. destruct L; [done |]. injection Hy as ->. by left.
    + intros x [->|Hx]%elem_of_cons Hnx; [by apply newer_irrefl in Hnx |].
      destruct L as [|y L]; [by apply elem_of_nil in Hx |]. exists y. split; [done |].
      apply elem_of_cons in Hx as [->|Hx]; [by left | right]. apply newer_cons.
      apply (newer_sublist _ [y] L); [done | by left | done].
  - destruct (li_leads _ _ _ I q Hq) as (v & Hv & Hv1 & Hv2). exists v. split_and!.
    + rewrite Hcv, decide_False, decide_False by congruence. done.
    + intros y Hy. by apply newer_cons, Hv1.
    + intros x Hx Hqx. assert (q <> n) as Hne by congruence. apply newer_cons_inv in Hqx; [| done | done].
      apply elem_of_cons in Hx as [->|Hx]; [by apply newer_in in Hqx as [_ ?] |].
      destruct (Hv2 x Hx Hqx) as (y & -> & Hy). exists y. split; [done |].
      destruct Hy as [->|Hyx]; [by left | right; by apply newer_cons].
Qed.

Lemma erase_LInv m H l1 n l2 ss : LInv m H (l1 ++ n :: l2) -> erase m n = Ok ss ->
  LInv (do_stores m ss) H (l1 ++ l2).
Proof.
  intros I Hr. pose proof (li_chain _ _ _ I) as Hc. pose proof (li_live_nodup _ _ _ I) as Hd.
  pose proof (li_sub _ _ _ I) as Hsub. pose proof (li_nodup _ _ _ I) as HdH.
  destruct (erase_ok m b l1 n l2 Hc Hd) as (ss2 & Hr2 & Hc' & _).
  destruct (chain_split _ _ _ _ _ Hc) as (c1 & S1 & Hc1 & Hp & Hc2).
  destruct (chain_head _ _ _ Hc2) as (v & Hv & -> & _).
  destruct (erase_view m n c1 (hd_error l2) Hp Hv) as (ss' & Hr' & Hcv & _); [by rewrite Hc1 | |].
  { intros x Hx. eapply chain_hooks; [exact Hc2 |]. destruct l2; [done |]. injection Hx as ->. by left. }
  rewrite Hr in Hr', Hr2. injection Hr' as <-. injection Hr2 as <-.
  assert (n ∈ l1 ++ n :: l2) as HnL by (apply elem_of_app; right; by left).
  assert (n ∈ H) as HnH by (by eapply elem_of_sublist).
  assert (forall x, x ∈ l1 ++ l2 -> x ∈ l1 ++ n :: l2) as Hin.
  { intros x. rewrite !elem_of_app, elem_of_cons. naive_solver. }
  split; [done | done | |].
  - etransitivity; [| exact Hsub]. apply sublist_app; [done |]. by apply sublist_cons.
  - intros q Hq. destruct (li_leads _ _ _ I q Hq) as (w & Hw & Hw1 & Hw2).
    destruct (decide (CNext q = c1)) as [<-|Hne].
    + (* the predecessor of the erased node *)
      assert (w = Some n) as -> by congruence. pose proof (Hw1 n eq_refl) as Hqn.
      destruct (li_leads _ _ _ I n HnH) as (u & Hu & Hu1 & Hu2). exists u. split_and!.
      * rewrite Hcv, decide_True by done. congruence.
      * intros y Hy. by eapply newer_trans, Hu1.
      * intros x Hx Hqx. destruct (Hw2 x (Hin x Hx) Hqx) as (y & [= <-] & Hnx). apply Hu2; [by apply Hin |].
        destruct Hnx as [->|?]; [| done]. exfalso. apply NoDup_app in Hd as (_ & Hdis & [Hn2 _]%NoDup_cons).
        apply elem_of_app in Hx as [Hx|Hx]; [eapply Hdis; [exact Hx | by left] | done].
    + exists w. split_and!; [by rewrite Hcv, decide_False by done | done |]. intros x Hx. apply Hw2. by apply Hin.
Qed.

(** ** The reader *)

(** [x] is visited or still ahead of the reader, and the reader moves from newer
    to older nodes. *)
Definition ahead (s : Sys) (x : nat) : Prop :=
  x ∈ seen s \/ exists y, cur s = Some y /\ (y = x \/ newer (hist s) y x).
Definition in_order (s : Sys) : Prop :=
  NoDup (seen s) /\ (forall y, cur s = Some y -> y ∈ hist s) /\
  forall y z, cur s = Some y -> z ∈ seen s -> newer (hist s) z y.

Lemma step_LInv s s' : sys_step s s' -> LInv (smem s) (hist s) (live s) -> LInv (smem s') (hist s') (live s').
Proof.
  destruct 1 as [s n ss Hn Hk Hr|s l1 n l2 ss Hl Hr|s y h Hy Hh]; cbn [smem hist live]; intros I; [| | done].
  - by apply insert_LInv.
  - rewrite Hl in I. by eapply erase_LInv.
Qed.

(** An erased node does not come back. *)
Lemma step_gone s s' x : sys_step s s' -> LInv (smem s) (hist s) (live s) -> x ∈ hist s -> x ∈ live s' -> x ∈ live s.
Proof.
  destruct 1 as [s n ss Hn Hk Hr|s l1 n l2 ss Hl Hr|s y h Hy Hh]; cbn [hist live]; intros I Hx Hin; [| | done].
  - by apply elem_of_cons in Hin as [->|?].
  - rewrite Hl. apply elem_of_app in Hin as [?|?]; apply elem_of_app; [by left | right; by right].
Qed.

Lemma step_hist s s' x : sys_step s s' -> x ∈ hist s -> x ∈ hist s'.
Proof. destruct 1; cbn [hist]; [by right | done | done]. Qed.

Lemma step_ahead s s' x : sys_step s s' -> LInv (smem s) (hist s) (live s) -> in_order s -> x ∈ live s -> ahead s x ->
  ahead s' x.
Proof.
  intros Hstep I (_ & Hcur & _) Hx Ha.
  destruct Hstep as [s n ss Hn Hk Hr|s l1 n l2 ss Hl Hr|s y h Hy Hh]; unfold ahead; cbn [hist cur seen].
  - destruct Ha as [?|(y & Hy & Hyx)]; [by left | right]. exists y. split; [done |].
    destruct Hyx as [->|?]; [by left | right; by apply newer_cons].
  - exact Ha.
  - destruct Ha as [?|(y' & Hy' & Hyx)]; [left; by right |]. rewrite Hy in Hy'. injection Hy' as <-.
    destruct Hyx as [->|Hyx]; [left; by left |]. right.
    destruct (li_leads _ _ _ I y) as (v & Hv & _ & Hv2); [by apply Hcur |].
    destruct (Hv2 x Hx Hyx) as (z & -> & Hz). cbn in Hv. rewrite Hh in Hv. injection Hv as Hv. by exists z.
Qed.

Lemma step_order s s' : sys_step s s' -> LInv (smem s) (hist s) (live s) -> in_order s -> in_order s'.
Proof.
  intros Hstep I (Hnd & Hcur & Hord).
  destruct Hstep as [s n ss Hn Hk Hr|s l1 n l2 ss Hl Hr|s y h Hy Hh]; unfold in_order; cbn [hist cur seen].
  - split_and!; [done | intros y Hy; right; by apply Hcur | intros y z Hy Hz; by apply newer_cons, Hord].
  - done.
  - destruct (li_leads _ _ _ I y) as (v & Hv & Hv1 & _); [by apply Hcur |]. cbn in Hv. rewrite Hh in Hv. injection Hv as Hv.
    pose proof (li_nodup _ _ _ I) as HdH. split_and!.
    + constructor; [| done]. intros Hin. apply (newer_irrefl (hist s) y); [done |]. by apply Hord.
    + intros z Hz. apply (newer_in (hist s) y z). apply Hv1. congruence.
    + intros z x Hz [->|Hx]%elem_of_cons; [apply Hv1; congruence |].
      eapply newer_trans; [done | by apply Hord | apply Hv1; congruence].
Qed.

(** C25. A reader starts at the head of the bucket, while nodes are pushed and
    erased in between its steps.  When it is done it has visited every node that
    was in the list when it started and still is, and no node twice. *)
Theorem reader_misses_nothing s s' x : LInv (smem s) (hist s) (live s) -> cur s = hd_error (live s) -> seen s = [] ->
  rtc sys_step s s' -> cur s' = None -> x ∈ live s -> x ∈ live s' -> x ∈ seen s' /\ NoDup (seen s').
Proof.
  intros I Hcur Hseen Hrun Hend Hx Hx'.
  assert (ahead s x) as Ha.
  { right. destruct (live s) as [|y l] eqn:El; [by apply elem_of_nil in Hx |]. exists y. split; [done |].
    apply elem_of_cons in Hx as [->|Hx]; [by left | right]. pose proof (li_sub _ _ _ I) as Hs.
    apply (newer_sublist _ [y] l); [done | by left | done]. }
  assert (in_order s) as Ho.
  { unfold in_order. rewrite Hseen. split_and!; [constructor | | by intros y z _ ?%elem_of_nil].
    intros y Hy. eapply elem_of_sublist; [| apply (li_sub _ _ _ I)]. rewrite Hcur in Hy. destruct (live s); [done |].
    injection Hy as ->. by left. }
  assert (x ∈ hist s) as Hh by (eapply elem_of_sublist; [exact Hx | apply (li_sub _ _ _ I)]). clear Hcur Hseen Hx.
  assert (forall s1 s2, rtc sys_step s1 s2 -> LInv (smem s1) (hist s1) (live s1) -> x ∈ hist s1 -> x ∈ live s2 -> x ∈ live s1) as Hback.
  { induction 1 as [|a c d Hst _ IH]; [done |]. intros Ia Hxa Hxd. eapply step_gone; [done | done | done |].
    apply IH; [by eapply step_LInv | by eapply step_hist | done]. }
  induction Hrun as [s|s1 s2 s3 Hst Hrun IH].
  - destruct Ha as [?|(y & Hy & _)]; [split; [done | apply Ho] | congruence].
  - assert (x ∈ live s1) as Hl by (eapply Hback; [by eapply rtc_l | done | done | done]).
    apply IH; first [done | by eapply step_LInv | by eapply step_ahead | by eapply step_order | by eapply step_hist].
Qed.
End Reader.

(** ** A concrete table *)

Module Example.
Definition hs : gmap nat (Hook Z) :=
  list_to_map [(1%nat, mkHook None None 10); (2%nat, mkHook None None 11); (3%nat, mkHook None None 12)].
Definition m0 : Mem Z := mkMem (replicate 2 None) hs.
Definition get (r : outcome (Mem Z)) : Mem Z := match r with Ok m => m | Fail _ => m0 end.
(** Nodes 1 and 2 inserted. *)
Definition m1 : Mem Z := get (insert id m0 1).
Definition m2 : Mem Z := get (insert id m1 2).

Lemma m0_rep : Rep id m0 [[]; []].
Proof. apply (empty_Rep id hs 2). lia. Qed.

Lemma step_rep m t n k m' : Rep id m t -> key_of m n = Some k -> ~ linked t n -> insert id m n = Ok m' ->
  exists l, t !! index id m k = Some l /\ Rep id m' (<[index id m k := n :: l]> t).
Proof.
  intros HR Hk Hn Hi. destruct (insert_ok id m t n k HR Hk Hn) as (m1 & l & Hi' & Hl & HR' & _).
  rewrite Hi in Hi'. injection Hi' as <-. by exists l.
Qed.

Lemma not_linked t n : bool_decide (n ∈ concat t) = false -> ~ linked t n.
Proof. by intros ?%bool_decide_eq_false. Qed.

Lemma m1_rep : Rep id m1 [[1%nat]; []].
Proof.
  destruct (step_rep m0 [[]; []] 1 10 m1) as (l & [= <-] & HR);
    [apply m0_rep | done | by apply not_linked | by vm_compute | exact HR].
Qed.
Lemma m2_rep : Rep id m2 [[1%nat]; [2%nat]].
Proof.
  destruct (step_rep m1 [[1%nat]; []] 2 11 m2) as (l & [= <-] & HR);
    [apply m1_rep | done | by apply not_linked | by vm_compute | exact HR].
Qed.

Lemma find_correct_witness : exists r, find id m2 11 = Ok r /\
  match r with
  | Some n => linked [[1%nat]; [2%nat]] n /\ key_of m2 n = Some 11
  | None => forall n, linked [[1%nat]; [2%nat]] n -> key_of m2 n <> Some 11
  end.
Proof. apply (find_correct id m2 [[1%nat]; [2%nat]] 11 m2_rep). Defined.

Lemma insert_correct_witness : exists m' t', insert id m2 3 = Ok m' /\ Rep id m' t' /\
  find id m' 12 = Ok (Some 3%nat) /\ find id m' 10 = find id m2 10.
Proof.
  destruct (insert_correct id m2 [[1%nat]; [2%nat]] 3 12 m2_rep) as (m' & t' & H1 & H2 & _ & H4 & H5);
    [by vm_compute | by apply not_linked |].
  exists m', t'. split_and!; [exact H1 | exact H2 | exact H4 | by apply H5].
Defined.

Lemma erase_correct_witness : exists m' t', table_erase m2 1 = Ok m' /\ Rep id m' t' /\ find id m' 11 = find id m2 11.
Proof.
  destruct (erase_correct id m2 [[1%nat]; [2%nat]] 1 10 m2_rep) as (m' & t' & H1 & H2 & _ & H4 & _);
    [unfold linked; by left | by vm_compute |].
  exists m', t'. split_and!; [exact H1 | exact H2 | by apply H4].
Defined.

Lemma m2_chain : chain m2 (CHead 0) [1%nat].
Proof. by apply (rep_chain _ _ _ m2_rep). Qed.

Lemma push_front_atomic_witness : exists ss, push_front m2 0 3 = Ok ss /\
  (sees (do_stores m2 (take 2 ss)) (CHead 0) [1%nat] \/ sees (do_stores m2 (take 2 ss)) (CHead 0) [3%nat; 1%nat]).
Proof.
  destruct (push_front m2 0 3) as [ss|] eqn:E; [| by vm_compute in E]. exists ss. split; [done |].
  apply (push_front_atomic m2 0 3 [1%nat] ss (take 2 ss) (drop 2 ss) m2_chain).
  - repeat constructor. by intros ?%elem_of_nil.
  - by intros ?%list_elem_of_singleton.
  - vm_compute; by eexists.
  - exact E.
  - by rewrite take_drop.
Defined.

Lemma erase_atomic_witness : exists ss, erase m2 1 = Ok ss /\
  (sees (do_stores m2 (take 1 ss)) (CHead 0) ([] ++ [1%nat]) \/ sees (do_stores m2 (take 1 ss)) (CHead 0) []) /\
  sees (do_stores m2 (take 1 ss)) (CNext 1) [].
Proof.
  destruct (erase m2 1) as [ss|] eqn:E; [| by vm_compute in E]. exists ss. split; [done |].
  apply (erase_atomic m2 0 [] 1 [] ss (take 1 ss) (drop 1 ss) m2_chain).
  - repeat constructor. by intros ?%elem_of_nil.
  - exact E.
  - by rewrite take_drop.
Defined.

(** The reader is at node 1 when node 3 is pushed in front of it. *)
Definition s0 : Sys := mkSys m2 [1%nat] [1%nat] (Some 1%nat) [].
Definition s1 : Sys := mkSys (get (insert id m2 3)) [3%nat; 1%nat] [3%nat; 1%nat] (Some 1%nat) [].
Definition s2 : Sys := mkSys (get (insert id m2 3)) [3%nat; 1%nat] [3%nat; 1%nat] None [1%nat].

Lemma s0_inv : LInv 0 (smem s0) (hist s0) (live s0).
Proof.
  split; [repeat constructor; by intros ?%elem_of_nil | exact m2_chain | done |].
  intros n ->%list_elem_of_singleton. exists None. split_and!; [by vm_compute | done |].
  intros x ->%list_elem_of_singleton Hn. apply newer_irrefl in Hn; [done |]. repeat constructor. by intros ?%elem_of_nil.
Qed.

Lemma reader_misses_nothing_witness : 1%nat ∈ seen s2 /\ NoDup (seen s2).
Proof.
  apply (reader_misses_nothing 0 s0 s2 1 s0_inv); [done | done | | done | by left | right; by left].
  apply (rtc_l _ _ s1).
  - destruct (push_front m2 0 3) as [ss|] eqn:E; [| by vm_compute in E].
    replace s1 with (mkSys (do_stores m2 ss) (3%nat :: hist s0) (3%nat :: live s0) (cur s0) (seen s0)).
    + apply (sys_insert 0 s0 3 ss); [by intros ?%list_elem_of_singleton | vm_compute; by eexists | exact E].
    + unfold s1. f_equal. vm_compute in E. injection E as <-. by vm_compute.
  - apply rtc_once. replace s2 with (mkSys (smem s1) (hist s1) (live s1) None [1%nat]) by done.
    by apply (sys_read 0 s1 1 (mkHook None (Some (CNext 3)) 10)); vm_compute.
Defined.
End Example.
