(* ===== verification/PcbTable.v ===== *)
(** * Tables of protocol control blocks

    What the network manager relies on from the tables it looks up packets in, as
    an interface, and the proof that the RCU hash table provides it.  The contents
    of a table are its nodes with their keys, last inserted first; the table does
    not refuse a second node with the same key, and finds the newer one. *)

From S2P Require Import Prelude.
From S2P Require Import RcuTable RcuCorrect.

Definition nodes_with {K} `{EqDecision K} (k : K) (l : list (nat * K)) : list nat := fst <$> filter (fun p => p.2 = k) l.

Lemma filter_ext_on {A} (P Q : A -> Prop) `{!forall x, Decision (P x), !forall x, Decision (Q x)} (l : list A) :
  (forall x, x ∈ l -> P x <-> Q x) -> filter P l = filter Q l.
Proof.
  induction l as [|x l IH]; intros Hall; [done |]. rewrite !filter_cons.
  pose proof (Hall x ltac:(by left)). rewrite IH by (intros y Hy; apply Hall; by right). repeat case_decide; tauto || done.
Qed.
Lemma filter_all_on {A} (P : A -> Prop) `{!forall x, Decision (P x)} (l : list A) : (forall x, x ∈ l -> P x) -> filter P l = l.
Proof.
  induction l as [|x l IH]; intros Hall; [done |]. rewrite filter_cons, decide_True by (apply Hall; by left).
  f_equal. apply IH. intros y Hy. apply Hall. by right.
Qed.

(** The only node with a key. *)
Lemma nodes_with_unique {K} `{EqDecision K} (l : list (nat * K)) pcb port : NoDup l.*2 -> (pcb, port) ∈ l -> nodes_with port l = [pcb].
Proof.
  intros Hnd (l1 & l2 & ->)%list_elem_of_split. rewrite fmap_app, fmap_cons, <- Permutation_middle in Hnd. cbn [snd] in Hnd.
  apply NoDup_cons in Hnd as [Hn _]. rewrite <- fmap_app in Hn. unfold nodes_with. rewrite filter_app, filter_cons, decide_True by done.
  assert (forall l0, (forall p, p ∈ l0 -> p ∈ l1 ++ l2) -> filter (fun p : nat * K => p.2 = port) l0 = []) as Hnone.
  { intros l0 Hl0. destruct (filter _ l0) as [|p l'] eqn:E; [done |]. assert (p ∈ filter (fun p : nat * K => p.2 = port) l0) as Hp by (rewrite E; by left).
    apply list_elem_of_filter in Hp as [<- Hp]. destruct Hn. apply list_elem_of_fmap. exists p. auto. }
  rewrite !Hnone; [done | |]; intros p Hp; apply elem_of_app; auto.
Qed.

(** ** The interface *)

Class Table (K : Type) `{EqDecision K} := {
  table : Type;
  holds : table -> list (nat * K) -> Prop;
  t_new : Z -> table;
  t_find : table -> K -> outcome (option nat);
  (* the key of a node is set, and the node is inserted *)
  t_insert : table -> nat -> K -> outcome table;
  t_erase : table -> nat -> outcome table;
  t_new_spec : forall shift, 0 <= shift -> holds (t_new shift) [];
  t_find_spec : forall t l k, holds t l -> t_find t k = Ok (hd_error (nodes_with k l));
  t_insert_spec : forall t l n k, holds t l -> n ∉ l.*1 -> exists t', t_insert t n k = Ok t' /\ holds t' ((n, k) :: l);
  t_erase_spec : forall t l n, holds t l -> n ∈ l.*1 -> exists t', t_erase t n = Ok t' /\ holds t' (filter (fun p => p.1 <> n) l)
}.

(** ** The RCU hash table *)

Module RcuImpl.
Import Rcu.
Section Impl.
Context {K : Type} `{EqDecision K} (hash : K -> Z).
Implicit Type m : Mem K.

(** The key of a node is a field of the object that the hook is part of. *)
Definition set_key m (n : nat) (k : K) : Mem K :=
  mkMem (heads m) (<[n := match hooks m !! n with Some h => mkHook (next h) (pprev h) k | None => mkHook None None k end]> (hooks m)).

Definition rep m (l : list (nat * K)) : Prop := NoDup l.*1 /\ exists t, Rep hash m t /\ (forall n, linked t n <-> n ∈ l.*1) /\
  (forall n k, (n, k) ∈ l -> key_of m n = Some k) /\
  forall k b, t !! index hash m k = Some b -> filter (fun n => key_of m n = Some k) b = nodes_with k l.

Lemma new_rep shift : 0 <= shift -> rep (create shift) [].
Proof.
  intros Hs. split; [constructor |]. set (n := Z.to_nat (Z.shiftl 1 shift)).
  assert (0 < n)%nat as Hn by (unfold n; rewrite Z.shiftl_1_l; pose proof (Z.pow_pos_nonneg 2 shift); lia).
  exists (replicate n []). split; [by apply empty_Rep |]. split_and!.
  - intros x. rewrite linked_bucket. split; [| by intros ?%elem_of_nil]. by intros (b & l & [-> _]%lookup_replicate & ?%elem_of_nil).
  - by intros x k ?%elem_of_nil.
  - by intros k b [-> _]%lookup_replicate.
Qed.

Lemma find_rep m l k : rep m l -> find hash m k = Ok (hd_error (nodes_with k l)).
Proof.
  intros (_ & t & HR & _ & _ & Hb). destruct (lookup_lt_is_Some_2 t (index hash m k)) as [b Eb]; [by apply index_lt |].
  rewrite (find_ok hash m t k b HR Eb). unfold first_key. by rewrite (Hb k b Eb).
Qed.

(** Setting the key of a node that is not in the table. *)
Lemma set_key_other m n k x : x <> n -> key_of (set_key m n k) x = key_of m x.
Proof. intros Hx. unfold key_of, set_key. cbn [hooks]. by rewrite lookup_insert_ne. Qed.
Lemma set_key_same m n k : key_of (set_key m n k) n = Some k.
Proof. unfold key_of, set_key. cbn [hooks]. rewrite lookup_insert_eq. by destruct (hooks m !! n). Qed.

Lemma set_key_Rep m t n k : Rep hash m t -> ~ linked t n -> Rep hash (set_key m n k) t.
Proof.
  intros [H1 H2 H3 H4 H5] Hn. assert (forall b l, t !! b = Some l -> n ∉ l) as Hnl.
  { intros b l Hb Hin. apply Hn, linked_bucket. by exists b, l. }
  split; try done.
  - intros b l Hb. apply (chain_frame m); [by apply H3 | |].
    + intros x [->|(y & Hy & ->)]; [done |]. cbn [cell_val set_key hooks]. rewrite lookup_insert_ne; [done |].
      intros ->. by apply (Hnl b l Hb).
    + intros y Hy. unfold pp. cbn [set_key hooks]. rewrite lookup_insert_ne; [done |]. intros ->. by apply (Hnl b l Hb).
  - intros b l x k' Hb Hx Hk. rewrite set_key_other in Hk by (intros ->; by apply (Hnl b l Hb)). exact (H5 b l x k' Hb Hx Hk).
Qed.

Lemma nodes_with_cons k n k' (l : list (nat * K)) : nodes_with k ((n, k') :: l) = if decide (k' = k) then n :: nodes_with k l else nodes_with k l.
Proof. unfold nodes_with. rewrite filter_cons. cbn [snd]. by case_decide. Qed.

Lemma insert_rep m l n k : rep m l -> n ∉ l.*1 -> exists m', insert hash (set_key m n k) n = Ok m' /\ rep m' ((n, k) :: l).
Proof.
  intros (Hd & t & HR & Hl & Hk & Hb) Hn. assert (~ linked t n) as Hnl by (by rewrite Hl).
  set (m0 := set_key m n k). assert (Rep hash m0 t) as HR0 by (by apply set_key_Rep).
  destruct (insert_ok hash m0 t n k HR0) as (m' & b & Hi & Hbk & HR' & Hkeys); [apply set_key_same | done |].
  exists m'. split; [done |]. split; [by apply NoDup_cons |]. eexists. split; [exact HR' |].
  destruct (concat_update t _ b (n :: b) Hbk) as (r & E1 & E2).
  assert (forall x, x ∈ l.*1 -> key_of m' x = key_of m x) as Hold by (intros x Hx; rewrite Hkeys; apply set_key_other; by intros ->).
  split_and!.
  - intros x. destruct (linked_perm _ _ _ _ _ x E1 E2) as [Ho ->]. rewrite fmap_cons, !elem_of_cons, <- Hl, Ho. cbn. tauto.
  - intros x k' [[= -> ->]|Hx]%elem_of_cons; [by rewrite Hkeys; apply set_key_same |]. rewrite Hold; [by apply Hk |].
    apply list_elem_of_fmap. by exists (x, k').
  - intros k' b' Hb'. assert (index hash m' k' = index hash m k') as Ei.
    { apply index_ext. rewrite <- (rep_len _ _ _ HR'), <- (rep_len _ _ _ HR). apply length_insert. }
    change (index hash m0 k) with (index hash m k) in *. rewrite Ei in Hb'. rewrite nodes_with_cons.
    assert (forall (b0 : list nat) i, t !! i = Some b0 -> filter (fun x => key_of m' x = Some k') b0 = filter (fun x => key_of m x = Some k') b0) as Hf.
    { intros b0 i Hi0. apply filter_ext_on. intros x Hx. rewrite Hold; [done |]. apply Hl, linked_bucket. by exists i, b0. }
    destruct (decide (index hash m k' = index hash m k)) as [Ek|Hne].
    + rewrite Ek, list_lookup_insert_eq in Hb' by (by eapply lookup_lt_Some). injection Hb' as <-.
      assert (key_of m' n = Some k) as Hkn by (rewrite Hkeys; apply set_key_same). rewrite filter_cons.
      rewrite <- Ek in Hbk. rewrite (Hf b _ Hbk), (Hb k' b Hbk). repeat case_decide; congruence.
    + rewrite list_lookup_insert_ne in Hb' by done. rewrite (Hf b' _ Hb'), (Hb k' b' Hb'). rewrite decide_False by congruence. done.
Qed.

Lemma erase_rep m l n : rep m l -> n ∈ l.*1 -> exists m', table_erase m n = Ok m' /\ rep m' (filter (fun p => p.1 <> n) l).
Proof.
  intros (Hd & t & HR & Hl & Hk & Hb) ([n' k] & -> & Hin)%list_elem_of_fmap. cbn [fst]. rename n' into n.
  destruct (erase_table_ok hash m t n k HR) as (m' & l1 & l2 & He & Hbk & Hnl & HR' & Hkeys); [| by apply Hk |].
  { apply Hl, list_elem_of_fmap. by exists (n, k). }
  exists m'. split; [done |]. split.
  { eapply sublist_NoDup; [exact Hd |]. apply fmap_sublist, sublist_filter. }
  eexists. split; [exact HR' |]. destruct (concat_update t _ _ (l1 ++ l2) Hbk) as (r & E1 & E2).
  pose proof (rep_nodup _ _ _ HR) as Hnd. rewrite E1, <- Permutation_middle in Hnd. cbn in Hnd. apply NoDup_cons in Hnd as [Hnr _].
  split_and!.
  - intros x. destruct (linked_perm _ _ _ _ _ x E1 E2) as [Ho ->].
    assert (x ∈ (filter (fun p => p.1 <> n) l).*1 <-> x ∈ l.*1 /\ x <> n) as ->.
    { rewrite !list_elem_of_fmap. setoid_rewrite list_elem_of_filter. split.
      - intros ([y ky] & -> & Hy & Hyl). cbn in *. split; [by exists (y, ky) | done].
      - intros (([y ky] & -> & Hyl) & Hne). exists (y, ky). by cbn in *. }
    rewrite <- Hl, Ho. rewrite !elem_of_app, elem_of_cons in *. naive_solver.
  - intros x k' [_ Hx]%list_elem_of_filter. rewrite Hkeys. by apply Hk.
  - intros k' b' Hb'. assert (index hash m' k' = index hash m k') as Ei.
    { apply index_ext. rewrite <- (rep_len _ _ _ HR'), <- (rep_len _ _ _ HR). apply length_insert. }
    rewrite Ei in Hb'. assert (forall b0 : list nat, filter (fun x => key_of m' x = Some k') b0 = filter (fun x => key_of m x = Some k') b0) as Hf.
    { intros b0. apply list_filter_iff. intros x. by rewrite Hkeys. }
    rewrite Hf. unfold nodes_with.
    assert (nodes_with k' (filter (fun p : nat * K => p.1 <> n) l) = filter (fun x => x <> n) (nodes_with k' l)) as Hcomm.
    { clear. induction l as [|[x kx] l IH]; [done |]. rewrite nodes_with_cons, filter_cons. cbn [fst].
      destruct (decide (x <> n)) as [Hx|Hx].
      - rewrite nodes_with_cons. case_decide; [| exact IH]. by rewrite filter_cons, decide_True, IH.
      - case_decide; [| exact IH]. by rewrite filter_cons, decide_False. }
    fold (nodes_with k' (filter (fun p : nat * K => p.1 <> n) l)). rewrite Hcomm.
    destruct (decide (index hash m k' = index hash m k)) as [Ek|Hne].
    + rewrite Ek, list_lookup_insert_eq in Hb' by (by eapply lookup_lt_Some). injection Hb' as <-.
      rewrite <- Ek in Hbk. rewrite <- (Hb k' _ Hbk), !filter_app, filter_cons.
      assert (forall l0 : list nat, n ∉ l0 -> filter (fun x => x <> n) (filter (fun x => key_of m x = Some k') l0) = filter (fun x => key_of m x = Some k') l0) as Hid.
      { intros l0 Hl0. apply filter_all_on. intros x [_ Hx]%list_elem_of_filter ->. done. }
      apply not_elem_of_app in Hnl as [Hn1 Hn2]. rewrite ?filter_app, (Hid l1 Hn1). f_equal.
      case_decide; [rewrite filter_cons, decide_False by (intros ?; done) |]; by rewrite Hid.
    + rewrite list_lookup_insert_ne in Hb' by done. rewrite (Hb k' b' Hb'). symmetry. apply filter_all_on.
      intros x Hx ->. rewrite <- (Hb k' b' Hb') in Hx. apply list_elem_of_filter in Hx as [Hkx _]. rewrite (Hk n k Hin) in Hkx.
      injection Hkx as ->. done.
Qed.

(** The hash table provides the interface. *)
Definition rcu_Table : Table K := {|
  table := Mem K; holds := rep; t_new := create; t_find := find hash;
  t_insert m n k := insert hash (set_key m n k) n; t_erase := table_erase;
  t_new_spec := new_rep; t_find_spec := find_rep; t_insert_spec := insert_rep; t_erase_spec := erase_rep
|}.
End Impl.
End RcuImpl.
