(* ===== verification/PortPool.v ===== *)
(** * A pool of numbers shared by all cores

    Models src/src/native/SharedPoolAllocator.h, which hands out the ephemeral
    UDP and TCP ports.  The interval set of Boost.ICL is an interface with its
    documented behaviour; every operation holds the lock of the pool. *)

From S2P Require Import Prelude.

(** boost::icl::interval_set, over right-open intervals. *)
Class IntervalSet := {
  iset : Type;
  iempty : iset;
  add_interval : Z -> Z -> iset -> iset;
  add_elem : Z -> iset -> iset;
  sub_elem : Z -> iset -> iset;
  contains : iset -> Z -> bool;
  iset_is_empty : iset -> bool;
  lower : iset -> Z;
  iempty_spec : forall x, contains iempty x = false;
  add_interval_spec : forall b e s x, contains (add_interval b e s) x = contains s x || ((b <=? x) && (x <? e));
  add_elem_spec : forall v s x, contains (add_elem v s) x = contains s x || (x =? v);
  sub_elem_spec : forall v s x, contains (sub_elem v s) x = contains s x && negb (x =? v);
  iset_is_empty_spec : forall s, iset_is_empty s = true <-> forall x, contains s x = false;
  lower_spec : forall s, iset_is_empty s = false -> contains s (lower s) = true /\ forall x, contains s x = true -> lower s <= x
}.

Section Pool.
Context `{IntervalSet}.

(** SharedPoolAllocator(begin, end). *)
Definition pool_Create (begin_ end_ : Z) : iset := add_interval begin_ end_ iempty.

Definition Allocate (set_ : iset) : option Z * iset :=
  if iset_is_empty set_ then (None, set_)
  else let ret := lower set_ in (Some ret, sub_elem ret set_).

Definition Reserve (val : Z) (set_ : iset) : bool * iset :=
  if contains set_ val then (true, sub_elem val set_) else (false, set_).

Definition Free (val : Z) (set_ : iset) : iset := add_elem val set_.

(** ** The pool and what it has handed out *)

(** The pool, with the numbers that are in use. *)
Inductive pool_step : iset * list Z -> iset * list Z -> Prop :=
| ps_allocate s out v s' : Allocate s = (Some v, s') -> pool_step (s, out) (s', v :: out)
| ps_reserve s out v s' : Reserve v s = (true, s') -> pool_step (s, out) (s', v :: out)
| ps_refuse s out v s' : Reserve v s = (false, s') -> pool_step (s, out) (s', out)
| ps_exhausted s out s' : Allocate s = (None, s') -> pool_step (s, out) (s', out)
| ps_free s l1 v l2 : pool_step (s, l1 ++ v :: l2) (Free v s, l1 ++ l2).

Definition pool_inv (begin_ end_ : Z) (p : iset * list Z) : Prop :=
  NoDup p.2 /\ (forall x, x ∈ p.2 -> begin_ <= x < end_) /\
  forall x, contains p.1 x = true <-> begin_ <= x < end_ /\ x ∉ p.2.

Lemma Allocate_inv b e s out v s' : pool_inv b e (s, out) -> Allocate s = (Some v, s') ->
  contains s v = true /\ pool_inv b e (s', v :: out) /\ forall x, contains s x = true -> v <= x.
Proof.
  intros (Hd & Hr & Hs) Ha. unfold Allocate in Ha. destruct (iset_is_empty s) eqn:E; [discriminate Ha |].
  injection Ha as <- <-. destruct (lower_spec s E) as [Hl Hmin]. split_and!; [done | | done].
  pose proof (proj1 (Hs _) Hl) as [Hlr Hlo]. cbn [fst snd] in *.
  split_and!; cbn [fst snd].
  - by constructor.
  - intros x [->|Hx]%elem_of_cons; [done | by apply Hr].
  - intros x. rewrite sub_elem_spec, andb_true_iff, Hs, negb_true_iff, Z.eqb_neq, not_elem_of_cons. tauto.
Qed.

Lemma Reserve_inv b e s out v s' : pool_inv b e (s, out) -> Reserve v s = (true, s') -> pool_inv b e (s', v :: out).
Proof.
  intros (Hd & Hr & Hs) Ha. unfold Reserve in Ha. destruct (contains s v) eqn:E; [| discriminate Ha].
  injection Ha as <-. pose proof (proj1 (Hs _) E) as [Hlr Hlo]. cbn [fst snd] in *.
  split_and!; cbn [fst snd].
  - by constructor.
  - intros x [->|Hx]%elem_of_cons; [done | by apply Hr].
  - intros x. rewrite sub_elem_spec, andb_true_iff, Hs, negb_true_iff, Z.eqb_neq, not_elem_of_cons. tauto.
Qed.

Lemma pool_step_inv b e p p' : pool_step p p' -> pool_inv b e p -> pool_inv b e p'.
Proof.
  destruct 1 as [s out v s' Ha|s out v s' Ha|s out v s' Ha|s out s' Ha|s l1 v l2]; intros I.
  - by eapply Allocate_inv.
  - by eapply Reserve_inv.
  - unfold Reserve in Ha. destruct (contains s v); [discriminate Ha |]. by injection Ha as <-.
  - unfold Allocate in Ha. destruct (iset_is_empty s); [by injection Ha as <- | discriminate Ha].
  - destruct I as (Hd & Hr & Hs). cbn [fst snd] in *.
    assert (v ∉ l1 ++ l2 /\ NoDup (l1 ++ l2)) as [Hv Hd'].
    { rewrite <- Permutation_middle in Hd. by apply NoDup_cons in Hd. }
    assert (b <= v < e) as Hvr by (apply Hr, elem_of_app; right; by left).
    split_and!; cbn [fst snd]; [done | |].
    + intros x Hx. apply Hr. apply elem_of_app in Hx as [?|?]; apply elem_of_app; [by left | right; by right].
    + intros x. unfold Free. rewrite add_elem_spec, orb_true_iff, Hs, Z.eqb_eq, !elem_of_app, elem_of_cons.
      rewrite elem_of_app in Hv. split; [intros [(? & ?)| ->]; tauto |].
      intros [? ?]. destruct (decide (x = v)) as [->|]; [by right | left; tauto].
Qed.

Lemma pool_Create_inv b e : pool_inv b e (pool_Create b e, []).
Proof.
  split_and!; cbn [fst snd]; [constructor | by intros x ?%elem_of_nil |]. intros x. unfold pool_Create.
  rewrite add_interval_spec, iempty_spec. cbn [orb]. rewrite andb_true_iff, Z.leb_le, Z.ltb_lt.
  split; [intros; split; [done | apply not_elem_of_nil] | tauto].
Qed.

(** From a new pool of [begin, end), over any sequence of allocations,
    reservations and releases of what is in use, no number is in use twice, all
    are in the range, and the pool offers exactly the others: an allocation
    fails only when the whole range is in use. *)
Theorem pool_exclusive b e s out : rtc pool_step (pool_Create b e, []) (s, out) ->
  NoDup out /\ (forall x, x ∈ out -> b <= x < e) /\
  (forall x, (Reserve x s).1 = true <-> b <= x < e /\ x ∉ out) /\
  ((Allocate s).1 = None -> forall x, b <= x < e -> x ∈ out).
Proof.
  intros Hrun. pose proof (pool_Create_inv b e) as I0.
  assert (pool_inv b e (s, out)) as (Hd & Hr & Hs).
  { remember (pool_Create b e, []) as p eqn:E. clear E. remember (s, out) as p' eqn:E. clear E.
    induction Hrun; [done |]. eauto using pool_step_inv. }
  cbn [fst snd] in *. split_and!; [done | done | |].
  - intros x. rewrite <- Hs. unfold Reserve. by destruct (contains s x).
  - unfold Allocate. destruct (iset_is_empty s) eqn:E; [| done]. intros _ x Hx. pose proof (proj1 (iset_is_empty_spec s) E x) as Hn.
    destruct (decide (x ∈ out)); [done |]. rewrite (proj2 (Hs x)) in Hn; done.
Qed.
End Pool.

(** ** A concrete interval set *)

Definition gset_lower (s : gset Z) : Z := match elements s with [] => 0 | x :: l => foldr Z.min x l end.

Lemma foldr_min x l : foldr Z.min x l ∈ x :: l /\ forall y, y ∈ x :: l -> foldr Z.min x l <= y.
Proof.
  induction l as [|z l [IH1 IH2]]; cbn; [split; [by left |]; intros y ->%list_elem_of_singleton; done |]. split.
  - destruct (Z.min_spec z (foldr Z.min x l)) as [[_ ->]|[_ ->]]; [right; by left |].
    apply elem_of_cons in IH1 as [->|?]; [by left | right; by right].
  - intros y [->|[->|Hy]%elem_of_cons]%elem_of_cons.
    + etransitivity; [apply Z.le_min_r | apply IH2; by left].
    + apply Z.le_min_l.
    + etransitivity; [apply Z.le_min_r | apply IH2; by right].
Qed.

Program Definition gset_IntervalSet : IntervalSet := {|
  iset := gset Z; iempty := ∅;
  add_interval b e s := s ∪ list_to_set (seqZ b (e - b));
  add_elem v s := s ∪ {[v]}; sub_elem v s := s ∖ {[v]};
  contains s x := bool_decide (x ∈ s); iset_is_empty s := bool_decide (s = ∅); lower := gset_lower
|}.
Next Obligation. intros x. by apply bool_decide_eq_false. Qed.
Next Obligation.
  intros b e s x. cbn. apply eq_bool_prop_intro. rewrite orb_True, andb_True, !Is_true_true, !bool_decide_eq_true, Z.leb_le, Z.ltb_lt.
  rewrite elem_of_union, elem_of_list_to_set, elem_of_seqZ. split; intros [?|?]; (by left) || (right; lia).
Qed.
Next Obligation.
  intros v s x. cbn. apply eq_bool_prop_intro. rewrite orb_True, !Is_true_true, !bool_decide_eq_true, Z.eqb_eq.
  by rewrite elem_of_union, elem_of_singleton.
Qed.
Next Obligation.
  intros v s x. cbn. apply eq_bool_prop_intro.
  rewrite andb_True, !Is_true_true, !bool_decide_eq_true, negb_true_iff, Z.eqb_neq. by rewrite elem_of_difference, elem_of_singleton.
Qed.
Next Obligation.
  intros s. cbn. rewrite bool_decide_eq_true. split.
  - intros -> x. by apply bool_decide_eq_false.
  - intros Hx. apply set_eq. intros x. specialize (Hx x). apply bool_decide_eq_false in Hx. set_solver.
Qed.
Next Obligation.
  intros s Hs. cbn in *. apply bool_decide_eq_false in Hs. unfold gset_lower.
  assert (forall x, x ∈ s <-> x ∈ elements s) as Hel by (intros; by rewrite elem_of_elements).
  destruct (elements s) as [|y l] eqn:E; [by apply elements_empty_inv, leibniz_equiv in E |].
  destruct (foldr_min y l) as [H1 H2]. split; [apply bool_decide_eq_true; by apply Hel |].
  intros x Hx%bool_decide_eq_true%Hel. by apply H2.
Qed.

(** Two ports are allocated, the first is released. *)
Definition ex_pool : gset Z := @pool_Create gset_IntervalSet 49152 49160.
Definition ex_pool2 : gset Z := (@Allocate gset_IntervalSet (@Allocate gset_IntervalSet ex_pool).2).2.
Lemma pool_exclusive_witness : NoDup [49153] /\ (forall x, x ∈ [49153] -> 49152 <= x < 49160).
Proof.
  destruct (@pool_exclusive gset_IntervalSet 49152 49160 (@Free gset_IntervalSet 49152 ex_pool2) [49153]) as (H1 & H2 & _);
    [| by split].
  eapply rtc_l; [eapply (@ps_allocate gset_IntervalSet ex_pool [] 49152 (@Allocate gset_IntervalSet ex_pool).2); by vm_compute |].
  eapply rtc_l; [eapply (@ps_allocate gset_IntervalSet (@Allocate gset_IntervalSet ex_pool).2 [49152] 49153 ex_pool2); by vm_compute |].
  apply rtc_once. exact (@ps_free gset_IntervalSet ex_pool2 [49153] 49152 []).
Defined.
