(* ===== verification/NetUdp.v ===== *)
(** * UDP

    Models src/src/native/NetUdp.h and NetUdp.cc: binding and closing of ports,
    the delivery of received datagrams and the construction of sent ones. *)

From S2P Require Import Prelude.
From S2P Require Import Checksum NetIp PortPool PcbTable.

Definition sizeofUdpHeader : Z := 8.

(** struct UdpHeader; the checksum is stored as it is computed. *)
Definition udp_header (src_port dst_port length_ checksum : Z) : list Z :=
  to_be16 src_port ++ to_be16 dst_port ++ to_be16 length_ ++ to_le16 checksum.
Definition udp_src_port (h : list Z) : Z := be16 0 h.
Definition udp_dst_port (h : list Z) : Z := be16 2 h.
Definition udp_length (h : list Z) : Z := be16 4 h.

Section Udp.
Context `{IntervalSet} `{!Table Z}.

(** The part of NetworkManager for UDP: the ephemeral ports, the table of bound
    entries, and the port of the entry of every UdpPcb. *)
Record UdpNet := mkUdp { udp_port_allocator_ : iset; udp_pcbs_ : table; udp_port_of : gmap nat Z }.

Definition new_udp : UdpNet := mkUdp (pool_Create 49152 65535) (t_new 8) ∅.

(** [UdpPcb()]: an entry with port zero. *)
Definition new_UdpPcb (pcb : nat) (s : UdpNet) : UdpNet :=
  mkUdp (udp_port_allocator_ s) (udp_pcbs_ s) (<[pcb := 0]> (udp_port_of s)).

Definition UdpBind (pcb : nat) (port : Z) (s : UdpNet) : outcome (Z * UdpNet) :=
  '(port, ports) ←
    if port =? 0 then
      match Allocate (udp_port_allocator_ s) with
      | (Some ret, ports) => Ok (ret, ports)
      | (None, _) => Fail (Thrown "Failed to allocate ephemeral port")
      end
    else if 49162 <=? port then
      match Reserve port (udp_port_allocator_ s) with
      | (true, ports) => Ok (port, ports)
      | (false, _) => Fail (Thrown "Failed to reserve specified port")
      end
    else Ok (port, udp_port_allocator_ s);
  t ← t_insert (udp_pcbs_ s) pcb port;
  Ok (port, mkUdp ports t (<[pcb := port]> (udp_port_of s))).

Definition UdpClose (pcb : nat) (s : UdpNet) : outcome UdpNet :=
  port ← deref (udp_port_of s !! pcb);
  if port =? 0 then Ok s else
  let ports := Free port (udp_port_allocator_ s) in
  t ← t_erase (udp_pcbs_ s) pcb;
  Ok (mkUdp ports t (<[pcb := 0]> (udp_port_of s))).

(** UdpEntryDeleter. *)
Definition UdpDelete (pcb : nat) (s : UdpNet) : outcome UdpNet :=
  port ← deref (udp_port_of s !! pcb);
  _ ← kassert (port =? 0);
  Ok (mkUdp (udp_port_allocator_ s) (udp_pcbs_ s) (delete pcb (udp_port_of s))).

(** ReceiveUdp: the entry whose function is called, and its arguments. *)
Definition ReceiveUdp (ip_header : list Z) (buf : packet) (s : UdpNet) : outcome (option (nat * Ipv4Address * Z * packet)) :=
  let packet_len := pkt_len buf in
  if packet_len <? sizeofUdpHeader then Ok None else
  let h := take 8 (pkt_data buf) in
  if packet_len <? udp_length h then Ok None else
  buf ← pkt_TrimEnd (packet_len - udp_length h) buf;
  entry ← t_find (udp_pcbs_ s) (udp_dst_port h);
  match entry with
  | None => Ok None
  | Some e =>
      buf ← pkt_Advance sizeofUdpHeader buf;
      Ok (Some (e, ip_src_of ip_header, udp_src_port h, buf))
  end.

(** SendUdp, up to the call of SendIp: the packet, the source address and the
    description for the device.  The header buffer is at [at_]; what is in front of
    the header has not been written. *)
Definition SendUdp (itf_addr : option ItfAddress) (src_port : Z) (addr : Ipv4Address) (port : Z) (at_ : Z) (room : list Z) (buf : packet) :
    outcome (packet * Ipv4Address * PacketInfo) :=
  let max_udp_segment_size := 65535 - 8 - 60 in
  let data_size := pkt_len buf in
  _ ← kassert (data_size <=? max_udp_segment_size);
  let src_addr := match itf_addr with None => ip_Any | Some a => itf_address a end in
  if src_port =? 0 then Fail (Thrown "Send on unbound pcb") else
  let header checksum := udp_header src_port port (u16 (data_size + sizeofUdpHeader)) checksum in
  let chain0 := mkBuf at_ room (header 0) [] :: buf in
  let checksum := OffloadPseudoCsum (pkt_chain chain0) kIpProtoUDP src_addr addr in
  let pinfo := mkPinfo kNeedsCsum 0 0 0 0 6 in
  let pinfo := if 1460 <? data_size then mkPinfo kNeedsCsum kGsoUdp 8 1460 0 6 else pinfo in
  Ok (mkBuf at_ room (header checksum) [] :: buf, src_addr, pinfo).
End Udp.
