(* ===== verification/NetUdpCorrect.v ===== *)
(** * Correctness of UDP, and of the path of a datagram through the stack

    A datagram that one node sends is handed to the function bound to its port on
    the other node, with the address and port of the sender and exactly its data.
    Ports that are bound explicitly are not all kept apart from ephemeral ones. *)

From S2P Require Import Prelude.
From S2P Require Import Checksum NetIp NetIpCorrect NetEth NetEthCorrect PortPool PcbTable NetUdp.

Section Udp.
Context `{IntervalSet} `{!Table Z}.

Lemma udp_header_fields sp dp len c rest : 0 <= sp < 2 ^ 16 -> 0 <= dp < 2 ^ 16 -> 0 <= len < 2 ^ 16 ->
  let h := udp_header sp dp len c ++ rest in
  take 8 h = udp_header sp dp len c /\ udp_src_port (take 8 h) = sp /\ udp_dst_port (take 8 h) = dp /\ udp_length (take 8 h) = len.
Proof. intros Hs Hd Hl h. split_and!; [done | by apply be_halves | by apply be_halves | by apply be_halves]. Qed.

(** The datagram is in one buffer; bytes after it are cut off. *)
Lemma ReceiveUdp_run ip_header addr pre sp dp c data pad post s e l : 0 <= sp < 2 ^ 16 -> 0 <= dp < 2 ^ 16 ->
  8 + Z.of_nat (length data) < 2 ^ 16 -> holds (udp_pcbs_ s) l -> hd_error (nodes_with dp l) = Some e ->
  ReceiveUdp ip_header [mkBuf addr pre (udp_header sp dp (8 + Z.of_nat (length data)) c ++ data ++ pad) post] s =
    Ok (Some (e, ip_src_of ip_header, sp,
              [mkBuf addr (pre ++ udp_header sp dp (8 + Z.of_nat (length data)) c) data (pad ++ post)])).
Proof.
  intros Hsp Hdp Hlen Hh He. set (len := 8 + Z.of_nat (length data)) in *.
  destruct (udp_header_fields sp dp len c (data ++ pad)) as (E0 & E1 & E2 & E3); [done | done | lia |].
  unfold ReceiveUdp. rewrite pkt_len_single. cbn [b_data].
  assert (pkt_data [mkBuf addr pre (udp_header sp dp len c ++ data ++ pad) post] = udp_header sp dp len c ++ data ++ pad) as ->
    by (unfold pkt_data; cbn [fmap list_fmap concat b_data]; by rewrite app_nil_r).
  rewrite E3, !length_app. change (length (udp_header sp dp len c)) with 8%nat.
  rewrite (proj2 (Z.ltb_ge _ _)) by (unfold sizeofUdpHeader; lia). rewrite (proj2 (Z.ltb_ge _ _)) by lia.
  unfold pkt_TrimEnd. cbn [b_data b_addr b_pre b_post]. rewrite !length_app. change (length (udp_header sp dp len c)) with 8%nat.
  rewrite (proj2 (Z.leb_le _ _)) by lia. rewrite bind_Ok, E2, (t_find_spec _ _ _ Hh), bind_Ok, He.
  replace (8 + (length data + length pad) - Z.to_nat (Z.of_nat (8 + (length data + length pad)) - len))%nat
    with (length (udp_header sp dp len c ++ data)) by (rewrite length_app; cbn [length udp_header to_be16 to_le16 app]; lia).
  rewrite (app_assoc (udp_header sp dp len c)), take_app_length, drop_app_length.
  unfold pkt_Advance. cbn [b_data]. rewrite (proj2 (Z.leb_le _ _)) by (unfold sizeofUdpHeader; rewrite length_app; cbn; lia).
  cbn [kassert]. rewrite !bind_Ok. unfold buf_advance. cbn [b_data b_addr b_pre b_post]. rewrite <- app_assoc, E1. done.
Qed.

(** A datagram whose length field is smaller than its header, for a bound port,
    passes the checks and then fails an assertion. *)
Theorem short_udp_length_asserts ip_header addr pre sp dp len c data post s l : 0 <= sp < 2 ^ 16 -> 0 <= dp < 2 ^ 16 -> 0 <= len < 8 ->
  holds (udp_pcbs_ s) l -> nodes_with dp l <> [] ->
  ReceiveUdp ip_header [mkBuf addr pre (udp_header sp dp len c ++ data) post] s = Fail AssertFailed.
Proof.
  intros Hsp Hdp Hlen Hh He. destruct (udp_header_fields sp dp len c data) as (E0 & E1 & E2 & E3); [done | done | lia |].
  unfold ReceiveUdp. rewrite pkt_len_single. cbn [b_data].
  assert (pkt_data [mkBuf addr pre (udp_header sp dp len c ++ data) post] = udp_header sp dp len c ++ data) as ->
    by (unfold pkt_data; cbn [fmap list_fmap concat b_data]; by rewrite app_nil_r).
  rewrite E3, !length_app. change (length (udp_header sp dp len c)) with 8%nat.
  rewrite (proj2 (Z.ltb_ge _ _)) by (unfold sizeofUdpHeader; lia). rewrite (proj2 (Z.ltb_ge _ _)) by lia.
  unfold pkt_TrimEnd. cbn [b_data b_addr b_pre b_post]. rewrite !length_app. change (length (udp_header sp dp len c)) with 8%nat.
  rewrite (proj2 (Z.leb_le _ _)) by lia. rewrite bind_Ok, E2, (t_find_spec _ _ _ Hh), bind_Ok.
  destruct (nodes_with dp l); [done |]. cbn [hd_error]. unfold pkt_Advance. cbn [b_data].
  rewrite length_take, (proj2 (Z.leb_gt _ _)); [done |]. unfold sizeofUdpHeader. lia.
Qed.

(** ** The whole path *)

(** What a node does to send a datagram to a host whose hardware address it knows. *)
Definition send_datagram (mac : EthernetAddress) (a : ItfAddress) (sport : Z) (dst : Ipv4Address) (dport at_ : Z) (room : list Z)
    (buf : packet) (c : ArpCache) : outcome (ArpCache * list frame_out) :=
  '(p, src, pinfo) ← SendUdp (Some a) sport dst dport at_ room buf;
  '(ih, p, pinfo) ← SendIp p src dst kIpProtoUDP pinfo;
  EthArpSend mac (Some a) kEthTypeIp ih p pinfo c.

(** What a node does with a frame that carries a datagram. *)
Definition receive_datagram (a : option ItfAddress) (buf : packet) (s : UdpNet) : outcome (option (nat * Ipv4Address * Z * packet)) :=
  r ← EthReceive buf;
  match r with
  | ToIp _ p => i ← ReceiveIp a p; match i with ToUdp h p => ReceiveUdp h p s | _ => Ok None end
  | _ => Ok None
  end.

Lemma send_datagram_run mac a sport dst dport at_ room buf c m : 0 < sport < 2 ^ 16 -> length room = 34%nat ->
  pkt_len buf <= 65467 -> ip_ok dst -> ip_ok (itf_address a) -> mac_ok mac -> mac_ok m -> unicast a dst -> resolved c (next_hop a dst) m ->
  exists ih ck out pinfo, send_datagram mac a sport dst dport at_ room buf c = Ok (c, [mkOut out pinfo]) /\
    SendIp (mkBuf at_ room (udp_header sport dport (8 + pkt_len buf) ck) [] :: buf) (itf_address a) dst kIpProtoUDP pinfo0 =
      Ok (ih, mkBuf at_ (take 14 room) (ih ++ udp_header sport dport (8 + pkt_len buf) ck) [] :: buf, pinfo_shift 20 pinfo0) /\
    pkt_data out = eth_header m mac kEthTypeIp ++ ih ++ udp_header sport dport (8 + pkt_len buf) ck ++ pkt_data buf /\
    length ih = 20%nat /\ (forall rest, ip_src_of (ih ++ rest) = itf_address a /\ ip_proto (ih ++ rest) = kIpProtoUDP).
Proof.
  intros Hsp Hroom Hlen Hdst Ha Hmac Hm Huni Hres. unfold send_datagram, SendUdp.
  rewrite (proj2 (Z.leb_le _ _)) by lia. cbn [kassert]. rewrite bind_Ok, (proj2 (Z.eqb_neq _ _)) by lia. rewrite bind_Ok.
  assert (u16 (pkt_len buf + sizeofUdpHeader) = 8 + pkt_len buf) as ->
    by (unfold sizeofUdpHeader; rewrite u16_small; [lia | unfold pkt_len in *; lia]).
  set (ck := OffloadPseudoCsum _ _ _ _). set (hdr := udp_header sport dport (8 + pkt_len buf) ck).
  set (b := mkBuf at_ room hdr []). destruct (header_verifies (20 + pkt_len (b :: buf)) kIpProtoUDP (itf_address a) dst) as (c0 & Hc & Hcr & Hb & Hz);
    [done | done | done |]. assert (20 <= length (b_pre b))%nat as Hpre by (cbn [b b_pre]; lia).
  destruct (header_fields (20 + pkt_len (b :: buf)) kIpProtoUDP c0 (itf_address a) dst) as (F1 & _ & _ & F4 & _).
  pose proof (header_app (20 + pkt_len (b :: buf)) kIpProtoUDP c0 (itf_address a) dst) as Happ.
  assert (forall pinfo, SendIp (b :: buf) (itf_address a) dst kIpProtoUDP pinfo =
    Ok (header_bytes (20 + pkt_len (b :: buf)) kIpProtoUDP c0 (itf_address a) dst,
        mkBuf at_ (take 14 room) (header_bytes (20 + pkt_len (b :: buf)) kIpProtoUDP c0 (itf_address a) dst ++ hdr) [] :: buf,
        pinfo_shift sizeofIpv4Header pinfo)) as Hsend.
  { intros pinfo. rewrite (SendIp_run b buf (itf_address a) dst kIpProtoUDP pinfo c0 Hpre Hc Hz).
    destruct (retreat_put b buf 20 _ Hpre (Nat.lt_0_succ _) F1) as (_ & _ & ->).
    cbn [b b_pre b_data b_addr b_post]. by rewrite Hroom. }
  set (ih := header_bytes (20 + pkt_len (b :: buf)) kIpProtoUDP c0 (itf_address a) dst) in *.
  set (pinfo := if _ <? _ then _ else _). do 4 eexists. split_and!; [| apply (Hsend pinfo0) | | done | intros rest; by destruct (Happ rest) as (_ & _ & _ & _ & ? & _ & ?)].
  - rewrite Hsend, bind_Ok. rewrite (EthArpSend_run mac a kEthTypeIp ih (mkBuf at_ (take 14 room) (ih ++ hdr) []) buf _ c m);
      [reflexivity | cbn [b_pre]; rewrite length_take; lia | done | done | by rewrite F4 | by rewrite F4].
  - unfold pkt_data. cbn [fmap list_fmap concat b_data]. by rewrite <- !app_assoc.
Qed.

(** C3. A datagram that one node sends to another is handed to the function that is
    bound to the destination port there, with the address and the port of the
    sender and exactly its data, whatever padding the link adds. *)
Theorem udp_end_to_end mac a sport dst dport at_ room buf c m b_itf at2 pre pad post s l e :
  0 < sport < 2 ^ 16 -> 0 <= dport < 2 ^ 16 -> length room = 34%nat -> pkt_len buf <= 65467 -> bytes (pkt_data buf) ->
  ip_ok dst -> ip_ok (itf_address a) -> mac_ok mac -> mac_ok m -> unicast a dst -> resolved c (next_hop a dst) m ->
  isBroadcast (itf_address a) = false -> isMulticast (itf_address a) = false ->
  itf_address b_itf = dst -> bytes pad -> bytes post -> holds (udp_pcbs_ s) l -> hd_error (nodes_with dport l) = Some e ->
  exists out pinfo front, send_datagram mac a sport dst dport at_ room buf c = Ok (c, [mkOut out pinfo]) /\
    receive_datagram (Some b_itf) [mkBuf at2 pre (pkt_data out ++ pad) post] s =
      Ok (Some (e, itf_address a, sport, [mkBuf at2 front (pkt_data buf) (pad ++ post)])).
Proof.
  intros Hsp Hdp Hroom Hlen Hbytes Hdst Ha Hmac Hm Huni Hres Hnb Hnm Hb Hpad Hpost Hh He.
  destruct (send_datagram_run mac a sport dst dport at_ room buf c m Hsp Hroom Hlen Hdst Ha Hmac Hm Huni Hres)
    as (ih & ck & out & pinfo & Hsend & Hip & Hdata & Hil & Hif).
  exists out, pinfo, ((pre ++ eth_header m mac kEthTypeIp) ++ ih ++ udp_header sport dport (8 + pkt_len buf) ck). split; [done |].
  rewrite Hdata. set (hdr := udp_header sport dport (8 + pkt_len buf) ck) in *. unfold receive_datagram. rewrite <- app_assoc.
  assert (bytes hdr) as Hhb by (repeat (apply Forall_cons_2; [apply u8_byte |]); apply Forall_nil_2).
  assert (hdr <> []) as Hne by done.
  rewrite EthReceive_run by (first [by apply eth_header_length | by destruct ih]).
  rewrite eth_type_header by done. rewrite bind_Ok. change (kEthTypeIp =? kEthTypeIp) with true. cbv iota.
  set (b0 := mkBuf at_ room hdr []) in *.
  pose proof (ip_delivered b0 buf (itf_address a) dst kIpProtoUDP pinfo0 ih (mkBuf at_ (take 14 room) (ih ++ hdr) [] :: buf) _ b_itf at2 (pre ++ eth_header m mac kEthTypeIp) pad post
    ltac:(cbn [b0 b_pre]; lia) ltac:(done) Ha Hdst ltac:(by apply bytes_app) Hip) as Hr.
  change (pkt_data (b0 :: buf)) with (hdr ++ pkt_data buf) in Hr.
  change (pkt_data (mkBuf at_ (take 14 room) (ih ++ hdr) [] :: buf)) with ((ih ++ hdr) ++ pkt_data buf) in Hr.
  rewrite <- !app_assoc in *. rewrite Hr; clear Hr; try done.
  - rewrite bind_Ok. destruct (Hif (hdr ++ pkt_data buf ++ pad ++ post)) as [Es Ep]. unfold dispatch. rewrite Ep.
    change (kIpProtoUDP =? kIpProtoICMP) with false. change (kIpProtoUDP =? kIpProtoUDP) with true. cbv iota.
    pose proof (ReceiveUdp_run (ih ++ hdr ++ pkt_data buf ++ pad ++ post) at2 (pre ++ eth_header m mac kEthTypeIp ++ ih) sport dport ck
      (pkt_data buf) [] (pad ++ post) s e l) as Hu. rewrite app_nil_r in Hu. change (Z.of_nat (length (pkt_data buf))) with (pkt_len buf) in Hu. fold hdr in Hu.
    rewrite <- ?app_assoc. rewrite Hu, Es; [by rewrite <- !app_assoc | lia | done | lia | done | done].
  - change (pkt_len (b0 :: buf)) with (Z.of_nat (length (hdr ++ pkt_data buf))). rewrite length_app. 
    change (length hdr) with 8%nat. unfold pkt_len in Hlen. lia.
Qed.
(** ** Ports *)

(** Pcbs are made, bound and closed; an explicit port is one that [Bind] reserves. *)
Inductive udp_step : UdpNet -> UdpNet -> Prop :=
| us_new s pcb : udp_port_of s !! pcb = None -> udp_step s (new_UdpPcb pcb s)
| us_bind s pcb port bound s' : port = 0 \/ 49162 <= port -> udp_port_of s !! pcb = Some 0 ->
    UdpBind pcb port s = Ok (bound, s') -> udp_step s s'
| us_close s pcb s' : UdpClose pcb s = Ok s' -> udp_step s s'
| us_delete s pcb s' : UdpDelete pcb s = Ok s' -> udp_step s s'.

Record UdpInv (s : UdpNet) (l : list (nat * Z)) : Prop := {
  ui_holds : holds (udp_pcbs_ s) l;
  ui_nodup : NoDup l.*1;
  ui_pool : pool_inv 49152 65535 (udp_port_allocator_ s, l.*2);
  ui_port : forall pcb port, udp_port_of s !! pcb = Some port -> port <> 0 -> (pcb, port) ∈ l;
  ui_bound : forall pcb port, (pcb, port) ∈ l -> udp_port_of s !! pcb = Some port
}.

Lemma ui_unbound s l pcb : UdpInv s l -> udp_port_of s !! pcb = Some 0 -> pcb ∉ l.*1.
Proof.
  intros I Hp ([x port] & -> & Hin)%list_elem_of_fmap. pose proof (ui_bound _ _ I _ _ Hin) as Hb.
  assert (49152 <= port < 65535) by (destruct (ui_pool _ _ I) as (_ & Hr & _); apply Hr, list_elem_of_fmap; by exists (x, port)). cbn [fst] in Hp.
  rewrite Hp in Hb. injection Hb as <-. lia.
Qed.

(** What [Bind] does when it returns: the port comes out of the pool. *)
Lemma UdpBind_inv s l pcb port bound s' : UdpInv s l -> port = 0 \/ 49162 <= port -> udp_port_of s !! pcb = Some 0 ->
  UdpBind pcb port s = Ok (bound, s') -> UdpInv s' ((pcb, bound) :: l) /\ (port <> 0 -> bound = port).
Proof.
  intros I Hport Hp Hb. pose proof (ui_unbound s l pcb I Hp) as Hn.
  assert (exists ports, UdpBind pcb port s = (t ← t_insert (udp_pcbs_ s) pcb bound; Ok (bound, mkUdp ports t (<[pcb := bound]> (udp_port_of s)))) /\
    pool_inv 49152 65535 (ports, bound :: l.*2) /\ (port <> 0 -> bound = port)) as (ports & E & Hpool & Hpb).
  { unfold UdpBind in *. destruct (Z.eqb_spec port 0) as [->|H0].
    - destruct (Allocate (udp_port_allocator_ s)) as [[ret|] ports] eqn:Ea; [| discriminate Hb]. rewrite bind_Ok in *. exists ports.
      destruct (t_insert_spec _ _ pcb ret (ui_holds _ _ I) Hn) as (t & Et & _). rewrite Et, bind_Ok in *.
      apply Ok_inj, pair_equal_spec in Hb as [<- _]. rewrite Et, bind_Ok.
      split_and!; [done | by eapply Allocate_inv; [apply (ui_pool _ _ I) |] | done].
    - destruct Hport as [|Hge]; [done |]. rewrite (proj2 (Z.leb_le _ _)) in * by done.
      destruct (Reserve port (udp_port_allocator_ s)) as [[|] ports] eqn:Ea; [| discriminate Hb]. rewrite bind_Ok in *. exists ports.
      destruct (t_insert_spec _ _ pcb port (ui_holds _ _ I) Hn) as (t & Et & _). rewrite Et, bind_Ok in *.
      apply Ok_inj, pair_equal_spec in Hb as [<- _]. rewrite Et, bind_Ok.
      split_and!; [done | by eapply Reserve_inv; [apply (ui_pool _ _ I) |] | done]. }
  split; [| done]. destruct (t_insert_spec _ _ pcb bound (ui_holds _ _ I) Hn) as (t & Et & Ht).
  rewrite E, Et, bind_Ok in Hb. apply Ok_inj, pair_equal_spec in Hb as [_ <-]. split; cbn [udp_pcbs_ udp_port_allocator_ udp_port_of].
  - done.
  - rewrite fmap_cons. constructor; [done | apply (ui_nodup _ _ I)].
  - done.
  - intros x p Hx Hpn. destruct (decide (x = pcb)) as [->|Hne].
    + rewrite lookup_insert_eq in Hx. injection Hx as <-. by left.
    + rewrite lookup_insert_ne in Hx by done. right. by apply (ui_port _ _ I).
  - intros x p [[= -> ->]|Hx]%elem_of_cons; [by rewrite lookup_insert_eq |].
    rewrite lookup_insert_ne; [by apply (ui_bound _ _ I) |]. intros <-. apply Hn, list_elem_of_fmap. by exists (pcb, p).
Qed.

Lemma UdpClose_inv s l pcb s' : UdpInv s l -> UdpClose pcb s = Ok s' -> exists l', UdpInv s' l'.
Proof.
  intros I Hc. unfold UdpClose in Hc. destruct (udp_port_of s !! pcb) as [port|] eqn:Ep; [| discriminate Hc]. cbn [deref] in Hc. rewrite bind_Ok in Hc.
  destruct (Z.eqb_spec port 0) as [->|H0]; [apply Ok_inj in Hc as <-; by exists l |].
  pose proof (ui_port _ _ I _ _ Ep H0) as Hin. destruct (t_erase_spec _ _ pcb (ui_holds _ _ I)) as (t & Et & Ht).
  { apply list_elem_of_fmap. by exists (pcb, port). }
  rewrite Et, bind_Ok in Hc. apply Ok_inj in Hc as <-.
  apply list_elem_of_split in Hin as (l1 & l2 & ->). pose proof (ui_nodup _ _ I) as Hnd.
  rewrite fmap_app, fmap_cons, <- Permutation_middle in Hnd. apply NoDup_cons in Hnd as [Hn Hnd]. cbn [fst] in Hn. rewrite <- fmap_app in *.
  assert (filter (fun p => p.1 <> pcb) (l1 ++ (pcb, port) :: l2) = l1 ++ l2) as Ef.
  { assert (forall p, p ∈ l1 ++ l2 -> p.1 <> pcb) as Hne by (intros p Hp <-; apply Hn, list_elem_of_fmap; by exists p).
    rewrite filter_app, filter_cons, decide_False by (intros Hx; by apply Hx).
    rewrite !filter_all_on; [done | |]; intros p Hp; apply Hne, elem_of_app; auto. }
  rewrite Ef in Ht. exists (l1 ++ l2). split; cbn [udp_pcbs_ udp_port_allocator_ udp_port_of]; try done.
  - pose proof (ui_pool _ _ I) as Hpool. rewrite fmap_app, fmap_cons in Hpool. cbn [snd] in Hpool. rewrite fmap_app.
    eapply pool_step_inv; [| exact Hpool]. constructor.
  - intros x p Hx Hp. destruct (decide (x = pcb)) as [->|Hne]; [rewrite lookup_insert_eq in Hx; congruence |].
    rewrite lookup_insert_ne in Hx by done. pose proof (ui_port _ _ I _ _ Hx Hp) as Hi.
    rewrite elem_of_app, elem_of_cons in Hi. rewrite elem_of_app. naive_solver.
  - intros x p Hx. rewrite lookup_insert_ne; [apply (ui_bound _ _ I); rewrite elem_of_app, elem_of_cons in *; naive_solver |].
    intros <-. apply Hn, list_elem_of_fmap. by exists (pcb, p).
Qed.

Lemma udp_step_inv s s' l : udp_step s s' -> UdpInv s l -> exists l', UdpInv s' l'.
Proof.
  destruct 1 as [s pcb Hn|s pcb port bound s' Hport Hp Hb|s pcb s' Hc|s pcb s' Hd]; intros I.
  - exists l. destruct I as [I1 I2 I3 I4 I5]. split; cbn [new_UdpPcb udp_pcbs_ udp_port_allocator_ udp_port_of]; try done.
    + intros x p. destruct (decide (x = pcb)) as [->|?]; [rewrite lookup_insert_eq; congruence |]. rewrite lookup_insert_ne by done. apply I4.
    + intros x p Hx. pose proof (I5 _ _ Hx). rewrite lookup_insert_ne; [done |]. intros ->. congruence.
  - eexists. by eapply UdpBind_inv.
  - by eapply UdpClose_inv.
  - unfold UdpDelete in Hd. destruct (udp_port_of s !! pcb) as [port|] eqn:Ep; [| discriminate Hd]. cbn [deref] in Hd. rewrite bind_Ok in Hd.
    destruct (Z.eqb_spec port 0) as [->|]; [| discriminate Hd]. cbn [kassert] in Hd. rewrite bind_Ok in Hd. apply Ok_inj in Hd as <-.
    pose proof (ui_unbound s l pcb I Ep) as Hu. exists l.
    destruct I as [I1 I2 I3 I4 I5]. split; cbn [udp_pcbs_ udp_port_allocator_ udp_port_of]; try done.
    + intros x p. destruct (decide (x = pcb)) as [->|?]; [by rewrite lookup_delete_eq |]. rewrite lookup_delete_ne by done. apply I4.
    + intros x p Hx. rewrite lookup_delete_ne; [by apply I5 |]. intros <-. apply Hu, list_elem_of_fmap. by exists (pcb, p).
Qed.

Lemma new_udp_inv : UdpInv new_udp [].
Proof.
  split; cbn [new_udp udp_pcbs_ udp_port_allocator_ udp_port_of].
  - by apply t_new_spec.
  - constructor.
  - apply pool_Create_inv.
  - intros pcb port Hx. by rewrite lookup_empty in Hx.
  - by intros pcb port ?%elem_of_nil.
Qed.

(** As long as the explicit ports are ones that [Bind] reserves, over any sequence
    of binds and closes no two pcbs are bound to the same port, and a datagram
    for a bound port is found the pcb it is bound to. *)
Theorem udp_ports_exclusive s : rtc udp_step new_udp s ->
  (forall pcb1 pcb2 port, port <> 0 -> udp_port_of s !! pcb1 = Some port -> udp_port_of s !! pcb2 = Some port -> pcb1 = pcb2) /\
  (forall pcb port, port <> 0 -> udp_port_of s !! pcb = Some port -> t_find (udp_pcbs_ s) port = Ok (Some pcb)) /\
  (forall port, port <> 0 -> (forall pcb, udp_port_of s !! pcb <> Some port) -> t_find (udp_pcbs_ s) port = Ok None).
Proof.
  intros Hrun. assert (exists l, UdpInv s l) as [l I].
  { assert (exists l, UdpInv new_udp l) as Hi by (exists []; apply new_udp_inv). induction Hrun as [|? ? ? Hs ? IH]; [done |].
    destruct Hi as [l I]. apply IH. by eapply udp_step_inv. }
  assert (NoDup l.*2) as Hnd by apply (ui_pool _ _ I).
  split_and!.
  - intros p1 p2 port Hp H1 H2. apply (ui_port _ _ I) in H1, H2; [| done | done].
    apply (nodes_with_unique l _ _ Hnd) in H1, H2. congruence.
  - intros pcb port Hp Hb. apply (ui_port _ _ I) in Hb; [| done]. by rewrite (t_find_spec _ _ _ (ui_holds _ _ I)), (nodes_with_unique l pcb).
  - intros port Hp Hno. rewrite (t_find_spec _ _ _ (ui_holds _ _ I)). destruct (nodes_with port l) as [|x r] eqn:E; [done |].
    assert (x ∈ nodes_with port l) as Hx by (rewrite E; by left).
    apply list_elem_of_fmap in Hx as ([y p] & -> & [<- Hin]%list_elem_of_filter). by apply (ui_bound _ _ I), Hno in Hin.
Qed.

Lemma Allocate_least v (p : iset) : contains p v = true -> (forall x, contains p x = true -> v <= x) -> Allocate p = (Some v, sub_elem v p).
Proof.
  intros Hv Hmin. unfold Allocate. destruct (iset_is_empty p) eqn:E; [by rewrite (proj1 (iset_is_empty_spec p) E) in Hv |].
  destruct (lower_spec p E) as [Hl Hle]. assert (lower p = v) as -> by (pose proof (Hle v Hv); pose proof (Hmin _ Hl); lia). done.
Qed.

Lemma UdpBind_low s l pcb port : holds (udp_pcbs_ s) l -> pcb ∉ l.*1 -> 0 < port < 49162 ->
  exists t, holds t ((pcb, port) :: l) /\ UdpBind pcb port s = Ok (port, mkUdp (udp_port_allocator_ s) t (<[pcb := port]> (udp_port_of s))).
Proof.
  intros Hh Hn Hp. destruct (t_insert_spec _ _ pcb port Hh Hn) as (t & Et & Ht). exists t. split; [done |].
  unfold UdpBind. rewrite (proj2 (Z.eqb_neq _ _)), (proj2 (Z.leb_gt _ _)) by lia. by rewrite bind_Ok, Et, bind_Ok.
Qed.

Lemma UdpBind_ephemeral s l pcb v : holds (udp_pcbs_ s) l -> pcb ∉ l.*1 -> contains (udp_port_allocator_ s) v = true ->
  (forall x, contains (udp_port_allocator_ s) x = true -> v <= x) ->
  exists t, holds t ((pcb, v) :: l) /\ UdpBind pcb 0 s = Ok (v, mkUdp (sub_elem v (udp_port_allocator_ s)) t (<[pcb := v]> (udp_port_of s))).
Proof.
  intros Hh Hn Hv Hmin. destruct (t_insert_spec _ _ pcb v Hh Hn) as (t & Et & Ht). exists t. split; [done |].
  unfold UdpBind. change (0 =? 0) with true. cbv iota. by rewrite (Allocate_least v _ Hv Hmin), bind_Ok, Et, bind_Ok.
Qed.

Lemma new_pool x : contains (udp_port_allocator_ new_udp) x = (49152 <=? x) && (x <? 65535).
Proof. cbn [new_udp udp_port_allocator_]. unfold pool_Create. by rewrite add_interval_spec, iempty_spec. Qed.

(** [Bind] reserves explicit ports from 49162 on, while the ephemeral ports start
    at 49152: port 49152 bound explicitly is handed out again by the next
    ephemeral bind, whose pcb then gets the datagrams of both. *)
Theorem low_port_bound_twice pcb1 pcb2 : pcb1 <> pcb2 ->
  exists s1 s2, UdpBind pcb1 49152 (new_UdpPcb pcb2 (new_UdpPcb pcb1 new_udp)) = Ok (49152, s1) /\ UdpBind pcb2 0 s1 = Ok (49152, s2) /\
    udp_port_of s2 !! pcb1 = Some 49152 /\ udp_port_of s2 !! pcb2 = Some 49152 /\ t_find (udp_pcbs_ s2) 49152 = Ok (Some pcb2).
Proof.
  intros Hne. set (s0 := new_UdpPcb pcb2 (new_UdpPcb pcb1 new_udp)).
  destruct (UdpBind_low s0 [] pcb1 49152) as (t1 & Ht1 & E1); [apply (ui_holds _ _ new_udp_inv) | by apply not_elem_of_nil | lia |].
  set (s1 := mkUdp _ t1 _) in E1. destruct (UdpBind_ephemeral s1 [(pcb1, 49152)] pcb2 49152) as (t2 & Ht2 & E2).
  - done.
  - intros Hx%list_elem_of_singleton. done.
  - apply (new_pool 49152).
  - intros x Hx. cbn [s1 s0 new_UdpPcb udp_port_allocator_] in Hx. rewrite new_pool in Hx. lia.
  - do 2 eexists. split; [exact E1 |]. split; [exact E2 |]. cbn [udp_port_of udp_pcbs_ s1]. rewrite (t_find_spec _ _ _ Ht2).
    rewrite lookup_insert_ne, !lookup_insert_eq by done. done.
Qed.

(** [Close] gives every port to the pool of ephemeral ports, also one below its
    range: the next ephemeral bind is then given that port. *)
Theorem low_port_becomes_ephemeral pcb1 pcb2 port : 0 < port < 49152 -> pcb1 <> pcb2 ->
  exists s1 s2 s3, UdpBind pcb1 port (new_UdpPcb pcb2 (new_UdpPcb pcb1 new_udp)) = Ok (port, s1) /\ UdpClose pcb1 s1 = Ok s2 /\
    UdpBind pcb2 0 s2 = Ok (port, s3).
Proof.
  intros Hp Hne. set (s0 := new_UdpPcb pcb2 (new_UdpPcb pcb1 new_udp)).
  destruct (UdpBind_low s0 [] pcb1 port) as (t1 & Ht1 & E1); [apply (ui_holds _ _ new_udp_inv) | by apply not_elem_of_nil | lia |].
  set (s1 := mkUdp _ t1 _) in E1. destruct (t_erase_spec t1 _ pcb1 Ht1) as (t2 & Et2 & Ht2); [by left |].
  set (s2 := mkUdp (Free port (udp_port_allocator_ s0)) t2 (<[pcb1 := 0]> (udp_port_of s1))).
  assert (UdpClose pcb1 s1 = Ok s2) as E2.
  { unfold UdpClose. cbn [s1 udp_port_of]. rewrite lookup_insert_eq. cbn [deref]. rewrite bind_Ok, (proj2 (Z.eqb_neq _ _)) by lia.
    change (udp_pcbs_ s1) with t1. by rewrite Et2, bind_Ok. }
  rewrite filter_cons, decide_False, filter_nil in Ht2 by (intros Hx; by apply Hx).
  assert (forall x, contains (udp_port_allocator_ s2) x = ((49152 <=? x) && (x <? 65535)) || (x =? port)) as Hc.
  { intros x. cbn [s2 s0 udp_port_allocator_ new_UdpPcb]. unfold Free. by rewrite add_elem_spec, new_pool. }
  destruct (UdpBind_ephemeral s2 [] pcb2 port Ht2) as (t3 & Ht3 & E3).
  - by apply not_elem_of_nil.
  - rewrite Hc. lia.
  - intros x Hx. rewrite Hc in Hx. lia.
  - by do 3 eexists.
Qed.
End Udp.

(** ** Examples *)

Definition ex_tab : Table Z := RcuImpl.rcu_Table (fun port => port).
#[local] Existing Instance gset_IntervalSet.
#[local] Existing Instance ex_tab.

Definition ex_udp : UdpNet := new_UdpPcb 7%nat new_udp.
Definition ex_udp80 : UdpNet := match UdpBind 7%nat 80 ex_udp with Ok (_, s) => s | _ => ex_udp end.

Lemma ex_udp80_holds : holds (udp_pcbs_ ex_udp80) [(7%nat, 80)].
Proof.
  destruct (UdpBind_low ex_udp [] 7%nat 80) as (t & Ht & E); [apply (ui_holds _ _ new_udp_inv) | by apply not_elem_of_nil | lia |].
  unfold ex_udp80. by rewrite E.
Qed.

Lemma short_udp_length_asserts_witness :
  ReceiveUdp [] [mkBuf 0 [] (udp_header 1234 80 7 0 ++ [77]) []] ex_udp80 = Fail AssertFailed.
Proof. apply (short_udp_length_asserts [] 0 [] 1234 80 7 0 [77] [] ex_udp80 [(7%nat, 80)]); [lia.. | apply ex_udp80_holds | done]. Defined.

Definition ex_cache : ArpCache := mkCache {[demo_dst := mkArp (Some 0%nat) empty_queue]} {[0%nat := ex_peer]} 1 [].
Definition ex_from : ItfAddress := mkItf demo_src (mkIp 255 255 255 0) (mkIp 10 0 0 1).

Lemma udp_end_to_end_witness : exists out pinfo front,
  send_datagram ex_mac ex_from 1234 demo_dst 80 0 (repeat 0 34) [mkBuf 100 [] [72; 105] []] ex_cache = Ok (ex_cache, [mkOut out pinfo]) /\
  receive_datagram (Some demo_itf) [mkBuf 0 [] (pkt_data out ++ [0; 0]) []] ex_udp80 =
    Ok (Some (7%nat, demo_src, 1234, [mkBuf 0 front [72; 105] ([0; 0] ++ [])])).
Proof.
  apply (udp_end_to_end ex_mac ex_from 1234 demo_dst 80 0 (repeat 0 34) [mkBuf 100 [] [72; 105] []] ex_cache ex_peer demo_itf 0 [] [0; 0] [] ex_udp80
    [(7%nat, 80)] 7%nat).
  - lia.
  - lia.
  - done.
  - by vm_compute.
  - bytes_now.
  - bytes_now.
  - bytes_now.
  - done.
  - done.
  - split_and!; by vm_compute.
  - exists (mkArp (Some 0%nat) empty_queue), 0%nat. split_and!; by vm_compute.
  - done.
  - done.
  - done.
  - bytes_now.
  - bytes_now.
  - apply ex_udp80_holds.
  - done.
Defined.

Lemma udp_ports_exclusive_witness : exists s, UdpBind 7%nat 0 ex_udp = Ok (49152, s) /\ t_find (udp_pcbs_ s) 49152 = Ok (Some 7%nat).
Proof.
  destruct (UdpBind_ephemeral ex_udp [] 7%nat 49152) as (t & _ & E).
  - apply (ui_holds _ _ new_udp_inv).
  - apply not_elem_of_nil.
  - apply (new_pool 49152).
  - intros x Hx. change (contains (udp_port_allocator_ new_udp) x = true) in Hx. rewrite new_pool in Hx. lia.
  - eexists. split; [exact E |]. set (s := mkUdp _ t _) in *. destruct (udp_ports_exclusive s) as (_ & H & _).
    + eapply rtc_l; [apply (us_new new_udp 7%nat); done |]. apply rtc_once. by apply (us_bind ex_udp 7%nat 0 49152 s); [left | |].
    + by apply H.
Defined.

Lemma low_port_bound_twice_witness : exists s1 s2, UdpBind 1%nat 49152 (new_UdpPcb 2 (new_UdpPcb 1 new_udp)) = Ok (49152, s1) /\
  UdpBind 2%nat 0 s1 = Ok (49152, s2) /\ t_find (udp_pcbs_ s2) 49152 = Ok (Some 2%nat).
Proof. destruct (low_port_bound_twice 1%nat 2%nat) as (s1 & s2 & H1 & H2 & _ & _ & H3); [done |]. by exists s1, s2. Defined.

Lemma low_port_becomes_ephemeral_witness : exists s1 s2 s3, UdpBind 1%nat 80 (new_UdpPcb 2 (new_UdpPcb 1 new_udp)) = Ok (80, s1) /\
  UdpClose 1%nat s1 = Ok s2 /\ UdpBind 2%nat 0 s2 = Ok (80, s3).
Proof. apply (low_port_becomes_ephemeral 1%nat 2%nat 80); [lia | done]. Defined.
