(* ===== verification/NetDhcp.v ===== *)
(** * The DHCP client

    Models src/src/native/NetDhcp.h and NetDhcp.cc on the bytes of the messages:
    the construction and the reading of options, the four states of the client,
    its timer, and the handling of offers and acknowledgements. *)

From Stdlib Require Import Strings.String.
From S2P Require Import Prelude Checksum NetIp.

(** ** struct DhcpMessage: 300 bytes *)

Definition kDhcpClientPort : Z := 68.
Definition kDhcpServerPort : Z := 67.
Definition kDhcpOptionsLen : nat := 60.
Definition sizeofDhcpMessage : Z := 300.

(** Offsets of the fields. *)
Definition xid_off : nat := 4.
Definition yiaddr_off : nat := 16.
Definition chaddr_off : nat := 28.
Definition cookie_off : nat := 236.
Definition options_off : nat := 240.

Definition kDhcpOpRequest : Z := 1.
Definition kDhcpOpReply : Z := 2.
Definition kDhcpHTypeEth : Z := 1.
Definition kDhcpHLenEth : Z := 6.
Definition kDhcpMagicCookie : Z := 0x63825363.
Definition kDhcpOptionPad : Z := 0.
Definition kDhcpOptionSubnetMask : Z := 1.
Definition kDhcpOptionRouter : Z := 3.
Definition kDhcpOptionBroadcast : Z := 28.
Definition kDhcpOptionRequestIp : Z := 50.
Definition kDhcpOptionLeaseTime : Z := 51.
Definition kDhcpOptionMessageType : Z := 53.
Definition kDhcpOptionMessageTypeDiscover : Z := 1.
Definition kDhcpOptionMessageTypeOffer : Z := 2.
Definition kDhcpOptionMessageTypeRequest : Z := 3.
Definition kDhcpOptionMessageTypeAck : Z := 5.
Definition kDhcpOptionMessageTypeNak : Z := 6.
Definition kDhcpOptionServerId : Z := 54.
Definition kDhcpOptionParameterRequestList : Z := 55.
Definition kDhcpOptionRenewalTime : Z := 58.
Definition kDhcpOptionRebindingTime : Z := 59.
Definition kDhcpOptionEnd : Z := 255.

Definition options (m : list Z) : list Z := take kDhcpOptionsLen (drop options_off m).

(** ** struct DhcpPcb *)

Inductive State := kInactive | kSelecting | kRequesting | kBound.
#[export] Instance State_eq_dec : EqDecision State.
Proof. solve_decision. Defined.

(** Times are in nanoseconds. *)
Record DhcpPcb := mkDhcp {
  last_offer : list Z;
  state : State;
  xid : Z;                 (* uint32_t *)
  tries : Z;               (* size_t *)
  options_len : nat;       (* size_t *)
  lease_time : Z;
  renewal_time : Z;
  rebind_time : Z;
  complete : bool          (* the promise has its value *)
}.

Definition set_last_offer (v : list Z) (p : DhcpPcb) : DhcpPcb :=
  mkDhcp v (state p) (xid p) (tries p) (options_len p) (lease_time p) (renewal_time p) (rebind_time p) (complete p).
Definition set_state_tries (s : State) (t : Z) (p : DhcpPcb) : DhcpPcb :=
  mkDhcp (last_offer p) s (xid p) t (options_len p) (lease_time p) (renewal_time p) (rebind_time p) (complete p).
Definition set_xid (v : Z) (p : DhcpPcb) : DhcpPcb :=
  mkDhcp (last_offer p) (state p) v (tries p) (options_len p) (lease_time p) (renewal_time p) (rebind_time p) (complete p).
Definition set_options_len (v : nat) (p : DhcpPcb) : DhcpPcb :=
  mkDhcp (last_offer p) (state p) (xid p) (tries p) v (lease_time p) (renewal_time p) (rebind_time p) (complete p).
Definition set_times (l n b : Z) (p : DhcpPcb) : DhcpPcb :=
  mkDhcp (last_offer p) (state p) (xid p) (tries p) (options_len p) l n b (complete p).
Definition set_complete (p : DhcpPcb) : DhcpPcb :=
  mkDhcp (last_offer p) (state p) (xid p) (tries p) (options_len p) (lease_time p) (renewal_time p) (rebind_time p) true.

(** What the client asks of the rest of the system, in order; the timeouts are in
    seconds. *)
Inductive effect :=
| Bind (port : Z)
| SendTo (addr : Ipv4Address) (port : Z) (message : list Z)
| StartTimer (timeout : Z)
| StopTimer
| SetAddress (addr : ItfAddress).

(** ** Options *)

Definition DhcpOption (type len : Z) (x : DhcpPcb * list Z) : outcome (DhcpPcb * list Z) :=
  let '(p, m) := x in
  _ ← kassert (options_len p + 2 <=? kDhcpOptionsLen)%nat;
  Ok (set_options_len (options_len p + 2) p, put_bytes (options_off + options_len p) [type; len] m).

Definition DhcpOptionByte (value : Z) (x : DhcpPcb * list Z) : outcome (DhcpPcb * list Z) :=
  let '(p, m) := x in
  _ ← kassert (options_len p + 1 <=? kDhcpOptionsLen)%nat;
  Ok (set_options_len (options_len p + 1) p, put_bytes (options_off + options_len p) [value] m).

Definition DhcpOptionLong (value : Z) (x : DhcpPcb * list Z) : outcome (DhcpPcb * list Z) :=
  let '(p, m) := x in
  _ ← kassert (options_len p + 4 <=? kDhcpOptionsLen)%nat;
  Ok (set_options_len (options_len p + 4) p, put_bytes (options_off + options_len p) (to_le32 value) m).

Definition DhcpOptionTrailer (x : DhcpPcb * list Z) : outcome (DhcpPcb * list Z) :=
  let '(p, m) := x in
  _ ← kassert (options_len p + 1 <=? kDhcpOptionsLen)%nat;
  Ok (set_options_len (options_len p + 1) p, put_bytes (options_off + options_len p) [kDhcpOptionEnd] m).

(** The loop of the two functions below, on the 60 bytes of the options, from
    index [i]: the index of the option, if there is one.  The iterator can pass the
    end of the array.  Every round advances by two or more: 31 rounds suffice. *)
Fixpoint find_option (fuel : nat) (opts : list Z) (i : nat) (type : Z) : outcome (option nat) :=
  match fuel with
  | O => Fail Diverges
  | S fuel =>
      if (i =? kDhcpOptionsLen)%nat then Ok None
      else
        match opts !! i with
        | None => Fail UndefinedBehaviour
        | Some code =>
            if code =? type then Ok (Some i)
            else if code =? kDhcpOptionEnd then Ok None
            else match opts !! S i with
                 | None => Fail UndefinedBehaviour
                 | Some len => find_option fuel opts (i + Z.to_nat len + 2) type
                 end
        end
  end.

Definition DhcpGetOptionByte (m : list Z) (type : Z) : outcome (option Z) :=
  i ← find_option 31 (options m) 0 type;
  match i with
  | None => Ok None
  | Some i =>
      match options m !! (i + 2)%nat with
      | None => Fail UndefinedBehaviour
      | Some v => Ok (Some v)
      end
  end.

(** The four bytes as they are stored. *)
Definition DhcpGetOptionLong (m : list Z) (type : Z) : outcome (option Z) :=
  i ← find_option 31 (options m) 0 type;
  match i with
  | None => Ok None
  | Some i =>
      if (i + 6 <=? kDhcpOptionsLen)%nat then Ok (Some (le (take 4 (drop (i + 2) (options m)))))
      else Fail UndefinedBehaviour
  end.

(** ** Messages *)

Definition ntohl (v : Z) : Z := le (to_be32 v).

Definition DhcpSetState (s : State) (p : DhcpPcb) : DhcpPcb :=
  if decide (s = state p) then p else set_state_tries s 0 p.

(** [rnd] is what random::Get returns, if it is called. *)
Definition DhcpCreateMessage (rnd : Z) (mac : list Z) (x : DhcpPcb * list Z) : DhcpPcb * list Z :=
  let '(p, m) := x in
  let p := if tries p =? 0 then set_xid (u32 rnd) p else p in
  let m := put_bytes 0 [kDhcpOpRequest; kDhcpHTypeEth; kDhcpHLenEth] m in
  let m := put_bytes xid_off (to_be32 (xid p)) m in
  let m := put_bytes chaddr_off mac m in
  let m := put_bytes cookie_off (to_be32 kDhcpMagicCookie) m in
  (set_options_len 0 p, m).

(** MakeUniqueIOBuf(sizeof(DhcpMessage), true). *)
Definition zero_message : list Z := replicate (Z.to_nat sizeofDhcpMessage) 0.

Definition request_list (x : DhcpPcb * list Z) : outcome (DhcpPcb * list Z) :=
  x ← DhcpOption kDhcpOptionParameterRequestList 3 x;
  x ← DhcpOptionByte kDhcpOptionSubnetMask x;
  x ← DhcpOptionByte kDhcpOptionRouter x;
  x ← DhcpOptionByte kDhcpOptionBroadcast x;
  DhcpOptionTrailer x.

(** The end of DhcpDiscover and DhcpHandleOffer: the message is sent, and the timer
    started with a time that doubles. *)
Definition send_and_wait (x : DhcpPcb * list Z) : DhcpPcb * list effect :=
  let '(p, m) := x in
  let p := set_state_tries (state p) (u64 (tries p + 1)) p in
  let timeout := if tries p <? 6 then Z.shiftl 1 (tries p) else 60 in
  (p, [SendTo ip_Broadcast kDhcpServerPort m; StartTimer timeout]).

Definition DhcpDiscover (rnd : Z) (mac : list Z) (p : DhcpPcb) : outcome (DhcpPcb * list effect) :=
  let p := DhcpSetState kSelecting p in
  let x := DhcpCreateMessage rnd mac (p, zero_message) in
  x ← DhcpOption kDhcpOptionMessageType 1 x;
  x ← DhcpOptionByte kDhcpOptionMessageTypeDiscover x;
  x ← request_list x;
  Ok (send_and_wait x).

Definition DhcpHandleOffer (rnd : Z) (mac m : list Z) (p : DhcpPcb) : outcome (DhcpPcb * list effect) :=
  server_id_opt ← DhcpGetOptionLong m kDhcpOptionServerId;
  match server_id_opt with
  | None => Ok (p, [])
  | Some server_id =>
      let p := set_last_offer m p in
      let offered_ip := ip_at yiaddr_off m in
      let p := DhcpSetState kRequesting p in
      let x := DhcpCreateMessage rnd mac (p, zero_message) in
      x ← DhcpOption kDhcpOptionMessageType 1 x;
      x ← DhcpOptionByte kDhcpOptionMessageTypeRequest x;
      x ← DhcpOption kDhcpOptionRequestIp 4 x;
      x ← DhcpOptionLong (toU32 offered_ip) x;
      x ← DhcpOption kDhcpOptionServerId 4 x;
      x ← DhcpOptionLong server_id x;
      x ← request_list x;
      let '(p, es) := send_and_wait x in
      Ok (p, StopTimer :: es)
  end.

Definition seconds : Z := 1000000000.

(** [now] is the wall clock. *)
Definition DhcpHandleAck (now : Z) (m : list Z) (p : DhcpPcb) : outcome (DhcpPcb * list effect) :=
  lease_secs_opt ← DhcpGetOptionLong m kDhcpOptionLeaseTime;
  let lease := match lease_secs_opt with Some s => ntohl s | None => 0 end in
  renew_secs_opt ← DhcpGetOptionLong m kDhcpOptionRenewalTime;
  let renewal := match renew_secs_opt with Some s => ntohl s | None => Z.quot lease 2 end in
  rebind_secs_opt ← DhcpGetOptionLong m kDhcpOptionRebindingTime;
  let rebind := match rebind_secs_opt with Some s => ntohl s | None => lease end in
  let p := set_times (now + lease * seconds) (now + renewal * seconds) (now + rebind * seconds) p in
  netmask_opt ← DhcpGetOptionLong m kDhcpOptionSubnetMask;
  mask ← deref netmask_opt;
  gw_opt ← DhcpGetOptionLong m kDhcpOptionRouter;
  gw ← deref gw_opt;
  let addr := mkItf (ip_at yiaddr_off m) (ip_of_u32 mask) (ip_of_u32 gw) in
  let p := DhcpSetState kBound p in
  if complete p then Fail (Thrown "promise already satisfied")
  else Ok (set_complete p, [StopTimer; StartTimer renewal; SetAddress addr]).

(** [ReceiveDhcp] on core 0. *)
Definition ReceiveDhcp (now rnd : Z) (mac : list Z) (buf : packet) (p : DhcpPcb) : outcome (DhcpPcb * list effect) :=
  if pkt_len buf <? sizeofDhcpMessage then Ok (p, [])
  else
    let m := take (Z.to_nat sizeofDhcpMessage) (pkt_data buf) in
    if negb (byte_at 0 m =? kDhcpOpReply) then Ok (p, [])
    else if negb (be32 xid_off m =? xid p) then Ok (p, [])
    else
      msg_type ← DhcpGetOptionByte m kDhcpOptionMessageType;
      match msg_type with
      | None => Ok (p, [])
      | Some t =>
          if t =? kDhcpOptionMessageTypeOffer then
            if decide (state p = kSelecting) then DhcpHandleOffer rnd mac m p else Ok (p, [])
          else if t =? kDhcpOptionMessageTypeAck then
            if decide (state p = kRequesting) then DhcpHandleAck now m p else Ok (p, [])
          else Ok (p, [])
      end.

(** [DhcpPcb::Fire]. *)
Definition Fire (now rnd : Z) (mac : list Z) (p : DhcpPcb) : outcome (DhcpPcb * list effect) :=
  match state p with
  | kRequesting => DhcpHandleOffer rnd mac (last_offer p) p
  | kSelecting => DhcpDiscover rnd mac p
  | kBound =>
      if lease_time p <? now then Fail Aborted
      else if renewal_time p <? now then Fail Aborted
      else if rebind_time p <? now then Fail Aborted
      else Ok (p, [])
  | kInactive => Ok (p, [])
  end.

(** [Interface::StartDhcp]. *)
Definition Interface_StartDhcp (rnd : Z) (mac : list Z) (p : DhcpPcb) : outcome (DhcpPcb * list effect) :=
  '(p, es) ← DhcpDiscover rnd mac p;
  Ok (p, Bind kDhcpClientPort :: es).

(** [NetworkManager::StartDhcp] on core [me], with the command line of the kernel:
    the future it returns. *)
Inductive started :=
| Ready                                     (* a static address *)
| Waiting (p : DhcpPcb) (es : list effect)  (* the future of the client *)
| NoInterface.                              (* failed: No interface to DHCP *)

Definition StartDhcp (me : nat) (cmdline : string) (itf : option DhcpPcb) (rnd : Z) (mac : list Z) : outcome started :=
  _ ← kassert (me =? 0)%nat;
  match String.index 0 "nodhcp" cmdline with
  | Some _ => Ok Ready
  | None =>
      match itf with
      | None => Ok NoInterface
      | Some p => '(p, es) ← Interface_StartDhcp rnd mac p; Ok (Waiting p es)
      end
  end.
