(* ===== verification/NetDhcpCorrect.v ===== *)
(** * Correctness of the DHCP client

    The options that are written are read back; the exchange with a server binds
    the address it acknowledges; the address is set and the future completed at
    most once, whatever is received; the retries back off; and the replies that
    stop the machine or that it cannot read. *)

From S2P Require Import Prelude Checksum NetIp NetDhcp.

(** ** Options as a list *)

(** Options without padding: codes and values. *)
Definition encode_option (o : Z * list Z) : list Z := o.1 :: Z.of_nat (length o.2) :: o.2.
Definition encode_options (l : list (Z * list Z)) : list Z := concat (encode_option <$> l).

Definition option_ok (o : Z * list Z) : Prop := o.1 <> kDhcpOptionEnd.

(** The options of [m] are [l], terminated. *)
Definition has_options (m : list Z) (l : list (Z * list Z)) : Prop :=
  Forall option_ok l /\ exists rest, options m = encode_options l ++ kDhcpOptionEnd :: rest /\
    length (options m) = kDhcpOptionsLen.

(** The value of the first option with the code. *)
Fixpoint first_option (type : Z) (l : list (Z * list Z)) : option (list Z) :=
  match l with
  | [] => None
  | (c, v) :: l => if c =? type then Some v else first_option type l
  end.

Lemma encode_options_length l : (2 * length l <= length (encode_options l))%nat.
Proof.
  induction l as [|[c v] l IH]; [done |]. change (encode_options ((c, v) :: l)) with (encode_option (c, v) ++ encode_options l).
  rewrite length_app. cbn. lia.
Qed.

(** The search from the start of [l], with [pre] skipped. *)
Lemma find_option_from type l : forall pre rest fuel,
  Forall option_ok l -> type <> kDhcpOptionEnd -> (length l < fuel)%nat ->
  length (pre ++ encode_options l ++ kDhcpOptionEnd :: rest) = kDhcpOptionsLen ->
  match first_option type l with
  | None => find_option fuel (pre ++ encode_options l ++ kDhcpOptionEnd :: rest) (length pre) type = Ok None
  | Some v => exists before after,
      pre ++ encode_options l ++ kDhcpOptionEnd :: rest = before ++ type :: Z.of_nat (length v) :: v ++ after /\
      find_option fuel (pre ++ encode_options l ++ kDhcpOptionEnd :: rest) (length pre) type = Ok (Some (length before))
  end.
Proof.
  induction l as [|[c v] l IH]; intros pre rest fuel Hok Ht Hf Hlen; destruct fuel as [|fuel]; [cbn in Hf; lia | | cbn in Hf; lia |].
  - cbn [first_option]. cbn [find_option encode_options fmap list_fmap concat app] in *.
    assert ((length pre =? kDhcpOptionsLen)%nat = false) as -> by (apply Nat.eqb_neq; rewrite length_app in Hlen; cbn in Hlen; lia).
    rewrite list_lookup_middle by done. apply not_eq_sym, Z.eqb_neq in Ht. by rewrite Ht, Z.eqb_refl.
  - apply Forall_cons in Hok as [Hc Hok]. change (encode_options ((c, v) :: l)) with (encode_option (c, v) ++ encode_options l) in *.
    assert (pre ++ (encode_option (c, v) ++ encode_options l) ++ kDhcpOptionEnd :: rest =
            (pre ++ encode_option (c, v)) ++ encode_options l ++ kDhcpOptionEnd :: rest) as Ea by (by rewrite <- !app_assoc).
    cbn [find_option first_option].
    assert ((length pre =? kDhcpOptionsLen)%nat = false) as -> by (apply Nat.eqb_neq; rewrite length_app in Hlen; cbn in Hlen; lia).
    set (all := pre ++ _) in *.
    assert (all !! length pre = Some c) as -> by (apply list_lookup_middle; done).
    destruct (Z.eqb_spec c type) as [->|Hne].
    { exists pre, (encode_options l ++ kDhcpOptionEnd :: rest). split; [| done]. unfold all, encode_option. cbn. by rewrite <- app_assoc. }
    assert ((c =? kDhcpOptionEnd) = false) as -> by (by apply Z.eqb_neq).
    assert (all !! S (length pre) = Some (Z.of_nat (length v))) as ->.
    { unfold all. rewrite lookup_app_r by lia. replace (S (length pre) - length pre)%nat with 1%nat by lia. done. }
    rewrite Nat2Z.id. rewrite Ea.
    replace (length pre + length v + 2)%nat with (length (pre ++ encode_option (c, v))) by (rewrite length_app; cbn; lia).
    apply IH; [done | done | cbn in Hf; lia | by rewrite <- Ea].
Qed.

Lemma find_option_spec m l type :
  has_options m l -> type <> kDhcpOptionEnd ->
  match first_option type l with
  | None => find_option 31 (options m) 0 type = Ok None
  | Some v => exists before after,
      options m = before ++ type :: Z.of_nat (length v) :: v ++ after /\ find_option 31 (options m) 0 type = Ok (Some (length before))
  end.
Proof.
  intros (Hok & rest & Ho & Hlen) Ht. rewrite Ho in *.
  apply (find_option_from type l [] rest 31 Hok Ht); [| done].
  pose proof (encode_options_length l). rewrite length_app in Hlen. cbn in Hlen. unfold kDhcpOptionsLen in Hlen. lia.
Qed.

Lemma get_byte_spec m l type :
  has_options m l -> type <> kDhcpOptionEnd ->
  (first_option type l = None -> DhcpGetOptionByte m type = Ok None) /\
  (forall b v, first_option type l = Some (b :: v) -> DhcpGetOptionByte m type = Ok (Some b)).
Proof.
  intros Hm Ht. pose proof (find_option_spec m l type Hm Ht) as Hf. split.
  - intros E. rewrite E in Hf. unfold DhcpGetOptionByte. by rewrite Hf.
  - intros b v E. rewrite E in Hf. destruct Hf as (before & after & Ho & Hf). unfold DhcpGetOptionByte. rewrite Hf, bind_Ok, Ho.
    rewrite lookup_app_r by lia. replace (length before + 2 - length before)%nat with 2%nat by lia. done.
Qed.

Lemma get_long_spec m l type :
  has_options m l -> type <> kDhcpOptionEnd ->
  (first_option type l = None -> DhcpGetOptionLong m type = Ok None) /\
  (forall v, first_option type l = Some v -> (4 <= length v)%nat -> DhcpGetOptionLong m type = Ok (Some (le (take 4 v)))).
Proof.
  intros Hm Ht. pose proof (find_option_spec m l type Hm Ht) as Hf. split.
  - intros E. rewrite E in Hf. unfold DhcpGetOptionLong. by rewrite Hf.
  - intros v E Hv. rewrite E in Hf. destruct Hf as (before & after & Ho & Hf). unfold DhcpGetOptionLong. rewrite Hf, bind_Ok.
    destruct Hm as (_ & rest & _ & Hlen). rewrite Ho in Hlen |- *. rewrite !length_app in Hlen. cbn in Hlen. rewrite length_app in Hlen.
    assert ((length before + 6 <=? kDhcpOptionsLen)%nat = true) as -> by (apply Nat.leb_le; lia).
    rewrite drop_app_ge by lia. replace (length before + 2 - length before)%nat with 2%nat by lia.
    change (drop 2 (type :: Z.of_nat (length v) :: v ++ after)) with (v ++ after). by rewrite take_app_le by lia.
Qed.

(** ** The messages of the client *)

Definition zeros (n : nat) : list Z := replicate n 0.

(** A request with the given transaction, hardware address and options. *)
Definition client_message (x : Z) (mac : list Z) (l : list (Z * list Z)) : list Z :=
  [kDhcpOpRequest; kDhcpHTypeEth; kDhcpHLenEth; 0] ++ to_be32 x ++ zeros 20 ++ mac ++ zeros 202 ++
  to_be32 kDhcpMagicCookie ++ encode_options l ++ kDhcpOptionEnd :: zeros (kDhcpOptionsLen - S (length (encode_options l))).

Definition wanted : Z * list Z :=
  (kDhcpOptionParameterRequestList, [kDhcpOptionSubnetMask; kDhcpOptionRouter; kDhcpOptionBroadcast]).
Definition discover_options : list (Z * list Z) := [(kDhcpOptionMessageType, [kDhcpOptionMessageTypeDiscover]); wanted].
Definition request_options (ip : Ipv4Address) (server : list Z) : list (Z * list Z) :=
  [(kDhcpOptionMessageType, [kDhcpOptionMessageTypeRequest]); (kDhcpOptionRequestIp, ip_bytes ip);
   (kDhcpOptionServerId, server); wanted].

(** The transaction of the next message in state [s]. *)
Definition next_xid (rnd : Z) (s : State) (p : DhcpPcb) : Z :=
  if tries (DhcpSetState s p) =? 0 then u32 rnd else xid p.
Definition next_tries (s : State) (p : DhcpPcb) : Z := u64 (tries (DhcpSetState s p) + 1).
Definition backoff (t : Z) : Z := if t <? 6 then Z.shiftl 1 t else 60.

Definition after_send (rnd : Z) (s : State) (offer : list Z) (n : nat) (p : DhcpPcb) : DhcpPcb :=
  mkDhcp offer s (next_xid rnd s p) (next_tries s p) n (lease_time p) (renewal_time p) (rebind_time p) (complete p).

Lemma mac_bytes (mac : list Z) : length mac = 6%nat -> exists a b c d e f, mac = [a; b; c; d; e; f].
Proof.
  intros H. do 6 (destruct mac as [|? mac]; [done |]). destruct mac; [| done]. by repeat eexists.
Qed.

(** A message with the options written so far. *)
Definition written (x : Z) (mac opts : list Z) : list Z :=
  [kDhcpOpRequest; kDhcpHTypeEth; kDhcpHLenEth; 0] ++ to_be32 x ++ zeros 20 ++ mac ++ zeros 202 ++
  to_be32 kDhcpMagicCookie ++ opts ++ zeros (60 - length opts).

Lemma create_spec rnd mac s p : length mac = 6%nat ->
  DhcpCreateMessage rnd mac (DhcpSetState s p, zero_message) =
  (mkDhcp (last_offer p) s (next_xid rnd s p) (tries (DhcpSetState s p)) 0 (lease_time p) (renewal_time p) (rebind_time p) (complete p),
   written (next_xid rnd s p) mac []).
Proof.
  intros Hm. destruct (mac_bytes mac Hm) as (a & b & c & d & e & f & ->). unfold DhcpCreateMessage.
  assert (forall q x, (set_options_len 0 q, put_bytes cookie_off (to_be32 kDhcpMagicCookie)
    (put_bytes chaddr_off [a; b; c; d; e; f] (put_bytes xid_off (to_be32 x) (put_bytes 0 [kDhcpOpRequest; kDhcpHTypeEth; kDhcpHLenEth] zero_message)))) =
    (set_options_len 0 q, written x [a; b; c; d; e; f] [])) as Hput.
  { reflexivity. }
  rewrite Hput. unfold next_xid, DhcpSetState. destruct p as [lo st x t n l r b0 co].
  destruct (decide _) as [E|E]; cbn -[written]; cbn in E; [subst st; by destruct (t =? 0) | done].
Qed.

Lemma put_written x mac opts bs : length mac = 6%nat -> (length opts + length bs <= 60)%nat ->
  put_bytes (options_off + length opts) bs (written x mac opts) = written x mac (opts ++ bs).
Proof.
  intros Hm Hl. unfold written, put_bytes.
  set (hdr := [kDhcpOpRequest; kDhcpHTypeEth; kDhcpHLenEth; 0] ++ to_be32 x ++ zeros 20 ++ mac ++ zeros 202 ++ to_be32 kDhcpMagicCookie).
  assert (length hdr = options_off) as Hh by (unfold hdr, zeros; rewrite !length_app, !length_replicate, Hm; reflexivity).
  assert (forall t, [kDhcpOpRequest; kDhcpHTypeEth; kDhcpHLenEth; 0] ++ to_be32 x ++ zeros 20 ++ mac ++ zeros 202 ++
    to_be32 kDhcpMagicCookie ++ t = hdr ++ t) as Ha by (intros t; unfold hdr; by rewrite <- !app_assoc).
  rewrite !Ha, <- Hh. rewrite take_app_ge by lia.
  replace (length hdr + length opts - length hdr)%nat with (length opts) by lia. rewrite take_app_length, <- !app_assoc. do 3 f_equal.
  rewrite drop_app_ge by lia. rewrite drop_app_ge by lia. rewrite length_app. unfold zeros. rewrite drop_replicate. f_equal. lia.
Qed.

(** The client while it writes a message. *)
Definition writing (x : Z) (mac : list Z) (p : DhcpPcb) (opts : list Z) : DhcpPcb * list Z :=
  (set_options_len (length opts) p, written x mac opts).

Lemma write_spec x mac p opts bs :
  length mac = 6%nat -> (length opts + length bs <= 60)%nat ->
  (set_options_len (options_len (set_options_len (length opts) p) + length bs) (set_options_len (length opts) p),
   put_bytes (options_off + options_len (set_options_len (length opts) p)) bs (written x mac opts)) = writing x mac p (opts ++ bs).
Proof. intros Hm Hl. unfold writing. cbn [options_len set_options_len]. rewrite put_written, length_app by done. done. Qed.

Section Writers.
Context (x : Z) (mac : list Z) (p : DhcpPcb).
Hypothesis (Hm : length mac = 6%nat).

Lemma option_spec opts t l : (length opts + 2 <=? 60)%nat = true ->
  DhcpOption t l (writing x mac p opts) = Ok (writing x mac p (opts ++ [t; l])).
Proof.
  intros Hl. unfold DhcpOption, writing at 1. cbn [options_len set_options_len]. unfold kDhcpOptionsLen. rewrite Hl. apply (f_equal Ok).
  apply (write_spec x mac p opts [t; l]); [done |]. by apply Nat.leb_le.
Qed.

Lemma byte_spec opts v : (length opts + 1 <=? 60)%nat = true ->
  DhcpOptionByte v (writing x mac p opts) = Ok (writing x mac p (opts ++ [v])).
Proof.
  intros Hl. unfold DhcpOptionByte, writing at 1. cbn [options_len set_options_len]. unfold kDhcpOptionsLen. rewrite Hl. apply (f_equal Ok).
  apply (write_spec x mac p opts [v]); [done |]. by apply Nat.leb_le.
Qed.

Lemma long_spec opts v : (length opts + 4 <=? 60)%nat = true ->
  DhcpOptionLong v (writing x mac p opts) = Ok (writing x mac p (opts ++ to_le32 v)).
Proof.
  intros Hl. unfold DhcpOptionLong, writing at 1. cbn [options_len set_options_len]. unfold kDhcpOptionsLen. rewrite Hl. apply (f_equal Ok).
  apply (write_spec x mac p opts (to_le32 v)); [done |]. by apply Nat.leb_le.
Qed.

Lemma trailer_spec opts : (length opts + 1 <=? 60)%nat = true ->
  DhcpOptionTrailer (writing x mac p opts) = Ok (writing x mac p (opts ++ [kDhcpOptionEnd])).
Proof. apply byte_spec. Qed.

Lemma request_list_spec opts : (length opts + 6 <=? 60)%nat = true ->
  request_list (writing x mac p opts) = Ok (writing x mac p (opts ++ encode_option wanted ++ [kDhcpOptionEnd])).
Proof.
  intros Hl. apply Nat.leb_le in Hl. unfold request_list.
  rewrite option_spec by (apply Nat.leb_le; lia). rewrite bind_Ok.
  rewrite byte_spec by (apply Nat.leb_le; rewrite !length_app; cbn; lia). rewrite bind_Ok.
  rewrite byte_spec by (apply Nat.leb_le; rewrite !length_app; cbn; lia). rewrite bind_Ok.
  rewrite byte_spec by (apply Nat.leb_le; rewrite !length_app; cbn; lia). rewrite bind_Ok.
  rewrite trailer_spec by (apply Nat.leb_le; rewrite !length_app; cbn; lia). by rewrite <- !app_assoc.
Qed.
End Writers.

Lemma written_client x mac l : (length (encode_options l) < 60)%nat ->
  written x mac (encode_options l ++ [kDhcpOptionEnd]) = client_message x mac l.
Proof.
  intros Hl. unfold written, client_message. do 6 f_equal. rewrite <- app_assoc. f_equal. cbn [app]. do 2 f_equal.
  rewrite length_app. cbn. unfold kDhcpOptionsLen. lia.
Qed.

Definition sent (x t : Z) (mac : list Z) (l : list (Z * list Z)) : list effect :=
  [SendTo ip_Broadcast kDhcpServerPort (client_message x mac l); StartTimer (backoff t)].

Lemma discover_spec rnd mac p : length mac = 6%nat ->
  DhcpDiscover rnd mac p = Ok (after_send rnd kSelecting (last_offer p) 9 p,
    sent (next_xid rnd kSelecting p) (next_tries kSelecting p) mac discover_options).
Proof.
  intros Hm. unfold DhcpDiscover. rewrite create_spec by done. set (q := mkDhcp _ _ _ _ _ _ _ _ _).
  change (q, written (next_xid rnd kSelecting p) mac []) with (writing (next_xid rnd kSelecting p) mac q []).
  rewrite option_spec, bind_Ok, byte_spec, bind_Ok, request_list_spec, bind_Ok by done.
  unfold sent. rewrite <- (written_client _ _ discover_options) by (cbn; lia). reflexivity.
Qed.

Lemma set_last_offer_tries s m p : tries (DhcpSetState s (set_last_offer m p)) = tries (DhcpSetState s p).
Proof. unfold DhcpSetState. cbn. by destruct (decide _). Qed.

Lemma offer_spec rnd mac m p server : length mac = 6%nat -> DhcpGetOptionLong m kDhcpOptionServerId = Ok (Some server) ->
  DhcpHandleOffer rnd mac m p = Ok (after_send rnd kRequesting m 21 p,
    StopTimer :: sent (next_xid rnd kRequesting p) (next_tries kRequesting p) mac
      (request_options (ip_of_u32 (toU32 (ip_at yiaddr_off m))) (to_le32 server))).
Proof.
  intros Hm Hs. unfold DhcpHandleOffer. rewrite Hs, bind_Ok, create_spec by done.
  assert (next_xid rnd kRequesting (set_last_offer m p) = next_xid rnd kRequesting p) as ->
    by (unfold next_xid; by rewrite set_last_offer_tries).
  rewrite set_last_offer_tries. set (q := mkDhcp _ _ _ _ _ _ _ _ _).
  change (q, written (next_xid rnd kRequesting p) mac []) with (writing (next_xid rnd kRequesting p) mac q []).
  rewrite option_spec, bind_Ok, byte_spec, bind_Ok, option_spec, bind_Ok, long_spec, bind_Ok, option_spec, bind_Ok,
    long_spec, bind_Ok, request_list_spec, bind_Ok by done.
  unfold sent. rewrite <- (written_client _ _ (request_options _ _)) by (cbn; lia). reflexivity.
Qed.

(** ** Values of four bytes *)

Lemma take4_bytes v : bytes v -> (4 <= length v)%nat ->
  exists a b c d, take 4 v = [a; b; c; d] /\ byte_at 0 v = a /\ byte_at 1 v = b /\ byte_at 2 v = c /\ byte_at 3 v = d /\ bytes [a; b; c; d].
Proof.
  intros Hb Hl. do 4 (destruct v as [|? v]; [cbn in Hl; lia |]). unfold bytes in *.
  repeat (apply Forall_cons in Hb as [? Hb]). repeat eexists; repeat constructor; tauto.
Qed.

Lemma to_le32_le a b c d : bytes [a; b; c; d] -> to_le32 (le [a; b; c; d]) = [a; b; c; d].
Proof.
  unfold bytes. intros Hb. repeat (apply Forall_cons in Hb as [? Hb]). unfold to_le32, le, u8, wrap. cbn [fold_right].
  rewrite !Z.shiftr_div_pow2 by lia. repeat f_equal; Z.to_euclidean_division_equations; lia.
Qed.

Lemma ntohl_le a b c d : bytes [a; b; c; d] -> ntohl (le [a; b; c; d]) = be32 0 [a; b; c; d].
Proof.
  unfold bytes. intros Hb. repeat (apply Forall_cons in Hb as [? Hb]). unfold ntohl, to_be32, to_be16, be32, be16, byte_at, le, u8, wrap.
  cbn [fold_right nth app]. rewrite !Z.shiftr_div_pow2 by lia. Z.to_euclidean_division_equations. lia.
Qed.

Lemma ip_of_le a b c d : bytes [a; b; c; d] -> ip_of_u32 (le [a; b; c; d]) = mkIp a b c d.
Proof. intros Hb. pose proof (to_le32_le _ _ _ _ Hb) as E. unfold to_le32 in E. injection E as E0 E1 E2 E3. unfold ip_of_u32. f_equal; assumption. Qed.

Lemma ip_of_toU32 ip : ip_ok ip -> ip_of_u32 (toU32 ip) = ip.
Proof. destruct ip. intros H. by apply ip_of_le. Qed.

(** ** Replies *)

(** The buffer [buf] holds a reply to transaction [x] with options [l]. *)
Record reply (buf : packet) (x : Z) (l : list (Z * list Z)) (m : list Z) : Prop := {
  reply_len : sizeofDhcpMessage <= pkt_len buf;
  reply_message : m = take 300 (pkt_data buf);
  reply_op : byte_at 0 m = kDhcpOpReply;
  reply_xid : be32 xid_off m = x;
  reply_options : has_options m l;
  reply_bytes : Forall (fun o => bytes o.2) l
}.

(** The option is there and has its four bytes. *)
Definition long_option (t : Z) (l : list (Z * list Z)) (v : list Z) : Prop := first_option t l = Some v /\ (4 <= length v)%nat.

Lemma first_option_bytes t l v : Forall (fun o => bytes o.2) l -> first_option t l = Some v -> bytes v.
Proof.
  intros Hb. induction Hb as [|[c w] l Hw Hb IH]; cbn; [done |]. destruct (c =? t); [by intros [= <-] | done].
Qed.

Lemma reply_long buf x l m t v : reply buf x l m -> t <> kDhcpOptionEnd -> long_option t l v ->
  exists a b c d, take 4 v = [a; b; c; d] /\ bytes [a; b; c; d] /\ be32 0 v = be32 0 [a; b; c; d] /\ ip_at 0 v = mkIp a b c d /\
    DhcpGetOptionLong m t = Ok (Some (le [a; b; c; d])).
Proof.
  intros Hr Ht [Hv Hl]. pose proof (first_option_bytes _ _ _ (reply_bytes _ _ _ _ Hr) Hv) as Hb.
  destruct (take4_bytes v Hb Hl) as (a & b & c & d & Et & Ha & Hb' & Hc & Hd & Hbs). exists a, b, c, d.
  split; [done |]. split; [done |]. split; [unfold be32, be16; by rewrite Ha, Hb', Hc, Hd |].
  split; [unfold ip_at; cbn -[byte_at]; by rewrite Ha, Hb', Hc, Hd |].
  rewrite <- Et. by eapply get_long_spec; [apply Hr | | |].
Qed.

(** A time in seconds, or the default. *)
Definition time_option (t : Z) (l : list (Z * list Z)) (dflt : Z) : Z :=
  match first_option t l with Some v => be32 0 v | None => dflt end.

Lemma reply_time buf x l m t dflt : reply buf x l m -> t <> kDhcpOptionEnd ->
  (forall v, first_option t l = Some v -> (4 <= length v)%nat) ->
  exists o, DhcpGetOptionLong m t = Ok o /\ match o with Some s => ntohl s | None => dflt end = time_option t l dflt.
Proof.
  intros Hr Ht Hl. unfold time_option. destruct (first_option t l) as [v|] eqn:E.
  - destruct (reply_long _ _ _ _ t v Hr Ht (conj E (Hl v eq_refl))) as (a & b & c & d & _ & Hb & Hbe & _ & Hg).
    exists (Some (le [a; b; c; d])). split; [exact Hg |]. rewrite Hbe. by apply ntohl_le.
  - exists None. split; [| done]. by eapply get_long_spec; [apply Hr | |].
Qed.

(** The dispatch of a reply with a message type. *)
Lemma receive_reply now rnd mac buf x l m p t rest : reply buf x l m -> x = xid p ->
  first_option kDhcpOptionMessageType l = Some (t :: rest) ->
  ReceiveDhcp now rnd mac buf p =
    if t =? kDhcpOptionMessageTypeOffer then
      if decide (state p = kSelecting) then DhcpHandleOffer rnd mac m p else Ok (p, [])
    else if t =? kDhcpOptionMessageTypeAck then
      if decide (state p = kRequesting) then DhcpHandleAck now m p else Ok (p, [])
    else Ok (p, []).
Proof.
  intros Hr Hx Ht. unfold ReceiveDhcp.
  assert ((pkt_len buf <? sizeofDhcpMessage) = false) as -> by (apply Z.ltb_ge, Hr).
  change (Z.to_nat sizeofDhcpMessage) with 300%nat. rewrite <- (reply_message _ _ _ _ Hr).
  rewrite (reply_op _ _ _ _ Hr), (reply_xid _ _ _ _ Hr), Hx, !Z.eqb_refl. cbn [negb].
  destruct (get_byte_spec m l kDhcpOptionMessageType (reply_options _ _ _ _ Hr) ltac:(done)) as [_ Hg].
  by rewrite (Hg _ _ Ht), bind_Ok.
Qed.

(** What an acknowledgement needs. *)
Record ack_options (l : list (Z * list Z)) (mask gw : list Z) : Prop := {
  ack_type : first_option kDhcpOptionMessageType l = Some [kDhcpOptionMessageTypeAck];
  ack_mask : long_option kDhcpOptionSubnetMask l mask;
  ack_gw : long_option kDhcpOptionRouter l gw;
  ack_times : forall t v, t = kDhcpOptionLeaseTime \/ t = kDhcpOptionRenewalTime \/ t = kDhcpOptionRebindingTime ->
    first_option t l = Some v -> (4 <= length v)%nat
}.

Definition bound (now : Z) (l : list (Z * list Z)) (p p' : DhcpPcb) : Prop :=
  let lease := time_option kDhcpOptionLeaseTime l 0 in
  state p' = kBound /\ complete p' = true /\ lease_time p' = now + lease * seconds /\
  renewal_time p' = now + time_option kDhcpOptionRenewalTime l (Z.quot lease 2) * seconds /\
  rebind_time p' = now + time_option kDhcpOptionRebindingTime l lease * seconds.

Lemma ack_spec now buf x l m mask gw p : reply buf x l m -> ack_options l mask gw -> complete p = false ->
  exists p', DhcpHandleAck now m p = Ok (p', [StopTimer;
    StartTimer (time_option kDhcpOptionRenewalTime l (Z.quot (time_option kDhcpOptionLeaseTime l 0) 2));
    SetAddress (mkItf (ip_at yiaddr_off m) (ip_at 0 mask) (ip_at 0 gw))]) /\ bound now l p p'.
Proof.
  intros Hr Ha Hc. unfold DhcpHandleAck.
  destruct (reply_time _ _ _ _ kDhcpOptionLeaseTime 0 Hr ltac:(done) (fun v => ack_times _ _ _ Ha kDhcpOptionLeaseTime v ltac:(tauto))) as (o1 & E1 & T1).
  rewrite E1, bind_Ok, T1. set (lease := time_option kDhcpOptionLeaseTime l 0).
  destruct (reply_time _ _ _ _ kDhcpOptionRenewalTime (Z.quot lease 2) Hr ltac:(done) (fun v => ack_times _ _ _ Ha kDhcpOptionRenewalTime v ltac:(tauto))) as (o2 & E2 & T2).
  rewrite E2, bind_Ok, T2.
  destruct (reply_time _ _ _ _ kDhcpOptionRebindingTime lease Hr ltac:(done) (fun v => ack_times _ _ _ Ha kDhcpOptionRebindingTime v ltac:(tauto))) as (o3 & E3 & T3).
  rewrite E3, bind_Ok, T3.
  destruct (reply_long _ _ _ _ kDhcpOptionSubnetMask mask Hr ltac:(done) (ack_mask _ _ _ Ha)) as (a & b & c & d & _ & Hb & _ & Hip & ->).
  rewrite bind_Ok. cbn [deref]. rewrite bind_Ok.
  destruct (reply_long _ _ _ _ kDhcpOptionRouter gw Hr ltac:(done) (ack_gw _ _ _ Ha)) as (a' & b' & c' & d' & _ & Hb' & _ & Hip' & ->).
  rewrite bind_Ok. cbn [deref]. rewrite bind_Ok. rewrite !ip_of_le, Hip, Hip' by done.
  unfold DhcpSetState. cbn [state set_times].
  destruct (decide (kBound = state p)); cbn [complete set_times set_state_tries]; rewrite Hc; eexists; (split; [reflexivity |]);
    unfold bound; cbn; auto.
Qed.

(** ** The exchange *)

Lemma DhcpSetState_ne s p : state p <> s -> DhcpSetState s p = set_state_tries s 0 p.
Proof. intros Hs. unfold DhcpSetState. destruct (decide (s = state p)); [congruence | done]. Qed.

Lemma fresh_xid rnd s p : state p <> s -> next_xid rnd s p = u32 rnd /\ next_tries s p = 1.
Proof.
  intros Hs. unfold next_xid, next_tries. by rewrite DhcpSetState_ne.
Qed.

(** C36. The exchange with a server: the client broadcasts a discover message; the
    server's offer is accepted with a request that names the offered address and
    the server; the acknowledgement sets the interface's address, netmask and
    gateway from the message, records the lease, starts the renewal timer and
    completes the future.  Replies may come in any buffers and carry any other
    options. *)
Theorem dhcp_exchange mac p0 now1 now2 r1 r2 r3 b1 b2 l1 l2 m1 m2 server mask gw :
  length mac = 6%nat -> state p0 <> kSelecting -> complete p0 = false ->
  reply b1 (u32 r1) l1 m1 -> first_option kDhcpOptionMessageType l1 = Some [kDhcpOptionMessageTypeOffer] ->
  long_option kDhcpOptionServerId l1 server -> length server = 4%nat -> ip_ok (ip_at yiaddr_off m1) ->
  reply b2 (u32 r2) l2 m2 -> ack_options l2 mask gw ->
  exists p1 p2 p3 renewal,
    Interface_StartDhcp r1 mac p0 = Ok (p1, Bind kDhcpClientPort :: sent (u32 r1) 1 mac discover_options) /\
    ReceiveDhcp now1 r2 mac b1 p1 =
      Ok (p2, StopTimer :: sent (u32 r2) 1 mac (request_options (ip_at yiaddr_off m1) server)) /\
    ReceiveDhcp now2 r3 mac b2 p2 =
      Ok (p3, [StopTimer; StartTimer renewal; SetAddress (mkItf (ip_at yiaddr_off m2) (ip_at 0 mask) (ip_at 0 gw))]) /\
    renewal = time_option kDhcpOptionRenewalTime l2 (Z.quot (time_option kDhcpOptionLeaseTime l2 0) 2) /\
    bound now2 l2 p2 p3.
Proof.
  intros Hm Hs Hc Hr1 Ht1 Hsid Hsl Hip Hr2 Ha.
  destruct (fresh_xid r1 kSelecting p0 Hs) as [Ex1 En1].
  set (p1 := after_send r1 kSelecting (last_offer p0) 9 p0).
  assert (state p1 <> kRequesting) as Hs1 by done.
  destruct (fresh_xid r2 kRequesting p1 Hs1) as [Ex2 En2].
  set (p2 := after_send r2 kRequesting m1 21 p1).
  destruct (ack_spec now2 b2 (u32 r2) l2 m2 mask gw p2 Hr2 Ha Hc) as (p3 & Hack & Hbound).
  exists p1, p2, p3. eexists. split; [| split; [| split; [| split; [reflexivity | exact Hbound]]]].
  - unfold Interface_StartDhcp. rewrite discover_spec, bind_Ok, Ex1, En1 by done. reflexivity.
  - rewrite (receive_reply _ _ _ _ _ _ _ p1 _ _ Hr1 (eq_sym Ex1) Ht1). cbn [Z.eqb].
    destruct (reply_long _ _ _ _ kDhcpOptionServerId server Hr1 ltac:(done) Hsid) as (a & b & c & d & Et & Hb & _ & _ & Hg).
    change (if decide (state p1 = kSelecting) then DhcpHandleOffer r2 mac m1 p1 else Ok (p1, [])) with (DhcpHandleOffer r2 mac m1 p1).
    cbn [Pos.eqb kDhcpOptionMessageTypeOffer]. rewrite (offer_spec _ _ _ _ _ Hm Hg), Ex2, En2.
    rewrite ip_of_toU32, to_le32_le by done. rewrite <- Et, take_ge by lia. reflexivity.
  - rewrite (receive_reply _ _ _ _ _ _ _ p2 _ _ Hr2 (eq_sym Ex2) (ack_type _ _ _ Ha)). exact Hack.
Qed.

(** A reply of a server. *)
Definition server_message (x : Z) (ip : Ipv4Address) (l : list (Z * list Z)) : list Z :=
  [kDhcpOpReply; 1; 6; 0] ++ to_be32 x ++ zeros 8 ++ ip_bytes ip ++ zeros 8 ++ zeros 16 ++ zeros 192 ++
  to_be32 kDhcpMagicCookie ++ encode_options l ++ kDhcpOptionEnd :: zeros (kDhcpOptionsLen - S (length (encode_options l))).

Definition demo_offer : list (Z * list Z) := [(kDhcpOptionMessageType, [2]); (kDhcpOptionServerId, [10; 0; 0; 1])].
Definition demo_ack : list (Z * list Z) :=
  [(kDhcpOptionMessageType, [5]); (kDhcpOptionLeaseTime, [0; 0; 14; 16]); (kDhcpOptionSubnetMask, [255; 255; 255; 0]);
   (kDhcpOptionRouter, [10; 0; 0; 1])].
Definition demo_ip : Ipv4Address := mkIp 10 0 0 7.
Definition demo_mac : list Z := [2; 0; 0; 0; 0; 1].
Definition demo_packet (x : Z) (l : list (Z * list Z)) : packet := [mkBuf 0 [] (server_message x demo_ip l) []].
Definition idle_pcb : DhcpPcb := mkDhcp [] kInactive 0 0 0 0 0 0 false.

Lemma demo_reply x l m : m = server_message x demo_ip l ->
  bool_decide (pkt_len (demo_packet x l) = 300) = true -> be32 xid_off m = x ->
  options m = encode_options l ++ kDhcpOptionEnd :: zeros (kDhcpOptionsLen - S (length (encode_options l))) ->
  length (options m) = kDhcpOptionsLen ->
  forallb (fun o => negb (o.1 =? kDhcpOptionEnd) && bytes_b o.2) l = true ->
  reply (demo_packet x l) x l m.
Proof.
  intros -> Hl Hx Ho Hlen Hok. apply bool_decide_eq_true in Hl. pose proof (proj1 (forallb_forall _ _) Hok) as Hf.
  split; [by rewrite Hl | | done | done | |].
  - unfold pkt_len, pkt_data, demo_packet in *. cbn [fmap list_fmap concat b_data] in *. rewrite app_nil_r in *.
    rewrite take_ge by lia. done.
  - split; [| eexists; split; [exact Ho | exact Hlen]]. apply Forall_forall. intros o Hin. apply list_elem_of_In in Hin.
    apply Hf, andb_prop in Hin as [Hc _]. by apply negb_true_iff, Z.eqb_neq in Hc.
  - apply Forall_forall. intros o Hin. apply list_elem_of_In in Hin. apply Hf, andb_prop in Hin as [_ Hb]. by apply bytes_b_spec.
Qed.

Lemma dhcp_exchange_witness : exists p1 p2 p3 renewal,
  Interface_StartDhcp 17 demo_mac idle_pcb = Ok (p1, Bind kDhcpClientPort :: sent 17 1 demo_mac discover_options) /\
  ReceiveDhcp 0 18 demo_mac (demo_packet 17 demo_offer) p1 =
    Ok (p2, StopTimer :: sent 18 1 demo_mac (request_options demo_ip [10; 0; 0; 1])) /\
  ReceiveDhcp 0 0 demo_mac (demo_packet 18 demo_ack) p2 =
    Ok (p3, [StopTimer; StartTimer renewal; SetAddress (mkItf demo_ip (mkIp 255 255 255 0) (mkIp 10 0 0 1))]) /\
  renewal = 1800 /\ bound 0 demo_ack p2 p3.
Proof.
  exact (dhcp_exchange demo_mac idle_pcb 0 0 17 18 0 (demo_packet 17 demo_offer) (demo_packet 18 demo_ack) demo_offer demo_ack
    (server_message 17 demo_ip demo_offer) (server_message 18 demo_ip demo_ack) [10; 0; 0; 1] [255; 255; 255; 0] [10; 0; 0; 1]
    eq_refl ltac:(discriminate) eq_refl
    (demo_reply 17 demo_offer _ eq_refl eq_refl eq_refl eq_refl eq_refl eq_refl) eq_refl
    (conj eq_refl (le_n 4)) eq_refl ltac:(apply bytes_b_spec; reflexivity)
    (demo_reply 18 demo_ack _ eq_refl eq_refl eq_refl eq_refl eq_refl eq_refl)
    ltac:(split; [reflexivity | exact (conj eq_refl (le_n 4)) | exact (conj eq_refl (le_n 4)) |
      intros t v [->|[->| ->]] E; cbn in E; [injection E as <-; exact (le_n 4) | discriminate | discriminate]])).
Defined.

(** ** Any sequence of packets and timeouts *)

Inductive event :=
| Packet (now rnd : Z) (buf : packet)
| Timeout (now rnd : Z).

Definition handle (mac : list Z) (e : event) (p : DhcpPcb) : outcome (DhcpPcb * list effect) :=
  match e with
  | Packet now rnd buf => ReceiveDhcp now rnd mac buf p
  | Timeout now rnd => Fire now rnd mac p
  end.

Fixpoint handle_all (mac : list Z) (evs : list event) (p : DhcpPcb) : outcome (DhcpPcb * list effect) :=
  match evs with
  | [] => Ok (p, [])
  | e :: evs => '(p, es) ← handle mac e p; '(p, es') ← handle_all mac evs p; Ok (p, es ++ es')
  end.

Definition addresses (es : list effect) : list ItfAddress :=
  omap (fun e => match e with SetAddress a => Some a | _ => None end) es.

(** The future is complete exactly when the client is bound. *)
Definition complete_iff_bound (p : DhcpPcb) : Prop := complete p = true <-> state p = kBound.

(** How the machine can stop: a read past the options, a missing option, the lease. *)
Definition stops (f : fault) : Prop := f = UndefinedBehaviour \/ f = AssertFailed \/ f = Aborted.

Lemma find_option_stops opts type : forall fuel i f, (59 < i + 2 * fuel)%nat -> length opts = 60%nat ->
  find_option (S fuel) opts i type = Fail f -> stops f.
Proof.
  induction fuel as [|fuel IH]; intros i f Hi Hl E; cbn [find_option] in E;
    (destruct (i =? kDhcpOptionsLen)%nat eqn:En; [done |]); apply Nat.eqb_neq in En;
    (destruct (opts !! i) as [c|] eqn:Ei; [| injection E as <-; by left]); apply lookup_lt_Some in Ei; unfold kDhcpOptionsLen in *; [lia |].
  destruct (c =? type); [done |]. destruct (c =? kDhcpOptionEnd); [done |].
  destruct (opts !! S i) as [n|]; [| injection E as <-; by left]. eapply IH; [| done | exact E]. lia.
Qed.

Lemma get_stops m type : length (options m) = 60%nat ->
  (forall f, DhcpGetOptionByte m type = Fail f -> stops f) /\ (forall f, DhcpGetOptionLong m type = Fail f -> stops f).
Proof.
  intros Hl. assert (forall f, find_option 31 (options m) 0 type = Fail f -> stops f) as Hf
    by (intros f; apply find_option_stops; [lia | done]).
  split; intros f; [unfold DhcpGetOptionByte | unfold DhcpGetOptionLong];
    (destruct (find_option 31 (options m) 0 type) as [[i|]|g] eqn:E; rewrite ?bind_Ok; [| done | intros [= <-]; by apply Hf]).
  - destruct (options m !! _); [done | intros [= <-]; by left].
  - destruct (_ <=? _)%nat; [done | intros [= <-]; by left].
Qed.

(** A client that waits for an acknowledgement can repeat its request. *)
Definition waiting_ok (p : DhcpPcb) : Prop :=
  state p = kRequesting -> exists server, DhcpGetOptionLong (last_offer p) kDhcpOptionServerId = Ok (Some server).

Definition Inv (p : DhcpPcb) : Prop := complete_iff_bound p /\ waiting_ok p.

(** The outcome of one event: the invariant, and an address exactly when the future
    completes. *)
Definition good (p : DhcpPcb) (r : outcome (DhcpPcb * list effect)) : Prop :=
  match r with
  | Ok (p', es) => Inv p' /\
      ((complete p' = complete p /\ addresses es = []) \/ (complete p = false /\ complete p' = true /\ exists a, addresses es = [a]))
  | Fail f => stops f
  end.

Lemma good_same p : Inv p -> good p (Ok (p, [])).
Proof. intros H. split; [done |]. by left. Qed.

Lemma discover_good rnd mac p : length mac = 6%nat -> Inv p -> state p = kSelecting -> good p (DhcpDiscover rnd mac p).
Proof.
  intros Hm [Hc _] Hs. rewrite discover_spec by done. split; [| by left]. split; [| done].
  unfold complete_iff_bound in *. rewrite Hs in Hc. cbn. split; [intros H; by apply Hc in H | done].
Qed.

Lemma offer_good rnd mac m p : length mac = 6%nat ->
  (forall f, DhcpGetOptionLong m kDhcpOptionServerId = Fail f -> stops f) -> Inv p -> state p <> kBound -> good p (DhcpHandleOffer rnd mac m p).
Proof.
  intros Hm Hl [Hc Hw] Hs. destruct (DhcpGetOptionLong m kDhcpOptionServerId) as [[server|]|f] eqn:E.
  - rewrite (offer_spec _ _ _ _ server Hm E). split; [| by left]. split; [| intros _; by exists server].
    unfold complete_iff_bound in *. cbn. split; [intros H; by apply Hc in H | done].
  - unfold DhcpHandleOffer. rewrite E, bind_Ok. by apply good_same.
  - unfold DhcpHandleOffer. rewrite E. by apply Hl.
Qed.

Lemma get_bind {A} m type (k : option Z -> outcome A) r : length (options m) = 60%nat ->
  (DhcpGetOptionLong m type ≫= k) = r -> (exists o, k o = r) \/ (exists f, r = Fail f /\ stops f).
Proof.
  intros Hl E. destruct (DhcpGetOptionLong m type) as [o|f] eqn:Eg; [left; by exists o |].
  right. exists f. split; [by subst r |]. by eapply get_stops.
Qed.

Lemma ack_good now m p : length (options m) = 60%nat -> Inv p -> state p = kRequesting -> good p (DhcpHandleAck now m p).
Proof.
  intros Hl [Hc Hw] Hs. assert (complete p = false) as Hcf.
  { destruct (complete p) eqn:E; [| done]. apply Hc in E. congruence. }
  unfold good. destruct (DhcpHandleAck now m p) as [[p' es]|f] eqn:E; unfold DhcpHandleAck in E.
  - do 3 (apply bind_ok in E as (? & _ & E)). apply bind_ok in E as (om & _ & E). apply bind_ok in E as (mask & _ & E).
    apply bind_ok in E as (og & _ & E). apply bind_ok in E as (gw & _ & E).
    rewrite DhcpSetState_ne in E by (cbn; congruence). cbn [complete set_state_tries set_times] in E. rewrite Hcf in E. injection E as <- <-.
    split; [| right; cbn; eauto]. split; [by split | intros [=]].
  - do 3 (apply get_bind in E as [[? E]|(? & [= <-] & ?)]; [| done | done]).
    apply get_bind in E as [[[mask|] E]|(? & [= <-] & ?)]; [| injection E as <-; right; by left | done | done]. cbn [deref] in E. rewrite bind_Ok in E.
    apply get_bind in E as [[[gw|] E]|(? & [= <-] & ?)]; [| injection E as <-; right; by left | done | done]. cbn [deref] in E. rewrite bind_Ok in E.
    rewrite DhcpSetState_ne in E by (cbn; congruence). cbn [complete set_state_tries set_times] in E. by rewrite Hcf in E.
Qed.

Lemma options_length bs : (300 <= length bs)%nat -> length (options (take 300 bs)) = 60%nat.
Proof. intros H. unfold options, kDhcpOptionsLen, options_off. rewrite length_take, length_drop, length_take. lia. Qed.

Lemma handle_good mac e p : length mac = 6%nat -> Inv p -> good p (handle mac e p).
Proof.
  intros Hm HI. destruct e as [now rnd buf|now rnd]; cbn [handle].
  - unfold ReceiveDhcp. destruct (Z.ltb_spec (pkt_len buf) sizeofDhcpMessage) as [_|Hl]; [by apply good_same |].
    unfold pkt_len, sizeofDhcpMessage in Hl. change (Z.to_nat sizeofDhcpMessage) with 300%nat.
    pose proof (options_length (pkt_data buf) ltac:(lia)) as Ho. set (m := take 300 (pkt_data buf)) in *.
    destruct (negb (byte_at 0 m =? _)); [by apply good_same |]. destruct (negb (be32 xid_off m =? _)); [by apply good_same |].
    destruct (DhcpGetOptionByte m kDhcpOptionMessageType) as [[t|]|f] eqn:E; [| by apply good_same | exact (proj1 (get_stops m _ Ho) f E)]. rewrite bind_Ok.
    destruct (t =? _); [destruct (decide _) as [Es|]; [| by apply good_same] |].
    { apply offer_good; [done | by apply get_stops | done | congruence]. }
    destruct (t =? _); [destruct (decide _) as [Es|]; [| by apply good_same] | by apply good_same]. by apply ack_good.
  - unfold Fire. destruct (state p) eqn:Es; [by apply good_same | by apply discover_good | |].
    + destruct (proj2 HI Es) as [server Hg]. apply offer_good; [done | by rewrite Hg | done | congruence].
    + destruct (_ <? _); [right; by right |]. destruct (_ <? _); [right; by right |]. destruct (_ <? _); [right; by right | by apply good_same].
Qed.

Lemma handle_all_good mac evs : length mac = 6%nat -> forall p, Inv p ->
  match handle_all mac evs p with
  | Ok (p', es) => Inv p' /\ ((complete p' = complete p /\ addresses es = []) \/
      (complete p = false /\ complete p' = true /\ length (addresses es) = 1%nat))
  | Fail f => stops f
  end.
Proof.
  intros Hm. induction evs as [|e evs IH]; intros p HI; cbn [handle_all]; [split; [done | by left] |].
  pose proof (handle_good mac e p Hm HI) as Hg. destruct (handle mac e p) as [[p1 es1]|f]; [| done]. rewrite bind_Ok.
  destruct Hg as [HI1 He]. specialize (IH p1 HI1). destruct (handle_all mac evs p1) as [[p2 es2]|f]; [| done]. rewrite bind_Ok.
  destruct IH as [HI2 He2]. split; [done |]. unfold addresses in *. rewrite omap_app.
  destruct He as [[E1 ->]|(E0 & E1 & a & ->)], He2 as [[E2 ->]|(E2 & E3 & E4)].
  - left. split; [congruence | done].
  - right. split; [congruence |]. by split.
  - right. split; [done |]. split; [congruence | done].
  - congruence.
Qed.

(** Whatever packets arrive and timers fire after the start, the client sets the
    interface's address at most once, exactly when it completes the future, and it
    is then bound; the future is never completed twice, the search of the options
    always ends, and the only ways to stop are a read past the options, a missing
    netmask or router, and the end of the lease. *)
Theorem dhcp_invariant mac p0 rnd evs :
  length mac = 6%nat -> complete p0 = false ->
  exists p1 es1, Interface_StartDhcp rnd mac p0 = Ok (p1, es1) /\
  match handle_all mac evs p1 with
  | Ok (p, es) => complete_iff_bound p /\ length (addresses es) = (if complete p then 1 else 0)%nat
  | Fail f => stops f
  end.
Proof.
  intros Hm Hc. do 2 eexists. split; [unfold Interface_StartDhcp; rewrite discover_spec, bind_Ok by done; reflexivity |].
  set (p1 := after_send _ _ _ _ _). assert (Inv p1) as HI by (split; [by split; cbn; [rewrite Hc |] | done]).
  pose proof (handle_all_good mac evs Hm p1 HI) as Hall.
  destruct (handle_all mac evs p1) as [[p es]|f]; [| done].
  destruct Hall as [[Hp _] [[E ->]|(_ & -> & ->)]]; (split; [done |]); [| done]. rewrite E. cbn. by rewrite Hc.
Qed.

Lemma dhcp_invariant_witness : exists p1 es1, Interface_StartDhcp 17 demo_mac idle_pcb = Ok (p1, es1) /\
  match handle_all demo_mac [Timeout 0 3; Packet 0 18 (demo_packet 17 demo_offer); Packet 0 0 (demo_packet 18 demo_ack);
                             Packet 0 0 (demo_packet 18 demo_ack)] p1 with
  | Ok (p, es) => complete_iff_bound p /\ length (addresses es) = (if complete p then 1 else 0)%nat
  | Fail f => stops f
  end.
Proof. apply dhcp_invariant; reflexivity. Defined.

(** ** Reading back what is written *)

Lemma client_options x mac l : length mac = 6%nat -> Forall option_ok l -> (length (encode_options l) < 60)%nat ->
  has_options (client_message x mac l) l.
Proof.
  intros Hm Hok Hl. split; [done |]. eexists. unfold options, client_message.
  set (opts := encode_options l ++ _).
  assert (length opts = 60%nat) as Ho.
  { unfold opts, zeros, kDhcpOptionsLen. rewrite length_app. cbn. rewrite length_replicate. lia. }
  assert (drop options_off ([kDhcpOpRequest; kDhcpHTypeEth; kDhcpHLenEth; 0] ++ to_be32 x ++ zeros 20 ++ mac ++ zeros 202 ++
    to_be32 kDhcpMagicCookie ++ opts) = opts) as ->.
  { destruct (mac_bytes mac Hm) as (a & b & c & d & e & f & ->). reflexivity. }
  rewrite take_ge by (rewrite Ho; done). split; [reflexivity | exact Ho].
Qed.

(** Options round trip: in a message with any list of options that fits, and any
    header, looking up a code finds the value of the first option with that code,
    and nothing when there is none. *)
Theorem dhcp_options_roundtrip x mac l type :
  length mac = 6%nat -> Forall option_ok l -> (length (encode_options l) < 60)%nat -> type <> kDhcpOptionEnd ->
  let m := client_message x mac l in
  match first_option type l with
  | None => DhcpGetOptionByte m type = Ok None /\ DhcpGetOptionLong m type = Ok None
  | Some v => (forall b, head v = Some b -> DhcpGetOptionByte m type = Ok (Some b)) /\
              ((4 <= length v)%nat -> DhcpGetOptionLong m type = Ok (Some (le (take 4 v))))
  end.
Proof.
  intros Hm Hok Hl Ht m. pose proof (client_options x mac l Hm Hok Hl) as Ho.
  destruct (get_byte_spec m l type Ho Ht) as [Hb1 Hb2], (get_long_spec m l type Ho Ht) as [Hl1 Hl2].
  destruct (first_option type l) as [v|] eqn:E; [| by split; [apply Hb1 | apply Hl1]].
  split; [| by apply Hl2]. intros b Hb. destruct v as [|b' v]; [done |]. injection Hb as ->. by eapply Hb2.
Qed.

Lemma dhcp_options_roundtrip_witness :
  DhcpGetOptionLong (client_message 5 demo_mac (request_options demo_ip [10; 0; 0; 1])) kDhcpOptionRequestIp = Ok (Some (toU32 demo_ip)).
Proof.
  refine (proj2 (dhcp_options_roundtrip 5 demo_mac (request_options demo_ip [10; 0; 0; 1]) kDhcpOptionRequestIp eq_refl _ _ _) _);
    [repeat constructor; discriminate | cbn; lia | discriminate | cbn; lia].
Defined.

(** ** Retries *)

(** The client without an answer, after [n] timeouts. *)
Fixpoint unanswered (mac : list Z) (n : nat) (rnd : nat -> Z) (p : DhcpPcb) : outcome (DhcpPcb * list effect) :=
  match n with
  | O => Ok (p, [])
  | S n => '(p, es) ← unanswered mac n rnd p; '(p, es') ← Fire 0 (rnd n) mac p; Ok (p, es ++ es')
  end.

Lemma unanswered_spec mac p x n rnd : length mac = 6%nat -> state p = kSelecting -> xid p = x -> tries p = 1 ->
  Z.of_nat n < 2 ^ 64 - 1 ->
  exists p', unanswered mac n rnd p =
    Ok (p', concat ((fun i => sent x (Z.of_nat i + 2) mac discover_options) <$> seq 0 n)) /\
    state p' = kSelecting /\ xid p' = x /\ tries p' = Z.of_nat n + 1.
Proof.
  intros Hm Hs Hx Ht. induction n as [|n IH]; intros Hn; [exists p; by rewrite Ht |].
  destruct (IH ltac:(lia)) as (q & Hq & Hqs & Hqx & Hqt). cbn [unanswered]. rewrite Hq, bind_Ok. unfold Fire. rewrite Hqs, discover_spec, bind_Ok by done.
  assert (DhcpSetState kSelecting q = q) as Eq by (unfold DhcpSetState; destruct (decide _); [done | congruence]).
  assert (next_xid (rnd n) kSelecting q = x) as Ex.
  { unfold next_xid. rewrite Eq, Hqt. destruct (Z.eqb_spec (Z.of_nat n + 1) 0); [lia | done]. }
  assert (next_tries kSelecting q = Z.of_nat n + 2) as En.
  { unfold next_tries. rewrite Eq, Hqt. unfold u64. rewrite wrap_small by (unfold in_u; lia). lia. }
  rewrite Ex, En. exists (after_send (rnd n) kSelecting (last_offer q) 9 q). split; [| split; [reflexivity | split; [exact Ex | change (next_tries kSelecting q = Z.of_nat (S n) + 1); lia]]].
  rewrite seq_S, fmap_app, concat_app. cbn -[sent]. by rewrite app_nil_r.
Qed.

(** A client that gets no answer keeps its transaction and repeats the discover
    message after 2, 4, 8, 16 and 32 seconds and then every minute. *)
Theorem dhcp_retries_back_off mac p0 r n rnd :
  length mac = 6%nat -> state p0 <> kSelecting -> Z.of_nat n < 2 ^ 64 - 1 ->
  exists p1 p2, Interface_StartDhcp r mac p0 = Ok (p1, Bind kDhcpClientPort :: sent (u32 r) 1 mac discover_options) /\
  unanswered mac n rnd p1 = Ok (p2, concat ((fun i => sent (u32 r) (Z.of_nat i + 2) mac discover_options) <$> seq 0 n)) /\
  map backoff [1; 2; 3; 4; 5; 6; 7] = [2; 4; 8; 16; 32; 60; 60].
Proof.
  intros Hm Hs Hn. destruct (fresh_xid r kSelecting p0 Hs) as [Ex En].
  destruct (unanswered_spec mac (after_send r kSelecting (last_offer p0) 9 p0) (u32 r) n rnd Hm eq_refl Ex En Hn) as (p2 & Hu & _).
  do 2 eexists. split; [| split; [exact Hu | reflexivity]].
  unfold Interface_StartDhcp. by rewrite discover_spec, bind_Ok, Ex, En.
Qed.

Lemma dhcp_retries_back_off_witness : exists p1 p2,
  Interface_StartDhcp 17 demo_mac idle_pcb = Ok (p1, Bind kDhcpClientPort :: sent 17 1 demo_mac discover_options) /\
  unanswered demo_mac 3 (fun _ => 0) p1 = Ok (p2, concat ((fun i => sent 17 (Z.of_nat i + 2) demo_mac discover_options) <$> seq 0 3)) /\
  map backoff [1; 2; 3; 4; 5; 6; 7] = [2; 4; 8; 16; 32; 60; 60].
Proof. exact (dhcp_retries_back_off demo_mac idle_pcb 17 3 (fun _ => 0) eq_refl ltac:(discriminate) eq_refl). Defined.

(** ** Replies that stop the machine *)

(** An acknowledgement without a router option, which is optional in the
    protocol, stops the kernel. *)
Theorem ack_without_router_stops now rnd mac buf x l m mask p :
  reply buf x l m -> x = xid p -> state p = kRequesting ->
  first_option kDhcpOptionMessageType l = Some [kDhcpOptionMessageTypeAck] -> long_option kDhcpOptionSubnetMask l mask ->
  (forall t v, t = kDhcpOptionLeaseTime \/ t = kDhcpOptionRenewalTime \/ t = kDhcpOptionRebindingTime ->
     first_option t l = Some v -> (4 <= length v)%nat) ->
  first_option kDhcpOptionRouter l = None ->
  ReceiveDhcp now rnd mac buf p = Fail AssertFailed.
Proof.
  intros Hr Hx Hs Ht Hmask Htimes Hgw. rewrite (receive_reply _ _ _ _ _ _ _ _ _ _ Hr Hx Ht).
  change (kDhcpOptionMessageTypeAck =? kDhcpOptionMessageTypeOffer) with false. rewrite Z.eqb_refl.
  destruct (decide (state p = kRequesting)); [| done]. unfold DhcpHandleAck.
  destruct (reply_time _ _ _ _ kDhcpOptionLeaseTime 0 Hr ltac:(done) (fun v => Htimes kDhcpOptionLeaseTime v ltac:(tauto))) as (o1 & -> & _).
  destruct (reply_time _ _ _ _ kDhcpOptionRenewalTime 0 Hr ltac:(done) (fun v => Htimes kDhcpOptionRenewalTime v ltac:(tauto))) as (o2 & -> & _).
  destruct (reply_time _ _ _ _ kDhcpOptionRebindingTime 0 Hr ltac:(done) (fun v => Htimes kDhcpOptionRebindingTime v ltac:(tauto))) as (o3 & -> & _).
  destruct (reply_long _ _ _ _ kDhcpOptionSubnetMask mask Hr ltac:(done) Hmask) as (a & b & c & d & _ & _ & _ & _ & ->).
  rewrite !bind_Ok. cbn [deref]. rewrite bind_Ok.
  destruct (get_long_spec m l kDhcpOptionRouter (reply_options _ _ _ _ Hr) ltac:(done)) as [Hg _]. by rewrite (Hg Hgw).
Qed.

Definition requesting_pcb : DhcpPcb := mkDhcp [] kRequesting 18 1 21 0 0 0 false.
Definition no_router : list (Z * list Z) := [(kDhcpOptionMessageType, [5]); (kDhcpOptionSubnetMask, [255; 255; 255; 0])].

Lemma ack_without_router_stops_witness :
  ReceiveDhcp 0 0 demo_mac (demo_packet 18 no_router) requesting_pcb = Fail AssertFailed.
Proof.
  exact (ack_without_router_stops 0 0 demo_mac (demo_packet 18 no_router) 18 no_router (server_message 18 demo_ip no_router)
    [255; 255; 255; 0] requesting_pcb (demo_reply 18 no_router _ eq_refl eq_refl eq_refl eq_refl eq_refl eq_refl) eq_refl eq_refl eq_refl
    (conj eq_refl (le_n 4))
    ltac:(intros t v [->|[->| ->]] E; cbn in E; discriminate) eq_refl).
Defined.

(** A reply whose options start with padding: one byte of code zero, without length. *)
Definition padded_message (x : Z) (ip : Ipv4Address) (l : list (Z * list Z)) : list Z :=
  [kDhcpOpReply; 1; 6; 0] ++ to_be32 x ++ zeros 8 ++ ip_bytes ip ++ zeros 8 ++ zeros 16 ++ zeros 192 ++
  to_be32 kDhcpMagicCookie ++ kDhcpOptionPad :: encode_options l ++ kDhcpOptionEnd :: zeros (kDhcpOptionsLen - 2 - length (encode_options l)).

(** Padding is not understood: in an offer with one byte of padding before its
    options the search takes the next code for a length, skips the options and
    reads past the end of the message. *)
Theorem padding_reads_past_end :
  ReceiveDhcp 0 0 demo_mac [mkBuf 0 [] (padded_message 17 demo_ip demo_offer) []]
    (mkDhcp [] kSelecting 17 1 9 0 0 0 false) = Fail UndefinedBehaviour.
Proof. vm_compute. reflexivity. Qed.

(** The lease is not renewed: when the timer that the acknowledgement started
    fires, at any time after the renewal time, the kernel stops. *)
Theorem renewal_stops now buf x l m mask gw p :
  reply buf x l m -> ack_options l mask gw -> complete p = false ->
  exists p' renewal addr, DhcpHandleAck now m p = Ok (p', [StopTimer; StartTimer renewal; SetAddress addr]) /\
  forall mac rnd later, now + renewal * seconds < later -> Fire later rnd mac p' = Fail Aborted.
Proof.
  intros Hr Ha Hc. destruct (ack_spec now buf x l m mask gw p Hr Ha Hc) as (p' & E & Hs & _ & Hl & Hn & Hb).
  do 3 eexists. split; [exact E |]. intros mac rnd later Hlt. unfold Fire. rewrite Hs.
  destruct (_ <? _); [done |]. rewrite Hn. apply Z.ltb_lt in Hlt. by rewrite Hlt.
Qed.

Lemma renewal_stops_witness : exists p' renewal addr,
  DhcpHandleAck 0 (server_message 18 demo_ip demo_ack) requesting_pcb = Ok (p', [StopTimer; StartTimer renewal; SetAddress addr]) /\
  forall mac rnd later, 0 + renewal * seconds < later -> Fire later rnd mac p' = Fail Aborted.
Proof.
  exact (renewal_stops 0 (demo_packet 18 demo_ack) 18 demo_ack (server_message 18 demo_ip demo_ack) [255; 255; 255; 0] [10; 0; 0; 1]
    requesting_pcb (demo_reply 18 demo_ack _ eq_refl eq_refl eq_refl eq_refl eq_refl eq_refl)
    ltac:(split; [reflexivity | exact (conj eq_refl (le_n 4)) | exact (conj eq_refl (le_n 4)) |
      intros t v [->|[->| ->]] E; cbn in E; [injection E as <-; exact (le_n 4) | discriminate | discriminate]]) eq_refl).
Defined.

(** A refusal is ignored: the client repeats its request. *)
Lemma nak_ignored now rnd mac buf x l m p : reply buf x l m -> x = xid p ->
  first_option kDhcpOptionMessageType l = Some [kDhcpOptionMessageTypeNak] -> ReceiveDhcp now rnd mac buf p = Ok (p, []).
Proof. intros Hr Hx Ht. by rewrite (receive_reply _ _ _ _ _ _ _ _ _ _ Hr Hx Ht). Qed.
