(* ===== verification/Messenger.v ===== *)
(** * The messenger

    Models src/src/native/Messenger.h and Messenger.cc and the dispatch of
    src/src/Message.cc: the header of a message, the reassembly of messages from
    the buffers that a connection receives, with the buffer that is allocated in
    advance for a long message, and the map of connections. *)

From S2P Require Import Prelude Checksum NetIp NetEth.

(** ** struct Header: 24 bytes, the last four padding *)

Definition sizeofHeader : Z := 24.
Definition to_le64 (x : Z) : list Z := to_le32 (u32 x) ++ to_le32 (u32 (Z.shiftr x 32)).
Definition Header (length_ type_code id : Z) (pad : list Z) : list Z :=
  to_le64 length_ ++ to_le64 type_code ++ to_le32 id ++ pad.
Definition h_length (h : list Z) : Z := le (take 8 h).
Definition h_type_code (h : list Z) : Z := le (take 8 (drop 8 h)).
Definition h_id (h : list Z) : Z := le (take 4 (drop 16 h)).

(** [sizeof(Header) + header.length] *)
Definition message_len (h : list Z) : Z := u64 (sizeofHeader + h_length h).

(** ** GetMessagableRef *)

(** The type codes in the two maps, and the Ebbs that have a representative cached
    on this core. *)
Record Registry := mkRegistry { fault_map : gset Z; cast_map : gset Z; cached : gset Z }.

Inductive how := ThroughFault | ThroughCast.

Definition GetMessagableRef (r : Registry) (id type_code : Z) : outcome how :=
  if decide (id ∈ cached r) then
    if decide (type_code ∈ cast_map r) then Ok ThroughCast
    else Fail (Thrown "GetMessagableRef missing cast function for type code")
  else
    if decide (type_code ∈ fault_map r) then Ok ThroughFault
    else Fail (Thrown "GetMessagableRef missing fault for type code").

(** ** Chains *)

Definition blen (b : Buf) : Z := Z.of_nat (length (b_data b)).
Definition Capacity (b : Buf) : Z := Z.of_nat (length (b_pre b) + length (b_data b) + length (b_post b)).

Fixpoint advance_chain (amount : nat) (p : packet) : packet :=
  match p with
  | [] => []
  | b :: t =>
      let advance_len := (length (b_data b) `min` amount)%nat in
      let b' := buf_advance advance_len b in
      if (amount - advance_len =? 0)%nat then b' :: t else b' :: advance_chain (amount - advance_len) t
  end.
Definition pkt_AdvanceChain (amount : Z) (p : packet) : outcome packet :=
  _ ← kassert (amount <=? pkt_len p);
  Ok (advance_chain (Z.to_nat amount) p).

(** The header, which may straddle buffers. *)
Definition get_header (p : packet) : list Z := take 24 (pkt_data p).

Section Messenger.
(** malloc: the contents of a new block, if there is one. *)
Context (malloc : Z -> option (list Z)) (reg : Registry).

(** ** Connection *)

Record Connection := mkConn { preallocate_ : Z; buf_ : option packet }.

(** A message given to [ReceiveMessageInternal]. *)
Record delivery := mkDelivery { d_id : Z; d_type : Z; d_how : how; d_buf : packet }.

Definition process_message (b : packet) : outcome delivery :=
  let header := get_header b in
  b ← pkt_AdvanceChain sizeofHeader b;
  how ← GetMessagableRef reg (h_id header) (h_type_code header);
  Ok (mkDelivery (h_id header) (h_type_code header) how b).

(** The test of the occupancy, with the ratio 0.20: the quotient of two doubles
    compares like the integers as long as they are below 2^50. *)
Definition sparse (buffer_len capacity : Z) : bool := 5 * buffer_len <? capacity.

Definition check_preallocate (p : packet) : outcome Connection :=
  let capacity := foldr (fun b c => Capacity b + c) 0 p in
  let buffer_len := pkt_len p in
  let message_len := message_len (get_header p) in
  if sparse buffer_len capacity then
    match malloc message_len with
    | None => Fail (Thrown "bad_alloc")
    | Some block =>
        if message_len <? buffer_len then Fail UndefinedBehaviour
        else _ ← kassert (u32 buffer_len =? buffer_len); Ok (mkConn (u32 buffer_len) (Some [mkBuf 0 [] (pkt_data p ++ drop (length (pkt_data p)) block) []]))
    end
  else Ok (mkConn 0 (Some p)).

(** The copies of [preallocated]: [pos] is the data pointer, which is back at the
    start of the buffer when it reaches the end. *)
Fixpoint copy_links (data : list Z) (pos : nat) (links : packet) : outcome (list Z) :=
  match links with
  | [] => Ok data
  | link :: t =>
      let len := length (b_data link) in
      if (length data <? pos + len)%nat then Fail UndefinedBehaviour
      else
        let data := put_bytes pos (b_data link) data in
        copy_links data (if (pos + len =? length data)%nat then 0 else pos + len) t
  end.

Definition preallocated (prealloc : Z) (p b : packet) : outcome (Connection * list delivery) :=
  let message_len := message_len (get_header p) in
  match p with
  | [buf] =>
      data ← copy_links (b_data buf) (Z.to_nat prealloc mod length (b_data buf)) b;
      let prealloc := u32 (prealloc + pkt_len b) in
      let p := [mkBuf (b_addr buf) (b_pre buf) data (b_post buf)] in
      if prealloc =? message_len then
        _ ← kassert (blen buf =? message_len);
        d ← process_message p;
        Ok (mkConn 0 None, [d])
      else Ok (mkConn prealloc (Some p), [])
  | _ => Fail UndefinedBehaviour
  end.

(** The buffer in which the message ends: the chain before it, the buffer, the chain
    after it, and the length up to its end. *)
Fixpoint find_split (mlen length_ : Z) (before : packet) (p : packet) : option (packet * Buf * packet * Z) :=
  match p with
  | [] => None
  | b :: t =>
      let length_ := u32 (length_ + blen b) in
      if mlen <=? length_ then Some (before, b, t, length_) else find_split mlen length_ (before ++ [b]) t
  end.

Definition process_message_chain (p : packet) : outcome (delivery * packet) :=
  let mlen := message_len (get_header p) in
  let orig_len := pkt_len p in
  match p with
  | [] => Fail UndefinedBehaviour
  | b0 :: t0 =>
      let r := if mlen <=? blen b0 then Some ([], b0, t0, u32 (blen b0)) else find_split mlen 0 [] p in
      match r with
      | None => Fail UndefinedBehaviour
      | Some (before, split, tail_chain, length_) =>
          let left_shard_len := u64 (blen split - (length_ - mlen)) in
          let right_shard_len := u64 (blen split - left_shard_len) in
          split_c ← pkt_TrimEnd right_shard_len [split];
          remainder ← pkt_Advance left_shard_len [split];
          let b := before ++ split_c in
          let remainder := remainder ++ tail_chain in
          _ ← kassert (orig_len =? pkt_len b + pkt_len remainder);
          d ← process_message b;
          Ok (d, remainder)
      end
  end.

(** The loop of [Receive].  Every message takes its header from the chain: the
    length of the data is enough fuel. *)
Fixpoint receive_loop (fuel : nat) (p : packet) : outcome (Connection * list delivery) :=
  match fuel with
  | O => Fail Diverges
  | S fuel =>
      let buffer_len := pkt_len p in
      if buffer_len <? sizeofHeader then Ok (mkConn 0 (Some p), [])
      else
        let mlen := message_len (get_header p) in
        if buffer_len =? mlen then d ← process_message p; Ok (mkConn 0 None, [d])
        else if buffer_len <? mlen then
          if Z.of_nat (length p) mod 100 =? 0 then c ← check_preallocate p; Ok (c, [])
          else Ok (mkConn 0 (Some p), [])
        else
          '(d, p) ← process_message_chain p;
          '(c, ds) ← receive_loop fuel p;
          Ok (c, d :: ds)
  end.

Definition Receive (c : Connection) (b : packet) : outcome (Connection * list delivery) :=
  match b with
  | [] => Fail UndefinedBehaviour
  | b0 :: _ =>
      _ ← kassert (negb (blen b0 =? 0));
      if negb (preallocate_ c =? 0) then
        match buf_ c with
        | None => Fail UndefinedBehaviour
        | Some p => preallocated (preallocate_ c) p b
        end
      else
        let p := match buf_ c with Some p => p ++ b | None => b end in
        receive_loop (S (length (pkt_data p))) p
  end.
End Messenger.

(** ** Sending *)

(** What a connection is doing. *)
Inductive conn_state := Pending | Established.

(** [connection_map_]; the entry of an address is made with its connection. *)
Definition connections : Type := gmap Ipv4Address conn_state.

(** [Send]: whether a connection is opened, and the buffer that is sent when it is
    established.  The padding of the header is not written. *)
Definition Messenger_Send (to : Ipv4Address) (id type_code : Z) (pad : list Z) (data : packet) (m : connections) : connections * bool * packet :=
  let '(m, opened) := match m !! to with Some _ => (m, false) | None => (<[to := Pending]> m, true) end in
  (m, opened, mkBuf 0 [] (Header (pkt_len data) type_code id pad) [] :: data).

(** The accept function of [StartListening]. *)
Definition accept (addr : Ipv4Address) (m : connections) : outcome connections :=
  match m !! addr with
  | Some _ => Fail (Thrown "Store to promise")
  | None => Ok (<[addr := Established]> m)
  end.
