(* ===== verification/MessengerCorrect.v ===== *)
(** * Correctness of the messenger

    Messages sent over a connection are delivered whole, once and in order,
    however the stream of bytes is cut into buffers; and the case in which the
    buffer allocated in advance for a long message overflows. *)

From S2P Require Import Prelude Checksum NetIp NetEth Messenger.

(** ** Messages and their encoding *)

Record message := mkMessage { m_id : Z; m_type : Z; m_pad : list Z; m_payload : list Z }.

Definition encode (m : message) : list Z :=
  Header (Z.of_nat (length (m_payload m))) (m_type m) (m_id m) (m_pad m) ++ m_payload m.
Definition encode_all (ms : list message) : list Z := concat (encode <$> ms).

Record message_ok (m : message) : Prop := {
  ok_id : in_u 32 (m_id m);
  ok_type : in_u 64 (m_type m);
  ok_pad : length (m_pad m) = 4%nat;
  ok_len : Z.of_nat (length (encode m)) < 2 ^ 31
}.

(** ** Headers *)

Lemma le_to_le32 x : in_u 32 x -> le (to_le32 x) = x.
Proof.
  unfold in_u, to_le32, le, u8, wrap. cbn [fold_right]. intros Hx. rewrite !Z.shiftr_div_pow2 by lia.
  Z.to_euclidean_division_equations. lia.
Qed.

Lemma le_to_le64 x : in_u 64 x -> le (to_le64 x) = x.
Proof.
  intros Hx. unfold to_le64. rewrite le_app, !le_to_le32; [| apply wrap_range; lia | apply wrap_range; lia].
  change (2 ^ (8 * Z.of_nat (length (to_le32 (u32 x))))) with (2 ^ 32). unfold in_u, u32, wrap in *.
  rewrite Z.shiftr_div_pow2 by lia. rewrite (Z.mod_small (x / 2 ^ 32)) by (Z.to_euclidean_division_equations; lia).
  Z.to_euclidean_division_equations. lia.
Qed.

Lemma header_length l t i pad : length pad = 4%nat -> length (Header l t i pad) = 24%nat.
Proof. intros H. unfold Header. rewrite !length_app, H. done. Qed.

Lemma message_header_fields l t i pad : in_u 64 l -> in_u 64 t -> in_u 32 i ->
  h_length (Header l t i pad) = l /\ h_type_code (Header l t i pad) = t /\ h_id (Header l t i pad) = i.
Proof.
  intros Hl Ht Hi. unfold h_length, h_type_code, h_id, Header.
  change (take 8 (to_le64 l ++ to_le64 t ++ to_le32 i ++ pad)) with (to_le64 l).
  change (take 8 (drop 8 (to_le64 l ++ to_le64 t ++ to_le32 i ++ pad))) with (to_le64 t).
  change (take 4 (drop 16 (to_le64 l ++ to_le64 t ++ to_le32 i ++ pad))) with (to_le32 i).
  by rewrite !le_to_le64, le_to_le32.
Qed.

Lemma encode_length m : message_ok m -> length (encode m) = (24 + length (m_payload m))%nat.
Proof. intros Hm. unfold encode. rewrite length_app, header_length by apply Hm. done. Qed.

(** The header at the front of a stream that starts with message [m]. *)
Lemma stream_header m bs rest : message_ok m -> encode m ++ rest = bs -> 
  message_len (take 24 bs) = Z.of_nat (length (encode m)) /\ h_type_code (take 24 bs) = m_type m /\ h_id (take 24 bs) = m_id m.
Proof.
  intros Hm <-. pose proof (encode_length m Hm) as He. pose proof (ok_len _ Hm) as Hl.
  unfold encode at 1 3 4. rewrite <- app_assoc. rewrite take_app_length' by (symmetry; apply header_length, Hm).
  destruct (message_header_fields (Z.of_nat (length (m_payload m))) (m_type m) (m_id m) (m_pad m)) as (E1 & E2 & E3);
    [unfold in_u; lia | apply Hm | apply Hm |].
  split; [| done]. unfold message_len. rewrite E1. unfold u64, sizeofHeader. rewrite wrap_small by (unfold in_u; lia). lia.
Qed.

(** ** Chains *)

Lemma pkt_data_app p q : pkt_data (p ++ q) = pkt_data p ++ pkt_data q.
Proof. unfold pkt_data. by rewrite fmap_app, concat_app. Qed.

Lemma pkt_data_cons b p : pkt_data (b :: p) = b_data b ++ pkt_data p.
Proof. done. Qed.

Lemma pkt_len_app p q : pkt_len (p ++ q) = pkt_len p + pkt_len q.
Proof. unfold pkt_len. rewrite pkt_data_app, length_app. lia. Qed.

Lemma chain_len_single b : pkt_len [b] = blen b.
Proof. unfold pkt_len, blen. by rewrite pkt_data_cons, app_nil_r. Qed.

Lemma pkt_len_nonneg p : 0 <= pkt_len p.
Proof. unfold pkt_len. lia. Qed.

Lemma advance_chain_data n p : (n <= length (pkt_data p))%nat -> pkt_data (advance_chain n p) = drop n (pkt_data p).
Proof.
  revert n. induction p as [|b p IH]; intros n Hn; cbn [advance_chain]; [by destruct n |].
  rewrite pkt_data_cons in Hn |- *. rewrite length_app in Hn.
  destruct (Nat.eqb_spec (n - (length (b_data b) `min` n)) 0) as [E|E]; rewrite pkt_data_cons; cbn [buf_advance b_data].
  - replace (length (b_data b) `min` n)%nat with n by lia. by rewrite drop_app_le by lia.
  - replace (length (b_data b) `min` n)%nat with (length (b_data b)) by lia. rewrite drop_all. cbn.
    rewrite IH by lia. by rewrite drop_app_ge by lia.
Qed.

Section Receive.
Context (malloc : Z -> option (list Z)) (reg : Registry).

(** The delivery is the message. *)
Definition delivers (d : delivery) (m : message) : Prop :=
  d_id d = m_id m /\ d_type d = m_type m /\ pkt_data (d_buf d) = m_payload m /\
  GetMessagableRef reg (m_id m) (m_type m) = Ok (d_how d).

(** Every message is for a type that is published. *)
Definition registered (m : message) : Prop := exists how, GetMessagableRef reg (m_id m) (m_type m) = Ok how.

Lemma process_message_spec m p : message_ok m -> registered m -> pkt_data p = encode m ->
  exists d, process_message reg p = Ok d /\ delivers d m.
Proof.
  intros Hm [how Hh] Hp. unfold process_message, get_header. rewrite Hp.
  destruct (stream_header m (encode m) [] Hm (app_nil_r _)) as (_ & -> & ->).
  unfold pkt_AdvanceChain, pkt_len. rewrite Hp, (encode_length m Hm).
  assert ((sizeofHeader <=? Z.of_nat (24 + length (m_payload m))) = true) as -> by (apply Z.leb_le; unfold sizeofHeader; lia).
  cbn [kassert]. rewrite !bind_Ok, Hh, bind_Ok. eexists. split; [reflexivity |]. split; [done |]. split; [done |]. split; [| done].
  cbn [d_buf]. change (Z.to_nat sizeofHeader) with 24%nat.
  rewrite advance_chain_data by (rewrite Hp, (encode_length m Hm); lia). rewrite Hp. unfold encode.
  by rewrite drop_app_length' by (symmetry; apply header_length, Hm).
Qed.

(** The buffer in which the message of length [mlen] ends. *)
Lemma find_split_spec mlen p : forall before,
  pkt_len before < mlen -> mlen <= pkt_len (before ++ p) < 2 ^ 32 ->
  exists b1 s t, find_split mlen (pkt_len before) before p = Some (b1, s, t, pkt_len (b1 ++ [s])) /\
    before ++ p = b1 ++ s :: t /\ pkt_len b1 < mlen <= pkt_len (b1 ++ [s]).
Proof.
  induction p as [|b p IH]; intros before Hb Hp; [rewrite app_nil_r in Hp; lia |]. cbn [find_split].
  assert (pkt_len (before ++ [b]) = pkt_len before + blen b) as El by (by rewrite pkt_len_app, chain_len_single).
  assert (pkt_len (before ++ b :: p) = pkt_len (before ++ [b]) + pkt_len p) as Ep.
  { change (b :: p) with ([b] ++ p). by rewrite app_assoc, pkt_len_app. }
  pose proof (pkt_len_nonneg p). pose proof (pkt_len_nonneg (before ++ [b])).
  assert (u32 (pkt_len before + blen b) = pkt_len (before ++ [b])) as -> by (rewrite <- El; apply u32_small; lia).
  destruct (Z.leb_spec mlen (pkt_len (before ++ [b]))) as [Hle|Hgt].
  - exists before, b, p. split; [done |]. split; [done |]. lia.
  - destruct (IH (before ++ [b])) as (b1 & s & t & Hf & He & Hl); [done | by rewrite <- app_assoc |].
    exists b1, s, t. split; [done |]. split; [by rewrite <- He, <- app_assoc | done].
Qed.

Lemma split_found mlen p : 0 < mlen -> mlen <= pkt_len p < 2 ^ 32 ->
  exists b1 s t, match p with
    | [] => None
    | b0 :: t0 => if mlen <=? blen b0 then Some ([], b0, t0, u32 (blen b0)) else find_split mlen 0 [] p
    end = Some (b1, s, t, pkt_len (b1 ++ [s])) /\ p = b1 ++ s :: t /\ pkt_len b1 < mlen <= pkt_len (b1 ++ [s]).
Proof.
  intros H0 Hp. destruct p as [|b0 t0]; [change (pkt_len []) with 0 in Hp; lia |].
  assert (pkt_len (b0 :: t0) = blen b0 + pkt_len t0) as E'.
  { change (b0 :: t0) with ([b0] ++ t0). by rewrite pkt_len_app, chain_len_single. }
  destruct (Z.leb_spec mlen (blen b0)) as [Hle|Hgt].
  - exists [], b0, t0. cbn [app]. rewrite chain_len_single. pose proof (pkt_len_nonneg t0).
    assert (0 <= blen b0) by (unfold blen; lia). rewrite u32_small by lia. split; [done |]. split; [done |]. change (pkt_len []) with 0. lia.
  - exact (find_split_spec mlen (b0 :: t0) [] H0 Hp).
Qed.

Lemma process_message_chain_spec m p rest : message_ok m -> registered m -> pkt_data p = encode m ++ rest -> pkt_len p < 2 ^ 32 ->
  exists d p', process_message_chain reg p = Ok (d, p') /\ delivers d m /\ pkt_data p' = rest.
Proof.
  intros Hm Hr Hp Hlen. unfold process_message_chain.
  destruct (stream_header m (pkt_data p) rest Hm (eq_sym Hp)) as (Eml & _ & _). unfold get_header. rewrite Eml.
  pose proof (encode_length m Hm) as He. pose proof (ok_len _ Hm) as Ho.
  destruct (split_found (Z.of_nat (length (encode m))) p) as (b1 & s & t & Hs & Epk & Hl1 & Hl2);
    [lia | split; [unfold pkt_len; rewrite Hp, length_app; lia | done] |].
  destruct p as [|b0 t0]; [by destruct b1 |]. rewrite Hs. rewrite Epk in Hp, Hlen |- *.
  rewrite pkt_data_app, pkt_data_cons in Hp.
  assert (pkt_len (b1 ++ [s]) = pkt_len b1 + blen s) as Ebs by (by rewrite pkt_len_app, chain_len_single).
  pose proof (pkt_len_nonneg b1). pose proof (pkt_len_nonneg t). assert (0 <= blen s) by (unfold blen; lia).
  assert (blen s < 2 ^ 32) as Hbs.
  { change (s :: t) with ([s] ++ t) in Hlen. rewrite !pkt_len_app, chain_len_single in Hlen. lia. }
  set (k := Z.of_nat (length (encode m)) - pkt_len b1) in *.
  assert (u64 (blen s - (pkt_len (b1 ++ [s]) - Z.of_nat (length (encode m)))) = k) as ->.
  { rewrite Ebs. replace (blen s - (pkt_len b1 + blen s - Z.of_nat (length (encode m)))) with k by (unfold k; lia).
    apply wrap_small. unfold in_u, k. lia. }
  assert (u64 (blen s - k) = blen s - k) as -> by (apply wrap_small; unfold in_u, k; lia).
  assert (0 < k <= blen s) as Hk by (unfold k; lia).
  unfold pkt_TrimEnd, pkt_Advance. unfold blen in Hk |- *.
  assert ((Z.of_nat (length (b_data s)) - k <=? Z.of_nat (length (b_data s))) = true) as -> by (apply Z.leb_le; lia). rewrite bind_Ok.
  assert ((k <=? Z.of_nat (length (b_data s))) = true) as -> by (apply Z.leb_le; lia). cbn [kassert]. rewrite !bind_Ok.
  set (n := Z.to_nat k).
  replace (length (b_data s) - Z.to_nat (Z.of_nat (length (b_data s)) - k))%nat with n by (unfold n; lia).
  set (left_ := b1 ++ [mkBuf _ _ _ _]). set (right_ := [buf_advance n s] ++ t).
  assert (pkt_data left_ = encode m /\ pkt_data right_ = rest) as [Hleft Hright].
  { unfold left_, right_. rewrite pkt_data_app, !pkt_data_cons, app_nil_r. cbn [b_data buf_advance].
    assert (length (pkt_data b1 ++ take n (b_data s)) = length (encode m)) as Hlt.
    { rewrite length_app, length_take. unfold n, k, pkt_len in *. lia. }
    rewrite <- (take_drop n (b_data s)), <- app_assoc, app_assoc in Hp. apply app_inj_1 in Hp as [Hp1 Hp2]; [| exact Hlt].
    split; [done |]. by rewrite <- Hp2. }
  assert ((pkt_len (b1 ++ s :: t) =? pkt_len left_ + pkt_len right_) = true) as ->.
  { apply Z.eqb_eq. unfold pkt_len at 2 3. rewrite Hleft, Hright. unfold pkt_len.
    rewrite pkt_data_app, pkt_data_cons, Hp, length_app. lia. }
  cbn [kassert]. rewrite bind_Ok. destruct (process_message_spec m left_ Hm Hr Hleft) as (d & -> & Hd). rewrite bind_Ok.
  by exists d, right_.
Qed.

(** ** The buffer allocated in advance *)

Lemma copy_links_empty links : pkt_data links = [] -> forall data pos, (pos <= length data)%nat -> copy_links data pos links = Ok data.
Proof.
  induction links as [|l links IH]; intros Hl data pos Hp; cbn [copy_links]; [done |].
  rewrite pkt_data_cons in Hl. apply app_eq_nil in Hl as [-> Hl]. cbn [length]. rewrite Nat.add_0_r.
  assert ((length data <? pos)%nat = false) as -> by (by apply Nat.ltb_ge).
  assert (put_bytes pos [] data = data) as -> by (unfold put_bytes; cbn; rewrite Nat.add_0_r; apply take_drop).
  apply IH; [done |]. destruct (pos =? length data)%nat; lia.
Qed.

Lemma copy_links_spec links : forall got room, (length (pkt_data links) <= length room)%nat ->
  copy_links (got ++ room) (length got) links = Ok (got ++ pkt_data links ++ drop (length (pkt_data links)) room).
Proof.
  induction links as [|l links IH]; intros got room Hl; cbn [copy_links]; [done |].
  rewrite pkt_data_cons, length_app in Hl |- *. rewrite length_app at 1.
  assert ((length got + length room <? length got + length (b_data l))%nat = false) as -> by (apply Nat.ltb_ge; lia).
  assert (put_bytes (length got) (b_data l) (got ++ room) = (got ++ b_data l) ++ drop (length (b_data l)) room) as ->.
  { unfold put_bytes. rewrite take_app_length, drop_app_ge by lia. rewrite <- app_assoc. do 3 f_equal. lia. }
  rewrite !length_app, length_drop.
  destruct (Nat.eqb_spec (length got + length (b_data l)) (length got + length (b_data l) + (length room - length (b_data l)))) as [E|E].
  - assert (pkt_data links = []) as En by (apply length_zero_iff_nil; lia).
    rewrite copy_links_empty by (done || lia). rewrite En, app_nil_r, Nat.add_0_r. by rewrite <- app_assoc.
  - rewrite <- length_app, IH by (rewrite length_drop; lia). rewrite <- !app_assoc, drop_drop. done.
Qed.

(** A connection that holds the bytes [B] of an incomplete message. *)
Inductive holds (c : Connection) (B : list Z) : Prop :=
| holds_chain : preallocate_ c = 0 -> match buf_ c with Some p => pkt_data p = B | None => B = [] end -> holds c B
| holds_block room : preallocate_ c = Z.of_nat (length B) -> buf_ c = Some [mkBuf 0 [] (B ++ room) []] ->
    (24 <= length B)%nat -> room <> [] -> holds c B.

(** [B] is the start of the first of [ms], and [F] is still to come. *)
Definition awaits (ms : list message) (B F : list Z) : Prop :=
  encode_all ms = B ++ F /\ match ms with [] => True | m :: _ => (length B < length (encode m))%nat end.

(** The block has room for the first message. *)
Definition block_ok (c : Connection) (ms : list message) : Prop :=
  forall p, preallocate_ c <> 0 -> buf_ c = Some p -> exists m ms', ms = m :: ms' /\ pkt_len p = Z.of_nat (length (encode m)).

(** malloc finds memory for every message. *)
Definition malloc_ok : Prop := forall n, 0 <= n < 2 ^ 31 -> exists block, malloc n = Some block /\ Z.of_nat (length block) = n.

(** What one call delivers. *)
Definition received (ms : list message) (F : list Z) (c : Connection) (ds : list delivery) : Prop :=
  exists ms1 ms2 B, ms = ms1 ++ ms2 /\ Forall2 delivers ds ms1 /\ holds c B /\ awaits ms2 B F /\ block_ok c ms2.

Lemma encode_all_cons m ms : encode_all (m :: ms) = encode m ++ encode_all ms.
Proof. done. Qed.

Lemma short_block ms c : preallocate_ c = 0 -> block_ok c ms.
Proof. intros H p Hp. done. Qed.

Lemma header_at m ms p F : message_ok m -> encode_all (m :: ms) = pkt_data p ++ F -> 24 <= pkt_len p ->
  message_len (get_header p) = Z.of_nat (length (encode m)).
Proof.
  intros Hm He Hl. unfold get_header, pkt_len in *. rewrite encode_all_cons in He.
  rewrite <- (take_app_le (pkt_data p) F) by lia. rewrite <- He. exact (proj1 (stream_header m _ _ Hm eq_refl)).
Qed.

Lemma check_preallocate_spec m ms p F : malloc_ok -> message_ok m -> encode_all (m :: ms) = pkt_data p ++ F ->
  24 <= pkt_len p < Z.of_nat (length (encode m)) ->
  exists c, check_preallocate malloc p = Ok c /\ holds c (pkt_data p) /\ block_ok c (m :: ms).
Proof.
  intros Hma Hm He Hl. unfold check_preallocate. pose proof (ok_len _ Hm) as Ho.
  rewrite (header_at m ms p F Hm He) by lia.
  destruct (sparse _ _); [| eexists; split; [reflexivity |]; split; [by apply holds_chain | by apply short_block]].
  destruct (Hma (Z.of_nat (length (encode m))) ltac:(lia)) as (block & -> & Hb).
  assert ((Z.of_nat (length (encode m)) <? pkt_len p) = false) as -> by (apply Z.ltb_ge; lia).
  assert (u32 (pkt_len p) = pkt_len p) as -> by (apply u32_small; lia). rewrite Z.eqb_refl. cbn [kassert]. rewrite bind_Ok.
  eexists. split; [reflexivity |]. unfold pkt_len in Hl. split.
  - apply (holds_block _ _ (drop (length (pkt_data p)) block)); [done | done | lia |].
    intros E. apply (f_equal length) in E. rewrite length_drop in E. cbn in E. lia.
  - intros q _ [= <-]. exists m, ms. split; [done |]. unfold pkt_len. rewrite pkt_data_cons, app_nil_r. cbn [b_data].
    rewrite length_app, length_drop. lia.
Qed.

Lemma received_none ms B F c : holds c B -> awaits ms B F -> block_ok c ms -> received ms F c [].
Proof. intros Hh Ha Hb. by exists [], ms, B. Qed.

Lemma received_one m ms F d : delivers d m -> encode_all ms = F -> Forall message_ok ms -> received (m :: ms) F (mkConn 0 None) [d].
Proof.
  intros Hd <- Hok. exists [m], ms, []. split; [done |]. split; [by constructor |]. split; [by apply holds_chain |].
  split; [| by apply short_block]. split; [done |]. destruct ms as [|m' ms]; [done |].
  apply Forall_cons in Hok as [Hm' _]. pose proof (encode_length m' Hm'). cbn. lia.
Qed.

Lemma receive_loop_spec fuel : malloc_ok -> forall ms p F,
  Forall message_ok ms -> Forall registered ms -> encode_all ms = pkt_data p ++ F ->
  pkt_data p <> [] -> pkt_len p < 2 ^ 32 -> (length (pkt_data p) < fuel)%nat ->
  exists c ds, receive_loop malloc reg fuel p = Ok (c, ds) /\ received ms F c ds.
Proof.
  intros Hma. induction fuel as [|fuel IH]; intros ms p F Hok Hreg He Hne Hlt Hf; [lia |]. cbn [receive_loop].
  destruct ms as [|m ms]; [by destruct (pkt_data p) |]. apply Forall_cons in Hok as [Hm Hok], Hreg as [Hr Hreg].
  pose proof (encode_length m Hm) as Hel. pose proof (ok_len _ Hm) as Ho. unfold sizeofHeader.
  destruct (Z.ltb_spec (pkt_len p) 24) as [Hs|Hs].
  { do 2 eexists. split; [reflexivity |]. apply (received_none _ (pkt_data p)); [by apply holds_chain | | by apply short_block].
    split; [done |]. unfold pkt_len in Hs. lia. }
  rewrite (header_at m ms p F Hm He Hs). rewrite encode_all_cons in He.
  destruct (Z.eqb_spec (pkt_len p) (Z.of_nat (length (encode m)))) as [E|E].
  { unfold pkt_len in E. apply app_inj_1 in He as [He1 He2]; [| lia].
    destruct (process_message_spec m p Hm Hr (eq_sym He1)) as (d & -> & Hd). rewrite bind_Ok.
    do 2 eexists. split; [reflexivity |]. by apply received_one. }
  destruct (Z.ltb_spec (pkt_len p) (Z.of_nat (length (encode m)))) as [Hl|Hl].
  { assert (awaits (m :: ms) (pkt_data p) F) as Haw by (split; [done | unfold pkt_len in Hl; lia]).
    destruct (_ =? 0).
    - destruct (check_preallocate_spec m ms p F Hma Hm) as (c & -> & Hh & Hb); [done | lia |]. rewrite bind_Ok.
      do 2 eexists. split; [reflexivity |]. by apply (received_none _ (pkt_data p)).
    - do 2 eexists. split; [reflexivity |]. apply (received_none _ (pkt_data p)); [by apply holds_chain | done | by apply short_block]. }
  assert (pkt_data p = encode m ++ drop (length (encode m)) (pkt_data p)) as Hp.
  { rewrite <- (take_drop (length (encode m)) (pkt_data p)) at 1. f_equal.
    apply (f_equal (take (length (encode m)))) in He. rewrite take_app_length, take_app_le in He by (unfold pkt_len in Hl; lia). done. }
  set (rest := drop _ (pkt_data p)) in *.
  destruct (process_message_chain_spec m p rest Hm Hr Hp Hlt) as (d & p' & -> & Hd & Hp'). rewrite bind_Ok.
  assert (length (pkt_data p) = (length (encode m) + length rest)%nat) as Hlr by (rewrite Hp at 1; apply length_app).
  unfold pkt_len in *.
  destruct (IH ms p' F Hok Hreg) as (c & ds & -> & ms1 & ms2 & B & -> & Hds & Hrest).
  - rewrite Hp'. rewrite Hp, <- app_assoc in He. by apply app_inv_head in He.
  - rewrite Hp'. intros En. assert (length rest = 0%nat) by (by rewrite En). lia.
  - unfold pkt_len. rewrite Hp'. lia.
  - rewrite Hp'. lia.
  - rewrite bind_Ok. do 2 eexists. split; [reflexivity |]. exists (m :: ms1), ms2, B. split; [done |]. split; [by constructor | done].
Qed.

(** A segment that goes past the end of the block. *)
Definition crosses (c : Connection) (b : packet) : Prop :=
  preallocate_ c <> 0 /\ exists p, buf_ c = Some p /\ pkt_len p < preallocate_ c + pkt_len b.

Lemma preallocated_spec m ms B room b F : message_ok m -> registered m -> Forall message_ok ms ->
  encode_all (m :: ms) = B ++ pkt_data b ++ F -> (24 <= length B)%nat -> (length B < length (encode m))%nat ->
  length (B ++ room) = length (encode m) -> Z.of_nat (length B) + pkt_len b <= Z.of_nat (length (encode m)) ->
  exists c ds, preallocated reg (Z.of_nat (length B)) [mkBuf 0 [] (B ++ room) []] b = Ok (c, ds) /\ received (m :: ms) F c ds.
Proof.
  intros Hm Hr Hok He HB Hlt Hroom Hfit. pose proof (ok_len _ Hm) as Ho. pose proof (encode_length m Hm) as Hel.
  unfold preallocated. set (p := [mkBuf 0 [] (B ++ room) []]).
  assert (pkt_data p = B ++ room) as Ep by (apply app_nil_r).
  assert (get_header p = take 24 (encode m ++ encode_all ms)) as Eh.
  { unfold get_header. rewrite Ep, <- encode_all_cons, He, !take_app_le by lia. done. }
  rewrite Eh, (proj1 (stream_header m _ _ Hm eq_refl)). cbn [b_data p]. rewrite Nat2Z.id, Nat.mod_small by lia.
  rewrite length_app in Hroom. unfold pkt_len in *. rewrite copy_links_spec by lia. rewrite bind_Ok. cbn [b_addr b_pre b_post blen b_data].
  assert (u32 (Z.of_nat (length B) + Z.of_nat (length (pkt_data b))) = Z.of_nat (length (B ++ pkt_data b))) as ->.
  { rewrite length_app, Nat2Z.inj_add. apply u32_small. lia. }
  rewrite app_assoc in He.
  destruct (Z.eqb_spec (Z.of_nat (length (B ++ pkt_data b))) (Z.of_nat (length (encode m)))) as [E|E].
  - assert (blen (mkBuf 0 [] (B ++ room) []) = Z.of_nat (length (encode m))) as -> by (unfold blen; cbn [b_data]; rewrite length_app; lia).
    rewrite Z.eqb_refl. cbn [kassert]. rewrite bind_Ok. rewrite encode_all_cons in He. apply app_inj_1 in He as [He1 He2]; [| lia].
    rewrite length_app in E. set (q := [mkBuf _ _ _ _]).
    assert (pkt_data q = encode m) as Eq.
    { unfold q. rewrite pkt_data_cons, app_nil_r. cbn [b_data]. rewrite drop_ge by lia. by rewrite app_nil_r. }
    destruct (process_message_spec m q Hm Hr Eq) as (d & -> & Hd). rewrite bind_Ok. do 2 eexists. split; [reflexivity |].
    by apply received_one.
  - do 2 eexists. split; [reflexivity |]. rewrite length_app in E. apply (received_none _ (B ++ pkt_data b)).
    + apply (holds_block _ _ (drop (length (pkt_data b)) room)); [done | by rewrite app_assoc | rewrite length_app; lia |].
      intros En. apply (f_equal length) in En. rewrite length_drop in En. cbn in En. lia.
    + split; [done |]. rewrite length_app. lia.
    + intros q _ [= <-]. exists m, ms. split; [done |]. unfold pkt_len. rewrite pkt_data_cons, app_nil_r. cbn [b_data].
      rewrite !length_app, length_drop. lia.
Qed.

Lemma Receive_spec ms c B b F : malloc_ok -> Forall message_ok ms -> Forall registered ms ->
  holds c B -> awaits ms B (pkt_data b ++ F) -> block_ok c ms ->
  match b with [] => False | b0 :: _ => blen b0 <> 0 end -> pkt_len b < 2 ^ 31 -> ~ crosses c b ->
  exists c' ds, Receive malloc reg c b = Ok (c', ds) /\ received ms F c' ds.
Proof.
  intros Hma Hok Hreg Hh [He Haw] Hbl Hb Hbs Hx. destruct b as [|b0 bt]; [done |]. unfold Receive.
  assert ((blen b0 =? 0) = false) as -> by (by apply Z.eqb_neq). cbn [negb kassert]. rewrite bind_Ok. set (b := b0 :: bt) in *.
  assert (pkt_data b <> []) as Hne.
  { unfold b. rewrite pkt_data_cons. unfold blen in Hb. by destruct (b_data b0). }
  destruct ms as [|m ms]; [exfalso; change (encode_all []) with (@nil Z) in He; symmetry in He; apply app_eq_nil in He as [_ He];
    by apply app_eq_nil in He as [? _] |].
  apply Forall_cons in Hok as Hok', Hreg as Hreg'. destruct Hok' as [Hm Hok'], Hreg' as [Hr Hreg']. pose proof (ok_len _ Hm) as Ho.
  destruct Hh as [H0 Hd|room Hpre Hbuf HB Hroom].
  - rewrite H0. cbn [Z.eqb negb]. set (p := match buf_ c with Some p => p ++ b | None => b end).
    assert (pkt_data p = B ++ pkt_data b) as Ep.
    { unfold p. destruct (buf_ c); [rewrite pkt_data_app; by subst B | by subst B]. }
    apply receive_loop_spec; [done | done | done | by rewrite Ep, <- app_assoc | | | lia].
    + rewrite Ep. intros En. by apply app_eq_nil in En as [_ ?].
    + unfold pkt_len in *. rewrite Ep, length_app. lia.
  - rewrite Hpre. assert ((Z.of_nat (length B) =? 0) = false) as -> by (apply Z.eqb_neq; lia). cbn [negb]. rewrite Hbuf.
    destruct (Hbl _ ltac:(rewrite Hpre; lia) Hbuf) as (m' & ms' & [= <- <-] & Hlen).
    rewrite chain_len_single in Hlen. unfold blen in Hlen. cbn [b_data] in Hlen.
    apply preallocated_spec; [done | done | done | done | done | done | lia |].
    destruct (Z.le_gt_cases (Z.of_nat (length B) + pkt_len b) (Z.of_nat (length (encode m)))) as [?|Hgt]; [done |].
    exfalso. apply Hx. split; [lia |]. eexists. split; [exact Hbuf |]. rewrite chain_len_single. unfold blen. cbn [b_data]. lia.
Qed.

(** ** The whole stream *)

Fixpoint receive_all (c : Connection) (segs : list packet) : outcome (Connection * list delivery) :=
  match segs with
  | [] => Ok (c, [])
  | b :: segs => '(c, ds) ← Receive malloc reg c b; '(c, ds') ← receive_all c segs; Ok (c, ds ++ ds')
  end.

Definition segment_ok (b : packet) : Prop :=
  match b with [] => False | b0 :: _ => blen b0 <> 0 end /\ pkt_len b < 2 ^ 31.

Lemma crosses_dec c b : crosses c b \/ ~ crosses c b.
Proof.
  unfold crosses. destruct (Z.eq_dec (preallocate_ c) 0) as [E|E]; [right; tauto |].
  destruct (buf_ c) as [p|]; [| right; intros (_ & ? & [=] & _)].
  destruct (Z.lt_ge_cases (pkt_len p) (preallocate_ c + pkt_len b)) as [Hlt|Hge].
  - left. split; [done |]. by exists p.
  - right. intros (_ & q & [= <-] & Hq). lia.
Qed.

(** Some segment goes past the end of the block allocated in advance. *)
Definition overflows (c : Connection) (segs : list packet) : Prop :=
  exists segs1 b segs2 c1 ds, segs = segs1 ++ b :: segs2 /\ receive_all c segs1 = Ok (c1, ds) /\ crosses c1 b.

Lemma receive_all_spec segs : malloc_ok -> Forall segment_ok segs -> forall ms c B F,
  Forall message_ok ms -> Forall registered ms -> holds c B -> block_ok c ms ->
  awaits ms B (concat (pkt_data <$> segs) ++ F) ->
  overflows c segs \/ exists c' ds, receive_all c segs = Ok (c', ds) /\ received ms F c' ds.
Proof.
  intros Hma Hsegs. induction Hsegs as [|b segs [Hb Hbl] Hsegs IH]; intros ms c B F Hok Hreg Hh Hbk Haw.
  - right. do 2 eexists. split; [reflexivity |]. by apply (received_none _ B).
  - destruct (crosses_dec c b) as [Hx|Hx]; [left; by exists [], b, segs, c, [] |].
    cbn [fmap list_fmap concat] in Haw. rewrite <- app_assoc in Haw.
    destruct (Receive_spec ms c B b _ Hma Hok Hreg Hh Haw Hbk Hb Hbl Hx) as (c1 & ds & Er & ms1 & ms2 & B1 & -> & Hd & Hh1 & Ha1 & Hbk1).
    apply Forall_app in Hok as [_ Hok], Hreg as [_ Hreg].
    destruct (IH ms2 c1 B1 F Hok Hreg Hh1 Hbk1 Ha1) as [(s1 & b' & s2 & c2 & ds2 & -> & E2 & Hc2)|(c2 & ds2 & E2 & ms3 & ms4 & B2 & -> & Hd2 & Hr2)].
    + left. exists (b :: s1), b', s2, c2, (ds ++ ds2). split; [done |]. split; [cbn; by rewrite Er, bind_Ok, E2 | done].
    + right. do 2 eexists. split; [cbn; rewrite Er, bind_Ok, E2, bind_Ok; reflexivity |]. exists (ms1 ++ ms3), ms4, B2.
      split; [by rewrite app_assoc |]. split; [by apply Forall2_app | done].
Qed.
End Receive.

(** What is sent: the identifier, the type, the padding and the data of each message. *)
Record send := mkSend { s_id : Z; s_type : Z; s_pad : list Z; s_data : packet }.

Definition message_of (s : send) : message := mkMessage (s_id s) (s_type s) (s_pad s) (pkt_data (s_data s)).

Definition send_bytes (to : Ipv4Address) (m : connections) (s : send) : list Z :=
  pkt_data (Messenger_Send to (s_id s) (s_type s) (s_pad s) (s_data s) m).2.

Lemma send_bytes_encode to m s : send_bytes to m s = encode (message_of s).
Proof. unfold send_bytes, Messenger_Send. by destruct (m !! to). Qed.

(** C17. Messages over a connection: let any messages be sent, and let the receiver get
    any prefix of the bytes, cut into any segments, each a chain of buffers.  Unless
    a segment goes past the end of a block allocated in advance, exactly the
    messages that are complete are delivered, once, in order and to the Ebb and
    type they were sent to, and the bytes of the next one are kept; with all the
    bytes received, all the messages are delivered. *)
Theorem messenger_framing malloc reg to (m : connections) sends segs F :
  malloc_ok malloc -> Forall (fun s => message_ok (message_of s) /\ registered reg (message_of s)) sends ->
  Forall segment_ok segs -> concat (send_bytes to m <$> sends) = concat (pkt_data <$> segs) ++ F ->
  overflows malloc reg (mkConn 0 None) segs \/
  exists c ds sends1 sends2, receive_all malloc reg (mkConn 0 None) segs = Ok (c, ds) /\ sends = sends1 ++ sends2 /\
    Forall2 (delivers reg) ds (message_of <$> sends1) /\
    (exists B, holds c B /\ awaits (message_of <$> sends2) B F) /\ (F = [] -> sends2 = []).
Proof.
  intros Hma Hs Hsegs He.
  assert (concat (send_bytes to m <$> sends) = encode_all (message_of <$> sends)) as Ee.
  { unfold encode_all. f_equal. rewrite <- list_fmap_compose. apply list_fmap_ext. intros i s _. apply send_bytes_encode. }
  rewrite Ee in He. assert (Forall message_ok (message_of <$> sends) /\ Forall (registered reg) (message_of <$> sends)) as [Hok Hreg].
  { split; apply Forall_fmap; (eapply Forall_impl; [exact Hs |]); intros s [? ?]; done. }
  destruct (receive_all_spec malloc reg segs Hma Hsegs (message_of <$> sends) (mkConn 0 None) [] F Hok Hreg) as [Hx|Hr];
    [by apply holds_chain | by intros p | | by left |].
  - split; [done |]. destruct sends as [|s sends]; [done |]. cbn in Hok. apply Forall_cons in Hok as [H1 _].
    cbn [fmap list_fmap]. rewrite (encode_length _ H1). cbn. lia.
  - right. destruct Hr as (c & ds & Er & ms1 & ms2 & B & Ems & Hd & Hh & [Ha1 Ha2] & _).
    apply fmap_app_inv in Ems as (s1 & s2 & -> & -> & ->). exists c, ds, s1, s2. split; [done |]. split; [done |]. split; [done |].
    split; [by exists B |]. intros ->. destruct s2 as [|s s2]; [done |]. exfalso. cbn [fmap list_fmap] in *.
    rewrite encode_all_cons, app_nil_r in Ha1. subst B. rewrite length_app in Ha2. lia.
Qed.

(** ** Concrete runs *)

Definition zero_malloc (n : Z) : option (list Z) := Some (replicate (Z.to_nat n) 0).
Definition demo_reg : Registry := mkRegistry {[ 7 ]} {[ 7 ]} {[ 100 ]}.
Definition demo_sends : list send :=
  [mkSend 100 7 [0; 0; 0; 0] [mkBuf 0 [] [1; 2; 3] []; mkBuf 0 [] [4] []]; mkSend 101 7 [9; 9; 9; 9] [mkBuf 0 [] [] []]].

(** The bytes of the two messages in three segments that cut both headers. *)
Definition demo_stream : list Z := concat (send_bytes ip_Any ∅ <$> demo_sends).
Definition demo_segs : list packet :=
  [[mkBuf 0 [] (take 10 demo_stream) []]; [mkBuf 0 [] (take 5 (drop 10 demo_stream)) []; mkBuf 0 [] (take 20 (drop 15 demo_stream)) []];
   [mkBuf 0 [] (drop 35 demo_stream) []]].

Lemma zero_malloc_ok : malloc_ok zero_malloc.
Proof. intros n Hn. eexists. split; [reflexivity |]. rewrite length_replicate. lia. Qed.

Lemma messenger_framing_witness :
  overflows zero_malloc demo_reg (mkConn 0 None) demo_segs \/
  exists c ds sends1 sends2, receive_all zero_malloc demo_reg (mkConn 0 None) demo_segs = Ok (c, ds) /\ demo_sends = sends1 ++ sends2 /\
    Forall2 (delivers demo_reg) ds (message_of <$> sends1) /\
    (exists B, holds c B /\ awaits (message_of <$> sends2) B []) /\ (@nil Z = [] -> sends2 = []).
Proof.
  apply (messenger_framing zero_malloc demo_reg ip_Any ∅ demo_sends demo_segs []).
  - exact zero_malloc_ok.
  - repeat constructor; try (unfold in_u; cbn; lia).
    + exists ThroughCast. vm_compute. reflexivity.
    + exists ThroughFault. vm_compute. reflexivity.
  - repeat constructor; vm_compute; done.
  - vm_compute. reflexivity.
Defined.

(** The block allocated in advance: when the block of a long message is in use, a
    buffer that carries the end of the message and the start of the next one is
    copied past the end of the block; and when the next message starts in a buffer of
    its own, it overwrites the start of the block, and the complete message is not
    delivered. *)
Theorem block_overflow malloc reg c B room b extra :
  buf_ c = Some [mkBuf 0 [] (B ++ room) []] -> preallocate_ c = Z.of_nat (length B) ->
  (24 <= length B)%nat -> room <> [] -> message_len (take 24 B) = Z.of_nat (length (B ++ room)) ->
  2 * Z.of_nat (length (B ++ room)) < 2 ^ 32 ->
  blen extra <> 0 -> blen extra <= Z.of_nat (length (B ++ room)) ->
  (blen b > Z.of_nat (length room) -> Receive malloc reg c [b] = Fail UndefinedBehaviour) /\
  (blen b = Z.of_nat (length room) -> exists c', Receive malloc reg c [b; extra] = Ok (c', []) /\
     preallocate_ c' > Z.of_nat (length (B ++ room))).
Proof.
  intros Hbuf Hpre HB Hroom Hlen Hw Hx Hxl. rewrite length_app in Hlen, Hw, Hxl.
  assert (0 < length room)%nat as Hr0 by (destruct room; [done | cbn; lia]).
  assert (get_header [mkBuf 0 [] (B ++ room) []] = take 24 B) as Eh.
  { unfold get_header. rewrite pkt_data_cons, app_nil_r. cbn [b_data]. by rewrite take_app_le by lia. }
  unfold Receive. rewrite Hpre, Hbuf. assert ((Z.of_nat (length B) =? 0) = false) as -> by (apply Z.eqb_neq; lia).
  unfold preallocated. rewrite Eh, Hlen. cbn [b_data negb]. rewrite Nat2Z.id, Nat.mod_small by (rewrite length_app; lia).
  split; intros Hb.
  - assert ((blen b =? 0) = false) as -> by (apply Z.eqb_neq; lia). cbn [negb kassert]. rewrite bind_Ok. cbn [copy_links].
    unfold blen in Hb. rewrite length_app at 1.
    assert ((length B + length room <? length B + length (b_data b))%nat = true) as -> by (apply Nat.ltb_lt; lia). done.
  - assert ((blen b =? 0) = false) as -> by (apply Z.eqb_neq; lia). cbn [negb kassert]. rewrite bind_Ok. unfold blen in *.
    assert (copy_links (B ++ room) (length B) [b; extra] = Ok (put_bytes 0 (b_data extra) (B ++ b_data b))) as ->.
    { cbn [copy_links]. rewrite length_app at 1.
      assert ((length B + length room <? length B + length (b_data b))%nat = false) as -> by (apply Nat.ltb_ge; lia).
      assert (put_bytes (length B) (b_data b) (B ++ room) = B ++ b_data b) as ->.
      { unfold put_bytes. rewrite take_app_length, drop_ge by (rewrite length_app; lia). by rewrite app_nil_r. }
      rewrite !length_app, Nat.eqb_refl. assert ((length B + length (b_data b) <? 0 + length (b_data extra))%nat = false) as -> by (apply Nat.ltb_ge; lia).
      done. }
    rewrite bind_Ok. unfold pkt_len. rewrite !pkt_data_cons, app_nil_r, !length_app.
    assert (u32 (Z.of_nat (length B) + Z.of_nat (length (b_data b) + length (b_data extra))) =
      Z.of_nat (length B + length room) + Z.of_nat (length (b_data extra))) as -> by (rewrite u32_small; lia).
    destruct (Z.eqb_spec (Z.of_nat (length B + length room) + Z.of_nat (length (b_data extra))) (Z.of_nat (length B + length room))); [lia |].
    eexists. split; [reflexivity |]. cbn [preallocate_]. lia.
Qed.

(** A message of 324 bytes, whose first hundred bytes come one by one in buffers of
    65 bytes. *)
Definition long_send : send := mkSend 100 7 [0; 0; 0; 0] [mkBuf 0 [] (replicate 300 0) []].
Definition long_stream : list Z := send_bytes ip_Any ∅ long_send.
Definition drip : list packet := (fun i => [mkBuf 0 [] [byte_at i long_stream] (replicate 64 0)]) <$> seq 0 100.
Definition dripped : Connection := mkConn 100 (Some [mkBuf 0 [] (take 100 long_stream ++ replicate 224 0) []]).

Lemma block_overflow_witness :
  receive_all zero_malloc demo_reg (mkConn 0 None) drip = Ok (dripped, []) /\
  Receive zero_malloc demo_reg dripped [mkBuf 0 [] (replicate 225 0) []] = Fail UndefinedBehaviour.
Proof.
  split; [vm_compute; reflexivity |].
  refine (proj1 (block_overflow zero_malloc demo_reg dripped (take 100 long_stream) (replicate 224 0)
    (mkBuf 0 [] (replicate 225 0) []) (mkBuf 0 [] [0] []) eq_refl eq_refl _ _ eq_refl _ _ _) _); vm_compute; try done; lia.
Defined.
