(* ===== verification/Virtio.v ===== *)
(** * Virtio rings

    Models the ring of src/src/native/Virtio.h: the descriptor table with its list
    of free descriptors, the available and the used ring that the driver shares
    with the device, and the buffers the driver keeps for the descriptors that
    the device owns. *)

From S2P Require Import Prelude Pfn Checksum NetIp Messenger.

(** ** The ring *)

Record Desc := mkDesc { d_addr : Z; d_len : Z; d_flags : Z; d_next : nat }.
Definition Next : Z := 1.
Definition Write : Z := 2.
Definition kNoInterrupt : Z := 1.
Definition kNoNotify : Z := 1.

Record VRing := mkVRing {
  desc_ : list Desc;
  avail_flags : Z;
  avail_idx : Z;                   (* avail_->idx, what the device sees *)
  avail_ring : list nat;
  used_flags : Z;
  used_idx : Z;                    (* used_->idx, written by the device *)
  used_ring : list (nat * Z);      (* id and len *)
  avail_event_ : Z;
  qsize_ : Z;
  last_used_ : Z;
  avail_idx_ : Z;
  used_head_ : Z;
  free_head_ : nat;
  free_count_ : Z;
  buf_references_ : list (option packet);
  event_indexes_ : bool
}.

Definition set_descs (d : list Desc) (h : nat) (c : Z) (r : VRing) : VRing :=
  mkVRing d (avail_flags r) (avail_idx r) (avail_ring r) (used_flags r) (used_idx r) (used_ring r) (avail_event_ r) (qsize_ r)
    (last_used_ r) (avail_idx_ r) (used_head_ r) h c (buf_references_ r) (event_indexes_ r).
Definition set_avail_flags (f : Z) (r : VRing) : VRing :=
  mkVRing (desc_ r) f (avail_idx r) (avail_ring r) (used_flags r) (used_idx r) (used_ring r) (avail_event_ r) (qsize_ r)
    (last_used_ r) (avail_idx_ r) (used_head_ r) (free_head_ r) (free_count_ r) (buf_references_ r) (event_indexes_ r).
Definition push_avail (head : nat) (r : VRing) : VRing :=
  mkVRing (desc_ r) (avail_flags r) (avail_idx r) (<[Z.to_nat (avail_idx_ r mod qsize_ r) := head]> (avail_ring r))
    (used_flags r) (used_idx r) (used_ring r) (avail_event_ r) (qsize_ r)
    (last_used_ r) (u16 (avail_idx_ r + 1)) (used_head_ r) (free_head_ r) (free_count_ r) (buf_references_ r) (event_indexes_ r).
Definition publish (r : VRing) : VRing :=
  mkVRing (desc_ r) (avail_flags r) (avail_idx_ r) (avail_ring r) (used_flags r) (used_idx r) (used_ring r) (avail_event_ r) (qsize_ r)
    (last_used_ r) (avail_idx_ r) (used_head_ r) (free_head_ r) (free_count_ r) (buf_references_ r) (event_indexes_ r).
Definition set_ref (i : nat) (b : option packet) (r : VRing) : VRing :=
  mkVRing (desc_ r) (avail_flags r) (avail_idx r) (avail_ring r) (used_flags r) (used_idx r) (used_ring r) (avail_event_ r) (qsize_ r)
    (last_used_ r) (avail_idx_ r) (used_head_ r) (free_head_ r) (free_count_ r) (<[i := b]> (buf_references_ r)) (event_indexes_ r).
Definition set_last_used (n : Z) (r : VRing) : VRing :=
  mkVRing (desc_ r) (avail_flags r) (avail_idx r) (avail_ring r) (used_flags r) (used_idx r) (used_ring r) (avail_event_ r) (qsize_ r)
    n (avail_idx_ r) (used_head_ r) (free_head_ r) (free_count_ r) (buf_references_ r) (event_indexes_ r).
Definition load_used (r : VRing) : VRing :=
  mkVRing (desc_ r) (avail_flags r) (avail_idx r) (avail_ring r) (used_flags r) (used_idx r) (used_ring r) (avail_event_ r) (qsize_ r)
    (last_used_ r) (avail_idx_ r) (used_idx r) (free_head_ r) (free_count_ r) (buf_references_ r) (event_indexes_ r).

(** ** Construction *)

Definition ring_bytes (qsize : Z) : Z :=
  AlignUp (16 * qsize + 2 * (3 + qsize)) 4096 + AlignUp (2 * 3 + 8 * qsize) 4096.
Definition ring_order (qsize : Z) : outcome Z := fls ← Fls (ring_bytes qsize - 1); Ok (fls - kPageShift + 1).

(** Where the parts of the ring are: the descriptors at [addr]. *)
Definition avail_addr (addr qsize : Z) : Z := addr + 16 * qsize.
Definition used_event_addr (addr qsize : Z) : Z := avail_addr addr qsize + 4 + 2 * qsize.
Definition used_addr (addr qsize : Z) : Z := AlignUp (used_event_addr addr qsize + 2) 4096.
Definition avail_event_addr (addr qsize : Z) : Z := used_addr addr qsize + 4 + 8 * qsize.

(** The memory is zeroed; the descriptors are linked. *)
Definition new_VRing (qsize : nat) : VRing :=
  mkVRing ((fun i => mkDesc 0 0 0 (if (S i =? qsize)%nat then 0%nat else S i)) <$> seq 0 qsize)
    0 0 (replicate qsize 0%nat) 0 0 (replicate qsize (0%nat, 0)) 0 (Z.of_nat qsize) 0 0 0 0%nat (Z.of_nat qsize)
    (replicate qsize None) false.

(** ** Adding buffers *)

(** The loop over the buffers of a chain: the first [out_num] are read by the
    device, the others written. *)
Fixpoint fill_descs (out_num : nat) (bufs : packet) (ds : list Desc) (free_head last : nat) : outcome (list Desc * nat * nat) :=
  match bufs with
  | [] => Ok (ds, free_head, last)
  | b :: t =>
      match ds !! free_head with
      | None => Fail UndefinedBehaviour
      | Some d =>
          let flags := Z.lor (d_flags d) Next in
          let flags := if (out_num =? 0)%nat then Z.lor flags Write else flags in
          let d' := mkDesc (u64 (b_addr b + Z.of_nat (length (b_pre b)))) (u32 (blen b)) flags (d_next d) in
          fill_descs (out_num - 1) t (<[free_head := d']> ds) (d_next d) free_head
      end
  end.

(** [desc_[last].flags &= ~Desc::Next]. *)
Definition clear_next (last : nat) (ds : list Desc) : list Desc :=
  alter (fun d => mkDesc (d_addr d) (d_len d) (Z.land (d_flags d) (Z.lnot Next)) (d_next d)) last ds.

(** The descriptors of one chain, and its entry in the available ring. *)
Definition add_chain (bufs : packet) (out_num : nat) (r : VRing) : outcome VRing :=
  let len := Z.of_nat (length bufs) in
  let head := free_head_ r in
  '(ds, free_head, last_desc) ← fill_descs out_num bufs (desc_ r) head head;
  Ok (push_avail head (set_descs (clear_next last_desc ds) free_head (free_count_ r - len) r)).

(** Whether the device is notified. *)
Definition must_kick (orig_idx : Z) (r : VRing) : bool :=
  if event_indexes_ r then u16 (avail_idx_ r - avail_event_ r - 1) <? u16 (avail_idx_ r - orig_idx)
  else Z.land (used_flags r) kNoNotify =? 0.

Definition AddBuffer (bufs : packet) (out_num : nat) (r : VRing) : outcome (bool * VRing) :=
  _ ← kassert (Z.of_nat (length bufs) <=? free_count_ r);
  let orig_idx := avail_idx_ r in
  let head := free_head_ r in
  r ← add_chain bufs out_num r;
  let r := publish r in
  _ ← kassert (Z.of_nat head <? qsize_ r);
  Ok (must_kick orig_idx r, set_ref head (Some bufs) r).

(** The loop of [AddWritableBuffers]: the chains that were not added. *)
Fixpoint add_writable (chains : list packet) (r : VRing) : outcome (list packet * VRing) :=
  match chains with
  | [] => Ok ([], r)
  | bufs :: t =>
      if free_count_ r <? Z.of_nat (length bufs) then Ok (chains, r)
      else
        let head := free_head_ r in
        r ← add_chain bufs 0 r;
        _ ← kassert (Z.of_nat head <? qsize_ r);
        add_writable t (set_ref head (Some bufs) r)
  end.

(** Without room for a chain the function returns before the chains are published. *)
Definition AddWritableBuffers (chains : list packet) (r : VRing) : outcome (list packet * bool * VRing) :=
  match chains with
  | [] => Ok ([], false, r)
  | _ =>
      let orig_idx := avail_idx_ r in
      '(rest, r) ← add_writable chains r;
      match rest with
      | [] => let r := publish r in Ok ([], must_kick orig_idx r, r)
      | _ => Ok (rest, false, r)
      end
  end.

(** ** Used buffers *)

Definition HasUsedBuffer (r : VRing) : bool * VRing :=
  if last_used_ r =? used_head_ r then
    let r := load_used r in (negb (last_used_ r =? used_head_ r), r)
  else (true, r).

(** The last descriptor of the chain at [i], and the length of the chain, which is at
    most that of the table. *)
Fixpoint walk_chain (fuel : nat) (ds : list Desc) (i : nat) (len : Z) : outcome (nat * Z) :=
  match fuel with
  | O => Fail Diverges
  | S fuel =>
      match ds !! i with
      | None => Fail UndefinedBehaviour
      | Some d => if Z.land (d_flags d) Next =? 0 then Ok (i, len) else walk_chain fuel ds (d_next d) (len + 1)
      end
  end.

(** The chain of the next used element goes back to the free list: its buffers and
    the length the device wrote. *)
Definition reclaim (r : VRing) : outcome (packet * Z * VRing) :=
  match used_ring r !! Z.to_nat (last_used_ r mod qsize_ r) with
  | None => Fail UndefinedBehaviour
  | Some (id, len) =>
      match buf_references_ r !! id with
      | None => Fail UndefinedBehaviour
      | Some None => Fail AssertFailed
      | Some (Some buf) =>
          '(last, n) ← walk_chain (length (desc_ r)) (desc_ r) id 1;
          let ds := alter (fun d => mkDesc (d_addr d) (d_len d) (d_flags d) (free_head_ r)) last (desc_ r) in
          let r := set_ref id None (set_descs ds id (u16 (free_count_ r + n)) r) in
          Ok (buf, len, set_last_used (u16 (last_used_ r + 1)) r)
      end
  end.

(** The buffers without what the device did not write. *)
Fixpoint trim (packet_len : Z) (bufs : packet) : packet :=
  match bufs with
  | [] => []
  | b :: t =>
      if packet_len <? blen b then
        let k := Z.to_nat packet_len in
        mkBuf (b_addr b) (b_pre b) (take k (b_data b)) (drop k (b_data b) ++ b_post b) :: trim 0 t
      else b :: trim (packet_len - blen b) t
  end.

Definition GetBuffer (r : VRing) : outcome (packet * VRing) :=
  '(buf, len, r) ← reclaim r;
  let buf := trim len buf in
  _ ← kassert (pkt_len buf =? len);
  Ok (buf, r).

(** The loops end when [last_used_] reaches [used_head_]: [n] rounds. The buffers that
    were destroyed, in order. *)
Fixpoint clear_loop (n : nat) (r : VRing) : outcome (list packet * VRing) :=
  match n with
  | O => Ok ([], r)
  | S n => '(b, _, r) ← reclaim r; '(bs, r) ← clear_loop n r; Ok (b :: bs, r)
  end.
Definition ClearUsedBuffers (r : VRing) : outcome (list packet * VRing) :=
  let r := load_used r in
  clear_loop (Z.to_nat (u16 (used_head_ r - last_used_ r))) r.

(** The buffers given to the function, in order. *)
Fixpoint process_loop (n : nat) (r : VRing) : outcome (list packet * VRing) :=
  match n with
  | O => Ok ([], r)
  | S n => '(b, r) ← GetBuffer r; '(bs, r) ← process_loop n r; Ok (b :: bs, r)
  end.
Definition ProcessUsedBuffers (r : VRing) : outcome (list packet * VRing) :=
  let r := load_used r in
  process_loop (Z.to_nat (u16 (used_head_ r - last_used_ r))) r.

Definition EnableInterrupts (r : VRing) : VRing := set_avail_flags 0 r.
Definition DisableInterrupts (r : VRing) : VRing := set_avail_flags kNoInterrupt r.
