(* ===== verification/VirtioCorrect.v ===== *)
(** * Correctness of virtio rings

    Over any interleaving of the driver and the device, every descriptor is either
    free or part of one chain that the device owns; a buffer stays with the driver
    as long as the device owns its chain, comes back exactly once, and its
    descriptors are free again. *)

From S2P Require Import Prelude Pfn Checksum NetIp Messenger Virtio.

(** ** Lists of descriptors *)

Definition next_of (ds : list Desc) (x : nat) : option nat := d_next <$> ds !! x.
Definition more (ds : list Desc) (x : nat) : option bool := (fun d => negb (Z.land (d_flags d) Next =? 0)) <$> ds !! x.

(** Each descriptor of [l] but the last names the following one. *)
Fixpoint linked (ds : list Desc) (l : list nat) : Prop :=
  match l with
  | x :: ((y :: _) as t) => next_of ds x = Some y /\ linked ds t
  | _ => True
  end.

(** All but the last are marked as continued. *)
Fixpoint flagged (ds : list Desc) (l : list nat) : Prop :=
  match l with
  | [] => False
  | [x] => more ds x = Some false
  | x :: t => more ds x = Some true /\ flagged ds t
  end.

Lemma desc_linked_frame ds ds' l : (forall x, x ∈ l -> next_of ds' x = next_of ds x) -> linked ds l -> linked ds' l.
Proof.
  induction l as [|x [|y l] IH]; intros Hf Hl; [done | done |]. destruct Hl as [Hx Hl].
  split; [by rewrite Hf by (by left) |]. apply IH; [| done]. intros z Hz. apply Hf. by right.
Qed.

Lemma flagged_frame ds ds' l : (forall x, x ∈ l -> more ds' x = more ds x) -> flagged ds l -> flagged ds' l.
Proof.
  induction l as [|x [|y l] IH]; intros Hf Hl; [done | cbn in *; by rewrite Hf by (by left) |]. destruct Hl as [Hx Hl].
  split; [by rewrite Hf by (by left) |]. apply IH; [| done]. intros z Hz. apply Hf. by right.
Qed.

Lemma linked_app_l ds l1 l2 : linked ds (l1 ++ l2) -> linked ds l1.
Proof.
  induction l1 as [|x [|y l1] IH]; intros Hl; [done | done |]. destruct Hl as [Hx Hl]. split; [done |]. by apply IH.
Qed.

Lemma linked_app_r ds l1 l2 : linked ds (l1 ++ l2) -> linked ds l2.
Proof.
  induction l1 as [|x l1 IH]; intros Hl; [done |]. apply IH. cbn in Hl. destruct (l1 ++ l2); [done | by destruct Hl].
Qed.

(** Joining two lists at the last descriptor [z] of the first. *)
Lemma linked_join ds l1 z l2 : linked ds (l1 ++ [z]) -> linked ds l2 ->
  match l2 with [] => True | y :: _ => next_of ds z = Some y end -> linked ds (l1 ++ z :: l2).
Proof.
  induction l1 as [|x l1 IH]; intros H1 H2 Hz; cbn in *; [by destruct l2 |].
  destruct l1 as [|y l1]; cbn in *; destruct H1 as [Hx H1]; (split; [done |]); [by apply IH | by apply IH].
Qed.

Lemma walk_chain_spec ds : forall c fuel x t len, c = x :: t -> linked ds c -> flagged ds c -> (length c <= fuel)%nat ->
  exists z, last c = Some z /\ walk_chain fuel ds x len = Ok (z, len + Z.of_nat (length t)).
Proof.
  induction c as [|x0 c IH]; intros fuel x t len Hc Hl Hf Hn; [done |]. injection Hc as -> ->.
  destruct fuel as [|fuel]; [cbn in Hn; lia |]. cbn [walk_chain].
  destruct t as [|y t]; cbn in Hf.
  - unfold more in Hf. apply fmap_Some in Hf as (d & -> & Hd). apply eq_sym, negb_false_iff in Hd. rewrite Hd.
    exists x. split; [done |]. cbn. f_equal. f_equal. lia.
  - destruct Hf as [Hm Hf], Hl as [Hx Hl]. unfold more, next_of in *. apply fmap_Some in Hm as (d & Ed & Hd). rewrite Ed in Hx |- *.
    cbn in Hx. injection Hx as Hx. apply eq_sym, negb_true_iff in Hd. rewrite Hd, Hx.
    destruct (IH fuel y t (len + 1) eq_refl Hl Hf) as (z & Hz & Hw); [cbn in Hn |- *; lia |].
    exists z. split; [done |]. rewrite Hw. f_equal. f_equal. cbn. lia.
Qed.

(** ** Adding a chain *)

Lemma flag_set f : Z.land (Z.lor f Next) Next = Next.
Proof.
  rewrite Z.land_lor_distr_l. change (Z.land Next Next) with 1. change Next with (Z.ones 1). rewrite Z.land_ones by lia.
  pose proof (Z.mod_pos_bound f (2 ^ 1) ltac:(lia)). assert (f mod 2 ^ 1 = 0 \/ f mod 2 ^ 1 = 1) as [-> | ->] by lia; done.
Qed.

Lemma flag_set_write f : Z.land (Z.lor (Z.lor f Next) Write) Next = Next.
Proof. rewrite <- Z.lor_assoc, (Z.lor_comm Next), Z.lor_assoc. apply flag_set. Qed.

Lemma flag_clear f : Z.land (Z.land f (Z.lnot Next)) Next = 0.
Proof. rewrite <- Z.land_assoc. change (Z.land (Z.lnot Next) Next) with 0. apply Z.land_0_r. Qed.

Lemma fill_descs_spec bufs : forall out ds c rest fh last0, length c = length bufs -> linked ds (c ++ rest) -> NoDup c ->
  (forall x, x ∈ c -> (x < length ds)%nat) -> match c ++ rest with [] => True | x :: _ => fh = x end ->
  exists ds' fh', fill_descs out bufs ds fh last0 = Ok (ds', fh', default last0 (last c)) /\ length ds' = length ds /\
    (forall x, next_of ds' x = next_of ds x) /\ (forall x, x ∉ c -> ds' !! x = ds !! x) /\
    (forall x, x ∈ c -> more ds' x = Some true) /\ match rest with [] => True | y :: _ => fh' = y end.
Proof.
  induction bufs as [|b bufs IH]; intros out ds c rest fh last0 Hc Hl Hnd Hr Hh; cbn [fill_descs].
  - destruct c; [| done]. exists ds, fh. do 4 (split; [done |]). split; [intros x Hx; by apply elem_of_nil in Hx | by destruct rest].
  - destruct c as [|x c]; [done |]. cbn in Hh. subst fh. destruct (lookup_lt_is_Some_2 ds x) as [d Hd]; [apply Hr; by left |]. rewrite Hd.
    set (d' := mkDesc _ _ _ (d_next d)). set (ds1 := <[x := d']> ds). apply NoDup_cons in Hnd as [Hx Hnd].
    assert (forall y, next_of ds1 y = next_of ds y) as Hn1.
    { intros y. unfold next_of, ds1. destruct (decide (y = x)) as [->|Hne]; [| by rewrite list_lookup_insert_ne].
      rewrite list_lookup_insert_eq, Hd by (by eapply lookup_lt_Some). done. }
    assert (more ds1 x = Some true) as Hm1.
    { unfold more, ds1. rewrite list_lookup_insert_eq by (by eapply lookup_lt_Some). cbn. f_equal.
      destruct (out =? 0)%nat; [by rewrite flag_set_write | by rewrite flag_set]. }
    destruct (IH (out - 1)%nat ds1 c rest (d_next d) x) as (ds' & fh' & E & Hlen & Hn & Ho & Hm & Hf).
    + cbn in Hc. lia.
    + apply (desc_linked_frame ds); [done |]. cbn in Hl. destruct (c ++ rest); [done | by destruct Hl].
    + done.
    + intros y Hy. unfold ds1. rewrite length_insert. apply Hr. by right.
    + cbn in Hl. destruct (c ++ rest) as [|y l]; [done |]. destruct Hl as [Hy _]. unfold next_of in Hy. rewrite Hd in Hy. by injection Hy.
    + exists ds', fh'. split; [rewrite E; do 2 f_equal; destruct c as [|y c]; [done |]; rewrite (last_cons_cons x y c); by destruct (last (y :: c)) eqn:El; [| apply last_None in El] |].
      split; [rewrite Hlen; apply length_insert |]. split; [intros y; by rewrite Hn |].
      split; [intros y Hy; apply not_elem_of_cons in Hy as [Hne Hy]; rewrite Ho by done; by apply list_lookup_insert_ne |].
      split; [| done]. intros y Hy. apply elem_of_cons in Hy as [->|Hy]; [| by apply Hm].
      unfold more. rewrite Ho by done. exact Hm1.
Qed.

(** ** The driver and the device *)

(** The device has read the available ring up to [seen], and owns the chains that it
    has not used. *)
Record System := mkSystem { ring : VRing; seen : Z; owned : list nat }.

(** The device returns a chain that it owns, the buffers as it left them. *)
Definition device_use (h : nat) (len : Z) (p : packet) (r : VRing) : VRing :=
  mkVRing (desc_ r) (avail_flags r) (avail_idx r) (avail_ring r) (used_flags r) (u16 (used_idx r + 1))
    (<[Z.to_nat (used_idx r mod qsize_ r) := (h, len)]> (used_ring r)) (avail_event_ r) (qsize_ r)
    (last_used_ r) (avail_idx_ r) (used_head_ r) (free_head_ r) (free_count_ r) (<[h := Some p]> (buf_references_ r)) (event_indexes_ r).

(** A chain that is not free: its descriptors and its buffers. *)
Record chain := mkChain { c_head : nat; c_rest : list nat; c_buf : packet }.
Definition c_descs (c : chain) : list nat := c_head c :: c_rest c.

(** The free descriptors, the chains in use, the heads that the device has not
    fetched, and the used elements that the driver has not seen. *)
Record Ghost := mkGhost { free : list nat; flight : list chain; fresh_ : list nat; done_ : list (nat * Z) }.

Definition heads (l : list chain) : list nat := c_head <$> l.
Definition used_descs (l : list chain) : list nat := concat (c_descs <$> l).

Record Inv (q : nat) (s : System) (g : Ghost) : Prop := {
  i_q : (0 < q)%nat /\ exists k, 1 < k /\ Z.of_nat q * k = 2 ^ 16;
  i_size : qsize_ (ring s) = Z.of_nat q;
  i_lens : length (desc_ (ring s)) = q /\ length (avail_ring (ring s)) = q /\ length (used_ring (ring s)) = q /\
           length (buf_references_ (ring s)) = q;
  i_perm : free g ++ used_descs (flight g) ≡ₚ seq 0 q;
  i_free : linked (desc_ (ring s)) (free g) /\ match free g with [] => True | h :: _ => free_head_ (ring s) = h end;
  i_count : free_count_ (ring s) = Z.of_nat (length (free g));
  i_chains : Forall (fun c => linked (desc_ (ring s)) (c_descs c) /\ flagged (desc_ (ring s)) (c_descs c)) (flight g);
  i_refs : forall i b, buf_references_ (ring s) !! i = Some (Some b) <-> exists c, c ∈ flight g /\ c_head c = i /\ c_buf c = b;
  i_heads : heads (flight g) ≡ₚ fresh_ g ++ owned s ++ (done_ g).*1;
  i_seen : 0 <= seen s < 2 ^ 16 /\ avail_idx_ (ring s) = u16 (seen s + Z.of_nat (length (fresh_ g)));
  i_published : exists k, (k <= length (fresh_ g))%nat /\ avail_idx (ring s) = u16 (seen s + Z.of_nat k);
  i_fresh : forall i h, fresh_ g !! i = Some h -> avail_ring (ring s) !! Z.to_nat ((seen s + Z.of_nat i) mod Z.of_nat q) = Some h;
  i_last : 0 <= last_used_ (ring s) < 2 ^ 16 /\ used_idx (ring s) = u16 (last_used_ (ring s) + Z.of_nat (length (done_ g)));
  i_loaded : exists k, (k <= length (done_ g))%nat /\ used_head_ (ring s) = u16 (last_used_ (ring s) + Z.of_nat k);
  i_done : forall i e, done_ g !! i = Some e -> used_ring (ring s) !! Z.to_nat ((last_used_ (ring s) + Z.of_nat i) mod Z.of_nat q) = Some e;
  i_done_len : forall h len c, (h, len) ∈ done_ g -> c ∈ flight g -> c_head c = h -> 0 <= len <= pkt_len (c_buf c)
}.

(** ** The initial ring *)

Lemma new_desc q i : (i < q)%nat -> desc_ (new_VRing q) !! i = Some (mkDesc 0 0 0 (if (S i =? q)%nat then 0%nat else S i)).
Proof. intros Hi. cbn. rewrite list_lookup_fmap, lookup_seq_lt by done. done. Qed.

Lemma linked_seq ds : forall n i, (forall j, (i <= j)%nat -> (S j < i + n)%nat -> next_of ds j = Some (S j)) -> linked ds (seq i n).
Proof.
  induction n as [|n IH]; intros i Hn; [done |]. cbn. destruct n as [|n]; [done |]. cbn in IH |- *.
  split; [apply Hn; lia |]. apply (IH (S i)). intros j Hj1 Hj2. apply Hn; lia.
Qed.

Lemma vring_Inv_new q k : (0 < q)%nat -> 1 < k -> Z.of_nat q * k = 2 ^ 16 ->
  Inv q (mkSystem (new_VRing q) 0 []) (mkGhost (seq 0 q) [] [] []).
Proof.
  intros Hq H1 Hk. split; cbn [ring seen owned free flight fresh_ done_].
  - split; [done | by exists k].
  - done.
  - cbn. rewrite length_fmap, length_seq, !length_replicate. done.
  - by rewrite app_nil_r.
  - split; [| by destruct q]. apply linked_seq. intros j _ Hj. unfold next_of. rewrite new_desc by lia.
    assert ((S j =? q)%nat = false) as -> by (apply Nat.eqb_neq; lia). done.
  - cbn. by rewrite length_seq.
  - done.
  - intros i b. cbn. split; [intros H; by apply lookup_replicate in H as [? _] | by intros (c & Hc & _); apply elem_of_nil in Hc].
  - done.
  - done.
  - exists 0%nat. done.
  - done.
  - done.
  - exists 0%nat. done.
  - done.
  - intros h len c Hd. by apply elem_of_nil in Hd.
Qed.

(** ** Positions in the rings *)

Lemma u16_mod q k x : (0 < q)%nat -> Z.of_nat q * k = 2 ^ 16 -> u16 x mod Z.of_nat q = x mod Z.of_nat q.
Proof.
  intros Hq Hk. unfold u16, wrap. rewrite <- Hk. rewrite Z.rem_mul_r by nia.
  rewrite Z.add_mod, (Z.mul_comm (Z.of_nat q)), Z.mod_mul, Z.add_0_r, !Z.mod_mod by lia. done.
Qed.

Lemma u16_add x y : u16 (u16 x + y) = u16 (x + y).
Proof. unfold u16, wrap. apply Zplus_mod_idemp_l. Qed.

(** Two of [q] consecutive positions are different. *)
Lemma slot_ne q (a i j : Z) : 0 <= i < q -> 0 <= j < q -> i <> j -> (a + i) mod q <> (a + j) mod q.
Proof.
  intros Hi Hj Hne E. assert (((a + i) - (a + j)) mod q = 0) as Hm by (rewrite Zminus_mod, E, Z.sub_diag; apply Z.mod_0_l; lia).
  replace (a + i - (a + j)) with (i - j) in Hm by lia. apply Z.mod_divide in Hm as [m Hm]; [| lia].
  assert (m = 0 \/ m >= 1 \/ m <= -1) as [->|[|]] by lia; nia.
Qed.

Lemma slot_lt q x : (0 < q)%nat -> (Z.to_nat (x mod Z.of_nat q) < q)%nat.
Proof. intros Hq. pose proof (Z.mod_pos_bound x (Z.of_nat q) ltac:(lia)). lia. Qed.

Lemma slot_nat_ne q a i j : (0 < q)%nat -> (i < q)%nat -> (j < q)%nat -> i <> j ->
  Z.to_nat ((a + Z.of_nat i) mod Z.of_nat q) <> Z.to_nat ((a + Z.of_nat j) mod Z.of_nat q).
Proof.
  intros Hq Hi Hj Hne E. apply Z2Nat.inj in E; [| apply Z.mod_pos_bound; lia | apply Z.mod_pos_bound; lia].
  by apply (slot_ne (Z.of_nat q) a (Z.of_nat i) (Z.of_nat j)) in E; [| lia | lia | lia].
Qed.

(** ** Consequences of the invariant *)

Lemma heads_submseteq l : heads l ⊆+ used_descs l.
Proof.
  induction l as [|c l IH]; [done |]. change (heads (c :: l)) with (c_head c :: heads l).
  change (used_descs (c :: l)) with (c_head c :: c_rest c ++ used_descs l). apply submseteq_skip.
  etransitivity; [exact IH |]. apply submseteq_inserts_l. done.
Qed.

Section Facts.
Context {q : nat} {s : System} {g : Ghost} (HI : Inv q s g).

Lemma inv_nodup : NoDup (free g ++ used_descs (flight g)).
Proof. rewrite (i_perm _ _ _ HI). apply NoDup_seq. Qed.

Lemma inv_range x : x ∈ free g ++ used_descs (flight g) -> (x < q)%nat.
Proof. rewrite (i_perm _ _ _ HI). intros H. apply elem_of_seq in H. lia. Qed.

Lemma inv_total : (length (free g) + length (used_descs (flight g)) = q)%nat.
Proof. rewrite <- length_app, (i_perm _ _ _ HI). apply length_seq. Qed.

Lemma inv_flight : (length (free g) + length (flight g) <= q)%nat.
Proof.
  pose proof (submseteq_length _ _ (heads_submseteq (flight g))) as H. unfold heads in H. rewrite length_fmap in H. pose proof inv_total. lia.
Qed.

Lemma inv_fresh_len : (length (fresh_ g) + length (owned s) + length (done_ g) = length (flight g))%nat.
Proof.
  pose proof (Permutation_length (i_heads _ _ _ HI)) as H. unfold heads in H. rewrite !length_app, !length_fmap in H. lia.
Qed.
End Facts.

(** ** Adding a chain keeps the invariant *)

(** The descriptor table after a chain [c] was taken from the free list. *)
Definition taken (ds ds' : list Desc) (c rest : list nat) (fh : nat) : Prop :=
  length ds' = length ds /\ linked ds' c /\ flagged ds' c /\ linked ds' rest /\ (forall x, x ∉ c -> ds' !! x = ds !! x) /\
  match rest with [] => True | y :: _ => fh = y end.

Lemma clear_next_spec ds z x : next_of (clear_next z ds) x = next_of ds x /\
  (x <> z -> more (clear_next z ds) x = more ds x) /\ ((z < length ds)%nat -> more (clear_next z ds) z = Some false).
Proof.
  unfold next_of, more, clear_next. split; [| split].
  - destruct (decide (x = z)) as [->|Hne]; [rewrite list_lookup_alter_eq | by rewrite list_lookup_alter_ne]. by destruct (ds !! z).
  - intros Hne. by rewrite list_lookup_alter_ne.
  - intros Hz. rewrite list_lookup_alter_eq. destruct (lookup_lt_is_Some_2 _ _ Hz) as [d ->]. cbn. by rewrite flag_clear.
Qed.

Lemma flagged_snoc ds l z : (forall x, x ∈ l -> more ds x = Some true) -> more ds z = Some false -> flagged ds (l ++ [z]).
Proof.
  intros Hl Hz. induction l as [|x l IH]; [done |]. cbn. destruct (l ++ [z]) eqn:E; [by destruct l |]. rewrite <- E.
  split; [apply Hl; by left |]. rewrite E in *. apply IH. intros y Hy. apply Hl. by right.
Qed.

Lemma add_chain_spec bufs out r c rest : bufs <> [] -> length c = length bufs -> linked (desc_ r) (c ++ rest) -> NoDup c ->
  (forall x, x ∈ c -> (x < length (desc_ r))%nat) -> match c ++ rest with [] => True | x :: _ => free_head_ r = x end ->
  exists ds' fh', add_chain bufs out r = Ok (push_avail (free_head_ r) (set_descs ds' fh' (free_count_ r - Z.of_nat (length bufs)) r)) /\
    taken (desc_ r) ds' c rest fh'.
Proof.
  intros Hb Hc Hl Hnd Hr Hh.
  destruct (fill_descs_spec bufs out (desc_ r) c rest (free_head_ r) (free_head_ r) Hc Hl Hnd Hr Hh) as (ds' & fh' & E & Hlen & Hn & Ho & Hm & Hf).
  destruct (last c) as [z|] eqn:Ez; [| apply last_None in Ez as ->; by destruct bufs].
  apply last_Some in Ez as [l ->]. cbn [default] in E. unfold add_chain. rewrite E, bind_Ok.
  exists (clear_next z ds'), fh'. split; [done |].
  assert (forall x, next_of (clear_next z ds') x = next_of (desc_ r) x) as Hnx.
  { intros x. rewrite (proj1 (clear_next_spec ds' z x)). apply Hn. }
  apply NoDup_app in Hnd as (_ & Hz & _).
  split; [unfold clear_next; rewrite length_alter; done |].
  split; [apply (desc_linked_frame (desc_ r)); [done | by eapply linked_app_l] |].
  split.
  - apply flagged_snoc.
    + intros x Hx. destruct (clear_next_spec ds' z x) as (_ & Hmx & _). rewrite Hmx; [apply Hm, elem_of_app; by left |].
      intros ->. apply (Hz z Hx). by left.
    + apply (clear_next_spec ds' z z). rewrite Hlen. apply Hr, elem_of_app. right. by left.
  - split; [apply (desc_linked_frame (desc_ r)); [done | by eapply linked_app_r] |]. split; [| done].
    intros x Hx. unfold clear_next. rewrite list_lookup_alter_ne; [by apply Ho |]. intros ->. apply Hx, elem_of_app. right. by left.
Qed.

Lemma frame_lookup (ds ds' : list Desc) (P : list nat) l : (forall x, x ∉ P -> ds' !! x = ds !! x) -> (forall x, x ∈ l -> x ∉ P) ->
  (linked ds l -> linked ds' l) /\ (flagged ds l -> flagged ds' l).
Proof.
  intros Hf Hd. split; [apply desc_linked_frame | apply flagged_frame]; intros x Hx; unfold next_of, more; by rewrite Hf by (by apply Hd).
Qed.

Lemma head_in_used c l : c ∈ l -> c_head c ∈ used_descs l.
Proof. intros Hc. apply list_elem_of_In, in_concat. exists (c_descs c). split; [apply in_map; by apply list_elem_of_In | by left]. Qed.

Lemma descs_in_used c l x : c ∈ l -> x ∈ c_descs c -> x ∈ used_descs l.
Proof. intros Hc Hx. apply list_elem_of_In, in_concat. exists (c_descs c). split; [apply in_map; by apply list_elem_of_In | by apply list_elem_of_In]. Qed.

Lemma used_descs_app l1 l2 : used_descs (l1 ++ l2) = used_descs l1 ++ used_descs l2.
Proof. unfold used_descs. by rewrite fmap_app, concat_app. Qed.

Lemma perm_move (A B C : list nat) x : A ≡ₚ B ++ C -> A ++ [x] ≡ₚ (B ++ [x]) ++ C.
Proof. intros ->. rewrite <- !app_assoc. apply Permutation_app_head, Permutation_app_comm. Qed.

Section Add.
Context {q : nat} {s : System} {g : Ghost} (HI : Inv q s g) (h : nat) (t rest : list nat) (bufs : packet).
Hypothesis (Hfree : free g = (h :: t) ++ rest).

Let ch := mkChain h t bufs.

Lemma add_fresh_head c : c ∈ flight g -> c_head c <> h.
Proof.
  intros Hc E. pose proof (inv_nodup HI) as Hn. apply NoDup_app in Hn as (_ & Hd & _).
  apply (Hd h); [rewrite Hfree; by left |]. rewrite <- E. by apply head_in_used.
Qed.

Lemma add_refs (refs : list (option packet)) : refs = buf_references_ (ring s) ->
  forall i b, <[h := Some bufs]> refs !! i = Some (Some b) <-> exists c, c ∈ flight g ++ [ch] /\ c_head c = i /\ c_buf c = b.
Proof.
  intros -> i b. assert (h < length (buf_references_ (ring s)))%nat as Hh.
  { rewrite (proj2 (proj2 (proj2 (i_lens _ _ _ HI)))). apply (inv_range HI), elem_of_app. left. rewrite Hfree. by left. }
  destruct (decide (i = h)) as [->|Hne].
  - rewrite list_lookup_insert_eq by done. split.
    + intros [= <-]. exists ch. split; [apply elem_of_app; right; by left | done].
    + intros (c & Hc & Hch & Hb). apply elem_of_app in Hc as [Hc|Hc]; [by apply add_fresh_head in Hc |].
      apply list_elem_of_singleton in Hc as ->. by rewrite <- Hb.
  - rewrite list_lookup_insert_ne, (i_refs _ _ _ HI) by done. split; intros (c & Hc & Hch & Hb).
    + exists c. split; [apply elem_of_app; by left | done].
    + apply elem_of_app in Hc as [Hc|Hc]; [by exists c |]. apply list_elem_of_singleton in Hc as ->. by destruct Hne.
Qed.

Lemma add_fresh_ring i x : (fresh_ g ++ [h]) !! i = Some x ->
  <[Z.to_nat (avail_idx_ (ring s) mod qsize_ (ring s)) := h]> (avail_ring (ring s)) !! Z.to_nat ((seen s + Z.of_nat i) mod Z.of_nat q) = Some x.
Proof.
  intros Hx. destruct (i_q _ _ _ HI) as [Hq (k & _ & Hk)]. rewrite (i_size _ _ _ HI), (proj2 (i_seen _ _ _ HI)), (u16_mod q k) by done.
  pose proof (inv_flight HI) as Hl. rewrite Hfree, length_app in Hl. cbn in Hl. pose proof (inv_fresh_len HI) as Hf.
  apply lookup_app_Some in Hx as [Hx|[Hi Hx]].
  - pose proof (lookup_lt_Some _ _ _ Hx). rewrite list_lookup_insert_ne by (apply slot_nat_ne; lia). by apply (i_fresh _ _ _ HI).
  - apply list_lookup_singleton_Some in Hx as [Hi0 <-]. replace i with (length (fresh_ g)) by lia.
    apply list_lookup_insert_eq. rewrite (proj1 (proj2 (i_lens _ _ _ HI))). by apply slot_lt.
Qed.

Lemma add_keeps ds' fh' : taken (desc_ (ring s)) ds' (h :: t) rest fh' ->
  Inv q (mkSystem (set_ref h (Some bufs) (push_avail h (set_descs ds' fh' (free_count_ (ring s) - Z.of_nat (length (h :: t))) (ring s)))) (seen s) (owned s))
    (mkGhost rest (flight g ++ [ch]) (fresh_ g ++ [h]) (done_ g)).
Proof.
  intros (Hlen & Hl1 & Hf1 & Hl2 & Ho & Hfh). pose proof (inv_nodup HI) as Hnd. pose proof (i_lens _ _ _ HI) as (L1 & L2 & L3 & L4).
  pose proof HI as [HI1 HI2 _ HI4 [HI5 _] HI6 HI7 _ HI9 [HI10 HI10'] (kp & Hkp & HI11) _ HI13 HI14 HI15 HI16].
  split; cbn [ring seen owned free flight fresh_ done_ set_ref push_avail set_descs desc_ avail_ring used_ring buf_references_ qsize_
    free_head_ free_count_ avail_idx_ avail_idx last_used_ used_idx used_head_]; try done.
  - rewrite !length_insert. split_and!; congruence.
  - rewrite used_descs_app. change (used_descs [ch]) with ((h :: t) ++ []). rewrite app_nil_r, app_assoc, Permutation_app_comm, app_assoc, <- Hfree. done.
  - rewrite HI6, Hfree, length_app. lia.
  - apply Forall_app. split; [| by constructor]. rewrite Forall_forall in HI7 |- *. intros c Hc. destruct (HI7 c Hc) as [Hc1 Hc2].
    assert (forall x, x ∈ c_descs c -> x ∉ h :: t) as Hd.
    { intros x Hx Hx'. apply NoDup_app in Hnd as (_ & Hd & _). apply (Hd x); [rewrite Hfree; apply elem_of_app; by left | by eapply descs_in_used]. }
    destruct (frame_lookup _ _ _ _ Ho Hd) as [F1 F2]. split; auto.
  - by apply add_refs.
  - unfold heads. rewrite fmap_app. change (heads (flight g) ++ [h] ≡ₚ (fresh_ g ++ [h]) ++ owned s ++ (done_ g).*1).
    by apply perm_move.
  - split; [done |]. rewrite HI10', u16_add, length_app. cbn. f_equal. lia.
  - exists kp. rewrite length_app. split; [lia | done].
  - apply add_fresh_ring.
  - intros x len c Hd Hc Hx. apply elem_of_app in Hc as [Hc|Hc]; [by eapply HI16 |]. apply list_elem_of_singleton in Hc as ->. cbn in Hx. rewrite <- Hx in Hd. exfalso.
    assert (h ∈ heads (flight g)) as Hh.
    { rewrite HI9. apply elem_of_app. right. apply elem_of_app. right. by apply (list_elem_of_fmap_2 fst) in Hd. }
    apply list_elem_of_fmap in Hh as (c & E & Hc). by apply (add_fresh_head c Hc).
Qed.
End Add.

(** ** Reclaiming a chain keeps the invariant *)

Lemma linked_last ds ds' l z : (forall x, x ∈ l -> next_of ds' x = next_of ds x) -> linked ds (l ++ [z]) -> linked ds' (l ++ [z]).
Proof.
  induction l as [|x l IH]; intros Hf Hl; [done |]. cbn in Hl |- *. destruct (l ++ [z]) as [|y t] eqn:E; [done |]. destruct Hl as [Hx Hl].
  split; [by rewrite Hf by (by left) |]. apply IH; [| done]. intros w Hw. apply Hf. by right.
Qed.

(** The table after [z], the last descriptor of a chain, was linked to the free list. *)
Definition relink (z fh : nat) (ds : list Desc) : list Desc :=
  alter (fun d => mkDesc (d_addr d) (d_len d) (d_flags d) fh) z ds.

Lemma relink_spec z fh ds x : more (relink z fh ds) x = more ds x /\ (x <> z -> next_of (relink z fh ds) x = next_of ds x) /\
  ((z < length ds)%nat -> next_of (relink z fh ds) z = Some fh).
Proof.
  unfold more, next_of, relink. split; [| split].
  - destruct (decide (x = z)) as [->|Hne]; [rewrite list_lookup_alter_eq | by rewrite list_lookup_alter_ne]. by destruct (ds !! z).
  - intros Hne. by rewrite list_lookup_alter_ne.
  - intros Hz. rewrite list_lookup_alter_eq. by destruct (lookup_lt_is_Some_2 _ _ Hz) as [d ->].
Qed.

Lemma relink_free l z fr fh ds : linked ds (l ++ [z]) -> linked ds fr -> (z < length ds)%nat -> z ∉ l -> z ∉ fr ->
  match fr with [] => True | y :: _ => fh = y end -> linked (relink z fh ds) ((l ++ [z]) ++ fr).
Proof.
  intros H1 H2 Hz Hzl Hzf Hfh. rewrite <- app_assoc. apply linked_join.
  - apply (linked_last ds); [| done]. intros x Hx. apply (relink_spec z fh ds x). by intros ->.
  - apply (desc_linked_frame ds); [| done]. intros x Hx. apply (relink_spec z fh ds x). by intros ->.
  - destruct fr as [|y fr]; [done |]. rewrite <- Hfh. by apply (relink_spec z fh ds z).
Qed.

Section Reclaim.
Context {q : nat} {s : System} {l1 l2 : list chain} {fr fre : list nat} {c : chain} {len : Z} {dn : list (nat * Z)}.
Let g := mkGhost fr (l1 ++ c :: l2) fre ((c_head c, len) :: dn).
Context (HI : Inv q s g).

Lemma reclaim_disjoint x : x ∈ c_descs c -> x ∉ fr /\ x ∉ used_descs (l1 ++ l2).
Proof.
  intros Hx. pose proof (inv_nodup HI) as Hn. cbn [g free flight] in Hn. rewrite used_descs_app in Hn.
  change (used_descs (c :: l2)) with (c_descs c ++ used_descs l2) in Hn.
  apply NoDup_app in Hn as (_ & Hd & Hn). split.
  - intros Hf. apply (Hd x Hf). rewrite !elem_of_app. tauto.
  - rewrite used_descs_app. apply NoDup_app in Hn as (_ & Hd1 & Hn). apply NoDup_app in Hn as (_ & Hd2 & _).
    rewrite elem_of_app. intros [H1|H2]; [apply (Hd1 x H1); rewrite elem_of_app; tauto | by apply (Hd2 x Hx)].
Qed.

Lemma reclaim_other c' : c' ∈ l1 ++ l2 -> c_head c' <> c_head c.
Proof.
  intros Hc E. destruct (reclaim_disjoint (c_head c)) as [_ Hn]; [by left |]. apply Hn. rewrite <- E. by apply head_in_used.
Qed.

Lemma reclaim_refs i b : <[c_head c := None]> (buf_references_ (ring s)) !! i = Some (Some b) <->
  exists c', c' ∈ l1 ++ l2 /\ c_head c' = i /\ c_buf c' = b.
Proof.
  destruct (decide (i = c_head c)) as [->|Hne].
  - split.
    + intros H. apply list_lookup_insert_Some in H as [(_ & [=] & _)|[Hn _]]; done.
    + intros (c' & Hc & Hh & _). by apply reclaim_other in Hc.
  - rewrite list_lookup_insert_ne by done. rewrite (i_refs _ _ _ HI). cbn [g flight]. split; intros (c' & Hc & Hh & Hb); exists c'.
    + split; [| done]. rewrite elem_of_app, elem_of_cons in Hc. rewrite elem_of_app. destruct Hc as [?|[->|?]]; [tauto | done | tauto].
    + split; [| done]. rewrite elem_of_app, elem_of_cons. apply elem_of_app in Hc. tauto.
Qed.

Lemma reclaim_run : exists l z, c_descs c = l ++ [z] /\ (z < length (desc_ (ring s)))%nat /\ z ∉ l /\
  reclaim (ring s) = Ok (c_buf c, len, set_last_used (u16 (last_used_ (ring s) + 1))
    (set_ref (c_head c) None (set_descs (relink z (free_head_ (ring s)) (desc_ (ring s))) (c_head c)
      (u16 (free_count_ (ring s) + Z.of_nat (length (c_descs c)))) (ring s)))).
Proof.
  destruct (i_q _ _ _ HI) as [Hq (k & Hk1 & Hk)].
  pose proof (i_done _ _ _ HI 0 (c_head c, len) eq_refl) as Hd. rewrite Z.add_0_r in Hd.
  assert (buf_references_ (ring s) !! c_head c = Some (Some (c_buf c))) as Hr.
  { apply (i_refs _ _ _ HI). exists c. split; [apply elem_of_app; right; by left | done]. }
  pose proof (i_chains _ _ _ HI) as Hch. cbn [g flight] in Hch. apply Forall_app in Hch as [_ Hch]. apply Forall_cons in Hch as [[Hl Hf] _].
  pose proof (inv_total HI) as Ht. cbn [g free flight] in Ht. rewrite used_descs_app, !length_app in Ht.
  change (used_descs (c :: l2)) with (c_descs c ++ used_descs l2) in Ht. rewrite length_app in Ht.
  pose proof (i_lens _ _ _ HI) as (L1 & _).
  destruct (walk_chain_spec (desc_ (ring s)) (c_descs c) (length (desc_ (ring s))) (c_head c) (c_rest c) 1 eq_refl Hl Hf ltac:(lia)) as (z & Hz & Hw).
  apply last_Some in Hz as [l El]. exists l, z. split; [done |]. split; [| split].
  - rewrite L1. apply (inv_range HI), elem_of_app. right. cbn [g flight]. eapply descs_in_used; [apply elem_of_app; right; by left |].
    rewrite El. apply elem_of_app. right. by left.
  - pose proof (inv_nodup HI) as Hn. cbn [g free flight] in Hn. rewrite used_descs_app in Hn.
    change (used_descs (c :: l2)) with (c_descs c ++ used_descs l2) in Hn. apply NoDup_app in Hn as (_ & _ & Hn).
    apply NoDup_app in Hn as (_ & _ & Hn). apply NoDup_app in Hn as (Hn & _ & _). rewrite El in Hn. apply NoDup_app in Hn as (_ & Hn & _).
    intros Hzl. apply (Hn z Hzl). by left.
  - unfold reclaim. rewrite (i_size _ _ _ HI), Hd, Hr, Hw, bind_Ok.
    replace (1 + Z.of_nat (length (c_rest c))) with (Z.of_nat (length (c_descs c))) by (cbn; lia). reflexivity.
Qed.

Lemma reclaim_keeps : used_head_ (ring s) <> last_used_ (ring s) ->
  exists r', reclaim (ring s) = Ok (c_buf c, len, r') /\ Inv q (mkSystem r' (seen s) (owned s)) (mkGhost (c_descs c ++ fr) (l1 ++ l2) fre dn) /\
    used_head_ r' = used_head_ (ring s) /\ used_idx r' = used_idx (ring s) /\ last_used_ r' = u16 (last_used_ (ring s) + 1).
Proof.
  intros Hne. destruct reclaim_run as (l & z & El & Hz & Hzl & E). eexists. split; [exact E |]. split; [| done].
  destruct (i_q _ _ _ HI) as [Hq (k & Hk1 & Hk)]. pose proof (i_lens _ _ _ HI) as (L1 & L2 & L3 & L4).
  assert (forall x, x ∈ c_descs c -> x ∉ fr /\ x ∉ used_descs (l1 ++ l2)) as Hdis by apply reclaim_disjoint.
  assert (z ∈ c_descs c) as Hzc by (rewrite El; apply elem_of_app; right; by left).
  pose proof (inv_total HI) as Ht. cbn [g free flight] in Ht. rewrite used_descs_app, !length_app in Ht.
  change (used_descs (c :: l2)) with (c_descs c ++ used_descs l2) in Ht. rewrite length_app in Ht.
  pose proof HI as [_ HI2 _ HI4 [HI5 HI5'] HI6 HI7 _ HI9 HI10 HI11 HI12 [HI13 HI13'] (kl & Hkl & HI14) HI15 HI16].
  cbn [g free flight fresh_ done_] in *.
  apply Forall_app in HI7 as [Hf1 Hf2]. apply Forall_cons in Hf2 as [[Hc1 Hc2] Hf2].
  split; cbn [ring seen owned free flight fresh_ done_ set_ref set_last_used set_descs desc_ avail_ring used_ring buf_references_ qsize_
    free_head_ free_count_ avail_idx_ avail_idx last_used_ used_idx used_head_]; try done.
  - split; [done | by exists k].
  - unfold relink. rewrite length_alter, length_insert. done.
  - rewrite <- HI4, !used_descs_app. change (used_descs (c :: l2)) with (c_descs c ++ used_descs l2).
    rewrite (Permutation_app_comm (c_descs c)), <- app_assoc. apply Permutation_app_head.
    rewrite app_assoc, (Permutation_app_comm (c_descs c)), <- app_assoc. done.
  - split; [| done]. rewrite El. apply relink_free; [by rewrite <- El | done | done | done | by apply Hdis | done].
  - rewrite HI6, length_app, Nat2Z.inj_add, Z.add_comm. apply wrap_small. unfold in_u. nia.
  - pose proof (proj2 (Forall_app _ _ _) (conj Hf1 Hf2)) as Hf. rewrite Forall_forall in Hf |- *. intros c' Hc'. destruct (Hf c' Hc') as [H1 H2]. split.
    + apply (desc_linked_frame (desc_ (ring s))); [| done]. intros x Hx. apply (relink_spec z _ _ x). intros ->.
      by destruct (Hdis z Hzc) as [_ []]; eapply descs_in_used.
    + apply (flagged_frame (desc_ (ring s))); [| done]. intros x Hx. apply (relink_spec z _ _ x).
  - apply reclaim_refs.
  - unfold heads in *. rewrite fmap_app in HI9 |- *. cbn in HI9. rewrite <- Permutation_middle in HI9.
    rewrite app_assoc, <- Permutation_middle, <- app_assoc in HI9. by apply Permutation_cons_inv in HI9.
  - split; [apply wrap_range; lia |]. rewrite HI13', u16_add. f_equal. cbn. lia.
  - destruct kl as [|kl]; [exfalso; apply Hne; rewrite HI14, Z.add_0_r; apply wrap_small; unfold in_u; lia |].
    exists kl. split; [cbn in Hkl; lia |]. rewrite HI14, u16_add. f_equal. lia.
  - intros i e He. specialize (HI15 (S i) e He). rewrite <- HI15. do 2 f_equal.
    rewrite <- Z.add_mod_idemp_l, (u16_mod q k), Z.add_mod_idemp_l by (done || lia). f_equal. lia.
  - intros h n c' Hd Hc' Hh. eapply HI16; [right; exact Hd | | exact Hh]. rewrite elem_of_app, elem_of_cons. apply elem_of_app in Hc'. tauto.
Qed.
End Reclaim.

(** ** The other steps keep the invariant *)

Definition bufs_of (g : Ghost) : list packet := c_buf <$> flight g.

Lemma inv_done_len q s g : Inv q s g -> Z.of_nat (length (done_ g)) < 2 ^ 16.
Proof.
  intros HI. destruct (i_q _ _ _ HI) as [Hq (k & Hk1 & Hk)]. pose proof (inv_fresh_len HI). pose proof (inv_flight HI). nia.
Qed.

(** The number of used elements up to [used_head_]. *)
Lemma inv_pending q s g : Inv q s g -> exists k, (k <= length (done_ g))%nat /\
  u16 (used_head_ (ring s) - last_used_ (ring s)) = Z.of_nat k /\ (used_head_ (ring s) = last_used_ (ring s) <-> k = 0%nat).
Proof.
  intros HI. pose proof (inv_done_len _ _ _ HI) as Hl. destruct (i_loaded _ _ _ HI) as (k & Hk & E). destruct (i_last _ _ _ HI) as [Hr _].
  exists k. split; [done |]. rewrite E. split.
  - unfold u16, wrap. rewrite Zminus_mod_idemp_l. replace (_ + _ - _) with (Z.of_nat k) by lia. apply Z.mod_small. lia.
  - split; [| intros ->; rewrite Z.add_0_r; apply wrap_small; unfold in_u; lia].
    unfold u16, wrap. intros H. Z.to_euclidean_division_equations. lia.
Qed.

Lemma publish_keeps q s g : Inv q s g -> Inv q (mkSystem (publish (ring s)) (seen s) (owned s)) g.
Proof.
  intros [I1 I2 I3 I4 I5 I6 I7 I8 I9 I10 I11 I12 I13 I14 I15 I16]. split; try done.
  exists (length (fresh_ g)). split; [done | apply I10].
Qed.

Lemma load_used_keeps q s g : Inv q s g -> Inv q (mkSystem (load_used (ring s)) (seen s) (owned s)) g.
Proof.
  intros [I1 I2 I3 I4 I5 I6 I7 I8 I9 I10 I11 I12 I13 I14 I15 I16]. split; try done.
  exists (length (done_ g)). split; [done | apply I13].
Qed.

Lemma flags_keep q s g f : Inv q s g -> Inv q (mkSystem (set_avail_flags f (ring s)) (seen s) (owned s)) g.
Proof. intros [I1 I2 I3 I4 I5 I6 I7 I8 I9 I10 I11 I12 I13 I14 I15 I16]. by split. Qed.

(** The device takes the next published chain. *)
Lemma fetch_keeps q s g : Inv q s g -> seen s <> avail_idx (ring s) ->
  exists h t, fresh_ g = h :: t /\ avail_ring (ring s) !! Z.to_nat (seen s mod qsize_ (ring s)) = Some h /\
    Inv q (mkSystem (ring s) (u16 (seen s + 1)) (h :: owned s)) (mkGhost (free g) (flight g) t (done_ g)).
Proof.
  intros HI Hne. destruct (i_q _ _ _ HI) as [Hq (kq & Hk1 & Hkq)].
  pose proof HI as [I1 I2 I3 I4 I5 I6 I7 I8 I9 [I10 I10'] (k & Hk & I11) I12 I13 I14 I15 I16].
  destruct k as [|k]; [exfalso; apply Hne; rewrite I11, Z.add_0_r; symmetry; apply wrap_small; unfold in_u; lia |].
  destruct (fresh_ g) as [|h t] eqn:Ef; [cbn in Hk; lia |]. exists h, t. split; [done |].
  pose proof (I12 0%nat h eq_refl) as Hh. rewrite Z.add_0_r in Hh. split; [by rewrite I2 |].
  split; cbn [ring seen owned free flight fresh_ done_]; try done.
  - rewrite I9. cbn. by rewrite Permutation_middle.
  - split; [apply wrap_range; lia |]. rewrite I10', u16_add. f_equal. cbn. lia.
  - exists k. split; [cbn in Hk; lia |]. rewrite I11, u16_add. f_equal. lia.
  - intros i e He. specialize (I12 (S i) e He). rewrite <- I12. do 2 f_equal.
    rewrite <- Z.add_mod_idemp_l, (u16_mod q kq), Z.add_mod_idemp_l by (done || lia). f_equal. lia.
Qed.

(** *** The device returns a chain *)

Lemma heads_nodup q s g : Inv q s g -> NoDup (heads (flight g)).
Proof.
  intros HI. pose proof (inv_nodup HI) as Hn. apply NoDup_app in Hn as (_ & _ & Hn). destruct (submseteq_Permutation _ _ (heads_submseteq (flight g))) as [k Hk].
  rewrite Hk in Hn. by apply NoDup_app in Hn as (Hn & _).
Qed.

Lemma head_unique l c c' : NoDup (heads l) -> c ∈ l -> c' ∈ l -> c_head c = c_head c' -> c = c'.
Proof.
  intros Hn Hc Hc' E. apply list_elem_of_lookup in Hc as [i Hi], Hc' as [j Hj].
  assert (i = j) as ->; [| congruence]. eapply (NoDup_lookup _ i j (c_head c) Hn); unfold heads; rewrite list_lookup_fmap; [by rewrite Hi | rewrite Hj, E; done].
Qed.

Lemma perm_return (A B C C' D : list nat) x : C ≡ₚ x :: C' -> A ≡ₚ B ++ C ++ D -> A ≡ₚ B ++ C' ++ D ++ [x].
Proof. intros HC ->. apply Permutation_app_head. rewrite HC, app_assoc, (Permutation_app_comm (C' ++ D)). done. Qed.

Section Use.
Context {q : nat} {s : System} {l1 l2 : list chain} {fr fre : list nat} {c : chain} {dn : list (nat * Z)} (p : packet).
Let g := mkGhost fr (l1 ++ c :: l2) fre dn.
Context (HI : Inv q s g).
Let c' := mkChain (c_head c) (c_rest c) p.

Lemma use_refs i b : <[c_head c := Some p]> (buf_references_ (ring s)) !! i = Some (Some b) <->
  exists d, d ∈ l1 ++ c' :: l2 /\ c_head d = i /\ c_buf d = b.
Proof.
  pose proof (heads_nodup _ _ _ HI) as Hn. cbn [g flight] in Hn. assert (c ∈ l1 ++ c :: l2) as Hin by (apply elem_of_app; right; by left).
  assert (forall d, d ∈ l1 ++ l2 -> c_head d <> c_head c) as Hother.
  { intros d Hd E. unfold heads in Hn. rewrite fmap_app in Hn. cbn in Hn. apply NoDup_app in Hn as (_ & Hd1 & Hn). apply NoDup_cons in Hn as [Hn _].
    apply elem_of_app in Hd as [Hd|Hd]; [apply (Hd1 (c_head d)); [by apply list_elem_of_fmap_2 | rewrite E; by left] |].
    apply Hn. rewrite <- E. by apply list_elem_of_fmap_2. }
  destruct (decide (i = c_head c)) as [->|Hne].
  - rewrite list_lookup_insert_eq.
    2: { rewrite (proj2 (proj2 (proj2 (i_lens _ _ _ HI)))). apply (inv_range HI), elem_of_app. right. by apply head_in_used. }
    split; [intros [= <-]; exists c'; split; [apply elem_of_app; right; by left | done] |].
    intros (d & Hd & Hh & <-). rewrite elem_of_app, elem_of_cons in Hd. destruct Hd as [Hd|[->|Hd]]; [| done |]; exfalso; apply (Hother d); try done; rewrite elem_of_app; tauto.
  - rewrite list_lookup_insert_ne, (i_refs _ _ _ HI) by done. cbn [g flight].
    split; intros (d & Hd & Hh & Hb); exists d; (split; [| done]); rewrite elem_of_app, elem_of_cons in Hd |- *; destruct Hd as [?|[->|?]]; try tauto; by destruct Hne.
Qed.

Lemma use_descs : used_descs (l1 ++ c' :: l2) = used_descs (l1 ++ c :: l2).
Proof. by rewrite !used_descs_app. Qed.

Lemma use_heads : heads (l1 ++ c' :: l2) = heads (l1 ++ c :: l2).
Proof. unfold heads. by rewrite !fmap_app. Qed.

Lemma use_keeps i len : owned s !! i = Some (c_head c) -> 0 <= len <= pkt_len p ->
  Inv q (mkSystem (device_use (c_head c) len p (ring s)) (seen s) (delete i (owned s))) (mkGhost fr (l1 ++ c' :: l2) fre (dn ++ [(c_head c, len)])).
Proof.
  intros Ho Hlen. destruct (i_q _ _ _ HI) as [Hq (kq & Hk1 & Hkq)]. pose proof (i_lens _ _ _ HI) as (L1 & L2 & L3 & L4).
  pose proof (inv_fresh_len HI) as Hfl. pose proof (inv_flight HI) as Hfg. pose proof (delete_Permutation _ _ _ Ho) as Hp.
  pose proof (Permutation_length Hp) as Hpl. pose proof (heads_nodup _ _ _ HI) as Hnd.
  pose proof HI as [I1 I2 _ I4 I5 I6 I7 _ I9 I10 I11 I12 [I13 I13'] (k & Hk & I14) I15 I16]. cbn [g free flight fresh_ done_] in *.
  split; cbn [ring seen owned free flight fresh_ done_ device_use desc_ avail_ring used_ring buf_references_ qsize_
    free_head_ free_count_ avail_idx_ avail_idx last_used_ used_idx used_head_]; try done.
  - rewrite !length_insert. done.
  - by rewrite use_descs.
  - apply Forall_app in I7 as [F1 F2]. apply Forall_cons in F2 as [F2 F3]. apply Forall_app. split; [done |]. by constructor.
  - apply use_refs.
  - rewrite use_heads, fmap_app. by apply (perm_return _ _ (owned s) _ _ (c_head c)).
  - split; [done |]. rewrite I13', u16_add, length_app. cbn. f_equal. lia.
  - exists k. rewrite length_app. split; [lia | done].
  - intros j e He. rewrite I2, I13', (u16_mod q kq) by done. cbn in Hpl. apply lookup_app_Some in He as [He|[Hj He]].
    + pose proof (lookup_lt_Some _ _ _ He). rewrite list_lookup_insert_ne by (apply slot_nat_ne; lia). by apply I15.
    + apply list_lookup_singleton_Some in He as [Hj0 <-]. replace j with (length dn) by lia. apply list_lookup_insert_eq. rewrite L3. by apply slot_lt.
  - assert (forall n, (c_head c, n) ∉ dn) as Hnew.
    { intros n Hin. assert (heads (l1 ++ c :: l2) ≡ₚ fre ++ delete i (owned s) ++ dn.*1 ++ [c_head c]) as Hq' by (by apply (perm_return _ _ (owned s))).
      rewrite Hq', !app_assoc in Hnd. apply NoDup_app in Hnd as (_ & Hnd & _). apply (Hnd (c_head c)); [| by left]. apply elem_of_app. right.
      by apply (list_elem_of_fmap_2 fst) in Hin. }
    intros h n d Hd Hin Hh. rewrite elem_of_app, list_elem_of_singleton in Hd. rewrite <- use_heads in Hnd.
    assert (c' ∈ l1 ++ c' :: l2) as Hc' by (apply elem_of_app; right; by left).
    destruct Hd as [Hd|[= -> ->]]; [| by rewrite (head_unique _ _ _ Hnd Hin Hc' Hh)].
    rewrite elem_of_app, elem_of_cons in Hin. destruct Hin as [Hin|[->|Hin]]; [| by destruct (Hnew n); rewrite <- Hh in Hd |].
    + eapply I16; [exact Hd | rewrite elem_of_app; by left | done].
    + eapply I16; [exact Hd | rewrite elem_of_app, elem_of_cons; tauto | done].
Qed.
End Use.

(** ** The operations of the driver *)

(** A buffer keeps its identity, the addresses of its parts, whatever the device writes. *)
Definition ids (p : packet) : list Z := b_addr <$> p.

Lemma trim_ids p : forall len, ids (trim len p) = ids p.
Proof. induction p as [|b p IH]; intros len; [done |]. cbn. destruct (len <? blen b); cbn; f_equal; apply IH. Qed.

(** Trimming keeps the bytes that the device wrote, which lie at the front. *)
Lemma trim_data p : forall len, 0 <= len <= pkt_len p -> pkt_data (trim len p) = take (Z.to_nat len) (pkt_data p).
Proof.
  induction p as [|b p IH]; intros len Hl; [by destruct (Z.to_nat len) |]. unfold pkt_len, pkt_data, blen in *. cbn in Hl |- *. rewrite length_app in Hl.
  unfold blen. destruct (len <? Z.of_nat (length (b_data b))) eqn:E; bool_to_prop; cbn.
  - rewrite IH by lia. rewrite take_0, app_nil_r, take_app_le by lia. done.
  - rewrite IH by lia. rewrite take_app_ge by lia. do 2 f_equal. lia.
Qed.

Lemma trim_len p len : 0 <= len <= pkt_len p -> pkt_len (trim len p) = len.
Proof. intros Hl. unfold pkt_len. rewrite trim_data by done. unfold pkt_len in Hl. rewrite length_take. lia. Qed.

(** The free list has room for the chain. *)
Lemma split_free q s g (bufs : packet) : Inv q s g -> bufs <> [] -> Z.of_nat (length bufs) <= free_count_ (ring s) ->
  exists h t rest, free g = (h :: t) ++ rest /\ length (h :: t) = length bufs /\ free_head_ (ring s) = h /\ (h < q)%nat.
Proof.
  intros HI Hb Hl. rewrite (i_count _ _ _ HI) in Hl. destruct (take (length bufs) (free g)) as [|h t] eqn:E.
  - exfalso. apply (f_equal length) in E. rewrite length_take in E. destruct bufs; [done |]. cbn [length] in E, Hl. lia.
  - exists h, t, (drop (length bufs) (free g)). rewrite <- E, take_drop, length_take.
    assert (free g = h :: t ++ drop (length bufs) (free g)) as Ef by (rewrite <- (take_drop (length bufs) (free g)) at 1; by rewrite E).
    split; [done |]. split; [lia |]. split; [destruct (i_free _ _ _ HI) as [_ Hh]; rewrite Ef in Hh; done |].
    apply (inv_range HI), elem_of_app. left. rewrite Ef. by left.
Qed.

Lemma add_chain_keeps q s g (bufs : packet) out : Inv q s g -> bufs <> [] -> Z.of_nat (length bufs) <= free_count_ (ring s) ->
  exists r g', add_chain bufs out (ring s) = Ok r /\ (free_head_ (ring s) < q)%nat /\ qsize_ r = Z.of_nat q /\
    Inv q (mkSystem (set_ref (free_head_ (ring s)) (Some bufs) r) (seen s) (owned s)) g' /\ bufs_of g' = bufs_of g ++ [bufs] /\
    length (fresh_ g') = S (length (fresh_ g)) /\ avail_idx r = avail_idx (ring s) /\ done_ g' = done_ g.
Proof.
  intros HI Hb Hl. destruct (split_free _ _ _ _ HI Hb Hl) as (h & t & rest & Hf & Hlen & Hh & Hq).
  pose proof (inv_nodup HI) as Hnd. apply NoDup_app in Hnd as (Hnd & _). rewrite Hf in Hnd. apply NoDup_app in Hnd as (Hnd & _).
  destruct (i_free _ _ _ HI) as [Hlk _]. rewrite Hf in Hlk.
  destruct (add_chain_spec bufs out (ring s) (h :: t) rest Hb Hlen Hlk Hnd) as (ds' & fh' & E & Ht).
  - intros x Hx. rewrite (proj1 (i_lens _ _ _ HI)). apply (inv_range HI), elem_of_app. left. rewrite Hf. apply elem_of_app. by left.
  - done.
  - rewrite Hh in *. do 2 eexists. split; [exact E |]. split; [done |]. split; [apply (i_size _ _ _ HI) |].
    rewrite <- Hlen. split; [by apply (add_keeps HI h t rest bufs Hf) |]. split; [unfold bufs_of; cbn; by rewrite fmap_app |].
    split; [cbn; rewrite length_app; cbn; lia | done].
Qed.

Lemma AddBuffer_keeps q s g (bufs : packet) out : Inv q s g -> bufs <> [] -> Z.of_nat (length bufs) <= free_count_ (ring s) ->
  exists kick r g', AddBuffer bufs out (ring s) = Ok (kick, r) /\ Inv q (mkSystem r (seen s) (owned s)) g' /\ bufs_of g' = bufs_of g ++ [bufs] /\
    avail_idx r = avail_idx_ r.
Proof.
  intros HI Hb Hl. destruct (add_chain_keeps q s g bufs out HI Hb Hl) as (r & g' & E & Hh & Hs & HI' & Hg & _).
  unfold AddBuffer. assert ((Z.of_nat (length bufs) <=? free_count_ (ring s)) = true) as -> by (apply Z.leb_le; lia).
  cbn [kassert]. rewrite bind_Ok, E, bind_Ok.
  assert ((Z.of_nat (free_head_ (ring s)) <? qsize_ (publish r)) = true) as -> by (apply Z.ltb_lt; cbn [publish qsize_]; lia).
  cbn [kassert]. rewrite bind_Ok. do 2 eexists. exists g'. split; [done |]. split; [| done]. exact (publish_keeps _ _ _ HI').
Qed.

Lemma add_writable_keeps q : forall chains s g, Inv q s g -> Forall (fun b => b <> []) chains ->
  exists rest r g', add_writable chains (ring s) = Ok (rest, r) /\ Inv q (mkSystem r (seen s) (owned s)) g' /\
    exists added, chains = added ++ rest /\ bufs_of g' = bufs_of g ++ added /\ length (fresh_ g') = (length (fresh_ g) + length added)%nat /\
    avail_idx r = avail_idx (ring s) /\ done_ g' = done_ g.
Proof.
  induction chains as [|b chains IH]; intros s g HI Hne; cbn [add_writable].
  - exists [], (ring s), g. split; [done |]. split; [by destruct s |]. exists []. split_and!; [done | by rewrite app_nil_r | cbn; lia | done | done].
  - apply Forall_cons in Hne as [Hb Hne]. destruct (free_count_ (ring s) <? Z.of_nat (length b)) eqn:E; bool_to_prop.
    + exists (b :: chains), (ring s), g. split; [done |]. split; [by destruct s |]. exists []. split_and!; [done | by rewrite app_nil_r | cbn; lia | done | done].
    + destruct (add_chain_keeps q s g b 0 HI Hb ltac:(lia)) as (r & g1 & E1 & Hh & Hs & HI1 & Hg1 & Hf1 & Ha1 & Hd1). rewrite E1, bind_Ok.
      assert ((Z.of_nat (free_head_ (ring s)) <? qsize_ r) = true) as -> by (apply Z.ltb_lt; lia). cbn [kassert]. rewrite bind_Ok.
      destruct (IH _ g1 HI1 Hne) as (rest & r' & g' & E' & HI' & added & -> & Hg' & Hf' & Ha' & Hd'). cbn [ring seen owned] in *.
      exists rest, r', g'. split; [done |]. split; [done |]. exists (b :: added). split; [done |].
      split; [rewrite Hg', Hg1, <- app_assoc; done |]. split; [cbn; lia |]. split; [rewrite Ha'; exact Ha1 | congruence].
Qed.

Lemma done_chain q s g h len dn : Inv q s g -> done_ g = (h, len) :: dn -> exists l1 c l2, flight g = l1 ++ c :: l2 /\ c_head c = h.
Proof.
  intros HI Hd. assert (h ∈ heads (flight g)) as Hh.
  { rewrite (i_heads _ _ _ HI), Hd, !elem_of_app. right. right. by left. }
  apply list_elem_of_fmap in Hh as (c & -> & Hc). apply list_elem_of_split in Hc as (l1 & l2 & E). by exists l1, c, l2.
Qed.

Lemma reclaim_step q s g : Inv q s g -> used_head_ (ring s) <> last_used_ (ring s) ->
  exists buf len r g', reclaim (ring s) = Ok (buf, len, r) /\ Inv q (mkSystem r (seen s) (owned s)) g' /\ bufs_of g ≡ₚ buf :: bufs_of g' /\
    0 <= len <= pkt_len buf /\ used_head_ r = used_head_ (ring s) /\ last_used_ r = u16 (last_used_ (ring s) + 1) /\
    exists h, done_ g = (h, len) :: done_ g'.
Proof.
  intros HI Hne. destruct (inv_pending _ _ _ HI) as (k & Hk & _ & Hz). destruct (done_ g) as [|[h len] dn] eqn:Ed.
  { exfalso. apply Hne, Hz. cbn in Hk. lia. }
  destruct (done_chain _ _ _ _ _ _ HI Ed) as (l1 & c & l2 & Ef & <-). destruct g as [fr fl fre dn']. cbn [flight done_] in *. subst.
  destruct (reclaim_keeps HI Hne) as (r & E & HI' & Hu & _ & Hl). do 4 eexists. split; [exact E |]. split; [exact HI' |].
  split; [unfold bufs_of; cbn; rewrite !fmap_app; cbn; by rewrite Permutation_middle |].
  split; [| do 2 (split; [done |]); by exists (c_head c)]. eapply (i_done_len _ _ _ HI (c_head c) len c); [by left | apply elem_of_app; right; by left | done].
Qed.

Lemma GetBuffer_keeps q s g : Inv q s g -> used_head_ (ring s) <> last_used_ (ring s) ->
  exists buf r g', GetBuffer (ring s) = Ok (buf, r) /\ Inv q (mkSystem r (seen s) (owned s)) g' /\ ids <$> bufs_of g ≡ₚ ids buf :: (ids <$> bufs_of g') /\
    used_head_ r = used_head_ (ring s) /\ last_used_ r = u16 (last_used_ (ring s) + 1).
Proof.
  intros HI Hne. destruct (reclaim_step q s g HI Hne) as (buf & len & r & g' & E & HI' & Hp & Hlen & Hu & Hl & _).
  unfold GetBuffer. rewrite E, bind_Ok, (trim_len _ _ Hlen), Z.eqb_refl. cbn [kassert]. rewrite bind_Ok.
  do 3 eexists. split; [done |]. split; [exact HI' |]. split; [| done]. rewrite trim_ids, Hp. done.
Qed.

(** One round fewer after each used element. *)
Lemma pending_pred q s g n : Inv q s g -> u16 (used_head_ (ring s) - last_used_ (ring s)) = Z.of_nat (S n) ->
  used_head_ (ring s) <> last_used_ (ring s) /\ u16 (used_head_ (ring s) - u16 (last_used_ (ring s) + 1)) = Z.of_nat n.
Proof.
  intros HI Hn. split; [intros E; rewrite E, Z.sub_diag in Hn; done |].
  unfold u16, wrap in *. rewrite Zminus_mod_idemp_r. Z.to_euclidean_division_equations. lia.
Qed.

Lemma pending_zero q s g : Inv q s g -> u16 (used_head_ (ring s) - last_used_ (ring s)) = 0 -> used_head_ (ring s) = last_used_ (ring s).
Proof. intros HI Hn. destruct (inv_pending _ _ _ HI) as (k & _ & E & Hz). apply Hz. lia. Qed.

Lemma clear_loop_keeps q : forall n s g, Inv q s g -> u16 (used_head_ (ring s) - last_used_ (ring s)) = Z.of_nat n ->
  exists bs r g', clear_loop n (ring s) = Ok (bs, r) /\ Inv q (mkSystem r (seen s) (owned s)) g' /\ bufs_of g ≡ₚ bs ++ bufs_of g' /\
    used_head_ r = used_head_ (ring s) /\ last_used_ r = used_head_ (ring s).
Proof.
  induction n as [|n IH]; intros s g HI Hn; cbn [clear_loop].
  - exists [], (ring s), g. split; [done |]. split; [by destruct s |]. do 2 (split; [done |]). symmetry. by eapply pending_zero.
  - destruct (pending_pred _ _ _ _ HI Hn) as [Hne Hn']. destruct (reclaim_step q s g HI Hne) as (b & len & r & g1 & E & HI1 & Hp & _ & Hu & Hl & _).
    rewrite E, bind_Ok. rewrite <- Hu, <- Hl in Hn'. destruct (IH _ _ HI1 Hn') as (bs & r' & g' & E' & HI' & Hp' & Hu' & Hl').
    cbn [ring seen owned] in *. rewrite E', bind_Ok. do 3 eexists. split; [done |]. split; [exact HI' |]. split; [by rewrite Hp, Hp' | by rewrite Hl', Hu', Hu].
Qed.

Lemma process_loop_keeps q : forall n s g, Inv q s g -> u16 (used_head_ (ring s) - last_used_ (ring s)) = Z.of_nat n ->
  exists bs r g', process_loop n (ring s) = Ok (bs, r) /\ Inv q (mkSystem r (seen s) (owned s)) g' /\
    ids <$> bufs_of g ≡ₚ (ids <$> bs) ++ (ids <$> bufs_of g') /\ used_head_ r = used_head_ (ring s) /\ last_used_ r = used_head_ (ring s).
Proof.
  induction n as [|n IH]; intros s g HI Hn; cbn [process_loop].
  - exists [], (ring s), g. split; [done |]. split; [by destruct s |]. do 2 (split; [done |]). symmetry. by eapply pending_zero.
  - destruct (pending_pred _ _ _ _ HI Hn) as [Hne Hn']. destruct (GetBuffer_keeps q s g HI Hne) as (b & r & g1 & E & HI1 & Hp & Hu & Hl).
    rewrite E, bind_Ok. rewrite <- Hu, <- Hl in Hn'. destruct (IH _ _ HI1 Hn') as (bs & r' & g' & E' & HI' & Hp' & Hu' & Hl').
    cbn [ring seen owned] in *. rewrite E', bind_Ok. do 3 eexists. split; [done |]. split; [exact HI' |]. split; [by rewrite Hp, Hp' | by rewrite Hl', Hu', Hu].
Qed.

(** The loops start from the index that the device has published. *)
Lemma load_used_pending q s g : Inv q s g -> exists n,
  u16 (used_head_ (load_used (ring s)) - last_used_ (load_used (ring s))) = Z.of_nat n /\ n = length (done_ g).
Proof.
  intros HI. pose proof (inv_done_len _ _ _ HI) as Hl. exists (length (done_ g)). split; [| done]. cbn [load_used used_head_ last_used_].
  rewrite (proj2 (i_last _ _ _ HI)). unfold u16, wrap. rewrite Zminus_mod_idemp_l. replace (_ + _ - _) with (Z.of_nat (length (done_ g))) by lia.
  apply Z.mod_small. lia.
Qed.
