(* ===== verification/VirtioSafe.v ===== *)
(** * Safety of virtio rings

    The driver and the device as two processes that share a ring: what every
    reachable state guarantees, that no operation of the driver fails there, and
    where the parts of the ring are in memory. *)

From S2P Require Import Prelude Pfn Checksum NetIp Messenger SlabSize Virtio VirtioCorrect.

(** ** Reachable states *)

(** The device tells when it wants to be notified. *)
Definition device_flags (f e : Z) (r : VRing) : VRing :=
  mkVRing (desc_ r) (avail_flags r) (avail_idx r) (avail_ring r) f (used_idx r) (used_ring r) e (qsize_ r)
    (last_used_ r) (avail_idx_ r) (used_head_ r) (free_head_ r) (free_count_ r) (buf_references_ r) (event_indexes_ r).

Definition with_ring (s : System) (r : VRing) : System := mkSystem r (seen s) (owned s).

(** The device fetches the chains in the order of the available ring, and returns those
    that it owns in any order, with any content of at least [min] bytes. *)
Inductive dev_step (min : Z) : System -> System -> Prop :=
| dev_fetch s h : seen s <> avail_idx (ring s) -> avail_ring (ring s) !! Z.to_nat (seen s mod qsize_ (ring s)) = Some h ->
    dev_step min s (mkSystem (ring s) (u16 (seen s + 1)) (h :: owned s))
| dev_use s i h p p' len : owned s !! i = Some h -> buf_references_ (ring s) !! h = Some (Some p) -> ids p' = ids p -> 0 <= min <= len -> len <= pkt_len p' ->
    dev_step min s (mkSystem (device_use h len p' (ring s)) (seen s) (delete i (owned s)))
| dev_notify s f e : dev_step min s (with_ring s (device_flags f e (ring s))).

(** A system with the buffers that were given to the ring and those that came back. *)
Inductive reach (q : nat) : System -> list packet -> list packet -> Prop :=
| reach_new : reach q (mkSystem (new_VRing q) 0 []) [] []
| reach_AddBuffer s sub ret bufs out kick r : reach q s sub ret -> bufs <> [] ->
    AddBuffer bufs out (ring s) = Ok (kick, r) -> reach q (with_ring s r) (sub ++ [bufs]) ret
| reach_AddWritableBuffers s sub ret chains added rest kick r : reach q s sub ret -> Forall (fun b => b <> []) chains ->
    chains = added ++ rest -> AddWritableBuffers chains (ring s) = Ok (rest, kick, r) -> reach q (with_ring s r) (sub ++ added) ret
| reach_HasUsedBuffer s sub ret : reach q s sub ret -> reach q (with_ring s (HasUsedBuffer (ring s)).2) sub ret
| reach_GetBuffer s sub ret b r : reach q s sub ret -> used_head_ (ring s) <> last_used_ (ring s) ->
    GetBuffer (ring s) = Ok (b, r) -> reach q (with_ring s r) sub (ret ++ [b])
| reach_ClearUsedBuffers s sub ret bs r : reach q s sub ret -> ClearUsedBuffers (ring s) = Ok (bs, r) -> reach q (with_ring s r) sub (ret ++ bs)
| reach_ProcessUsedBuffers s sub ret bs r : reach q s sub ret -> ProcessUsedBuffers (ring s) = Ok (bs, r) -> reach q (with_ring s r) sub (ret ++ bs)
| reach_EnableInterrupts s sub ret : reach q s sub ret -> reach q (with_ring s (EnableInterrupts (ring s))) sub ret
| reach_DisableInterrupts s sub ret : reach q s sub ret -> reach q (with_ring s (DisableInterrupts (ring s))) sub ret
| reach_device s sub ret s' : reach q s sub ret -> dev_step 0 s s' -> reach q s' sub ret.

(** ** The invariant holds in them *)

Definition Logged (q : nat) (s : System) (sub ret : list packet) (g : Ghost) : Prop :=
  Inv q s g /\ ids <$> sub ≡ₚ (ids <$> ret) ++ (ids <$> bufs_of g).

Lemma logged_add q s s' sub ret g g' added : Logged q s sub ret g -> Inv q s' g' -> bufs_of g' = bufs_of g ++ added -> Logged q s' (sub ++ added) ret g'.
Proof. intros [_ Hl] HI Hg. split; [done |]. rewrite Hg, !fmap_app, Hl, app_assoc. done. Qed.

Lemma logged_return q s s' sub ret g g' bs : Logged q s sub ret g -> Inv q s' g' -> ids <$> bufs_of g ≡ₚ (ids <$> bs) ++ (ids <$> bufs_of g') ->
  Logged q s' sub (ret ++ bs) g'.
Proof. intros [_ Hl] HI Hg. split; [done |]. rewrite Hl, Hg, fmap_app, app_assoc. done. Qed.

Lemma AddWritableBuffers_keeps q s g chains : Inv q s g -> Forall (fun b => b <> []) chains ->
  exists added rest kick r g', AddWritableBuffers chains (ring s) = Ok (rest, kick, r) /\ chains = added ++ rest /\
    Inv q (with_ring s r) g' /\ bufs_of g' = bufs_of g ++ added.
Proof.
  intros HI Hne. destruct (add_writable_keeps q chains s g HI Hne) as (rest & r & g' & E & HI' & added & Hc & Hg & _).
  destruct chains as [|b chains].
  - exists [], [], false, (ring s), g. split; [done |]. split; [done |]. split; [by destruct s | by rewrite app_nil_r].
  - unfold AddWritableBuffers. rewrite E, bind_Ok. destruct rest as [|x rest].
    + do 5 eexists. split; [done |]. split; [exact Hc |]. split; [exact (publish_keeps _ _ _ HI') | done].
    + do 5 eexists. split; [done |]. split; [exact Hc |]. split; [exact HI' | done].
Qed.

Lemma HasUsedBuffer_keeps q s g : Inv q s g -> Inv q (with_ring s (HasUsedBuffer (ring s)).2) g.
Proof. intros HI. unfold HasUsedBuffer. destruct (_ =? _); [by apply load_used_keeps | by destruct s]. Qed.

Lemma ClearUsedBuffers_keeps q s g : Inv q s g -> exists bs r g', ClearUsedBuffers (ring s) = Ok (bs, r) /\ Inv q (with_ring s r) g' /\
  bufs_of g ≡ₚ bs ++ bufs_of g' /\ used_head_ r = used_idx (ring s) /\ last_used_ r = used_idx (ring s).
Proof.
  intros HI. destruct (load_used_pending q s g HI) as (n & Hn & _).
  destruct (clear_loop_keeps q n _ g (load_used_keeps _ _ _ HI) Hn) as (bs & r & g' & E & H). exists bs, r, g'.
  split; [| exact H]. unfold ClearUsedBuffers. rewrite Hn, Nat2Z.id. exact E.
Qed.

Lemma ProcessUsedBuffers_keeps q s g : Inv q s g -> exists bs r g', ProcessUsedBuffers (ring s) = Ok (bs, r) /\ Inv q (with_ring s r) g' /\
  ids <$> bufs_of g ≡ₚ (ids <$> bs) ++ (ids <$> bufs_of g') /\ used_head_ r = used_idx (ring s) /\ last_used_ r = used_idx (ring s).
Proof.
  intros HI. destruct (load_used_pending q s g HI) as (n & Hn & _).
  destruct (process_loop_keeps q n _ g (load_used_keeps _ _ _ HI) Hn) as (bs & r & g' & E & H). exists bs, r, g'.
  split; [| exact H]. unfold ProcessUsedBuffers. rewrite Hn, Nat2Z.id. exact E.
Qed.

Lemma AddBuffer_room bufs out r kick r' : AddBuffer bufs out r = Ok (kick, r') -> Z.of_nat (length bufs) <= free_count_ r.
Proof. unfold AddBuffer. intros H. apply bind_ok in H as (? & H & _). apply kassert_ok in H. by apply Z.leb_le. Qed.

(** What the device cannot change. *)
Definition same_driver (r r' : VRing) : Prop :=
  last_used_ r' = last_used_ r /\ used_head_ r' = used_head_ r /\ avail_flags r' = avail_flags r /\ free_count_ r' = free_count_ r /\ qsize_ r' = qsize_ r.

Lemma dev_step_keeps q min s g s' : Inv q s g -> dev_step min s s' -> exists g', Inv q s' g' /\ ids <$> bufs_of g' = ids <$> bufs_of g /\
  (done_ g' = done_ g \/ exists h len, min <= len /\ done_ g' = done_ g ++ [(h, len)]) /\ same_driver (ring s) (ring s').
Proof.
  intros HI Hs. revert HI. destruct Hs as [s0 h Hne Hh|s0 i h p p' len Hi Hr Hp Hlen Hlen'|s0 f e]; intros HI.
  - destruct (fetch_keeps q s0 g HI Hne) as (h' & t & _ & Hh' & HI'). rewrite Hh in Hh'. injection Hh' as <-.
    eexists. split; [exact HI' |]. split; [done |]. split; [by left | done].
  - apply (i_refs _ _ _ HI) in Hr as (c & Hc & <- & <-). apply list_elem_of_split in Hc as (l1 & l2 & E).
    destruct g as [fr fl fre dn]. cbn [flight] in E. subst fl. eexists. split; [exact (use_keeps p' HI i len Hi ltac:(lia)) |].
    split; [unfold bufs_of; cbn [flight]; rewrite !fmap_app, !fmap_cons; cbn [c_buf]; by rewrite Hp |].
    split; [right; exists (c_head c), len; split; [lia | done] | done].
  - exists g. destruct HI as [I1 I2 I3 I4 I5 I6 I7 I8 I9 I10 I11 I12 I13 I14 I15 I16]. split; [by split |]. split; [done |]. split; [by left | done].
Qed.

Lemma reach_inv q k s sub ret : (0 < q)%nat -> 1 < k -> Z.of_nat q * k = 2 ^ 16 -> reach q s sub ret -> exists g, Logged q s sub ret g.
Proof.
  intros Hq H1 Hk. induction 1 as [|s sub ret bufs out kick r _ [g IH] Hb E|s sub ret chains added rest kick r _ [g IH] Hne Hc E|s sub ret _ [g IH]
    |s sub ret b r _ [g IH] Hne E|s sub ret bs r _ [g IH] E|s sub ret bs r _ [g IH] E|s sub ret _ [g IH]|s sub ret _ [g IH]
    |s sub ret s' _ [g IH] Hs].
  - exists (mkGhost (seq 0 q) [] [] []). split; [by eapply vring_Inv_new | done].
  - destruct (AddBuffer_keeps q s g bufs out (proj1 IH) Hb (AddBuffer_room _ _ _ _ _ E)) as (kick' & r' & g' & E' & HI & Hg & _).
    rewrite E' in E. injection E as -> ->. exists g'. by eapply logged_add.
  - destruct (AddWritableBuffers_keeps q s g chains (proj1 IH) Hne) as (added' & rest' & kick' & r' & g' & E' & Hc' & HI & Hg).
    rewrite E' in E. injection E as -> -> ->. assert (added' = added) as -> by (rewrite Hc in Hc'; by apply app_inv_tail in Hc').
    exists g'. by eapply logged_add.
  - exists g. split; [by apply HasUsedBuffer_keeps, (proj1 IH) | apply IH].
  - destruct (GetBuffer_keeps q s g (proj1 IH) Hne) as (b' & r' & g' & E' & HI & Hg & _). rewrite E' in E. injection E as -> ->.
    exists g'. by eapply (logged_return _ _ _ _ _ _ _ [b]).
  - destruct (ClearUsedBuffers_keeps q s g (proj1 IH)) as (bs' & r' & g' & E' & HI & Hg & _). rewrite E' in E. injection E as -> ->.
    exists g'. eapply logged_return; [done | done |]. by rewrite Hg, fmap_app.
  - destruct (ProcessUsedBuffers_keeps q s g (proj1 IH)) as (bs' & r' & g' & E' & HI & Hg & _). rewrite E' in E. injection E as -> ->.
    exists g'. by eapply logged_return.
  - exists g. split; [by apply flags_keep, (proj1 IH) | apply IH].
  - exists g. split; [by apply flags_keep, (proj1 IH) | apply IH].
  - destruct (dev_step_keeps q 0 s g s' (proj1 IH) Hs) as (g' & HI & Hg & _). exists g'. split; [done |]. rewrite Hg. apply IH.
Qed.

Lemma HasUsedBuffer_true r : (HasUsedBuffer r).1 = true -> used_head_ (HasUsedBuffer r).2 <> last_used_ (HasUsedBuffer r).2.
Proof.
  unfold HasUsedBuffer. destruct (last_used_ r =? used_head_ r) eqn:E; cbn [fst snd]; intros H; bool_to_prop; congruence.
Qed.

Lemma AddBuffer_idx bufs out r kick r' : AddBuffer bufs out r = Ok (kick, r') -> avail_idx_ r' = u16 (avail_idx_ r + 1).
Proof.
  unfold AddBuffer, add_chain. intros H. apply bind_ok in H as (? & _ & H). apply bind_ok in H as (r1 & H1 & H).
  apply bind_ok in H1 as ([[ds fh] ld] & _ & [= <-]). apply bind_ok in H as (? & _ & [= _ <-]). done.
Qed.

Lemma clear_loop_count n : forall r bs r', clear_loop n r = Ok (bs, r') -> length bs = n.
Proof.
  induction n as [|n IH]; intros r bs r' H; cbn [clear_loop] in H; [by injection H as <- <- |].
  apply bind_ok in H as ([[b l] r1] & _ & H). apply bind_ok in H as ([bs1 r2] & H & [= <- <-]). cbn. f_equal. by eapply IH.
Qed.

Lemma process_loop_count n : forall r bs r', process_loop n r = Ok (bs, r') -> length bs = n.
Proof.
  induction n as [|n IH]; intros r bs r' H; cbn [process_loop] in H; [by injection H as <- <- |].
  apply bind_ok in H as ([b r1] & _ & H). apply bind_ok in H as ([bs1 r2] & H & [= <- <-]). cbn. f_equal. by eapply IH.
Qed.

Lemma ClearUsedBuffers_count r bs r' : ClearUsedBuffers r = Ok (bs, r') -> Z.of_nat (length bs) = u16 (used_idx r - last_used_ r).
Proof. intros H. apply clear_loop_count in H. rewrite H. apply Z2Nat.id. unfold u16. apply (wrap_range 16). lia. Qed.

Lemma ProcessUsedBuffers_count r bs r' : ProcessUsedBuffers r = Ok (bs, r') -> Z.of_nat (length bs) = u16 (used_idx r - last_used_ r).
Proof. intros H. apply process_loop_count in H. rewrite H. apply Z2Nat.id. unfold u16. apply (wrap_range 16). lia. Qed.

(** ** What they guarantee *)

(** C18. In every state that the driver and the device reach, whatever the device writes and
    in whatever order it returns the chains, each descriptor is either free or in exactly
    one chain; the count of free descriptors is right; the walk from a chain's head visits
    exactly the chain; the driver holds a buffer at the head of exactly the chains in use;
    and each buffer given to the ring is either held or came back, exactly once. *)
Theorem vring_safe q k s sub ret : (0 < q)%nat -> 1 < k -> Z.of_nat q * k = 2 ^ 16 -> reach q s sub ret ->
  exists fr fl, fr ++ used_descs fl ≡ₚ seq 0 q /\ free_count_ (ring s) = Z.of_nat (length fr) /\
    Forall (fun c => linked (desc_ (ring s)) (c_descs c) /\ exists z, last (c_descs c) = Some z /\
      walk_chain q (desc_ (ring s)) (c_head c) 1 = Ok (z, Z.of_nat (length (c_descs c)))) fl /\
    (forall i b, buf_references_ (ring s) !! i = Some (Some b) <-> exists c, c ∈ fl /\ c_head c = i /\ c_buf c = b) /\
    ids <$> sub ≡ₚ (ids <$> ret) ++ (ids <$> (c_buf <$> fl)).
Proof.
  intros Hq H1 Hk Hr. destruct (reach_inv q k s sub ret Hq H1 Hk Hr) as (g & HI & Hl). exists (free g), (flight g).
  split; [apply (i_perm _ _ _ HI) |]. split; [apply (i_count _ _ _ HI) |]. split; [| split; [apply (i_refs _ _ _ HI) | exact Hl]].
  pose proof (i_chains _ _ _ HI) as Hc. rewrite Forall_forall in Hc |- *. intros c Hin. destruct (Hc c Hin) as [Hlk Hfl]. split; [done |].
  assert (length (c_descs c) <= q)%nat as Hn.
  { pose proof (inv_total HI). apply list_elem_of_split in Hin as (l1 & l2 & E). rewrite E, used_descs_app, length_app in H.
    change (used_descs (c :: l2)) with (c_descs c ++ used_descs l2) in H. rewrite length_app in H. lia. }
  destruct (walk_chain_spec _ (c_descs c) q (c_head c) (c_rest c) 1 eq_refl Hlk Hfl Hn) as (z & Hz & Hw). exists z. split; [done |].
  rewrite Hw. do 2 f_equal. unfold c_descs. cbn [length]. lia.
Qed.

(** No operation of the driver fails in a reachable state: none of the assertions on the
    buffer table, on the head, on the trimmed length; no walk runs in circles or leaves the
    table. A chain is added when there is room; a used buffer can be taken when there is
    one; and the two loops return exactly as many buffers as the device has returned. *)
Theorem vring_no_fault q k s sub ret : (0 < q)%nat -> 1 < k -> Z.of_nat q * k = 2 ^ 16 -> reach q s sub ret ->
  (forall bufs out, bufs <> [] -> Z.of_nat (length bufs) <= free_count_ (ring s) ->
    exists kick r, AddBuffer bufs out (ring s) = Ok (kick, r) /\ avail_idx r = u16 (avail_idx_ (ring s) + 1)) /\
  (forall chains, Forall (fun b => b <> []) chains -> exists rest kick r, AddWritableBuffers chains (ring s) = Ok (rest, kick, r)) /\
  ((HasUsedBuffer (ring s)).1 = true -> exists b r, GetBuffer (HasUsedBuffer (ring s)).2 = Ok (b, r)) /\
  (exists bs r, ClearUsedBuffers (ring s) = Ok (bs, r) /\ last_used_ r = used_idx (ring s) /\ Z.of_nat (length bs) = u16 (used_idx (ring s) - last_used_ (ring s))) /\
  (exists bs r, ProcessUsedBuffers (ring s) = Ok (bs, r) /\ last_used_ r = used_idx (ring s) /\ Z.of_nat (length bs) = u16 (used_idx (ring s) - last_used_ (ring s))).
Proof.
  intros Hq H1 Hk Hr. destruct (reach_inv q k s sub ret Hq H1 Hk Hr) as (g & HI & _). split_and!.
  - intros bufs out Hb Hlen. destruct (AddBuffer_keeps q s g bufs out HI Hb Hlen) as (kick & r & g' & E & _ & _ & Ha).
    exists kick, r. split; [done |]. rewrite Ha. by eapply AddBuffer_idx.
  - intros chains Hne. destruct (AddWritableBuffers_keeps q s g chains HI Hne) as (added & rest & kick & r & g' & E & _). by do 3 eexists.
  - intros Hu. destruct (GetBuffer_keeps q _ g (HasUsedBuffer_keeps _ _ _ HI)) as (b & r & _ & E & _); [by apply HasUsedBuffer_true | by do 2 eexists].
  - destruct (ClearUsedBuffers_keeps q s g HI) as (bs & r & g' & E & _ & _ & _ & Hl). exists bs, r. split; [done |]. split; [done |].
    by eapply ClearUsedBuffers_count.
  - destruct (ProcessUsedBuffers_keeps q s g HI) as (bs & r & g' & E & _ & _ & _ & Hl). exists bs, r. split; [done |]. split; [done |].
    by eapply ProcessUsedBuffers_count.
Qed.

(** *** A run *)

Definition demo_buf (a : Z) : Buf := mkBuf a [] [1; 2; 3; 4] [].
Definition demo_steps : outcome (System * list packet) :=
  let s := mkSystem (new_VRing 4) 0 [] in
  '(_, _, r) ← AddWritableBuffers [[demo_buf 100; demo_buf 200]; [demo_buf 300]] (ring s);
  let r := device_use 2 4 [demo_buf 300] r in
  let r := device_use 0 3 [demo_buf 100; demo_buf 200] r in
  '(b, r) ← GetBuffer (HasUsedBuffer r).2;
  Ok (mkSystem r 2 [], [b]).

Lemma demo_reach : exists s b, demo_steps = Ok (s, [b]) /\ reach 4 s [[demo_buf 100; demo_buf 200]; [demo_buf 300]] [b] /\
  b = [demo_buf 300] /\ free_count_ (ring s) = 2.
Proof.
  assert (exists rest kick r, AddWritableBuffers [[demo_buf 100; demo_buf 200]; [demo_buf 300]] (new_VRing 4) = Ok (rest, kick, r)) as (rest & kick & r & E)
    by (do 3 eexists; vm_compute; reflexivity).
  assert (rest = []) as -> by (vm_compute in E; by injection E).
  assert (reach 4 (mkSystem r 0 []) [[demo_buf 100; demo_buf 200]; [demo_buf 300]] []) as R1.
  { apply (reach_AddWritableBuffers 4 _ [] [] [[demo_buf 100; demo_buf 200]; [demo_buf 300]] [[demo_buf 100; demo_buf 200]; [demo_buf 300]] [] kick r (reach_new 4)); [repeat constructor; done | done | exact E]. }
  vm_compute in E. injection E as <- <-.
  eapply reach_device in R1; [| by apply (dev_fetch 0 _ 0%nat)]. eapply reach_device in R1; [| by apply (dev_fetch 0 _ 2%nat)].
  eapply reach_device in R1; [| by apply (dev_use 0 _ 0%nat 2%nat [demo_buf 300] [demo_buf 300] 4)].
  eapply reach_device in R1; [| by apply (dev_use 0 _ 0%nat 0%nat [demo_buf 100; demo_buf 200] [demo_buf 100; demo_buf 200] 3)].
  apply reach_HasUsedBuffer in R1. eapply (reach_GetBuffer 4 _ _ _ [demo_buf 300]) in R1; [| done | vm_compute; reflexivity].
  do 2 eexists. split; [vm_compute; reflexivity |]. split; [exact R1 | done].
Qed.

Lemma vring_safe_witness : exists s b, reach 4 s [[demo_buf 100; demo_buf 200]; [demo_buf 300]] [b] /\ free_count_ (ring s) = 2 /\
  exists fr fl, fr ++ used_descs fl ≡ₚ seq 0 4 /\ length fr = 2%nat /\ ids <$> (c_buf <$> fl) ≡ₚ [[100; 200]].
Proof.
  destruct demo_reach as (s & b & _ & Hr & Hb & Hc). exists s, b. split; [done |]. split; [done |].
  destruct (vring_safe 4 16384 s _ _ ltac:(lia) ltac:(lia) eq_refl Hr) as (fr & fl & Hp & Hf & _ & _ & Hl).
  exists fr, fl. split; [done |]. split; [lia |]. rewrite Hb in Hl. change (ids <$> [[demo_buf 100; demo_buf 200]; [demo_buf 300]]) with [[100; 200]; [300]] in Hl.
  change (ids <$> [[demo_buf 300]]) with [[300]] in Hl. rewrite (Permutation_app_comm [[300]]) in Hl. symmetry in Hl.
  apply (Permutation_app_inv_r [[300]]). exact Hl.
Defined.

Lemma vring_no_fault_witness : exists s b, reach 4 s [[demo_buf 100; demo_buf 200]; [demo_buf 300]] [b] /\
  exists bs r, ClearUsedBuffers (ring s) = Ok (bs, r) /\ last_used_ r = used_idx (ring s).
Proof.
  destruct demo_reach as (s & b & _ & Hr & _). exists s, b. split; [done |].
  destruct (vring_no_fault 4 16384 s _ _ ltac:(lia) ltac:(lia) eq_refl Hr) as (_ & _ & _ & (bs & r & E & Hl & _) & _). by exists bs, r.
Defined.

(** ** Chains that are never announced *)

(** When [AddWritableBuffers] runs out of descriptors it returns at once: the chains that
    it has already put in the available ring are not published and the device is not
    notified, although the caller is told that they were added. *)
Theorem writable_unpublished q k s sub ret chains added rest kick r : (0 < q)%nat -> 1 < k -> Z.of_nat q * k = 2 ^ 16 -> reach q s sub ret ->
  Forall (fun b => b <> []) chains -> chains = added ++ rest -> rest <> [] -> AddWritableBuffers chains (ring s) = Ok (rest, kick, r) ->
  kick = false /\ avail_idx r = avail_idx (ring s) /\ avail_idx_ r = u16 (avail_idx_ (ring s) + Z.of_nat (length added)).
Proof.
  intros Hq H1 Hk Hr Hne Hc Hrest E. destruct (reach_inv q k s sub ret Hq H1 Hk Hr) as (g & HI & _).
  destruct (add_writable_keeps q chains s g HI Hne) as (rest' & r' & g' & E' & HI' & added' & Hc' & _ & Hf & Ha & _).
  unfold AddWritableBuffers in E. destruct chains as [|b chains]; [by destruct added, rest |]. rewrite E', bind_Ok in E.
  destruct rest' as [|x rest']; [by injection E as <- |]. injection E as <- <- <-. split; [done |]. split; [done |].
  assert (added' = added) as -> by (rewrite Hc in Hc'; by apply app_inv_tail in Hc').
  pose proof (proj2 (i_seen _ _ _ HI')) as H2. pose proof (proj2 (i_seen _ _ _ HI)) as H3. cbn [ring seen] in H2.
  rewrite H2, H3, Hf, u16_add. by rewrite Nat2Z.inj_add, Z.add_assoc.
Qed.

Definition big_chain : packet := [demo_buf 300; demo_buf 400; demo_buf 500; demo_buf 600].

Lemma writable_unpublished_witness : exists r, AddWritableBuffers [[demo_buf 100]; big_chain] (new_VRing 4) = Ok ([big_chain], false, r) /\
  avail_idx r = 0 /\ avail_idx_ r = 1.
Proof.
  assert (exists r, AddWritableBuffers [[demo_buf 100]; big_chain] (new_VRing 4) = Ok ([big_chain], false, r)) as [r E] by (eexists; vm_compute; reflexivity).
  exists r. split; [done |].
  destruct (writable_unpublished 4 16384 _ [] [] [[demo_buf 100]; big_chain] [[demo_buf 100]] [big_chain] false r ltac:(lia) ltac:(lia) eq_refl (reach_new 4)) as (_ & H1 & H2);
    [repeat constructor; done | done | done | done | by split].
Defined.

(** ** Where the parts are *)

Lemma ring_bytes_bound q : 1 <= q <= 32768 -> 8192 <= ring_bytes q <= 860160 /\ ring_bytes q mod 4096 = 0 /\
  exists u v, ring_bytes q = u + v /\ u mod 4096 = 0 /\ 18 * q + 6 <= u /\ 8 * q + 6 <= v /\ u = AlignUp (18 * q + 6) 4096.
Proof.
  intros Hq. unfold ring_bytes. replace (16 * q + 2 * (3 + q)) with (18 * q + 6) by lia. replace (2 * 3 + 8 * q) with (8 * q + 6) by lia.
  destruct (AlignUp_pow2 (18 * q + 6) 12) as (u & Eu & Hu & Hur); [lia | lia | lia |].
  destruct (AlignUp_pow2 (8 * q + 6) 12) as (v & Ev & Hv & Hvr); [lia | lia | lia |]. change (2 ^ 12) with 4096 in *. rewrite Eu, Ev.
  split; [Z.to_euclidean_division_equations; lia |]. split; [Z.to_euclidean_division_equations; lia |]. exists u, v. split_and!; lia || done.
Qed.

Lemma vring_bytes_order q : 1 <= q <= 32768 -> exists order, ring_order q = Ok order.
Proof. intros Hq. destruct (ring_bytes_bound q Hq) as (Hb & _). unfold ring_order. rewrite Fls_log2, bind_Ok by lia. by eexists. Qed.

Lemma AlignUp_shift a x : 0 <= a -> 0 <= x -> a + x + 4095 < 2 ^ 64 -> a mod 4096 = 0 -> AlignUp (a + x) 4096 = a + AlignUp x 4096.
Proof.
  intros Ha Hx Hb Hm. destruct (AlignUp_pow2 (a + x) 12) as (u & Eu & Hu & Hur); [lia | lia | lia |].
  destruct (AlignUp_pow2 x 12) as (v & Ev & Hv & Hvr); [lia | lia | lia |]. change (2 ^ 12) with 4096 in *. rewrite Eu, Ev.
  Z.to_euclidean_division_equations. lia.
Qed.

(** The pages allocated for a ring of up to 32768 descriptors hold it: the available ring
    follows the descriptors, the event index that ends it lies before the used ring, which
    starts on a 4096-byte boundary as the device expects, and the last event index lies
    within the zeroed bytes, which are within the block; the block is the smallest one that
    is large enough, and never more than 2^8 pages. *)
Theorem vring_layout addr q : 1 <= q <= 32768 -> 0 <= addr < 2 ^ 48 -> addr mod 4096 = 0 ->
  exists order, ring_order q = Ok order /\ 1 <= order <= 8 /\ 2 ^ (order - 1) * 4096 < ring_bytes q <= 2 ^ order * 4096 /\
    avail_addr addr q = addr + 16 * q /\ used_event_addr addr q + 2 <= used_addr addr q /\ used_addr addr q mod 4096 = 0 /\
    avail_event_addr addr q + 2 <= addr + ring_bytes q.
Proof.
  intros Hq Ha Hm. destruct (ring_bytes_bound q Hq) as (Hb & Hbm & u & v & E & Hum & Hu & Hv & Eu).
  unfold ring_order. rewrite Fls_log2, bind_Ok by lia. eexists. split; [done |].
  assert (used_addr addr q = addr + u) as EU.
  { unfold used_addr, used_event_addr, avail_addr. replace (addr + 16 * q + 4 + 2 * q + 2) with (addr + (18 * q + 6)) by lia.
    rewrite AlignUp_shift by lia. by rewrite Eu. }
  unfold kPageShift. pose proof (Z.log2_spec (ring_bytes q - 1) ltac:(lia)) as Hlog.
  pose proof (Z.log2_le_mono 8191 (ring_bytes q - 1) ltac:(lia)) as L1. pose proof (Z.log2_le_mono (ring_bytes q - 1) 860159 ltac:(lia)) as L2.
  change (Z.log2 8191) with 12 in L1. change (Z.log2 860159) with 19 in L2.
  split; [lia |]. split.
  - change 4096 with (2 ^ 12). rewrite <- !Z.pow_add_r by lia. replace (_ - 12 + 1 - 1 + 12) with (Z.log2 (ring_bytes q - 1)) by lia.
    replace (_ - 12 + 1 + 12) with (Z.succ (Z.log2 (ring_bytes q - 1))) by lia. lia.
  - split; [done |]. unfold avail_event_addr. rewrite EU. unfold used_event_addr, avail_addr. split; [lia |].
    split; [Z.to_euclidean_division_equations; lia | lia].
Qed.

Lemma vring_layout_witness : exists order, ring_order 256 = Ok order /\ 2 ^ order * 4096 = 16384 /\ avail_event_addr 65536 256 + 2 <= 65536 + ring_bytes 256.
Proof.
  destruct (vring_layout 65536 256 ltac:(lia) ltac:(lia) eq_refl) as (order & E & _ & _ & _ & _ & _ & H). exists order. split; [done |].
  split; [| done]. vm_compute in E. by injection E as <-.
Defined.

(** ** What the device sees *)

Definition writable (d : Desc) : bool := negb (Z.land (d_flags d) Write =? 0).

(** The device follows a chain from its head: the address and the length of each buffer,
    and whether it may write there. *)
Fixpoint device_view (fuel : nat) (ds : list Desc) (i : nat) : list (Z * Z * bool) :=
  match fuel with
  | O => []
  | S fuel =>
      match ds !! i with
      | None => []
      | Some d => (d_addr d, d_len d, writable d) :: if Z.land (d_flags d) Next =? 0 then [] else device_view fuel ds (d_next d)
      end
  end.

Definition view_of (ds : list Desc) (x : nat) : option (Z * Z * bool) := (fun d => (d_addr d, d_len d, writable d)) <$> ds !! x.

Lemma device_view_chain ds : forall c fuel x t, c = x :: t -> linked ds c -> flagged ds c -> (length c <= fuel)%nat ->
  device_view fuel ds x = omap (view_of ds) c.
Proof.
  induction c as [|x0 c IH]; intros fuel x t Hc Hl Hf Hn; [done |]. injection Hc as -> ->.
  destruct fuel as [|fuel]; [cbn in Hn; lia |]. cbn [device_view]. destruct t as [|y t]; cbn in Hf.
  - unfold more in Hf. apply fmap_Some in Hf as (d & Ed & Hd). apply eq_sym, negb_false_iff in Hd. cbn. unfold view_of. by rewrite Ed, Hd.
  - destruct Hf as [Hm Hf], Hl as [Hx Hl]. unfold more, next_of in *. apply fmap_Some in Hm as (d & Ed & Hd). rewrite Ed in Hx |- *.
    cbn in Hx. injection Hx as Hx. apply eq_sym, negb_true_iff in Hd. rewrite Hd, Hx. cbn [omap list_omap]. unfold view_of at 1. rewrite Ed. cbn. f_equal.
    apply (IH fuel y t eq_refl Hl Hf). cbn in Hn |- *. lia.
Qed.

Lemma writable_next f : (Z.land (Z.lor f Next) Write =? 0) = (Z.land f Write =? 0).
Proof. rewrite Z.land_lor_distr_l. change (Z.land Next Write) with 0. by rewrite Z.lor_0_r. Qed.

Lemma writable_write f : (Z.land (Z.lor f Write) Write =? 0) = false.
Proof.
  apply Z.eqb_neq. intros H. assert (Z.testbit (Z.land (Z.lor f Write) Write) 1 = false) as Hb by (rewrite H; apply Z.bits_0).
  rewrite Z.land_spec, Z.lor_spec in Hb. change (Z.testbit Write 1) with true in Hb. by rewrite orb_true_r in Hb.
Qed.

Lemma writable_clear f : (Z.land (Z.land f (Z.lnot Next)) Write =? 0) = (Z.land f Write =? 0).
Proof. rewrite <- Z.land_assoc. by change (Z.land (Z.lnot Next) Write) with Write. Qed.

(** The buffer that the descriptor carries; what the device may write includes what it was
    allowed to write before. *)
Definition carries (d0 d : Desc) (b : Buf) (out : bool) : Prop :=
  d_addr d = u64 (b_addr b + Z.of_nat (length (b_pre b))) /\ d_len d = u32 (blen b) /\ writable d = writable d0 || negb out.

Lemma fill_descs_view bufs : forall out ds c rest fh last0 ds' fh' last', length c = length bufs -> linked ds (c ++ rest) -> NoDup c ->
  (forall x, x ∈ c -> (x < length ds)%nat) -> match c ++ rest with [] => True | x :: _ => fh = x end ->
  fill_descs out bufs ds fh last0 = Ok (ds', fh', last') -> forall i x b, c !! i = Some x -> bufs !! i = Some b ->
  exists d0 d, ds !! x = Some d0 /\ ds' !! x = Some d /\ carries d0 d b (i <? out)%nat.
Proof.
  induction bufs as [|b0 bufs IH]; intros out ds c rest fh last0 ds' fh' last' Hc Hl Hnd Hr Hh E i x b Hx Hb; [done |].
  destruct c as [|x0 c]; [done |]. cbn in Hh. subst fh. cbn [fill_descs] in E.
  destruct (lookup_lt_is_Some_2 ds x0) as [d Hd]; [apply Hr; by left |]. rewrite Hd in E. apply NoDup_cons in Hnd as [Hn0 Hnd].
  set (d' := mkDesc _ _ _ (d_next d)) in E. set (ds1 := <[x0 := d']> ds) in E.
  assert (linked ds1 (c ++ rest)) as Hl1.
  { apply (desc_linked_frame ds); [| cbn in Hl; destruct (c ++ rest); [done | by destruct Hl]].
    intros y _. unfold next_of, ds1. destruct (decide (y = x0)) as [->|Hne]; [| by rewrite list_lookup_insert_ne].
    rewrite list_lookup_insert_eq, Hd by (by eapply lookup_lt_Some). done. }
  assert (match c ++ rest with [] => True | y :: _ => d_next d = y end) as Hh1.
  { cbn in Hl. destruct (c ++ rest); [done |]. destruct Hl as [Hy _]. unfold next_of in Hy. rewrite Hd in Hy. by injection Hy. }
  assert (forall y, y ∈ c -> (y < length ds1)%nat) as Hr1 by (intros y Hy; unfold ds1; rewrite length_insert; apply Hr; by right).
  cbn in Hc. injection Hc as Hc. destruct i as [|i].
  - cbn in Hx, Hb. injection Hx as <-. injection Hb as <-. exists d, d'. split; [done |].
    destruct (fill_descs_spec bufs (out - 1) ds1 c rest (d_next d) x0 Hc Hl1 Hnd Hr1 Hh1) as (ds2 & fh2 & E2 & _ & _ & Ho & _).
    rewrite E2 in E. injection E as -> -> _. rewrite Ho by done. unfold ds1. rewrite list_lookup_insert_eq by (by eapply lookup_lt_Some).
    split; [done |]. split; [done |]. split; [done |]. unfold writable, d'. cbn [d_flags].
    destruct out as [|out]; cbn [Nat.eqb]; [rewrite writable_write | rewrite writable_next]; by destruct (Z.land (d_flags d) Write =? 0).
  - destruct (IH (out - 1)%nat ds1 c rest (d_next d) x0 ds' fh' last' Hc Hl1 Hnd Hr1 Hh1 E i x b Hx Hb) as (d1 & d2 & H1 & H2 & H3).
    exists d1, d2. assert (x <> x0) as Hne by (intros ->; apply Hn0; by eapply list_elem_of_lookup_2).
    split; [unfold ds1 in H1; by rewrite list_lookup_insert_ne in H1 |]. split; [done |].
    replace (S i <? out)%nat with (i <? out - 1)%nat; [done |]. apply eq_true_iff_eq. rewrite !Nat.ltb_lt. lia.
Qed.

Lemma clear_next_carries ds z x d0 d b o : ds !! x = Some d -> carries d0 d b o -> exists d', clear_next z ds !! x = Some d' /\ carries d0 d' b o.
Proof.
  intros Hx (H1 & H2 & H3). unfold clear_next. destruct (decide (x = z)) as [->|Hne].
  - rewrite list_lookup_alter_eq, Hx. eexists. split; [done |]. split; [done |]. split; [done |]. rewrite <- H3. unfold writable. cbn [d_flags]. by rewrite writable_clear.
  - rewrite list_lookup_alter_ne by done. by exists d.
Qed.

Lemma omap_views ds (bufs : packet) (f : nat -> Buf -> Z * Z * bool) : forall c, length c = length bufs ->
  (forall i x b, c !! i = Some x -> bufs !! i = Some b -> view_of ds x = Some (f i b)) -> omap (view_of ds) c = imap f bufs.
Proof.
  revert f. induction bufs as [|b bufs IH]; intros f c Hl Hv; [by destruct c |]. destruct c as [|x c]; [done |]. cbn [omap list_omap].
  rewrite (Hv 0%nat x b eq_refl eq_refl). rewrite imap_cons. f_equal. apply IH; [by injection Hl |]. intros i y b' Hy Hb. by apply (Hv (S i) y b').
Qed.

(** What the device may write of a chain, given the flags left in the table. *)
Definition view (ds : list Desc) (c : list nat) (out i : nat) (b : Buf) : Z * Z * bool :=
  (u64 (b_addr b + Z.of_nat (length (b_pre b))), u32 (blen b),
   match c !! i ≫= (ds !!.) with Some d => writable d | None => false end || (out <=? i)%nat).

Lemma add_chain_view q s g (bufs : packet) out r : Inv q s g -> bufs <> [] -> Z.of_nat (length bufs) <= free_count_ (ring s) ->
  add_chain bufs out (ring s) = Ok r ->
  let h := free_head_ (ring s) in
  avail_ring r !! Z.to_nat (avail_idx_ (ring s) mod qsize_ r) = Some h /\ length (desc_ r) = length (desc_ (ring s)) /\
  exists c, length c = length bufs /\ device_view q (desc_ r) h = imap (view (desc_ (ring s)) c out) bufs /\
    forall x d, desc_ r !! x = Some d -> x ∉ c -> desc_ (ring s) !! x = Some d.
Proof.
  intros HI Hb Hl E h. destruct (split_free _ _ _ _ HI Hb Hl) as (h' & t & rest & Hf & Hlen & Hh & Hq). fold h in Hh. subst h'.
  pose proof (inv_nodup HI) as Hnd. apply NoDup_app in Hnd as (Hnd & _). rewrite Hf in Hnd. apply NoDup_app in Hnd as (Hnd & _).
  destruct (i_free _ _ _ HI) as [Hlk _]. rewrite Hf in Hlk. pose proof (i_lens _ _ _ HI) as (L1 & L2 & _).
  assert (forall x, x ∈ h :: t -> (x < length (desc_ (ring s)))%nat) as Hr.
  { intros x Hx. rewrite L1. apply (inv_range HI), elem_of_app. left. rewrite Hf. apply elem_of_app. by left. }
  destruct (add_chain_spec bufs out (ring s) (h :: t) rest Hb Hlen Hlk Hnd Hr eq_refl) as (ds' & fh' & E' & Hlds & Hl1 & Hf1 & _ & Ho & _).
  rewrite E' in E. injection E as <-. fold h. cbn [push_avail set_descs avail_ring qsize_ desc_ avail_idx_].
  split; [apply list_lookup_insert_eq; rewrite L2, (i_size _ _ _ HI); apply slot_lt; lia |]. split; [done |].
  exists (h :: t). split; [done |]. split; [| intros x d Hd Hx; by rewrite <- (Ho x Hx)].
  rewrite (device_view_chain ds' (h :: t) q h t eq_refl Hl1 Hf1) by (pose proof (inv_total HI) as Ht; rewrite Hf, length_app in Ht; lia).
  apply omap_views; [done |]. intros i x b Hx Hbi. unfold add_chain in E'. apply bind_ok in E' as ([[ds1 fh1] ld] & E1 & [= E2 _]).
  destruct (fill_descs_view bufs out _ (h :: t) rest h h ds1 fh1 ld Hlen Hlk Hnd Hr eq_refl E1 i x b Hx Hbi) as (d0 & d & H0 & H1 & Hca).
  destruct (clear_next_carries ds1 ld x d0 d b _ H1 Hca) as (d' & H2 & C1 & C2 & C3). rewrite E2 in H2. unfold view_of, view. rewrite H2, Hx. cbn.
  rewrite H0, C1, C2, C3. do 3 f_equal. by rewrite Nat.ltb_antisym, negb_involutive.
Qed.

Lemma AddBuffer_view q s g (bufs : packet) out : Inv q s g -> bufs <> [] -> Z.of_nat (length bufs) <= free_count_ (ring s) ->
  exists kick r h c, AddBuffer bufs out (ring s) = Ok (kick, r) /\ avail_ring r !! Z.to_nat (avail_idx_ (ring s) mod Z.of_nat q) = Some h /\
    avail_idx r = u16 (avail_idx_ (ring s) + 1) /\ buf_references_ r !! h = Some (Some bufs) /\ length c = length bufs /\
    device_view q (desc_ r) h = imap (view (desc_ (ring s)) c out) bufs.
Proof.
  intros HI Hb Hl. destruct (AddBuffer_keeps q s g bufs out HI Hb Hl) as (kick & r & g' & E & HI' & _ & Ha). exists kick, r, (free_head_ (ring s)).
  pose proof (AddBuffer_idx _ _ _ _ _ E) as Hi. pose proof E as E0. unfold AddBuffer in E. apply bind_ok in E as (_ & _ & E). apply bind_ok in E as (r1 & E1 & E).
  apply bind_ok in E as (? & Hh & [= _ Er]). apply kassert_ok, Z.ltb_lt in Hh.
  destruct (add_chain_view q s g bufs out r1 HI Hb Hl E1) as (Hav & _ & c & Hlc & Hv & _). exists c.
  assert (qsize_ r1 = Z.of_nat q) as Hs by (pose proof (i_size _ _ _ HI') as Hs; cbn [ring] in Hs; by rewrite <- Er in Hs).
  split; [done |]. split; [rewrite <- Er; cbn; by rewrite <- Hs |]. split; [by rewrite Ha |].
  split; [| split; [done |]; rewrite <- Er; exact Hv]. rewrite <- Er. cbn [set_ref publish buf_references_]. apply list_lookup_insert_eq.
  pose proof (i_lens _ _ _ HI') as (_ & _ & _ & L). cbn [ring] in L. rewrite <- Er in L. cbn in L. rewrite length_insert in L. cbn [publish qsize_] in Hh. lia.
Qed.

(** When a chain is added the device finds it: the next entry of the available ring is
    published and names the head of a chain of descriptors that carry exactly the buffers
    of the packet, in order, with their addresses and lengths; those from [out_num] on may
    be written, the others only if their descriptor already was writable. The packet is
    kept until the device returns the chain. *)
Theorem AddBuffer_published q k s sub ret bufs out : (0 < q)%nat -> 1 < k -> Z.of_nat q * k = 2 ^ 16 -> reach q s sub ret -> bufs <> [] ->
  Z.of_nat (length bufs) <= free_count_ (ring s) ->
  exists kick r h c, AddBuffer bufs out (ring s) = Ok (kick, r) /\ avail_ring r !! Z.to_nat (avail_idx_ (ring s) mod Z.of_nat q) = Some h /\
    avail_idx r = u16 (avail_idx_ (ring s) + 1) /\ buf_references_ r !! h = Some (Some bufs) /\ length c = length bufs /\
    device_view q (desc_ r) h = imap (view (desc_ (ring s)) c out) bufs.
Proof.
  intros Hq H1 Hk Hr Hb Hl. destruct (reach_inv q k s sub ret Hq H1 Hk Hr) as (g & HI & _).
  apply (AddBuffer_view q s g bufs out HI Hb Hl).
Qed.

Lemma AddBuffer_published_witness : exists kick r h c, AddBuffer [demo_buf 100; demo_buf 200] 1 (new_VRing 4) = Ok (kick, r) /\ avail_ring r !! 0%nat = Some h /\
  device_view 4 (desc_ r) h = imap (view (desc_ (new_VRing 4)) c 1) [demo_buf 100; demo_buf 200].
Proof.
  destruct (AddBuffer_published 4 16384 (mkSystem (new_VRing 4) 0 []) [] [] [demo_buf 100; demo_buf 200] 1 ltac:(lia) ltac:(lia) eq_refl (reach_new 4)) as (kick & r & h & c & E & H1 & _ & _ & _ & H2);
    [discriminate | discriminate | by exists kick, r, h, c].
Defined.

(** ** A flag that stays *)

(** [AddBuffer] sets flags and clears none but the chain mark: a descriptor that carried a
    buffer for the device to write is still marked writable when it later carries one that
    the device must only read. *)
Theorem stale_write_flag : exists s b kick r d, reach 4 s [[demo_buf 100]] [b] /\ AddBuffer [demo_buf 200] 1 (ring s) = Ok (kick, r) /\
  desc_ r !! (avail_ring r !!! 1%nat) = Some d /\ d_addr d = 200 /\ Z.land (d_flags d) Write = Write.
Proof.
  assert (exists kick r, AddWritableBuffers [[demo_buf 100]] (new_VRing 4) = Ok ([], kick, r)) as (kick & r & E) by (do 2 eexists; vm_compute; reflexivity).
  assert (reach 4 (mkSystem r 0 []) [[demo_buf 100]] []) as R1.
  { apply (reach_AddWritableBuffers 4 _ [] [] [[demo_buf 100]] [[demo_buf 100]] [] kick r (reach_new 4)); [repeat constructor; done | done | exact E]. }
  vm_compute in E. injection E as <- <-. eapply reach_device in R1; [| by apply (dev_fetch 0 _ 0%nat)].
  eapply reach_device in R1; [| by apply (dev_use 0 _ 0%nat 0%nat [demo_buf 100] [demo_buf 100] 4)].
  apply reach_HasUsedBuffer in R1. eapply (reach_GetBuffer 4 _ _ _ [demo_buf 100]) in R1; [| done | vm_compute; reflexivity].
  do 5 eexists. split; [exact R1 |]. split; [vm_compute; reflexivity |]. vm_compute. done.
Qed.
