(* ===== verification/VirtioNet.v ===== *)
(** * The virtio network driver

    Models src/src/native/VirtioNet.cc and the device set-up of Virtio.h: feature
    negotiation, the queues, sending a packet with its header, and the polling
    receive path with its circular buffer of packets. *)

From S2P Require Import Prelude Pfn Checksum NetIp Messenger Virtio.

(** ** Registers of the device *)

(** A write to the I/O space of the device: the offset, the width in bytes, the value. *)
Inductive reg_write := RegWrite (offset : Z) (width : nat) (value : Z).

Definition kGuestFeatures : Z := 4.
Definition kQueueAddress : Z := 8.
Definition kQueueSelect : Z := 14.
Definition kQueueNotify : Z := 16.
Definition kDeviceStatus : Z := 18.
Definition kQueueVector : Z := 22.
Definition kQueueAddressShift : Z := 12.

Definition kCSum : Z := 0.
Definition kHostTso4 : Z := 11.
Definition kMq : Z := 22.

Definition Virtio_Kick (idx : Z) : reg_write := RegWrite kQueueNotify 2 (u16 idx).

Definition SetQueueAddr (addr : Z) : outcome (list reg_write) :=
  let addr_val := Z.shiftr addr kQueueAddressShift in
  _ ← kassert (addr_val <=? 2 ^ 32 - 1);
  Ok [RegWrite kQueueAddress 4 (u32 addr_val)].

(** The queue of [qsize] descriptors, as the device reports, in the pages at [addr]. *)
Definition InitializeQueue (idx qsize addr : Z) : outcome (VRing * list reg_write) :=
  _ ← kassert (negb (qsize =? 0));
  _ ← ring_order qsize;
  w ← SetQueueAddr addr;
  Ok (new_VRing (Z.to_nat qsize), RegWrite kQueueSelect 2 (u16 idx) :: w ++ [RegWrite kQueueVector 2 (u16 idx)]).

Definition GetDriverFeatures : Z :=
  foldr Z.lor 0 (Z.shiftl 1 <$> [0; 1; 5; 7; 10; 11; 14; 15; 17; 22]).

(** The features that both sides have; some are needed. *)
Definition SetupFeatures (device_features : Z) : Z * reg_write :=
  let subset := Z.land device_features GetDriverFeatures in (subset, RegWrite kGuestFeatures 4 subset).
Definition negotiate (device_features : Z) : outcome (Z * list reg_write) :=
  let '(features, w) := SetupFeatures device_features in
  _ ← kassert (Z.testbit features kMq);
  _ ← kassert (Z.testbit features kCSum);
  _ ← kassert (Z.testbit features kHostTso4);
  Ok (features, [w]).

(** The command that sets the number of queue pairs: class and command, the number, and
    a byte for the device to answer in. *)
Definition mq_command (a1 a2 a3 pairs ack : Z) : packet :=
  [mkBuf a1 [] [4; 0] []; mkBuf a2 [] (to_le16 (u16 pairs)) []; mkBuf a3 [] [ack] []].

(** A read at an address: in one of the buffers that the ring still holds; a buffer that
    was destroyed is no longer there. *)
Definition read_at (a : Z) (q : VRing) : outcome Z :=
  match filter (fun b => b_addr b = a) (concat (omap id (buf_references_ q))) with
  | b :: _ => Ok (byte_at 0 (b_data b))
  | [] => Fail UndefinedBehaviour
  end.

(** The command is sent and its answer awaited; [device] is what the device does meanwhile. *)
Definition set_queue_pairs (a1 a2 a3 pairs ack : Z) (device : VRing -> VRing) (q : VRing) : outcome VRing :=
  '(_, q) ← AddBuffer (mq_command a1 a2 a3 pairs ack) 2 q;
  let '(used, q) := HasUsedBuffer (device q) in
  if negb used then Fail Diverges
  else
    '(_, q) ← ClearUsedBuffers q;
    status ← read_at a3 q;
    _ ← kassert (status =? 0);
    Ok q.

(** ** The representative of a core *)

Record VirtioNetRep := mkRep {
  rcv_queue_ : VRing;
  snd_queue_ : VRing;
  polling : bool;                  (* receive_callback_ is started *)
  circ_buffer_head_ : Z;
  circ_buffer_tail_ : Z;
  circ_buffer_ : list (option packet)
}.
Definition set_rcv (q : VRing) (r : VirtioNetRep) : VirtioNetRep :=
  mkRep q (snd_queue_ r) (polling r) (circ_buffer_head_ r) (circ_buffer_tail_ r) (circ_buffer_ r).
Definition set_snd (q : VRing) (r : VirtioNetRep) : VirtioNetRep :=
  mkRep (rcv_queue_ r) q (polling r) (circ_buffer_head_ r) (circ_buffer_tail_ r) (circ_buffer_ r).
Definition set_polling (b : bool) (r : VirtioNetRep) : VirtioNetRep :=
  mkRep (rcv_queue_ r) (snd_queue_ r) b (circ_buffer_head_ r) (circ_buffer_tail_ r) (circ_buffer_ r).

(** ** Sending *)

Definition sizeofVirtioNetHeader : Z := 12.

(** The header, zeroed, with the fields that the packet asks for. *)
Definition net_header (i : PacketInfo) : list Z :=
  let h := replicate 12 0 in
  let h := if Z.land (pi_flags i) kNeedsCsum =? 0 then h
           else put_bytes 6 (to_le16 (csum_start i)) (put_bytes 8 (to_le16 (csum_offset i)) (<[0%nat := kNeedsCsum]> h)) in
  if gso_type i =? 0 then h
  else put_bytes 4 (to_le16 (gso_size i)) (put_bytes 2 (to_le16 (hdr_len i)) (<[1%nat := u8 (gso_type i)]> h)).

Inductive sent := Queued (kick : bool) | Dropped.

(** With [zero_copy] the header gets a descriptor of its own when there are enough; else
    the packet is copied behind the header, into a buffer at [at_]. *)
Definition VirtioNet_Send (zero_copy : bool) (at_ : Z) (buf : packet) (pinfo : PacketInfo) (rep : VirtioNetRep) : outcome (sent * VirtioNetRep) :=
  '(_, q) ← ClearUsedBuffers (snd_queue_ rep);
  let free_desc := free_count_ q in
  let b :=
    if zero_copy && (Z.of_nat (length buf) <? free_desc) then Some (mkBuf at_ [] (net_header pinfo) [] :: buf)
    else if 1 <=? free_desc then Some [mkBuf at_ [] (net_header pinfo ++ pkt_data buf) []]
    else None in
  match b with
  | None => Ok (Dropped, set_snd q rep)
  | Some b =>
      '(kick, q) ← AddBuffer b (length b) q;
      Ok (Queued kick, set_snd q rep)
  end.

(** ** Receiving *)

(** The interrupt handler. *)
Definition VirtioNet_Receive (rep : VirtioNetRep) : VirtioNetRep :=
  set_polling true (set_rcv (DisableInterrupts (rcv_queue_ rep)) rep).

(** The function given to [ProcessUsedBuffers]. *)
Definition circ_push (rep : VirtioNetRep) (buf : packet) : VirtioNetRep :=
  let cells := <[Z.to_nat (circ_buffer_head_ rep mod 256) := Some buf]> (circ_buffer_ rep) in
  let head := u64 (circ_buffer_head_ rep + 1) in
  let tail := circ_buffer_tail_ rep in
  let tail := if negb (head =? tail) && (head mod 256 =? tail mod 256) then u64 (tail + 1) else tail in
  mkRep (rcv_queue_ rep) (snd_queue_ rep) (polling rep) head tail cells.

Definition circ_pop (rep : VirtioNetRep) : outcome (packet * VirtioNetRep) :=
  _ ← kassert (negb (circ_buffer_head_ rep =? circ_buffer_tail_ rep));
  let i := Z.to_nat (circ_buffer_tail_ rep mod 256) in
  match circ_buffer_ rep !! i with
  | Some (Some b) =>
      Ok (b, mkRep (rcv_queue_ rep) (snd_queue_ rep) (polling rep) (circ_buffer_head_ rep) (u64 (circ_buffer_tail_ rep + 1)) (<[i := None]> (circ_buffer_ rep)))
  | _ => Fail AssertFailed
  end.

Definition kRxBufSize : Z := 65562.

Section Receive.
(** The buffers of a size that [MakeUniqueIOBuf] returns, one after the other. *)
Context (fresh : Z -> nat -> Buf).

Definition FillRxRing (q : VRing) : outcome (bool * VRing) :=
  let num_bufs := Z.to_nat (free_count_ q) in
  let bufs := (fun i => [fresh kRxBufSize i]) <$> seq 0 num_bufs in
  '(rest, kick, q) ← AddWritableBuffers bufs q;
  _ ← kassert (match rest with [] => true | _ => false end);
  Ok (kick, q).

Inductive polled := Delivered (b : packet) | Stopped.

(** What the device does between the moment interrupts are enabled again and the second
    look at the used ring. *)
Context (race : VRing -> VRing).

Definition take_used (rep : VirtioNetRep) : outcome VirtioNetRep :=
  '(bs, q) ← ProcessUsedBuffers (rcv_queue_ rep);
  Ok (foldl circ_push (set_rcv q rep) bs).

Definition deliver (rep : VirtioNetRep) : outcome (polled * VirtioNetRep) :=
  '(b, rep) ← circ_pop rep;
  rep ← (if qsize_ (rcv_queue_ rep) <=? free_count_ (rcv_queue_ rep) * 2
         then '(_, q) ← FillRxRing (rcv_queue_ rep); Ok (set_rcv q rep) else Ok rep);
  _ ← kassert (length b =? 1)%nat;
  b ← pkt_Advance sizeofVirtioNetHeader b;
  Ok (Delivered b, rep).

(** [goto process] is a further round. *)
Fixpoint ReceivePoll (fuel : nat) (rep : VirtioNetRep) : outcome (polled * VirtioNetRep) :=
  match fuel with
  | O => Fail Diverges
  | S fuel =>
      rep ← take_used rep;
      if circ_buffer_head_ rep =? circ_buffer_tail_ rep then
        let q := race (EnableInterrupts (rcv_queue_ rep)) in
        let '(used, q) := HasUsedBuffer q in
        if negb used then Ok (Stopped, set_polling false (set_rcv q rep))
        else ReceivePoll fuel (set_rcv (DisableInterrupts q) rep)
      else deliver rep
  end.
End Receive.

(** The queues of the [i]-th core, of the sizes that the device reports, in the pages at
    [ra] and [sa]; and the representative that uses them. *)
Definition init_pair (fresh : Z -> nat -> Buf) (i rsize ssize ra sa : Z) : outcome (VirtioNetRep * list reg_write) :=
  '(rcv_queue, w1) ← InitializeQueue (i * 2) rsize ra;
  '(snd_queue, w2) ← InitializeQueue (i * 2 + 1) ssize sa;
  '(_, rcv_queue) ← FillRxRing fresh rcv_queue;
  Ok (mkRep rcv_queue (DisableInterrupts snd_queue) false 0 0 (replicate 256 None), w1 ++ w2).
