(* ===== verification/VirtioNetCorrect.v ===== *)
(** * Correctness of the virtio network driver

    The circular buffer is a bounded queue; a poll delivers the packets in the order
    in which the device received them, never fails an assertion, goes round at most
    twice, and stops polling only when no packet is waiting and interrupts are on; a
    packet is sent with its header and its bytes. *)

From S2P Require Import Prelude Pfn Checksum NetIp Messenger Virtio VirtioCorrect VirtioSafe VirtioNet.

(** ** The circular buffer *)

(** The last 255 of a list. *)
Definition keep {A} (l : list A) : list A := drop (length l - 255) l.

Record circ (rep : VirtioNetRep) (l : list packet) : Prop := {
  c_len : (length l <= 255)%nat;
  c_cells : length (circ_buffer_ rep) = 256%nat;
  c_tail : in_u 64 (circ_buffer_tail_ rep);
  c_hd : circ_buffer_head_ rep = u64 (circ_buffer_tail_ rep + Z.of_nat (length l));
  c_slots : forall i p, l !! i = Some p -> circ_buffer_ rep !! Z.to_nat ((circ_buffer_tail_ rep + Z.of_nat i) mod 256) = Some (Some p)
}.

Lemma u64_mod256 x : u64 x mod 256 = x mod 256.
Proof.
  unfold u64, wrap. change (2 ^ 64) with (256 * 2 ^ 56). rewrite Z.rem_mul_r by lia.
  rewrite Z.add_mod, (Z.mul_comm 256), Z.mod_mul, Z.add_0_r, !Z.mod_mod by lia. done.
Qed.

Lemma cell_lt x : (Z.to_nat (x mod 256) < 256)%nat.
Proof. pose proof (Z.mod_pos_bound x 256 ltac:(lia)). lia. Qed.

Lemma cell_ne a i j : (i < 256)%nat -> (j < 256)%nat -> i <> j ->
  Z.to_nat ((a + Z.of_nat i) mod 256) <> Z.to_nat ((a + Z.of_nat j) mod 256).
Proof. intros Hi Hj Hne. apply (slot_nat_ne 256 a i j); lia. Qed.

Lemma u64_plus x y : u64 (u64 x + y) = u64 (x + y).
Proof. unfold u64, wrap. apply Zplus_mod_idemp_l. Qed.

(** Two nearby indices are equal only when they are the same. *)
Lemma u64_near x n : in_u 64 x -> (n <= 256)%nat -> (u64 (x + Z.of_nat n) =? x) = (n =? 0)%nat.
Proof.
  unfold in_u. intros Hx Hn. destruct (n =? 0)%nat eqn:E; bool_to_prop.
  - apply Z.eqb_eq. subst n. rewrite Z.add_0_r. by apply wrap_small.
  - apply Z.eqb_neq. unfold u64, wrap. intros H. Z.to_euclidean_division_equations. lia.
Qed.

Lemma mod256_near x n : (0 < n <= 256)%nat -> (u64 (x + Z.of_nat n) mod 256 =? x mod 256) = (n =? 256)%nat.
Proof.
  intros Hn. rewrite u64_mod256. destruct (n =? 256)%nat eqn:E; bool_to_prop.
  - apply Z.eqb_eq. subst n. Z.to_euclidean_division_equations. lia.
  - apply Z.eqb_neq. intros H. Z.to_euclidean_division_equations. lia.
Qed.

Lemma keep_short {A} (l : list A) : (length l <= 255)%nat -> keep l = l.
Proof. intros H. unfold keep. by replace (length l - 255)%nat with 0%nat by lia. Qed.

Lemma keep_len {A} (l : list A) : (length (keep l) <= 255)%nat.
Proof. unfold keep. rewrite length_drop. lia. Qed.

Lemma keep_keep {A} (l m : list A) : keep (keep l ++ m) = keep (l ++ m).
Proof.
  unfold keep. rewrite !length_app, length_drop. destruct (decide (length l <= 255)%nat) as [H|H].
  - by replace (length l - 255)%nat with 0%nat by lia; rewrite Nat.sub_0_r.
  - rewrite <- (drop_app_le l m (length l - 255)) by lia. rewrite drop_drop. f_equal. lia.
Qed.

(** The packet goes to the end; of 256, the oldest is given up. *)
Lemma circ_push_spec rep l b : circ rep l -> circ (circ_push rep b) (keep (l ++ [b])) /\ rcv_queue_ (circ_push rep b) = rcv_queue_ rep /\
  snd_queue_ (circ_push rep b) = snd_queue_ rep /\ polling (circ_push rep b) = polling rep.
Proof.
  intros [H1 H2 H3 H4 H5]. split; [| done]. unfold circ_push. rewrite H4, u64_plus.
  replace (circ_buffer_tail_ rep + Z.of_nat (length l) + 1) with (circ_buffer_tail_ rep + Z.of_nat (S (length l))) by lia.
  rewrite u64_near, mod256_near, u64_mod256 by (done || lia).
  assert (forall i p, (l ++ [b]) !! i = Some p ->
    <[Z.to_nat ((circ_buffer_tail_ rep + Z.of_nat (length l)) mod 256) := Some b]> (circ_buffer_ rep) !! Z.to_nat ((circ_buffer_tail_ rep + Z.of_nat i) mod 256) = Some (Some p)) as Hs.
  { intros i p Hp. apply lookup_app_Some in Hp as [Hp|[Hi Hp]].
    - pose proof (lookup_lt_Some _ _ _ Hp). rewrite list_lookup_insert_ne by (apply cell_ne; lia). by apply H5.
    - apply list_lookup_singleton_Some in Hp as [Hi0 <-]. replace i with (length l) by lia. apply list_lookup_insert_eq. rewrite H2. apply cell_lt. }
  destruct (S (length l) =? 256)%nat eqn:E; bool_to_prop; cbn [Nat.eqb negb andb].
  - assert (length (l ++ [b]) = 256)%nat as Hl by (rewrite length_app; cbn; lia). split; cbn [circ_buffer_ circ_buffer_head_ circ_buffer_tail_].
    + apply keep_len.
    + by rewrite length_insert.
    + apply wrap_range. lia.
    + rewrite u64_plus. unfold keep. rewrite length_drop, Hl. f_equal. lia.
    + intros i p Hp. unfold keep in Hp. rewrite lookup_drop, Hl in Hp. apply Hs in Hp. rewrite <- Hp. do 2 f_equal.
      rewrite <- Z.add_mod_idemp_l, u64_mod256, Z.add_mod_idemp_l by lia. f_equal. lia.
  - rewrite keep_short by (rewrite length_app; cbn; lia). split; cbn [circ_buffer_ circ_buffer_head_ circ_buffer_tail_]; try done.
    + rewrite length_app. cbn. lia.
    + by rewrite length_insert.
    + rewrite length_app. cbn. do 2 f_equal. lia.
Qed.

Lemma circ_pushes_spec bs : forall rep l, circ rep l -> circ (foldl circ_push rep bs) (keep (l ++ bs)) /\
  rcv_queue_ (foldl circ_push rep bs) = rcv_queue_ rep /\ snd_queue_ (foldl circ_push rep bs) = snd_queue_ rep /\ polling (foldl circ_push rep bs) = polling rep.
Proof.
  induction bs as [|b bs IH]; intros rep l H; cbn [foldl].
  - rewrite app_nil_r, keep_short by apply H. done.
  - destruct (circ_push_spec rep l b H) as (Hc & E1 & E2 & E3). destruct (IH _ _ Hc) as (Hc' & F1 & F2 & F3).
    rewrite keep_keep, <- app_assoc in Hc'. split_and!; [exact Hc' | congruence..].
Qed.

Lemma circ_empty rep l : circ rep l -> (circ_buffer_head_ rep =? circ_buffer_tail_ rep) = (length l =? 0)%nat.
Proof. intros [H1 H2 H3 H4 H5]. rewrite H4. apply u64_near; [done | lia]. Qed.

Lemma circ_pop_spec rep b l : circ rep (b :: l) -> exists rep', circ_pop rep = Ok (b, rep') /\ circ rep' l /\ rcv_queue_ rep' = rcv_queue_ rep /\
  snd_queue_ rep' = snd_queue_ rep /\ polling rep' = polling rep.
Proof.
  intros H. unfold circ_pop. rewrite (circ_empty _ _ H). cbn [length Nat.eqb negb kassert]. rewrite bind_Ok.
  pose proof (c_slots _ _ H 0%nat b eq_refl) as Hb. rewrite Z.add_0_r in Hb. rewrite Hb. eexists. split; [done |]. split; [| done].
  destruct H as [H1 H2 H3 H4 H5]. cbn [length] in H1, H4. split; cbn [circ_buffer_ circ_buffer_head_ circ_buffer_tail_].
  - lia.
  - by rewrite length_insert.
  - apply wrap_range. lia.
  - rewrite H4, u64_plus. f_equal. lia.
  - intros i p Hp. pose proof (lookup_lt_Some _ _ _ Hp) as Hi. pose proof (cell_ne (circ_buffer_tail_ rep) 0 (S i) ltac:(lia) ltac:(lia) ltac:(lia)) as Hne.
    rewrite Z.add_0_r in Hne.
    replace ((u64 (circ_buffer_tail_ rep + 1) + Z.of_nat i) mod 256) with ((circ_buffer_tail_ rep + Z.of_nat (S i)) mod 256).
    + rewrite list_lookup_insert_ne by done. by apply H5.
    + rewrite <- (Z.add_mod_idemp_l (u64 _)), u64_mod256, Z.add_mod_idemp_l by lia. f_equal. lia.
Qed.

(** ** The order of used buffers *)

(** The [i]-th buffer that the device has returned and the driver has not taken, cut to
    what the device wrote. *)
Definition used_packet (r : VRing) (i : nat) : option packet :=
  match used_ring r !! Z.to_nat ((last_used_ r + Z.of_nat i) mod qsize_ r) with
  | Some (h, len) => match buf_references_ r !! h with Some (Some b) => Some (trim len b) | _ => None end
  | None => None
  end.

Lemma done_nodup q s g : Inv q s g -> NoDup (done_ g).*1.
Proof.
  intros HI. pose proof (heads_nodup _ _ _ HI) as Hn. rewrite (i_heads _ _ _ HI) in Hn. by apply NoDup_app in Hn as (_ & _ & (_ & _ & Hn)%NoDup_app).
Qed.

Lemma reclaim_order q s g buf len r : Inv q s g -> used_head_ (ring s) <> last_used_ (ring s) -> reclaim (ring s) = Ok (buf, len, r) ->
  used_packet (ring s) 0 = Some (trim len buf) /\ forall i, (S i < length (done_ g))%nat -> used_packet r i = used_packet (ring s) (S i).
Proof.
  intros HI Hne E. destruct (i_q _ _ _ HI) as [Hq (k & Hk1 & Hk)]. unfold reclaim in E. unfold used_packet at 1. rewrite Z.add_0_r.
  destruct (used_ring (ring s) !! Z.to_nat (last_used_ (ring s) mod qsize_ (ring s))) as [[id n]|] eqn:Eu; [| done].
  destruct (buf_references_ (ring s) !! id) as [[b|]|] eqn:Er; [| done | done].
  apply bind_ok in E as ([z m] & _ & [= <- <- <-]). split; [done |]. intros i Hi.
  destruct (done_ g) as [|[h0 l0] dn] eqn:Ed; [cbn in Hi; lia |]. destruct (lookup_lt_is_Some_2 dn i) as [[h1 l1] Hd]; [cbn in Hi; lia |].
  pose proof (i_done _ _ _ HI 0%nat (h0, l0)) as D0. pose proof (i_done _ _ _ HI (S i) (h1, l1)) as D1. rewrite Ed in D0, D1.
  specialize (D0 eq_refl). specialize (D1 Hd). rewrite Z.add_0_r in D0. rewrite (i_size _ _ _ HI) in Eu. rewrite Eu in D0. injection D0 as -> ->.
  assert (h1 <> h0) as Hneq.
  { pose proof (done_nodup _ _ _ HI) as Hn. rewrite Ed in Hn. apply NoDup_cons in Hn as [Hn _]. intros ->. apply Hn. apply list_elem_of_lookup_2 in Hd.
    by apply (list_elem_of_fmap_2 fst) in Hd. }
  unfold used_packet. cbn [set_last_used set_ref set_descs used_ring last_used_ qsize_ buf_references_]. rewrite (i_size _ _ _ HI).
  replace ((u16 (last_used_ (ring s) + 1) + Z.of_nat i) mod Z.of_nat q) with ((last_used_ (ring s) + Z.of_nat (S i)) mod Z.of_nat q).
  - rewrite D1, list_lookup_insert_ne by done. done.
  - rewrite <- (Z.add_mod_idemp_l (u16 _)), (u16_mod q k), Z.add_mod_idemp_l by (done || lia). f_equal. lia.
Qed.

(** ** The receive ring *)

(** Each buffer of the receive ring is a single one, and the device fills in the header. *)
Definition Rx (q : nat) (s : System) (g : Ghost) : Prop :=
  Inv q s g /\ Forall (fun b => length b = 1%nat) (bufs_of g) /\ Forall (fun e => 12 <= e.2) (done_ g).

Definition good (p : packet) : Prop := length p = 1%nat /\ 12 <= pkt_len p.

Lemma trim_length p len : length (trim len p) = length p.
Proof. pose proof (f_equal length (trim_ids p len)) as H. unfold ids in H. by rewrite !length_fmap in H. Qed.

Lemma get_rx q s g : Rx q s g -> used_head_ (ring s) <> last_used_ (ring s) ->
  exists b r g', GetBuffer (ring s) = Ok (b, r) /\ Rx q (with_ring s r) g' /\ good b /\ used_packet (ring s) 0 = Some b /\
    (forall i, (S i < length (done_ g))%nat -> used_packet r i = used_packet (ring s) (S i)) /\ length (done_ g) = S (length (done_ g')) /\
    used_head_ r = used_head_ (ring s) /\ last_used_ r = u16 (last_used_ (ring s) + 1) /\ avail_flags r = avail_flags (ring s).
Proof.
  intros (HI & Hb & Hd) Hne. destruct (reclaim_step q s g HI Hne) as (buf & len & r & g' & E & HI' & Hp & Hlen & Hu & Hl & h & Hh).
  destruct (reclaim_order q s g buf len r HI Hne E) as [H0 HS]. rewrite Hh in Hd. apply Forall_cons in Hd as [Hd1 Hd]. cbn in Hd1.
  rewrite Hp in Hb. apply Forall_cons in Hb as [Hb1 Hb].
  exists (trim len buf), r, g'. unfold GetBuffer. rewrite E, bind_Ok, (trim_len _ _ Hlen), Z.eqb_refl. cbn [kassert]. rewrite bind_Ok.
  split; [done |]. split; [done |]. split; [split; [by rewrite trim_length | by rewrite trim_len] |]. split; [done |]. split; [done |].
  split; [by rewrite Hh |]. split; [done |]. split; [done |].
  unfold reclaim in E. repeat case_match; try done. by apply bind_ok in E as ([? ?] & _ & [= _ _ <-]).
Qed.

Lemma process_rx q : forall n s g, Rx q s g -> u16 (used_head_ (ring s) - last_used_ (ring s)) = Z.of_nat n ->
  exists bs r g', process_loop n (ring s) = Ok (bs, r) /\ Rx q (with_ring s r) g' /\ Forall good bs /\ length bs = n /\
    (forall i, (i < n)%nat -> bs !! i = used_packet (ring s) i) /\ used_head_ r = used_head_ (ring s) /\ last_used_ r = used_head_ (ring s) /\
    avail_flags r = avail_flags (ring s).
Proof.
  induction n as [|n IH]; intros s g HR Hn; cbn [process_loop].
  - exists [], (ring s), g. split; [done |]. split; [by destruct s |]. do 3 (split; [done || (intros; lia) |]). split; [done |].
    split; [symmetry; by eapply pending_zero; [apply HR |] | done].
  - destruct (pending_pred _ _ _ _ (proj1 HR) Hn) as [Hne Hn'].
    destruct (get_rx q s g HR Hne) as (b & r & g1 & E & HR1 & Hg & H0 & HS & Hd & Hu & Hl & Hf). rewrite E, bind_Ok. rewrite <- Hu, <- Hl in Hn'.
    destruct (inv_pending _ _ _ (proj1 HR)) as (k & Hk & Ek & _). rewrite Hn in Ek. assert (k = S n) as -> by lia.
    destruct (IH _ _ HR1 Hn') as (bs & r' & g' & E' & HR' & Hgs & Hlb & Ho & Hu' & Hl' & Hf'). cbn [ring with_ring] in *. rewrite E', bind_Ok.
    do 3 eexists. split; [done |]. split; [exact HR' |]. split; [by constructor |]. split; [cbn; lia |]. split; [| split; [congruence | split; congruence]].
    intros [|i] Hi; [by rewrite H0 |]. cbn. rewrite Ho by lia. apply HS. lia.
Qed.

(** [bs] are the buffers that the device has returned and the driver not taken, in the
    order of the used ring. *)
Definition all_used (r : VRing) (bs : list packet) : Prop :=
  Z.of_nat (length bs) = u16 (used_idx r - last_used_ r) /\ forall i, (i < length bs)%nat -> bs !! i = used_packet r i.

Lemma ProcessUsedBuffers_rx q s g : Rx q s g -> exists bs r g', ProcessUsedBuffers (ring s) = Ok (bs, r) /\ Rx q (with_ring s r) g' /\ Forall good bs /\
  all_used (ring s) bs /\ used_head_ r = used_idx (ring s) /\ last_used_ r = used_idx (ring s) /\ avail_flags r = avail_flags (ring s).
Proof.
  intros (HI & Hb & Hd). destruct (load_used_pending q s g HI) as (n & Hn & _).
  destruct (process_rx q n (with_ring s (load_used (ring s))) g) as (bs & r & g' & E & HR & Hg & Hl & Ho & Hu & Hlu & Hf).
  { split; [by apply load_used_keeps | done]. }
  { exact Hn. }
  exists bs, r, g'. cbn [ring with_ring] in *. unfold ProcessUsedBuffers. rewrite Hn, Nat2Z.id. split; [done |]. split; [done |]. split; [done |].
  split; [| done]. split; [by rewrite Hl, <- Hn |]. intros i Hi. apply Ho. lia.
Qed.

(** *** Refilling *)

Lemma add_writable_singles chains : forall r rest r', Forall (fun b => length b = 1%nat) chains -> add_writable chains r = Ok (rest, r') ->
  (Z.of_nat (length chains) <= free_count_ r -> rest = [] /\ free_count_ r' = free_count_ r - Z.of_nat (length chains)) /\
  avail_flags r' = avail_flags r.
Proof.
  induction chains as [|b chains IH]; intros r rest r' Hs E; cbn [add_writable] in E.
  - injection E as <- <-. cbn. split; [intros _; split; [done | lia] | done].
  - apply Forall_cons in Hs as [Hb Hs]. rewrite Hb in E. destruct (free_count_ r <? Z.of_nat 1) eqn:El; bool_to_prop.
    + injection E as <- <-. split; [cbn; lia | done].
    + apply bind_ok in E as (r1 & E1 & E). apply bind_ok in E as (_ & _ & E). unfold add_chain in E1. apply bind_ok in E1 as ([[ds fh] ld] & _ & [= <-]).
      apply IH in E as [E1 E2]; [| done]. cbn in E1, E2. rewrite Hb in E1. split; [| done]. cbn [length]. intros H. destruct E1 as [-> ->]; [lia |]. split; [done | lia].
Qed.

Lemma FillRxRing_rx fresh q s g : Rx q s g -> exists kick r g', FillRxRing fresh (ring s) = Ok (kick, r) /\ Rx q (with_ring s r) g' /\
  free_count_ r = 0 /\ avail_flags r = avail_flags (ring s).
Proof.
  intros (HI & Hb & Hd). pose proof (i_count _ _ _ HI) as Hc. unfold FillRxRing. set (n := Z.to_nat (free_count_ (ring s))).
  set (chains := (fun i => [fresh kRxBufSize i]) <$> seq 0 n). assert (length chains = n) as Hlen by (unfold chains; by rewrite length_fmap, length_seq).
  assert (Forall (fun b => length b = 1%nat) chains) as Hs by (apply Forall_fmap, Forall_forall; done).
  destruct (add_writable_keeps q chains s g HI) as (rest & r & g' & E & HI' & added & Hca & Hg & _ & _ & Hdn).
  { rewrite Forall_forall in Hs |- *. intros b Hin ->. by specialize (Hs [] Hin). }
  destruct (add_writable_singles _ _ _ _ Hs E) as [Hf Hfl]. destruct Hf as [-> Hf]; [lia |]. rewrite app_nil_r in Hca. subst added.
  assert (Rx q (mkSystem r (seen s) (owned s)) g') as HR.
  { split; [done |]. rewrite Hg, Hdn. split; [by apply Forall_app | done]. }
  destruct chains as [|c cs] eqn:Ec.
  - cbn in E. injection E as <-. exists false, (ring s), g. split; [done |]. split; [by destruct s | split; [lia | done]].
  - unfold AddWritableBuffers. rewrite E, bind_Ok, bind_Ok. cbn [kassert]. rewrite bind_Ok. do 3 eexists. split; [done |].
    split; [split; [exact (publish_keeps _ _ _ (proj1 HR)) | exact (proj2 HR)] |]. split; [cbn [publish free_count_]; lia | done].
Qed.

(** ** A poll *)

Record RxState (q : nat) (rep : VirtioNetRep) (sn : Z) (ow : list nat) (g : Ghost) (l : list packet) : Prop := {
  rx_ring : Rx q (mkSystem (rcv_queue_ rep) sn ow) g;
  rx_circ : circ rep l;
  rx_good : Forall good l
}.

Lemma keep_good l : Forall good l -> Forall good (keep l).
Proof. apply Forall_drop. Qed.

Lemma circ_set_rcv rep l r : circ rep l -> circ (set_rcv r rep) l.
Proof. by intros [H1 H2 H3 H4 H5]. Qed.

Lemma take_used_spec q rep sn ow g l : RxState q rep sn ow g l -> exists bs r rep' g', ProcessUsedBuffers (rcv_queue_ rep) = Ok (bs, r) /\
  take_used rep = Ok rep' /\ RxState q rep' sn ow g' (keep (l ++ bs)) /\ all_used (rcv_queue_ rep) bs /\ rcv_queue_ rep' = r /\
  used_head_ r = last_used_ r /\ avail_flags r = avail_flags (rcv_queue_ rep) /\ snd_queue_ rep' = snd_queue_ rep /\ polling rep' = polling rep.
Proof.
  intros [HR Hc Hg]. destruct (ProcessUsedBuffers_rx _ _ _ HR) as (bs & r & g' & E & HR' & Hgb & Hu & H1 & H2 & H3). cbn [ring] in *.
  destruct (circ_pushes_spec bs (set_rcv r rep) l (circ_set_rcv _ _ _ Hc)) as (Hc' & F1 & F2 & F3).
  exists bs, r, (foldl circ_push (set_rcv r rep) bs), g'. split; [done |]. split; [unfold take_used; by rewrite E |].
  split; [split; [rewrite F1; exact HR' | done | apply keep_good; by apply Forall_app] |].
  split; [done |]. split; [done |]. split; [congruence |]. done.
Qed.

Lemma Advance_good p : good p -> exists b, pkt_Advance sizeofVirtioNetHeader p = Ok b /\ length b = 1%nat /\ pkt_data b = drop 12 (pkt_data p).
Proof.
  intros [Hl Hp]. destruct p as [|x [|? ?]]; [done | | done]. unfold pkt_len, pkt_data in *. cbn in Hp. rewrite app_nil_r in Hp. cbn [pkt_Advance].
  assert ((sizeofVirtioNetHeader <=? Z.of_nat (length (b_data x))) = true) as -> by (apply Z.leb_le; done).
  cbn [kassert]. rewrite bind_Ok. eexists. split; [done |]. split; [done |]. cbn. by rewrite !app_nil_r.
Qed.

Lemma deliver_spec fresh q rep sn ow g p l : RxState q rep sn ow g (p :: l) -> exists b rep' g', deliver fresh rep = Ok (Delivered b, rep') /\
  pkt_data b = drop 12 (pkt_data p) /\ RxState q rep' sn ow g' l /\ snd_queue_ rep' = snd_queue_ rep /\ polling rep' = polling rep.
Proof.
  intros [HR Hc Hg]. destruct (circ_pop_spec rep p l Hc) as (rep1 & E & Hc1 & F1 & F2 & F3). unfold deliver. rewrite E, bind_Ok.
  apply Forall_cons in Hg as [Hp Hg]. destruct (Advance_good p Hp) as (b & Eb & _ & Hb). rewrite <- F1 in HR.
  assert (exists rep' g', (if qsize_ (rcv_queue_ rep1) <=? free_count_ (rcv_queue_ rep1) * 2
    then '(_, q) ← FillRxRing fresh (rcv_queue_ rep1); Ok (set_rcv q rep1) else Ok rep1) = Ok rep' /\ RxState q rep' sn ow g' l /\
    snd_queue_ rep' = snd_queue_ rep1 /\ polling rep' = polling rep1) as (rep' & g' & Er & HR' & G1 & G2).
  { destruct (_ <=? _); [| exists rep1, g; split; [done |]; by split].
    destruct (FillRxRing_rx fresh _ _ _ HR) as (kick & r & g' & Ef & HR' & _). cbn [ring] in Ef. rewrite Ef, bind_Ok.
    exists (set_rcv r rep1), g'. split; [done |]. split; [| done]. split; [exact HR' | by apply circ_set_rcv | done]. }
  rewrite Er, bind_Ok, (proj1 Hp). cbn [kassert Nat.eqb]. rewrite bind_Ok, Eb, bind_Ok. exists b, rep', g'. split_and!; [done | done | done | congruence..].
Qed.

Lemma singles_ids (l l' : list packet) : ids <$> l' = ids <$> l -> Forall (fun b => length b = 1%nat) l -> Forall (fun b => length b = 1%nat) l'.
Proof.
  intros E H. assert (Forall (fun i => length i = 1%nat) (ids <$> l)) as Hi by (apply Forall_fmap; eapply Forall_impl; [exact H | intros b Hb; cbn; unfold ids; by rewrite length_fmap]).
  rewrite <- E in Hi. apply Forall_fmap in Hi. eapply Forall_impl; [exact Hi | intros b Hb; cbn in Hb; unfold ids in Hb; by rewrite length_fmap in Hb].
Qed.

Lemma same_driver_trans r1 r2 r3 : same_driver r1 r2 -> same_driver r2 r3 -> same_driver r1 r3.
Proof. unfold same_driver. intuition congruence. Qed.

Lemma dev_steps_rx q s s' : rtc (dev_step 12) s s' -> forall g, Rx q s g -> exists g', Rx q s' g' /\ same_driver (ring s) (ring s').
Proof.
  induction 1 as [s|s s1 s2 H1 _ IH]; intros g (HI & Hb & Hd); [by exists g |].
  destruct (dev_step_keeps q 12 s g s1 HI H1) as (g1 & HI1 & Hi & Hdn & Hsd). destruct (IH g1) as (g' & HR & Hsd').
  - split; [done |]. split; [by apply (singles_ids (bufs_of g)) |]. destruct Hdn as [->|(h & len & Hl & ->)]; [done |].
    apply Forall_app. split; [done |]. by constructor.
  - exists g'. split; [done | by eapply same_driver_trans].
Qed.

(** The device as it may act, at a moment when it has seen [sn] and owns [ow], and at any moment. *)
Definition device_at (P : Z -> list nat -> Prop) (race : VRing -> VRing) (sn : Z) (ow : list nat) : Prop :=
  forall r, exists sn' ow', P sn' ow' /\ rtc (dev_step 12) (mkSystem r sn ow) (mkSystem (race r) sn' ow').
Definition device_ok (race : VRing -> VRing) : Prop :=
  forall r sn ow, exists sn' ow', rtc (dev_step 12) (mkSystem r sn ow) (mkSystem (race r) sn' ow').

Lemma used_none q s g : Inv q s g -> used_head_ (ring s) = last_used_ (ring s) -> (HasUsedBuffer (ring s)).1 = false ->
  used_idx (ring s) = last_used_ (ring s).
Proof.
  intros HI Hh. unfold HasUsedBuffer. rewrite Hh, Z.eqb_refl. cbn [fst load_used last_used_ used_head_]. intros H. bool_to_prop. done.
Qed.

Lemma used_some q s g bs : Inv q s g -> used_head_ (ring s) = last_used_ (ring s) -> (HasUsedBuffer (ring s)).1 = true -> all_used (ring s) bs -> bs <> [].
Proof.
  intros HI Hh. unfold HasUsedBuffer. rewrite Hh, Z.eqb_refl. cbn [fst load_used last_used_ used_head_]. intros H [Hl _] ->. bool_to_prop. apply H.
  pose proof (pending_zero q _ g (load_used_keeps _ _ _ HI)) as Hp. cbn in Hp. symmetry. apply Hp. by rewrite <- Hl.
Qed.

Lemma keep_nonempty {A} (l : list A) : l <> [] -> exists p t, keep l = p :: t.
Proof.
  intros H. destruct (keep l) as [|p t] eqn:E; [| by exists p, t]. exfalso. apply (f_equal length) in E. unfold keep in E. rewrite length_drop in E.
  destruct l; [done |]. cbn [length] in E. lia.
Qed.

(** What a poll leaves behind: the first waiting packet is delivered without its header; or
    none waits, polling has stopped and the device will interrupt. *)
Definition poll_result (q : nat) (res : polled) (rep' : VirtioNetRep) (sn : Z) (ow : list nat) (waiting : list packet) (polling0 : bool) : Prop :=
  match res with
  | Delivered b => exists p t g, keep waiting = p :: t /\ pkt_data b = drop 12 (pkt_data p) /\ RxState q rep' sn ow g t /\ polling rep' = polling0
  | Stopped => waiting = [] /\ polling rep' = false /\ avail_flags (rcv_queue_ rep') = 0 /\ used_idx (rcv_queue_ rep') = last_used_ (rcv_queue_ rep') /\
      exists g, RxState q rep' sn ow g []
  end.

(** A round with something to deliver. *)
Lemma poll_delivers fresh race q fuel rep sn ow g l bs : RxState q rep sn ow g l -> all_used (rcv_queue_ rep) bs -> l ++ bs <> [] ->
  exists b rep', ReceivePoll fresh race (S fuel) rep = Ok (Delivered b, rep') /\ poll_result q (Delivered b) rep' sn ow (l ++ bs) (polling rep) /\ snd_queue_ rep' = snd_queue_ rep.
Proof.
  intros HS Hu Hne. destruct (take_used_spec _ _ _ _ _ _ HS) as (bs' & r & rep1 & g1 & _ & E & HS1 & Hu' & _ & _ & _ & Hs & Hp).
  assert (bs' = bs) as ->.
  { destruct Hu as [L1 U1], Hu' as [L2 U2]. assert (length bs' = length bs) as L by lia. apply list_eq_same_length with (length bs); [done | done |].
    intros i x y Hi Hx Hy. rewrite U2 in Hx by lia. rewrite U1 in Hy by lia. congruence. }
  cbn [ReceivePoll]. rewrite E, bind_Ok, (circ_empty _ _ (rx_circ _ _ _ _ _ _ HS1)).
  destruct (keep_nonempty _ Hne) as (p & t & Ek). rewrite Ek in HS1 |- *. cbn [length Nat.eqb].
  destruct (deliver_spec fresh _ _ _ _ _ _ _ HS1) as (b & rep' & g' & Ed & Hd & HS' & F1 & F2). exists b, rep'. split; [done |].
  split; [| congruence]. exists p, t, g'. split_and!; [done | done | done | congruence].
Qed.

Lemma Rx_flags q s g f : Rx q s g -> Rx q (with_ring s (set_avail_flags f (ring s))) g.
Proof. intros (HI & H). split; [by apply flags_keep | done]. Qed.

(** An empty round: interrupts go on, and the used ring is looked at again. *)
Lemma poll_empty P fresh race q fuel rep sn ow g : device_at P race sn ow -> RxState q rep sn ow g [] -> all_used (rcv_queue_ rep) [] ->
  exists r1 rep1, ProcessUsedBuffers (rcv_queue_ rep) = Ok ([], r1) /\ rcv_queue_ rep1 = r1 /\ snd_queue_ rep1 = snd_queue_ rep /\ polling rep1 = polling rep /\
  let r2 := race (EnableInterrupts r1) in
  ReceivePoll fresh race (S fuel) rep =
    (if negb (HasUsedBuffer r2).1 then Ok (Stopped, set_polling false (set_rcv (HasUsedBuffer r2).2 rep1))
     else ReceivePoll fresh race fuel (set_rcv (DisableInterrupts (HasUsedBuffer r2).2) rep1)) /\
  circ rep1 [] /\ used_head_ r2 = last_used_ r2 /\ avail_flags r2 = 0 /\ exists sn2 ow2 g2, P sn2 ow2 /\ Rx q (mkSystem r2 sn2 ow2) g2.
Proof.
  intros Hok HS Hu. destruct (take_used_spec _ _ _ _ _ _ HS) as (bs & r1 & rep1 & g1 & Ep & E & HS1 & Hu' & Er & Hh & Hf & Hs & Hp).
  assert (bs = []) as -> by (destruct Hu as [L1 _], Hu' as [L2 _]; rewrite <- L1 in L2; destruct bs; [done | cbn in L2; lia]).
  exists r1, rep1. split; [done |]. split; [done |]. split; [done |]. split; [done |]. intros r2.
  destruct HS1 as [HR Hc _]. cbn [app keep drop length Nat.sub] in Hc. split.
  { cbn [ReceivePoll]. rewrite E, bind_Ok, (circ_empty _ _ Hc), Er. cbn [length Nat.eqb]. fold r2. by destruct (HasUsedBuffer r2). }
  split; [done |]. rewrite Er in HR. pose proof (Rx_flags _ _ _ 0 HR) as HR0. cbn [ring with_ring] in HR0.
  destruct (Hok (EnableInterrupts r1)) as (sn2 & ow2 & HP & Hst).
  destruct (dev_steps_rx q _ _ Hst g1 HR0) as (g2 & HR2 & D1 & D2 & D3 & _). cbn [ring EnableInterrupts set_avail_flags last_used_ used_head_ avail_flags] in D1, D2, D3.
  fold r2 in D1, D2, D3, HR2. split; [congruence |]. split; [done |]. by exists sn2, ow2, g2.
Qed.

Lemma ReceivePoll_spec P fresh race q rep sn ow g l : device_at P race sn ow -> P sn ow -> RxState q rep sn ow g l ->
  exists res rep' bs bs2 sn' ow', ReceivePoll fresh race 2 rep = Ok (res, rep') /\ all_used (rcv_queue_ rep) bs /\
    (l ++ bs <> [] -> bs2 = []) /\ (l ++ bs = [] -> exists r1, ProcessUsedBuffers (rcv_queue_ rep) = Ok ([], r1) /\ all_used (race (EnableInterrupts r1)) bs2) /\
    P sn' ow' /\ poll_result q res rep' sn' ow' (l ++ bs ++ bs2) (polling rep) /\ snd_queue_ rep' = snd_queue_ rep.
Proof.
  intros Hok HP HS. destruct (take_used_spec _ _ _ _ _ _ HS) as (bs & r & _ & _ & _ & _ & _ & Hu & _).
  destruct (decide (l ++ bs = [])) as [Hn|Hn].
  2: { destruct (poll_delivers fresh race q 1 rep sn ow g l bs HS Hu Hn) as (b & rep' & E & Hr & Hs).
       exists (Delivered b), rep', bs, [], sn, ow. rewrite app_nil_r. by split_and!. }
  apply app_eq_nil in Hn as [-> ->].
  destruct (poll_empty P fresh race q 1 rep sn ow g Hok HS Hu) as (r1 & rep1 & Ep & Er & Hs & Hp & E & Hc & Hh & Hf & sn2 & ow2 & g2 & HP2 & HR2).
  rewrite E. set (r2 := race (EnableInterrupts r1)) in *. destruct (HasUsedBuffer r2) as [used q2] eqn:EH. destruct used; cbn [fst snd negb].
  - destruct (ProcessUsedBuffers_rx _ _ _ HR2) as (bs2 & _ & _ & _ & _ & _ & Hu2 & _). cbn [ring] in Hu2.
    assert (bs2 <> []) as Hne by (eapply (used_some q (mkSystem r2 sn2 ow2) g2); [apply HR2 | done | cbn [ring]; by rewrite EH | done]).
    assert (RxState q (set_rcv (DisableInterrupts q2) rep1) sn2 ow2 g2 []) as HS2.
    { split; [| by apply circ_set_rcv | done]. pose proof (HasUsedBuffer_keeps _ _ _ (proj1 HR2)) as HI3. cbn [ring with_ring] in HI3. rewrite EH in HI3.
      split; [exact (flags_keep _ _ _ kNoInterrupt HI3) | apply HR2]. }
    assert (all_used (DisableInterrupts q2) bs2) as Hu3.
    { unfold HasUsedBuffer in EH. apply (f_equal snd) in EH. cbn [snd] in EH. rewrite <- EH. destruct (_ =? _); exact Hu2. }
    destruct (poll_delivers fresh race q 0 _ sn2 ow2 g2 [] bs2 HS2 Hu3 Hne) as (b & rep' & E' & Hr & Hs').
    exists (Delivered b), rep', [], bs2, sn2, ow2. split_and!; [done | done | done | intros _; by exists r1 | done | | by rewrite Hs'].
    cbn [app] in *. by rewrite <- Hp.
  - exists Stopped. eexists _, [], [], sn2, ow2. split; [done |]. split; [done |]. split; [done |].
    assert (used_idx r2 = last_used_ r2) as Hz by (apply (used_none q (mkSystem r2 sn2 ow2) g2); [apply HR2 | done | cbn [ring]; by rewrite EH]).
    assert (q2 = load_used r2) as ->.
    { unfold HasUsedBuffer in EH. rewrite Hh, Z.eqb_refl in EH. by injection EH. }
    split; [intros _; exists r1; split; [done |]; split; [| cbn; lia]; fold r2; by rewrite Hz, Z.sub_diag |]. split; [done |]. split; [| done].
    split; [done |]. split; [done |]. split; [done |]. split; [done |]. exists g2. split; [| by destruct Hc | done].
    split; [exact (load_used_keeps _ _ _ (proj1 HR2)) | apply HR2].
Qed.

(** What follows of a poll for the states of the driver. *)
Lemma poll_keeps fresh q rep sn ow g l : RxState q rep sn ow g l -> exists res rep' g' l', ReceivePoll fresh id 2 rep = Ok (res, rep') /\
  RxState q rep' sn ow g' l' /\ snd_queue_ rep' = snd_queue_ rep.
Proof.
  intros HS. destruct (ReceivePoll_spec (fun sn' ow' => sn' = sn /\ ow' = ow) fresh id q rep sn ow g l) as (res & rep' & bs & bs2 & sn' & ow' & E & _ & _ & _ & [-> ->] & Hr & Hs);
    [intros r; exists sn, ow; split; [done | apply rtc_refl] | done | done |].
  destruct res as [b|]; [destruct Hr as (p & t & g' & _ & _ & HS' & _) | destruct Hr as (_ & _ & _ & _ & g' & HS')]; do 4 eexists; by split_and!.
Qed.


(** ** Sending *)

(** No descriptor of the send queue lets the device write. *)
Definition NoWrite (ds : list Desc) : Prop := Forall (fun d => writable d = false) ds.

Lemma NoWrite_alter f z ds : (forall d, writable (f d) = writable d) -> NoWrite ds -> NoWrite (alter f z ds).
Proof. intros Hf H. apply Forall_alter; [done |]. intros d _ Hd. by rewrite Hf. Qed.

Lemma fill_NoWrite bufs : forall out ds fh last0 ds' fh' last', (length bufs <= out)%nat -> NoWrite ds ->
  fill_descs out bufs ds fh last0 = Ok (ds', fh', last') -> NoWrite ds'.
Proof.
  induction bufs as [|b bufs IH]; intros out ds fh last0 ds' fh' last' Ho Hn E; cbn [fill_descs] in E; [by injection E as <- _ _ |].
  destruct (ds !! fh) as [d|] eqn:Ed; [| done]. eapply IH; [| | exact E]; [cbn in Ho; lia |]. apply Forall_insert; [done |].
  destruct out as [|out]; [cbn in Ho; lia |]. unfold writable. cbn [Nat.eqb d_flags]. rewrite writable_next.
  unfold NoWrite in Hn. rewrite Forall_lookup in Hn. exact (Hn fh d Ed).
Qed.

Lemma AddBuffer_NoWrite bufs out r kick r' : (length bufs <= out)%nat -> NoWrite (desc_ r) -> AddBuffer bufs out r = Ok (kick, r') -> NoWrite (desc_ r').
Proof.
  intros Ho Hn E. unfold AddBuffer, add_chain in E. apply bind_ok in E as (_ & _ & E). apply bind_ok in E as (r1 & E1 & E).
  apply bind_ok in E1 as ([[ds fh] ld] & E1 & [= <-]). apply bind_ok in E as (? & _ & [= _ <-]).
  cbn [set_ref publish push_avail set_descs desc_]. apply NoWrite_alter; [intros d; unfold writable; cbn [d_flags]; by rewrite writable_clear |].
  by eapply fill_NoWrite.
Qed.

Lemma reclaim_NoWrite r b len r' : NoWrite (desc_ r) -> reclaim r = Ok (b, len, r') -> NoWrite (desc_ r') /\ avail_idx_ r' = avail_idx_ r.
Proof.
  intros Hn E. unfold reclaim in E. destruct (used_ring r !! _) as [[id n]|]; [| done]. destruct (buf_references_ r !! id) as [[buf|]|]; [| done | done].
  apply bind_ok in E as ([z m] & _ & [= _ _ <-]). split; [| done]. by apply NoWrite_alter.
Qed.

Lemma clear_NoWrite n : forall r bs r', NoWrite (desc_ r) -> clear_loop n r = Ok (bs, r') -> NoWrite (desc_ r') /\ avail_idx_ r' = avail_idx_ r.
Proof.
  induction n as [|n IH]; intros r bs r' Hn E; cbn [clear_loop] in E; [by injection E as _ <- |].
  apply bind_ok in E as ([[b len] r1] & E1 & E). apply bind_ok in E as ([bs1 r2] & E2 & [= _ <-]).
  destruct (reclaim_NoWrite _ _ _ _ Hn E1) as [Hn1 <-]. by eapply IH.
Qed.

Lemma view_readable ds c (p : list Buf) : NoWrite ds -> imap (view ds c (length p)) p = (fun b => (u64 (b_addr b + Z.of_nat (length (b_pre b))), u32 (blen b), false)) <$> p.
Proof.
  intros Hn. apply list_eq. intros i. rewrite list_lookup_imap, list_lookup_fmap. destruct (p !! i) as [b|] eqn:E; [| done]. cbn. unfold view. do 3 f_equal.
  apply lookup_lt_Some in E. assert ((length p <=? i)%nat = false) as -> by (apply Nat.leb_gt; done). rewrite orb_false_r.
  destruct (c !! i) as [x|]; [| done]. cbn. destruct (ds !! x) as [d|] eqn:Ed; [| done]. unfold NoWrite in Hn. rewrite Forall_lookup in Hn. by apply (Hn x).
Qed.

(** The send queue. *)
Definition Tx (q : nat) (rep : VirtioNetRep) (sn : Z) (ow : list nat) (g : Ghost) : Prop :=
  Inv q (mkSystem (snd_queue_ rep) sn ow) g /\ NoWrite (desc_ (snd_queue_ rep)).

Lemma Send_queue zero_copy at_ buf pinfo rep q r0 sn ow g p : Inv q (mkSystem r0 sn ow) g -> NoWrite (desc_ r0) -> p <> [] ->
  Z.of_nat (length p) <= free_count_ r0 -> VirtioNet_Send zero_copy at_ buf pinfo rep = ('(kick, q) ← AddBuffer p (length p) r0; Ok (Queued kick, set_snd q rep)) ->
  exists kick rep' g' h, VirtioNet_Send zero_copy at_ buf pinfo rep = Ok (Queued kick, rep') /\ Tx q rep' sn ow g' /\ rep' = set_snd (snd_queue_ rep') rep /\
    avail_idx (snd_queue_ rep') = u16 (avail_idx_ r0 + 1) /\ avail_ring (snd_queue_ rep') !! Z.to_nat (avail_idx_ r0 mod Z.of_nat q) = Some h /\
    buf_references_ (snd_queue_ rep') !! h = Some (Some p) /\
    device_view q (desc_ (snd_queue_ rep')) h = (fun b => (u64 (b_addr b + Z.of_nat (length (b_pre b))), u32 (blen b), false)) <$> p.
Proof.
  intros HI Hn Hp Hl E. destruct (AddBuffer_keeps q _ g p (length p) HI Hp Hl) as (kick' & r' & g' & Ek & HI' & _).
  destruct (AddBuffer_view q _ g p (length p) HI Hp Hl) as (kick & r & h & c & Ea & Hav & Hidx & Href & _ & Hv). cbn [ring] in *.
  rewrite Ek in Ea. injection Ea as -> ->. rewrite E, Ek, bind_Ok. exists kick, (set_snd r rep), g', h. cbn [set_snd snd_queue_].
  split; [done |]. split; [split; [exact HI' | by eapply AddBuffer_NoWrite; [| exact Hn | exact Ek]] |]. split; [done |]. split; [done |].
  split; [done |]. split; [done |]. rewrite Hv. by apply view_readable.
Qed.

Lemma Send_spec q zero_copy at_ buf pinfo rep sn ow g : Tx q rep sn ow g ->
  exists res rep' g', VirtioNet_Send zero_copy at_ buf pinfo rep = Ok (res, rep') /\ Tx q rep' sn ow g' /\ rep' = set_snd (snd_queue_ rep') rep /\
  match res with
  | Dropped => free_count_ (snd_queue_ rep') = 0
  | Queued _ => exists h p, avail_idx (snd_queue_ rep') = u16 (avail_idx_ (snd_queue_ rep) + 1) /\
      avail_ring (snd_queue_ rep') !! Z.to_nat (avail_idx_ (snd_queue_ rep) mod Z.of_nat q) = Some h /\
      buf_references_ (snd_queue_ rep') !! h = Some (Some p) /\ pkt_data p = net_header pinfo ++ pkt_data buf /\
      device_view q (desc_ (snd_queue_ rep')) h = (fun b => (u64 (b_addr b + Z.of_nat (length (b_pre b))), u32 (blen b), false)) <$> p
  end.
Proof.
  intros [HI Hn]. destruct (ClearUsedBuffers_keeps q _ g HI) as (bs & r0 & g0 & E & HI0 & _). cbn [ring with_ring] in E, HI0.
  destruct (clear_NoWrite _ _ _ _ (Hn : NoWrite (desc_ (load_used (snd_queue_ rep)))) E) as [Hn0 Hidx]. cbn [load_used avail_idx_] in Hidx.
  pose proof (i_count _ _ _ HI0 : free_count_ r0 = Z.of_nat (length (free g0))) as Hc.
  set (p := if zero_copy && (Z.of_nat (length buf) <? free_count_ r0) then mkBuf at_ [] (net_header pinfo) [] :: buf else [mkBuf at_ [] (net_header pinfo ++ pkt_data buf) []]).
  destruct (decide (free_count_ r0 = 0)) as [Hz|Hz].
  - exists Dropped, (set_snd r0 rep), g0. unfold VirtioNet_Send. rewrite E, bind_Ok, Hz. assert ((Z.of_nat (length buf) <? 0) = false) as -> by (apply Z.ltb_ge; lia).
    rewrite andb_false_r. split; [done |]. split; [by split |]. done.
  - destruct (Send_queue zero_copy at_ buf pinfo rep q r0 sn ow g0 p HI0 Hn0) as (kick & rep' & g' & h & E' & HT & Hr & H1 & H2 & H3 & H4).
    + unfold p. by destruct (_ && _).
    + unfold p. destruct (zero_copy && (Z.of_nat (length buf) <? free_count_ r0)) eqn:Ez.
      * apply andb_true_iff in Ez as [_ Ez]. apply Z.ltb_lt in Ez. rewrite (length_cons (mkBuf at_ [] (net_header pinfo) []) buf). lia.
      * cbn [length]. lia.
    + unfold VirtioNet_Send. rewrite E, bind_Ok. unfold p. destruct (zero_copy && (Z.of_nat (length buf) <? free_count_ r0)); [done |].
      assert ((1 <=? free_count_ r0) = true) as -> by (apply Z.leb_le; lia). done.
    + exists (Queued kick), rep', g'. split; [done |]. split; [done |]. split; [done |]. rewrite Hidx in *. exists h, p. split_and!; [done | done | done | | done].
      unfold p. destruct (_ && _); [done |]. cbn. apply app_nil_r.
Qed.

Lemma Send_keeps q zero_copy at_ buf pinfo rep sn ow g : Tx q rep sn ow g ->
  exists res rep' g', VirtioNet_Send zero_copy at_ buf pinfo rep = Ok (res, rep') /\ Tx q rep' sn ow g' /\ rep' = set_snd (snd_queue_ rep') rep.
Proof. intros HT. destruct (Send_spec q zero_copy at_ buf pinfo rep sn ow g HT) as (res & rep' & g' & E & H1 & H2 & _). by exists res, rep', g'. Qed.

(** C32. Sending fails no assertion. The packet is dropped only when, after the chains that the
    device has returned were freed, no descriptor is free. Otherwise the device finds in the
    next entry of the available ring a chain of buffers that it may only read, which hold
    the 12-byte header made from the packet's offload fields followed by exactly the bytes
    of the packet, whether it was copied or not; and they are kept until the device returns
    them. *)
Theorem Send_correct q zero_copy at_ buf pinfo rep sn ow g : Tx q rep sn ow g ->
  exists res rep' g', VirtioNet_Send zero_copy at_ buf pinfo rep = Ok (res, rep') /\ Tx q rep' sn ow g' /\ rep' = set_snd (snd_queue_ rep') rep /\
  match res with
  | Dropped => free_count_ (snd_queue_ rep') = 0
  | Queued _ => exists h p, avail_idx (snd_queue_ rep') = u16 (avail_idx_ (snd_queue_ rep) + 1) /\
      avail_ring (snd_queue_ rep') !! Z.to_nat (avail_idx_ (snd_queue_ rep) mod Z.of_nat q) = Some h /\
      buf_references_ (snd_queue_ rep') !! h = Some (Some p) /\ pkt_data p = net_header pinfo ++ pkt_data buf /\
      device_view q (desc_ (snd_queue_ rep')) h = (fun b => (u64 (b_addr b + Z.of_nat (length (b_pre b))), u32 (blen b), false)) <$> p
  end.
Proof. apply Send_spec. Qed.

(** ** The driver of a core, from its creation on *)

(** A queue size as the device reports it. *)
Definition queue_size (q : nat) : Prop := (0 < q)%nat /\ exists k, 1 < k /\ Z.of_nat q * k = 2 ^ 16.

Lemma InitializeQueue_ok idx q addr : queue_size q -> 0 <= addr < 2 ^ 44 ->
  InitializeQueue idx (Z.of_nat q) addr = Ok (new_VRing q, [RegWrite kQueueSelect 2 (u16 idx); RegWrite kQueueAddress 4 (addr / 4096); RegWrite kQueueVector 2 (u16 idx)]).
Proof.
  intros [Hq (k & H1 & Hk)] Ha. unfold InitializeQueue, SetQueueAddr, kQueueAddressShift.
  assert (negb (Z.of_nat q =? 0) = true) as -> by (apply negb_true_iff, Z.eqb_neq; lia). cbn [kassert]. rewrite bind_Ok.
  destruct (vring_bytes_order (Z.of_nat q)) as (order & ->); [nia |]. rewrite bind_Ok, Z.shiftr_div_pow2 by lia. change (2 ^ 12) with 4096.
  assert (0 <= addr / 4096 < 2 ^ 32) as Hd by (Z.to_euclidean_division_equations; lia).
  assert ((addr / 4096 <=? 2 ^ 32 - 1) = true) as -> by (apply Z.leb_le; lia). cbn [kassert]. rewrite bind_Ok, bind_Ok, Nat2Z.id, u32_small by lia. done.
Qed.

(** The states of a representative: the packets that wait are those of the circular buffer. *)
Inductive nreach (fresh : Z -> nat -> Buf) (q p : nat) : VirtioNetRep -> Z * list nat -> Z * list nat -> Prop :=
| n_init i ra sa rep w : 0 <= ra < 2 ^ 44 -> 0 <= sa < 2 ^ 44 -> init_pair fresh i (Z.of_nat q) (Z.of_nat p) ra sa = Ok (rep, w) -> nreach fresh q p rep (0, []) (0, [])
| n_send rep d1 d2 zero_copy at_ buf pinfo res rep' : nreach fresh q p rep d1 d2 -> VirtioNet_Send zero_copy at_ buf pinfo rep = Ok (res, rep') -> nreach fresh q p rep' d1 d2
| n_interrupt rep d1 d2 : nreach fresh q p rep d1 d2 -> nreach fresh q p (VirtioNet_Receive rep) d1 d2
| n_rx rep d1 d2 s' : nreach fresh q p rep d1 d2 -> dev_step 12 (mkSystem (rcv_queue_ rep) d1.1 d1.2) s' -> nreach fresh q p (set_rcv (ring s') rep) (seen s', owned s') d2
| n_tx rep d1 d2 s' : nreach fresh q p rep d1 d2 -> dev_step 0 (mkSystem (snd_queue_ rep) d2.1 d2.2) s' -> nreach fresh q p (set_snd (ring s') rep) d1 (seen s', owned s')
| n_poll rep d1 d2 res rep' : nreach fresh q p rep d1 d2 -> ReceivePoll fresh id 2 rep = Ok (res, rep') -> nreach fresh q p rep' d1 d2.

Lemma dev_step_descs min s s' : dev_step min s s' -> desc_ (ring s') = desc_ (ring s).
Proof. by intros [s0 h _ _|s0 i h b b' len _ _ _ _ _|s0 f e]. Qed.

Lemma init_state fresh q p i ra sa rep w : queue_size q -> queue_size p -> 0 <= ra < 2 ^ 44 -> 0 <= sa < 2 ^ 44 ->
  init_pair fresh i (Z.of_nat q) (Z.of_nat p) ra sa = Ok (rep, w) -> (exists g l, RxState q rep 0 [] g l) /\ exists g, Tx p rep 0 [] g.
Proof.
  intros Hq Hp Hra Hsa E. unfold init_pair in E. rewrite (InitializeQueue_ok _ q ra Hq Hra), bind_Ok, (InitializeQueue_ok _ p sa Hp Hsa), bind_Ok in E.
  destruct Hq as [Hq (k & H1 & Hk)], Hp as [Hp (k' & H1' & Hk')]. pose proof (vring_Inv_new q k Hq H1 Hk) as HI.
  destruct (FillRxRing_rx fresh q (mkSystem (new_VRing q) 0 []) _ (conj HI (conj (Forall_nil_2 _) (Forall_nil_2 _)))) as (kick & r & g & Ef & HR & _).
  cbn [ring] in Ef. rewrite Ef, bind_Ok in E. injection E as <- _. split.
  - exists g, []. split; [exact HR | split; [cbn; lia | done | done | done | done] | done].
  - eexists. split; [exact (flags_keep _ _ _ kNoInterrupt (vring_Inv_new p k' Hp H1' Hk')) |]. cbn [snd_queue_ DisableInterrupts set_avail_flags desc_].
    apply Forall_fmap, Forall_forall. done.
Qed.

Lemma nreach_inv fresh q p rep d1 d2 : queue_size q -> queue_size p -> nreach fresh q p rep d1 d2 ->
  (exists g l, RxState q rep d1.1 d1.2 g l) /\ exists g, Tx p rep d2.1 d2.2 g.
Proof.
  intros Hq Hp. induction 1 as [i ra sa rep w Hra Hsa E|rep d1 d2 zc at_ buf pinfo res rep' _ [IH1 (g & IH2)] E|rep d1 d2 _ [(g & l & IH1) IH2]
    |rep d1 d2 s' _ [(g & l & [HR Hc Hg]) IH2] Hs|rep d1 d2 s' _ [(g & l & [HR Hc Hg]) (g2 & HI & Hn)] Hs|rep d1 d2 res rep' _ [(g & l & IH1) (g2 & IH2)] E].
  - exact (init_state fresh q p i ra sa rep w Hq Hp Hra Hsa E).
  - destruct (Send_keeps p zc at_ buf pinfo rep _ _ g IH2) as (res' & rep2 & g' & E' & HT & Hr). rewrite E' in E. injection E as -> ->. split; [| by exists g'].
    destruct IH1 as (g1 & l & [HR Hc Hg]). exists g1, l. rewrite Hr. split; [done | by destruct Hc | done].
  - split; [exists g, l | done]. destruct IH1 as [HR Hc Hg]. split; [exact (Rx_flags _ _ _ kNoInterrupt HR) | by destruct Hc | done].
  - split; [| exact IH2]. destruct (dev_steps_rx q _ _ (rtc_once _ _ Hs) g HR) as (g' & HR' & _). exists g', l. split; [by destruct s' | by apply circ_set_rcv | done].
  - split; [exists g, l; split; [done | by destruct Hc | done] |]. destruct (dev_step_keeps p 0 _ _ _ HI Hs) as (g' & HI' & _). exists g'.
    split; [by destruct s' |]. cbn [set_snd snd_queue_]. by rewrite (dev_step_descs _ _ _ Hs).
  - destruct (poll_keeps fresh q rep _ _ g l IH1) as (res' & rep2 & g' & l' & E' & HR' & Hs). rewrite E' in E. injection E as -> ->.
    split; [by exists g', l' |]. exists g2. unfold Tx. by rewrite Hs.
Qed.


(** ** The control command *)

Lemma no_refs q s g : Inv q s g -> bufs_of g = [] -> omap id (buf_references_ (ring s)) = [].
Proof.
  intros HI Hb. destruct (omap id (buf_references_ (ring s))) as [|b l] eqn:E; [done |]. exfalso.
  assert (b ∈ omap id (buf_references_ (ring s))) as Hin by (rewrite E; by left). apply list_elem_of_omap in Hin as (o & Ho & Hb'). cbn in Hb'. subst o.
  apply list_elem_of_lookup in Ho as [i Hi]. apply (i_refs _ _ _ HI) in Hi as (c & Hc & _). apply (list_elem_of_fmap_2 c_buf) in Hc.
  unfold bufs_of in Hb. rewrite Hb in Hc. by apply elem_of_nil in Hc.
Qed.

Lemma dev_steps_inv q min s s' : rtc (dev_step min) s s' -> forall g, Inv q s g -> exists g', Inv q s' g' /\ ids <$> bufs_of g' = ids <$> bufs_of g /\ same_driver (ring s) (ring s').
Proof.
  induction 1 as [s|s s1 s2 H1 _ IH]; intros g HI; [by exists g |]. destruct (dev_step_keeps q min s g s1 HI H1) as (g1 & HI1 & Hi & _ & Hsd).
  destruct (IH g1 HI1) as (g' & HI' & Hi' & Hsd'). exists g'. split; [done |]. split; [congruence | by eapply same_driver_trans].
Qed.

(** The constructor reads the answer to its control command too late: in every run in which
    the device answers, the buffers of the command, the answer among them, are destroyed
    before the status is read. *)
Theorem status_read_after_free q k a1 a2 a3 pairs ack device r0 kick sn ow : (3 <= q)%nat -> 1 < k -> Z.of_nat q * k = 2 ^ 16 ->
  AddBuffer (mq_command a1 a2 a3 pairs ack) 2 (new_VRing q) = Ok (kick, r0) ->
  rtc (dev_step 0) (mkSystem r0 0 []) (mkSystem (device r0) sn ow) -> used_idx (device r0) <> 0 ->
  set_queue_pairs a1 a2 a3 pairs ack device (new_VRing q) = Fail UndefinedBehaviour.
Proof.
  intros Hq H1 Hk E Hst Hu. pose proof (vring_Inv_new q k ltac:(lia) H1 Hk) as HI.
  destruct (AddBuffer_keeps q _ _ (mq_command a1 a2 a3 pairs ack) 2 HI) as (kick' & r' & g1 & E' & HI1 & Hg1 & _); [done | cbn; lia |].
  cbn [ring] in E'. rewrite E' in E. injection E as -> ->.
  destruct (dev_steps_inv q 0 _ _ Hst g1 HI1) as (g2 & HI2 & Hi2 & D1 & D2 & _). cbn [ring] in D1, D2.
  assert (last_used_ r0 = 0 /\ used_head_ r0 = 0) as [L0 U0].
  { unfold AddBuffer, add_chain in E'. apply bind_ok in E' as (_ & _ & E). apply bind_ok in E as (r1 & E1 & E).
    apply bind_ok in E1 as ([[ds fh] ld] & _ & [= <-]). by apply bind_ok in E as (? & _ & [= _ <-]). }
  unfold set_queue_pairs. rewrite E', bind_Ok. unfold HasUsedBuffer. rewrite D1, D2, L0, U0. cbn [Z.eqb load_used last_used_ used_head_].
  rewrite D1, L0. assert ((0 =? used_idx (device r0)) = false) as -> by (apply Z.eqb_neq; lia). cbn [negb].
  destruct (ClearUsedBuffers_keeps q _ _ (load_used_keeps _ _ _ HI2)) as (bs & r3 & g3 & E3 & HI3 & Hp & _). cbn [ring] in E3. rewrite E3, bind_Ok.
  pose proof (ClearUsedBuffers_count _ _ _ E3) as Hc. cbn [load_used used_idx last_used_] in Hc. rewrite D1, L0, Z.sub_0_r in Hc.
  assert (length bs <> 0%nat) as Hbs.
  { intros Hz. rewrite Hz in Hc. destruct (i_last _ _ _ HI2) as [_ Hr]. cbn [ring] in Hr. apply Hu.
    rewrite Hr in Hc |- *. unfold u16, wrap in *. rewrite Z.mod_mod in Hc by lia. by rewrite <- Hc. }
  assert (bufs_of g3 = []) as Hb3.
  { apply (f_equal length) in Hi2. rewrite !length_fmap, Hg1 in Hi2. apply Permutation_length in Hp. rewrite length_app in Hp.
    change (length (bufs_of (mkGhost (seq 0 q) [] [] []) ++ [mq_command a1 a2 a3 pairs ack])) with 1%nat in Hi2.
    apply length_zero_iff_nil. lia. }
  unfold read_at. pose proof (no_refs _ _ _ HI3 Hb3) as Hn. cbn [ring with_ring] in Hn. by rewrite Hn.
Qed.

(** ** Runs *)

Definition demo_fresh (size : Z) (i : nat) : Buf := mkBuf (4096 * Z.of_nat i) [] (replicate 16 0) [].
Definition demo_frame (i x : Z) : packet := [mkBuf (4096 * i) [] (replicate 16 x) []].

(** A ring of four descriptors, filled, in which the device has received two packets. *)
Definition demo_ring : outcome VRing :=
  '(_, r) ← FillRxRing demo_fresh (new_VRing 4);
  Ok (device_use 0 14 (demo_frame 0 8) (device_use 1 16 (demo_frame 1 7) r)).
Definition demo_rep (r : VRing) : VirtioNetRep := mkRep r (new_VRing 4) true 5 5 (replicate 256 None).

Lemma demo_circ r : circ (demo_rep r) [].
Proof. split; [cbn; lia | done | done | done | done]. Qed.

Lemma demo_rx_state : exists r g, demo_ring = Ok r /\ RxState 4 (demo_rep r) 2 [] g [].
Proof.
  pose proof (vring_Inv_new 4 16384 ltac:(lia) ltac:(lia) eq_refl) as HI.
  destruct (FillRxRing_rx demo_fresh 4 (mkSystem (new_VRing 4) 0 []) _ (conj HI (conj (Forall_nil_2 _) (Forall_nil_2 _)))) as (kick & r & g & E & HR & _).
  cbn [ring] in E. unfold demo_ring. rewrite E, bind_Ok. vm_compute in E. injection E as <- <-. unfold with_ring in HR. cbn [seen owned] in HR.
  eexists. edestruct (dev_steps_rx 4) as (g' & HR' & _); [| exact HR | exists g'; split; [reflexivity |]; split; [exact HR' | apply demo_circ | done]].
  eapply rtc_l; [by apply (dev_fetch 12 _ 0%nat) |]. eapply rtc_l; [by apply (dev_fetch 12 _ 1%nat) |].
  eapply rtc_l; [by apply (dev_use 12 _ 0%nat 1%nat (demo_frame 1 0) (demo_frame 1 7) 16) |].
  eapply rtc_l; [by apply (dev_use 12 _ 0%nat 0%nat (demo_frame 0 0) (demo_frame 0 8) 14) |]. apply rtc_refl.
Qed.

Lemma no_race_ok : device_ok id.
Proof. intros r sn ow. exists sn, ow. apply rtc_refl. Qed.

Lemma demo_poll r res rep' : demo_ring = Ok r -> ReceivePoll demo_fresh id 2 (demo_rep r) = Ok (res, rep') -> exists b, res = Delivered b /\ pkt_data b = replicate 4 7.
Proof. intros E EP. vm_compute in E. injection E as <-. vm_compute in EP. injection EP as <- <-. by eexists. Qed.


Lemma demo_tx : Tx 4 (demo_rep (new_VRing 4)) 0 [] (mkGhost (seq 0 4) [] [] []).
Proof. split; [apply (vring_Inv_new 4 16384 ltac:(lia) ltac:(lia) eq_refl) | by repeat constructor]. Qed.

Lemma demo_send res rep' : VirtioNet_Send true 64 [mkBuf 512 [] [1; 2; 3] []] (mkPinfo 1 0 0 0 14 6) (demo_rep (new_VRing 4)) = Ok (res, rep') ->
  device_view 4 (desc_ (snd_queue_ rep')) 0 = [(64, 12, false); (512, 3, false)].
Proof. intros E. vm_compute in E. by injection E as <- <-. Qed.

Lemma Send_correct_witness : exists res rep' g', VirtioNet_Send true 64 [mkBuf 512 [] [1; 2; 3] []] (mkPinfo 1 0 0 0 14 6) (demo_rep (new_VRing 4)) = Ok (res, rep') /\
  Tx 4 rep' 0 [] g' /\ device_view 4 (desc_ (snd_queue_ rep')) 0 = [(64, 12, false); (512, 3, false)].
Proof.
  destruct (Send_correct 4 true 64 [mkBuf 512 [] [1; 2; 3] []] (mkPinfo 1 0 0 0 14 6) (demo_rep (new_VRing 4)) 0 [] _ demo_tx) as (res & rep' & g' & E & HT & _).
  exists res, rep', g'. split; [done |]. split; [done |]. exact (demo_send res rep' E).
Defined.

Lemma demo_command : exists kick r0, let device := device_use 0 1 (mq_command 100 200 300 2 0) in
  AddBuffer (mq_command 100 200 300 2 255) 2 (new_VRing 4) = Ok (kick, r0) /\ used_idx (device r0) = 1 /\ rtc (dev_step 0) (mkSystem r0 0 []) (mkSystem (device r0) 1 []).
Proof.
  do 2 eexists. cbv zeta. split; [vm_compute; reflexivity |]. split; [done |]. eapply rtc_l; [by apply (dev_fetch 0 _ 0%nat) |].
  eapply rtc_l; [by apply (dev_use 0 _ 0%nat 0%nat (mq_command 100 200 300 2 255) (mq_command 100 200 300 2 0) 1) |]. apply rtc_refl.
Qed.

Lemma status_read_after_free_witness : exists device r0 kick, AddBuffer (mq_command 100 200 300 2 255) 2 (new_VRing 4) = Ok (kick, r0) /\ used_idx (device r0) = 1 /\
  set_queue_pairs 100 200 300 2 255 device (new_VRing 4) = Fail UndefinedBehaviour.
Proof.
  destruct demo_command as (kick & r0 & E & Hu & Hst). exists (device_use 0 1 (mq_command 100 200 300 2 0)), r0, kick. split; [exact E |]. split; [exact Hu |].
  apply (status_read_after_free 4 16384 100 200 300 2 255 _ r0 kick 1 [] ltac:(lia) ltac:(lia) eq_refl E Hst). rewrite Hu. discriminate.
Defined.

Lemma demo_init : exists rep w, init_pair demo_fresh 0 4 4 65536 131072 = Ok (rep, w) /\ nth_error w 1 = Some (RegWrite kQueueAddress 4 16).
Proof. do 2 eexists. vm_compute. split; reflexivity. Qed.

