(* ===== verification/Ebb.v ===== *)
(** * Elastic building blocks: identifiers and translation

    Models src/src/native/EbbRef.h, LocalEntry.cc and Trans.cc (the table of each core
    that translates an identifier to the representative), src/src/MulticoreEbb.h,
    MulticoreEbbStatic.h, SharedEbb.h, StaticSharedEbb.h and GlobalIdMapBase.h (what
    happens when there is none yet), LocalIdMap.cc, EbbAllocator.cc, and the hash of
    static identifiers (Hash.h, GlobalStaticIds.h). *)

From S2P Require Import Prelude Pfn PortPool.

(** ** Identifiers *)

Definition kFirstFreeId : Z := 10.
Definition kFirstStaticUserId : Z := 0x8000.

Definition rsx (hash rshift : Z) : Z := Z.lxor hash (Z.shiftr hash rshift).
Definition lsa (hash lshift : Z) : Z := u32 (hash + Z.land (u32 (Z.shiftl hash lshift)) 0xFFFFFFFF).

(** The characters of the string are read from the last one on. *)
Fixpoint oaat_loop (s : list Z) (hash : Z) (len : nat) : outcome Z :=
  match len with
  | O => Ok hash
  | S n =>
      match s !! n with
      | None => Fail (Thrown "out_of_range")
      | Some c => oaat_loop s (rsx (lsa (u32 (u32 (Z.shiftl hash 1) + c)) 10) 6) n
      end
  end.
Definition one_at_a_time_hash (s : list Z) (seed : Z) : outcome Z :=
  h ← oaat_loop s seed (length s);
  Ok (lsa (rsx (lsa h 3) 11) 15).
Definition GenerateStaticEbbId (a : list Z) : outcome Z :=
  h ← one_at_a_time_hash a 0;
  Ok (Z.lor kFirstStaticUserId (h mod 0x1000)).

(** *** The allocator of identifiers *)

Section Allocator.
Context `{IntervalSet}.

(** The local and the global identifiers that are free. *)
Record EbbAllocator := mkEbbAllocator { free_ids_ : iset; free_global_ids_ : iset }.

(** The hosted library also has the first global identifiers. *)
Definition new_EbbAllocator (hosted : bool) : EbbAllocator :=
  mkEbbAllocator (add_interval kFirstFreeId (kFirstStaticUserId - 1) iempty)
    (if hosted then add_interval (Z.shiftl 1 16) (Z.shiftl 2 16 - 1) iempty else iempty).

Definition AllocateLocal (a : EbbAllocator) : outcome (Z * EbbAllocator) :=
  _ ← kassert (negb (iset_is_empty (free_ids_ a)));
  let ret := lower (free_ids_ a) in
  Ok (ret, mkEbbAllocator (sub_elem ret (free_ids_ a)) (free_global_ids_ a)).

Definition ebb_Allocate (a : EbbAllocator) : outcome (Z * EbbAllocator) :=
  if iset_is_empty (free_global_ids_ a) then Fail (Thrown "Out of Global Ids!")
  else
    let ret := lower (free_global_ids_ a) in
    Ok (ret, mkEbbAllocator (free_ids_ a) (sub_elem ret (free_global_ids_ a))).

(** The shifts are of type int. *)
Definition SetIdSpace (space : Z) (a : EbbAllocator) : outcome EbbAllocator :=
  if (2 ^ 31 <=? Z.shiftl space 16) || (2 ^ 31 <=? Z.shiftl (space + 1) 16) then Fail UndefinedBehaviour
  else
    let id_start := Z.shiftl space 16 in
    let id_end := Z.shiftl (space + 1) 16 - 1 in
    Ok (mkEbbAllocator (free_ids_ a) (add_interval id_start id_end (free_global_ids_ a))).
End Allocator.

(** ** Maps of the libraries *)

(** tbb::concurrent_hash_map and boost::container::flat_map: a value per key. *)
Class Assoc (K V : Type) := {
  amap : Type;
  aempty : amap;
  afind : K -> amap -> option V;
  aput : K -> V -> amap -> amap;
  afind_empty : forall k, afind k aempty = None;
  afind_put : forall k v m, afind k (aput k v m) = Some v;
  afind_put_ne : forall k k' v m, k <> k' -> afind k' (aput k v m) = afind k' m
}.
Arguments amap K V {_}.

(** [insert] does not replace the value of a key. *)
Definition ainsert {K V} `{Assoc K V} (k : K) (v : V) (m : amap K V) : bool * amap K V :=
  match afind k m with Some _ => (false, m) | None => (true, aput k v m) end.

(** ** The translation table *)

Definition kVMemStart : Z := 0xFFFFFFFF00000000.
Definition sizeofLocalEntry : Z := 8.
Definition IdToRefAddr (id : Z) : Z := u64 (kVMemStart + sizeofLocalEntry * id).
(** EbbRef's conversion to an EbbId. *)
Definition RefAddrToId (ref_ : Z) : Z := u32 (u64 (ref_ - kVMemStart) / sizeofLocalEntry).

Section Machine.
(** The representatives of an Ebb, by core. *)
Context `{RM : Assoc nat Z}.

(** boost::any in the map of roots: what the constructors of the C++ types store, with
    the type of the Ebb. A base of the global map remembers its representative. *)
Inductive any :=
| ARoot (T root : Z) (reps : amap nat Z)
| AReps (T : Z) (reps : amap nat Z)
| ARep (T rep : Z)
| ABase (T : Z) (constructed : option Z).

Context `{LM : Assoc Z any}.

(** The map of roots, the pages of the translation table of each core and the words in
    them, the free pages, the next object that [new] returns, and the function-local
    static representatives. *)
Record Machine := mkMachine {
  local_id_map : amap Z any;
  mapped : gset (nat * Z);
  words : gmap (nat * Z) Z;
  free_pages : list Z;
  next : Z;
  statics : gmap Z Z
}.
Definition set_ids (m : amap Z any) (s : Machine) : Machine := mkMachine m (mapped s) (words s) (free_pages s) (next s) (statics s).
Definition set_word (core : nat) (a v : Z) (s : Machine) : Machine :=
  mkMachine (local_id_map s) (mapped s) (<[(core, a) := v]> (words s)) (free_pages s) (next s) (statics s).
Definition set_static (T r : Z) (s : Machine) : Machine :=
  mkMachine (local_id_map s) (mapped s) (words s) (free_pages s) (next s) (<[T := r]> (statics s)).

(** [new T]. *)
Definition new_object (s : Machine) : Z * Machine :=
  (next s, mkMachine (local_id_map s) (mapped s) (words s) (free_pages s) (next s + 1) (statics s)).

(** *** Trans.cc *)

(** A fault in the table: a zeroed page, which [trans_HandleFault] of VMem.v enters into the
    page tables. Without a free page the frame that means none is
    cleared before it is looked at. *)
Definition table_fault (core : nat) (fault_addr : Z) (s : Machine) : outcome Machine :=
  let vpage := PfnDown fault_addr in
  match free_pages s with
  | [] => Fail UndefinedBehaviour
  | _ :: pages =>
      Ok (mkMachine (local_id_map s) ({[(core, vpage)]} ∪ mapped s)
            (filter (fun e => ~ (e.1.1 = core /\ PfnDown e.1.2 = vpage)) (words s)) pages (next s) (statics s))
  end.

(** An access: a page that is not mapped faults; only the region of the table is served
    by the translation system. *)
Definition touch (core : nat) (a : Z) (s : Machine) : outcome Machine :=
  if decide ((core, PfnDown a) ∈ mapped s) then Ok s
  else if kVMemStart <=? a then table_fault core a s
  else Fail UndefinedBehaviour.

Definition load (core : nat) (a : Z) (s : Machine) : outcome (Z * Machine) :=
  s ← touch core a s;
  Ok (default 0 (words s !! (core, a)), s).
Definition store (core : nat) (a v : Z) (s : Machine) : outcome Machine :=
  s ← touch core a s;
  Ok (set_word core a v s).

Definition CacheRef (core : nat) (id rep : Z) (s : Machine) : outcome Machine :=
  store core (IdToRefAddr id) rep s.

(** *** MulticoreEbb *)

Definition Multicore_Create (T root id : Z) (s : Machine) : Machine :=
  set_ids (ainsert id (ARoot T root aempty) (local_id_map s)).2 s.

(** [any_cast] of the pointer gives null for another type. *)
Definition GetMapEntry (T id : Z) (s : Machine) : outcome (Z * amap nat Z) :=
  match afind id (local_id_map s) with
  | None => Fail AssertFailed
  | Some (ARoot T' root reps) => if T =? T' then Ok (root, reps) else Fail UndefinedBehaviour
  | Some _ => Fail UndefinedBehaviour
  end.

Definition GetRep (core : nat) (T id : Z) (s : Machine) : outcome (option Z) :=
  '(_, reps) ← GetMapEntry T id s;
  Ok (afind core reps).
Definition SetRep (core : nat) (T id rep : Z) (s : Machine) : outcome Machine :=
  '(root, reps) ← GetMapEntry T id s;
  Ok (set_ids (aput id (ARoot T root (aput core rep reps)) (local_id_map s)) s).

Definition Multicore_HandleFault (core : nat) (T id : Z) (s : Machine) : outcome (Z * Machine) :=
  found ← GetRep core T id s;
  match found with
  | Some rep => s ← CacheRef core id rep s; Ok (rep, s)
  | None =>
      _ ← GetMapEntry T id s;
      let '(rep, s) := new_object s in
      s ← SetRep core T id rep s;
      s ← CacheRef core id rep s;
      Ok (rep, s)
  end.

(** Without a root: the new representative is not put into the map. *)
Definition Reps_Create (T id : Z) (s : Machine) : Machine :=
  set_ids (ainsert id (AReps T aempty) (local_id_map s)).2 s.
Definition Reps_HandleFault (core : nat) (T id : Z) (s : Machine) : outcome (Z * Machine) :=
  match afind id (local_id_map s) with
  | None => Fail AssertFailed
  | Some (AReps T' reps) =>
      if negb (T =? T') then Fail (Thrown "bad_any_cast")
      else
        match afind core reps with
        | Some rep => s ← CacheRef core id rep s; Ok (rep, s)
        | None => let '(rep, s) := new_object s in s ← CacheRef core id rep s; Ok (rep, s)
        end
  | Some _ => Fail (Thrown "bad_any_cast")
  end.

(** *** MulticoreEbbStatic: [rep_map] is a copy, and so is what is written to it. *)
Definition Static_HandleFault (core : nat) (T static_id id : Z) (s : Machine) : outcome (Z * Machine) :=
  _ ← kassert (id =? static_id);
  match afind id (local_id_map s) with
  | None => Fail AssertFailed
  | Some (AReps T' reps) =>
      if negb (T =? T') then Fail (Thrown "bad_any_cast")
      else
        match afind core reps with
        | Some rep => s ← CacheRef core id rep s; Ok (rep, s)
        | None =>
            let '(rep, s) := new_object s in
            let rep_map := aput core rep reps in
            s ← CacheRef core id rep s;
            Ok (rep, s)
        end
  | Some _ => Fail (Thrown "bad_any_cast")
  end.

(** *** SharedEbb and StaticSharedEbb *)

Definition Shared_Create (T rep id : Z) (s : Machine) : Machine :=
  set_ids (ainsert id (ARep T rep) (local_id_map s)).2 s.
Definition Shared_HandleFault (core : nat) (T id : Z) (s : Machine) : outcome (Z * Machine) :=
  match afind id (local_id_map s) with
  | None => Fail (Thrown "Failed to find root for SharedEbb")
  | Some (ARep T' rep) => if T =? T' then s ← CacheRef core id rep s; Ok (rep, s) else Fail (Thrown "bad_any_cast")
  | Some _ => Fail (Thrown "bad_any_cast")
  end.

Definition StaticShared_HandleFault (core : nat) (T id : Z) (s : Machine) : outcome (Z * Machine) :=
  let '(rep, s) := match statics s !! T with
                   | Some rep => (rep, s)
                   | None => let '(rep, s) := new_object s in (rep, set_static T rep s)
                   end in
  s ← CacheRef core id rep s;
  Ok (rep, s).

(** *** The global map: its base constructs it once, and caches only then. *)
Definition Global_Create (T id : Z) (s : Machine) : Machine :=
  set_ids (ainsert id (ABase T None) (local_id_map s)).2 s.
Definition Global_Construct (core : nat) (T id : Z) (constructed_ : option Z) (s : Machine) : outcome (Z * Machine) :=
  match constructed_ with
  | Some rep => Ok (rep, s)
  | None =>
      let '(rep, s) := new_object s in
      let s := set_ids (aput id (ABase T (Some rep)) (local_id_map s)) s in
      s ← CacheRef core id rep s;
      Ok (rep, s)
  end.
Definition Global_HandleFault (core : nat) (T id : Z) (s : Machine) : outcome (Z * Machine) :=
  match afind id (local_id_map s) with
  | None => Fail (Thrown "Failed to find base type for GlobalIdBase")
  | Some (ABase T' c) => if T =? T' then Global_Construct core T id c s else Fail (Thrown "bad_any_cast")
  | Some _ => Fail (Thrown "bad_any_cast")
  end.

(** ** EbbRef *)

(** The base class of the Ebb, which decides about faults. *)
Inductive flavour := Multicore | MulticoreReps | MulticoreStatic (static_id : Z) | Shared | StaticShared | GlobalMap.
Definition HandleFault (f : flavour) (core : nat) (T id : Z) (s : Machine) : outcome (Z * Machine) :=
  match f with
  | Multicore => Multicore_HandleFault core T id s
  | MulticoreReps => Reps_HandleFault core T id s
  | MulticoreStatic static_id => Static_HandleFault core T static_id id s
  | Shared => Shared_HandleFault core T id s
  | StaticShared => StaticShared_HandleFault core T id s
  | GlobalMap => Global_HandleFault core T id s
  end.

(** [operator*] on a core: the word of the table, or the result of the fault. *)
Definition EbbRef_deref (f : flavour) (core : nat) (T ref_ : Z) (s : Machine) : outcome (Z * Machine) :=
  '(lref, s) ← load core ref_ s;
  if lref =? 0 then HandleFault f core T (RefAddrToId ref_) s else Ok (lref, s).
End Machine.
