(* ===== verification/EbbCorrect.v ===== *)
(** * Correctness of Ebb translation

    Identifiers and the addresses of their table entries correspond; a reference to an
    Ebb gives on one core always the same representative, which is the core's own or
    the common one as the base class of the Ebb promises; and identifiers that different
    nodes allocate never clash. *)

From S2P Require Import Prelude Pfn PortPool Ebb.

(** ** Addresses of the table *)

Lemma RefAddrToId_inv id : 0 <= id < 2 ^ 32 -> RefAddrToId (IdToRefAddr id) = id.
Proof.
  intros Hid. unfold RefAddrToId, IdToRefAddr, sizeofLocalEntry, kVMemStart.
  assert (u64 (u64 (0xFFFFFFFF00000000 + 8 * id) - 0xFFFFFFFF00000000) = 8 * id) as ->.
  { unfold u64, wrap. rewrite Zminus_mod_idemp_l. replace (_ + _ - _) with (8 * id) by lia. apply Z.mod_small. lia. }
  rewrite Z.mul_comm, Z.div_mul by lia. apply u32_small. lia.
Qed.

Lemma IdToRefAddr_low id : 0 <= id < 2 ^ 29 -> IdToRefAddr id = kVMemStart + 8 * id.
Proof. intros Hid. apply u64_small. unfold kVMemStart, sizeofLocalEntry. lia. Qed.

Lemma IdToRefAddr_inj id id' : 0 <= id < 2 ^ 32 -> 0 <= id' < 2 ^ 32 -> IdToRefAddr id = IdToRefAddr id' -> id = id'.
Proof. intros H H' E. apply (f_equal RefAddrToId) in E. by rewrite !RefAddrToId_inv in E. Qed.

(** A reference and the identifier it was made from correspond, for all 32-bit
    identifiers; below 2^29 the entries are distinct words of the 4 GB region of the table;
    from 2^29 on the address wraps around to the bottom of the address space, where there is
    no table. *)
Theorem ref_addresses id : 0 <= id < 2 ^ 32 ->
  RefAddrToId (IdToRefAddr id) = id /\
  (id < 2 ^ 29 -> kVMemStart <= IdToRefAddr id /\ IdToRefAddr id + 8 <= 2 ^ 64 /\ IdToRefAddr id mod 8 = 0) /\
  (2 ^ 29 <= id -> IdToRefAddr id = 8 * id - 2 ^ 32 /\ IdToRefAddr id < kVMemStart).
Proof.
  intros Hid. split; [by apply RefAddrToId_inv |]. split.
  - intros Hl. rewrite IdToRefAddr_low by lia. unfold kVMemStart. split_and!; [lia | lia |]. Z.to_euclidean_division_equations. lia.
  - intros Hh. assert (IdToRefAddr id = 8 * id - 2 ^ 32) as ->.
    { unfold IdToRefAddr, kVMemStart, sizeofLocalEntry, u64, wrap. replace (0xFFFFFFFF00000000 + 8 * id) with (8 * id - 2 ^ 32 + 1 * 2 ^ 64) by lia.
      rewrite Z.mod_add by lia. apply Z.mod_small. lia. }
    split; [done |]. unfold kVMemStart. lia.
Qed.

Lemma ref_addresses_witness : RefAddrToId (IdToRefAddr 0x20000000) = 0x20000000 /\ IdToRefAddr 0x20000000 = 0.
Proof. destruct (ref_addresses 0x20000000 ltac:(lia)) as (H1 & _ & H2). split; [done |]. destruct (H2 ltac:(lia)) as [-> _]. reflexivity. Defined.

(** ** Translation *)

Section Translation.
Context `{RM : Assoc nat Z} `{LM : Assoc Z (@any RM)}.
Local Notation Machine := (@Machine RM LM).

(** The flavours that give each core a representative of its own. *)
Definition own (f : flavour) : bool :=
  match f with Multicore | MulticoreReps | MulticoreStatic _ => true | Shared | StaticShared | GlobalMap => false end.

(** The Ebbs that were created, with flavour and type, and the representatives that
    references gave. *)
Local Notation registry := (gmap Z (flavour * Z)).
Local Notation rep_log := (gmap (nat * Z) Z).

Definition entry_ok (f : flavour) (T id : Z) (s : Machine) (log : rep_log) : Prop :=
  match f with
  | Multicore => exists root reps, afind id (local_id_map s) = Some (ARoot T root reps) /\ forall core, afind core reps = log !! (core, id)
  | MulticoreReps => exists reps, afind id (local_id_map s) = Some (AReps T reps) /\ forall core, afind core reps = None
  | MulticoreStatic i => i = id /\ exists reps, afind id (local_id_map s) = Some (AReps T reps) /\ forall core, afind core reps = None
  | Shared => exists rep, afind id (local_id_map s) = Some (ARep T rep) /\ rep <> 0 /\ forall core r, log !! (core, id) = Some r -> r = rep
  | StaticShared => afind id (local_id_map s) = None /\ forall core r, log !! (core, id) = Some r -> statics s !! T = Some r
  | GlobalMap => exists c, afind id (local_id_map s) = Some (ABase T c) /\ (forall r, c = Some r -> r <> 0) /\ forall core r, log !! (core, id) = Some r -> c = Some r
  end.

Record EInv (s : Machine) (reg : registry) (log : rep_log) : Prop := {
  e_reg : forall id f T, reg !! id = Some (f, T) -> 0 <= id < 2 ^ 29 /\ entry_ok f T id s log;
  e_unreg : forall id, reg !! id = None -> afind id (local_id_map s) = None /\ forall core, log !! (core, id) = None;
  e_words : forall core id w, 0 <= id < 2 ^ 29 -> words s !! (core, IdToRefAddr id) = Some w -> w <> 0 -> log !! (core, id) = Some w;
  e_cached : forall core id r f T, reg !! id = Some (f, T) -> f <> GlobalMap -> log !! (core, id) = Some r -> words s !! (core, IdToRefAddr id) = Some r;
  e_mapped : forall core a w, words s !! (core, a) = Some w -> (core, PfnDown a) ∈ mapped s;
  e_next : 1 <= next s /\ forall core id r f T, reg !! id = Some (f, T) -> own f = true -> log !! (core, id) = Some r -> r < next s;
  e_own : forall k k' r f f' T T', reg !! k.2 = Some (f, T) -> own f = true -> reg !! k'.2 = Some (f', T') -> own f' = true ->
    log !! k = Some r -> log !! k' = Some r -> k = k';
  e_nonzero : forall k r, log !! k = Some r -> r <> 0;
  e_statics : forall T r, statics s !! T = Some r -> r <> 0
}.

(** *** The table *)

(** The page of the entry is there, or can be. *)
Definition page_ready (core : nat) (id : Z) (s : Machine) : Prop :=
  (core, PfnDown (IdToRefAddr id)) ∈ mapped s \/ free_pages s <> [].

(** The same machine but for its pages. *)
Definition same_but_pages (s s' : Machine) : Prop :=
  local_id_map s' = local_id_map s /\ words s' = words s /\ next s' = next s /\ statics s' = statics s /\ mapped s ⊆ mapped s'.

Lemma touch_spec s reg log core id : EInv s reg log -> 0 <= id < 2 ^ 29 -> page_ready core id s ->
  exists s', touch core (IdToRefAddr id) s = Ok s' /\ same_but_pages s s' /\ (core, PfnDown (IdToRefAddr id)) ∈ mapped s'.
Proof.
  intros HI Hid Hp. unfold touch. destruct (decide _) as [Hm|Hm]; [by exists s; split_and!; [| split_and! |] |].
  assert ((kVMemStart <=? IdToRefAddr id) = true) as -> by (apply Z.leb_le; rewrite IdToRefAddr_low by done; lia).
  destruct Hp as [Hp|Hp]; [done |]. unfold table_fault. destruct (free_pages s) as [|p ps]; [done |].
  eexists. split; [done |]. split; [| cbn; set_solver]. split_and!; [done | | done | done | cbn; set_solver].
  cbn [words]. apply map_filter_id. intros [c a] w Hw [Hc Ha]. cbn in Hc, Ha. subst c. apply Hm. rewrite <- Ha. by apply (e_mapped _ _ _ HI core a w).
Qed.

Lemma CacheRef_mapped core id rep s : (core, PfnDown (IdToRefAddr id)) ∈ mapped s -> CacheRef core id rep s = Ok (set_word core (IdToRefAddr id) rep s).
Proof. intros Hm. unfold CacheRef, store, touch. by rewrite decide_True. Qed.

(** *** What a reference does to the invariant *)

Lemma log_insert_ne (log : rep_log) (core : nat) (id r id' : Z) : id' <> id -> forall c, <[(core, id) := r]> log !! (c, id') = log !! (c, id').
Proof. intros Hne c. apply lookup_insert_ne. congruence. Qed.

Lemma entry_frame (f : flavour) (T id : Z) (s s' : Machine) (log log' : rep_log) : afind id (local_id_map s') = afind id (local_id_map s) -> (forall c, log' !! (c, id) = log !! (c, id)) ->
  (forall T r, statics s !! T = Some r -> statics s' !! T = Some r) -> entry_ok f T id s log -> entry_ok f T id s' log'.
Proof.
  intros Hf Hl Hs. unfold entry_ok. rewrite Hf. destruct f.
  - intros (root & reps & E & H). exists root, reps. split; [done |]. intros c. by rewrite Hl.
  - done.
  - done.
  - intros (rep & E & H0 & H). exists rep. split; [done |]. split; [done |]. intros c r. rewrite Hl. apply H.
  - intros (E & H). split; [done |]. intros c r. rewrite Hl. intros Hr. by eapply Hs, H.
  - intros (c & E & H0 & H). exists c. split; [done |]. split; [done |]. intros c' r. rewrite Hl. apply H.
Qed.

Record deref_ok (s s' : Machine) (reg : registry) (log : rep_log) (core : nat) (id : Z) (f : flavour) (T r : Z) : Prop := {
  d_words : words s' = <[(core, IdToRefAddr id) := r]> (words s) \/ (f = GlobalMap /\ words s' = words s);
  d_mapped : mapped s ⊆ mapped s' /\ (core, PfnDown (IdToRefAddr id)) ∈ mapped s';
  d_ids : forall id', id' <> id -> afind id' (local_id_map s') = afind id' (local_id_map s);
  d_next : next s <= next s';
  d_statics : forall T r, statics s !! T = Some r -> statics s' !! T = Some r;
  d_statics0 : forall T r, statics s' !! T = Some r -> r <> 0;
  d_nonzero : r <> 0;
  d_old : forall r0, log !! (core, id) = Some r0 -> r0 = r;
  d_own : own f = true -> r < next s' /\ forall k f' T', reg !! k.2 = Some (f', T') -> own f' = true -> log !! k = Some r -> k = (core, id);
  d_entry : entry_ok f T id s' (<[(core, id) := r]> log)
}.

Lemma EInv_deref s s' reg log core id f T r : EInv s reg log -> reg !! id = Some (f, T) -> deref_ok s s' reg log core id f T r ->
  EInv s' reg (<[(core, id) := r]> log).
Proof.
  intros HI Hr HD. pose proof HI as [I1 I2 I3 I4 I5 [I6 I6'] I7 I8 I9]. destruct HD as [D1 [D2 D2'] D3 D4 D5 D5' D6 D7 D8 D9].
  destruct (I1 id f T Hr) as [Hid _]. split.
  - intros id' f' T' Hr'. destruct (decide (id' = id)) as [->|Hne]; [rewrite Hr in Hr'; by injection Hr' as <- <- |].
    destruct (I1 id' f' T' Hr') as [Hid' He]. split; [done |]. by eapply entry_frame; [apply D3 | apply log_insert_ne | |].
  - intros id' Hr'. assert (id' <> id) as Hne by congruence. rewrite D3 by done. split; [by apply I2 |]. intros c. rewrite log_insert_ne by done. by apply I2.
  - intros c id' w Hid' Hw Hw0. destruct (decide ((c, id') = (core, id))) as [[= -> ->]|Hne].
    + rewrite lookup_insert_eq. destruct D1 as [D1|[_ D1]]; rewrite D1 in Hw; [by rewrite lookup_insert_eq in Hw |].
      f_equal. symmetry. apply D7. by apply I3.
    + rewrite lookup_insert_ne by done. apply I3; [done | | done].
      assert ((core, IdToRefAddr id) <> (c, IdToRefAddr id')) as Hne' by (intros [= -> E]; apply IdToRefAddr_inj in E; [congruence | lia | lia]).
      destruct D1 as [D1|[_ D1]]; rewrite D1 in Hw; [by rewrite lookup_insert_ne in Hw | done].
  - intros c id' r' f' T' Hr' Hg Hl. destruct (decide ((c, id') = (core, id))) as [[= -> ->]|Hne].
    + rewrite lookup_insert_eq in Hl. injection Hl as <-. rewrite Hr in Hr'. injection Hr' as <- <-. destruct D1 as [->|[? _]]; [by rewrite lookup_insert_eq | done].
    + rewrite lookup_insert_ne in Hl by done. pose proof (I4 _ _ _ _ _ Hr' Hg Hl) as Hw. destruct (I1 id' f' T' Hr') as [Hid' _].
      assert ((core, IdToRefAddr id) <> (c, IdToRefAddr id')) as Hne' by (intros [= -> E]; apply IdToRefAddr_inj in E; [congruence | lia | lia]).
      destruct D1 as [->|[_ ->]]; [by rewrite lookup_insert_ne | done].
  - intros c a w Hw. destruct D1 as [D1|[_ D1]]; rewrite D1 in Hw; [| by eapply D2, I5].
    destruct (decide ((c, a) = (core, IdToRefAddr id))) as [[= -> ->]|Hne]; [done |]. rewrite lookup_insert_ne in Hw by done. by eapply D2, I5.
  - split; [lia |]. intros c id' r' f' T' Hr' Ho Hl. destruct (decide ((c, id') = (core, id))) as [[= -> ->]|Hne].
    + rewrite lookup_insert_eq in Hl. injection Hl as <-. rewrite Hr in Hr'. injection Hr' as <- <-. by apply D8.
    + rewrite lookup_insert_ne in Hl by done. pose proof (I6' _ _ _ _ _ Hr' Ho Hl). lia.
  - intros k k' r' f1 f2 T1 T2 H1 O1 H2 O2 L1 L2. destruct (decide (k = (core, id))) as [->|N1], (decide (k' = (core, id))) as [->|N2]; [done | | |].
    + rewrite lookup_insert_eq in L1. injection L1 as <-. rewrite lookup_insert_ne in L2 by done. symmetry. cbn in H1. rewrite Hr in H1. injection H1 as <- <-. by eapply (proj2 (D8 O1)).
    + rewrite lookup_insert_eq in L2. injection L2 as <-. rewrite lookup_insert_ne in L1 by done. cbn in H2. rewrite Hr in H2. injection H2 as <- <-. by eapply (proj2 (D8 O2)).
    + rewrite lookup_insert_ne in L1, L2 by done. by eapply I7.
  - intros k r' Hl. destruct (decide (k = (core, id))) as [->|N]; [rewrite lookup_insert_eq in Hl; by injection Hl as <- | rewrite lookup_insert_ne in Hl by done; by eapply I8].
  - done.
Qed.

Lemma EInv_pages s s' reg log : same_but_pages s s' -> EInv s reg log -> EInv s' reg log.
Proof.
  intros (E1 & E2 & E3 & E4 & E5) [I1 I2 I3 I4 I5 I6 I7 I8 I9]. split; rewrite ?E1, ?E2, ?E3, ?E4; try done.
  - intros id f T Hr. destruct (I1 id f T Hr) as [Hid He]. split; [done |]. eapply entry_frame; [by rewrite E1 | done | by rewrite E4 | done].
  - intros core a w Hw. by eapply E5, I5.
Qed.

(** *** Faults *)

Lemma flavours f : f = Multicore \/ (f = MulticoreReps \/ exists i, f = MulticoreStatic i) \/ f = Shared \/ f = StaticShared \/ f = GlobalMap.
Proof. destruct f; eauto 6. Qed.

Section Fault.
Context (s : Machine) (reg : registry) (log : rep_log) (core : nat) (id : Z) (f : flavour) (T : Z).
Context (HI : EInv s reg log) (Hr : reg !! id = Some (f, T)) (Hm : (core, PfnDown (IdToRefAddr id)) ∈ mapped s).
Context (Hw : default 0 (words s !! (core, IdToRefAddr id)) = 0).

Lemma null_fresh : f <> GlobalMap -> log !! (core, id) = None.
Proof.
  intros Hg. destruct (log !! (core, id)) as [r|] eqn:El; [| done]. pose proof (e_cached _ _ _ HI core id r f T Hr Hg El) as Hc.
  rewrite Hc in Hw. cbn in Hw. by apply (e_nonzero _ _ _ HI) in El.
Qed.

(** A new object, cached. *)
Lemma fresh_deref ids' st' : f <> GlobalMap -> (forall id', id' <> id -> afind id' ids' = afind id' (local_id_map s)) ->
  (forall T r, statics s !! T = Some r -> st' !! T = Some r) -> (forall T r, st' !! T = Some r -> r <> 0) ->
  let s' := set_word core (IdToRefAddr id) (next s) (mkMachine ids' (mapped s) (words s) (free_pages s) (next s + 1) st') in
  entry_ok f T id s' (<[(core, id) := next s]> log) -> deref_ok s s' reg log core id f T (next s).
Proof.
  intros Hg Hids Hst Hst0 s' He. pose proof (null_fresh Hg) as Hl. destruct (e_next _ _ _ HI) as [Hn Hn'].
  split; cbn [s' set_word words mapped local_id_map next statics]; [by left | by split | done | lia | done | done | lia | by rewrite Hl | | done].
  intros Ho. split; [lia |]. intros [c i] f' T' H1 H2 H3. pose proof (Hn' c i _ _ _ H1 H2 H3). lia.
Qed.

Lemma multicore_fault : f = Multicore -> exists r s', HandleFault f core T id s = Ok (r, s') /\ deref_ok s s' reg log core id f T r.
Proof.
  intros Ef. destruct (e_reg _ _ _ HI id f T Hr) as [Hid He]. rewrite Ef in He. cbn in He. destruct He as (root & reps & E & Hreps).
  pose proof (null_fresh ltac:(by rewrite Ef)) as Hl. assert (HandleFault f core T id s = Multicore_HandleFault core T id s) as -> by (by rewrite Ef). unfold Multicore_HandleFault, GetRep, GetMapEntry.
  rewrite E, Z.eqb_refl, bind_Ok, bind_Ok, Hreps, Hl, bind_Ok. cbn [new_object]. unfold SetRep, GetMapEntry. cbn [local_id_map]. rewrite E, Z.eqb_refl, bind_Ok, bind_Ok.
  rewrite CacheRef_mapped by exact Hm. rewrite bind_Ok. do 2 eexists. split; [reflexivity |]. apply fresh_deref.
  - by rewrite Ef.
  - intros id' Hne. by apply afind_put_ne.
  - done.
  - apply (e_statics _ _ _ HI).
  - rewrite Ef. cbn. exists root, (aput core (next s) reps). split; [apply afind_put |]. intros c. destruct (decide (c = core)) as [->|Hne].
    + by rewrite afind_put, lookup_insert_eq.
    + rewrite afind_put_ne, lookup_insert_ne by congruence. apply Hreps.
Qed.

Lemma reps_fault : f = MulticoreReps \/ (exists i, f = MulticoreStatic i) -> exists r s', HandleFault f core T id s = Ok (r, s') /\ deref_ok s s' reg log core id f T r.
Proof.
  intros Ef. destruct (e_reg _ _ _ HI id f T Hr) as [Hid He]. assert (f <> GlobalMap) as Hg by (destruct Ef as [->|[i ->]]; done).
  assert (exists reps, afind id (local_id_map s) = Some (AReps T reps) /\ forall core, afind core reps = None) as (reps & E & Hreps)
    by (destruct Ef as [->|[i ->]]; cbn in He; [done | by destruct He]).
  exists (next s). eexists. split.
  - destruct Ef as [->|[i ->]]; cbn [HandleFault].
    + unfold Reps_HandleFault. rewrite E, Z.eqb_refl, Hreps. cbn [negb new_object]. rewrite CacheRef_mapped by exact Hm. rewrite bind_Ok. reflexivity.
    + destruct He as [-> _]. unfold Static_HandleFault. rewrite Z.eqb_refl. cbn [kassert]. rewrite bind_Ok, E, Z.eqb_refl, Hreps. cbn [negb new_object].
      rewrite CacheRef_mapped by exact Hm. rewrite bind_Ok. reflexivity.
  - apply fresh_deref; [done | done | done | apply (e_statics _ _ _ HI) |].
    destruct Ef as [->|[i ->]]; cbn in He |- *; [by exists reps | split; [apply He | by exists reps]].
Qed.

Lemma shared_fault : f = Shared -> exists r s', HandleFault f core T id s = Ok (r, s') /\ deref_ok s s' reg log core id f T r.
Proof.
  intros Ef. destruct (e_reg _ _ _ HI id f T Hr) as [Hid He]. pose proof (null_fresh ltac:(by rewrite Ef)) as Hl. rewrite Ef in He. cbn in He. destruct He as (rep & E & H0 & Hrep).
  rewrite Ef. cbn [HandleFault]. unfold Shared_HandleFault. rewrite E, Z.eqb_refl, CacheRef_mapped by exact Hm. rewrite bind_Ok. do 2 eexists. split; [reflexivity |].
  split; cbn [set_word words mapped local_id_map next statics]; [by left | by split | done | lia | done | apply (e_statics _ _ _ HI) | done | by rewrite Hl | done |].
  cbn. exists rep. split; [done |]. split; [done |]. intros c r Hc. destruct (decide (c = core)) as [->|Hne].
  - rewrite lookup_insert_eq in Hc. by injection Hc.
  - rewrite lookup_insert_ne in Hc by congruence. by eapply Hrep.
Qed.

Lemma static_fault : f = StaticShared -> exists r s', HandleFault f core T id s = Ok (r, s') /\ deref_ok s s' reg log core id f T r.
Proof.
  intros Ef. destruct (e_reg _ _ _ HI id f T Hr) as [Hid He]. pose proof (null_fresh ltac:(by rewrite Ef)) as Hl. rewrite Ef in He. cbn in He. destruct He as (E & Hrep).
  assert (HandleFault f core T id s = StaticShared_HandleFault core T id s) as -> by (by rewrite Ef). unfold StaticShared_HandleFault. destruct (statics s !! T) as [rep|] eqn:Es.
  - rewrite CacheRef_mapped by exact Hm. rewrite bind_Ok. exists rep. eexists. split; [reflexivity |].
    split; cbn [set_word words mapped local_id_map next statics]; [by left | by split | done | lia | done | apply (e_statics _ _ _ HI) | by apply (e_statics _ _ _ HI) in Es | by rewrite Hl | by rewrite Ef |].
    rewrite Ef. cbn. split; [done |]. intros c r Hc. destruct (decide (c = core)) as [->|Hne].
    + rewrite lookup_insert_eq in Hc. injection Hc as <-. done.
    + rewrite lookup_insert_ne in Hc by congruence. rewrite Es. by eapply Hrep.
  - cbn [new_object]. rewrite CacheRef_mapped by exact Hm. rewrite bind_Ok. exists (next s). eexists. split; [reflexivity |]. apply fresh_deref.
    + by rewrite Ef.
    + done.
    + intros T' r Ht. cbn. rewrite lookup_insert_ne; [done |]. intros ->. congruence.
    + intros T' r Ht. cbn in Ht. destruct (decide (T' = T)) as [->|Hne]; [rewrite lookup_insert_eq in Ht; injection Ht as <-; pose proof (proj1 (e_next _ _ _ HI)); lia |].
      rewrite lookup_insert_ne in Ht by done. by apply (e_statics _ _ _ HI) in Ht.
    + rewrite Ef. cbn. split; [done |]. intros c r Hc. destruct (decide (c = core)) as [->|Hne].
      * rewrite lookup_insert_eq in Hc. injection Hc as <-. by rewrite lookup_insert_eq.
      * rewrite lookup_insert_ne in Hc by congruence. by apply Hrep in Hc.
Qed.

Lemma global_fault : f = GlobalMap -> exists r s', HandleFault f core T id s = Ok (r, s') /\ deref_ok s s' reg log core id f T r.
Proof.
  intros Ef. destruct (e_reg _ _ _ HI id f T Hr) as [Hid He]. rewrite Ef in He. cbn in He. destruct He as (c & E & H0 & Hrep).
  rewrite Ef. cbn [HandleFault]. unfold Global_HandleFault. rewrite E, Z.eqb_refl. unfold Global_Construct. destruct c as [rep|].
  - exists rep, s. split; [done |]. split; [by right | by split | done | lia | done | apply (e_statics _ _ _ HI) | by apply H0 | | done |].
    + intros r0 Hl. apply Hrep in Hl. congruence.
    + cbn. exists (Some rep). split; [done |]. split; [done |]. intros c r Hc. destruct (decide (c = core)) as [->|Hne].
      * rewrite lookup_insert_eq in Hc. by injection Hc as <-.
      * rewrite lookup_insert_ne in Hc by congruence. by eapply Hrep.
  - cbn [new_object]. rewrite CacheRef_mapped by exact Hm. rewrite bind_Ok. do 2 eexists. split; [reflexivity |].
    assert (forall c, log !! (c, id) = None) as Hl by (intros c; destruct (log !! (c, id)) eqn:El; [by apply Hrep in El | done]).
    destruct (e_next _ _ _ HI) as [Hn _].
    split; cbn [set_word set_ids words mapped local_id_map next statics]; [by left | by split | intros id' Hne; by apply afind_put_ne | lia | done | apply (e_statics _ _ _ HI) | lia | by rewrite Hl | done |].
    cbn. exists (Some (next s)). split; [apply afind_put |]. split; [intros r [= <-]; lia |]. intros c r Hc. destruct (decide (c = core)) as [->|Hne].
    + rewrite lookup_insert_eq in Hc. by injection Hc as <-.
    + rewrite lookup_insert_ne, Hl in Hc by congruence. done.
Qed.

Lemma fault_spec : exists r s', HandleFault f core T id s = Ok (r, s') /\ deref_ok s s' reg log core id f T r.
Proof.
  destruct (flavours f) as [E|[E|[E|[E|E]]]].
  - by apply multicore_fault.
  - by apply reps_fault.
  - by apply shared_fault.
  - by apply static_fault.
  - by apply global_fault.
Qed.
End Fault.

(** *** References *)

(** On success the invariant holds with the representative that was given. *)
Lemma deref_spec s reg log core id f T : EInv s reg log -> reg !! id = Some (f, T) -> page_ready core id s ->
  exists r s', EbbRef_deref f core T (IdToRefAddr id) s = Ok (r, s') /\ EInv s' reg (<[(core, id) := r]> log) /\ (forall r0, log !! (core, id) = Some r0 -> r0 = r).
Proof.
  intros HI Hr Hp. destruct (e_reg _ _ _ HI id f T Hr) as [Hid _]. destruct (touch_spec s reg log core id HI Hid Hp) as (s1 & Et & Hs1 & Hm).
  pose proof (EInv_pages _ _ _ _ Hs1 HI) as HI1. unfold EbbRef_deref, load. rewrite Et, bind_Ok, bind_Ok, RefAddrToId_inv by lia.
  destruct (default 0 (words s1 !! (core, IdToRefAddr id)) =? 0) eqn:E; bool_to_prop.
  - destruct (fault_spec s1 reg log core id f T HI1 Hr Hm E) as (r & s2 & Ef & Hd). exists r, s2. split; [done |].
    split; [by eapply EInv_deref | apply (d_old _ _ _ _ _ _ _ _ _ Hd)].
  - destruct (words s1 !! (core, IdToRefAddr id)) as [w|] eqn:Ew; [| done]. cbn in E |- *. exists w, s1. split; [done |].
    pose proof (e_words _ _ _ HI1 core id w Hid Ew E) as Hl. rewrite insert_id by done. split; [done |]. intros r0 H0. congruence.
Qed.

(** ** Runs *)

Definition start (pages : list Z) : Machine := mkMachine aempty ∅ ∅ pages 1 ∅.

(** Ebbs are created with identifiers that were not used, and references to them are used
    on the cores. *)
Inductive ereach (pages : list Z) : Machine -> registry -> rep_log -> Prop :=
| er_start : ereach pages (start pages) ∅ ∅
| er_multicore s reg log T root id : ereach pages s reg log -> reg !! id = None -> 0 <= id < 2 ^ 29 ->
    ereach pages (Multicore_Create T root id s) (<[id := (Multicore, T)]> reg) log
| er_reps s reg log T id : ereach pages s reg log -> reg !! id = None -> 0 <= id < 2 ^ 29 ->
    ereach pages (Reps_Create T id s) (<[id := (MulticoreReps, T)]> reg) log
| er_static_reps s reg log T id : ereach pages s reg log -> reg !! id = None -> 0 <= id < 2 ^ 29 ->
    ereach pages (Reps_Create T id s) (<[id := (MulticoreStatic id, T)]> reg) log
| er_shared s reg log T rep id : ereach pages s reg log -> reg !! id = None -> 0 <= id < 2 ^ 29 -> rep <> 0 ->
    ereach pages (Shared_Create T rep id s) (<[id := (Shared, T)]> reg) log
| er_static s reg log T id : ereach pages s reg log -> reg !! id = None -> 0 <= id < 2 ^ 29 ->
    ereach pages s (<[id := (StaticShared, T)]> reg) log
| er_global s reg log T id : ereach pages s reg log -> reg !! id = None -> 0 <= id < 2 ^ 29 ->
    ereach pages (Global_Create T id s) (<[id := (GlobalMap, T)]> reg) log
| er_deref s reg log core id f T r s' : ereach pages s reg log -> reg !! id = Some (f, T) -> page_ready core id s ->
    EbbRef_deref f core T (IdToRefAddr id) s = Ok (r, s') -> ereach pages s' reg (<[(core, id) := r]> log).

Lemma EInv_start pages : EInv (start pages) ∅ ∅.
Proof.
  split; cbn [start local_id_map words mapped next statics].
  - intros id f T H. by rewrite lookup_empty in H.
  - intros id _. split; [apply afind_empty | intros core; apply lookup_empty].
  - intros core id w _ H. by rewrite lookup_empty in H.
  - intros core id r f T H. by rewrite lookup_empty in H.
  - intros core a w H. by rewrite lookup_empty in H.
  - split; [lia |]. intros core id r f T H. by rewrite lookup_empty in H.
  - intros k k' r f f' T T' H. by rewrite lookup_empty in H.
  - intros k r H. by rewrite lookup_empty in H.
  - intros T r H. by rewrite lookup_empty in H.
Qed.

Lemma EInv_create s reg log id f T m : EInv s reg log -> reg !! id = None -> 0 <= id < 2 ^ 29 ->
  (forall id', id' <> id -> afind id' m = afind id' (local_id_map s)) -> ((forall c, log !! (c, id) = None) -> entry_ok f T id (set_ids m s) log) ->
  EInv (set_ids m s) (<[id := (f, T)]> reg) log.
Proof.
  intros HI Hn Hid Hm He. pose proof HI as [I1 I2 I3 I4 I5 [I6 I6'] I7 I8 I9]. destruct (I2 id Hn) as [_ Hl].
  assert (forall k r, log !! k = Some r -> <[id := (f, T)]> reg !! k.2 = reg !! k.2) as Hk.
  { intros [c i] r H. cbn. rewrite lookup_insert_ne; [done |]. intros <-. by rewrite Hl in H. }
  split; cbn [set_ids local_id_map words mapped next statics]; try done.
  - intros id' f' T' H. destruct (decide (id' = id)) as [->|Hne].
    + rewrite lookup_insert_eq in H. injection H as <- <-. split; [done | by apply He].
    + rewrite lookup_insert_ne in H by done. destruct (I1 id' f' T' H) as [H1 H2]. split; [done |]. by eapply entry_frame; [apply Hm | | |].
  - intros id' H. assert (id' <> id) as Hne by (intros ->; by rewrite lookup_insert_eq in H). rewrite lookup_insert_ne in H by done. rewrite Hm by done. by apply I2.
  - intros c i r f' T' H Hg Hlr. pose proof (Hk (c, i) r Hlr) as Hkk. cbn in Hkk. rewrite Hkk in H. by eapply I4.
  - split; [done |]. intros c i r f' T' H Ho Hlr. pose proof (Hk (c, i) r Hlr) as Hkk. cbn in Hkk. rewrite Hkk in H. by eapply I6'.
  - intros k k' r f1 f2 T1 T2 H1 O1 H2 O2 L1 L2. rewrite (Hk _ _ L1) in H1. rewrite (Hk _ _ L2) in H2. by eapply I7.
Qed.

Lemma ainsert_new s reg log id v : EInv s reg log -> reg !! id = None -> (ainsert id v (local_id_map s)).2 = aput id v (local_id_map s).
Proof. intros HI Hn. unfold ainsert. by rewrite (proj1 (e_unreg _ _ _ HI id Hn)). Qed.

Lemma ereach_inv pages s reg log : ereach pages s reg log -> EInv s reg log.
Proof.
  induction 1 as [|s reg log T root id _ IH Hn Hid|s reg log T id _ IH Hn Hid|s reg log T id _ IH Hn Hid|s reg log T rep id _ IH Hn Hid H0|s reg log T id _ IH Hn Hid
    |s reg log T id _ IH Hn Hid|s reg log core id f T r s' _ IH Hr Hp E].
  - apply EInv_start.
  - unfold Multicore_Create. rewrite (ainsert_new _ _ _ _ _ IH Hn). apply EInv_create; [done.. | intros id' Hne; by apply afind_put_ne |].
    intros Hl. exists root, aempty. split; [apply afind_put |]. intros c. by rewrite afind_empty, Hl.
  - unfold Reps_Create. rewrite (ainsert_new _ _ _ _ _ IH Hn). apply EInv_create; [done.. | intros id' Hne; by apply afind_put_ne |].
    intros Hl. exists aempty. split; [apply afind_put | apply afind_empty].
  - unfold Reps_Create. rewrite (ainsert_new _ _ _ _ _ IH Hn). apply EInv_create; [done.. | intros id' Hne; by apply afind_put_ne |].
    intros Hl. split; [done |]. exists aempty. split; [apply afind_put | apply afind_empty].
  - unfold Shared_Create. rewrite (ainsert_new _ _ _ _ _ IH Hn). apply EInv_create; [done.. | intros id' Hne; by apply afind_put_ne |].
    intros Hl. exists rep. split; [apply afind_put |]. split; [done |]. intros c r Hc. by rewrite Hl in Hc.
  - assert (s = set_ids (local_id_map s) s) as -> by (by destruct s). apply EInv_create; [done.. |]. intros Hl. split; [by apply (e_unreg _ _ _ IH) |].
    intros c r Hc. by rewrite Hl in Hc.
  - unfold Global_Create. rewrite (ainsert_new _ _ _ _ _ IH Hn). apply EInv_create; [done.. | intros id' Hne; by apply afind_put_ne |].
    intros Hl. exists None. split; [apply afind_put |]. split; [done |]. intros c r Hc. by rewrite Hl in Hc.
  - destruct (deref_spec _ _ _ core id f T IH Hr Hp) as (r' & s2 & E' & HI & _). rewrite E' in E. by injection E as -> ->.
Qed.

(** ** What references promise *)


(** The map of representatives that the root of a multicore Ebb sees lists, for every core,
    exactly the representative that references on that core give. *)
Theorem multicore_reps_recorded pages s reg log id T : ereach pages s reg log -> reg !! id = Some (Multicore, T) ->
  exists root reps, afind id (local_id_map s) = Some (ARoot T root reps) /\ forall core, afind core reps = log !! (core, id).
Proof. intros Hs Hr. by destruct (e_reg _ _ _ (ereach_inv _ _ _ _ Hs) id Multicore T Hr) as [_ He]. Qed.

(** A multicore Ebb without a root, and a static one, never record a representative: the
    map that is looked up on a fault stays empty, however many cores have one. *)
Theorem reps_not_recorded pages s reg log id f T : ereach pages s reg log -> reg !! id = Some (f, T) -> f = MulticoreReps \/ f = MulticoreStatic id ->
  exists reps, afind id (local_id_map s) = Some (AReps T reps) /\ forall core, afind core reps = None.
Proof.
  intros Hs Hr Hf. destruct (e_reg _ _ _ (ereach_inv _ _ _ _ Hs) id f T Hr) as [_ He].
  destruct Hf as [->| ->]; cbn in He; [done | by destruct He].
Qed.

(** Once the global map was constructed by one core, a reference on another core, whose
    table has no entry, gives the representative but does not put it into the table: every
    further reference on that core takes the fault again. *)
Theorem global_map_not_cached pages s reg log core id T rep : ereach pages s reg log -> reg !! id = Some (GlobalMap, T) ->
  afind id (local_id_map s) = Some (ABase T (Some rep)) -> default 0 (words s !! (core, IdToRefAddr id)) = 0 -> page_ready core id s ->
  exists s', EbbRef_deref GlobalMap core T (IdToRefAddr id) s = Ok (rep, s') /\ words s' = words s.
Proof.
  intros Hs Hr Ha Hw Hp. pose proof (ereach_inv _ _ _ _ Hs) as HI. destruct (e_reg _ _ _ HI id GlobalMap T Hr) as [Hid _].
  destruct (touch_spec s reg log core id HI Hid Hp) as (s1 & Et & (E1 & E2 & _) & _). exists s1.
  unfold EbbRef_deref, load. rewrite Et, bind_Ok, bind_Ok, E2, Hw. cbn [Z.eqb HandleFault].
  unfold Global_HandleFault. rewrite RefAddrToId_inv by lia. rewrite E1, Ha, Z.eqb_refl. done.
Qed.
End Translation.

(** ** Identifiers of different nodes *)

Section Ids.
Context `{IntervalSet}.

(** The identifiers that the allocator of a node has given out, local and global, and its
    id space. The hosted library owns space 1. *)
Inductive node_reach : EbbAllocator -> list Z -> list Z -> Z -> Prop :=
| nr_hosted : node_reach (new_EbbAllocator true) [] [] 1
| nr_native space a : 2 <= space < 2 ^ 16 -> SetIdSpace space (new_EbbAllocator false) = Ok a -> node_reach a [] [] space
| nr_local a loc glob space id a' : node_reach a loc glob space -> AllocateLocal a = Ok (id, a') -> node_reach a' (id :: loc) glob space
| nr_global a loc glob space id a' : node_reach a loc glob space -> ebb_Allocate a = Ok (id, a') -> node_reach a' loc (id :: glob) space.

Definition in_space (space x : Z) : Prop := space * 65536 <= x < (space + 1) * 65536 - 1.

Definition NInv (a : EbbAllocator) (loc glob : list Z) (space : Z) : Prop :=
  1 <= space /\ pool_inv kFirstFreeId (kFirstStaticUserId - 1) (free_ids_ a, loc) /\ pool_inv (space * 65536) ((space + 1) * 65536 - 1) (free_global_ids_ a, glob).

Lemma pool_inv_new b e : pool_inv b e (add_interval b e iempty, []).
Proof.
  split; [constructor |]. split; [intros x Hx; by apply elem_of_nil in Hx |]. intros x. cbn [fst snd]. rewrite add_interval_spec, iempty_spec. cbn [orb].
  rewrite andb_true_iff, Z.leb_le, Z.ltb_lt. split; [intros; split; [lia | apply not_elem_of_nil] | tauto].
Qed.

Lemma ebb_node_inv a loc glob space : node_reach a loc glob space -> NInv a loc glob space.
Proof.
  induction 1 as [|space a Hs E|a loc glob space id a' _ (H0 & H1 & H2) E|a loc glob space id a' _ (H0 & H1 & H2) E].
  - split; [lia |]. split; apply pool_inv_new.
  - unfold SetIdSpace in E. destruct (_ || _); [done |]. injection E as <-. split; [lia |]. split; [apply pool_inv_new |].
    rewrite !Z.shiftl_mul_pow2 by lia. apply pool_inv_new.
  - unfold AllocateLocal in E. apply bind_ok in E as (? & Hk & [= <- <-]). apply kassert_ok, negb_true_iff in Hk. split; [done |]. split; [| done].
    apply (Allocate_inv kFirstFreeId (kFirstStaticUserId - 1) (free_ids_ a) loc (lower (free_ids_ a))); [done |]. unfold Allocate. by rewrite Hk.
  - unfold ebb_Allocate in E. destruct (iset_is_empty (free_global_ids_ a)) eqn:Hk; [done |]. injection E as <- <-. split; [done |]. split; [done |].
    apply (Allocate_inv (space * 65536) ((space + 1) * 65536 - 1) (free_global_ids_ a) glob (lower (free_global_ids_ a))); [done |]. unfold Allocate. by rewrite Hk.
Qed.

(** C33. No identifier is given out twice: a node never repeats one, its local ones are below the
    static ones and its global ones lie in its id space, so that the global identifiers of
    nodes with different spaces are different. As long as an id space has identifiers left
    allocation succeeds. *)
Theorem ebb_ids_unique a loc glob space b loc' glob' space' : node_reach a loc glob space -> node_reach b loc' glob' space' ->
  NoDup (loc ++ glob) /\ (forall id, id ∈ loc -> kFirstFreeId <= id < kFirstStaticUserId) /\ (forall id, id ∈ glob -> id / 65536 = space) /\
  (space <> space' -> forall id, id ∈ glob -> id ∉ glob') /\
  (Z.of_nat (length glob) < 65535 -> exists id a', ebb_Allocate a = Ok (id, a') /\ id ∉ loc ++ glob).
Proof.
  intros Ha Hb. destruct (ebb_node_inv _ _ _ _ Ha) as (S0 & (L1 & L2 & L3) & (G1 & G2 & G3)). destruct (ebb_node_inv _ _ _ _ Hb) as (_ & _ & (_ & G2' & _)).
  unfold kFirstFreeId, kFirstStaticUserId in *. cbn [fst snd] in *.
  assert (forall id, id ∈ glob -> id / 65536 = space) as Hsp by (intros id Hid; specialize (G2 id Hid); Z.to_euclidean_division_equations; lia).
  assert (forall id, id ∈ loc -> id ∉ glob) as Hdis by (intros id H1 H2; specialize (L2 id H1); specialize (G2 id H2); lia).
  split; [apply NoDup_app; split; [done | split; [done | done]] |]. split; [intros id Hid; specialize (L2 id Hid); lia |]. split; [done |]. split.
  - intros Hne id H1 H2. specialize (G2' id H2). specialize (G2 id H1). lia.
  - intros Hlen. unfold ebb_Allocate. destruct (iset_is_empty (free_global_ids_ a)) eqn:E.
    + exfalso. assert (seqZ (space * 65536) 65535 ⊆ glob) as Hsub.
      { intros x Hx. apply elem_of_seqZ in Hx. destruct (decide (x ∈ glob)) as [|Hn]; [done |]. exfalso.
        assert (contains (free_global_ids_ a) x = true) as Hc by (apply G3; split; [lia | done]). by rewrite (proj1 (iset_is_empty_spec _) E) in Hc. }
      pose proof (submseteq_length _ _ (NoDup_submseteq _ _ (NoDup_seqZ (space * 65536) 65535) Hsub)) as Hl. rewrite length_seqZ in Hl. lia.
    + destruct (lower_spec _ E) as [Hl _]. do 2 eexists. split; [done |]. apply G3 in Hl as [Hr Hn]. rewrite elem_of_app. intros [Hi|Hi]; [specialize (L2 _ Hi); lia | done].
Qed.
End Ids.

(** ** Static identifiers *)

Lemma oaat_loop_ok s : forall len h, (len <= length s)%nat -> exists h', oaat_loop s h len = Ok h'.
Proof.
  induction len as [|n IH]; intros h Hl; cbn [oaat_loop]; [by eexists |].
  destruct (lookup_lt_is_Some_2 s n) as [c ->]; [lia |]. apply IH. lia.
Qed.

Lemma lor_disjoint x : 0 <= x < 0x1000 -> Z.lor kFirstStaticUserId x = kFirstStaticUserId + x.
Proof. intros Hx. change kFirstStaticUserId with (Z.shiftl 1 15). rewrite Z.lor_comm, lor_shiftl by lia. change (Z.shiftl 1 15) with (1 * 2 ^ 15). lia. Qed.

(** The identifier of a string is defined for every string, and lies between the local
    identifiers and the global ones: it is one that no allocator gives out. *)
Theorem static_ids_reserved `{IntervalSet} str a loc glob space : node_reach a loc glob space ->
  exists id, GenerateStaticEbbId str = Ok id /\ 0x8000 <= id < 0x9000 /\ id ∉ loc ++ glob.
Proof.
  intros Ha. unfold GenerateStaticEbbId, one_at_a_time_hash. destruct (oaat_loop_ok str (length str) 0 ltac:(lia)) as [h ->]. rewrite !bind_Ok.
  eexists. split; [done |]. set (x := _ mod 0x1000). assert (0 <= x < 0x1000) as Hx by (apply Z.mod_pos_bound; lia). rewrite lor_disjoint by done.
  unfold kFirstStaticUserId. split; [lia |]. destruct (ebb_node_inv _ _ _ _ Ha) as (S0 & (_ & L2 & _) & (_ & G2 & _)). unfold kFirstFreeId, kFirstStaticUserId in *. cbn [fst snd] in *.
  rewrite elem_of_app. intros [Hi|Hi]; [specialize (L2 _ Hi); lia | specialize (G2 _ Hi); lia].
Qed.

(** ** Runs *)

#[export] Instance gmap_Assoc {K V} `{Countable K} : Assoc K V.
Proof.
  refine {| amap := gmap K V; aempty := ∅; afind k m := m !! k; aput k v m := <[k := v]> m |}.
  - intros k. apply lookup_empty.
  - intros k v m. apply lookup_insert_eq.
  - intros k k' v m Hne. by apply lookup_insert_ne.
Defined.

#[local] Existing Instance gset_IntervalSet.

Lemma demo_node : exists a, node_reach a [] [] 2.
Proof. eexists. apply (nr_native 2); [lia |]. reflexivity. Qed.

Lemma ebb_ids_unique_witness : exists b, node_reach b [] [] 2 /\ exists id a', ebb_Allocate (new_EbbAllocator true) = Ok (id, a') /\ id ∉ ([] : list Z).
Proof.
  destruct demo_node as [b Hb]. exists b. split; [exact Hb |].
  destruct (ebb_ids_unique (new_EbbAllocator true) [] [] 1 b [] [] 2 nr_hosted Hb) as (_ & _ & _ & _ & Ha). apply Ha. reflexivity.
Defined.

Lemma static_ids_reserved_witness : exists id, GenerateStaticEbbId [0x45; 0x62; 0x62] = Ok id /\ 0x8000 <= id < 0x9000.
Proof.
  destruct (static_ids_reserved [0x45; 0x62; 0x62] (new_EbbAllocator true) [] [] 1 nr_hosted) as (id & E & Hr & _). exists id. split; assumption.
Defined.

Definition demo_machine := Multicore_Create 7 99 10 (Global_Create 8 0 (Reps_Create 6 11 (start [1; 2; 3]))).
Definition demo_registry : gmap Z (flavour * Z) := <[10 := (Multicore, 7)]> (<[0 := (GlobalMap, 8)]> (<[11 := (MulticoreReps, 6)]> ∅)).

Lemma demo_ereach : ereach [1; 2; 3] demo_machine demo_registry ∅.
Proof. apply er_multicore; [apply er_global; [apply er_reps; [apply er_start | done | lia] | done | lia] | done | lia]. Qed.

Lemma demo_ready core id : page_ready core id demo_machine.
Proof. right. done. Qed.


Lemma multicore_reps_recorded_witness : exists root reps, afind 10 (local_id_map demo_machine) = Some (ARoot 7 root reps) /\ forall core, afind core reps = None.
Proof.
  destruct (multicore_reps_recorded [1; 2; 3] demo_machine demo_registry ∅ 10 7 demo_ereach eq_refl) as (root & reps & E & H).
  exists root, reps. split; [exact E |]. intros core. rewrite H. apply lookup_empty.
Defined.

Lemma reps_not_recorded_witness : exists reps, afind 11 (local_id_map demo_machine) = Some (AReps 6 reps) /\ forall core, afind core reps = None.
Proof. exact (reps_not_recorded [1; 2; 3] demo_machine demo_registry ∅ 11 MulticoreReps 6 demo_ereach eq_refl (or_introl eq_refl)). Defined.

(** Core 0 constructs the global map; core 1 then never has it in its table. *)
Lemma demo_first : match EbbRef_deref GlobalMap 0 8 (IdToRefAddr 0) demo_machine with Ok (r, s) => free_pages s = [2; 3] | Fail _ => False end.
Proof. vm_compute. reflexivity. Qed.

Lemma demo_global : exists r s, ereach [1; 2; 3] s demo_registry (<[(0%nat, 0) := r]> ∅) /\ afind 0 (local_id_map s) = Some (ABase 8 (Some r)) /\
  default 0 (words s !! (1%nat, IdToRefAddr 0)) = 0 /\ page_ready 1 0 s.
Proof.
  pose proof demo_first as Hf. destruct (EbbRef_deref GlobalMap 0 8 (IdToRefAddr 0) demo_machine) as [[r s]|] eqn:E; [| done]. exists r, s.
  pose proof (er_deref [1; 2; 3] demo_machine demo_registry ∅ 0 0 GlobalMap 8 r s demo_ereach eq_refl (demo_ready 0 0) E) as Hs. split; [exact Hs |].
  pose proof (ereach_inv _ _ _ _ Hs) as HI. destruct (e_reg _ _ _ HI 0 GlobalMap 8 eq_refl) as [_ (c & Ha & _ & Hc)].
  rewrite (Hc 0%nat r) in Ha by apply lookup_insert_eq. split; [exact Ha |]. split; [| right; by rewrite Hf].
  destruct (words s !! (1%nat, IdToRefAddr 0)) as [w|] eqn:Ew; [| done]. cbn. destruct (decide (w = 0)) as [|Hw]; [done |].
  pose proof (e_words _ _ _ HI 1%nat 0 w ltac:(lia) Ew Hw) as Hl. by rewrite lookup_insert_ne in Hl.
Qed.

Lemma global_map_not_cached_witness : exists r s s', EbbRef_deref GlobalMap 1 8 (IdToRefAddr 0) s = Ok (r, s') /\ words s' = words s.
Proof.
  destruct demo_global as (r & s & Hs & Ha & Hw & Hp). exists r, s.
  exact (global_map_not_cached [1; 2; 3] s demo_registry (<[(0%nat, 0) := r]> ∅) 1 0 8 r Hs eq_refl Ha Hw Hp).
Defined.
