(* ===== verification/EventManager.v ===== *)
(** * Events, contexts and grace periods

    Models src/src/native/EventManager.h and EventManager.cc: on every core a
    loop runs events to completion, one at a time; an event can run another one
    on a stack of its own (SpawnLocal), be suspended (SaveContext) and be made
    runnable again from any core (ActivateContext).  A token goes round the cores
    to tell when the events that were running have ended (DoRcu).

    The control flow that the code keeps in the machine stacks is explicit: a
    context records the call of InvokeFunction that is on its stack.  Between two
    steps of the model any number of instructions of the running events can
    happen; interrupts are only taken in the loop, as in the code. *)

From S2P Require Import Prelude.

(** ** Contexts *)

(** A function given to DoRcu.  The events that had not ended by then are
    recorded to state what the grace period is for; the code has no such list. *)
Record rcu_task := mkRcu { rt_id : nat; rt_readers : list nat }.

(** A call of InvokeFunction: the event it runs (numbered by the order in which
    events start, which the code does not do), its local [generation], whether
    its caller is CallSync or the loop, and when the event is in the loop of
    [Fire], the local [tasks] of it. *)
Record frame := mkFrame { fr_uid : nat; fr_generation : Z; fr_sync : bool; fr_tasks : list rcu_task }.

(** struct EventContext.  The saved registers are represented by what they
    resume. *)
Record EventContext := mkCtx {
  event_id : Z;
  stack : Z;
  tls : option (gmap Z Z);
  ctx_cpu : nat;
  ctx_generation : Z;
  running : option frame
}.

Definition set_running (v : option frame) (c : EventContext) : EventContext :=
  mkCtx (event_id c) (stack c) (tls c) (ctx_cpu c) (ctx_generation c) v.
Definition set_ctx_generation (v : Z) (c : EventContext) : EventContext :=
  mkCtx (event_id c) (stack c) (tls c) (ctx_cpu c) v (running c).
Definition set_tls (v : option (gmap Z Z)) (c : EventContext) : EventContext :=
  mkCtx (event_id c) (stack c) v (ctx_cpu c) (ctx_generation c) (running c).

(** What is queued to run: a function of the application, or the function with
    which ActivateContext resumes a context. *)
Inductive task := TUser (id : nat) | TActivate (c : EventContext).

(** ** class EventManager: the representative of one core *)

(** Besides the fields of the class: the stack interrupts are taken on
    (Cpu::SetEventStack), the pending interrupts 32 and 33, and whether the timer
    of the event manager is started. *)
Record EventManager := mkEM {
  free_stacks_ : list Z;
  tasks_ : list task;
  next_event_id_ : Z;
  active_event_context_ : EventContext;
  sync_contexts_ : list EventContext;
  idle_callback_ : bool;
  generation_ : Z;
  generation_count_ : Z * Z;
  pending_generation_ : Z;
  prev_rcu_tasks_ : list rcu_task;
  curr_rcu_tasks_ : list rcu_task;
  remote_tasks : list task;
  ipi_tasks : bool;
  ipi_token : bool;
  timer_on : bool;
  event_stack : Z
}.

Definition set_free_stacks (v : list Z) (m : EventManager) : EventManager :=
  mkEM v (tasks_ m) (next_event_id_ m) (active_event_context_ m) (sync_contexts_ m) (idle_callback_ m)
    (generation_ m) (generation_count_ m) (pending_generation_ m) (prev_rcu_tasks_ m) (curr_rcu_tasks_ m)
    (remote_tasks m) (ipi_tasks m) (ipi_token m) (timer_on m) (event_stack m).
Definition set_tasks (v : list task) (m : EventManager) : EventManager :=
  mkEM (free_stacks_ m) v (next_event_id_ m) (active_event_context_ m) (sync_contexts_ m) (idle_callback_ m)
    (generation_ m) (generation_count_ m) (pending_generation_ m) (prev_rcu_tasks_ m) (curr_rcu_tasks_ m)
    (remote_tasks m) (ipi_tasks m) (ipi_token m) (timer_on m) (event_stack m).
Definition set_next_event_id (v : Z) (m : EventManager) : EventManager :=
  mkEM (free_stacks_ m) (tasks_ m) v (active_event_context_ m) (sync_contexts_ m) (idle_callback_ m)
    (generation_ m) (generation_count_ m) (pending_generation_ m) (prev_rcu_tasks_ m) (curr_rcu_tasks_ m)
    (remote_tasks m) (ipi_tasks m) (ipi_token m) (timer_on m) (event_stack m).
Definition set_active_event_context (v : EventContext) (m : EventManager) : EventManager :=
  mkEM (free_stacks_ m) (tasks_ m) (next_event_id_ m) v (sync_contexts_ m) (idle_callback_ m) (generation_ m)
    (generation_count_ m) (pending_generation_ m) (prev_rcu_tasks_ m) (curr_rcu_tasks_ m) (remote_tasks m)
    (ipi_tasks m) (ipi_token m) (timer_on m) (event_stack m).
Definition set_sync_contexts (v : list EventContext) (m : EventManager) : EventManager :=
  mkEM (free_stacks_ m) (tasks_ m) (next_event_id_ m) (active_event_context_ m) v (idle_callback_ m)
    (generation_ m) (generation_count_ m) (pending_generation_ m) (prev_rcu_tasks_ m) (curr_rcu_tasks_ m)
    (remote_tasks m) (ipi_tasks m) (ipi_token m) (timer_on m) (event_stack m).
Definition set_idle_callback (v : bool) (m : EventManager) : EventManager :=
  mkEM (free_stacks_ m) (tasks_ m) (next_event_id_ m) (active_event_context_ m) (sync_contexts_ m) v
    (generation_ m) (generation_count_ m) (pending_generation_ m) (prev_rcu_tasks_ m) (curr_rcu_tasks_ m)
    (remote_tasks m) (ipi_tasks m) (ipi_token m) (timer_on m) (event_stack m).
Definition set_generation (v : Z) (m : EventManager) : EventManager :=
  mkEM (free_stacks_ m) (tasks_ m) (next_event_id_ m) (active_event_context_ m) (sync_contexts_ m)
    (idle_callback_ m) v (generation_count_ m) (pending_generation_ m) (prev_rcu_tasks_ m) (curr_rcu_tasks_ m)
    (remote_tasks m) (ipi_tasks m) (ipi_token m) (timer_on m) (event_stack m).
Definition set_generation_count (v : Z * Z) (m : EventManager) : EventManager :=
  mkEM (free_stacks_ m) (tasks_ m) (next_event_id_ m) (active_event_context_ m) (sync_contexts_ m)
    (idle_callback_ m) (generation_ m) v (pending_generation_ m) (prev_rcu_tasks_ m) (curr_rcu_tasks_ m)
    (remote_tasks m) (ipi_tasks m) (ipi_token m) (timer_on m) (event_stack m).
Definition set_pending_generation (v : Z) (m : EventManager) : EventManager :=
  mkEM (free_stacks_ m) (tasks_ m) (next_event_id_ m) (active_event_context_ m) (sync_contexts_ m)
    (idle_callback_ m) (generation_ m) (generation_count_ m) v (prev_rcu_tasks_ m) (curr_rcu_tasks_ m)
    (remote_tasks m) (ipi_tasks m) (ipi_token m) (timer_on m) (event_stack m).
Definition set_prev_rcu_tasks (v : list rcu_task) (m : EventManager) : EventManager :=
  mkEM (free_stacks_ m) (tasks_ m) (next_event_id_ m) (active_event_context_ m) (sync_contexts_ m)
    (idle_callback_ m) (generation_ m) (generation_count_ m) (pending_generation_ m) v (curr_rcu_tasks_ m)
    (remote_tasks m) (ipi_tasks m) (ipi_token m) (timer_on m) (event_stack m).
Definition set_curr_rcu_tasks (v : list rcu_task) (m : EventManager) : EventManager :=
  mkEM (free_stacks_ m) (tasks_ m) (next_event_id_ m) (active_event_context_ m) (sync_contexts_ m)
    (idle_callback_ m) (generation_ m) (generation_count_ m) (pending_generation_ m) (prev_rcu_tasks_ m) v
    (remote_tasks m) (ipi_tasks m) (ipi_token m) (timer_on m) (event_stack m).
Definition set_remote_tasks (v : list task) (m : EventManager) : EventManager :=
  mkEM (free_stacks_ m) (tasks_ m) (next_event_id_ m) (active_event_context_ m) (sync_contexts_ m)
    (idle_callback_ m) (generation_ m) (generation_count_ m) (pending_generation_ m) (prev_rcu_tasks_ m)
    (curr_rcu_tasks_ m) v (ipi_tasks m) (ipi_token m) (timer_on m) (event_stack m).
Definition set_ipi_tasks (v : bool) (m : EventManager) : EventManager :=
  mkEM (free_stacks_ m) (tasks_ m) (next_event_id_ m) (active_event_context_ m) (sync_contexts_ m)
    (idle_callback_ m) (generation_ m) (generation_count_ m) (pending_generation_ m) (prev_rcu_tasks_ m)
    (curr_rcu_tasks_ m) (remote_tasks m) v (ipi_token m) (timer_on m) (event_stack m).
Definition set_ipi_token (v : bool) (m : EventManager) : EventManager :=
  mkEM (free_stacks_ m) (tasks_ m) (next_event_id_ m) (active_event_context_ m) (sync_contexts_ m)
    (idle_callback_ m) (generation_ m) (generation_count_ m) (pending_generation_ m) (prev_rcu_tasks_ m)
    (curr_rcu_tasks_ m) (remote_tasks m) (ipi_tasks m) v (timer_on m) (event_stack m).
Definition set_timer_on (v : bool) (m : EventManager) : EventManager :=
  mkEM (free_stacks_ m) (tasks_ m) (next_event_id_ m) (active_event_context_ m) (sync_contexts_ m)
    (idle_callback_ m) (generation_ m) (generation_count_ m) (pending_generation_ m) (prev_rcu_tasks_ m)
    (curr_rcu_tasks_ m) (remote_tasks m) (ipi_tasks m) (ipi_token m) v (event_stack m).
Definition set_event_stack (v : Z) (m : EventManager) : EventManager :=
  mkEM (free_stacks_ m) (tasks_ m) (next_event_id_ m) (active_event_context_ m) (sync_contexts_ m)
    (idle_callback_ m) (generation_ m) (generation_count_ m) (pending_generation_ m) (prev_rcu_tasks_ m)
    (curr_rcu_tasks_ m) (remote_tasks m) (ipi_tasks m) (ipi_token m) (timer_on m) v.

(** [EventContext(event_id, stack)] and [next_event_id_++]. *)
Definition new_context (cpu : nat) (id st : Z) : EventContext := mkCtx id st None cpu 0 None.
Definition take_event_id (m : EventManager) : Z * EventManager :=
  (next_event_id_ m, set_next_event_id (u32 (next_event_id_ m + 1)) m).

(** ** Generations *)

(** [generation_count_[g % 2]]. *)
Definition count (g : Z) (m : EventManager) : Z :=
  if Z.odd g then (generation_count_ m).2 else (generation_count_ m).1.
Definition set_count (g v : Z) (m : EventManager) : EventManager :=
  set_generation_count (if Z.odd g then ((generation_count_ m).1, v) else (v, (generation_count_ m).2)) m.

(** InvokeFunction up to the call of [f], and after it has returned. *)
Definition InvokeBegin (uid : nat) (sync : bool) (m : EventManager) : EventManager :=
  let generation := generation_ m in
  let m := set_active_event_context (set_ctx_generation generation (active_event_context_ m)) m in
  let m := set_count generation (u64 (count generation m + 1)) m in
  set_active_event_context (set_running (Some (mkFrame uid generation sync [])) (active_event_context_ m)) m.
Definition InvokeEnd (f : frame) (m : EventManager) : EventManager :=
  let m := set_count (fr_generation f) (u64 (count (fr_generation f) m - 1)) m in
  set_active_event_context (set_running None (active_event_context_ m)) m.

(** ** Stacks *)

(** [fresh] is the region vmem_allocator->Alloc returns when it is called. *)
Definition AllocateStack (fresh : Z) (m : EventManager) : Z * EventManager :=
  match free_stacks_ m with
  | [] => (fresh, m)
  | st :: rest => (st, set_free_stacks rest m)
  end.
Definition FreeStack (st : Z) (m : EventManager) : EventManager := set_free_stacks (st :: free_stacks_ m) m.

(** ** The loop *)

(** Entering Process. *)
Definition Process (m : EventManager) : EventManager := set_event_stack (stack (active_event_context_ m)) m.

(** The function that ActivateContext queues: it leaves the stack it runs on, and
    with it the call of InvokeFunction. *)
Definition ActivatePrivate (c : EventContext) (m : EventManager) : EventManager :=
  let m := FreeStack (stack (active_event_context_ m)) m in
  let m := set_event_stack (stack c) m in
  set_active_event_context c m.

(** The loop takes the next task. *)
Definition run_task (uid : nat) (m : EventManager) : option EventManager :=
  match tasks_ m with
  | [] => None
  | f :: rest =>
      let m := InvokeBegin uid false (set_tasks rest m) in
      Some match f with TUser _ => m | TActivate c => ActivatePrivate c m end
  end.

(** With no task it calls the idle callback; without one it halts. *)
Definition run_idle (uid : nat) (m : EventManager) : option EventManager :=
  match tasks_ m with
  | [] => if idle_callback_ m then Some (InvokeBegin uid false m) else None
  | _ => None
  end.

(** The running event returns: to the loop, or to CallSync. *)
Definition event_return (m : EventManager) : option EventManager :=
  f ← running (active_event_context_ m);
  match fr_tasks f with
  | [] =>
      let m := InvokeEnd f m in
      if fr_sync f then
        match sync_contexts_ m with
        | [] => Some (Process m)
        | prev_context :: rest =>
            let m := FreeStack (stack (active_event_context_ m)) m in
            Some (set_sync_contexts rest (set_active_event_context prev_context m))
        end
      else Some m
  | _ => None
  end.

(** ** Spawning *)

Definition SpawnAsync (id : nat) (m : EventManager) : EventManager := set_tasks (tasks_ m ++ [TUser id]) m.

(** SpawnLocal without force_async, up to the call of the function in CallSync. *)
Definition SpawnSync (cpu : nat) (fresh : Z) (uid : nat) (m : EventManager) : EventManager :=
  let m := set_sync_contexts (active_event_context_ m :: sync_contexts_ m) m in
  let '(st, m) := AllocateStack fresh m in
  let '(id, m) := take_event_id m in
  InvokeBegin uid true (set_active_event_context (new_context cpu id st) m).

(** AddRemoteTask and the interrupt. *)
Definition AddRemoteTask (t : task) (m : EventManager) : EventManager :=
  set_ipi_tasks true (set_remote_tasks (remote_tasks m ++ [t]) m).

(** ** Suspending and resuming *)

Definition SaveContext (cpu : nat) (fresh : Z) (m : EventManager) : EventContext * EventManager :=
  let context := active_event_context_ m in
  match sync_contexts_ m with
  | [] =>
      let '(st, m) := AllocateStack fresh m in
      let '(id, m) := take_event_id m in
      (context, Process (set_active_event_context (new_context cpu id st) m))
  | prev_context :: rest => (context, set_sync_contexts rest (set_active_event_context prev_context m))
  end.

Definition ActivateContextSync (context : EventContext) (m : EventManager) : EventManager :=
  set_active_event_context context (set_sync_contexts (active_event_context_ m :: sync_contexts_ m) m).

(** ** Small operations *)

Definition GetEventId (m : EventManager) : Z := event_id (active_event_context_ m).
Definition GetTlsMap (m : EventManager) : gmap Z Z * EventManager :=
  match tls (active_event_context_ m) with
  | Some t => (t, m)
  | None => (∅, set_active_event_context (set_tls (Some ∅) (active_event_context_ m)) m)
  end.
Definition IdleStart (started_ : bool) (m : EventManager) : outcome (bool * EventManager) :=
  if started_ then Ok (started_, m) else
  _ ← kassert (negb (idle_callback_ m));
  Ok (true, set_idle_callback true m).
Definition IdleStop (started_ : bool) (m : EventManager) : bool * EventManager :=
  if started_ then (false, set_idle_callback false m) else (started_, m).

(** ** Grace periods *)

Definition StartTimer (m : EventManager) : EventManager := set_timer_on true m.
Definition ReceiveToken (m : EventManager) : EventManager :=
  let m := set_generation (u64 (generation_ m + 1)) (set_pending_generation (generation_ m) m) in
  StartTimer m.
Definition DoRcu (t : rcu_task) (m : EventManager) : EventManager := set_curr_rcu_tasks (curr_rcu_tasks_ m ++ [t]) m.

(** Interrupts 32 and 33 in ProcessInterrupt. *)
Definition remote_interrupt (m : EventManager) : EventManager :=
  let m := set_remote_tasks [] (set_tasks (tasks_ m ++ remote_tasks m) (set_ipi_tasks false m)) in
  Process m.
Definition token_interrupt (m : EventManager) : EventManager :=
  Process (ReceiveToken (set_ipi_token false m)).

(** ** The system *)

(** All cores, the contexts that are saved, and the interrupt vectors, shared by
    the cores.  [next_uid] numbers the events. *)
Record System := mkSys { cores : list EventManager; saved : list EventContext; vec_idx : Z; vec_map : list Z; next_uid : nat }.

Definition with_core (c : nat) (m : EventManager) (s : System) : System :=
  mkSys (<[c := m]> (cores s)) (saved s) (vec_idx s) (vec_map s) (next_uid s).
Definition with_saved (l : list EventContext) (s : System) : System :=
  mkSys (cores s) l (vec_idx s) (vec_map s) (next_uid s).
Definition event_started (s : System) : System :=
  mkSys (cores s) (saved s) (vec_idx s) (vec_map s) (S (next_uid s)).

(** AllocateVector. *)
Definition AllocateVector (s : System) : Z * System :=
  (vec_idx s, mkSys (cores s) (saved s) (u8 (vec_idx s + 1)) (vec_idx s :: vec_map s) (next_uid s)).
Definition new_vectors : Z * list Z := (34, []).

(** The events that have started and not ended, wherever their context is. *)
Definition task_ctxs (t : task) : list EventContext := match t with TUser _ => [] | TActivate c => [c] end.
Definition core_ctxs (m : EventManager) : list EventContext :=
  active_event_context_ m :: sync_contexts_ m ++ (tasks_ m ≫= task_ctxs) ++ (remote_tasks m ≫= task_ctxs).
Definition contexts (s : System) : list EventContext := saved s ++ (cores s ≫= core_ctxs).
Definition frames (l : list EventContext) : list frame := l ≫= fun c => option_list (running c).
Definition live (s : System) : list nat := fr_uid <$> frames (contexts s).

(** PassToken: interrupt 33 on the next core, or directly on the only one. *)
Definition PassToken (c : nat) (s : System) : outcome System :=
  let n := length (cores s) in
  if (1 <? n)%nat then
    let next_cpu_index := Nat.modulo (c + 1) n in
    m ← deref (cores s !! next_cpu_index);
    Ok (with_core next_cpu_index (set_ipi_token true m) s)
  else
    m ← deref (cores s !! c);
    Ok (with_core c (ReceiveToken m) s).

Definition set_fr_tasks (l : list rcu_task) (f : frame) : frame := mkFrame (fr_uid f) (fr_generation f) (fr_sync f) l.

(** Fire, the check of the generation, in the timer event of core [c]. *)
Definition Fire (c : nat) (s : System) : outcome System :=
  m ← deref (cores s !! c);
  f ← deref (running (active_event_context_ m));
  let m := set_timer_on false m in
  if count (pending_generation_ m) m =? 0 then
    s ← PassToken c (with_core c m s);
    m ← deref (cores s !! c);
    let tasks := prev_rcu_tasks_ m in
    let m := set_curr_rcu_tasks [] (set_prev_rcu_tasks (curr_rcu_tasks_ m) m) in
    let m := set_active_event_context (set_running (Some (set_fr_tasks tasks f)) (active_event_context_ m)) m in
    Ok (with_core c m s)
  else Ok (with_core c (StartTimer m) s).

(** The loop of Fire over its local tasks: one turn. *)
Definition fire_next (c : nat) (fresh : Z) (m : EventManager) (uid : nat) : option (rcu_task * EventManager) :=
  f ← running (active_event_context_ m);
  match fr_tasks f with
  | [] => None
  | t :: rest =>
      let m := set_active_event_context (set_running (Some (set_fr_tasks rest f)) (active_event_context_ m)) m in
      Some (t, SpawnSync c fresh uid m)
  end.

(** ActivateContext, on core [c]. *)
Definition ActivateContext (c : nat) (context : EventContext) (s : System) : outcome System :=
  if Nat.eqb (ctx_cpu context) c then
    m ← deref (cores s !! c);
    Ok (with_core c (set_tasks (tasks_ m ++ [TActivate context]) m) s)
  else
    m ← deref (cores s !! ctx_cpu context);
    Ok (with_core (ctx_cpu context) (AddRemoteTask (TActivate context) m) s).

(** SpawnRemote. *)
Definition SpawnRemote (id : nat) (cpu : nat) (s : System) : outcome System :=
  m ← deref (cores s !! cpu);
  Ok (with_core cpu (AddRemoteTask (TUser id) m) s).

(** ** Steps *)

(** The loop of core [c] is waiting for the next task or interrupt. *)
Definition in_loop (m : EventManager) : Prop := running (active_event_context_ m) = None.
(** An event runs on core [c], and is not in the loop of [Fire]. *)
Definition in_event (m : EventManager) : Prop := exists f, running (active_event_context_ m) = Some f /\ fr_tasks f = [].

(** The stacks in use or kept for reuse. *)
Definition core_stacks (m : EventManager) : list Z := (stack <$> core_ctxs m) ++ free_stacks_ m.
Definition stacks (s : System) : list Z := (stack <$> saved s) ++ (cores s ≫= core_stacks).

Inductive step : System -> System -> Prop :=
(* the loop *)
| st_task s c m m' : cores s !! c = Some m -> in_loop m -> run_task (next_uid s) m = Some m' ->
    step s (event_started (with_core c m' s))
| st_idle s c m m' : cores s !! c = Some m -> in_loop m -> run_idle (next_uid s) m = Some m' ->
    step s (event_started (with_core c m' s))
| st_remote s c m : cores s !! c = Some m -> in_loop m -> ipi_tasks m = true ->
    step s (with_core c (remote_interrupt m) s)
| st_token s c m : cores s !! c = Some m -> in_loop m -> ipi_token m = true ->
    step s (with_core c (token_interrupt m) s)
| st_interrupt s c m num : cores s !! c = Some m -> in_loop m -> num ∈ vec_map s ->
    step s (event_started (with_core c (InvokeBegin (next_uid s) false m) s))
(* what a running event can do *)
| st_return s c m m' : cores s !! c = Some m -> event_return m = Some m' -> step s (with_core c m' s)
| st_spawn_async s c m id : cores s !! c = Some m -> in_event m -> step s (with_core c (SpawnAsync id m) s)
| st_spawn_sync s c m fresh : cores s !! c = Some m -> in_event m -> fresh ∉ stacks s ->
    step s (event_started (with_core c (SpawnSync c fresh (next_uid s) m) s))
| st_spawn_remote s c m id cpu s' : cores s !! c = Some m -> in_event m -> SpawnRemote id cpu s = Ok s' -> step s s'
| st_save s c m fresh context m' : cores s !! c = Some m -> in_event m -> fresh ∉ stacks s ->
    SaveContext c fresh m = (context, m') -> step s (with_saved (context :: saved s) (with_core c m' s))
| st_activate s c m l1 context l2 s' : cores s !! c = Some m -> in_event m -> saved s = l1 ++ context :: l2 ->
    ActivateContext c context (with_saved (l1 ++ l2) s) = Ok s' -> step s s'
| st_rcu s c m id : cores s !! c = Some m -> in_event m -> step s (with_core c (DoRcu (mkRcu id (live s)) m) s)
| st_fire s c m s' : cores s !! c = Some m -> in_event m -> timer_on m = true -> Fire c s = Ok s' -> step s s'
| st_fire_next s c m fresh t m' : cores s !! c = Some m -> fresh ∉ stacks s ->
    fire_next c fresh m (next_uid s) = Some (t, m') -> step s (event_started (with_core c m' s))
| st_vector s c m : cores s !! c = Some m -> in_event m -> step s (AllocateVector s).2
| st_tls s c m : cores s !! c = Some m -> in_event m -> step s (with_core c (GetTlsMap m).2 s)
| st_idle_start s c m started r : cores s !! c = Some m -> in_event m -> IdleStart started m = Ok r ->
    step s (with_core c r.2 s)
| st_idle_stop s c m started : cores s !! c = Some m -> in_event m -> step s (with_core c (IdleStop started m).2 s).

(** A core as its constructor makes it, in the loop. *)
Definition new_core (cpu : nat) (st : Z) : EventManager :=
  mkEM [] [] (u32 (Z.shiftl (Z.of_nat cpu) 24 + 1)) (new_context cpu (u32 (Z.shiftl (Z.of_nat cpu) 24)) st) [] false
    0 (0, 0) 0 [] [] [] false false false st.

(** After boot: every core is in its loop but the first, whose boot event has
    called ReceiveToken. *)
Definition boot (sts : list Z) : System :=
  let cs := imap new_core sts in
  mkSys (match cs with [] => [] | m :: t => ReceiveToken (InvokeBegin 0 false m) :: t end) []
    new_vectors.1 new_vectors.2 1.
