(* ===== verification/EventCorrect.v ===== *)
(** * Stacks and control flow of the event manager

    No stack is used by two contexts and none is lost; when a core takes an
    interrupt, the stack on which it is handled holds no suspended event. *)

From S2P Require Import Prelude EventManager.

(** ** The parts of the system that belong to a core *)

Lemma bind_insert {A B} (f : A -> list B) l i x y : l !! i = Some x ->
  exists r, l ≫= f ≡ₚ f x ++ r /\ <[i := y]> l ≫= f ≡ₚ f y ++ r.
Proof.
  intros Hi. exists ((take i l ++ drop (S i) l) ≫= f). split.
  - rewrite <- (take_drop_middle l i x Hi) at 1. rewrite !bind_app, bind_cons. solve_Permutation.
  - rewrite insert_take_drop by (by apply lookup_lt_Some in Hi). rewrite !bind_app, bind_cons. solve_Permutation.
Qed.

Lemma stacks_core s c m m' : cores s !! c = Some m -> core_stacks m' ≡ₚ core_stacks m ->
  stacks (with_core c m' s) ≡ₚ stacks s.
Proof.
  intros Hc Hp. destruct (bind_insert core_stacks (cores s) c m m' Hc) as (r & H1 & H2).
  unfold stacks, with_core. cbn [cores saved]. by rewrite H1, H2, Hp.
Qed.

Lemma stacks_core_fresh s c m m' x : cores s !! c = Some m -> core_stacks m' ≡ₚ x :: core_stacks m ->
  stacks (with_core c m' s) ≡ₚ x :: stacks s.
Proof.
  intros Hc Hp. destruct (bind_insert core_stacks (cores s) c m m' Hc) as (r & H1 & H2).
  unfold stacks, with_core. cbn [cores saved]. rewrite H1, H2, Hp. solve_Permutation.
Qed.

Lemma InvokeBegin_stacks uid b m : core_stacks (InvokeBegin uid b m) = core_stacks m.
Proof. done. Qed.
Lemma InvokeEnd_stacks f m : core_stacks (InvokeEnd f m) = core_stacks m.
Proof. done. Qed.

Lemma core_stacks_eq m : core_stacks m =
  stack (active_event_context_ m) :: (stack <$> sync_contexts_ m) ++ (stack <$> (tasks_ m ≫= task_ctxs)) ++
    (stack <$> (remote_tasks m ≫= task_ctxs)) ++ free_stacks_ m.
Proof. unfold core_stacks, core_ctxs. rewrite fmap_cons, !fmap_app. cbn [app]. by rewrite <- !app_assoc. Qed.

Lemma run_task_stacks uid m m' : run_task uid m = Some m' -> core_stacks m' ≡ₚ core_stacks m.
Proof.
  unfold run_task. destruct (tasks_ m) as [|f rest] eqn:Et; [done |]. intros [= <-].
  rewrite !core_stacks_eq, Et. destruct f as [i|c]; cbn [tasks_ sync_contexts_ remote_tasks free_stacks_ active_event_context_
    InvokeBegin ActivatePrivate FreeStack set_active_event_context set_event_stack set_free_stacks set_count set_generation_count
    set_tasks set_running set_ctx_generation stack]; rewrite bind_cons; cbn [task_ctxs app]; [done |].
  rewrite fmap_cons. solve_Permutation.
Qed.

Lemma event_return_stacks m m' : event_return m = Some m' -> core_stacks m' ≡ₚ core_stacks m.
Proof.
  unfold event_return. destruct (running _) as [f|]; [| done]. cbn [mbind option_bind].
  destruct (fr_tasks f); [| done]. change (sync_contexts_ (InvokeEnd f m)) with (sync_contexts_ m).
  destruct (fr_sync f); [| by intros [= <-]].
  destruct (sync_contexts_ m) as [|p rest] eqn:Es; [by intros [= <-] |]. intros [= <-].
  rewrite !core_stacks_eq, Es, fmap_cons.
  cbn [sync_contexts_ active_event_context_ free_stacks_ tasks_ remote_tasks set_sync_contexts set_active_event_context FreeStack
    set_free_stacks InvokeEnd set_count set_generation_count stack set_running]. solve_Permutation.
Qed.

Lemma SpawnSync_stacks c fresh uid m : core_stacks (SpawnSync c fresh uid m) ≡ₚ core_stacks m \/
  core_stacks (SpawnSync c fresh uid m) ≡ₚ fresh :: core_stacks m.
Proof.
  unfold SpawnSync, AllocateStack. change (free_stacks_ (set_sync_contexts _ m)) with (free_stacks_ m).
  destruct (free_stacks_ m) as [|st rest] eqn:Ef; [right | left];
    cbn [take_event_id]; rewrite InvokeBegin_stacks, !core_stacks_eq, Ef;
    cbn [sync_contexts_ active_event_context_ free_stacks_ tasks_ remote_tasks set_sync_contexts set_active_event_context
      set_free_stacks set_next_event_id stack new_context]; rewrite ?Ef, fmap_cons; solve_Permutation.
Qed.

Lemma SaveContext_stacks c fresh m context m' : SaveContext c fresh m = (context, m') ->
  stack context :: core_stacks m' ≡ₚ core_stacks m \/ stack context :: core_stacks m' ≡ₚ fresh :: core_stacks m.
Proof.
  unfold SaveContext, AllocateStack. destruct (sync_contexts_ m) as [|p rest] eqn:Es.
  - destruct (free_stacks_ m) as [|st rest] eqn:Ef; cbn [take_event_id]; intros [= <- <-]; [right | left];
      rewrite !core_stacks_eq, Es, Ef;
      cbn [sync_contexts_ active_event_context_ free_stacks_ tasks_ remote_tasks set_sync_contexts set_active_event_context
        set_free_stacks set_next_event_id stack new_context Process set_event_stack]; rewrite ?Es, ?Ef; solve_Permutation.
  - intros [= <- <-]. left. rewrite !core_stacks_eq, Es, fmap_cons.
    cbn [sync_contexts_ active_event_context_ free_stacks_ tasks_ remote_tasks set_sync_contexts set_active_event_context].
    solve_Permutation.
Qed.

Lemma deref_ok {A} (o : option A) a : deref o = Ok a -> o = Some a.
Proof. destruct o; cbn; congruence. Qed.

Lemma core_stacks_task t m : core_stacks (set_tasks (tasks_ m ++ [t]) m) ≡ₚ (stack <$> task_ctxs t) ++ core_stacks m.
Proof.
  rewrite !core_stacks_eq. cbn [tasks_ sync_contexts_ active_event_context_ remote_tasks free_stacks_ set_tasks].
  rewrite bind_app, bind_singleton, fmap_app. solve_Permutation.
Qed.
Lemma core_stacks_remote t m : core_stacks (AddRemoteTask t m) ≡ₚ (stack <$> task_ctxs t) ++ core_stacks m.
Proof.
  rewrite !core_stacks_eq.
  cbn [tasks_ sync_contexts_ active_event_context_ remote_tasks free_stacks_ set_remote_tasks set_ipi_tasks AddRemoteTask].
  rewrite bind_app, bind_singleton, fmap_app. solve_Permutation.
Qed.

Lemma ActivateContext_stacks c context s s' : ActivateContext c context s = Ok s' ->
  stacks s' ≡ₚ stack context :: stacks s.
Proof.
  unfold ActivateContext. destruct (Nat.eqb _ _); intros (m & Hm%deref_ok & [= <-])%bind_ok;
    apply (stacks_core_fresh _ _ _ _ _ Hm); [apply core_stacks_task | apply core_stacks_remote].
Qed.

Lemma PassToken_stacks c s s' : PassToken c s = Ok s' -> stacks s' ≡ₚ stacks s.
Proof.
  unfold PassToken. destruct (_ <? _)%nat; intros (m & Hm%deref_ok & [= <-])%bind_ok; by apply (stacks_core _ _ _ _ Hm).
Qed.

Lemma Fire_stacks c s s' : Fire c s = Ok s' -> stacks s' ≡ₚ stacks s.
Proof.
  unfold Fire. intros (m & Hm%deref_ok & (f & Hf%deref_ok & H)%bind_ok)%bind_ok.
  destruct (_ =? 0).
  - apply bind_ok in H as (s1 & Hp & H). apply bind_ok in H as (m1 & Hm1%deref_ok & [= <-]).
    etransitivity; [by apply (stacks_core _ _ _ _ Hm1) |]. rewrite (PassToken_stacks _ _ _ Hp). by apply (stacks_core _ _ _ _ Hm).
  - injection H as <-. by apply (stacks_core _ _ _ _ Hm).
Qed.

Lemma fire_next_stacks c fresh m uid t m' : fire_next c fresh m uid = Some (t, m') ->
  core_stacks m' ≡ₚ core_stacks m \/ core_stacks m' ≡ₚ fresh :: core_stacks m.
Proof.
  unfold fire_next. destruct (running _) as [f|]; [| done]. cbn [mbind option_bind].
  destruct (fr_tasks f) as [|t0 rest]; [done |]. intros [= <- <-].
  match goal with |- core_stacks (SpawnSync _ _ _ ?m0) ≡ₚ _ \/ _ => exact (SpawnSync_stacks c fresh uid m0) end.
Qed.

Lemma step_stacks s s' : step s s' ->
  stacks s' ≡ₚ stacks s \/ exists fresh, fresh ∉ stacks s /\ stacks s' ≡ₚ fresh :: stacks s.
Proof.
  assert (forall s c m m' fresh, cores s !! c = Some m -> fresh ∉ stacks s ->
    core_stacks m' ≡ₚ core_stacks m \/ core_stacks m' ≡ₚ fresh :: core_stacks m ->
    stacks (with_core c m' s) ≡ₚ stacks s \/ exists fresh, fresh ∉ stacks s /\ stacks (with_core c m' s) ≡ₚ fresh :: stacks s) as Hfresh.
  { intros s0 c m m' fresh Hc Hf [H|H]; [left; by apply (stacks_core _ _ _ _ Hc) | right].
    exists fresh. split; [done | by apply (stacks_core_fresh _ _ _ _ _ Hc)]. }
  destruct 1 as [s c m m' Hc _ H|s c m m' Hc _ H|s c m Hc _ _|s c m Hc _ _|s c m num Hc _ _|s c m m' Hc H|s c m id Hc _
    |s c m fresh Hc _ Hf|s c m id cpu s' Hc _ H|s c m fresh context m' Hc _ Hf H|s c m l1 context l2 s' Hc _ Hs H|s c m id Hc _
    |s c m s' Hc _ _ H|s c m fresh t m' Hc Hf H|s c m Hc _|s c m Hc _|s c m started r Hc _ H|s c m started Hc _].
  - left. apply (stacks_core _ _ _ _ Hc). by eapply run_task_stacks.
  - left. apply (stacks_core _ _ _ _ Hc). unfold run_idle in H. repeat case_match; try done. by injection H as <-.
  - left. apply (stacks_core _ _ _ _ Hc). rewrite !core_stacks_eq.
    cbn [remote_interrupt Process set_event_stack set_remote_tasks set_tasks set_ipi_tasks tasks_ remote_tasks sync_contexts_
      active_event_context_ free_stacks_]. rewrite bind_app, fmap_app.
    change (stack <$> ([] ≫= task_ctxs)) with (@nil Z). solve_Permutation.
  - left. by apply (stacks_core _ _ _ _ Hc).
  - left. by apply (stacks_core _ _ _ _ Hc).
  - left. apply (stacks_core _ _ _ _ Hc). by apply event_return_stacks.
  - left. apply (stacks_core _ _ _ _ Hc), core_stacks_task.
  - apply (Hfresh _ _ _ _ _ Hc Hf). apply SpawnSync_stacks.
  - left. apply bind_ok in H as (m' & Hm%deref_ok & [= <-]). apply (stacks_core _ _ _ _ Hm), core_stacks_remote.
  - apply SaveContext_stacks in H.
    destruct (bind_insert core_stacks (cores s) c m m' Hc) as (r & H1 & H2).
    assert (stacks (with_saved (context :: saved s) (with_core c m' s)) ≡ₚ
      (stack context :: core_stacks m') ++ r ++ (stack <$> saved s)) as E.
    { unfold stacks, with_core. cbn [with_saved cores saved]. rewrite H2, fmap_cons. solve_Permutation. }
    assert (stacks s ≡ₚ core_stacks m ++ r ++ (stack <$> saved s)) as Hs by (unfold stacks; rewrite H1; solve_Permutation).
    destruct H as [H|H]; rewrite H in E; [left; by rewrite E, Hs | right].
    exists fresh. split; [done | rewrite E, Hs; solve_Permutation].
  - left. rewrite (ActivateContext_stacks _ _ _ _ H). unfold stacks. rewrite Hs. cbn [with_saved saved cores].
    rewrite !fmap_app, fmap_cons. solve_Permutation.
  - left. by apply (stacks_core _ _ _ _ Hc).
  - left. by eapply Fire_stacks.
  - apply (Hfresh _ _ _ _ _ Hc Hf). by eapply fire_next_stacks.
  - by left.
  - left. apply (stacks_core _ _ _ _ Hc). unfold GetTlsMap. by case_match.
  - left. apply (stacks_core _ _ _ _ Hc). unfold IdleStart in H. destruct started; [by injection H as <- |].
    by apply bind_ok in H as (_ & _ & [= <-]).
  - left. apply (stacks_core _ _ _ _ Hc). unfold IdleStop. by destruct started.
Qed.

(** ** Control flow *)

Definition sync_frame (x : EventContext) : Prop := exists f, running x = Some f /\ fr_sync f = true.
(** The active context and those below it: all but the last run in CallSync. *)
Fixpoint chain_ok (l : list EventContext) : Prop :=
  match l with [] => True | x :: t => (t = [] \/ sync_frame x) /\ chain_ok t end.
(** The context that was started by the loop. *)
Definition base (m : EventManager) : EventContext := List.last (sync_contexts_ m) (active_event_context_ m).

Record Ctl (c : nat) (m : EventManager) : Prop := {
  ctl_cpu : Forall (fun x => ctx_cpu x = c) (core_ctxs m);
  ctl_chain : chain_ok (active_event_context_ m :: sync_contexts_ m);
  ctl_run : Forall (fun x => running x <> None) (sync_contexts_ m);
  ctl_stack : event_stack m = stack (base m)
}.

Lemma frame_chain_head x y t : chain_ok (x :: t) -> (t = [] \/ sync_frame y) -> chain_ok (y :: t).
Proof. intros [_ H]. by split. Qed.

Lemma last_cons {A} (a d : A) l : List.last (a :: l) d = List.last l a.
Proof. revert a d. induction l as [|b l IH]; intros a d; [done |]. change (List.last (b :: l) d = List.last (b :: l) a). by rewrite !IH. Qed.

(** What a core without a running event looks like. *)
Lemma loop_sync c m : Ctl c m -> in_loop m -> sync_contexts_ m = [].
Proof. intros [_ [[H|(f & Hf & _)] _] _ _] Hl; [done |]. unfold in_loop in Hl. congruence. Qed.

(** Changing the call on the active stack. *)
Lemma Ctl_active c m x : Ctl c m -> ctx_cpu x = c -> stack x = stack (active_event_context_ m) ->
  (sync_contexts_ m = [] \/ sync_frame x) -> Ctl c (set_active_event_context x m).
Proof.
  intros [H1 H2 H3 H4] Hx Hs Hf. split; cbn [set_active_event_context sync_contexts_ active_event_context_ event_stack].
  - apply Forall_cons in H1 as [_ H1]. by apply Forall_cons_2.
  - by eapply frame_chain_head.
  - done.
  - rewrite H4. unfold base. cbn [sync_contexts_ active_event_context_ set_active_event_context]. destruct (sync_contexts_ m) as [|y t]; [cbn; congruence | by rewrite !last_cons].
Qed.

(** Fields the invariant does not depend on. *)
Lemma Ctl_same c m m' : Ctl c m -> active_event_context_ m' = active_event_context_ m -> sync_contexts_ m' = sync_contexts_ m ->
  event_stack m' = event_stack m -> tasks_ m' ≫= task_ctxs = tasks_ m ≫= task_ctxs ->
  remote_tasks m' ≫= task_ctxs = remote_tasks m ≫= task_ctxs -> Ctl c m'.
Proof. intros [H1 H2 H3 H4] Ea Es Ee Et Er. split; unfold core_ctxs, base in *; by rewrite ?Ea, ?Es, ?Ee, ?Et, ?Er. Qed.

Lemma Ctl_active_cpu c m : Ctl c m -> ctx_cpu (active_event_context_ m) = c.
Proof. intros [H _ _ _]. by apply Forall_cons in H as [? _]. Qed.

Lemma InvokeBegin_ctl c uid b m : Ctl c m -> (sync_contexts_ m = [] \/ b = true) -> Ctl c (InvokeBegin uid b m).
Proof.
  intros I Hb. unfold InvokeBegin. apply Ctl_active.
  - eapply Ctl_same; [apply (Ctl_active c m (set_ctx_generation (generation_ m) (active_event_context_ m)) I) | done..];
      [exact (Ctl_active_cpu c m I) | done |].
    destruct I as [_ [H2 _] _ _]. destruct H2 as [?|(f & Hf & ?)]; [by left | right; by exists f].
  - exact (Ctl_active_cpu c m I).
  - done.
  - destruct Hb as [? | ->]; [by left | right]. by eexists.
Qed.

Lemma InvokeEnd_ctl c f m : Ctl c m -> sync_contexts_ m = [] -> Ctl c (InvokeEnd f m).
Proof.
  intros I Hs. unfold InvokeEnd. apply Ctl_active; [by eapply Ctl_same | exact (Ctl_active_cpu c m I) | done | by left].
Qed.

(** Going back to the context below. *)
Lemma Ctl_pop c m p rest : Ctl c m -> sync_contexts_ m = p :: rest ->
  Ctl c (set_sync_contexts rest (set_active_event_context p m)).
Proof.
  intros [H1 H2 H3 H4] Es. unfold core_ctxs, base in *. rewrite Es in *.
  split; unfold core_ctxs, base; cbn [set_sync_contexts set_active_event_context sync_contexts_ active_event_context_ tasks_ remote_tasks event_stack].
  - by apply Forall_cons in H1 as [_ H1].
  - by destruct H2 as [_ H2].
  - by apply Forall_cons in H3 as [_ H3].
  - by rewrite H4, last_cons.
Qed.

Lemma event_return_ctl c m m' : Ctl c m -> event_return m = Some m' -> Ctl c m'.
Proof.
  intros I. unfold event_return. destruct (running _) as [f|] eqn:Er; [| done]. cbn [mbind option_bind].
  destruct (fr_tasks f); [| done]. change (sync_contexts_ (InvokeEnd f m)) with (sync_contexts_ m).
  destruct (fr_sync f) eqn:Ef.
  - destruct (sync_contexts_ m) as [|p rest] eqn:Es; intros [= <-].
    + pose proof (InvokeEnd_ctl c f m I Es) as [J1 J2 J3 J4]. split; try done. unfold base. cbn. by rewrite Es.
    + eapply Ctl_same; [exact (Ctl_pop c m p rest I Es) | done..].
  - intros [= <-]. apply InvokeEnd_ctl; [done |]. destruct I as [_ [[H|(f' & Hf & Hs)] _] _ _]; [done |]. congruence.
Qed.

(** Tasks that come and go. *)
Lemma Ctl_tasks c m m' : Ctl c m -> active_event_context_ m' = active_event_context_ m -> sync_contexts_ m' = sync_contexts_ m ->
  event_stack m' = event_stack m -> Forall (fun x => ctx_cpu x = c) ((tasks_ m' ≫= task_ctxs) ++ (remote_tasks m' ≫= task_ctxs)) ->
  Ctl c m'.
Proof.
  intros [H1 H2 H3 H4] Ea Es Ee Ht. split; unfold core_ctxs, base in *; rewrite ?Ea, ?Es, ?Ee; try done.
  apply Forall_cons in H1 as [H1 H5]. apply Forall_app in H5 as [H5 _]. apply Forall_cons_2; [done |]. by apply Forall_app_2.
Qed.

Lemma Ctl_queued c m : Ctl c m -> Forall (fun x => ctx_cpu x = c) (tasks_ m ≫= task_ctxs) /\
  Forall (fun x => ctx_cpu x = c) (remote_tasks m ≫= task_ctxs).
Proof. intros [H1 _ _ _]. apply Forall_cons in H1 as [_ H1]. apply Forall_app in H1 as [_ H1]. by apply Forall_app. Qed.

Lemma run_task_ctl c uid m m' : Ctl c m -> in_loop m -> run_task uid m = Some m' -> Ctl c m'.
Proof.
  intros I Hl. pose proof (loop_sync c m I Hl) as Es. unfold run_task. destruct (tasks_ m) as [|f rest] eqn:Et; [done |].
  intros [= <-]. destruct (Ctl_queued c m I) as [Hq1 Hq2]. rewrite Et, bind_cons in Hq1. apply Forall_app in Hq1 as [Hf Hq1].
  assert (Ctl c (InvokeBegin uid false (set_tasks rest m))) as J.
  { apply InvokeBegin_ctl; [| by left]. apply (Ctl_tasks c m); try done. by apply Forall_app_2. }
  destruct f as [i|x]; [done |]. apply Forall_cons in Hf as [Hx _]. unfold ActivatePrivate.
  destruct J as [J1 J2 J3 J4]. split; unfold core_ctxs, base in *;
    cbn [set_active_event_context set_event_stack FreeStack set_free_stacks active_event_context_ sync_contexts_ tasks_ remote_tasks event_stack InvokeBegin set_count set_generation_count set_tasks] in *; rewrite Es in *.
  - apply Forall_cons in J1 as [_ J1]. by apply Forall_cons_2.
  - split; [by left | done].
  - done.
  - done.
Qed.

Lemma AllocateStack_fields fresh m st m' : AllocateStack fresh m = (st, m') ->
  active_event_context_ m' = active_event_context_ m /\ sync_contexts_ m' = sync_contexts_ m /\ event_stack m' = event_stack m /\
  tasks_ m' = tasks_ m /\ remote_tasks m' = remote_tasks m.
Proof. unfold AllocateStack. destruct (free_stacks_ m); by intros [= <- <-]. Qed.

Lemma SpawnSync_ctl c fresh uid m : Ctl c m -> running (active_event_context_ m) <> None -> Ctl c (SpawnSync c fresh uid m).
Proof.
  intros I Hr. unfold SpawnSync. destruct (AllocateStack _ _) as [st m1] eqn:Ea. cbn [take_event_id].
  apply AllocateStack_fields in Ea as (E1 & E2 & E3 & E4 & E5).
  destruct I as [H1 H2 H3 H4].
  set (m2 := set_active_event_context _ _). assert (sync_contexts_ m2 = active_event_context_ m :: sync_contexts_ m) as Es by exact E2.
  set (nc := new_context c (next_event_id_ m1) st) in m2.
  (* the new context is not yet in CallSync: compare with the state after InvokeBegin *)
  assert (Ctl c (set_active_event_context (set_running (Some (mkFrame uid 0 true [])) nc) m2)) as J.
  { split; unfold core_ctxs, base in *; cbn [set_active_event_context active_event_context_ sync_contexts_ tasks_ remote_tasks event_stack];
      rewrite ?Es.
    - change (tasks_ m2) with (tasks_ m1). change (remote_tasks m2) with (remote_tasks m1). rewrite E4, E5.
      apply Forall_cons_2; [done |]. exact H1.
    - split; [| done]. right. by eexists.
    - by apply Forall_cons_2.
    - change (event_stack m2) with (event_stack m1). rewrite E3, last_cons. exact H4. }
  destruct J as [J1 J2 J3 J4].
  split; unfold core_ctxs, base in *; cbn [InvokeBegin set_active_event_context active_event_context_ sync_contexts_ tasks_ remote_tasks
    event_stack set_count set_generation_count] in *; rewrite ?Es in *.
  - apply Forall_cons in J1 as [_ J1]. by apply Forall_cons_2.
  - destruct J2 as [_ J2]. split; [| done]. right. by eexists.
  - done.
  - by rewrite !last_cons in *.
Qed.

Lemma SaveContext_ctl c fresh m context m' : Ctl c m -> SaveContext c fresh m = (context, m') -> Ctl c m'.
Proof.
  intros I. unfold SaveContext. destruct (sync_contexts_ m) as [|p rest] eqn:Es.
  - destruct (AllocateStack fresh m) as [st m1] eqn:Ea. cbn [take_event_id]. intros [= <- <-].
    apply AllocateStack_fields in Ea as (E1 & E2 & E3 & E4 & E5). destruct (Ctl_queued c m I) as [Hq1 Hq2].
    split; unfold core_ctxs, base; cbn [Process set_event_stack set_active_event_context set_next_event_id active_event_context_ sync_contexts_
      tasks_ remote_tasks event_stack]; rewrite ?E2, ?E4, ?E5, ?Es; try done.
    + apply Forall_cons_2; [done |]. cbn [app]. by apply Forall_app_2.
    + split; [by left | done].
  - intros [= <- <-]. by apply Ctl_pop.
Qed.

(** ** The system *)

Definition AllCtl (s : System) : Prop := forall c m, cores s !! c = Some m -> Ctl c m.

Lemma AllCtl_core s c m' : AllCtl s -> Ctl c m' -> AllCtl (with_core c m' s).
Proof.
  intros I J d m. cbn [with_core cores]. intros [(-> & -> & _)|[_ Hd]]%list_lookup_insert_Some; [done | by apply I].
Qed.

Lemma ActivateContext_ctl c context s s' : AllCtl s -> ActivateContext c context s = Ok s' -> AllCtl s'.
Proof.
  intros I. unfold ActivateContext. destruct (Nat.eqb_spec (ctx_cpu context) c) as [Hcc|_];
    intros (m & Hm%deref_ok & [= <-])%bind_ok; (apply AllCtl_core; [done |]);
    destruct (Ctl_queued _ m (I _ _ Hm)) as [Hq1 Hq2]; (eapply Ctl_tasks; [exact (I _ _ Hm) | done | done | done |]);
    cbn [set_tasks tasks_ remote_tasks AddRemoteTask set_ipi_tasks set_remote_tasks];
    rewrite bind_app, bind_singleton; cbn [task_ctxs];
    (repeat apply Forall_app_2); try done; by apply Forall_singleton.
Qed.

Lemma PassToken_ctl c s s' : AllCtl s -> PassToken c s = Ok s' -> AllCtl s'.
Proof.
  intros I. unfold PassToken. destruct (_ <? _)%nat; intros (m & Hm%deref_ok & [= <-])%bind_ok; apply AllCtl_core; try done;
    by apply (Ctl_same _ m (set_ipi_token true m) (I _ _ Hm)) || by apply (Ctl_same _ m (ReceiveToken m) (I _ _ Hm)).
Qed.

(** The active frame is only relabelled. *)
Lemma Ctl_relabel c m f l : Ctl c m -> running (active_event_context_ m) = Some f ->
  Ctl c (set_active_event_context (set_running (Some (set_fr_tasks l f)) (active_event_context_ m)) m).
Proof.
  intros I Hf. apply Ctl_active; [done | exact (Ctl_active_cpu c m I) | done |].
  destruct I as [_ [[H|(f' & Hf' & Hs)] _] _ _]; [by left | right]. eexists. split; [done |]. cbn. congruence.
Qed.

Lemma PassToken_core c s s' m' : PassToken c s = Ok s' -> cores s' !! c = Some m' -> exists m, cores s !! c = Some m /\
  active_event_context_ m' = active_event_context_ m.
Proof.
  unfold PassToken. destruct (_ <? _)%nat; intros (m & Hm%deref_ok & [= <-])%bind_ok; cbn [with_core cores];
    intros [(E & <- & _)|[_ ?]]%list_lookup_insert_Some; try (by eexists); rewrite ?E in Hm; by exists m.
Qed.

Lemma Fire_ctl c s s' : AllCtl s -> Fire c s = Ok s' -> AllCtl s'.
Proof.
  intros I. unfold Fire. intros (m & Hm%deref_ok & (f & Hf%deref_ok & H)%bind_ok)%bind_ok.
  assert (forall b, AllCtl (with_core c (set_timer_on b m) s)) as Ht.
  { intros b. apply AllCtl_core; [done |]. by apply (Ctl_same c m _ (I _ _ Hm)). }
  destruct (_ =? 0); [| injection H as <-; by apply (Ht true)].
  apply bind_ok in H as (s1 & Hp & H). apply bind_ok in H as (m1 & Hm1%deref_ok & [= <-]).
  pose proof (PassToken_ctl _ _ _ (Ht false) Hp) as I1. apply AllCtl_core; [done |].
  destruct (PassToken_core _ _ _ _ Hp Hm1) as (m2 & Hm2 & Ea). cbn [with_core cores] in Hm2.
  rewrite list_lookup_insert_eq in Hm2 by (by apply lookup_lt_Some in Hm). injection Hm2 as <-.
  set (m3 := set_curr_rcu_tasks [] (set_prev_rcu_tasks (curr_rcu_tasks_ m1) m1)).
  apply (Ctl_relabel c m3 f (prev_rcu_tasks_ m1)).
  - by apply (Ctl_same c m1 m3 (I1 _ _ Hm1)).
  - change (active_event_context_ m3) with (active_event_context_ m1). by rewrite Ea.
Qed.

Lemma fire_next_ctl c fresh m uid t m' : Ctl c m -> fire_next c fresh m uid = Some (t, m') -> Ctl c m'.
Proof.
  intros I. unfold fire_next. destruct (running _) as [f|] eqn:Er; [| done]. cbn [mbind option_bind].
  destruct (fr_tasks f) as [|t0 rest]; [done |]. intros [= <- <-]. apply SpawnSync_ctl; [by apply Ctl_relabel | done].
Qed.

Lemma step_ctl s s' : AllCtl s -> step s s' -> AllCtl s'.
Proof.
  intros I. destruct 1 as [s c m m' Hc Hl H|s c m m' Hc Hl H|s c m Hc Hl _|s c m Hc Hl _|s c m num Hc Hl _|s c m m' Hc H|s c m id Hc _
    |s c m fresh Hc He Hf|s c m id cpu s' Hc _ H|s c m fresh context m' Hc _ Hf H|s c m l1 context l2 s' Hc _ Hs H|s c m id Hc _
    |s c m s' Hc _ _ H|s c m fresh t m' Hc Hf H|s c m Hc _|s c m Hc _|s c m started r Hc _ H|s c m started Hc _];
    pose proof (I _ _ Hc) as J.
  - apply (AllCtl_core s c m' I). by eapply run_task_ctl.
  - apply (AllCtl_core s c m' I). unfold run_idle in H. destruct (tasks_ m), (idle_callback_ m); try done. injection H as <-.
    apply InvokeBegin_ctl; [done | left; by eapply loop_sync].
  - apply AllCtl_core; [done |]. destruct (Ctl_queued c m J) as [Hq1 Hq2].
    eapply (Ctl_tasks c m); [done | done | done | |].
    + destruct J as [_ _ _ J4]. unfold base in J4. by rewrite (loop_sync c m (I _ _ Hc) Hl) in J4.
    + cbn [remote_interrupt Process set_event_stack set_remote_tasks set_tasks set_ipi_tasks tasks_ remote_tasks].
      rewrite bind_app. repeat apply Forall_app_2; done.
  - apply AllCtl_core; [done |]. apply (Ctl_same c m _ J); try done.
    destruct J as [_ _ _ J4]. unfold base in J4. by rewrite (loop_sync c m (I _ _ Hc) Hl) in J4.
  - apply (AllCtl_core s c _ I). apply InvokeBegin_ctl; [done | left; by eapply loop_sync].
  - apply (AllCtl_core s c m' I). by eapply event_return_ctl.
  - apply AllCtl_core; [done |]. apply (Ctl_same c m _ J); try done. cbn [SpawnAsync set_tasks tasks_].
    rewrite bind_app, bind_singleton. cbn [task_ctxs]. by rewrite app_nil_r.
  - apply (AllCtl_core s c _ I). apply SpawnSync_ctl; [done |]. destruct He as (f & -> & _). done.
  - apply bind_ok in H as (m' & Hm%deref_ok & [= <-]). apply AllCtl_core; [done |].
    apply (Ctl_same cpu m' _ (I _ _ Hm)); try done. cbn [AddRemoteTask set_ipi_tasks set_remote_tasks remote_tasks].
    rewrite bind_app, bind_singleton. cbn [task_ctxs]. by rewrite app_nil_r.
  - apply (AllCtl_core s c m' I). by eapply SaveContext_ctl.
  - eapply ActivateContext_ctl; [| exact H]. exact I.
  - apply AllCtl_core; [done |]. by apply (Ctl_same c m _ J).
  - by eapply Fire_ctl.
  - apply (AllCtl_core s c m' I). by eapply fire_next_ctl.
  - exact I.
  - apply AllCtl_core; [done |]. unfold GetTlsMap. destruct (tls _); [done |]. cbn [snd].
    apply Ctl_active; [done | exact (Ctl_active_cpu c m J) | done |].
    destruct J as [_ [[?|?] _] _ _]; [by left | by right].
  - apply AllCtl_core; [done |]. unfold IdleStart in H. destruct started; [by injection H as <- |].
    apply bind_ok in H as (_ & _ & [= <-]). by apply (Ctl_same c m _ J).
  - apply AllCtl_core; [done |]. unfold IdleStop. destruct started; [by apply (Ctl_same c m _ J) | done].
Qed.

(** ** After boot *)

Lemma boot_lookup sts c m : cores (boot sts) !! c = Some m -> exists st, sts !! c = Some st /\
  (m = new_core c st \/ (c = 0%nat /\ m = ReceiveToken (InvokeBegin 0 false (new_core c st)))).
Proof.
  unfold boot. cbn [cores]. destruct sts as [|st sts]; [done |]. cbn [imap]. destruct c as [|c]; cbn [lookup list_lookup].
  - intros [= <-]. exists st. by split; [| right].
  - intros H. change (imap (new_core ∘ S) sts !! c = Some m) in H.
    rewrite list_lookup_imap in H. apply fmap_Some in H as (x & Hx & ->). exists x. by split; [| left].
Qed.

Lemma boot_ctl sts : AllCtl (boot sts).
Proof.
  assert (forall c st, Ctl c (new_core c st)) as Hn.
  { intros c st. split; cbn; [by constructor | by split; [left |] | constructor | done]. }
  intros c m (st & _ & [-> | (_ & ->)])%boot_lookup; [done |].
  eapply Ctl_same; [apply (InvokeBegin_ctl c 0 false (new_core c st)); [done | by left] | done..].
Qed.

Lemma boot_stacks sts : stacks (boot sts) ≡ₚ sts.
Proof.
  assert (forall g l, (forall i st, core_stacks (g i st) = [st]) -> imap g l ≫= core_stacks = l) as Hi.
  { intros g l. revert g. induction l as [|x l IH]; intros g Hg; [done |]. cbn [imap]. rewrite bind_cons, Hg.
    cbn [app]. by rewrite (IH (g ∘ S)) by (intros; apply Hg). }
  unfold stacks, boot. cbn [saved cores fmap list_fmap app]. destruct sts as [|st sts]; [done |]. cbn [imap].
  rewrite bind_cons. change (core_stacks (ReceiveToken (InvokeBegin 0 false (new_core 0 st)))) with [st].
  cbn [app]. by rewrite Hi.
Qed.

