(* ===== verification/RcuProtocol.v ===== *)
(** * The token protocol for grace periods

    An abstract machine for what EventManager does for DoRcu: cores count the
    events of two generations, a token goes round the cores, and a core passes it
    on when the events of the generation that the token ended have ended.  The
    machine is safe: what is registered is run only after all events that were
    then running have ended, on all cores. *)

From S2P Require Import Prelude EventManager.

(** ** The machine *)

(** What one core keeps for grace periods. *)
Record view := mkView {
  v_gen : Z; v_count : Z * Z; v_pending : Z; v_prev : list rcu_task; v_curr : list rcu_task; v_timer : bool; v_ipi : bool
}.

(** A running event: its core, its number, its generation. *)
Definition tag : Type := nat * nat * Z.
Definition tag_cpu (t : tag) : nat := t.1.1.
Definition tag_uid (t : tag) : nat := t.1.2.
Definition tag_gen (t : tag) : Z := t.2.

(** The cores, the running events, the functions that are being run after their
    grace period, and the number of the next event. *)
Record proto := mkProto { p_cores : list view; p_tags : list tag; p_firing : list rcu_task; p_next : nat }.

Definition v_get (g : Z) (v : view) : Z := if Z.odd g then (v_count v).2 else (v_count v).1.
Definition v_set (g x : Z) (v : view) : view :=
  mkView (v_gen v) (if Z.odd g then ((v_count v).1, x) else (x, (v_count v).2)) (v_pending v) (v_prev v) (v_curr v) (v_timer v) (v_ipi v).
Definition v_add (g d : Z) (v : view) : view := v_set g (u64 (v_get g v + d)) v.
Definition v_receive (v : view) : view :=
  mkView (u64 (v_gen v + 1)) (v_count v) (v_gen v) (v_prev v) (v_curr v) true (v_ipi v).
Definition v_ack (v : view) : view :=
  mkView (v_gen v) (v_count v) (v_pending v) (v_prev v) (v_curr v) (v_timer v) false.
Definition v_register (t : rcu_task) (v : view) : view :=
  mkView (v_gen v) (v_count v) (v_pending v) (v_prev v) (v_curr v ++ [t]) (v_timer v) (v_ipi v).
(** The token leaves: the registered functions get older. *)
Definition v_done (v : view) : view :=
  mkView (v_gen v) (v_count v) (v_pending v) (v_curr v) [] false (v_ipi v).
Definition v_interrupt (v : view) : view :=
  mkView (v_gen v) (v_count v) (v_pending v) (v_prev v) (v_curr v) (v_timer v) true.

Inductive pstep : proto -> proto -> Prop :=
| ps_begin cs ts fs n c v ts' fs' : cs !! c = Some v -> ts' ≡ₚ (c, n, v_gen v) :: ts -> fs' ⊆ fs ->
    pstep (mkProto cs ts fs n) (mkProto (<[c := v_add (v_gen v) 1 v]> cs) ts' fs' (S n))
(* an event that is counted and never ends *)
| ps_leak cs ts fs n c v ts' fs' : cs !! c = Some v -> ts' ≡ₚ ts -> fs' ⊆ fs ->
    pstep (mkProto cs ts fs n) (mkProto (<[c := v_add (v_gen v) 1 v]> cs) ts' fs' (S n))
| ps_end cs ts fs n c v u g ts' fs' : cs !! c = Some v -> ts ≡ₚ (c, u, g) :: ts' -> fs' ⊆ fs ->
    pstep (mkProto cs ts fs n) (mkProto (<[c := v_add g (-1) v]> cs) ts' fs' n)
| ps_stutter cs ts fs n ts' fs' : ts' ≡ₚ ts -> fs' ⊆ fs -> pstep (mkProto cs ts fs n) (mkProto cs ts' fs' n)
| ps_token cs ts fs n c v ts' fs' : cs !! c = Some v -> v_ipi v = true -> ts' ≡ₚ ts -> fs' ⊆ fs ->
    pstep (mkProto cs ts fs n) (mkProto (<[c := v_receive (v_ack v)]> cs) ts' fs' n)
| ps_register cs ts fs n c v id ts' fs' r : cs !! c = Some v -> r ≡ₚ tag_uid <$> ts -> ts' ≡ₚ ts -> fs' ⊆ fs ->
    pstep (mkProto cs ts fs n) (mkProto (<[c := v_register (mkRcu id r) v]> cs) ts' fs' n)
| ps_pass cs ts fs n c v w ts' fs' : cs !! c = Some v -> v_timer v = true -> v_get (v_pending v) v = 0 ->
    (1 < length cs)%nat -> cs !! ((c + 1) mod length cs)%nat = Some w -> ts' ≡ₚ ts -> fs' ⊆ v_prev v ++ fs ->
    pstep (mkProto cs ts fs n)
      (mkProto (<[((c + 1) mod length cs)%nat := v_interrupt w]> (<[c := v_done v]> cs)) ts' fs' n)
| ps_pass_self cs ts fs n c v ts' fs' : cs !! c = Some v -> v_timer v = true -> v_get (v_pending v) v = 0 ->
    length cs = 1%nat -> ts' ≡ₚ ts -> fs' ⊆ v_prev v ++ fs ->
    pstep (mkProto cs ts fs n) (mkProto (<[c := v_receive (v_done v)]> cs) ts' fs' n).

(** ** Distances on the ring *)

(** How far the token has to go from [c] to [d]; a whole round to [c] itself. *)
Definition dist (n c d : nat) : nat := if (c <? d)%nat then (d - c)%nat else (d + n - c)%nat.

Lemma next_core n c : (c < n)%nat -> ((c + 1) mod n)%nat = if (c + 1 =? n)%nat then 0%nat else (c + 1)%nat.
Proof.
  intros Hc. destruct (Nat.eqb_spec (c + 1) n) as [->|]; [by apply Nat.Div0.mod_same | apply Nat.mod_small; lia].
Qed.

Lemma dist_next n c k : (c < n)%nat -> (k < n)%nat -> c <> k -> (1 < n)%nat -> dist n c ((k + 1) mod n)%nat = S (dist n c k).
Proof.
  intros Hc Hk Hne Hn. rewrite next_core by done. unfold dist.
  destruct (Nat.eqb_spec (k + 1) n); repeat case_match; bool_to_prop; lia.
Qed.
Lemma dist_succ n c : (c < n)%nat -> (1 < n)%nat -> dist n c ((c + 1) mod n)%nat = 1%nat.
Proof. intros Hc Hn. rewrite next_core by done. unfold dist. destruct (Nat.eqb_spec (c + 1) n); repeat case_match; bool_to_prop; lia. Qed.
Lemma dist_self n c d : (c < n)%nat -> (d < n)%nat -> d <> c -> (dist n c d < dist n c c)%nat.
Proof. intros. unfold dist. repeat case_match; bool_to_prop; lia. Qed.
Lemma dist_lt_succ n c d k : (c < n)%nat -> (d < n)%nat -> (k < n)%nat -> (dist n c d < S (dist n c k))%nat ->
  d = k \/ (dist n c d < dist n c k)%nat.
Proof. intros Hc Hd Hk. unfold dist. repeat case_match; bool_to_prop; lia. Qed.
Lemma dist_pos n c d : (c < n)%nat -> (d < n)%nat -> (1 <= dist n c d)%nat.
Proof. intros. unfold dist. repeat case_match; bool_to_prop; lia. Qed.

(** ** The invariant *)

(** The running events of core [c] in generations of the parity of [g]. *)
Definition of_parity (c : nat) (g : Z) (t : tag) : bool := (tag_cpu t =? c)%nat && Bool.eqb (Z.odd (tag_gen t)) (Z.odd g).
Definition nlive (c : nat) (g : Z) (ts : list tag) : nat := length (List.filter (of_parity c g) ts).

(** None of the readers that the function waits for is in [ts]. *)
Definition waited (t : rcu_task) (ts : list tag) : Prop := forall u x, u ∈ rt_readers t -> x ∈ ts -> tag_uid x = u -> False.

Record PInv (k : nat) (a : proto) : Prop := {
  pi_k : (k < length (p_cores a))%nat;
  pi_uid : forall x, x ∈ p_tags a -> (tag_uid x < p_next a)%nat /\ (tag_cpu x < length (p_cores a))%nat;
  pi_readers : forall c v t u, p_cores a !! c = Some v -> t ∈ v_prev v ++ v_curr v -> u ∈ rt_readers t -> (u < p_next a)%nat;
  (* a count is that of the running events, and of those that never end *)
  pi_count : forall c v g, p_cores a !! c = Some v -> exists l, 0 <= l /\
    v_get g v = u64 (Z.of_nat (nlive c g (p_tags a)) + l) /\ Z.of_nat (nlive c g (p_tags a)) + l <= Z.of_nat (p_next a);
  (* only the core with the token has events of two generations *)
  pi_gen : forall c v, p_cores a !! c = Some v -> 0 <= v_gen v < 2 ^ 64 /\
    (v_timer v = true -> v_gen v = u64 (v_pending v + 1)) /\
    forall x, x ∈ p_tags a -> tag_cpu x = c -> tag_gen x = v_gen v \/ (v_timer v = true /\ tag_gen x = v_pending v);
  pi_token : forall c v, p_cores a !! c = Some v -> if decide (c = k) then v_timer v = negb (v_ipi v) else v_timer v = false /\ v_ipi v = false;
  (* the cores the token has left since it left [c] have no more readers; the core
     that has it has none among its new events *)
  pi_prev : forall c v t, p_cores a !! c = Some v -> t ∈ v_prev v ->
    waited t (List.filter (fun x => (dist (length (p_cores a)) c (tag_cpu x) <? dist (length (p_cores a)) c k)%nat) (p_tags a)) /\
    forall w, p_cores a !! k = Some w -> v_timer w = true ->
      waited t (List.filter (fun x => (tag_cpu x =? k)%nat && (tag_gen x =? v_gen w)) (p_tags a));
  pi_firing : forall t, t ∈ p_firing a -> waited t (p_tags a) /\ forall u, u ∈ rt_readers t -> (u < p_next a)%nat
}.

Lemma filter_In_iff {A} (f : A -> bool) l x : x ∈ List.filter f l <-> x ∈ l /\ f x = true.
Proof. rewrite !list_elem_of_In. apply filter_In. Qed.

Lemma waited_sub t ts ts' : waited t ts -> (forall x, x ∈ ts' -> x ∈ ts) -> waited t ts'.
Proof. intros H Hs u x Hu Hx. eapply H; eauto. Qed.

Lemma nlive_perm c g ts ts' : ts' ≡ₚ ts -> nlive c g ts' = nlive c g ts.
Proof.
  unfold nlive. induction 1 as [|x l l' _ IH|x y l|l1 l2 l3 _ IH1 _ IH2]; cbn; [done | | |lia].
  - destruct (of_parity c g x); cbn; lia.
  - by destruct (of_parity c g x), (of_parity c g y).
Qed.
Lemma nlive_cons c g x ts : nlive c g (x :: ts) = ((if of_parity c g x then 1 else 0) + nlive c g ts)%nat.
Proof. unfold nlive. cbn. by destruct (of_parity c g x). Qed.
Lemma nlive_zero c g ts x : nlive c g ts = 0%nat -> x ∈ ts -> tag_cpu x = c -> Z.odd (tag_gen x) <> Z.odd g.
Proof.
  intros Hz Hx Hc He. unfold nlive in Hz. apply length_zero_iff_nil in Hz.
  assert (x ∈ List.filter (of_parity c g) ts) as Hin.
  { apply filter_In_iff. split; [done |]. unfold of_parity. rewrite Hc, Nat.eqb_refl, He. by destruct (Z.odd g). }
  rewrite Hz in Hin. by apply elem_of_nil in Hin.
Qed.

(** The events are only known up to order, and the functions being run can get fewer. *)
Lemma PInv_perm k cs ts fs n ts' fs' : PInv k (mkProto cs ts fs n) -> ts' ≡ₚ ts -> fs' ⊆ fs -> PInv k (mkProto cs ts' fs' n).
Proof.
  intros [H1 H2 H3 H4 H5 H6 H7 H8] Hts Hfs.
  assert (forall x, x ∈ ts' <-> x ∈ ts) as Hel by (intros; by rewrite Hts).
  split; cbn [p_cores p_tags p_firing p_next] in *; [done | | done | | | done | |].
  - intros x Hx%Hel. by apply H2.
  - intros c v g Hc. rewrite (nlive_perm _ _ _ _ Hts). by apply H4.
  - intros c v Hc. destruct (H5 c v Hc) as (? & ? & Hx). split_and!; [tauto | tauto | done |]. intros x Hx'%Hel. by apply Hx.
  - intros c v t Hc Ht. destruct (H7 c v t Hc Ht) as [Ha Hb]. split.
    + eapply waited_sub; [exact Ha |]. intros x. by rewrite !filter_In_iff, Hel.
    + intros w Hw Hwt. eapply waited_sub; [exact (Hb w Hw Hwt) |]. intros x. by rewrite !filter_In_iff, Hel.
  - intros t Ht%Hfs. destruct (H8 t Ht) as [Ha Hb]. split; [| done]. eapply waited_sub; [exact Ha |]. intros x. by rewrite Hel.
Qed.

(** ** Events begin and end *)

(** The counts are changed. *)
Definition recount (x : Z * Z) (v : view) : view := mkView (v_gen v) x (v_pending v) (v_prev v) (v_curr v) (v_timer v) (v_ipi v).

(** A count is right: it counts the running events, and at least [b] others. *)
Definition counted_more (b : Z) (c : nat) (ts : list tag) (n : nat) (g : Z) (v : view) : Prop := exists l, b <= l /\
  v_get g v = u64 (Z.of_nat (nlive c g ts) + l) /\ Z.of_nat (nlive c g ts) + l <= Z.of_nat n.
Definition counted : nat -> list tag -> nat -> Z -> view -> Prop := counted_more 0.

Lemma PInv_recount k cs ts fs n c v x ts' n' : PInv k (mkProto cs ts fs n) -> cs !! c = Some v -> (n <= n')%nat ->
  (forall y, y ∈ ts' -> y ∈ ts \/ (y = (c, n, v_gen v) /\ n < n')%nat) ->
  (forall d w g, <[c := recount x v]> cs !! d = Some w -> counted d ts' n' g w) ->
  PInv k (mkProto (<[c := recount x v]> cs) ts' fs n').
Proof.
  intros [H1 H2 H3 H4 H5 H6 H7 H8] Hc Hn Hts Hcount. cbn [p_cores p_tags p_firing p_next] in *.
  assert (forall d w, <[c := recount x v]> cs !! d = Some w -> exists w0 x', cs !! d = Some w0 /\ w = recount x' w0) as Hold.
  { intros d w [(<- & <- & _)|[_ ?]]%list_lookup_insert_Some; [by exists v, x |]. exists w, (v_count w). by destruct w. }
  assert (forall t, (forall u, u ∈ rt_readers t -> (u < n)%nat) -> forall (f : tag -> bool) ts0, waited t (List.filter f ts0) ->
    (forall y, y ∈ ts' -> f y = true -> y ∈ ts0 \/ y = (c, n, v_gen v)) -> waited t (List.filter f ts')) as Hw.
  { intros t Ht f ts0 Hwt Hsub u y Hu [Hy Hf]%filter_In_iff <-. destruct (Hsub y Hy Hf) as [Hy'| ->].
    - by eapply (Hwt _ y Hu); [apply filter_In_iff |].
    - specialize (Ht _ Hu). cbn in Ht. lia. }
  assert (length (<[c := recount x v]> cs) = length cs) as Hlen by apply length_insert.
  split; cbn [p_cores p_tags p_firing p_next]; rewrite ?Hlen; [done | | | done | | | |].
  - intros y [Hy|[-> ?]]%Hts; [destruct (H2 y Hy); lia |]. apply lookup_lt_Some in Hc. cbn. lia.
  - intros d w t u (w0 & x' & Hd & ->)%Hold Ht Hu. pose proof (H3 d w0 t u Hd Ht Hu). lia.
  - intros d w Hd. pose proof Hd as (w0 & x' & Hd0 & ->)%Hold. destruct (H5 d w0 Hd0) as (Ha & Hb & Hx). split; [done |]; split; [done |].
    intros y [Hy|[-> _]]%Hts Hcy; [by apply Hx |]. left. cbn in *. subst d. congruence.
  - intros d w (w0 & x' & Hd & ->)%Hold. exact (H6 d w0 Hd).
  - intros d w t (w0 & x' & Hd & ->)%Hold Ht. destruct (H7 d w0 t Hd Ht) as [Ha Hb].
    assert (forall u, u ∈ rt_readers t -> (u < n)%nat) as Hlt by (intros u; apply (H3 d w0 t u Hd), elem_of_app; by left).
    split; [eapply (Hw t Hlt _ ts); [exact Ha |] |].
    + intros y [Hy|[-> _]]%Hts _; auto.
    + intros w' (w1 & x1 & Hk & ->)%Hold Hwt. eapply (Hw t Hlt _ ts); [exact (Hb w1 Hk Hwt) |].
      intros y [Hy|[-> _]]%Hts _; auto.
  - intros t Ht. destruct (H8 t Ht) as [Ha Hb]. split; [| intros u Hu; specialize (Hb u Hu); lia].
    intros u y Hu Hy <-. destruct (Hts y Hy) as [Hy'|[-> _]]; [by eapply Ha |]. specialize (Hb _ Hu). cbn in Hb. lia.
Qed.

Lemma v_get_add g g' d v : v_get g' (v_add g d v) = if Bool.eqb (Z.odd g') (Z.odd g) then u64 (v_get g v + d) else v_get g' v.
Proof. unfold v_add, v_set, v_get. cbn [v_count]. by destruct (Z.odd g), (Z.odd g'). Qed.

Lemma u64_add x d : u64 (u64 x + d) = u64 (x + d).
Proof. unfold u64, wrap. by rewrite Zplus_mod_idemp_l. Qed.

(** The count of one parity moves by [e]; the events by [de], the others by [dl]. *)
Lemma counted_core b c v ts ts' n n' g g' e de dl : counted_more b c ts n g' v ->
  Z.of_nat (nlive c g' ts') = Z.of_nat (nlive c g' ts) + de ->
  de + dl = (if Bool.eqb (Z.odd g') (Z.odd g) then e else 0) -> Z.of_nat n + e <= Z.of_nat n' -> (n <= n')%nat ->
  counted_more (b + dl) c ts' n' g' (v_add g e v).
Proof.
  intros (l & Hl & Hg & Hb) Hde Hdl He Hn. exists (l + dl). rewrite Hde, v_get_add. split; [lia |].
  destruct (Bool.eqb (Z.odd g') (Z.odd g)) eqn:E; [apply eqb_prop in E | clear E].
  - assert (v_get g v = v_get g' v) as -> by (unfold v_get; by rewrite E). rewrite Hg, u64_add. split; [f_equal; lia | lia].
  - split; [rewrite Hg; f_equal; lia | lia].
Qed.

Lemma counted_more_le b b' c ts n g v : counted_more b c ts n g v -> b' <= b -> counted_more b' c ts n g v.
Proof. intros (l & Hl & H) Hb. exists l. split; [lia | done]. Qed.

Lemma counted_add (cs : list view) c v ts ts' n n' g e (de dl : Z -> Z) : cs !! c = Some v ->
  (forall d w g', cs !! d = Some w -> counted d ts n g' w) ->
  (forall g', Z.of_nat (nlive c g' ts') = Z.of_nat (nlive c g' ts) + de g') ->
  (forall d g', d <> c -> nlive d g' ts' = nlive d g' ts) ->
  (forall g', 0 <= dl g' /\ de g' + dl g' = if Bool.eqb (Z.odd g') (Z.odd g) then e else 0) ->
  Z.of_nat n + e <= Z.of_nat n' -> (n <= n')%nat ->
  forall d w g', <[c := v_add g e v]> cs !! d = Some w -> counted d ts' n' g' w.
Proof.
  intros Hc Hold Hde Hother Hdl He Hn d w g' [(<- & <- & _)|[Hne Hd]]%list_lookup_insert_Some.
  - destruct (Hdl g') as [Hdl0 Hsum]. eapply counted_more_le; [by eapply counted_core; [apply Hold | apply Hde | ..] | lia].
  - destruct (Hold d w g' Hd) as (l & Hl & Hg & Hb). exists l. rewrite Hother by done. split_and!; [done | done | lia].
Qed.

Lemma of_parity_eq c d g g' u : of_parity d g' (c, u, g) = (c =? d)%nat && Bool.eqb (Z.odd g') (Z.odd g).
Proof. unfold of_parity. cbn. by destruct (Z.odd g), (Z.odd g'). Qed.

Lemma nlive_other c d g g' u ts : d <> c -> nlive d g' ((c, u, g) :: ts) = nlive d g' ts.
Proof. intros Hne. rewrite nlive_cons, of_parity_eq. destruct (Nat.eqb_spec c d); [congruence | done]. Qed.
Lemma nlive_same c g g' u ts : Z.of_nat (nlive c g' ((c, u, g) :: ts)) =
  Z.of_nat (nlive c g' ts) + if Bool.eqb (Z.odd g') (Z.odd g) then 1 else 0.
Proof. rewrite nlive_cons, of_parity_eq, Nat.eqb_refl. cbn [andb]. destruct (Bool.eqb _ _); lia. Qed.

Lemma PInv_begin k cs ts fs n c v : PInv k (mkProto cs ts fs n) -> cs !! c = Some v ->
  PInv k (mkProto (<[c := v_add (v_gen v) 1 v]> cs) ((c, n, v_gen v) :: ts) fs (S n)).
Proof.
  intros I Hc. apply (PInv_recount k cs ts fs n c v (v_count (v_add (v_gen v) 1 v))); [done | done | lia | |].
  { intros y [->|?]%elem_of_cons; [right; split; [done | lia] | by left]. }
  apply (counted_add cs c v ts _ n _ (v_gen v) 1 (fun g' => if Bool.eqb (Z.odd g') (Z.odd (v_gen v)) then 1 else 0) (fun _ => 0));
    [done | exact (pi_count _ _ I) | intros; apply nlive_same | intros; by apply nlive_other | intros; lia | lia | lia].
Qed.

Lemma PInv_leak k cs ts fs n c v : PInv k (mkProto cs ts fs n) -> cs !! c = Some v ->
  PInv k (mkProto (<[c := v_add (v_gen v) 1 v]> cs) ts fs (S n)).
Proof.
  intros I Hc. apply (PInv_recount k cs ts fs n c v (v_count (v_add (v_gen v) 1 v))); [done | done | lia | by left |].
  apply (counted_add cs c v ts _ n _ (v_gen v) 1 (fun _ => 0) (fun g' => if Bool.eqb (Z.odd g') (Z.odd (v_gen v)) then 1 else 0));
    [done | exact (pi_count _ _ I) | intros; lia | done | intros; case_match; lia | lia | lia].
Qed.

Lemma PInv_end k cs ts fs n c v u g : PInv k (mkProto cs ((c, u, g) :: ts) fs n) -> cs !! c = Some v ->
  PInv k (mkProto (<[c := v_add g (-1) v]> cs) ts fs n).
Proof.
  intros I Hc. apply (PInv_recount k cs ((c, u, g) :: ts) fs n c v (v_count (v_add g (-1) v))); [done | done | lia | |].
  { intros y Hy. left. by right. }
  apply (counted_add cs c v ((c, u, g) :: ts) _ n _ g (-1) (fun g' => - if Bool.eqb (Z.odd g') (Z.odd g) then 1 else 0) (fun _ => 0));
    [done | exact (pi_count _ _ I) | | | intros; case_match; lia | lia | lia].
  - intros g'. rewrite nlive_same. lia.
  - intros d g' Hne. by rewrite (nlive_other c d g g' u ts Hne).
Qed.

(** ** Registering, and the way of the token *)

Lemma PInv_register k cs ts fs n c v id r : PInv k (mkProto cs ts fs n) -> cs !! c = Some v -> r ≡ₚ tag_uid <$> ts ->
  PInv k (mkProto (<[c := v_register (mkRcu id r) v]> cs) ts fs n).
Proof.
  intros [H1 H2 H3 H4 H5 H6 H7 H8] Hc Hr. cbn [p_cores p_tags p_firing p_next] in *.
  assert (forall d w, <[c := v_register (mkRcu id r) v]> cs !! d = Some w -> exists w0, cs !! d = Some w0 /\
    (w = w0 \/ w = v_register (mkRcu id r) w0)) as Hold.
  { intros d w [(<- & <- & _)|[_ ?]]%list_lookup_insert_Some; eauto. }
  split; cbn [p_cores p_tags p_firing p_next]; rewrite ?length_insert; [done | done | | | | | | done].
  - intros d w t u (w0 & Hd & [-> | ->])%Hold Ht Hu; [by apply (H3 d w0 t u) |]. cbn [v_register v_prev v_curr] in Ht.
    rewrite app_assoc in Ht. apply elem_of_app in Ht as [Ht| ->%list_elem_of_singleton]; [by apply (H3 d w0 t u) |].
    cbn [rt_readers] in Hu. rewrite Hr in Hu. apply list_elem_of_fmap in Hu as (x & -> & Hx). by apply H2.
  - intros d w g (w0 & Hd & [-> | ->])%Hold; exact (H4 d w0 g Hd).
  - intros d w (w0 & Hd & [-> | ->])%Hold; exact (H5 d w0 Hd).
  - intros d w (w0 & Hd & [-> | ->])%Hold; exact (H6 d w0 Hd).
  - intros d w t (w0 & Hd & Hw)%Hold Ht. assert (t ∈ v_prev w0) as Ht0 by (by destruct Hw as [-> | ->]).
    destruct (H7 d w0 t Hd Ht0) as [Ha Hb]. split; [done |]. intros w' (w1 & Hk & [-> | ->])%Hold; exact (Hb w1 Hk).
Qed.

Lemma odd_next g : Z.odd (u64 (g + 1)) = negb (Z.odd g).
Proof.
  unfold u64, wrap. rewrite <- Z.bit0_odd, Z.mod_pow2_bits_low by lia. rewrite Z.bit0_odd, Z.add_1_r, Z.odd_succ, <- Z.negb_odd. done.
Qed.
Lemma next_gen_ne g : u64 (g + 1) <> g.
Proof. intros E. pose proof (odd_next g) as H. rewrite E in H. by destruct (Z.odd g). Qed.

(** The core [k] with the token starts waiting; no event is in its new generation yet. *)
Lemma PInv_receive k cs ts fs n v : cs !! k = Some v -> v_timer v = false ->
  (forall x, x ∈ ts -> tag_cpu x = k -> tag_gen x = v_gen v) ->
  forall v', v' = v_receive (v_ack v) -> PInv k (mkProto cs ts fs n) -> PInv k (mkProto (<[k := v']> cs) ts fs n).
Proof.
  intros Hc Ht Hx v' -> [H1 H2 H3 H4 H5 H6 H7 H8]. cbn [p_cores p_tags p_firing p_next] in *.
  assert (forall d w, <[k := v_receive (v_ack v)]> cs !! d = Some w -> (d = k /\ w = v_receive (v_ack v)) \/ (d <> k /\ cs !! d = Some w)) as Hold.
  { intros d w [(<- & <- & _)|[? ?]]%list_lookup_insert_Some; auto. }
  split; cbn [p_cores p_tags p_firing p_next]; rewrite ?length_insert; [done | done | | | | | | done].
  - intros d w t u [[-> ->]|[_ Hd]]%Hold; [exact (H3 k v t u Hc) | exact (H3 d w t u Hd)].
  - intros d w g [[-> ->]|[_ Hd]]%Hold; [exact (H4 k v g Hc) | exact (H4 d w g Hd)].
  - intros d w [[-> ->]|[_ Hd]]%Hold; [| exact (H5 d w Hd)]. cbn [v_receive v_ack v_gen v_timer v_pending].
    split; [apply Z.mod_pos_bound; lia |]. split; [done |]. intros x Hin Hcpu. right. auto.
  - intros d w [[-> ->]|[_ Hd]]%Hold; [by rewrite decide_True | exact (H6 d w Hd)].
  - intros d w t Hd Hin. assert (exists w0, cs !! d = Some w0 /\ t ∈ v_prev w0) as (w0 & Hd0 & Hin0)
      by (apply Hold in Hd as [[-> ->]|[_ Hd]]; eauto).
    destruct (H7 d w0 t Hd0 Hin0) as [Ha _]. split; [done |]. intros w' [[_ ->]|[? _]]%Hold _; [| done].
    intros u y _ [Hy E]%filter_In_iff _. bool_to_prop. rewrite (Hx y) in *; [| done..]. cbn in *. by eapply next_gen_ne.
Qed.

Lemma PInv_token k cs ts fs n c v : PInv k (mkProto cs ts fs n) -> cs !! c = Some v -> v_ipi v = true ->
  PInv k (mkProto (<[c := v_receive (v_ack v)]> cs) ts fs n).
Proof.
  intros I Hc Hi. pose proof (pi_token _ _ I c v Hc) as Ht. destruct (decide (c = k)) as [->|]; [| destruct Ht; congruence].
  rewrite Hi in Ht. cbn [negb] in Ht. eapply PInv_receive; [done | done | | done | done]. intros x Hx Hcpu.
  destruct (pi_gen _ _ I k v Hc) as (_ & _ & Hg). destruct (Hg x Hx Hcpu) as [?|[? _]]; [done | congruence].
Qed.

(** When the count of the old generation is zero, all its events have ended. *)
Lemma PInv_quiet k cs ts fs n v : PInv k (mkProto cs ts fs n) -> Z.of_nat n < 2 ^ 64 -> cs !! k = Some v -> v_timer v = true ->
  v_get (v_pending v) v = 0 -> forall x, x ∈ ts -> tag_cpu x = k -> tag_gen x = v_gen v.
Proof.
  intros I Hn Hc Ht Hz x Hx Hcpu. destruct (pi_gen _ _ I k v Hc) as (_ & Hp & Hg). destruct (Hg x Hx Hcpu) as [?|[_ Hpend]]; [done |].
  destruct (pi_count _ _ I k v (v_pending v) Hc) as (l & Hl & Hcnt & Hb). cbn [p_tags p_next] in *.
  rewrite Hz in Hcnt. unfold u64, wrap in Hcnt. rewrite Z.mod_small in Hcnt by lia.
  exfalso. apply (nlive_zero k (v_pending v) ts x); [lia | done | done | by rewrite Hpend].
Qed.

(** All functions that have waited for a round at [k] have no readers left. *)
Lemma PInv_waited k cs ts fs n v : PInv k (mkProto cs ts fs n) -> Z.of_nat n < 2 ^ 64 -> cs !! k = Some v -> v_timer v = true ->
  v_get (v_pending v) v = 0 -> forall t, t ∈ v_prev v -> waited t ts /\ forall u, u ∈ rt_readers t -> (u < n)%nat.
Proof.
  intros I Hn Hc Ht Hz t Hin. pose proof (PInv_quiet _ _ _ _ _ _ I Hn Hc Ht Hz) as Hq.
  destruct (pi_prev _ _ I k v t Hc Hin) as [Ha Hb]. split.
  - intros u x Hu Hx Hux. destruct (decide (tag_cpu x = k)) as [E|Hne].
    + apply (Hb v Hc Ht u x Hu); [| done]. apply filter_In_iff. split; [done |]. rewrite E, (Hq x Hx E), Nat.eqb_refl, Z.eqb_refl. done.
    + apply (Ha u x Hu); [| done]. apply filter_In_iff. split; [done |]. apply Nat.ltb_lt.
      apply dist_self; [exact (pi_k _ _ I) | | done]. by apply (pi_uid _ _ I).
  - intros u Hu. apply (pi_readers _ _ I k v t u Hc); [apply elem_of_app; by left | done].
Qed.

Section Pass.
Context (k : nat) (cs : list view) (ts : list tag) (fs : list rcu_task) (n : nat) (v : view).
Hypotheses (I : PInv k (mkProto cs ts fs n)) (Hn : Z.of_nat n < 2 ^ 64) (Hk : cs !! k = Some v)
  (Ht : v_timer v = true) (Hz : v_get (v_pending v) v = 0).

Lemma pass_firing t : t ∈ v_prev v ++ fs -> waited t ts /\ forall u, u ∈ rt_readers t -> (u < n)%nat.
Proof. intros [H|H]%elem_of_app; [by eapply PInv_waited | exact (pi_firing _ _ I t H)]. Qed.

Lemma pass_ipi : v_ipi v = false.
Proof. pose proof (pi_token _ _ I k v Hk) as H. rewrite decide_True in H by done. destruct (v_ipi v); cbn in H; [congruence | done]. Qed.

Lemma pass_gen x : x ∈ ts -> tag_cpu x = k -> tag_gen x = v_gen v.
Proof. by eapply PInv_quiet. Qed.

(** A function that another core waits for: the token now leaves [k] as well. *)
Lemma pass_prev d w t : d <> k -> cs !! d = Some w -> t ∈ v_prev w ->
  waited t (List.filter (fun x => (dist (length cs) d (tag_cpu x) <? S (dist (length cs) d k))%nat) ts).
Proof.
  intros Hne Hd Hin u x Hu [Hx Hdist]%filter_In_iff Hux. apply Nat.ltb_lt in Hdist.
  pose proof (lookup_lt_Some _ _ _ Hd). pose proof (lookup_lt_Some _ _ _ Hk). destruct (pi_uid _ _ I x Hx) as [_ Hcpu].
  destruct (pi_prev _ _ I d w t Hd Hin) as [Ha Hb]. cbn [p_cores p_tags] in *.
  apply dist_lt_succ in Hdist as [E|Hlt]; [| | done..].
  - apply (Hb v Hk Ht u x Hu); [| done]. apply filter_In_iff. split; [done |].
    rewrite (pass_gen x Hx E), E, Nat.eqb_refl, Z.eqb_refl. done.
  - apply (Ha u x Hu); [| done]. apply filter_In_iff. split; [done |]. by apply Nat.ltb_lt.
Qed.

Lemma PInv_pass w : (1 < length cs)%nat -> cs !! ((k + 1) mod length cs)%nat = Some w ->
  PInv ((k + 1) mod length cs)%nat
    (mkProto (<[((k + 1) mod length cs)%nat := v_interrupt w]> (<[k := v_done v]> cs)) ts (v_prev v ++ fs) n).
Proof.
  intros Hlen Hw. pose proof (lookup_lt_Some _ _ _ Hk) as Hkl. pose proof (lookup_lt_Some _ _ _ Hw) as Hjl.
  pose proof (dist_succ _ _ Hkl Hlen) as Hd1.
  assert (((k + 1) mod length cs)%nat <> k) as Hjk by (rewrite next_core by done; destruct (Nat.eqb_spec (k + 1) (length cs)); lia).
  set (j := ((k + 1) mod length cs)%nat) in *.
  assert (forall d w', <[j := v_interrupt w]> (<[k := v_done v]> cs) !! d = Some w' ->
    (d = k /\ w' = v_done v) \/ (d <> k /\ exists w0, cs !! d = Some w0 /\ if decide (d = j) then w' = v_interrupt w0 else w' = w0)) as Hold.
  { intros d w' [(<- & <- & _)|[? [(<- & <- & _)|[? ?]]%list_lookup_insert_Some]]%list_lookup_insert_Some; [right | by left | right].
    - split; [done |]. exists w. by rewrite decide_True.
    - split; [done |]. exists w'. by rewrite decide_False. }
  destruct I as [H1 H2 H3 H4 H5 H6 H7 H8]. cbn [p_cores p_tags p_firing p_next] in *.
  split; cbn [p_cores p_tags p_firing p_next]; rewrite ?length_insert; [done | done | | | | | |].
  - intros d w' t u [(-> & ->)|(Hne & w0 & Hd & E)]%Hold Hin; [apply (H3 k v t u Hk), elem_of_app; right |].
    + cbn [v_done v_prev v_curr] in Hin. by rewrite app_nil_r in Hin.
    + apply (H3 d w0 t u Hd). by destruct (decide (d = j)); subst w'.
  - intros d w' g [(-> & ->)|(Hne & w0 & Hd & E)]%Hold; [exact (H4 k v g Hk) |].
    destruct (H4 d w0 g Hd) as (l & ?). exists l. by destruct (decide (d = j)); subst w'.
  - intros d w' [(-> & ->)|(Hne & w0 & Hd & E)]%Hold.
    + cbn [v_done v_gen v_timer v_pending]. split; [exact (proj1 (H5 k v Hk)) |]. split; [done |].
      intros x Hx Hcpu. left. by apply pass_gen.
    + pose proof (H5 d w0 Hd). by destruct (decide (d = j)); subst w'.
  - intros d w' [(-> & ->)|(Hne & w0 & Hd & E)]%Hold.
    + rewrite decide_False by done. split; [done | exact pass_ipi].
    + specialize (H6 d w0 Hd). rewrite (decide_False (P := d = k)) in H6 by done.
      destruct (decide (d = j)); subst w'; [exact (proj1 H6) | exact H6].
  - assert (forall w'', <[j := v_interrupt w]> (<[k := v_done v]> cs) !! j = Some w'' -> v_timer w'' = false) as Hjt.
    { intros w'' [(E & _)|(_ & w0 & Hd & E)]%Hold; [done |]. rewrite decide_True in E by done. subst w''.
      specialize (H6 j w0 Hd). rewrite decide_False in H6 by done. exact (proj1 H6). }
    intros d w' t Hd Hin. split; [| intros w'' Hj Hjt'; rewrite (Hjt _ Hj) in Hjt'; done].
    apply Hold in Hd as [(-> & ->)|(Hne & w0 & Hd & E)].
    + intros u x _ [Hx Hlt]%filter_In_iff _. apply Nat.ltb_lt in Hlt. rewrite Hd1 in Hlt.
      destruct (H2 x Hx) as [_ Hc]. pose proof (dist_pos _ _ _ Hkl Hc). lia.
    + pose proof (dist_next (length cs) d k (lookup_lt_Some _ _ _ Hd) Hkl Hne Hlen) as Hdj. fold j in Hdj. rewrite Hdj.
      apply (pass_prev d w0 t Hne Hd). by destruct (decide (d = j)); subst w'.
  - exact pass_firing.
Qed.

Lemma PInv_pass_self : length cs = 1%nat -> PInv k (mkProto (<[k := v_receive (v_done v)]> cs) ts (v_prev v ++ fs) n).
Proof.
  intros Hlen. assert (k = 0%nat) as Ek by (pose proof (lookup_lt_Some _ _ _ Hk); lia).
  assert (forall d w', <[k := v_interrupt (v_done v)]> cs !! d = Some w' -> d = k /\ w' = v_interrupt (v_done v)) as Hold.
  { intros d w' Hd. pose proof (lookup_lt_Some _ _ _ Hd) as Hl. rewrite length_insert in Hl. assert (d = k) as -> by lia.
    rewrite list_lookup_insert_eq in Hd by lia. split; [done | congruence]. }
  assert (PInv k (mkProto (<[k := v_interrupt (v_done v)]> cs) ts (v_prev v ++ fs) n)) as J.
  { destruct I as [H1 H2 H3 H4 H5 H6 H7 H8]. cbn [p_cores p_tags p_firing p_next] in *.
    split; cbn [p_cores p_tags p_firing p_next]; rewrite ?length_insert; [done | done | | | | | |].
    - intros d w' t u [-> ->]%Hold Hin. apply (H3 k v t u Hk), elem_of_app. right. cbn in Hin. by rewrite app_nil_r in Hin.
    - intros d w' g [-> ->]%Hold. exact (H4 k v g Hk).
    - intros d w' [-> ->]%Hold. cbn [v_interrupt v_done v_gen v_timer v_pending]. split; [exact (proj1 (H5 k v Hk)) |]. split; [done |].
      intros x Hx Hcpu. left. by apply pass_gen.
    - intros d w' [-> ->]%Hold. by rewrite decide_True.
    - intros d w' t [-> ->]%Hold Hin. split; [| by intros w'' [_ ->]%Hold].
      intros u x _ [Hx Hlt]%filter_In_iff _. apply Nat.ltb_lt in Hlt. destruct (H2 x Hx) as [_ Hc].
      rewrite Hlen in *. unfold dist in Hlt. repeat case_match; bool_to_prop; lia.
    - exact pass_firing. }
  pose proof (PInv_token k _ _ _ _ k (v_interrupt (v_done v)) J) as K.
  rewrite list_insert_insert_eq in K. replace (v_receive (v_done v)) with (v_receive (v_ack (v_interrupt (v_done v))))
    by (unfold v_receive, v_ack, v_done; cbn; by rewrite pass_ipi). apply K; [| done]. apply list_lookup_insert_eq. by apply lookup_lt_Some in Hk.
Qed.
End Pass.

(** ** Safety of the protocol *)

Lemma pstep_PInv k a a' : Z.of_nat (p_next a) < 2 ^ 64 -> pstep a a' -> PInv k a -> exists k', PInv k' a'.
Proof.
  intros Hn. destruct 1 as [cs ts fs n c v ts' fs' Hc Hts Hfs|cs ts fs n c v ts' fs' Hc Hts Hfs|cs ts fs n c v u g ts' fs' Hc Hts Hfs
    |cs ts fs n ts' fs' Hts Hfs|cs ts fs n c v ts' fs' Hc Hi Hts Hfs|cs ts fs n c v id ts' fs' r Hc Hr Hts Hfs
    |cs ts fs n c v w ts' fs' Hc Ht Hz Hl Hw Hts Hfs|cs ts fs n c v ts' fs' Hc Ht Hz Hl Hts Hfs]; intros I; cbn [p_next] in Hn.
  - exists k. eapply PInv_perm; [by apply (PInv_begin k _ _ _ _ _ _ I Hc) | done | done].
  - exists k. eapply PInv_perm; [by apply (PInv_leak k _ _ _ _ _ _ I Hc) | done | done].
  - exists k. eapply PInv_perm; [eapply (PInv_end k _ ts'); [| exact Hc] | done | done].
    eapply PInv_perm; [exact I | by symmetry | done].
  - exists k. by eapply PInv_perm.
  - exists k. eapply PInv_perm; [by apply (PInv_token k _ _ _ _ _ _ I Hc) | done | done].
  - exists k. eapply PInv_perm; [by apply (PInv_register k _ _ _ _ _ _ id _ I Hc Hr) | done | done].
  - assert (c = k) as ->.
    { pose proof (pi_token _ _ I c v Hc) as H. case_decide; [done |]. destruct H; congruence. }
    eexists. eapply PInv_perm; [by apply (PInv_pass k cs ts fs n v I Hn Hc Ht Hz w) | done | done].
  - assert (c = k) as ->.
    { pose proof (pi_token _ _ I c v Hc) as H. case_decide; [done |]. destruct H; congruence. }
    exists k. eapply PInv_perm; [by apply (PInv_pass_self k cs ts fs n v I Hn Hc Ht Hz) | done | done].
Qed.

Lemma pstep_next a a' : pstep a a' -> (p_next a <= p_next a')%nat.
Proof. destruct 1; cbn; lia. Qed.

Lemma proto_safe a a' : rtc pstep a a' -> (exists k, PInv k a) -> Z.of_nat (p_next a') < 2 ^ 64 -> exists k, PInv k a'.
Proof.
  induction 1 as [a|a1 a2 a3 Hst Hrun IH]; [done |]. intros [k I] Hn.
  assert (forall b b', rtc pstep b b' -> (p_next b <= p_next b')%nat) as Hmono.
  { induction 1 as [|b1 b2 b3 Hb _ IHb]; [done |]. pose proof (pstep_next _ _ Hb). lia. }
  pose proof (pstep_next _ _ Hst). pose proof (Hmono _ _ Hrun). apply IH; [| done].
  eapply pstep_PInv; [| exact Hst | exact I]. lia.
Qed.

(** ** A count that never goes away *)

(** Core [c] counts more than its running events in the parity of [g]. *)
Definition stuck (c : nat) (g : Z) (a : proto) : Prop :=
  forall v, p_cores a !! c = Some v -> counted_more 1 c (p_tags a) (p_next a) g v.

Lemma counted_perm b c ts ts' n g v : ts' ≡ₚ ts -> counted_more b c ts n g v -> counted_more b c ts' n g v.
Proof. intros Hts. unfold counted_more. by rewrite (nlive_perm c g ts ts' Hts). Qed.
Lemma counted_view b c ts n g v v' : v_count v' = v_count v -> counted_more b c ts n g v -> counted_more b c ts n g v'.
Proof. intros E. unfold counted_more, v_get. by rewrite E. Qed.

(** Once it does, it does forever. *)
Lemma stuck_step c g a a' : pstep a a' -> stuck c g a -> stuck c g a'.
Proof.
  assert (forall c0 v v' (cs : list view) d w, <[c0 := v']> cs !! d = Some w -> cs !! c0 = Some v -> v_count v' = v_count v ->
    exists w0, cs !! d = Some w0 /\ v_count w = v_count w0) as Hsame.
  { intros c0 v v' cs d w [(<- & <- & _)|[_ ?]]%list_lookup_insert_Some; eauto. }
  destruct 1 as [cs ts fs n d v ts' fs' Hc Hts Hfs|cs ts fs n d v ts' fs' Hc Hts Hfs|cs ts fs n d v u g0 ts' fs' Hc Hts Hfs
    |cs ts fs n ts' fs' Hts Hfs|cs ts fs n d v ts' fs' Hc Hi Hts Hfs|cs ts fs n d v id ts' fs' r Hc Hr Hts Hfs
    |cs ts fs n d v w ts' fs' Hc Ht Hz Hl Hw Hts Hfs|cs ts fs n d v ts' fs' Hc Ht Hz Hl Hts Hfs];
    intros Hst x; unfold stuck in Hst; cbn [p_cores p_tags p_next] in *; intros Hx.
  - apply (counted_perm _ _ _ _ _ _ _ Hts). apply list_lookup_insert_Some in Hx as [(-> & <- & _)|[Hne Hx]].
    + eapply counted_more_le; [eapply (counted_core 1); [exact (Hst v Hc) | apply nlive_same | by rewrite Z.add_0_r | lia | lia] | lia].
    + destruct (Hst x Hx) as (l & ? & ? & ?). exists l. rewrite nlive_other by done. split_and!; [done | done | lia].
  - apply (counted_perm _ _ _ _ _ _ _ Hts). apply list_lookup_insert_Some in Hx as [(-> & <- & _)|[Hne Hx]].
    + eapply (counted_more_le (1 + if Bool.eqb (Z.odd g) (Z.odd (v_gen v)) then 1 else 0));
        [eapply (counted_core 1 _ _ ts _ n _ _ _ _ 0); [exact (Hst v Hc) | lia | lia | lia | lia] | case_match; lia].
    + destruct (Hst x Hx) as (l & ? & ? & ?). exists l. split_and!; [done | done | lia].
  - assert (forall b y m, counted_more b c ts m g y -> counted_more b c ((d, u, g0) :: ts') m g y) as Hp
      by (intros b y m; by apply counted_perm).
    apply list_lookup_insert_Some in Hx as [(-> & <- & _)|[Hne Hx]].
    + eapply counted_more_le; [eapply (counted_core 1 _ _ ((c, u, g0) :: ts') ts' n n g0 g (-1) (- if Bool.eqb (Z.odd g) (Z.odd g0) then 1 else 0) 0);
        [exact (Hp _ _ _ (Hst v Hc)) | rewrite nlive_same; lia | case_match; lia | lia | lia] | lia].
    + destruct (Hp 1 x n (Hst x Hx)) as (l & Hl1 & Hl2 & Hl3). rewrite nlive_other in Hl2, Hl3 by done. by exists l.
  - apply (counted_perm _ _ _ _ _ _ _ Hts). by apply Hst.
  - apply (counted_perm _ _ _ _ _ _ _ Hts). destruct (Hsame _ _ _ _ _ _ Hx Hc eq_refl) as (w0 & Hw0 & E). by eapply counted_view; [| apply Hst].
  - apply (counted_perm _ _ _ _ _ _ _ Hts). destruct (Hsame _ _ _ _ _ _ Hx Hc eq_refl) as (w0 & Hw0 & E). by eapply counted_view; [| apply Hst].
  - apply (counted_perm _ _ _ _ _ _ _ Hts).
    assert (exists w0, <[d := v_done v]> cs !! c = Some w0 /\ v_count x = v_count w0) as (w1 & Hw1 & E1).
    { apply list_lookup_insert_Some in Hx as [(E & <- & _)|[_ Hx]]; [| by exists x].
      destruct (decide (d = c)) as [->|Hne]; [| exists w; by rewrite list_lookup_insert_ne, <- E].
      exists (v_done v). rewrite list_lookup_insert_eq by (by apply lookup_lt_Some in Hc). split; [done |]. cbn. congruence. }
    destruct (Hsame _ _ _ _ _ _ Hw1 Hc eq_refl) as (w0 & Hw0 & E). exact (counted_view _ _ _ _ _ w0 x (eq_trans E1 E) (Hst w0 Hw0)).
  - apply (counted_perm _ _ _ _ _ _ _ Hts). destruct (Hsame _ _ _ _ _ _ Hx Hc eq_refl) as (w0 & Hw0 & E). by eapply counted_view; [| apply Hst].
Qed.
