(* ===== verification/RcuGrace.v ===== *)
(** * Grace periods of the event manager

    The event manager implements the token protocol: every step of the system is
    a step of the protocol.  So a function given to DoRcu runs only after all
    events that were running then have ended.  A context that is activated leaves
    a count behind that never goes away, after which no grace period ends. *)

From S2P Require Import Prelude EventManager EventCorrect RcuProtocol.

(** ** The protocol state of the system *)

Definition view_of (m : EventManager) : view :=
  mkView (generation_ m) (generation_count_ m) (pending_generation_ m) (prev_rcu_tasks_ m) (curr_rcu_tasks_ m) (timer_on m) (ipi_token m).
Definition ctx_tags (x : EventContext) : list tag :=
  match running x with Some f => [(ctx_cpu x, fr_uid f, fr_generation f)] | None => [] end.
Definition ctx_firing (x : EventContext) : list rcu_task := match running x with Some f => fr_tasks f | None => [] end.
Definition proto_of (s : System) : proto :=
  mkProto (view_of <$> cores s) (contexts s ≫= ctx_tags) (contexts s ≫= ctx_firing) (next_uid s).

Lemma live_tags s : live s = tag_uid <$> (contexts s ≫= ctx_tags).
Proof.
  unfold live, frames. induction (contexts s) as [|x l IH]; [done |]. rewrite !bind_cons, !fmap_app, IH. f_equal.
  unfold ctx_tags. by destruct (running x).
Qed.

(** What depends on the contexts of one core. *)
Lemma bind_core {B} (g : EventContext -> list B) s c m : cores s !! c = Some m -> exists r,
  contexts s ≫= g ≡ₚ (core_ctxs m ≫= g) ++ r /\ forall m', contexts (with_core c m' s) ≫= g ≡ₚ (core_ctxs m' ≫= g) ++ r.
Proof.
  intros Hc. set (rest := take c (cores s) ++ drop (S c) (cores s)).
  assert (forall m', <[c := m']> (cores s) ≫= core_ctxs ≡ₚ core_ctxs m' ++ (rest ≫= core_ctxs)) as Hins.
  { intros m'. rewrite insert_take_drop by (by apply lookup_lt_Some in Hc). unfold rest. rewrite !bind_app, bind_cons. solve_Permutation. }
  exists ((saved s ≫= g) ++ ((rest ≫= core_ctxs) ≫= g)). split.
  - unfold contexts. rewrite bind_app. rewrite <- (list_insert_id (cores s) c m Hc) at 1. rewrite Hins, bind_app. solve_Permutation.
  - intros m'. unfold contexts. cbn [with_core saved cores]. rewrite bind_app, Hins, bind_app. solve_Permutation.
Qed.

Lemma core_bind {B} (g : EventContext -> list B) m : core_ctxs m ≫= g =
  g (active_event_context_ m) ++ (sync_contexts_ m ≫= g) ++ ((tasks_ m ≫= task_ctxs) ≫= g) ++ ((remote_tasks m ≫= task_ctxs) ≫= g).
Proof. unfold core_ctxs. by rewrite bind_cons, !bind_app. Qed.

Lemma views_core s c m' : view_of <$> cores (with_core c m' s) = <[c := view_of m']> (view_of <$> cores s).
Proof. apply list_fmap_insert. Qed.
Lemma views_lookup s c m : cores s !! c = Some m -> (view_of <$> cores s) !! c = Some (view_of m).
Proof. intros Hc. by rewrite list_lookup_fmap, Hc. Qed.
Lemma views_same s c m m' : cores s !! c = Some m -> view_of m' = view_of m -> view_of <$> cores (with_core c m' s) = view_of <$> cores s.
Proof. intros Hc Hv. rewrite views_core, Hv. apply list_insert_id. by apply views_lookup. Qed.

Lemma sub_perm {A} (a a' b b' r : list A) : a ≡ₚ b ++ r -> a' ≡ₚ b' ++ r -> b' ⊆ b -> a' ⊆ a.
Proof.
  intros H H' Hs x Hx. apply (elem_of_Permutation_proper x _ _ H'), elem_of_app in Hx.
  apply (elem_of_Permutation_proper x _ _ H), elem_of_app. destruct Hx; [left; by apply Hs | by right].
Qed.

(** A change of one core that is none for the protocol. *)
Lemma sim_same s c m m' : cores s !! c = Some m -> view_of m' = view_of m ->
  core_ctxs m' ≫= ctx_tags ≡ₚ core_ctxs m ≫= ctx_tags -> core_ctxs m' ≫= ctx_firing ⊆ core_ctxs m ≫= ctx_firing ->
  pstep (proto_of s) (proto_of (with_core c m' s)).
Proof.
  intros Hc Hv Ht Hf. unfold proto_of. rewrite (views_same s c m m' Hc Hv).
  destruct (bind_core ctx_tags s c m Hc) as (r & H1 & H2). destruct (bind_core ctx_firing s c m Hc) as (r' & H3 & H4).
  apply ps_stutter; [by rewrite H1, H2, Ht | by eapply sub_perm].
Qed.

(** An event begins on core [c]. *)
Lemma sim_begin s c m m' : cores s !! c = Some m -> view_of m' = v_add (generation_ m) 1 (view_of m) ->
  core_ctxs m' ≫= ctx_tags ≡ₚ@{tag} (c, next_uid s, generation_ m) :: (core_ctxs m ≫= ctx_tags) ->
  core_ctxs m' ≫= ctx_firing ⊆ core_ctxs m ≫= ctx_firing ->
  pstep (proto_of s) (proto_of (event_started (with_core c m' s))).
Proof.
  intros Hc Hv Ht Hf. unfold proto_of. change (cores (event_started (with_core c m' s))) with (cores (with_core c m' s)).
  change (contexts (event_started (with_core c m' s))) with (contexts (with_core c m' s)). cbn [event_started next_uid with_core].
  fold (with_core c m' s). rewrite views_core, Hv.
  destruct (bind_core ctx_tags s c m Hc) as (r & H1 & H2). destruct (bind_core ctx_firing s c m Hc) as (r' & H3 & H4).
  apply (ps_begin _ _ _ _ c (view_of m)); [by apply views_lookup | by rewrite H1, H2, Ht | by eapply sub_perm].
Qed.

(** ** The steps of one core *)

Lemma InvokeBegin_view uid b m : view_of (InvokeBegin uid b m) = v_add (generation_ m) 1 (view_of m).
Proof. done. Qed.
Lemma InvokeEnd_view f m : view_of (InvokeEnd f m) = v_add (fr_generation f) (-1) (view_of m).
Proof. done. Qed.

Lemma InvokeBegin_bind {B} (g : EventContext -> list B) uid b m : core_ctxs (InvokeBegin uid b m) ≫= g =
  g (active_event_context_ (InvokeBegin uid b m)) ++ (sync_contexts_ m ≫= g) ++ ((tasks_ m ≫= task_ctxs) ≫= g) ++
    ((remote_tasks m ≫= task_ctxs) ≫= g).
Proof. by rewrite core_bind. Qed.

(** An event begins in the loop. *)
Lemma sim_loop s c m b : AllCtl s -> cores s !! c = Some m -> in_loop m ->
  pstep (proto_of s) (proto_of (event_started (with_core c (InvokeBegin (next_uid s) b m) s))).
Proof.
  intros I Hc Hl. pose proof (Ctl_active_cpu c m (I _ _ Hc)) as Hcpu. unfold in_loop in Hl.
  apply (sim_begin s c m); [done | done | |]; rewrite InvokeBegin_bind, core_bind.
  - unfold ctx_tags at 5. rewrite Hl. cbn. by rewrite Hcpu.
  - unfold ctx_firing at 1 5. rewrite Hl. done.
Qed.

Lemma sim_task s c m m' : AllCtl s -> cores s !! c = Some m -> in_loop m -> run_task (next_uid s) m = Some m' ->
  pstep (proto_of s) (proto_of (event_started (with_core c m' s))).
Proof.
  intros I Hc Hl H. pose proof (Ctl_active_cpu c m (I _ _ Hc)) as Hcpu. unfold in_loop in Hl. unfold run_task in H.
  destruct (tasks_ m) as [|f rest] eqn:Et; [done |]. injection H as <-. destruct f as [i|x].
  - apply (sim_begin s c m); [done | done | |]; rewrite InvokeBegin_bind, core_bind, Et, bind_cons; cbn [task_ctxs app].
    + unfold ctx_tags at 5. rewrite Hl. cbn. by rewrite Hcpu.
    + unfold ctx_firing at 1 5. rewrite Hl. done.
  - set (m' := ActivatePrivate x _).
    assert (forall B (g : EventContext -> list B), g (active_event_context_ m) = [] -> core_ctxs m' ≫= g ≡ₚ core_ctxs m ≫= g) as Hb.
    { intros B g Hg. rewrite !core_bind, Et, Hg, bind_cons. cbn [task_ctxs app].
      change (active_event_context_ m') with x. change (sync_contexts_ m') with (sync_contexts_ m). change (tasks_ m') with rest.
      change (remote_tasks m') with (remote_tasks m). cbn [mbind list_bind app]. solve_Permutation. }
    unfold proto_of. change (cores (event_started (with_core c m' s))) with (cores (with_core c m' s)).
    change (contexts (event_started (with_core c m' s))) with (contexts (with_core c m' s)). cbn [event_started next_uid].
    rewrite views_core. destruct (bind_core ctx_tags s c m Hc) as (r & H1 & H2). destruct (bind_core ctx_firing s c m Hc) as (r' & H3 & H4).
    apply (ps_leak _ _ _ _ c (view_of m)); [by apply views_lookup | |].
    + rewrite H1, H2, Hb; [done |]. unfold ctx_tags. by rewrite Hl.
    + eapply sub_perm; [exact H3 | apply H4 |]. rewrite Hb; [done |]. unfold ctx_firing. by rewrite Hl.
Qed.

Lemma sim_return s c m m' : AllCtl s -> cores s !! c = Some m -> event_return m = Some m' ->
  pstep (proto_of s) (proto_of (with_core c m' s)).
Proof.
  intros I Hc H. pose proof (Ctl_active_cpu c m (I _ _ Hc)) as Hcpu. unfold event_return in H.
  destruct (running (active_event_context_ m)) as [f|] eqn:Er; [| done]. cbn [mbind option_bind] in H.
  destruct (fr_tasks f) eqn:Ef; [| done].
  assert (view_of m' = v_add (fr_generation f) (-1) (view_of m) /\
    forall B (g : EventContext -> list B) x, g (active_event_context_ m) = x -> (forall y, running y = None -> g y = []) ->
      x ++ (core_ctxs m' ≫= g) ≡ₚ core_ctxs m ≫= g) as [Hv Hb].
  { change (sync_contexts_ (InvokeEnd f m)) with (sync_contexts_ m) in H. destruct (fr_sync f).
    - destruct (sync_contexts_ m) as [|p rest] eqn:Es; injection H as <-; (split; [done |]); intros B g x <- Hg; rewrite !core_bind, Es.
      + rewrite (Hg (active_event_context_ (Process (InvokeEnd f m)))) by done. cbn. by rewrite Es.
      + rewrite bind_cons. cbn. rewrite <- !app_assoc. done.
    - injection H as <-. split; [done |]. intros B g x <- Hg. rewrite !core_bind. by rewrite (Hg (active_event_context_ (InvokeEnd f m))). }
  unfold proto_of. rewrite views_core, Hv.
  destruct (bind_core ctx_tags s c m Hc) as (r & H1 & H2). destruct (bind_core ctx_firing s c m Hc) as (r' & H3 & H4).
  apply (ps_end _ _ _ _ c (view_of m) (fr_uid f)); [by apply views_lookup | |].
  - rewrite H1, H2, <- (Hb _ ctx_tags [(c, fr_uid f, fr_generation f)]); [done | |].
    + unfold ctx_tags. by rewrite Er, Hcpu.
    + intros y Hy. unfold ctx_tags. by rewrite Hy.
  - eapply sub_perm; [exact H3 | apply H4 |]. rewrite <- (Hb _ ctx_firing []); [done | |].
    + unfold ctx_firing. by rewrite Er, Ef.
    + intros y Hy. unfold ctx_firing. by rewrite Hy.
Qed.

Lemma AllocateStack_more fresh m st m' : AllocateStack fresh m = (st, m') -> view_of m' = view_of m.
Proof. unfold AllocateStack. destruct (free_stacks_ m); by intros [= <- <-]. Qed.

Lemma SpawnSync_view c fresh uid m : view_of (SpawnSync c fresh uid m) = v_add (generation_ m) 1 (view_of m).
Proof.
  unfold SpawnSync. destruct (AllocateStack _ _) as [st m1] eqn:Ea. cbn [take_event_id]. rewrite InvokeBegin_view.
  apply AllocateStack_more in Ea. change (view_of m1 = view_of m) in Ea.
  change (v_add (v_gen (view_of m1)) 1 (view_of m1) = v_add (v_gen (view_of m)) 1 (view_of m)). by rewrite Ea.
Qed.

Lemma SpawnSync_bind {B} (g : EventContext -> list B) c fresh uid m :
  exists x, running x = Some (mkFrame uid (generation_ m) true []) /\ ctx_cpu x = c /\
  core_ctxs (SpawnSync c fresh uid m) ≫= g = g x ++ (core_ctxs m ≫= g).
Proof.
  unfold SpawnSync. destruct (AllocateStack _ _) as [st m1] eqn:Ea. cbn [take_event_id].
  pose proof (AllocateStack_more _ _ _ _ Ea) as Ev. apply AllocateStack_fields in Ea as (E1 & E2 & E3 & E4 & E5).
  eexists. split; [| split; [| rewrite InvokeBegin_bind; f_equal]].
  - assert (generation_ m1 = generation_ m) as Eg by (by injection Ev). cbn. by rewrite Eg.
  - done.
  - cbn [set_active_event_context set_next_event_id sync_contexts_ tasks_ remote_tasks]. rewrite E2, E4, E5, core_bind.
    cbn [set_sync_contexts sync_contexts_ tasks_ remote_tasks]. by rewrite bind_cons, <- !app_assoc.
Qed.

Lemma sim_spawn s c m fresh : cores s !! c = Some m ->
  pstep (proto_of s) (proto_of (event_started (with_core c (SpawnSync c fresh (next_uid s) m) s))).
Proof.
  intros Hc. apply (sim_begin s c m); [done | apply SpawnSync_view | |].
  - destruct (SpawnSync_bind ctx_tags c fresh (next_uid s) m) as (x & Hx & Hcpu & ->). unfold ctx_tags at 1. by rewrite Hx, Hcpu.
  - destruct (SpawnSync_bind ctx_firing c fresh (next_uid s) m) as (x & Hx & Hcpu & ->). unfold ctx_firing at 1. by rewrite Hx.
Qed.

(** Only the tasks of the frame change. *)
Lemma relabel_tags m f l : running (active_event_context_ m) = Some f ->
  core_ctxs (set_active_event_context (set_running (Some (set_fr_tasks l f)) (active_event_context_ m)) m) ≫= ctx_tags =
  core_ctxs m ≫= ctx_tags.
Proof. intros Hf. rewrite !core_bind. unfold ctx_tags at 1 5. by rewrite Hf. Qed.

Lemma sim_fire_next s c m fresh t m' : cores s !! c = Some m -> fire_next c fresh m (next_uid s) = Some (t, m') ->
  pstep (proto_of s) (proto_of (event_started (with_core c m' s))).
Proof.
  intros Hc H. unfold fire_next in H. destruct (running (active_event_context_ m)) as [f|] eqn:Er; [| done]. cbn [mbind option_bind] in H.
  destruct (fr_tasks f) as [|t0 rest] eqn:Ef; [done |]. injection H as <- <-.
  set (m0 := set_active_event_context _ m). apply (sim_begin s c m); [done | | |].
  - by rewrite SpawnSync_view.
  - destruct (SpawnSync_bind ctx_tags c fresh (next_uid s) m0) as (x & Hx & Hcpu & ->). unfold ctx_tags at 1. rewrite Hx, Hcpu.
    assert (core_ctxs m0 ≫= ctx_tags = core_ctxs m ≫= ctx_tags) as -> by (by apply relabel_tags). done.
  - destruct (SpawnSync_bind ctx_firing c fresh (next_uid s) m0) as (x & Hx & Hcpu & ->). unfold ctx_firing at 1. rewrite Hx.
    rewrite !core_bind. assert (ctx_firing (active_event_context_ m) = t0 :: rest) as -> by (unfold ctx_firing; by rewrite Er).
    change (ctx_firing (active_event_context_ m0)) with rest. change (sync_contexts_ m0) with (sync_contexts_ m).
    change (tasks_ m0) with (tasks_ m). change (remote_tasks m0) with (remote_tasks m).
    intros y. cbn [app fr_tasks]. rewrite elem_of_cons. tauto.
Qed.

Lemma sim_save s c m fresh context m' : cores s !! c = Some m -> SaveContext c fresh m = (context, m') ->
  pstep (proto_of s) (proto_of (with_saved (context :: saved s) (with_core c m' s))).
Proof.
  intros Hc H.
  assert (view_of m' = view_of m /\ forall B (g : EventContext -> list B), (forall y, running y = None -> g y = []) ->
    g context ++ (core_ctxs m' ≫= g) ≡ₚ core_ctxs m ≫= g) as [Hv Hb].
  { unfold SaveContext in H. destruct (sync_contexts_ m) as [|p rest] eqn:Es.
    - destruct (AllocateStack fresh m) as [st m1] eqn:Ea. cbn [take_event_id] in H. injection H as <- <-.
      pose proof (AllocateStack_more _ _ _ _ Ea) as Ev. apply AllocateStack_fields in Ea as (E1 & E2 & E3 & E4 & E5).
      split; [exact Ev |]. intros B g Hg. rewrite !core_bind.
      cbn [Process set_event_stack set_active_event_context set_next_event_id active_event_context_ sync_contexts_ tasks_ remote_tasks].
      rewrite (Hg (new_context _ _ _)), E2, E4, E5 by done. done.
    - injection H as <- <-. split; [done |]. intros B g Hg. rewrite !core_bind, Es, bind_cons. cbn. by rewrite <- !app_assoc. }
  unfold proto_of. change (cores (with_saved (context :: saved s) (with_core c m' s))) with (cores (with_core c m' s)).
  change (contexts (with_saved (context :: saved s) (with_core c m' s))) with (context :: contexts (with_core c m' s)).
  rewrite !bind_cons, (views_same s c m m' Hc Hv). cbn [with_saved with_core next_uid].
  destruct (bind_core ctx_tags s c m Hc) as (r & H1 & H2). destruct (bind_core ctx_firing s c m Hc) as (r' & H3 & H4).
  fold (with_core c m' s). apply ps_stutter.
  - rewrite H1, H2, app_assoc, Hb; [done |]. intros y Hy. unfold ctx_tags. by rewrite Hy.
  - apply (sub_perm _ _ (core_ctxs m ≫= ctx_firing) (ctx_firing context ++ (core_ctxs m' ≫= ctx_firing)) r'); [done | |].
    + by rewrite H4, app_assoc.
    + rewrite Hb; [done |]. intros y Hy. unfold ctx_firing. by rewrite Hy.
Qed.

(** ** The steps of the system *)

(** Something is queued on a core. *)
Lemma queue_bind {B} (g : EventContext -> list B) m t :
  core_ctxs (set_tasks (tasks_ m ++ [t]) m) ≫= g ≡ₚ (task_ctxs t ≫= g) ++ (core_ctxs m ≫= g) /\
  core_ctxs (AddRemoteTask t m) ≫= g ≡ₚ (task_ctxs t ≫= g) ++ (core_ctxs m ≫= g).
Proof.
  split; rewrite !core_bind;
    cbn [set_tasks AddRemoteTask set_ipi_tasks set_remote_tasks active_event_context_ sync_contexts_ tasks_ remote_tasks];
    rewrite bind_app, bind_singleton, bind_app; solve_Permutation.
Qed.

Lemma sim_activate s c l1 context l2 s' : saved s = l1 ++ context :: l2 ->
  ActivateContext c context (with_saved (l1 ++ l2) s) = Ok s' -> pstep (proto_of s) (proto_of s').
Proof.
  intros Hs H. assert (forall B (g : EventContext -> list B),
    contexts s ≫= g ≡ₚ g context ++ (contexts (with_saved (l1 ++ l2) s) ≫= g)) as Hb0.
  { intros B g. unfold contexts. rewrite Hs. cbn [with_saved saved cores]. rewrite !bind_app, bind_cons. solve_Permutation. }
  set (s0 := with_saved (l1 ++ l2) s) in *.
  assert (view_of <$> cores s' = view_of <$> cores s0 /\ next_uid s' = next_uid s0 /\
    forall B (g : EventContext -> list B), contexts s' ≫= g ≡ₚ g context ++ (contexts s0 ≫= g)) as (Hv & Hn & Hb).
  { unfold ActivateContext in H. destruct (Nat.eqb _ _); apply bind_ok in H as (m & Hm%deref_ok & [= <-]);
      (split; [by apply (views_same s0 _ m) |]); (split; [done |]); intros B g;
      destruct (bind_core g s0 _ m Hm) as (r & H1 & H2); destruct (queue_bind g m (TActivate context)) as [Hq1 Hq2];
      rewrite H1, H2; [rewrite Hq1 | rewrite Hq2]; cbn [task_ctxs]; rewrite bind_singleton; solve_Permutation. }
  unfold proto_of. rewrite Hv, Hn. change (cores s0) with (cores s). change (next_uid s0) with (next_uid s).
  apply ps_stutter; [by rewrite Hb, Hb0 |]. intros x. by rewrite Hb, Hb0.
Qed.

Lemma Fire_pass c s s' m f : cores s !! c = Some m -> running (active_event_context_ m) = Some f -> Fire c s = Ok s' ->
  count (pending_generation_ m) m = 0 -> forall m0 l, l = prev_rcu_tasks_ m ->
  m0 = set_active_event_context (set_running (Some (set_fr_tasks l f)) (active_event_context_ m))
         (set_curr_rcu_tasks [] (set_prev_rcu_tasks (curr_rcu_tasks_ m) (set_timer_on false m))) ->
  (length (cores s) = 1%nat /\ exists m1, s' = with_core c m1 s /\ core_ctxs m1 = core_ctxs m0 /\ view_of m1 = v_receive (view_of m0)) \/
  ((1 < length (cores s))%nat /\ exists w, cores s !! ((c + 1) mod length (cores s))%nat = Some w /\
    s' = with_core ((c + 1) mod length (cores s))%nat (set_ipi_token true w) (with_core c m0 s)).
Proof.
  intros Hc Hf HF Hz m0 l -> ->. pose proof (lookup_lt_Some _ _ _ Hc) as Hcl. unfold Fire in HF.
  rewrite Hc in HF. cbn [deref] in HF. rewrite bind_Ok, Hf in HF. cbn [deref] in HF. rewrite bind_Ok in HF.
  change (count (pending_generation_ (set_timer_on false m)) (set_timer_on false m)) with (count (pending_generation_ m) m) in HF.
  rewrite Hz in HF. cbn [Z.eqb] in HF. apply bind_ok in HF as (s1 & Hp & HF). apply bind_ok in HF as (m1 & Hm1%deref_ok & [= <-]).
  unfold PassToken in Hp. cbn [with_core cores] in Hp. rewrite length_insert in Hp.
  destruct (Nat.ltb_spec 1 (length (cores s))) as [Hl|Hl].
  - right. split; [done |]. apply bind_ok in Hp as (w & Hw%deref_ok & [= <-]). 
    assert (((c + 1) mod length (cores s))%nat <> c) as Hjc
      by (rewrite next_core by done; destruct (Nat.eqb_spec (c + 1) (length (cores s))); lia).
    rewrite list_lookup_insert_ne in Hw by done. exists w. split; [done |].
    cbn [with_core cores] in Hm1. rewrite list_lookup_insert_ne, list_lookup_insert_eq in Hm1 by done. injection Hm1 as <-.
    unfold with_core. cbn [cores saved vec_idx vec_map next_uid]. f_equal.
    rewrite (list_insert_insert_ne _ c _ _) by done. by rewrite list_insert_insert_eq.
  - left. split; [lia |]. apply bind_ok in Hp as (w & Hw%deref_ok & [= <-]). rewrite list_lookup_insert_eq in Hw by done. injection Hw as <-.
    cbn [with_core cores] in Hm1. rewrite list_lookup_insert_eq in Hm1 by (by rewrite length_insert). injection Hm1 as <-.
    eexists. split; [unfold with_core; cbn [cores saved vec_idx vec_map next_uid]; by rewrite !list_insert_insert_eq | by split].
Qed.

(** A core is replaced by one with the same contexts. *)
Lemma contexts_same {B} (g : EventContext -> list B) s c m m' : cores s !! c = Some m -> core_ctxs m' = core_ctxs m ->
  contexts (with_core c m' s) ≫= g ≡ₚ contexts s ≫= g.
Proof. intros Hc E. destruct (bind_core g s c m Hc) as (r & H1 & H2). by rewrite H1, H2, E. Qed.

Lemma sim_fire s c m s' : cores s !! c = Some m -> in_event m -> timer_on m = true -> Fire c s = Ok s' ->
  pstep (proto_of s) (proto_of s').
Proof.
  intros Hc (f & Hf & Hft) Ht HF. pose proof (lookup_lt_Some _ _ _ Hc) as Hcl.
  destruct (decide (count (pending_generation_ m) m = 0)) as [Hz|Hz].
  - set (m0 := set_active_event_context (set_running (Some (set_fr_tasks (prev_rcu_tasks_ m) f)) (active_event_context_ m))
         (set_curr_rcu_tasks [] (set_prev_rcu_tasks (curr_rcu_tasks_ m) (set_timer_on false m)))).
    assert (core_ctxs m0 ≫= ctx_tags = core_ctxs m ≫= ctx_tags) as Etags by (rewrite !core_bind; unfold ctx_tags at 1 5; by rewrite Hf).
    assert (core_ctxs m0 ≫= ctx_firing = prev_rcu_tasks_ m ++ (core_ctxs m ≫= ctx_firing)) as Efire.
    { rewrite !core_bind. unfold ctx_firing at 1 5. by rewrite Hf, Hft. }
    assert (forall m1, core_ctxs m1 = core_ctxs m0 -> contexts (with_core c m1 s) ≫= ctx_tags ≡ₚ contexts s ≫= ctx_tags /\
      contexts (with_core c m1 s) ≫= ctx_firing ⊆ prev_rcu_tasks_ m ++ (contexts s ≫= ctx_firing)) as Hctx.
    { intros m1 E1. destruct (bind_core ctx_tags s c m Hc) as (r & H1 & H2). destruct (bind_core ctx_firing s c m Hc) as (r' & H3 & H4).
      split; [by rewrite H1, H2, E1, Etags |]. intros x. rewrite H4, H3, E1, Efire, !elem_of_app. tauto. }
    destruct (Fire_pass c s s' m f Hc Hf HF Hz m0 _ eq_refl eq_refl) as [(Hl & m1 & -> & E1 & E2)|(Hl & w & Hw & ->)].
    + unfold proto_of. rewrite views_core, E2. destruct (Hctx m1 E1) as [Ha Hb].
      apply (ps_pass_self _ _ _ _ c (view_of m)); [by apply views_lookup | done | done | by rewrite length_fmap | done | done].
    + set (j := ((c + 1) mod length (cores s))%nat) in *. set (s1 := with_core c m0 s).
      assert (j <> c) as Hjc by (unfold j; rewrite next_core by done; destruct (Nat.eqb_spec (c + 1) (length (cores s))); lia).
      assert (cores s1 !! j = Some w) as Hw1 by (cbn [s1 with_core cores]; by rewrite list_lookup_insert_ne).
      unfold proto_of. rewrite views_core. unfold s1 at 1. rewrite views_core. destruct (Hctx m0 eq_refl) as [Ha Hb].
      pose proof (ps_pass (view_of <$> cores s) (contexts s ≫= ctx_tags) (contexts s ≫= ctx_firing) (next_uid s) c (view_of m) (view_of w)
        (contexts (with_core j (set_ipi_token true w) s1) ≫= ctx_tags) (contexts (with_core j (set_ipi_token true w) s1) ≫= ctx_firing)) as Hp.
      rewrite length_fmap in Hp. apply Hp; clear Hp; [by apply views_lookup | done | done | done | by apply views_lookup | |].
      * rewrite (contexts_same ctx_tags s1 j w) by done. exact Ha.
      * intros x. rewrite (contexts_same ctx_firing s1 j w) by done. apply Hb.
  - unfold Fire in HF. rewrite Hc in HF. cbn [deref] in HF. rewrite bind_Ok, Hf in HF. cbn [deref] in HF. rewrite bind_Ok in HF.
    change (count (pending_generation_ (set_timer_on false m)) (set_timer_on false m)) with (count (pending_generation_ m) m) in HF.
    rewrite (proj2 (Z.eqb_neq _ _)) in HF by done. injection HF as <-.
    apply (sim_same s c m); [done | | done | done]. unfold view_of. cbn. by rewrite Ht.
Qed.

(** Every step of the system is a step of the protocol. *)
Lemma step_sim s s' : AllCtl s -> step s s' -> pstep (proto_of s) (proto_of s').
Proof.
  intros I. destruct 1 as [s c m m' Hc Hl H|s c m m' Hc Hl H|s c m Hc Hl _|s c m Hc Hl Hi|s c m num Hc Hl _|s c m m' Hc H|s c m id Hc _
    |s c m fresh Hc He Hf|s c m id cpu s' Hc _ H|s c m fresh context m' Hc _ Hf H|s c m l1 context l2 s' Hc _ Hs H|s c m id Hc _
    |s c m s' Hc He Ht H|s c m fresh t m' Hc Hf H|s c m Hc _|s c m Hc _|s c m started r Hc _ H|s c m started Hc _].
  - by apply (sim_task s c m).
  - unfold run_idle in H. destruct (tasks_ m), (idle_callback_ m); try done. injection H as <-. by apply sim_loop.
  - apply (sim_same s c m); [done | done | |]; rewrite !core_bind;
      cbn [remote_interrupt Process set_event_stack set_remote_tasks set_tasks set_ipi_tasks active_event_context_ sync_contexts_ tasks_ remote_tasks];
      rewrite !bind_app; cbn [mbind list_bind]; rewrite app_nil_r; done.
  - unfold proto_of. rewrite views_core. apply (ps_token _ _ _ _ c (view_of m)); [by apply views_lookup | done | |].
    + by rewrite (contexts_same ctx_tags s c m).
    + intros x. by rewrite (contexts_same ctx_firing s c m).
  - by apply sim_loop.
  - by apply (sim_return s c m).
  - destruct (queue_bind ctx_tags m (TUser id)) as [Hq1 _]. destruct (queue_bind ctx_firing m (TUser id)) as [Hq2 _].
    apply (sim_same s c m); [done | done | exact Hq1 |]. intros x. unfold SpawnAsync. by rewrite Hq2.
  - by apply sim_spawn.
  - apply bind_ok in H as (m' & Hm%deref_ok & [= <-]).
    destruct (queue_bind ctx_tags m' (TUser id)) as [_ Hq1]. destruct (queue_bind ctx_firing m' (TUser id)) as [_ Hq2].
    apply (sim_same s cpu m'); [done | done | exact Hq1 |]. intros x. by rewrite Hq2.
  - by apply (sim_save s c m fresh).
  - by eapply sim_activate.
  - unfold proto_of. rewrite views_core. apply (ps_register _ _ _ _ c (view_of m) id _ _ (live s)); [by apply views_lookup | | |].
    + by rewrite live_tags.
    + by rewrite (contexts_same ctx_tags s c m).
    + intros x. by rewrite (contexts_same ctx_firing s c m).
  - by apply (sim_fire s c m).
  - by apply (sim_fire_next s c m fresh t).
  - by apply ps_stutter.
  - apply (sim_same s c m); [done | | |]; unfold GetTlsMap; by destruct (tls _).
  - unfold IdleStart in H. destruct started; [| apply bind_ok in H as (_ & _ & H)]; injection H as <-; by apply (sim_same s c m).
  - destruct started; by apply (sim_same s c m).
Qed.

(** ** Reachable states *)

Lemma boot_PInv sts : sts <> [] -> PInv 0 (proto_of (boot sts)).
Proof.
  intros Hne. assert (contexts (boot sts) ≫= ctx_tags = [(0%nat, 0%nat, 0)] /\ contexts (boot sts) ≫= ctx_firing = []) as [Et Ef].
  { assert (forall B (g : EventContext -> list B) (h : nat -> Z -> EventManager) l, (forall i st, core_ctxs (h i st) ≫= g = []) -> (imap h l ≫= core_ctxs) ≫= g = []) as Hi.
    { intros B g h l. revert h. induction l as [|x l IH]; intros h Hh; [done |]. cbn [imap]. rewrite bind_cons, bind_app, Hh.
      by apply (IH (h ∘ S)); intros; apply Hh. }
    destruct sts as [|st sts]; [done |]. unfold contexts, boot. cbn [imap saved cores app].
    rewrite bind_cons, !bind_app, !Hi by done. done. }
  assert (forall c v, p_cores (proto_of (boot sts)) !! c = Some v ->
    (c <> 0%nat /\ v = mkView 0 (0, 0) 0 [] [] false false) \/ (c = 0%nat /\ v = mkView 1 (1, 0) 0 [] [] true false)) as Hc.
  { intros c v Hv. cbn [proto_of p_cores] in Hv. rewrite list_lookup_fmap in Hv. apply fmap_Some in Hv as (m & Hm & ->).
    unfold boot in Hm. cbn [cores] in Hm. destruct sts as [|st sts]; [done |]. cbn [imap] in Hm. destruct c as [|c].
    - injection Hm as <-. by right.
    - left. split; [done |]. change (imap (new_core ∘ S) sts !! c = Some m) in Hm. rewrite list_lookup_imap in Hm.
      by apply fmap_Some in Hm as (y & _ & ->). }
  assert (0 < length (p_cores (proto_of (boot sts))))%nat as Hlen.
  { cbn [proto_of p_cores boot cores]. rewrite length_fmap. destruct sts as [|? ?]; [done |]. cbn. lia. }
  change (contexts (boot sts) ≫= ctx_tags) with (p_tags (proto_of (boot sts))) in Et.
  change (contexts (boot sts) ≫= ctx_firing) with (p_firing (proto_of (boot sts))) in Ef.
  assert (p_next (proto_of (boot sts)) = 1%nat) as En by done.
  split; rewrite ?Et, ?Ef, ?En; [done | | | | | | |].
  - intros x ->%list_elem_of_singleton. cbn [tag_uid tag_cpu fst snd]. split; [lia | done].
  - intros c v t u [[_ ->]|[_ ->]]%Hc Hin; by apply elem_of_nil in Hin.
  - intros c v g [[Hc0 ->]|[-> ->]]%Hc; exists 0; (split; [done |]); unfold nlive, of_parity, v_get; cbn [List.filter tag_cpu tag_gen fst snd v_count].
    + destruct (Nat.eqb_spec 0 c); [congruence |]. cbn. by destruct (Z.odd g).
    + cbn. destruct (Z.odd g); cbn; (split; [done | lia]).
  - intros c v [[Hc0 ->]|[-> ->]]%Hc; cbn [v_gen v_timer v_pending]; (split; [lia |]); (split; [done |]); intros x ->%list_elem_of_singleton E.
    + cbn in E. congruence.
    + by right.
  - intros c v [[Hc0 ->]|[-> ->]]%Hc; [by rewrite decide_False | by rewrite decide_True].
  - intros c v t [[_ ->]|[_ ->]]%Hc Hin; by apply elem_of_nil in Hin.
  - intros t Hin. by apply elem_of_nil in Hin.
Qed.

Lemma reachable_sim s0 s : AllCtl s0 -> rtc step s0 s -> AllCtl s /\ rtc pstep (proto_of s0) (proto_of s).
Proof.
  intros I Hrun. induction Hrun as [s|s1 s2 s3 Hst _ IH]; [done |].
  destruct IH as [J1 J2]; [by eapply step_ctl |]. split; [done |]. eapply rtc_l; [by apply step_sim | done].
Qed.

Lemma reachable_PInv sts s : sts <> [] -> rtc step (boot sts) s -> Z.of_nat (next_uid s) < 2 ^ 64 -> exists k, PInv k (proto_of s).
Proof.
  intros Hne Hrun Hn. destruct (reachable_sim _ _ (boot_ctl sts) Hrun) as [_ Hp].
  apply (proto_safe _ _ Hp); [exists 0%nat; by apply boot_PInv | done].
Qed.

(** C10. The event manager refines the token protocol: over any interleaving of the
    cores, every step of it is a step of the protocol on the generations, counts,
    registered functions and running events of the cores. *)
Theorem EventManager_refines_protocol sts s s' : rtc step (boot sts) s -> step s s' -> pstep (proto_of s) (proto_of s').
Proof. intros Hrun Hst. destruct (reachable_sim _ _ (boot_ctl sts) Hrun) as [I _]. by apply step_sim. Qed.

(** C6. Grace periods: over any interleaving of the cores, when a function that was
    given to DoRcu is started, all events that had started and not ended when it
    was registered, on any core, suspended ones included, have ended.  (Events are
    counted in 64 bits, so fewer than 2^64 may have been started.) *)
Theorem grace_period_safe sts s c m fresh t m' : sts <> [] -> rtc step (boot sts) s -> Z.of_nat (next_uid s) < 2 ^ 64 ->
  cores s !! c = Some m -> fire_next c fresh m (next_uid s) = Some (t, m') ->
  forall u, u ∈ rt_readers t -> u ∉ live s.
Proof.
  intros Hne Hrun Hn Hc Hf u Hu Hlive. destruct (reachable_PInv sts s Hne Hrun Hn) as [k I].
  assert (t ∈ contexts s ≫= ctx_firing) as Ht.
  { unfold fire_next in Hf. destruct (running (active_event_context_ m)) as [f|] eqn:Er; [| done]. cbn [mbind option_bind] in Hf.
    destruct (fr_tasks f) as [|t0 rest] eqn:Ef; [done |]. injection Hf as <- _.
    destruct (bind_core ctx_firing s c m Hc) as (r & H1 & _). rewrite H1. apply elem_of_app; left. rewrite core_bind. apply elem_of_app; left.
    unfold ctx_firing. rewrite Er, Ef. by left. }
  destruct (pi_firing _ _ I t Ht) as [Hw _]. rewrite live_tags in Hlive. apply list_elem_of_fmap in Hlive as (x & Hxu & Hx).
  by apply (Hw u x Hu Hx).
Qed.

(** ** A count that is left behind *)

Lemma pstep_next_mono a b : rtc pstep a b -> (p_next a <= p_next b)%nat.
Proof. induction 1 as [|b1 b2 b3 Hb _ IHb]; [done |]. pose proof (pstep_next _ _ Hb). lia. Qed.

Lemma stuck_forever c g a b : rtc pstep a b -> stuck c g a -> stuck c g b.
Proof. induction 1 as [|a1 a2 a3 Ha _ IH]; [done |]. intros Hs. apply IH. by eapply stuck_step. Qed.

Lemma activation_stuck k s c m x rest m' : PInv k (proto_of s) -> cores s !! c = Some m -> in_loop m ->
  tasks_ m = TActivate x :: rest -> run_task (next_uid s) m = Some m' ->
  stuck c (generation_ m) (proto_of (event_started (with_core c m' s))).
Proof.
  intros PI Hc Hl Ht Hm'. pose proof (pi_count _ _ PI c (view_of m) (generation_ m) (views_lookup s c m Hc)) as Hcnt.
  intros v Hv. unfold proto_of in Hv. cbn [p_cores] in Hv.
  change (cores (event_started (with_core c m' s))) with (cores (with_core c m' s)) in Hv.
  rewrite views_core, list_lookup_insert_eq in Hv by (rewrite length_fmap; by apply lookup_lt_Some in Hc). injection Hv as <-.
  unfold in_loop in Hl. unfold run_task in Hm'. rewrite Ht in Hm'. injection Hm' as <-.
  apply (counted_perm _ _ (p_tags (proto_of s))).
  - cbn [proto_of p_tags]. set (m' := ActivatePrivate x _). change (contexts (event_started (with_core c m' s))) with (contexts (with_core c m' s)).
    destruct (bind_core ctx_tags s c m Hc) as (r & H1 & H2). rewrite H1, H2, !core_bind, Ht, bind_cons.
    unfold ctx_tags at 5. rewrite Hl. cbn. solve_Permutation.
  - apply (counted_core 0 c (view_of m) (p_tags (proto_of s)) (p_tags (proto_of s)) (next_uid s) _ (generation_ m) (generation_ m) 1 0 1);
      [exact Hcnt | lia | by rewrite eqb_reflx | |]; cbn [proto_of p_next event_started with_core next_uid]; lia.
Qed.

(** The check of a core that has an event of the generation it waits for. *)
Lemma Fire_retry c s m : cores s !! c = Some m -> in_event m -> count (pending_generation_ m) m <> 0 ->
  Fire c s = Ok (with_core c (StartTimer m) s).
Proof.
  intros Hc (f & Hf & _) Hnz. unfold Fire. rewrite Hc. cbn [deref]. rewrite bind_Ok, Hf. cbn [deref]. rewrite bind_Ok.
  change (count (pending_generation_ (set_timer_on false m)) (set_timer_on false m)) with (count (pending_generation_ m) m).
  by rewrite (proj2 (Z.eqb_neq _ _)).
Qed.

(** C12. A context that is activated leaves behind a count that never goes away: the
    call of InvokeFunction that resumes it never returns.  From then on, whatever
    happens, the core cannot complete a generation of that parity: its check
    starts the timer again and the token never leaves the core. *)
Theorem activation_blocks_rcu sts s c m x rest m' s2 m2 : sts <> [] -> rtc step (boot sts) s ->
  cores s !! c = Some m -> in_loop m -> tasks_ m = TActivate x :: rest -> run_task (next_uid s) m = Some m' ->
  rtc step (event_started (with_core c m' s)) s2 -> Z.of_nat (next_uid s2) < 2 ^ 64 -> cores s2 !! c = Some m2 ->
  count (generation_ m) m2 <> 0 /\
  (Z.odd (pending_generation_ m2) = Z.odd (generation_ m) -> in_event m2 -> Fire c s2 = Ok (with_core c (StartTimer m2) s2)).
Proof.
  intros Hne Hrun Hc Hl Ht Hm' Hrun2 Hn Hc2. set (s1 := event_started (with_core c m' s)) in *.
  assert (step s s1) as Hst by (by apply (st_task s c m)).
  destruct (reachable_sim _ _ (boot_ctl sts) Hrun) as [I _]. pose proof (step_ctl _ _ I Hst) as I1.
  destruct (reachable_sim _ _ I1 Hrun2) as [_ Hp2].
  pose proof (pstep_next_mono _ _ Hp2) as Hle. cbn [proto_of p_next s1 event_started with_core next_uid] in Hle.
  destruct (reachable_PInv sts s Hne Hrun ltac:(lia)) as [k PI].
  pose proof (stuck_forever _ _ _ _ Hp2 (activation_stuck k s c m x rest m' PI Hc Hl Ht Hm')) as Hs2.
  destruct (Hs2 (view_of m2) (views_lookup s2 c m2 Hc2)) as (l & Hl1 & Hl2 & Hl3). cbn [proto_of p_next] in Hl3.
  change (v_get (generation_ m) (view_of m2)) with (count (generation_ m) m2) in Hl2.
  assert (count (generation_ m) m2 <> 0) as Hnz by (rewrite Hl2; unfold u64, wrap; rewrite Z.mod_small; lia).
  split; [done |]. intros Hpar He. apply Fire_retry; [done | done |]. unfold count in *. by rewrite Hpar.
Qed.
