(* ===== verification/EventWitness.v ===== *)
(** * Concrete runs of the event manager

    One core: a function is registered with DoRcu, two interrupts later it runs;
    and the boot event is suspended and activated again. *)

From S2P Require Import Prelude EventManager EventCorrect RcuProtocol RcuGrace.

Definition core0 (s : System) : EventManager := default (new_core 0 0) (cores s !! 0%nat).
Definition upd (f : EventManager -> EventManager) (s : System) : System := with_core 0 (f (core0 s)) s.
Definition ret_ok (o : outcome System) (s : System) : System := match o with Ok s' => s' | Fail _ => s end.
Definition returned (s : System) : System := upd (fun m => default m (event_return m)) s.
Definition interrupted (s : System) : System := event_started (upd (InvokeBegin (next_uid s) false) s).

Ltac run_step := by vm_compute.

(** ** A grace period *)

Definition g0 : System := boot [100].
Definition g1 : System := (AllocateVector g0).2.
Definition g2 : System := upd (DoRcu (mkRcu 7 (live g1))) g1.
Definition g3 : System := returned g2.
Definition g4 : System := interrupted g3.
Definition g5 : System := ret_ok (Fire 0 g4) g4.
Definition g6 : System := returned g5.
Definition g7 : System := interrupted g6.
Definition g8 : System := ret_ok (Fire 0 g7) g7.

Lemma g4_run : rtc step g0 g4.
Proof.
  eapply rtc_l; [apply (st_vector g0 0 (core0 g0)); [run_step | eexists; split; run_step] |].
  eapply rtc_l; [apply (st_rcu g1 0 (core0 g1) 7); [run_step | eexists; split; run_step] |].
  eapply rtc_l; [apply (st_return g2 0 (core0 g2)); run_step |].
  apply rtc_once, (st_interrupt g3 0 (core0 g3) 34); [run_step | run_step | by left].
Qed.
Lemma g8_run : rtc step g0 g8.
Proof.
  transitivity g4; [exact g4_run |].
  eapply rtc_l; [apply (st_fire g4 0 (core0 g4) g5); [run_step | eexists; split; run_step | run_step | run_step] |].
  eapply rtc_l; [apply (st_return g5 0 (core0 g5)); run_step |].
  eapply rtc_l; [apply (st_interrupt g6 0 (core0 g6) 34); [run_step | run_step | by left] |].
  apply rtc_once, (st_fire g7 0 (core0 g7) g8); [run_step | eexists; split; run_step | run_step | run_step].
Qed.

Lemma grace_period_safe_witness : 0%nat ∉ live g8.
Proof.
  assert (exists m', fire_next 0 200 (core0 g8) (next_uid g8) = Some (mkRcu 7 [0%nat], m')) as [m' Hm'] by (eexists; vm_compute; reflexivity).
  apply (grace_period_safe [100] g8 0 (core0 g8) 200 (mkRcu 7 [0%nat]) m'); [done | exact g8_run | run_step | run_step | exact Hm' | by left].
Defined.

Lemma EventManager_refines_protocol_witness : pstep (proto_of g4) (proto_of g5).
Proof.
  apply (EventManager_refines_protocol [100] g4 g5); [exact g4_run |].
  apply (st_fire g4 0 (core0 g4) g5); [run_step | eexists; split; run_step | run_step | run_step].
Defined.

(** ** A context is suspended and activated *)

Definition a2 : System := with_saved [active_event_context_ (core0 g1)] (with_core 0 (SaveContext 0 101 (core0 g1)).2 g1).
Definition a3 : System := interrupted a2.
Definition a4 : System := ret_ok (ActivateContext 0 (active_event_context_ (core0 g1)) (with_saved [] a3)) a3.
Definition a5 : System := returned a4.
Definition a6 : System := event_started (upd (fun m => default m (run_task (next_uid a5) m)) a5).
Definition a7 : System := returned a6.

Lemma a5_run : rtc step g0 a5.
Proof.
  eapply rtc_l; [apply (st_vector g0 0 (core0 g0)); [run_step | eexists; split; run_step] |].
  eapply rtc_l; [apply (st_save g1 0 (core0 g1) 101 (active_event_context_ (core0 g1)) (SaveContext 0 101 (core0 g1)).2);
    [run_step | eexists; split; run_step | | run_step] |].
  { apply (bool_decide_unpack _). vm_compute. exact I. }
  eapply rtc_l; [apply (st_interrupt a2 0 (core0 a2) 34); [run_step | run_step | by left] |].
  eapply rtc_l; [apply (st_activate a3 0 (core0 a3) [] (active_event_context_ (core0 g1)) [] a4);
    [run_step | eexists; split; run_step | run_step | run_step] |].
  apply rtc_once, (st_return a4 0 (core0 a4)); run_step.
Qed.

(** The suspended event has ended, and its count remains. *)
Lemma activation_blocks_rcu_witness : count (generation_ (core0 a5)) (core0 a7) <> 0 /\ live a7 = [].
Proof.
  split; [| by vm_compute].
  refine (proj1 (activation_blocks_rcu [100] a5 0 (core0 a5) (active_event_context_ (core0 g1)) [] (core0 a6) a7 (core0 a7)
    _ a5_run _ _ _ _ _ _ _)); [done | run_step | run_step | run_step | run_step | | run_step | run_step].
  replace (event_started (with_core 0 (core0 a6) a5)) with a6 by (vm_compute; reflexivity).
  apply rtc_once, (st_return a6 0 (core0 a6)); run_step.
Defined.

