(* ===== verification/Tcp.v ===== *)
(** * The TCP connection

    Models src/src/native/NetTcp.cc and NetTcp.h: the protocol control block
    [TcpEntry] (declared in Net.h), its input and output paths, timers and
    closing, the listening entry, and the demultiplexing of segments.

    An operation returns the new entry and the list of what it did to the
    outside: segments and resets handed to IP, calls to the application's
    handler, timer requests, removal of the entry.  Fields of headers are in
    host byte order.  Times are in nanoseconds, 0 is the unset time point. *)

From S2P Require Import Prelude.
From S2P Require Import Checksum.

(** ** Constants of NetTcp.h *)

Definition kTcpMss : Z := 1460.
Definition kTcpWnd : Z := Z.shiftl 1 21.
Definition kWindowShift : Z := 7.
Definition TcpWindow16 (sz : Z) : Z := u16 (Z.shiftr sz kWindowShift).
Definition kTcpFin : Z := 0x01.
Definition kTcpSyn : Z := 0x02.
Definition kTcpRst : Z := 0x04.
Definition kTcpPsh : Z := 0x08.
Definition kTcpAck : Z := 0x10.
Definition kTcpUrg : Z := 0x20.
Definition kTcpFlagMask : Z := 0x3f.
Definition sizeofTcpHeader : Z := 20.

(** [flags & mask], as a condition. *)
Definition has (flags mask : Z) : bool := negb (Z.land flags mask =? 0).

(** The word that holds the header length and the flags. *)
Definition SetHdrLenFlags (header_len flags : Z) : Z := u16 (Z.lor (Z.shiftl (header_len / 4) 12) flags).
Definition SetFlags (hdrlen_flags flags : Z) : Z :=
  Z.lor (Z.land hdrlen_flags (u16 (Z.lnot 0xFFF))) (Z.land flags 0xFFF).
Definition HdrLen (hdrlen_flags : Z) : Z := Z.shiftr hdrlen_flags 12 * 4.
Definition Flags (hdrlen_flags : Z) : Z := Z.land hdrlen_flags kTcpFlagMask.

(** struct TcpHeader (the fields the code reads) and struct TcpInfo. *)
Record TcpHeader := mkTh { th_hdrlen_flags : Z; th_wnd : Z }.
Record TcpInfo := mkInfo { src_port : Z; dst_port : Z; seqno : Z; ackno : Z; tcplen : Z }.

(** ** Sequence numbers *)

Definition TcpSeqBetween (in_ left right : Z) : bool := u32 (in_ - left) <=? u32 (right - left).
Definition TcpSeqLT (first second : Z) : bool := s32 (first - second) <? 0.
Definition TcpSeqGT (first second : Z) : bool := 0 <? s32 (first - second).
Definition TcpSeqLEQ (first second : Z) : bool := s32 (first - second) <=? 0.
Definition TcpSeqGEQ (first second : Z) : bool := 0 <=? s32 (first - second).

(** ** Buffers: the data of the elements of an IOBuf chain *)

Definition buffers : Type := list (list Z).
Definition buf_len (b : buffers) : Z := Z.of_nat (length (concat b)).
(** [Advance] asserts on, and moves, the first element only. *)
Definition buf_Advance (n : Z) (b : buffers) : outcome buffers :=
  match b with
  | [] => Fail UndefinedBehaviour
  | h :: t => _ ← kassert (n <=? Z.of_nat (length h)); Ok (drop (Z.to_nat n) h :: t)
  end.
(** [TrimEnd] shortens the first element; more than its length is an underflow
    of the length. *)
Definition buf_TrimEnd (n : Z) (b : buffers) : outcome buffers :=
  match b with
  | [] => Fail UndefinedBehaviour
  | h :: t =>
      if n <=? Z.of_nat (length h) then Ok (take (length h - Z.to_nat n) h :: t) else Fail UndefinedBehaviour
  end.
Definition buf_PrependChain (b other : buffers) : buffers := b ++ other.

(** struct TcpSegment: the header fields fixed when it is queued, the payload,
    and the 16-bit [tcp_len]. *)
Record TcpSegment := mkSeg { seg_seqno : Z; seg_hdrlen_flags : Z; seg_data : list Z; tcp_len : Z }.
Definition SeqLen (s : TcpSegment) : Z := tcp_len s.

Inductive State :=
| kClosed | kSynSent | kSynReceived | kEstablished | kFinWait1
| kFinWait2 | kCloseWait | kClosing | kLastAck | kTimeWait.
#[export] Instance State_eq_dec : EqDecision State.
Proof. solve_decision. Defined.
Definition state_num (s : State) : Z :=
  match s with
  | kClosed => 0 | kSynSent => 1 | kSynReceived => 2 | kEstablished => 3 | kFinWait1 => 4
  | kFinWait2 => 5 | kCloseWait => 6 | kClosing => 7 | kLastAck => 8 | kTimeWait => 9
  end.

(** struct TcpEntry.  [handler] tells whether a handler is installed. *)
Record TcpEntry := mkEntry {
  cpu : Z;
  address : Ipv4Address;
  key : Ipv4Address * Z * Z;
  unacked_segments : list TcpSegment;
  pending_segments : list TcpSegment;
  stashed_segments : list (Z * buffers);
  state : State;
  snd_una : Z;
  snd_nxt : Z;
  snd_wnd : Z;
  snd_wl1 : Z;
  snd_wl2 : Z;
  rcv_nxt : Z;
  rcv_wnd : Z;
  rcv_last_acked : Z;
  close_window : bool;
  retransmit : Z;
  time_wait : Z;
  handler : bool;
  accepted : bool;
  window_notify : bool;
  timer_set : bool
}.

Definition set_cpu (v : Z) (e : TcpEntry) : TcpEntry :=
  mkEntry v (address e) (key e) (unacked_segments e) (pending_segments e) (stashed_segments e) (state e)
    (snd_una e) (snd_nxt e) (snd_wnd e) (snd_wl1 e) (snd_wl2 e) (rcv_nxt e) (rcv_wnd e)
    (rcv_last_acked e) (close_window e) (retransmit e) (time_wait e) (handler e) (accepted e)
    (window_notify e) (timer_set e).
Definition set_address (v : Ipv4Address) (e : TcpEntry) : TcpEntry :=
  mkEntry (cpu e) v (key e) (unacked_segments e) (pending_segments e) (stashed_segments e) (state e)
    (snd_una e) (snd_nxt e) (snd_wnd e) (snd_wl1 e) (snd_wl2 e) (rcv_nxt e) (rcv_wnd e)
    (rcv_last_acked e) (close_window e) (retransmit e) (time_wait e) (handler e) (accepted e)
    (window_notify e) (timer_set e).
Definition set_key (v : Ipv4Address * Z * Z) (e : TcpEntry) : TcpEntry :=
  mkEntry (cpu e) (address e) v (unacked_segments e) (pending_segments e) (stashed_segments e) (state e)
    (snd_una e) (snd_nxt e) (snd_wnd e) (snd_wl1 e) (snd_wl2 e) (rcv_nxt e) (rcv_wnd e)
    (rcv_last_acked e) (close_window e) (retransmit e) (time_wait e) (handler e) (accepted e)
    (window_notify e) (timer_set e).
Definition set_unacked_segments (v : list TcpSegment) (e : TcpEntry) : TcpEntry :=
  mkEntry (cpu e) (address e) (key e) v (pending_segments e) (stashed_segments e) (state e) (snd_una e)
    (snd_nxt e) (snd_wnd e) (snd_wl1 e) (snd_wl2 e) (rcv_nxt e) (rcv_wnd e) (rcv_last_acked e)
    (close_window e) (retransmit e) (time_wait e) (handler e) (accepted e) (window_notify e)
    (timer_set e).
Definition set_pending_segments (v : list TcpSegment) (e : TcpEntry) : TcpEntry :=
  mkEntry (cpu e) (address e) (key e) (unacked_segments e) v (stashed_segments e) (state e) (snd_una e)
    (snd_nxt e) (snd_wnd e) (snd_wl1 e) (snd_wl2 e) (rcv_nxt e) (rcv_wnd e) (rcv_last_acked e)
    (close_window e) (retransmit e) (time_wait e) (handler e) (accepted e) (window_notify e)
    (timer_set e).
Definition set_stashed_segments (v : list (Z * buffers)) (e : TcpEntry) : TcpEntry :=
  mkEntry (cpu e) (address e) (key e) (unacked_segments e) (pending_segments e) v (state e) (snd_una e)
    (snd_nxt e) (snd_wnd e) (snd_wl1 e) (snd_wl2 e) (rcv_nxt e) (rcv_wnd e) (rcv_last_acked e)
    (close_window e) (retransmit e) (time_wait e) (handler e) (accepted e) (window_notify e)
    (timer_set e).
Definition set_state (v : State) (e : TcpEntry) : TcpEntry :=
  mkEntry (cpu e) (address e) (key e) (unacked_segments e) (pending_segments e) (stashed_segments e) v
    (snd_una e) (snd_nxt e) (snd_wnd e) (snd_wl1 e) (snd_wl2 e) (rcv_nxt e) (rcv_wnd e)
    (rcv_last_acked e) (close_window e) (retransmit e) (time_wait e) (handler e) (accepted e)
    (window_notify e) (timer_set e).
Definition set_snd_una (v : Z) (e : TcpEntry) : TcpEntry :=
  mkEntry (cpu e) (address e) (key e) (unacked_segments e) (pending_segments e) (stashed_segments e) (state e)
    v (snd_nxt e) (snd_wnd e) (snd_wl1 e) (snd_wl2 e) (rcv_nxt e) (rcv_wnd e) (rcv_last_acked e)
    (close_window e) (retransmit e) (time_wait e) (handler e) (accepted e) (window_notify e)
    (timer_set e).
Definition set_snd_nxt (v : Z) (e : TcpEntry) : TcpEntry :=
  mkEntry (cpu e) (address e) (key e) (unacked_segments e) (pending_segments e) (stashed_segments e) (state e)
    (snd_una e) v (snd_wnd e) (snd_wl1 e) (snd_wl2 e) (rcv_nxt e) (rcv_wnd e) (rcv_last_acked e)
    (close_window e) (retransmit e) (time_wait e) (handler e) (accepted e) (window_notify e)
    (timer_set e).
Definition set_snd_wnd (v : Z) (e : TcpEntry) : TcpEntry :=
  mkEntry (cpu e) (address e) (key e) (unacked_segments e) (pending_segments e) (stashed_segments e) (state e)
    (snd_una e) (snd_nxt e) v (snd_wl1 e) (snd_wl2 e) (rcv_nxt e) (rcv_wnd e) (rcv_last_acked e)
    (close_window e) (retransmit e) (time_wait e) (handler e) (accepted e) (window_notify e)
    (timer_set e).
Definition set_snd_wl1 (v : Z) (e : TcpEntry) : TcpEntry :=
  mkEntry (cpu e) (address e) (key e) (unacked_segments e) (pending_segments e) (stashed_segments e) (state e)
    (snd_una e) (snd_nxt e) (snd_wnd e) v (snd_wl2 e) (rcv_nxt e) (rcv_wnd e) (rcv_last_acked e)
    (close_window e) (retransmit e) (time_wait e) (handler e) (accepted e) (window_notify e)
    (timer_set e).
Definition set_snd_wl2 (v : Z) (e : TcpEntry) : TcpEntry :=
  mkEntry (cpu e) (address e) (key e) (unacked_segments e) (pending_segments e) (stashed_segments e) (state e)
    (snd_una e) (snd_nxt e) (snd_wnd e) (snd_wl1 e) v (rcv_nxt e) (rcv_wnd e) (rcv_last_acked e)
    (close_window e) (retransmit e) (time_wait e) (handler e) (accepted e) (window_notify e)
    (timer_set e).
Definition set_rcv_nxt (v : Z) (e : TcpEntry) : TcpEntry :=
  mkEntry (cpu e) (address e) (key e) (unacked_segments e) (pending_segments e) (stashed_segments e) (state e)
    (snd_una e) (snd_nxt e) (snd_wnd e) (snd_wl1 e) (snd_wl2 e) v (rcv_wnd e) (rcv_last_acked e)
    (close_window e) (retransmit e) (time_wait e) (handler e) (accepted e) (window_notify e)
    (timer_set e).
Definition set_rcv_wnd (v : Z) (e : TcpEntry) : TcpEntry :=
  mkEntry (cpu e) (address e) (key e) (unacked_segments e) (pending_segments e) (stashed_segments e) (state e)
    (snd_una e) (snd_nxt e) (snd_wnd e) (snd_wl1 e) (snd_wl2 e) (rcv_nxt e) v (rcv_last_acked e)
    (close_window e) (retransmit e) (time_wait e) (handler e) (accepted e) (window_notify e)
    (timer_set e).
Definition set_rcv_last_acked (v : Z) (e : TcpEntry) : TcpEntry :=
  mkEntry (cpu e) (address e) (key e) (unacked_segments e) (pending_segments e) (stashed_segments e) (state e)
    (snd_una e) (snd_nxt e) (snd_wnd e) (snd_wl1 e) (snd_wl2 e) (rcv_nxt e) (rcv_wnd e) v
    (close_window e) (retransmit e) (time_wait e) (handler e) (accepted e) (window_notify e)
    (timer_set e).
Definition set_close_window (v : bool) (e : TcpEntry) : TcpEntry :=
  mkEntry (cpu e) (address e) (key e) (unacked_segments e) (pending_segments e) (stashed_segments e) (state e)
    (snd_una e) (snd_nxt e) (snd_wnd e) (snd_wl1 e) (snd_wl2 e) (rcv_nxt e) (rcv_wnd e)
    (rcv_last_acked e) v (retransmit e) (time_wait e) (handler e) (accepted e) (window_notify e)
    (timer_set e).
Definition set_retransmit (v : Z) (e : TcpEntry) : TcpEntry :=
  mkEntry (cpu e) (address e) (key e) (unacked_segments e) (pending_segments e) (stashed_segments e) (state e)
    (snd_una e) (snd_nxt e) (snd_wnd e) (snd_wl1 e) (snd_wl2 e) (rcv_nxt e) (rcv_wnd e)
    (rcv_last_acked e) (close_window e) v (time_wait e) (handler e) (accepted e) (window_notify e)
    (timer_set e).
Definition set_time_wait (v : Z) (e : TcpEntry) : TcpEntry :=
  mkEntry (cpu e) (address e) (key e) (unacked_segments e) (pending_segments e) (stashed_segments e) (state e)
    (snd_una e) (snd_nxt e) (snd_wnd e) (snd_wl1 e) (snd_wl2 e) (rcv_nxt e) (rcv_wnd e)
    (rcv_last_acked e) (close_window e) (retransmit e) v (handler e) (accepted e) (window_notify e)
    (timer_set e).
Definition set_handler (v : bool) (e : TcpEntry) : TcpEntry :=
  mkEntry (cpu e) (address e) (key e) (unacked_segments e) (pending_segments e) (stashed_segments e) (state e)
    (snd_una e) (snd_nxt e) (snd_wnd e) (snd_wl1 e) (snd_wl2 e) (rcv_nxt e) (rcv_wnd e)
    (rcv_last_acked e) (close_window e) (retransmit e) (time_wait e) v (accepted e) (window_notify e)
    (timer_set e).
Definition set_accepted (v : bool) (e : TcpEntry) : TcpEntry :=
  mkEntry (cpu e) (address e) (key e) (unacked_segments e) (pending_segments e) (stashed_segments e) (state e)
    (snd_una e) (snd_nxt e) (snd_wnd e) (snd_wl1 e) (snd_wl2 e) (rcv_nxt e) (rcv_wnd e)
    (rcv_last_acked e) (close_window e) (retransmit e) (time_wait e) (handler e) v (window_notify e)
    (timer_set e).
Definition set_window_notify (v : bool) (e : TcpEntry) : TcpEntry :=
  mkEntry (cpu e) (address e) (key e) (unacked_segments e) (pending_segments e) (stashed_segments e) (state e)
    (snd_una e) (snd_nxt e) (snd_wnd e) (snd_wl1 e) (snd_wl2 e) (rcv_nxt e) (rcv_wnd e)
    (rcv_last_acked e) (close_window e) (retransmit e) (time_wait e) (handler e) (accepted e) v
    (timer_set e).
Definition set_timer_set (v : bool) (e : TcpEntry) : TcpEntry :=
  mkEntry (cpu e) (address e) (key e) (unacked_segments e) (pending_segments e) (stashed_segments e) (state e)
    (snd_una e) (snd_nxt e) (snd_wnd e) (snd_wl1 e) (snd_wl2 e) (rcv_nxt e) (rcv_wnd e)
    (rcv_last_acked e) (close_window e) (retransmit e) (time_wait e) (handler e) (accepted e)
    (window_notify e) v.

(** ** What an operation does to the outside *)

(** The methods of ITcpHandler. *)
Inductive upcall := UpClose | UpAbort | UpReceive (buf : buffers) | UpConnected | UpSendWindowIncrease.

Inductive event :=
| Sent (seq ack flags wnd hdr_len : Z) (data : list Z) (gso : bool)
| ResetSent (ack : bool) (seq ackno : Z) (local_ip remote_ip : Ipv4Address) (local_port remote_port : Z)
| Up (u : upcall)
| TimerStart (microseconds : Z)
| TimerStop
| Destroyed.

(** ** Sending *)

Definition SendWindowRemaining (e : TcpEntry) : Z := u32 (snd_wnd e - u32 (snd_nxt e - snd_una e)).

Definition SendEmptyAck (e : TcpEntry) : TcpEntry * list event :=
  let e := set_rcv_last_acked (rcv_nxt e) e in
  (e, [Sent (snd_nxt e) (rcv_nxt e) (Flags (SetHdrLenFlags sizeofTcpHeader kTcpAck))
         (TcpWindow16 (rcv_wnd e)) sizeofTcpHeader [] false]).

Definition SendSegment (segment : TcpSegment) (e : TcpEntry) : TcpEntry * list event :=
  let e := set_rcv_last_acked (rcv_nxt e) e in
  (e, [Sent (seg_seqno segment) (rcv_nxt e) (Flags (seg_hdrlen_flags segment)) (TcpWindow16 (rcv_wnd e))
         (HdrLen (seg_hdrlen_flags segment)) (seg_data segment) (kTcpMss <? tcp_len segment)]).

Definition EnqueueSegment (data : list Z) (flags optlen : Z) (e : TcpEntry) : TcpEntry :=
  let packet_len := sizeofTcpHeader + optlen + Z.of_nat (length data) in
  let len := packet_len - sizeofTcpHeader - optlen + (if has flags (Z.lor kTcpSyn kTcpFin) then 1 else 0) in
  let segment := mkSeg (snd_nxt e) (SetHdrLenFlags (sizeofTcpHeader + optlen) flags) data (u16 len) in
  let e := set_pending_segments (pending_segments e ++ [segment]) e in
  set_snd_nxt (u32 (snd_nxt e + len)) e.

Definition Send (data : list Z) (e : TcpEntry) : TcpEntry := EnqueueSegment data kTcpAck 0 e.

(** The loop of [Output]: the pending segments that fit in the window are sent. *)
Fixpoint output_loop (pending : list TcpSegment) (e : TcpEntry) :
    list TcpSegment * list TcpSegment * TcpEntry * list event :=
  match pending with
  | it :: rest =>
      if TcpSeqLEQ (u32 (seg_seqno it + tcp_len it)) (u32 (snd_nxt e + SendWindowRemaining e)) then
        let '(e, ev) := SendSegment it e in
        let '(sent, left_, e, evs) := output_loop rest e in
        (it :: sent, left_, e, ev ++ evs)
      else ([], pending, e, [])
  | [] => ([], [], e, [])
  end.

Definition kRetransmitDelay : Z := 250000000.
Definition kTimeWaitDelay : Z := 60000000000.

Definition Output (now : Z) (e : TcpEntry) : outcome (Z * TcpEntry * list event) :=
  let '(sent, left_, e, evs) := output_loop (pending_segments e) e in
  '(e, evs) ← match sent with
    | _ :: _ =>
        let e := set_unacked_segments (unacked_segments e ++ sent) e in
        Ok (set_pending_segments left_ e, evs)
    | [] =>
        _ ← (match pending_segments e, unacked_segments e with
             | _ :: _, [] => Fail Aborted
             | _, _ => Ok tt
             end);
        if TcpSeqLT (rcv_last_acked e) (rcv_nxt e)
        then let '(e, ev) := SendEmptyAck e in Ok (e, evs ++ ev)
        else Ok (e, evs)
    end;
  let e := match sent with _ :: _ => set_retransmit (now + kRetransmitDelay) e | [] => e end in
  Ok (Z.of_nat (length sent), e, evs).

(** ** Timers *)

Definition SetTimer (now : Z) (e : TcpEntry) : TcpEntry * list event :=
  if timer_set e then (e, []) else
  if (retransmit e <=? now) && (time_wait e <=? now) then (e, []) else
  let min_timer := if retransmit e <=? now then time_wait e else retransmit e in
  (set_timer_set true e, [TimerStart (Z.quot (min_timer - now) 1000)]).

Definition DisableTimers (e : TcpEntry) : TcpEntry * list event :=
  let ev := if timer_set e then [TimerStop] else [] in
  let e := set_timer_set false e in
  (set_time_wait 0 (set_retransmit 0 e), ev).

Definition Purge (e : TcpEntry) : TcpEntry := set_pending_segments [] (set_unacked_segments [] e).

(** [Purge(); DisableTimers(); Destroy();] *)
Definition teardown (e : TcpEntry) : TcpEntry * list event :=
  let e := Purge e in
  let '(e, ev) := DisableTimers e in
  (e, ev ++ [Destroyed]).

(** The timer fires; the flag tells whether the entry is still there. *)
Definition Fire (now : Z) (e : TcpEntry) : outcome (bool * TcpEntry * list event) :=
  let e := set_timer_set false e in
  if negb (time_wait e =? 0) && (time_wait e <=? now) then
    let e := set_time_wait 0 e in
    let '(e, ev) := teardown e in
    Ok (false, e, ev)
  else
    let e :=
      if negb (retransmit e =? 0) && (retransmit e <=? now) then
        let e := set_retransmit 0 e in
        let e := set_pending_segments (unacked_segments e ++ pending_segments e) e in
        set_unacked_segments [] e
      else e in
    '(_, e, ev1) ← Output now e;
    let '(e, ev2) := SetTimer now e in
    Ok (true, e, ev1 ++ ev2).

(** ** Acknowledgements *)

Fixpoint clear_acked_segments (ack : Z) (queue : list TcpSegment) : list TcpSegment :=
  match queue with
  | it :: rest =>
      if TcpSeqGT (u32 (seg_seqno it + SeqLen it)) ack then queue else clear_acked_segments ack rest
  | [] => []
  end.

Definition ClearAckedSegments (ack : Z) (e : TcpEntry) : TcpEntry * list event :=
  let e := set_unacked_segments (clear_acked_segments ack (unacked_segments e)) e in
  let e := set_pending_segments (clear_acked_segments ack (pending_segments e)) e in
  match unacked_segments e with [] => DisableTimers e | _ => (e, []) end.

(** ** Closing *)

Definition SendFin (e : TcpEntry) : TcpEntry :=
  let fin := EnqueueSegment [] (Z.lor kTcpFin kTcpAck) 0 e in
  match last (pending_segments e) with
  | Some seg =>
      let flags := Flags (seg_hdrlen_flags seg) in
      if negb (has flags (Z.lor kTcpSyn (Z.lor kTcpFin kTcpRst))) then
        let seg := mkSeg (seg_seqno seg) (SetFlags (seg_hdrlen_flags seg) (Z.lor flags kTcpFin))
                     (seg_data seg) (u16 (tcp_len seg + 1)) in
        let e := set_pending_segments (removelast (pending_segments e) ++ [seg]) e in
        set_snd_nxt (u32 (snd_nxt e + 1)) e
      else fin
  | None => fin
  end.

Definition Close (e : TcpEntry) : outcome TcpEntry :=
  match state e with
  | kClosed => Ok e
  | kCloseWait => Ok (set_state kLastAck (SendFin e))
  | kSynReceived | kEstablished => Ok (set_state kFinWait1 (SendFin e))
  | _ => Fail Aborted
  end.

(** ** Receiving

    The application behind the handler is a parameter: what its callbacks do to
    the entry through the TcpPcb interface. *)
Class App := { callback : upcall -> TcpEntry -> outcome (TcpEntry * list event) }.

Section Receive.
Context `{App}.

(** [handler->f(...)]. *)
Definition call (u : upcall) (e : TcpEntry) : outcome (TcpEntry * list event) :=
  if handler e then '(e, evs) ← callback u e; Ok (e, Up u :: evs) else Fail UndefinedBehaviour.

(** A phase of [Receive] returns, or goes on with the next one. *)
Inductive result := Ret (b : bool) | Next.
Definition phase : Type := outcome (result * TcpEntry * list event).

(** The address fields of the IP header. *)
Record Addrs := mkAddrs { ip_src : Ipv4Address; ip_dst : Ipv4Address }.

Section Segment.
Context (ih : Addrs) (th : TcpHeader) (info : TcpInfo).
Let flags : Z := Flags (th_hdrlen_flags th).

Definition reset (ack : bool) (seq ackno : Z) : event :=
  ResetSent ack seq ackno (ip_dst ih) (ip_src ih) (dst_port info) (src_port info).

Definition update_window (e : TcpEntry) : TcpEntry :=
  set_snd_wl2 (ackno info) (set_snd_wl1 (seqno info) (set_snd_wnd (u32 (Z.shiftl (th_wnd th) kWindowShift)) e)).

(** [state = kClosed; handler->Abort(); Purge(); DisableTimers(); Destroy(); return false;] *)
Definition abort_closed (e : TcpEntry) : outcome (TcpEntry * list event) :=
  let e := set_state kClosed e in
  '(e, ev1) ← call UpAbort e;
  let '(e, ev2) := teardown e in
  Ok (e, ev1 ++ ev2).

Definition ReceiveSynSent (e : TcpEntry) : outcome (bool * TcpEntry * list event) :=
  let ack := has flags kTcpAck in
  if ack && (TcpSeqLEQ (ackno info) (snd_una e) || TcpSeqGT (ackno info) (snd_nxt e)) then
    if negb (has flags kTcpRst) then
      '(e, evs) ← abort_closed e;
      Ok (false, e, reset false (ackno info) 0 :: evs)
    else Ok (true, e, [])
  else if has flags kTcpRst then
    if ack then '(e, evs) ← abort_closed e; Ok (false, e, evs) else Ok (true, e, [])
  else if has flags kTcpSyn then
    let e := set_rcv_last_acked (seqno info) (set_rcv_nxt (u32 (seqno info + 1)) e) in
    if ack then
      let e := set_state kEstablished (set_snd_una (ackno info) e) in
      let e := update_window e in
      let '(e, ev1) := ClearAckedSegments (ackno info) e in
      if 1 <? tcplen info then Fail Aborted
      else '(e, ev2) ← call UpConnected e; Ok (true, e, ev1 ++ ev2)
    else Fail Aborted
  else Ok (true, e, []).

(** The extra acknowledgement processing of the closing states. *)
Definition ack_closing (now : Z) (e : TcpEntry) : TcpEntry * list event :=
  match state e with
  | kFinWait1 => if ackno info =? snd_nxt e then (set_state kFinWait2 e, []) else (e, [])
  | kClosing =>
      if ackno info =? snd_nxt e then
        let e := Purge e in
        let '(e, ev) := DisableTimers e in
        (set_state kTimeWait (set_time_wait (now + kTimeWaitDelay) e), ev)
      else (e, [])
  | _ => (e, [])
  end.

Definition AckPhase (now : Z) (e : TcpEntry) : phase :=
  if TcpSeqGEQ (seqno info) (rcv_nxt e) && has flags kTcpAck && negb (has flags kTcpSyn) && negb (has flags kTcpRst)
  then
    if bool_decide (state e = kSynReceived) && negb (TcpSeqBetween (ackno info) (u32 (snd_una e + 1)) (snd_nxt e))
    then Ok (Ret true, e, [reset false (ackno info) 0])
    else
      let e := if bool_decide (state e = kSynReceived) then update_window (set_state kEstablished e) else e in
      if state_num (state e) <=? state_num kClosing then
        if TcpSeqBetween (ackno info) (snd_una e) (snd_nxt e) then
          let e := set_snd_una (ackno info) e in
          let e :=
            if TcpSeqBetween (ackno info) (u32 (snd_una e + 1)) (snd_nxt e) ||
               TcpSeqLT (snd_wl1 e) (seqno info) ||
               ((snd_wl1 e =? seqno info) && TcpSeqLEQ (snd_wl2 e) (ackno info))
            then update_window e else e in
          let '(e, ev1) := ClearAckedSegments (ackno info) e in
          '(e, ev2) ← (if window_notify e then call UpSendWindowIncrease e else Ok (e, []));
          let '(e, ev3) := ack_closing now e in
          Ok (Next, e, ev1 ++ ev2 ++ ev3)
        else if TcpSeqGT (ackno info) (snd_nxt e) then
          let '(e, ev) := SendEmptyAck e in Ok (Ret true, e, ev)
        else
          let '(e, ev) := ack_closing now e in Ok (Next, e, ev)
      else if bool_decide (state e = kLastAck) then
        if ackno info =? snd_nxt e then
          let '(e, ev) := teardown (set_state kClosed e) in Ok (Ret false, e, ev)
        else Ok (Next, e, [])
      else Ok (Next, e, [])
  else Ok (Next, e, []).

(** The loop that appends stashed segments, in the order of the map. *)
Fixpoint merge_stashed (stash : list (Z * buffers)) (rcv_nxt payload_len : Z) (buf : buffers) :
    Z * buffers * list (Z * buffers) :=
  match stash with
  | (s, b) :: stash =>
      if s =? u64 (rcv_nxt + payload_len)
      then merge_stashed stash rcv_nxt (u64 (payload_len + buf_len b)) (buf_PrependChain buf b)
      else let '(payload_len, buf, stash) := merge_stashed stash rcv_nxt payload_len buf in
           (payload_len, buf, (s, b) :: stash)
  | [] => (payload_len, buf, [])
  end.

(** [std::map::emplace] unless the key is there. *)
Fixpoint stash_insert (s : Z) (b : buffers) (stash : list (Z * buffers)) : list (Z * buffers) :=
  match stash with
  | (k, c) :: rest =>
      if s <? k then (s, b) :: stash else if s =? k then stash else (k, c) :: stash_insert s b rest
  | [] => [(s, b)]
  end.

(** The payload of an acceptable segment.  [tcplen_] is [info.tcplen], which is
    decremented when a FIN does not fit. *)
Definition Payload (buf : buffers) (tcplen_ : Z) (e : TcpEntry) : outcome (result * Z * TcpEntry * list event) :=
  let hdr_len := HdrLen (th_hdrlen_flags th) in
  let payload_len := u64 (buf_len buf - hdr_len) in
  if payload_len <=? 0 then Ok (Next, tcplen_, e, []) else
  if bool_decide (state e = kEstablished) then
    if TcpSeqGT (seqno info) (rcv_nxt e) then
      buf ← buf_Advance hdr_len buf;
      let e := set_stashed_segments (stash_insert (seqno info) buf (stashed_segments e)) e in
      let '(e, ev) := SendEmptyAck e in
      Ok (Ret true, tcplen_, e, ev)
    else
      let '(payload_len, buf, stash) := merge_stashed (stashed_segments e) (rcv_nxt e) payload_len buf in
      let e := set_stashed_segments stash e in
      '(payload_len, buf, tcplen_) ← (if rcv_wnd e <? payload_len then
          buf ← buf_TrimEnd (payload_len - rcv_wnd e) buf;
          Ok (rcv_wnd e, buf, if has flags kTcpFin then u64 (tcplen_ - 1) else tcplen_)
        else Ok (payload_len, buf, tcplen_));
      let e := set_rcv_nxt (u32 (rcv_nxt e + payload_len)) e in
      let e := if close_window e then set_rcv_wnd (u32 (rcv_wnd e - payload_len)) e else e in
      buf ← buf_Advance hdr_len buf;
      '(e, ev) ← call (UpReceive buf) e;
      Ok (Next, tcplen_, e, ev)
  else if bool_decide (state e = kFinWait1) || bool_decide (state e = kFinWait2) then
    let '(e, ev) := teardown (set_state kClosed e) in
    Ok (Ret false, tcplen_, e, reset true (ackno info) (u32 (seqno info + tcplen_)) :: ev)
  else Ok (Next, tcplen_, e, []).

Definition start_time_wait (now : Z) (e : TcpEntry) : TcpEntry * list event :=
  let '(e, ev) := DisableTimers e in (set_time_wait (now + kTimeWaitDelay) e, ev).

(** The FIN of an acceptable segment. *)
Definition Fin (now tcplen_ : Z) (e : TcpEntry) : outcome (TcpEntry * list event) :=
  if negb (has flags kTcpFin) then Ok (e, [])
  else if bool_decide (state e = kSynSent) then Ok (e, [])
  else
    let e := set_rcv_nxt (u32 (seqno info + tcplen_)) e in
    match state e with
    | kEstablished | kSynReceived => call UpClose (set_state kCloseWait e)
    | kFinWait1 => Ok (set_state kClosing e, [])
    | kFinWait2 => let '(e, ev) := start_time_wait now e in Ok (set_state kTimeWait e, ev)
    | kTimeWait => Ok (start_time_wait now e)
    | _ => Ok (e, [])
    end.

Definition acceptable (e : TcpEntry) : bool :=
  ((0 <? rcv_wnd e) && TcpSeqBetween (seqno info) (rcv_nxt e) (u32 (rcv_nxt e + rcv_wnd e))) ||
  ((tcplen info =? 0) && (seqno info =? rcv_nxt e)).

(** An RST in the window.  The state is overwritten before it is tested. *)
Definition ReceiveRst (e : TcpEntry) : outcome (TcpEntry * list event) :=
  let e := set_state kClosed e in
  '(e, ev1) ←
    (if bool_decide (state e = kSynReceived) then call UpAbort e
     else if (state_num kEstablished <=? state_num (state e)) && (state_num (state e) <=? state_num kCloseWait)
     then call UpAbort e
     else Ok (e, []));
  let '(e, ev2) := teardown e in
  Ok (e, ev1 ++ ev2).

Definition SeqPhase (buf : buffers) (now : Z) (e : TcpEntry) : outcome (bool * TcpEntry * list event) :=
  if acceptable e then
    '(buf, tcplen_) ← (if TcpSeqGT (rcv_nxt e) (seqno info) then
        let n := u32 (rcv_nxt e - seqno info) in
        buf ← buf_Advance n buf; Ok (buf, u64 (tcplen info - n))
      else Ok (buf, tcplen info));
    if has flags kTcpRst then '(e, ev) ← ReceiveRst e; Ok (false, e, ev)
    else if has flags kTcpSyn then
      '(e, ev) ← abort_closed e;
      Ok (false, e, reset true (ackno info) (u32 (seqno info + tcplen_)) :: ev)
    else if negb (has flags kTcpAck) then Ok (true, e, [])
    else if has flags kTcpUrg then Fail Aborted
    else
      '(r, tcplen_, e, ev1) ← Payload buf tcplen_ e;
      match r with
      | Ret b => Ok (b, e, ev1)
      | Next => '(e, ev2) ← Fin now tcplen_ e; Ok (true, e, ev1 ++ ev2)
      end
  else
    match pending_segments e with
    | [] => if negb (has flags kTcpRst) then let '(e, ev) := SendEmptyAck e in Ok (true, e, ev) else Ok (true, e, [])
    | _ => Ok (true, e, [])
    end.

Definition Receive (buf : buffers) (now : Z) (e : TcpEntry) : outcome (bool * TcpEntry * list event) :=
  if bool_decide (state e = kSynSent) then ReceiveSynSent e
  else
    '(r, e, ev1) ← AckPhase now e;
    match r with
    | Ret b => Ok (b, e, ev1)
    | Next => '(b, e, ev2) ← SeqPhase buf now e; Ok (b, e, ev1 ++ ev2)
    end.

(** [TcpEntry::Input]. *)
Definition Input (buf : buffers) (now : Z) (e : TcpEntry) : outcome (bool * TcpEntry * list event) :=
  '(alive, e, ev1) ← Receive buf now e;
  if alive : bool then
    '(_, e, ev2) ← Output now e;
    let '(e, ev3) := SetTimer now e in
    Ok (true, e, ev1 ++ ev2 ++ ev3)
  else Ok (false, e, ev1).
End Segment.
End Receive.

(** ** class TcpPcb: what the application can do with its connection *)

Definition OpenWindow (e : TcpEntry) : TcpEntry := set_rcv_wnd kTcpWnd (set_close_window false e).
Definition CloseWindow (e : TcpEntry) : TcpEntry := set_close_window true e.
Definition BindCpu (index : Z) (e : TcpEntry) : TcpEntry := set_cpu index e.
Definition InstallHandler (e : TcpEntry) : TcpEntry := set_handler true e.
Definition SetWindowNotify (notify : bool) (e : TcpEntry) : TcpEntry := set_window_notify notify e.
Definition GetRemoteAddress (e : TcpEntry) : Ipv4Address := (key e).1.1.

Definition max_tcp_segment_size : Z := 65535 - 60 - 60.
Definition PcbSend (data : list Z) (e : TcpEntry) : outcome TcpEntry :=
  _ ← kassert (Z.of_nat (length data) <=? SendWindowRemaining e);
  _ ← kassert (Z.of_nat (length data) <=? max_tcp_segment_size);
  Ok (Send data e).

Definition PcbOutput (now : Z) (e : TcpEntry) : outcome (TcpEntry * list event) :=
  '(_, e, ev1) ← Output now e;
  let '(e, ev2) := SetTimer now e in
  Ok (e, ev1 ++ ev2).

(** The deleter of TcpPcb: the entry closes the connection and outlives it. *)
Definition PcbRelease (now : Z) (e : TcpEntry) : outcome (TcpEntry * list event) :=
  e ← Close e;
  PcbOutput now e.

(** ** Opening connections *)

(** A fresh entry; the fields that the constructor leaves uninitialised are
    parameters. *)
Definition new_TcpEntry (garbage : TcpEntry) : TcpEntry :=
  let e := set_unacked_segments [] (set_pending_segments [] (set_stashed_segments [] garbage)) in
  let e := set_close_window false (set_retransmit 0 (set_time_wait 0 e)) in
  set_handler false (set_accepted false (set_timer_set false e)).

(** A listening entry gets a SYN: the connection is set up in SYN-RECEIVED. *)
Definition accept_entry (garbage : TcpEntry) (mine : Z) (ih : Addrs) (th : TcpHeader) (info : TcpInfo)
    (start_seq : Z) : TcpEntry :=
  let e := set_cpu mine (new_TcpEntry garbage) in
  let e := set_address (ip_dst ih) e in
  let e := set_key (ip_src ih, src_port info, dst_port info) e in
  let e := set_state kSynReceived e in
  let e := set_snd_nxt start_seq e in
  let e := set_rcv_nxt (u32 (seqno info + 1)) e in
  let e := set_snd_una start_seq e in
  let e := set_snd_wnd (u32 (Z.shiftl (th_wnd th) kWindowShift)) e in
  let e := set_rcv_wnd kTcpWnd e in
  EnqueueSegment [] (Z.lor kTcpSyn kTcpAck) 8 e.

(** [TcpPcb::Connect], after the route and the port are found. *)
Definition connect_entry (itf_address remote : Ipv4Address) (port local_port iss : Z) (e : TcpEntry) : TcpEntry :=
  let e := set_address itf_address (set_accepted true e) in
  let e := set_key (remote, port, local_port) e in
  let e := set_snd_nxt iss (set_snd_una iss (set_state kSynSent e)) in
  let e := set_rcv_wnd kTcpWnd (set_rcv_nxt 0 (set_snd_wnd kTcpWnd e)) in
  EnqueueSegment [] kTcpSyn 8 e.
