(* ===== verification/TcpNet.v ===== *)
(** * TCP in the network manager

    Models the part of src/src/native/NetTcp.cc around the connections: binding of
    listening pcbs, opening of connections, the demultiplexing of received
    segments to connections and listeners, the acceptance of connections, resets,
    and the removal of connections.  The tables of pcbs and the pool of ports are
    the interfaces of PcbTable and PortPool. *)

From S2P Require Import Prelude.
From S2P Require Import Checksum NetIp PortPool PcbTable Tcp.

(** ** Segments on the wire *)

(** struct TcpHeader; the checksum is stored as it is computed. *)
Definition tcp_header (src_port dst_port seqno ackno hdrlen_flags wnd checksum urgp : Z) : list Z :=
  to_be16 src_port ++ to_be16 dst_port ++ to_be32 seqno ++ to_be32 ackno ++ to_be16 hdrlen_flags ++ to_be16 wnd ++
  to_le16 checksum ++ to_be16 urgp.

(** The header and the TcpInfo that ReceiveTcp makes of a packet. *)
Definition read_TcpHeader (h : list Z) : TcpHeader := mkTh (be16 12 h) (be16 14 h).
Definition read_TcpInfo (packet_len : Z) (h : list Z) : TcpInfo :=
  let th := read_TcpHeader h in
  mkInfo (be16 0 h) (be16 2 h) (be32 4 h) (be32 8 h)
    (packet_len - HdrLen (th_hdrlen_flags th) + (if has (Flags (th_hdrlen_flags th)) (Z.lor kTcpFin kTcpSyn) then 1 else 0)).

(** The packet of a reset, handed to SendIp. *)
Definition TcpReset (ack : bool) (seqno ackno : Z) (local_ip remote_ip : Ipv4Address) (local_port remote_port : Z)
    (at_ : Z) (room : list Z) : packet * PacketInfo :=
  let header checksum := tcp_header local_port remote_port seqno ackno
    (SetHdrLenFlags sizeofTcpHeader (Z.lor kTcpRst (if ack then kTcpAck else 0))) (TcpWindow16 kTcpWnd) checksum 0 in
  let checksum := OffloadPseudoCsum (pkt_chain [mkBuf at_ room (header 0) []]) kIpProtoTCP local_ip remote_ip in
  ([mkBuf at_ room (header checksum) []], mkPinfo kNeedsCsum 0 0 0 0 16).

(** The options of a SYN: the segment size, a NOP and the window scale. *)
Definition syn_options : list Z := to_be32 (Z.lor 0x02040000 (Z.land 1460 0xFFFF)) ++ [0x1; 0x3; 0x3; kWindowShift].

(** The packet of a segment that a connection sends, handed to SendIp: EnqueueSegment
    and SendSegment, or SendEmptyAck, fill its header. *)
Definition segment_packet (k : Ipv4Address * Z * Z) (local_ip : Ipv4Address) (seq ack flags wnd hdr_len : Z) (data : list Z)
    (at_ : Z) (room : list Z) : packet :=
  let '(remote_ip, remote_port, local_port) := k in
  let options := if hdr_len =? sizeofTcpHeader then [] else syn_options in
  let bytes checksum := tcp_header local_port remote_port seq ack (SetHdrLenFlags hdr_len flags) wnd checksum 0 ++ options ++ data in
  let checksum := OffloadPseudoCsum (pkt_chain [mkBuf at_ room (bytes 0) []]) kIpProtoTCP local_ip remote_ip in
  [mkBuf at_ room (bytes checksum) []].

(** ** State *)

Definition conn_key : Type := Ipv4Address * Z * Z.

(** The accept functions of the listening entries; what one does with the pcb of a
    new connection. *)
Class Listeners := { accept_fn : nat -> option (TcpEntry -> outcome (TcpEntry * list event)) }.

Section TcpNet.
Context `{App} `{Listeners} `{IntervalSet} `{TL : !Table Z} `{TC : !Table conn_key}.

Record TcpNet := mkNet {
  tcp_port_allocator_ : iset;
  listening_tcp_pcbs_ : @table Z _ TL;
  tcp_pcbs_ : @table conn_key _ TC;
  listen_port : gmap nat Z;          (* the port of every ListeningTcpEntry *)
  entries : gmap nat TcpEntry;       (* the TcpEntry objects *)
  next_entry : nat;
  to_delete : list nat;              (* entries given to DoRcu for deletion *)
  tcp_write_lock_ : bool
}.

Definition new_tcp : TcpNet := mkNet (pool_Create 49152 65535) (t_new 8) (t_new 8) ∅ ∅ 0 [] false.

Definition set_ports (p : iset) (s : TcpNet) : TcpNet :=
  mkNet p (listening_tcp_pcbs_ s) (tcp_pcbs_ s) (listen_port s) (entries s) (next_entry s) (to_delete s) (tcp_write_lock_ s).
Definition set_listening (t : @table Z _ TL) (l : gmap nat Z) (s : TcpNet) : TcpNet :=
  mkNet (tcp_port_allocator_ s) t (tcp_pcbs_ s) l (entries s) (next_entry s) (to_delete s) (tcp_write_lock_ s).
Definition set_pcbs (t : @table conn_key _ TC) (s : TcpNet) : TcpNet :=
  mkNet (tcp_port_allocator_ s) (listening_tcp_pcbs_ s) t (listen_port s) (entries s) (next_entry s) (to_delete s) (tcp_write_lock_ s).
Definition set_entry (id : nat) (e : TcpEntry) (s : TcpNet) : TcpNet :=
  mkNet (tcp_port_allocator_ s) (listening_tcp_pcbs_ s) (tcp_pcbs_ s) (listen_port s) (<[id := e]> (entries s)) (next_entry s)
    (to_delete s) (tcp_write_lock_ s).
Definition set_lock (b : bool) (s : TcpNet) : TcpNet :=
  mkNet (tcp_port_allocator_ s) (listening_tcp_pcbs_ s) (tcp_pcbs_ s) (listen_port s) (entries s) (next_entry s) (to_delete s) b.

(** [new TcpEntry()]. *)
Definition alloc_entry (e : TcpEntry) (s : TcpNet) : nat * TcpNet :=
  (next_entry s, mkNet (tcp_port_allocator_ s) (listening_tcp_pcbs_ s) (tcp_pcbs_ s) (listen_port s)
    (<[next_entry s := e]> (entries s)) (S (next_entry s)) (to_delete s) (tcp_write_lock_ s)).

(** [lock_guard] of tcp_write_lock_; other cores are not holding it. *)
Definition lock (s : TcpNet) : outcome TcpNet := if tcp_write_lock_ s then Fail Deadlock else Ok (set_lock true s).
Definition unlock (s : TcpNet) : TcpNet := set_lock false s.

(** ** Ports and listeners *)

(** The choice of the port in Bind and in Connect. *)
Definition take_port (port : Z) (s : TcpNet) : outcome (Z * TcpNet) :=
  if port =? 0 then
    match Allocate (tcp_port_allocator_ s) with
    | (Some ret, ports) => Ok (ret, set_ports ports s)
    | (None, _) => Fail (Thrown "Failed to allocate ephemeral port")
    end
  else if 49152 <=? port then
    match Reserve port (tcp_port_allocator_ s) with
    | (true, ports) => Ok (port, set_ports ports s)
    | (false, _) => Fail (Thrown "Failed to reserve specified port")
    end
  else Ok (port, s).

Definition new_ListeningTcpPcb (l : nat) (s : TcpNet) : TcpNet := set_listening (listening_tcp_pcbs_ s) (<[l := 0]> (listen_port s)) s.

Definition ListenBind (l : nat) (port : Z) (s : TcpNet) : outcome (Z * TcpNet) :=
  '(port, s) ← take_port port s;
  t ← t_insert (listening_tcp_pcbs_ s) l port;
  Ok (port, set_listening t (<[l := port]> (listen_port s)) s).

(** ListeningTcpEntryDeleter. *)
Definition ListenDelete (l : nat) (s : TcpNet) : outcome TcpNet :=
  port ← deref (listen_port s !! l);
  if port =? 0 then Ok (set_listening (listening_tcp_pcbs_ s) (delete l (listen_port s)) s) else
  let s := set_ports (Free port (tcp_port_allocator_ s)) s in
  t ← t_erase (listening_tcp_pcbs_ s) l;
  Ok (set_listening t (delete l (listen_port s)) s).

(** ** Connections *)

(** [Destroy]: the object is deleted after a grace period. *)
Definition Destroy (id : nat) (s : TcpNet) : outcome TcpNet :=
  s ← lock s;
  t ← t_erase (tcp_pcbs_ s) id;
  let s := unlock (set_pcbs t s) in
  Ok (mkNet (tcp_port_allocator_ s) (listening_tcp_pcbs_ s) (tcp_pcbs_ s) (listen_port s) (entries s) (next_entry s)
        (id :: to_delete s) (tcp_write_lock_ s)).

(** The function given to DoRcu by Destroy. *)
Definition delete_entry (id : nat) (s : TcpNet) : TcpNet :=
  mkNet (tcp_port_allocator_ s) (listening_tcp_pcbs_ s) (tcp_pcbs_ s) (listen_port s) (delete id (entries s)) (next_entry s)
    (filter (fun x => x <> id) (to_delete s)) (tcp_write_lock_ s).

(** An operation of a connection; when it reports that the connection has ended,
    it has called Destroy. *)
Definition on_entry (id : nat) (op : TcpEntry -> outcome (bool * TcpEntry * list event)) (s : TcpNet) : outcome (TcpNet * list event) :=
  e ← deref (entries s !! id);
  '(alive, e, evs) ← op e;
  let s := set_entry id e s in
  if alive : bool then Ok (s, evs) else s ← Destroy id s; Ok (s, evs).

Definition EntryInput (id : nat) (ih : Addrs) (th : TcpHeader) (info : TcpInfo) (buf : buffers) (now : Z) (s : TcpNet) :
    outcome (TcpNet * list event) :=
  on_entry id (Input ih th info buf now) s.
Definition EntryFire (id : nat) (now : Z) (s : TcpNet) : outcome (TcpNet * list event) := on_entry id (Fire now) s.

(** TcpPcb::Connect.  The route is an interface with its address. *)
Definition Connect (id : nat) (itf : option (option ItfAddress)) (addr : Ipv4Address) (port local_port iss now : Z) (s : TcpNet) :
    outcome (Z * TcpNet * list event) :=
  match itf with
  | None => Fail (Thrown "No route to remote address for Connect")
  | Some itf_addr =>
      '(local_port, s) ← take_port local_port s;
      a ← deref itf_addr;
      e ← deref (entries s !! id);
      let e := connect_entry (itf_address a) addr port local_port iss e in
      s ← lock s;
      found ← t_find (tcp_pcbs_ s) (key e);
      match found with
      | Some _ => Fail (Thrown "Connection already created")
      | None =>
          t ← t_insert (tcp_pcbs_ s) id (key e);
          let s := unlock (set_pcbs t s) in
          '(e, evs) ← PcbOutput now e;
          Ok (local_port, set_entry id e s, evs)
      end
  end.

(** ** Receiving *)

(** Work that is spawned on the core of the connection. *)
Inductive remote_task :=
| RemoteInput (core : Z) (id : nat) (ih : Addrs) (th : TcpHeader) (info : TcpInfo) (buf : buffers)
| RemoteReady (core : Z) (id : nat).

(** The end of ListeningTcpEntry::Input, on the core of the connection. *)
Definition EntryReady (id : nat) (now : Z) (s : TcpNet) : outcome (TcpNet * list event) :=
  e ← deref (entries s !! id);
  '(e, evs) ← PcbOutput now (set_accepted true e);
  Ok (set_entry id e s, evs).

(** ListeningTcpEntry::Input on core [mine]; the initial sequence number is random. *)
Definition ListenInput (mine now start_seq : Z) (garbage : TcpEntry) (l : nat) (ih : Addrs) (th : TcpHeader) (info : TcpInfo)
    (buf : buffers) (s : TcpNet) : outcome (TcpNet * list event * list remote_task) :=
  let flags := Flags (th_hdrlen_flags th) in
  if has flags kTcpRst then Ok (s, [], [])
  else if has flags kTcpAck then Ok (s, [reset ih info false (ackno info) 0], [])
  else if flags =? kTcpSyn then
    let e := accept_entry garbage mine ih th info start_seq in
    s ← lock s;
    found ← t_find (tcp_pcbs_ s) (key e);
    match found with
    | Some f => '(s, evs) ← EntryInput f ih th info buf now s; Ok (unlock s, evs, [])
    | None =>
        let '(id, s) := alloc_entry e s in
        t ← t_insert (tcp_pcbs_ s) id (key e);
        let s := unlock (set_pcbs t s) in
        accept ← deref (accept_fn l);
        '(e, ev1) ← accept e;
        let s := set_entry id e s in
        if 1 <? tcplen info then Fail Aborted else
        if cpu e =? mine then '(s, ev2) ← EntryReady id now s; Ok (s, ev1 ++ ev2, [])
        else Ok (s, ev1, [RemoteReady (cpu e) id])
    end
  else Ok (s, [], []).

(** ReceiveTcp on core [mine], when the header has been read. *)
Definition TcpDispatch (mine now start_seq : Z) (garbage : TcpEntry) (ih : Addrs) (th : TcpHeader) (info : TcpInfo) (buf : buffers)
    (s : TcpNet) : outcome (TcpNet * list event * list remote_task) :=
  entry ← t_find (tcp_pcbs_ s) (ip_src ih, src_port info, dst_port info);
  match entry with
  | Some id =>
      e ← deref (entries s !! id);
      _ ← kassert (accepted e);
      if cpu e =? mine then '(s, evs) ← EntryInput id ih th info buf now s; Ok (s, evs, [])
      else Ok (s, [], [RemoteInput (cpu e) id ih th info buf])
  | None =>
      listener ← t_find (listening_tcp_pcbs_ s) (dst_port info);
      match listener with
      | Some l => ListenInput mine now start_seq garbage l ih th info buf s
      | None =>
          let flags := Flags (th_hdrlen_flags th) in
          if has flags kTcpRst then Ok (s, [], []) else
          let ack := has flags kTcpAck in
          Ok (s, [reset ih info (negb ack) (if ack then ackno info else 0) (u32 (seqno info + tcplen info))], [])
      end
  end.

(** Interface::ReceiveTcp. *)
Definition ReceiveTcp (mine now start_seq : Z) (garbage : TcpEntry) (addr : option ItfAddress) (ip_header : list Z) (buf : packet)
    (s : TcpNet) : outcome (TcpNet * list event * list remote_task) :=
  let packet_len := pkt_len buf in
  if packet_len <? sizeofTcpHeader then Ok (s, [], []) else
  h ← pkt_Get 20 buf;
  a ← deref addr;
  let ih := mkAddrs (ip_src_of ip_header) (ip_dst_of ip_header) in
  if itf_isBroadcast a (ip_dst ih) || isMulticast (ip_dst ih) then Ok (s, [], []) else
  let th := read_TcpHeader h in
  let hdr_len := HdrLen (th_hdrlen_flags th) in
  if (hdr_len <? sizeofTcpHeader) || (packet_len <? hdr_len) then Ok (s, [], []) else
  TcpDispatch mine now start_seq garbage ih th (read_TcpInfo packet_len h) (b_data <$> buf) s.
End TcpNet.
