(* ===== verification/TcpSeq.v ===== *)
(** * TCP sequence numbers and header words

    The comparisons of NetTcp.cc on 32-bit sequence numbers agree with the
    order of the unwrapped positions, when these are less than 2^31 apart; and
    the header word of NetTcp.h keeps length and flags apart. *)

From S2P Require Import Prelude.
From S2P Require Import Tcp.

Lemma u32_mod z : u32 z = z mod 2 ^ 32.
Proof. done. Qed.

Lemma u32_range z : 0 <= u32 z < 2 ^ 32.
Proof. apply Z.mod_pos_bound. lia. Qed.

Lemma u32_u32 z : u32 (u32 z) = u32 z.
Proof. apply u32_small, u32_range. Qed.

Lemma u32_add_l a b : u32 (u32 a + b) = u32 (a + b).
Proof. unfold u32, wrap. apply Zplus_mod_idemp_l. Qed.
Lemma u32_add_r a b : u32 (a + u32 b) = u32 (a + b).
Proof. unfold u32, wrap. apply Zplus_mod_idemp_r. Qed.
Lemma u32_sub_l a b : u32 (u32 a - b) = u32 (a - b).
Proof. unfold u32, wrap. apply Zminus_mod_idemp_l. Qed.
Lemma u32_sub_r a b : u32 (a - u32 b) = u32 (a - b).
Proof. unfold u32, wrap. apply Zminus_mod_idemp_r. Qed.

(** Push a wrap-around through sums and differences. *)
Ltac u32_norm := rewrite ?u32_add_l, ?u32_add_r, ?u32_sub_l, ?u32_sub_r, ?u32_u32.

Lemma s32_small z : - 2 ^ 31 <= z < 2 ^ 31 -> s32 z = z.
Proof.
  intros Hz. unfold s32. destruct (decide (0 <= z)).
  - rewrite u32_small by lia. destruct (Z.ltb_spec z (2 ^ 31)); lia.
  - assert (u32 z = z + 2 ^ 32) as ->.
    { unfold u32, wrap. rewrite <- (Z_mod_plus_full z 1), Z.mod_small; lia. }
    destruct (Z.ltb_spec (z + 2 ^ 32) (2 ^ 31)); lia.
Qed.

Lemma s32_u32 z : s32 (u32 z) = s32 z.
Proof. unfold s32. by rewrite u32_u32. Qed.

Lemma s32_sub a b : s32 (u32 a - u32 b) = s32 (a - b).
Proof. rewrite <- s32_u32, u32_sub_l, u32_sub_r. apply s32_u32. Qed.

Section Near.
Context (a b : Z).
Hypothesis (Hab : - 2 ^ 31 <= a - b < 2 ^ 31).

Lemma TcpSeqLT_spec : TcpSeqLT (u32 a) (u32 b) = (a <? b).
Proof. unfold TcpSeqLT. rewrite s32_sub, s32_small by lia. destruct (Z.ltb_spec a b), (Z.ltb_spec (a - b) 0); lia. Qed.
Lemma TcpSeqGT_spec : TcpSeqGT (u32 a) (u32 b) = (b <? a).
Proof. unfold TcpSeqGT. rewrite s32_sub, s32_small by lia. destruct (Z.ltb_spec b a), (Z.ltb_spec 0 (a - b)); lia. Qed.
Lemma TcpSeqLEQ_spec : TcpSeqLEQ (u32 a) (u32 b) = (a <=? b).
Proof. unfold TcpSeqLEQ. rewrite s32_sub, s32_small by lia. destruct (Z.leb_spec a b), (Z.leb_spec (a - b) 0); lia. Qed.
Lemma TcpSeqGEQ_spec : TcpSeqGEQ (u32 a) (u32 b) = (b <=? a).
Proof. unfold TcpSeqGEQ. rewrite s32_sub, s32_small by lia. destruct (Z.leb_spec b a), (Z.leb_spec 0 (a - b)); lia. Qed.
End Near.

(** The interval test, for positions within one turn of [left]. *)
Lemma TcpSeqBetween_spec x l r : l <= x < l + 2 ^ 32 -> l <= r < l + 2 ^ 32 ->
  TcpSeqBetween (u32 x) (u32 l) (u32 r) = (x <=? r).
Proof.
  intros. unfold TcpSeqBetween. u32_norm. rewrite !u32_small by lia.
  destruct (Z.leb_spec (x - l) (r - l)), (Z.leb_spec x r); lia.
Qed.

(** On positions less than 2^31 apart, the 32-bit comparisons of sequence
    numbers are the comparisons of the positions, across the wrap-around. *)
Theorem TcpSeq_order a b : - 2 ^ 31 <= a - b < 2 ^ 31 ->
  TcpSeqLT (u32 a) (u32 b) = (a <? b) /\ TcpSeqGT (u32 a) (u32 b) = (b <? a) /\
  TcpSeqLEQ (u32 a) (u32 b) = (a <=? b) /\ TcpSeqGEQ (u32 a) (u32 b) = (b <=? a).
Proof.
  intros. by rewrite TcpSeqLT_spec, TcpSeqGT_spec, TcpSeqLEQ_spec, TcpSeqGEQ_spec.
Qed.

Lemma TcpSeq_order_witness : TcpSeqLT (u32 (2 ^ 32 - 5)) (u32 (2 ^ 32 + 7)) = true.
Proof.
  destruct (TcpSeq_order (2 ^ 32 - 5) (2 ^ 32 + 7)) as (-> & _); [lia | done].
Defined.

(** ** The header word *)

Lemma land_high_low a b k : 0 <= k -> 0 <= b < 2 ^ k -> Z.land (a * 2 ^ k + b) (Z.ones k) = b.
Proof. intros. rewrite Z.land_ones, Z.add_comm, Z_mod_plus_full, Z.mod_small by lia. done. Qed.

Lemma SetHdrLenFlags_val h f : 0 <= h < 16 -> 0 <= f < 2 ^ 12 -> SetHdrLenFlags (h * 4) f = h * 2 ^ 12 + f.
Proof.
  intros. unfold SetHdrLenFlags. rewrite Z.div_mul, Z.lor_comm, lor_shiftl by lia.
  rewrite u16_small; lia.
Qed.

Lemma HdrLen_set h f : 0 <= h < 16 -> 0 <= f < 64 -> HdrLen (SetHdrLenFlags (h * 4) f) = h * 4.
Proof.
  intros. rewrite SetHdrLenFlags_val by lia. unfold HdrLen.
  rewrite Z.shiftr_div_pow2, Z.div_add_l, Z.div_small by lia. lia.
Qed.

Lemma Flags_set h f : 0 <= h < 16 -> 0 <= f < 64 -> Flags (SetHdrLenFlags (h * 4) f) = f.
Proof.
  intros. rewrite SetHdrLenFlags_val by lia. unfold Flags, kTcpFlagMask. change 0x3f with (Z.ones 6).
  replace (h * 2 ^ 12 + f) with ((h * 2 ^ 6) * 2 ^ 6 + f) by lia. apply land_high_low; lia.
Qed.

Lemma SetFlags_val h f g : 0 <= h < 16 -> 0 <= f < 2 ^ 12 -> 0 <= g < 2 ^ 12 ->
  SetFlags (h * 2 ^ 12 + f) g = h * 2 ^ 12 + g.
Proof.
  intros. unfold SetFlags. change 0xFFF with (Z.ones 12). rewrite Z.land_ones, (Z.mod_small g) by lia.
  assert (Z.land (h * 2 ^ 12 + f) (u16 (Z.lnot (Z.ones 12))) = Z.shiftl h 12) as ->.
  { change (u16 (Z.lnot (Z.ones 12))) with (Z.land (Z.ones 16) (Z.lnot (Z.ones 12))).
    rewrite Z.land_assoc, Z.land_ones, Z.mod_small, <- Z.ldiff_land, Z.ldiff_ones_r by lia.
    by rewrite Z.shiftr_div_pow2, Z.div_add_l, Z.div_small, Z.add_0_r by lia. }
  rewrite Z.lor_comm, lor_shiftl by lia. lia.
Qed.

Lemma Flags_val h f : 0 <= f < 64 -> Flags (h * 2 ^ 12 + f) = f.
Proof.
  intros. unfold Flags, kTcpFlagMask. change 0x3f with (Z.ones 6).
  replace (h * 2 ^ 12 + f) with ((h * 2 ^ 6) * 2 ^ 6 + f) by lia. apply land_high_low; lia.
Qed.

Lemma HdrLen_val h f : 0 <= f < 64 -> HdrLen (h * 2 ^ 12 + f) = h * 4.
Proof. intros. unfold HdrLen. rewrite Z.shiftr_div_pow2, Z.div_add_l, Z.div_small by lia. lia. Qed.

Lemma lor_lt64 a b : 0 <= a < 64 -> 0 <= b < 64 -> 0 <= Z.lor a b < 64.
Proof.
  intros. split; [apply Z.lor_nonneg; lia |].
  destruct (decide (Z.lor a b = 0)) as [->|]; [lia |].
  change 64 with (2 ^ 6). apply Z.log2_lt_pow2; [pose proof (proj2 (Z.lor_nonneg a b)); lia |].
  rewrite Z.log2_lor by lia. apply Z.max_lub_lt.
  - destruct (decide (a = 0)) as [->|]; [done |]. apply Z.log2_lt_pow2; lia.
  - destruct (decide (b = 0)) as [->|]; [done |]. apply Z.log2_lt_pow2; lia.
Qed.
