(* ===== verification/TcpSend.v ===== *)
(** * The sending side of a TCP connection

    The retransmission queue (unacknowledged, then pending segments) always
    covers the sequence space between SND.UNA and SND.NXT, in order and without
    gaps: no byte the application sent is lost before it is acknowledged.
    Positions are unwrapped sequence numbers. *)

From S2P Require Import Prelude.
From S2P Require Import Tcp TcpSeq.

(** ** The queue *)

Definition queue (e : TcpEntry) : list TcpSegment := unacked_segments e ++ pending_segments e.
Definition qlen (q : list TcpSegment) : Z := foldr (fun g n => tcp_len g + n) 0 q.

(** A queued segment: its length counts the data, and SYN or FIN as one. *)
Definition seg_ok (g : TcpSegment) : Prop := exists h f,
  seg_hdrlen_flags g = h * 2 ^ 12 + f /\ 0 <= h < 16 /\ 0 <= f < 64 /\
  Z.of_nat (length (seg_data g)) <= max_tcp_segment_size /\
  tcp_len g = Z.of_nat (length (seg_data g)) + (if has f (Z.lor kTcpSyn kTcpFin) then 1 else 0).

Lemma seg_ok_range g : seg_ok g -> 0 <= tcp_len g < 2 ^ 16.
Proof. intros (h & f & _ & _ & _ & Hd & ->). unfold max_tcp_segment_size in Hd. destruct (has _ _); lia. Qed.

(** Segments one after the other from position [s]. *)
Fixpoint chained (s : Z) (q : list TcpSegment) : Prop :=
  match q with
  | [] => True
  | g :: q => seg_seqno g = u32 s /\ seg_ok g /\ chained (s + tcp_len g) q
  end.

Lemma qlen_app q1 q2 : qlen (q1 ++ q2) = qlen q1 + qlen q2.
Proof. unfold qlen. induction q1; cbn in *; lia. Qed.

Lemma chained_app s q1 q2 : chained s (q1 ++ q2) <-> chained s q1 /\ chained (s + qlen q1) q2.
Proof.
  revert s. induction q1 as [|g q1 IH]; intros s; cbn [app chained qlen foldr].
  - rewrite Z.add_0_r. tauto.
  - fold (qlen q1). rewrite IH, Z.add_assoc. tauto.
Qed.

Lemma qlen_nonneg s q : chained s q -> 0 <= qlen q.
Proof.
  revert s. induction q as [|g q IH]; intros s; cbn; [lia |]. intros (_ & Hg%seg_ok_range & Hq).
  specialize (IH _ Hq). unfold qlen in IH. lia.
Qed.

(** A position inside the queue lies in one of its segments. *)
Lemma chained_cover s q x : chained s q -> s <= x < s + qlen q -> qlen q < 2 ^ 32 ->
  exists g, g ∈ q /\ u32 (u32 x - seg_seqno g) < tcp_len g.
Proof.
  revert s. induction q as [|g q IH]; intros s; cbn [chained qlen foldr]; [lia |]. fold (qlen q).
  intros (Hg & Hl%seg_ok_range & Hq) Hx Hb. pose proof (qlen_nonneg _ _ Hq).
  destruct (decide (x < s + tcp_len g)).
  - exists g. split; [by left |]. rewrite Hg. u32_norm. rewrite u32_small; lia.
  - destruct (IH (s + tcp_len g) Hq) as (k & Hk & ?); [lia | lia |]. exists k. split; [by right | done].
Qed.

(** ** Clearing acknowledged segments *)

Lemma clear_spec s q a : chained s q -> s <= a <= s + qlen q -> qlen q < 2 ^ 31 ->
  exists q1 q2, q = q1 ++ q2 /\ clear_acked_segments (u32 a) q = q2 /\ chained (s + qlen q1) q2 /\
    s + qlen q1 <= a /\ match q2 with [] => a = s + qlen q | g :: _ => a < s + qlen q1 + tcp_len g end.
Proof.
  revert s. induction q as [|g q IH]; intros s Hc Ha Hb.
  { exists [], []. cbn in *. split_and!; try done; lia. }
  cbn [chained qlen foldr clear_acked_segments] in *. fold (qlen q) in *. pose proof Hc as Hc0. destruct Hc as (Hg & Hl%seg_ok_range & Hq).
  pose proof (qlen_nonneg _ _ Hq). unfold SeqLen.
  rewrite Hg, u32_add_l, TcpSeqGT_spec by lia.
  destruct (Z.ltb_spec a (s + tcp_len g)).
  - exists [], (g :: q). cbn [app qlen foldr]. rewrite Z.add_0_r. split_and!; try done; lia.
  - destruct (IH (s + tcp_len g) Hq) as (q1 & q2 & -> & -> & Hc2 & Hle & Hm); [lia | lia |].
    exists (g :: q1), q2. cbn [app qlen foldr]. fold (qlen q1). rewrite !Z.add_assoc.
    split_and!; try done; try lia.
Qed.

Lemma clear_all s q a : chained s q -> s + qlen q <= a -> a - s < 2 ^ 31 -> clear_acked_segments (u32 a) q = [].
Proof.
  revert s. induction q as [|g q IH]; intros s; [done |].
  cbn [chained qlen foldr clear_acked_segments]. fold (qlen q).
  intros (Hg & Hl%seg_ok_range & Hq) Ha Hb. pose proof (qlen_nonneg _ _ Hq). unfold SeqLen.
  rewrite Hg, u32_add_l, TcpSeqGT_spec by lia. rewrite (proj2 (Z.ltb_ge _ _)) by lia.
  apply (IH (s + tcp_len g)); [done | lia | lia].
Qed.

(** Segments that start beyond the acknowledgement stay. *)
Lemma clear_beyond s q a : chained s q -> a < s -> s - a + qlen q < 2 ^ 31 ->
  clear_acked_segments (u32 a) q = q.
Proof.
  destruct q as [|g q]; [done |]. cbn [chained qlen foldr clear_acked_segments]. fold (qlen q).
  intros (Hg & Hl%seg_ok_range & Hq) Ha Hb. pose proof (qlen_nonneg _ _ Hq). unfold SeqLen.
  rewrite Hg, u32_add_l, TcpSeqGT_spec by lia. by rewrite (proj2 (Z.ltb_lt _ _)) by lia.
Qed.

(** Clearing the two queues is clearing their concatenation. *)
Lemma clear_queues s u p a : chained s (u ++ p) -> s <= a <= s + qlen (u ++ p) -> qlen (u ++ p) < 2 ^ 31 ->
  exists q1 q2, u ++ p = q1 ++ q2 /\
    clear_acked_segments (u32 a) u ++ clear_acked_segments (u32 a) p = q2 /\
    chained (s + qlen q1) q2 /\ s + qlen q1 <= a /\
    match q2 with [] => a = s + qlen (u ++ p) | g :: _ => a < s + qlen q1 + tcp_len g end.
Proof.
  intros Hc Ha Hb. pose proof Hc as Hc'. apply chained_app in Hc' as [Hu Hp].
  rewrite qlen_app in *. pose proof (qlen_nonneg _ _ Hu). pose proof (qlen_nonneg _ _ Hp).
  destruct (decide (s + qlen u <= a)) as [Hau|Hau].
  - rewrite (clear_all s u a) by (done || lia). cbn [app].
    destruct (clear_spec (s + qlen u) p a Hp) as (p1 & p2 & -> & -> & Hcp & Hlp & Hmp); [lia | lia |].
    exists (u ++ p1), p2. rewrite <- app_assoc, (qlen_app u p1), Z.add_assoc. split_and!; try done.
    destruct p2; rewrite ?qlen_app in *; lia.
  - destruct (clear_spec s u a Hu) as (q1 & q2 & Eu & -> & Hc2 & Hle & Hm); [lia | lia |].
    destruct q2 as [|g q2]; [lia |].
    exists q1, ((g :: q2) ++ p). rewrite Eu, <- app_assoc. split_and!; [done | | | done | done].
    + f_equal. apply (clear_beyond (s + qlen u)); [done | lia | lia].
    + apply chained_app. split; [done |]. rewrite Eu, qlen_app, Z.add_assoc in Hp. exact Hp.
Qed.

(** ** The invariant *)

Definition fin_sent (s : State) : bool :=
  match s with kFinWait1 | kFinWait2 | kClosing | kLastAck | kTimeWait => true | _ => false end.
Definition max_wnd : Z := 2 ^ 23.
Definition flight_bound (e : TcpEntry) : Z := max_wnd + (if fin_sent (state e) then 1 else 0).

(** What the invariant reads. *)
Definition snd_view (e : TcpEntry) : list TcpSegment * Z * Z * Z * bool :=
  (queue e, snd_una e, snd_nxt e, snd_wnd e, fin_sent (state e)).

Definition SInv (e : TcpEntry) : Prop := exists s una nxt,
  snd_una e = u32 una /\ snd_nxt e = u32 nxt /\ chained s (queue e) /\ nxt = s + qlen (queue e) /\
  s <= una /\ match queue e with [] => una = nxt | g :: _ => una <= s + tcp_len g end /\
  nxt - una <= flight_bound e /\ 0 <= snd_wnd e < max_wnd.

Lemma SInv_ext e e' : snd_view e = snd_view e' -> SInv e -> SInv e'.
Proof. unfold snd_view, SInv, flight_bound. intros [= -> -> -> -> ->]. done. Qed.

Lemma flight_bound_le e : max_wnd <= flight_bound e <= max_wnd + 1.
Proof. unfold flight_bound. destruct (fin_sent _); lia. Qed.

(** The positions of a state with the invariant. *)
Lemma SInv_pos e : SInv e -> exists s una nxt,
  snd_una e = u32 una /\ snd_nxt e = u32 nxt /\ chained s (queue e) /\ nxt = s + qlen (queue e) /\
  s <= una <= nxt /\ match queue e with [] => una = nxt | g :: _ => una <= s + tcp_len g end /\
  nxt - s < 2 ^ 24 /\ u32 (snd_nxt e - snd_una e) = nxt - una /\ nxt - una <= flight_bound e.
Proof.
  intros (s & una & nxt & Hu & Hn & Hc & Hl & Hs & Hh & Hb & Hw). exists s, una, nxt.
  pose proof (flight_bound_le e). unfold max_wnd in *.
  assert (s <= una <= nxt /\ nxt - s < 2 ^ 24) as [? ?].
  { destruct (queue e) as [|g q]; cbn [chained qlen foldr] in *; [lia |]. fold (qlen q) in *.
    destruct Hc as (_ & ?%seg_ok_range & Hq). pose proof (qlen_nonneg _ _ Hq). lia. }
  split_and!; try done; try lia. rewrite Hn, Hu. u32_norm. apply u32_small. lia.
Qed.

Lemma SInv_cover e x : SInv e -> 0 <= x < 2 ^ 32 -> u32 (x - snd_una e) < u32 (snd_nxt e - snd_una e) ->
  exists g, g ∈ unacked_segments e ++ pending_segments e /\ u32 (x - seg_seqno g) < tcp_len g.
Proof.
  intros I Hx Hlt. destruct (SInv_pos e I) as (s & una & nxt & Hu & Hn & Hc & Hl & Hs & _ & Hb & Hf & _).
  rewrite Hf in Hlt. pose proof (u32_range (x - snd_una e)).
  assert (x = u32 (una + u32 (x - snd_una e))) as Ex.
  { rewrite Hu, u32_sub_r, u32_add_r. replace (una + (x - una)) with x by lia. by rewrite u32_small. }
  destruct (chained_cover s (queue e) (una + u32 (x - snd_una e)) Hc) as (g & Hg & Hgx); [lia | lia |].
  exists g. split; [exact Hg |]. by rewrite <- Ex in Hgx.
Qed.

(** ** Operations that leave the sending side alone *)

Lemma SendEmptyAck_view e : snd_view (SendEmptyAck e).1 = snd_view e.
Proof. done. Qed.
Lemma SetTimer_view now e : snd_view (SetTimer now e).1 = snd_view e.
Proof. unfold SetTimer. by repeat case_match. Qed.
Lemma DisableTimers_view e : snd_view (DisableTimers e).1 = snd_view e.
Proof. done. Qed.

(** What [Output] may send: segments that end inside the offered window. *)
Definition fits_window (e : TcpEntry) (g : TcpSegment) : Prop :=
  TcpSeqLEQ (u32 (seg_seqno g + tcp_len g)) (u32 (snd_nxt e + SendWindowRemaining e)) = true.

Lemma output_loop_spec p : forall e sent left_ e' evs, output_loop p e = (sent, left_, e', evs) ->
  p = sent ++ left_ /\ (exists v, e' = set_rcv_last_acked v e) /\ Forall (fits_window e) sent /\
  (sent = [] -> e' = e) /\
  match left_ with [] => True | g :: _ => ~ fits_window e g end.
Proof.
  induction p as [|g p IH]; intros e sent left_ e' evs; cbn [output_loop].
  { intros [= <- <- <- <-]. split_and!; try done. exists (rcv_last_acked e). by destruct e. }
  destruct (TcpSeqLEQ _ _) eqn:E.
  - cbn [SendSegment]. destruct (output_loop p _) as [[[sent' left'] e1] evs'] eqn:Eo.
    intros [= <- <- <- <-]. destruct (IH _ _ _ _ _ Eo) as (-> & (v & ->) & Hf & _ & Hl).
    split_and!; [done | by exists v | by apply Forall_cons_2 | done | done].
  - intros [= <- <- <- <-]. split_and!; try done; [exists (rcv_last_acked e); by destruct e |].
    unfold fits_window. congruence.
Qed.

Lemma Output_view now e n e' evs : Output now e = Ok (n, e', evs) -> snd_view e' = snd_view e.
Proof.
  unfold Output. destruct (output_loop (pending_segments e) e) as [[[sent left_] e1] evs1] eqn:Eo.
  destruct (output_loop_spec _ _ _ _ _ _ Eo) as (Ep & (v & ->) & _). destruct sent as [|g sent].
  - intros Hr. apply bind_ok in Hr as ([e2 ev2] & Hr & [= <- <- <-]).
    apply bind_ok in Hr as (u & _ & Hr). destruct (TcpSeqLT _ _); injection Hr as <- <-; done.
  - cbn [mbind outcome_bind]. intros [= <- <- <-]. unfold snd_view, queue. cbn.
    by rewrite Ep, <- app_assoc.
Qed.

(** ** Operations of the sending side *)

Lemma has_lor f m k : has (Z.lor f m) k = has f k || has m k.
Proof.
  unfold has. rewrite Z.land_lor_distr_l. rewrite <- negb_andb. f_equal.
  destruct (Z.eqb_spec (Z.lor (Z.land f k) (Z.land m k)) 0) as [E|E].
  - apply Z.lor_eq_0_iff in E as [-> ->]. done.
  - symmetry. apply not_true_iff_false. rewrite andb_true_iff, !Z.eqb_eq. intros [E1 E2].
    apply E. by rewrite E1, E2.
Qed.

Lemma has_lor_r f m k : has f (Z.lor m k) = has f m || has f k.
Proof. unfold has. rewrite Z.land_comm. fold (has (Z.lor m k) f). rewrite has_lor. unfold has. by rewrite !(Z.land_comm f). Qed.

Lemma I_wnd e : SInv e -> 0 <= snd_wnd e < max_wnd.
Proof. by intros (_ & _ & _ & _ & _ & _ & _ & _ & _ & _ & ?). Qed.

(** Appending one more segment. *)
Lemma snoc_SInv g e e' : SInv e -> seg_ok g -> seg_seqno g = snd_nxt e ->
  u32 (snd_nxt e - snd_una e) + tcp_len g <= flight_bound e ->
  queue e' = queue e ++ [g] -> snd_una e' = snd_una e -> snd_nxt e' = u32 (snd_nxt e + tcp_len g) ->
  snd_wnd e' = snd_wnd e -> flight_bound e <= flight_bound e' -> SInv e'.
Proof.
  intros I Hg Hsq Hb Eq Eu En Ew Hfb0.
  destruct (SInv_pos e I) as (s & una & nxt & Hu & Hn & Hc & Hl & Hs & Hh & Hd & Hf & Hfb).
  destruct I as (_ & _ & _ & _ & _ & _ & _ & _ & _ & _ & Hw). pose proof (seg_ok_range g Hg).
  exists s, una, (nxt + tcp_len g). rewrite Eq, Eu, En, Ew, qlen_app. change (qlen [g]) with (tcp_len g + 0).
  split_and!; [done | by rewrite Hn, u32_add_l | | lia | lia | | lia | lia | lia].
  - apply chained_app. split; [done |]. cbn. split_and!; [by rewrite Hsq, Hn, Hl | done | done].
  - destruct (queue e) as [|k q]; cbn in *; [lia | done].
Qed.

Lemma Enqueue_SInv data flags optlen e :
  SInv e -> (optlen = 0 \/ optlen = 8) -> 0 <= flags < 64 ->
  Z.of_nat (length data) <= max_tcp_segment_size ->
  u32 (snd_nxt e - snd_una e) + (Z.of_nat (length data) + (if has flags (Z.lor kTcpSyn kTcpFin) then 1 else 0))
    <= flight_bound e ->
  SInv (EnqueueSegment data flags optlen e).
Proof.
  intros I Ho Hfl Hd Hb. set (len := Z.of_nat (length data) + _) in *.
  assert (0 <= len < 2 ^ 16) as Hlen.
  { unfold len, max_tcp_segment_size in *. destruct (has _ _); lia. }
  unfold EnqueueSegment.
  replace (sizeofTcpHeader + optlen + Z.of_nat (length data) - sizeofTcpHeader - optlen +
           (if has flags (Z.lor kTcpSyn kTcpFin) then 1 else 0)) with len by (unfold len; lia).
  rewrite u16_small by lia. set (g := mkSeg (snd_nxt e) _ data len).
  apply (snoc_SInv g e); [done | | done | done | | done | done | done | apply Z.le_refl].
  - exists ((sizeofTcpHeader + optlen) / 4), flags. unfold sizeofTcpHeader in *.
    assert (0 <= (20 + optlen) / 4 < 16) by (by destruct Ho as [->| ->]).
    split_and!; [| lia.. | done | done].
    destruct Ho as [->| ->]; [apply (SetHdrLenFlags_val 5) | apply (SetHdrLenFlags_val 7)]; lia.
  - unfold queue. cbn. by rewrite app_assoc.
Qed.

Lemma PcbSend_SInv data e e' : SInv e -> u32 (snd_nxt e - snd_una e) <= snd_wnd e ->
  PcbSend data e = Ok e' -> SInv e'.
Proof.
  intros I Hw Hs. pose proof I as (_ & _ & _ & _ & _ & _ & _ & _ & _ & _ & Hwr).
  unfold PcbSend in Hs. run_ok. bool_to_prop. unfold SendWindowRemaining in *.
  pose proof (u32_range (snd_nxt e - snd_una e)). unfold max_wnd in Hwr.
  rewrite u32_small in * by lia. pose proof (flight_bound_le e). unfold max_wnd in *.
  apply Enqueue_SInv; [done | by left | done | lia |]. change (has kTcpAck _) with false. lia.
Qed.

Lemma chained_snoc s q g : chained s (q ++ [g]) <-> chained s q /\ seg_seqno g = u32 (s + qlen q) /\ seg_ok g.
Proof. rewrite chained_app. cbn. tauto. Qed.

Lemma SendFin_SInv e st : SInv e -> fin_sent (state e) = false -> fin_sent st = true ->
  SInv (set_state st (SendFin e)).
Proof.
  intros I Hst Hst'. pose proof (SInv_pos e I) as (s & una & nxt & Hu & Hn & Hc & Hl & Hs & Hh & Hd & Hf & Hfb).
  unfold flight_bound in Hfb. rewrite Hst in Hfb.
  assert (u32 (snd_nxt e - snd_una e) + 1 <= max_wnd + 1) as Hb1 by lia.
  assert (SInv (set_state st (EnqueueSegment [] (Z.lor kTcpFin kTcpAck) 0 e))) as Hplain.
  { change (set_state st (EnqueueSegment [] (Z.lor kTcpFin kTcpAck) 0 e))
      with (EnqueueSegment [] (Z.lor kTcpFin kTcpAck) 0 (set_state st e)).
    apply Enqueue_SInv; [| by left | done | done |].
    - destruct I as (a & b & c & H1 & H2 & H3 & H4 & H5 & H6 & H7 & H8). exists a, b, c.
      split_and!; try done; [| apply H8 ..]. unfold flight_bound in *. rewrite Hst in H7. cbn. rewrite Hst'. lia.
    - unfold flight_bound. cbn [state set_state]. rewrite Hst'. exact Hb1. }
  unfold SendFin. destruct (last (pending_segments e)) as [seg|] eqn:El; [| done].
  destruct (negb _) eqn:Ef; [| done]. apply last_Some in El as [p Ep]. rewrite Ep, removelast_last.
  assert (queue e = (unacked_segments e ++ p) ++ [seg]) as Eq by (unfold queue; rewrite Ep; apply app_assoc).
  set (q := unacked_segments e ++ p) in *. rewrite Eq in Hc, Hl, Hh.
  apply chained_snoc in Hc as (Hcq & Hseq & (h & f & Ehf & Hh16 & Hf64 & Hdat & Elen)).
  rewrite Ehf, Flags_val in Ef |- * by done. apply negb_true_iff in Ef.
  assert (has f (Z.lor kTcpSyn kTcpFin) = false) as Ef'.
  { rewrite has_lor_r. rewrite has_lor_r, (has_lor_r f kTcpFin) in Ef. by apply orb_false_iff in Ef as [-> [-> _]%orb_false_iff]. }
  rewrite Ef', Z.add_0_r in Elen. pose proof (lor_lt64 f kTcpFin Hf64 ltac:(done)) as Hf'.
  rewrite SetFlags_val by lia. unfold max_tcp_segment_size in Hdat.
  rewrite (u16_small (tcp_len seg + 1)) by lia.
  set (g := mkSeg _ _ _ _).
  assert (seg_ok g) as Hg.
  { exists h, (Z.lor f kTcpFin). split_and!; try done; try lia.
    cbn [g tcp_len seg_data]. rewrite has_lor, orb_comm. change (has kTcpFin _) with true. cbn [orb]. lia. }
  exists s, una, (nxt + 1).
  assert (queue (set_state st (set_snd_nxt (u32 (snd_nxt (set_pending_segments (p ++ [g]) e) + 1))
    (set_pending_segments (p ++ [g]) e))) = q ++ [g]) as -> by (unfold queue, q; cbn; by rewrite app_assoc).
  rewrite qlen_app in *. change (qlen [seg]) with (tcp_len seg + 0) in *. change (qlen [g]) with (tcp_len seg + 1 + 0).
  split_and!; [exact Hu | cbn; by rewrite Hn, u32_add_l | | lia | lia | | | apply (I_wnd e I)..].
  - apply chained_snoc. by split_and!.
  - destruct q; cbn in Hh |- *; lia.
  - unfold flight_bound. cbn [state set_state]. rewrite Hst'. lia.
Qed.

Lemma Close_SInv e e' : SInv e -> Close e = Ok e' -> SInv e'.
Proof.
  intros I. unfold Close. destruct (state e) eqn:Es; intros [= <-]; try done;
    (apply SendFin_SInv; [done | by rewrite Es | done]).
Qed.

(** ** The interface of the application *)

(** A step through TcpPcb.  Sending presupposes that the peer has not shrunk its
    window below what is in flight. *)
Inductive pcb_step : TcpEntry -> TcpEntry -> Prop :=
| st_send data e e' : u32 (snd_nxt e - snd_una e) <= snd_wnd e -> PcbSend data e = Ok e' -> pcb_step e e'
| st_output now e e' evs : PcbOutput now e = Ok (e', evs) -> pcb_step e e'
| st_release now e e' evs : PcbRelease now e = Ok (e', evs) -> pcb_step e e'
| st_open e : pcb_step e (OpenWindow e)
| st_close e : pcb_step e (CloseWindow e)
| st_cpu n e : pcb_step e (BindCpu n e)
| st_handler e : pcb_step e (InstallHandler e)
| st_notify b e : pcb_step e (SetWindowNotify b e).

(** The callbacks act on the connection through TcpPcb only, which makes no
    upcalls. *)
Class AppOk `{App} : Prop := {
  callback_steps : forall u e e' evs, callback u e = Ok (e', evs) -> rtc pcb_step e e';
  callback_events : forall u e e' evs u', callback u e = Ok (e', evs) -> Up u' ∉ evs
}.

Lemma PcbOutput_view now e e' evs : PcbOutput now e = Ok (e', evs) -> snd_view e' = snd_view e.
Proof.
  unfold PcbOutput. intros Hr. apply bind_ok in Hr as ([[n e1] ev1] & Ho & Hr).
  destruct (SetTimer now e1) as [e2 ev2] eqn:Et. injection Hr as <- <-.
  rewrite <- (Output_view _ _ _ _ _ Ho), <- (SetTimer_view now e1), Et. done.
Qed.

Lemma pcb_step_SInv e e' : pcb_step e e' -> SInv e -> SInv e'.
Proof.
  destruct 1 as [data e e' Hw Hs|now e e' evs Ho|now e e' evs Hr|e|e|n e|e|b e]; intros I.
  - by eapply PcbSend_SInv.
  - eapply SInv_ext; [symmetry; by eapply PcbOutput_view | done].
  - unfold PcbRelease in Hr. apply bind_ok in Hr as (e1 & Hc & Ho).
    eapply SInv_ext; [symmetry; by eapply PcbOutput_view | by eapply Close_SInv].
  - by apply (SInv_ext e).
  - by apply (SInv_ext e).
  - by apply (SInv_ext e).
  - by apply (SInv_ext e).
  - by apply (SInv_ext e).
Qed.

Lemma pcb_steps_SInv e e' : rtc pcb_step e e' -> SInv e -> SInv e'.
Proof. induction 1; [done |]. eauto using pcb_step_SInv. Qed.

(** ** The timer *)

Lemma Fire_view now e e' evs : Fire now e = Ok (true, e', evs) -> snd_view e' = snd_view e.
Proof.
  intros Hr. unfold Fire in Hr. destruct (negb _ && _); [destruct (teardown _); discriminate Hr |].
  apply bind_ok in Hr as ([[n e1] ev1] & Ho & Hr).
  destruct (SetTimer now e1) as [e2 ev2] eqn:Et. injection Hr as <- <-.
  transitivity (snd_view e1); [by rewrite <- (SetTimer_view now e1), Et |].
  rewrite (Output_view _ _ _ _ _ Ho). destruct (negb _ && _); done.
Qed.

(** When the retransmission timer fires, the unacknowledged segments are put
    in front of the pending ones: the queue as a whole, and with it the
    invariant, are unchanged. *)
Theorem Fire_keeps_queue now e e' evs : SInv e -> Fire now e = Ok (true, e', evs) ->
  SInv e' /\ queue e' = queue e.
Proof.
  intros I Hr%Fire_view. split; [by apply (SInv_ext e) | by injection Hr].
Qed.

(** ** Acknowledgements *)

(** An acceptable acknowledgement is a position between SND.UNA and SND.NXT. *)
Lemma between_pos e a : SInv e -> 0 <= a < 2 ^ 32 -> TcpSeqBetween a (snd_una e) (snd_nxt e) = true ->
  exists s una nxt x, a = u32 x /\ una <= x <= nxt /\
    snd_una e = u32 una /\ snd_nxt e = u32 nxt /\ chained s (queue e) /\ nxt = s + qlen (queue e) /\
    s <= una /\ nxt - s < 2 ^ 24 /\ nxt - una <= flight_bound e.
Proof.
  intros I Ha Hb. destruct (SInv_pos e I) as (s & una & nxt & Hu & Hn & Hc & Hl & Hs & _ & Hd & Hf & Hfb).
  unfold TcpSeqBetween in Hb. apply Z.leb_le in Hb. rewrite Hf in Hb. pose proof (u32_range (a - snd_una e)).
  exists s, una, nxt, (una + u32 (a - snd_una e)). split_and!; try done; try lia.
  rewrite Hu, u32_sub_r, u32_add_r. replace (una + (a - una)) with a by lia. by rewrite u32_small.
Qed.

(** [e0] is [e] with SND.UNA advanced to [a], and perhaps a new window. *)
Definition acked (a : Z) (e e0 : TcpEntry) : Prop :=
  snd_una e0 = a /\ snd_nxt e0 = snd_nxt e /\ 0 <= snd_wnd e0 < max_wnd /\ fin_sent (state e0) = fin_sent (state e) /\
  unacked_segments e0 = unacked_segments e /\ pending_segments e0 = pending_segments e.

Lemma ClearAcked_fields a e : let e1 := (ClearAckedSegments a e).1 in
  queue e1 = clear_acked_segments a (unacked_segments e) ++ clear_acked_segments a (pending_segments e) /\
  snd_una e1 = snd_una e /\ snd_nxt e1 = snd_nxt e /\ snd_wnd e1 = snd_wnd e /\ state e1 = state e.
Proof.
  unfold ClearAckedSegments, queue. cbn. destruct (clear_acked_segments a (unacked_segments e)); done.
Qed.

Lemma ClearAcked_SInv e a e0 : SInv e -> 0 <= a < 2 ^ 32 -> TcpSeqBetween a (snd_una e) (snd_nxt e) = true ->
  acked a e e0 ->
  SInv (ClearAckedSegments a e0).1 /\ exists q1, queue e = q1 ++ queue (ClearAckedSegments a e0).1.
Proof.
  intros I Ha Hb (A1 & A2 & A3 & A4 & A5 & A6).
  destruct (between_pos e a I Ha Hb) as (s & una & nxt & x & -> & Hx & Hu & Hn & Hc & Hl & Hs & Hd & Hfb).
  unfold queue in Hc, Hl.
  destruct (clear_queues s _ _ x Hc) as (q1 & q2 & Eq & Ecl & Hc2 & Hle & Hm); [lia | lia |].
  destruct (ClearAcked_fields (u32 x) e0) as (F1 & F2 & F3 & F4 & F5).
  set (e1 := (ClearAckedSegments (u32 x) e0).1) in *. rewrite A5, A6, Ecl in F1.
  split; [| exists q1; by rewrite F1; unfold queue; rewrite Eq].
  exists (s + qlen q1), x, nxt. unfold flight_bound. rewrite F1, F2, F3, F4, F5, A1, A2, A4. fold (flight_bound e).
  rewrite Eq, qlen_app in Hl, Hm. split_and!; try done; try lia. destruct q2; lia.
Qed.

(** An acknowledgement between SND.UNA and SND.NXT removes from the queue
    exactly the segments it covers completely: they are a prefix of the queue,
    and the first segment that stays reaches beyond the acknowledgement. *)
Theorem ClearAcked_exact e a e0 : SInv e -> 0 <= a < 2 ^ 32 -> TcpSeqBetween a (snd_una e) (snd_nxt e) = true ->
  acked a e e0 ->
  exists q1, queue e = q1 ++ queue (ClearAckedSegments a e0).1 /\
    (forall g, g ∈ q1 -> TcpSeqLEQ (u32 (seg_seqno g + tcp_len g)) a = true) /\
    match queue (ClearAckedSegments a e0).1 with
    | g :: _ => TcpSeqGT (u32 (seg_seqno g + tcp_len g)) a = true
    | [] => a = snd_nxt e
    end.
Proof.
  intros I Ha Hb (_ & _ & _ & _ & A5 & A6).
  destruct (between_pos e a I Ha Hb) as (s & una & nxt & x & -> & Hx & Hu & Hn & Hc & Hl & Hs & Hd & _).
  unfold queue in Hc, Hl.
  destruct (clear_queues s _ _ x Hc) as (q1 & q2 & Eq & Ecl & Hc2 & Hle & Hm); [lia | lia |].
  destruct (ClearAcked_fields (u32 x) e0) as (F1 & _). rewrite A5, A6, Ecl in F1. rewrite F1.
  exists q1. unfold queue. rewrite Eq in Hc, Hl |- *. apply chained_app in Hc as [Hc1 _].
  pose proof (qlen_nonneg _ _ Hc2). pose proof (qlen_nonneg _ _ Hc1). rewrite qlen_app in Hl.
  split_and!; [done | |].
  - intros g (l1 & l2 & ->)%list_elem_of_split. apply chained_app in Hc1 as [Hl1 (Hg & ?%seg_ok_range & Hl2)].
    pose proof (qlen_nonneg _ _ Hl1). pose proof (qlen_nonneg _ _ Hl2). rewrite qlen_app in *.
    change (qlen (g :: l2)) with (tcp_len g + qlen l2) in *.
    rewrite Hg, u32_add_l, TcpSeqLEQ_spec by lia. apply Z.leb_le. lia.
  - destruct q2 as [|g q2]; [rewrite Hn; f_equal; rewrite Eq, qlen_app in Hm; lia |].
    destruct Hc2 as (Hg & ?%seg_ok_range & Hq2). pose proof (qlen_nonneg _ _ Hq2).
    change (qlen (g :: q2)) with (tcp_len g + qlen q2) in *.
    rewrite Hg, u32_add_l, TcpSeqGT_spec by lia. apply Z.ltb_lt. lia.
Qed.

(** ** Receive keeps the invariant *)

Lemma update_window_wnd th info e : 0 <= th_wnd th < 2 ^ 16 -> 0 <= snd_wnd (update_window th info e) < max_wnd.
Proof.
  intros Hw. cbn. unfold kWindowShift, max_wnd. rewrite Z.shiftl_mul_pow2 by lia.
  rewrite u32_small; lia.
Qed.

Lemma Purge_SInv e : SInv e -> snd_una e = snd_nxt e -> SInv (Purge e).
Proof.
  intros I E. destruct (SInv_pos e I) as (s & una & nxt & Hu & Hn & _ & _ & Hs & _ & _ & Hf & _).
  rewrite E, Z.sub_diag in Hf. change (u32 0) with 0 in Hf. assert (una = nxt) as -> by lia.
  exists nxt, nxt, nxt. pose proof (I_wnd e I). unfold Purge, queue. cbn.
  split_and!; try done; try lia. unfold flight_bound, max_wnd. cbn. destruct (fin_sent _); lia.
Qed.

Lemma pcb_step_una e e' : pcb_step e e' -> snd_una e' = snd_una e.
Proof.
  assert (forall now e e' evs, PcbOutput now e = Ok (e', evs) -> snd_una e' = snd_una e) as Ho.
  { intros now e1 e1' evs Ho. by injection (PcbOutput_view _ _ _ _ Ho). }
  assert (forall e, snd_una (SendFin e) = snd_una e) as Hf.
  { intros e1. unfold SendFin. destruct (last _); [| done]. by destruct (negb _). }
  destruct 1 as [data e e' Hw Hs|now e e' evs Hs|now e e' evs Hr|e|e|n e|e|b e]; try done.
  - unfold PcbSend in Hs. run_ok. done.
  - by eapply Ho.
  - unfold PcbRelease in Hr. apply bind_ok in Hr as (e1 & Hc & Hr). rewrite (Ho _ _ _ _ Hr).
    unfold Close in Hc. destruct (state e); try discriminate Hc; injection Hc as <-; cbn; rewrite ?Hf; done.
Qed.

Lemma pcb_steps_una e e' : rtc pcb_step e e' -> snd_una e' = snd_una e.
Proof. induction 1; [done |]. etransitivity; [done | by apply pcb_step_una]. Qed.

Section Receive.
Context `{AppOk} (ih : Addrs) (th : TcpHeader) (info : TcpInfo).
Hypothesis (Hwnd : 0 <= th_wnd th < 2 ^ 16) (Hack : 0 <= ackno info < 2 ^ 32).

Lemma call_steps u e e' evs : call u e = Ok (e', evs) -> rtc pcb_step e e'.
Proof.
  unfold call. destruct (handler e); [| done]. intros Hr. apply bind_ok in Hr as ([e1 ev1] & Hc & [= <- <-]).
  by eapply callback_steps.
Qed.

Lemma call_SInv u e e' evs : call u e = Ok (e', evs) -> SInv e -> SInv e'.
Proof. intros Hc. eapply pcb_steps_SInv, call_steps, Hc. Qed.

Lemma ack_closing_SInv now e : SInv e -> (ackno info = snd_nxt e -> snd_una e = snd_nxt e) ->
  SInv (ack_closing info now e).1.
Proof.
  intros I Hu. unfold ack_closing. destruct (state e) eqn:Es; try done.
  - destruct (_ =? _); [| done]. apply (SInv_ext e); [| done]. unfold snd_view. cbn. by rewrite Es.
  - destruct (Z.eqb_spec (ackno info) (snd_nxt e)) as [E|]; [| done].
    apply (SInv_ext (Purge e)); [| apply Purge_SInv; auto]. unfold snd_view. cbn. by rewrite Es.
Qed.

(** The acknowledgement of data, up to the closing states. *)
Lemma ack_accept_SInv now e e' evs : SInv e -> TcpSeqBetween (ackno info) (snd_una e) (snd_nxt e) = true ->
  forall (upd : bool),
  (let e := set_snd_una (ackno info) e in
   let e := if upd then update_window th info e else e in
   let '(e, ev1) := ClearAckedSegments (ackno info) e in
   '(e, ev2) ← (if window_notify e then call UpSendWindowIncrease e else Ok (e, []));
   let '(e, ev3) := ack_closing info now e in
   Ok (Next, e, ev1 ++ ev2 ++ ev3)) = Ok (Next, e', evs) -> SInv e'.
Proof.
  intros I Hb upd. cbn zeta. set (e1 := if upd then _ else _).
  assert (acked (ackno info) e e1) as Hacked.
  { unfold acked, e1. destruct upd.
    - split_and!; try done; apply (update_window_wnd th info (set_snd_una (ackno info) e) Hwnd).
    - split_and!; try done; apply (I_wnd e I). }
  destruct (ClearAcked_SInv e (ackno info) e1 I Hack Hb Hacked) as [I2 _].
  destruct (ClearAcked_fields (ackno info) e1) as (_ & F2 & _). destruct Hacked as (A1 & _).
  destruct (ClearAckedSegments (ackno info) e1) as [e2 ev1]. cbn [fst] in *.
  intros Hr. apply bind_ok in Hr as ([e3 ev2] & Hc & Hr).
  assert (SInv e3 /\ snd_una e3 = ackno info) as [I3 U3].
  { destruct (window_notify e2); [| injection Hc as <- <-; split; [done | congruence]].
    split; [by eapply call_SInv |]. rewrite (pcb_steps_una e2 e3); [congruence | by eapply call_steps]. }
  pose proof (ack_closing_SInv now e3 I3 ltac:(congruence)) as I4.
  destruct (ack_closing info now e3) as [e4 ev3]. by injection Hr as <- <-.
Qed.

Lemma AckPhase_SInv now e r e' evs : SInv e -> AckPhase ih th info now e = Ok (r, e', evs) ->
  r <> Ret false -> SInv e'.
Proof.
  intros I Hr Hne. unfold AckPhase in Hr. destruct (_ && _ && _ && _); [| by injection Hr as <- <- <-].
  destruct (bool_decide (state e = kSynReceived) && _); [by injection Hr as <- <- <- |].
  set (e1 := if bool_decide (state e = kSynReceived) then _ else e) in Hr.
  assert (SInv e1) as I1.
  { clear Hr. unfold e1. case_bool_decide as Es; [| done].
    pose proof (update_window_wnd th info (set_state kEstablished e) Hwnd) as Hww.
    destruct I as (s & una & nxt & I1 & I2 & I3 & I4 & I5 & I6 & I7 & _). exists s, una, nxt.
    unfold flight_bound in *. rewrite Es in I7. split_and!; try done; apply Hww. }
  clearbody e1. clear I e. destruct (_ <=? _).
  - destruct (TcpSeqBetween _ _ _) eqn:Hb.
    + assert (r = Next) as ->.
      { cbn zeta in Hr. destruct (ClearAckedSegments _ _) as [e2 ev2].
        apply bind_ok in Hr as ([e3 ev3] & _ & Hr). destruct (ack_closing info now e3). by injection Hr as <-. }
      eapply ack_accept_SInv; [exact I1 | exact Hb | exact Hr].
    + destruct (TcpSeqGT _ _); [injection Hr as <- <- <-; by apply (SInv_ext e1) |].
      destruct (ack_closing info now e1) as [e2 ev] eqn:Ec. injection Hr as <- <- <-.
      pose proof (ack_closing_SInv now e1 I1) as I2. rewrite Ec in I2. apply I2. intros E.
      exfalso. unfold TcpSeqBetween in Hb. rewrite E in Hb. apply Z.leb_gt in Hb. lia.
  - case_bool_decide; [| by injection Hr as <- <- <-].
    destruct (_ =? _); [| by injection Hr as <- <- <-].
    destruct (teardown _). injection Hr as <- _ _. done.
Qed.

Lemma ReceiveSynSent_SInv e e' evs : SInv e -> fin_sent (state e) = false ->
  ReceiveSynSent ih th info e = Ok (true, e', evs) -> SInv e'.
Proof.
  intros I Hs Hr. unfold ReceiveSynSent in Hr.
  destruct (has _ kTcpAck && _) eqn:E1.
  { destruct (negb _); [| by injection Hr as <- <-].
    apply bind_ok in Hr as ([? ?] & _ & Hr). discriminate Hr. }
  destruct (has _ kTcpRst).
  { destruct (has _ kTcpAck); [| by injection Hr as <- <-].
    apply bind_ok in Hr as ([? ?] & _ & Hr). discriminate Hr. }
  destruct (has _ kTcpSyn); [| by injection Hr as <- <-].
  destruct (has _ kTcpAck); [| discriminate Hr]. cbn [andb] in E1. apply orb_false_iff in E1 as [El Eg].
  cbn zeta in Hr. set (e1 := update_window th info _) in Hr.
  assert (acked (ackno info) e e1) as Hacked.
  { unfold acked. split_and!; try done;
      apply (update_window_wnd th info (set_state kEstablished (set_snd_una (ackno info)
        (set_rcv_last_acked (seqno info) (set_rcv_nxt (u32 (seqno info + 1)) e)))) Hwnd). }
  assert (TcpSeqBetween (ackno info) (snd_una e) (snd_nxt e) = true) as Hb.
  { destruct (SInv_pos e I) as (s & una & nxt & Hu & Hn & Hc & Hl & Hsn & _ & Hd & Hf & _).
    unfold TcpSeqBetween, TcpSeqLEQ, TcpSeqGT in *. rewrite Hf.
    set (d := u32 (ackno info - snd_una e)). pose proof (u32_range (ackno info - snd_una e)) as Hdr. fold d in Hdr.
    assert (ackno info = u32 (una + d)) as Ea.
    { unfold d. rewrite Hu, u32_sub_r, u32_add_r. replace (una + (ackno info - una)) with (ackno info) by lia.
      by rewrite u32_small. }
    rewrite Ea, Hu, s32_sub in El. rewrite Ea, Hn, s32_sub in Eg.
    replace (una + d - una) with d in El by lia. apply Z.leb_gt in El. apply Z.ltb_ge in Eg. apply Z.leb_le.
    assert (d < 2 ^ 31) as Hd31.
    { unfold s32 in El. rewrite u32_small in El by lia. destruct (Z.ltb_spec d (2 ^ 31)); lia. }
    rewrite s32_small in Eg by lia. lia. }
  destruct (ClearAcked_SInv e (ackno info) e1 I Hack Hb Hacked) as [I2 _].
  destruct (ClearAckedSegments (ackno info) e1) as [e2 ev1]. cbn [fst] in I2.
  destruct (1 <? tcplen info); [discriminate Hr |].
  apply bind_ok in Hr as ([e3 ev2] & Hc & Hr). injection Hr as <- <-. by eapply call_SInv.
Qed.

Lemma Payload_SInv buf tl e r tl' e' evs : SInv e -> Payload ih th info buf tl e = Ok (r, tl', e', evs) ->
  r <> Ret false -> SInv e'.
Proof.
  intros I Hr Hne. unfold Payload in Hr. destruct (_ <=? 0); [by injection Hr as <- <- <- <- |].
  destruct (bool_decide _).
  - destruct (TcpSeqGT _ _).
    + apply bind_ok in Hr as (b & _ & Hr). injection Hr as <- <- <- <-. by apply (SInv_ext e).
    + destruct (merge_stashed _ _ _ _) as [[pl b] st].
      apply bind_ok in Hr as ([[pl' b'] tl2] & _ & Hr). apply bind_ok in Hr as (b2 & _ & Hr).
      apply bind_ok in Hr as ([e2 ev2] & Hc & Hr). injection Hr as <- <- <- <-.
      eapply call_SInv; [exact Hc |]. apply (SInv_ext e); [| done].
      by destruct (close_window _).
  - destruct (_ || _); [| by injection Hr as <- <- <- <-].
    destruct (teardown _). injection Hr as <- _ _ _. done.
Qed.

Lemma Fin_SInv now tl e e' evs : SInv e -> Fin th info now tl e = Ok (e', evs) -> SInv e'.
Proof.
  intros I Hr. unfold Fin in Hr. destruct (negb _); [by injection Hr as <- <- |].
  destruct (bool_decide _); [by injection Hr as <- <- |]. cbn [state set_rcv_nxt] in Hr.
  assert (forall st e1, snd_view e1 = snd_view e -> fin_sent st = fin_sent (state e) -> SInv (set_state st e1)) as Hst.
  { intros st e1 Hv Hf. apply (SInv_ext e); [| done].
    change (snd_view (set_state st e1)) with (queue e1, snd_una e1, snd_nxt e1, snd_wnd e1, fin_sent st).
    unfold snd_view in Hv |- *. injection Hv as -> -> -> -> _. by rewrite Hf. }
  destruct (state e) eqn:Es; try (injection Hr as <- <-); try (by apply (SInv_ext e)).
  - eapply call_SInv; [exact Hr |]. by apply Hst.
  - eapply call_SInv; [exact Hr |]. by apply Hst.
  - by apply Hst.
  - by apply Hst.
Qed.

Lemma SeqPhase_SInv buf now e e' evs : SInv e -> SeqPhase ih th info buf now e = Ok (true, e', evs) -> SInv e'.
Proof.
  intros I Hr. unfold SeqPhase in Hr. destruct (acceptable info e).
  - apply bind_ok in Hr as ([b tl] & _ & Hr).
    destruct (has _ kTcpRst); [apply bind_ok in Hr as ([? ?] & _ & Hr); discriminate Hr |].
    destruct (has _ kTcpSyn); [apply bind_ok in Hr as ([? ?] & _ & Hr); discriminate Hr |].
    destruct (negb _); [by injection Hr as <- <- |].
    destruct (has _ kTcpUrg); [discriminate Hr |].
    apply bind_ok in Hr as ([[[r tl'] e1] ev1] & Hp & Hr). destruct r as [rb|].
    + injection Hr as -> <- <-. by eapply Payload_SInv.
    + apply bind_ok in Hr as ([e2 ev2] & Hf & Hr). injection Hr as <- <-.
      eapply Fin_SInv; [| exact Hf]. by eapply Payload_SInv.
  - destruct (pending_segments e); [destruct (negb _) |]; by injection Hr as <- <-.
Qed.

Lemma Receive_SInv buf now e e' evs : SInv e -> Receive ih th info buf now e = Ok (true, e', evs) -> SInv e'.
Proof.
  intros I Hr. unfold Receive in Hr. case_bool_decide as Es.
  - eapply ReceiveSynSent_SInv; [exact I | by rewrite Es | exact Hr].
  - apply bind_ok in Hr as ([[r e1] ev1] & Ha & Hr). destruct r as [b|].
    + injection Hr as -> <- <-. by eapply AckPhase_SInv.
    + apply bind_ok in Hr as ([[b e2] ev2] & Hq & Hr). injection Hr as -> <- <-.
      eapply SeqPhase_SInv; [| exact Hq]. by eapply AckPhase_SInv.
Qed.
End Receive.

Lemma Input_SInv `{AppOk} ih th info buf now e e' evs :
  SInv e -> 0 <= th_wnd th < 2 ^ 16 -> 0 <= ackno info < 2 ^ 32 ->
  Input ih th info buf now e = Ok (true, e', evs) -> SInv e'.
Proof.
  intros I Hw Ha Hr. unfold Input in Hr. apply bind_ok in Hr as ([[alive e1] ev1] & Hv & Hr).
  destruct alive; [| discriminate Hr]. apply bind_ok in Hr as ([[n e2] ev2] & Ho & Hr).
  destruct (SetTimer now e2) as [e3 ev3] eqn:Et. injection Hr as <- <-.
  apply (SInv_ext e1); [| by eapply Receive_SInv].
  rewrite <- (Output_view _ _ _ _ _ Ho), <- (SetTimer_view now e2), Et. done.
Qed.

(** ** Window *)

(** [Output] sends a prefix of the pending segments, in order: those that end
    inside the window the peer offers; the first one left does not fit. *)
Theorem Output_within_window now e n e' evs : SInv e -> Output now e = Ok (n, e', evs) ->
  exists sent, unacked_segments e' = unacked_segments e ++ sent /\
    pending_segments e = sent ++ pending_segments e' /\ n = Z.of_nat (length sent) /\
    (forall g, g ∈ sent -> u32 (seg_seqno g + tcp_len g - snd_una e) <= snd_wnd e) /\
    (forall g l, pending_segments e' = g :: l -> snd_wnd e < u32 (seg_seqno g + tcp_len g - snd_una e)).
Proof.
  intros I Hr. unfold Output in Hr.
  destruct (output_loop (pending_segments e) e) as [[[sent left_] e1] evs1] eqn:Eo.
  destruct (output_loop_spec _ _ _ _ _ _ Eo) as (Ep & (v & ->) & Hf & _ & Hl).
  assert (forall g, g ∈ queue e -> fits_window e g <-> u32 (seg_seqno g + tcp_len g - snd_una e) <= snd_wnd e) as Hfit.
  { intros g Hg. destruct (SInv_pos e I) as (s & una & nxt & Hu & Hn & Hc & Hl' & Hs & Hh & Hd & Hfl & _).
    pose proof (I_wnd e I). unfold max_wnd in *. apply list_elem_of_split in Hg as (q1 & q2 & Eq).
    rewrite Eq in Hc, Hl', Hh. apply chained_app in Hc as [Hc1 (Hgs & Hgl%seg_ok_range & Hc2)].
    pose proof (qlen_nonneg _ _ Hc1). pose proof (qlen_nonneg _ _ Hc2). rewrite qlen_app in Hl'.
    change (qlen (g :: q2)) with (tcp_len g + qlen q2) in Hl'.
    assert (una <= s + qlen q1 + tcp_len g) as Hend.
    { destruct q1 as [|k q1]; [cbn in *; lia |]. cbn [chained] in Hc1. destruct Hc1 as (_ & _ & Hc1).
      pose proof (qlen_nonneg _ _ Hc1). cbn [app] in Hh. cbn [qlen foldr]. fold (qlen q1). lia. }
    unfold fits_window, SendWindowRemaining. rewrite Hfl, Hgs, Hn, Hu. u32_norm.
    replace (nxt + (snd_wnd e - (nxt - una))) with (una + snd_wnd e) by lia.
    rewrite TcpSeqLEQ_spec, Z.leb_le by lia.
    rewrite <- (u32_sub_l (u32 (s + qlen q1) + tcp_len g)), u32_add_l, u32_sub_l, u32_small; lia. }
  exists sent.
  assert (forall g, g ∈ sent -> g ∈ queue e) as Hin by (intros g; unfold queue; rewrite Ep; set_solver).
  assert (unacked_segments e' = unacked_segments e ++ sent /\ pending_segments e' = left_ /\ n = Z.of_nat (length sent))
    as (E1 & E2 & E3).
  { destruct sent as [|g sent].
    - apply bind_ok in Hr as ([e2 ev2] & Hr & [= <- <- <-]). apply bind_ok in Hr as (u & _ & Hr).
      rewrite app_nil_r. destruct (TcpSeqLT _ _); injection Hr as <- <-; cbn; auto.
    - cbn [mbind outcome_bind] in Hr. injection Hr as <- <- <-. done. }
  split_and!; [done | by rewrite E2 | done | |].
  - intros g Hg. apply Hfit; [by apply Hin |]. rewrite Forall_forall in Hf. by apply Hf.
  - intros g l El. rewrite E2 in El. rewrite El in Hl, Ep. apply Z.nle_gt. intros Hle.
    apply Hl, Hfit; [| done]. unfold queue. rewrite Ep. set_solver.
Qed.

(** ** New connections *)

Lemma empty_SInv e iss : 0 <= iss < 2 ^ 32 -> queue e = [] -> snd_una e = iss -> snd_nxt e = iss ->
  0 <= snd_wnd e < max_wnd -> SInv e.
Proof.
  intros Hi Hq Hu Hn Hw. exists iss, iss, iss. rewrite Hu, Hn, Hq, u32_small by done. pose proof (flight_bound_le e).
  unfold max_wnd in *. cbn. split_and!; (done || lia).
Qed.

Lemma accept_SInv garbage mine ih th info seq : 0 <= th_wnd th < 2 ^ 16 -> 0 <= seq < 2 ^ 32 ->
  SInv (accept_entry garbage mine ih th info seq).
Proof.
  intros Hw Hs. unfold accept_entry. cbn zeta. set (e := set_rcv_wnd kTcpWnd _).
  assert (u32 (snd_nxt e - snd_una e) = 0) as Hf by (cbn; by rewrite Z.sub_diag).
  apply Enqueue_SInv; [| by right | done | done |].
  - apply (empty_SInv _ seq); try done. apply (update_window_wnd th info e Hw).
  - rewrite Hf. by vm_compute.
Qed.

Lemma connect_SInv itf remote port lport iss e : unacked_segments e = [] -> pending_segments e = [] ->
  0 <= iss < 2 ^ 32 -> SInv (connect_entry itf remote port lport iss e).
Proof.
  intros Hu Hp Hs. unfold connect_entry. cbn zeta. set (e1 := set_rcv_wnd kTcpWnd _).
  assert (u32 (snd_nxt e1 - snd_una e1) = 0) as Hf by (cbn; by rewrite Z.sub_diag).
  apply Enqueue_SInv; [| by right | done | done |].
  - apply (empty_SInv _ iss); try done. unfold queue. cbn. by rewrite Hu, Hp.
  - rewrite Hf. by vm_compute.
Qed.

(** One event in the life of a connection. *)
Inductive conn_step `{App} : TcpEntry -> TcpEntry -> Prop :=
| cs_segment ih th info buf now e e' evs : 0 <= th_wnd th < 2 ^ 16 -> 0 <= ackno info < 2 ^ 32 ->
    Input ih th info buf now e = Ok (true, e', evs) -> conn_step e e'
| cs_timer now e e' evs : Fire now e = Ok (true, e', evs) -> conn_step e e'
| cs_app e e' : pcb_step e e' -> conn_step e e'.

Lemma conn_step_SInv `{AppOk} e e' : conn_step e e' -> SInv e -> SInv e'.
Proof.
  destruct 1 as [ih th info buf now e e' evs Hw Ha Hr|now e e' evs Hr|e e' Hp]; intros I.
  - exact (Input_SInv ih th info buf now e e' evs I Hw Ha Hr).
  - apply (SInv_ext e); [symmetry; by eapply Fire_view | done].
  - by eapply pcb_step_SInv.
Qed.

(** How a connection begins: a listener gets a SYN, or the application connects. *)
Inductive conn_init : TcpEntry -> Prop :=
| ci_accept garbage mine ih th info seq : 0 <= th_wnd th < 2 ^ 16 -> 0 <= seq < 2 ^ 32 ->
    conn_init (accept_entry garbage mine ih th info seq)
| ci_connect itf remote port lport iss garbage : 0 <= iss < 2 ^ 32 ->
    conn_init (connect_entry itf remote port lport iss (new_TcpEntry garbage)).

Lemma conn_init_SInv e : conn_init e -> SInv e.
Proof. destruct 1; [by apply accept_SInv | by apply connect_SInv]. Qed.

Lemma reachable_SInv `{AppOk} e0 e : conn_init e0 -> rtc conn_step e0 e -> SInv e.
Proof.
  intros Hi%conn_init_SInv Hs. induction Hs as [|e1 e2 e3 Hstep _ IH]; [done |].
  apply IH. by eapply conn_step_SInv.
Qed.


