(* ===== verification/TcpRecv.v ===== *)
(** * The receiving side of a TCP connection

    What the application is given is the byte stream of the peer, in order and
    without gaps, for segments that arrive in any order, repeated or re-cut, as
    long as the peer stays inside the window it was offered.  Positions are
    unwrapped sequence numbers; the statements cover the first 2^31 bytes of a
    connection, within which a position is determined by its sequence number. *)

From S2P Require Import Prelude.
From S2P Require Import Tcp TcpSeq TcpSend.

(** ** The stream of the peer *)

(** [n] bytes of [S] from position [p]. *)
Definition stream (S : Z -> Z) (p : Z) (n : nat) : list Z := (fun i => S (p + Z.of_nat i)) <$> seq 0 n.

Lemma stream_length S p n : length (stream S p n) = n.
Proof. unfold stream. by rewrite length_fmap, length_seq. Qed.

Lemma stream_app S p n m : stream S p (n + m) = stream S p n ++ stream S (p + Z.of_nat n) m.
Proof.
  unfold stream. rewrite seq_app, fmap_app. f_equal. rewrite Nat.add_0_l, <- (Nat.add_0_r n) at 1.
  rewrite <- fmap_add_seq, <- list_fmap_compose. apply list_fmap_ext. intros i k _. cbn. f_equal. lia.
Qed.

(** The data handed to the application. *)
Definition delivered1 (ev : event) : list Z :=
  match ev with Up (UpReceive b) => concat b | _ => [] end.
Definition delivered (evs : list event) : list Z := concat (delivered1 <$> evs).

Lemma delivered_app l1 l2 : delivered (l1 ++ l2) = delivered l1 ++ delivered l2.
Proof. unfold delivered. by rewrite fmap_app, concat_app. Qed.

Definition is_up (ev : event) : bool := match ev with Up _ => true | _ => false end.
Definition quiet (evs : list event) : Prop := Forall (fun ev => is_up ev = false) evs.

Lemma quiet_delivered evs : quiet evs -> delivered evs = [].
Proof.
  induction 1 as [|ev evs He _ IH]; [done |]. unfold delivered in *. cbn. rewrite IH. by destruct ev.
Qed.
Lemma quiet_app l1 l2 : quiet l1 -> quiet l2 -> quiet (l1 ++ l2).
Proof. apply Forall_app_2. Qed.

(** ** Operations that do not call the application *)

Lemma output_loop_quiet p : forall e sent left_ e' evs, output_loop p e = (sent, left_, e', evs) -> quiet evs.
Proof.
  induction p as [|g p IH]; intros e sent left_ e' evs; cbn [output_loop]; [by intros [= <- <- <- <-]; constructor |].
  destruct (TcpSeqLEQ _ _); [| by intros [= <- <- <- <-]; constructor].
  destruct (SendSegment g e) as [e1 ev] eqn:Es. destruct (output_loop p e1) as [[[s l] e2] evs2] eqn:Eo.
  intros [= <- <- <- <-]. apply quiet_app; [| by eapply IH].
  injection Es as _ <-. by repeat constructor.
Qed.

Lemma Output_quiet now e n e' evs : Output now e = Ok (n, e', evs) -> quiet evs.
Proof.
  intros Hr. unfold Output in Hr. destruct (output_loop _ _) as [[[s l] e1] evs1] eqn:Eo.
  apply output_loop_quiet in Eo. apply bind_ok in Hr as ([e2 ev2] & Hm & Hr). injection Hr as _ _ <-.
  destruct s; [| by injection Hm as _ <-]. apply bind_ok in Hm as (u & _ & Hm).
  destruct (TcpSeqLT _ _); injection Hm as _ <-; [| done]. apply quiet_app; [done | by repeat constructor].
Qed.

Lemma SetTimer_quiet now e : quiet (SetTimer now e).2.
Proof. unfold SetTimer. repeat case_match; by repeat constructor. Qed.
Lemma DisableTimers_quiet e : quiet (DisableTimers e).2.
Proof. cbn. case_match; by repeat constructor. Qed.
Lemma ClearAcked_quiet a e : quiet (ClearAckedSegments a e).2.
Proof. unfold ClearAckedSegments. case_match; [apply DisableTimers_quiet | constructor]. Qed.
Lemma teardown_quiet e : quiet (teardown e).2.
Proof. cbn. case_match; by repeat constructor. Qed.
Lemma ack_closing_quiet info now e : quiet (ack_closing info now e).2.
Proof.
  unfold ack_closing. destruct (state e); try constructor; destruct (_ =? _); try constructor.
  pose proof (DisableTimers_quiet (Purge e)). by destruct (DisableTimers (Purge e)).
Qed.

(** ** Steps that leave the receiving side alone *)

(** The states in which data can still be delivered. *)
Definition receiving (s : State) : bool :=
  match s with kSynSent | kSynReceived | kEstablished => true | _ => false end.

Definition rcv_same (e e' : TcpEntry) : Prop :=
  rcv_nxt e' = rcv_nxt e /\ stashed_segments e' = stashed_segments e /\
  (rcv_wnd e' = rcv_wnd e \/ rcv_wnd e' = kTcpWnd) /\
  (receiving (state e') = true -> receiving (state e) = true /\ (state e' = kSynSent <-> state e = kSynSent)).

#[export] Instance rcv_same_refl : Reflexive rcv_same.
Proof. intros e. split_and!; auto. Qed.
#[export] Instance rcv_same_trans : Transitive rcv_same.
Proof.
  intros e1 e2 e3 (A1 & A2 & A3 & A4) (B1 & B2 & B3 & B4). split_and!; [congruence | congruence | | naive_solver].
  destruct B3 as [->| ->]; auto.
Qed.

(** Two entries that agree on what the receiving side reads. *)
Definition rcv_view (e : TcpEntry) : Z * list (Z * buffers) * Z * State :=
  (rcv_nxt e, stashed_segments e, rcv_wnd e, state e).

Lemma rcv_view_same e e' : rcv_view e' = rcv_view e -> rcv_same e e'.
Proof. unfold rcv_view, rcv_same. intros [= -> -> -> ->]. split_and!; auto. Qed.

Lemma output_loop_rcv p : forall e sent left_ e' evs, output_loop p e = (sent, left_, e', evs) -> rcv_view e' = rcv_view e.
Proof.
  induction p as [|g p IH]; intros e sent left_ e' evs; cbn [output_loop]; [by intros [= <- <- <- <-] |].
  destruct (TcpSeqLEQ _ _); [| by intros [= <- <- <- <-]].
  destruct (SendSegment g e) as [e1 ev] eqn:Es. destruct (output_loop p e1) as [[[s l] e2] evs2] eqn:Eo.
  intros [= <- <- <- <-]. rewrite (IH _ _ _ _ _ Eo). by injection Es as <- _.
Qed.

Lemma Output_rcv now e n e' evs : Output now e = Ok (n, e', evs) -> rcv_view e' = rcv_view e.
Proof.
  intros Hr. unfold Output in Hr. destruct (output_loop _ _) as [[[s l] e1] evs1] eqn:Eo.
  apply output_loop_rcv in Eo. rewrite <- Eo. apply bind_ok in Hr as ([e2 ev2] & Hm & Hr).
  injection Hr as _ <- _. destruct s; [| by injection Hm as <- _]. apply bind_ok in Hm as (u & _ & Hm).
  by destruct (TcpSeqLT _ _); injection Hm as <- _.
Qed.

Lemma SetTimer_rcv now e : rcv_view (SetTimer now e).1 = rcv_view e.
Proof. unfold SetTimer. by repeat case_match. Qed.
Lemma ClearAcked_rcv a e : rcv_view (ClearAckedSegments a e).1 = rcv_view e.
Proof. unfold ClearAckedSegments. by case_match. Qed.

Lemma PcbOutput_rcv now e e' evs : PcbOutput now e = Ok (e', evs) -> rcv_view e' = rcv_view e /\ quiet evs.
Proof.
  intros Hr. unfold PcbOutput in Hr. apply bind_ok in Hr as ([[n e1] ev1] & Ho & Hr).
  pose proof (SetTimer_rcv now e1) as Ht. pose proof (SetTimer_quiet now e1) as Hq.
  destruct (SetTimer now e1) as [e2 ev2]. injection Hr as <- <-. split.
  - rewrite <- (Output_rcv _ _ _ _ _ Ho). exact Ht.
  - apply quiet_app; [by eapply Output_quiet | exact Hq].
Qed.

Lemma Close_rcv e e' : Close e = Ok e' -> rcv_same e e'.
Proof.
  assert (rcv_view (SendFin e) = rcv_view e) as Hs.
  { unfold SendFin. destruct (last _); [| done]. by destruct (negb _). }
  assert (forall st, receiving st = false -> rcv_same e (set_state st (SendFin e))) as Hst.
  { intros st Hr. unfold rcv_view in Hs. injection Hs as E1 E2 E3 E4. split_and!; [done | done | by left |].
    cbn [state set_state]. by rewrite Hr. }
  unfold Close. destruct (state e); intros Hc; try discriminate Hc; injection Hc as <-; try reflexivity; by apply Hst.
Qed.

Lemma pcb_step_rcv e e' : pcb_step e e' -> rcv_same e e'.
Proof.
  destruct 1 as [data e e' _ Hs|now e e' evs Ho|now e e' evs Hr|e|e|n e|e|b e]; try (split_and!; auto; fail).
  - unfold PcbSend in Hs. run_ok. by apply rcv_view_same.
  - apply rcv_view_same. by eapply PcbOutput_rcv.
  - unfold PcbRelease in Hr. apply bind_ok in Hr as (e1 & Hc & Ho). apply PcbOutput_rcv in Ho as [Ho _].
    etransitivity; [by apply Close_rcv | by apply rcv_view_same].
Qed.

Lemma pcb_steps_rcv e e' : rtc pcb_step e e' -> rcv_same e e'.
Proof. induction 1; [reflexivity |]. etransitivity; [by apply pcb_step_rcv | done]. Qed.

(** ** Buffers *)

Lemma buf_Advance_concat n b b' : 0 <= n -> buf_Advance n b = Ok b' -> concat b' = drop (Z.to_nat n) (concat b).
Proof.
  intros Hn Hr. destruct b as [|h t]; [discriminate Hr |]. cbn [buf_Advance] in Hr. run_ok. bool_to_prop.
  cbn. rewrite drop_app_le by lia. done.
Qed.

(** ** The invariant *)

Section Session.
Context (S : Z -> Z) (r0 : Z).

(** Data [b] with sequence number [k] is a piece of the stream that ends before
    [edge], in the first 2^31 bytes. *)
Definition seg_at (edge k : Z) (b : list Z) : Prop := exists p,
  k = u32 p /\ r0 <= p /\ p + Z.of_nat (length b) <= edge /\ p + Z.of_nat (length b) < r0 + 2 ^ 31 /\
  b = stream S p (length b).

Definition stash_ok (edge : Z) : list (Z * buffers) -> Prop := Forall (fun kb => seg_at edge kb.1 (concat kb.2)).

(** [d] is what has been delivered so far. *)
Definition RInv (e : TcpEntry) (d : list Z) : Prop :=
  d = stream S r0 (length d) /\
  (receiving (state e) = true -> 0 <= rcv_wnd e <= kTcpWnd /\
     if bool_decide (state e = kSynSent) then d = [] /\ stashed_segments e = []
     else rcv_nxt e = u32 (r0 + Z.of_nat (length d)) /\ Z.of_nat (length d) < 2 ^ 31 /\
       stash_ok (r0 + Z.of_nat (length d) + rcv_wnd e) (stashed_segments e)).

Lemma stash_ok_mono edge edge' l : edge <= edge' -> stash_ok edge l -> stash_ok edge' l.
Proof.
  intros Hle Hf. eapply Forall_impl; [exact Hf |]. intros [k b] (p & H1 & H2 & H3 & H4). exists p.
  split_and!; [done | done | lia | apply H4..].
Qed.

Lemma RInv_same e e' d : rcv_same e e' -> RInv e d -> RInv e' d.
Proof.
  intros (E1 & E2 & E3 & E4) [Hd HR]. split; [done |]. intros Hrec. destruct (E4 Hrec) as [Hrec0 Hsyn].
  destruct (HR Hrec0) as [Hw HR']. assert (rcv_wnd e <= rcv_wnd e' <= kTcpWnd) as Hw' by (destruct E3 as [->| ->]; lia).
  split; [lia |]. rewrite E1, E2. rewrite (bool_decide_ext _ _ Hsyn). destruct (bool_decide _); [done |].
  destruct HR' as (Hn & Hl & Hs). split_and!; [done | done |]. eapply stash_ok_mono, Hs. lia.
Qed.

Lemma RInv_open e d : RInv e d -> receiving (state e) = true -> state e <> kSynSent ->
  0 <= rcv_wnd e <= kTcpWnd /\ rcv_nxt e = u32 (r0 + Z.of_nat (length d)) /\ Z.of_nat (length d) < 2 ^ 31 /\
  stash_ok (r0 + Z.of_nat (length d) + rcv_wnd e) (stashed_segments e).
Proof. intros [_ HR] Hrec Hs. specialize (HR Hrec). by rewrite bool_decide_eq_false_2 in HR. Qed.

Lemma RInv_intro e d w st : d = stream S r0 (length d) ->
  rcv_view e = (u32 (r0 + Z.of_nat (length d)), st, w, kEstablished) -> 0 <= w <= kTcpWnd ->
  Z.of_nat (length d) < 2 ^ 31 -> stash_ok (r0 + Z.of_nat (length d) + w) st -> RInv e d.
Proof.
  unfold RInv, rcv_view. intros Hd [= -> -> -> ->] Hw Hl Hs. split; [exact Hd |]. intros _. split; [exact Hw |].
  by rewrite bool_decide_eq_false_2.
Qed.

(** ** Stashed segments *)

Lemma stash_insert_ok edge k b l : seg_at edge k (concat b) -> stash_ok edge l -> stash_ok edge (stash_insert k b l).
Proof.
  intros Hb. induction 1 as [|[k' b'] l Hk Hl IH]; cbn; [by repeat constructor |].
  destruct (k <? k'); [by repeat constructor |]. destruct (k =? k'); by constructor.
Qed.

(** Two positions within 2^31 of [r0] with the same sequence number are equal. *)
Lemma pos_inj p q : r0 <= p < r0 + 2 ^ 31 -> r0 <= q < r0 + 2 ^ 31 -> u32 p = u32 q -> p = q.
Proof.
  intros Hp Hq E. assert (u32 (p - q) = 0) as Hz.
  { rewrite <- u32_sub_l, E, u32_sub_l. by rewrite Z.sub_diag. }
  destruct (decide (q <= p)); [rewrite u32_small in Hz; lia |].
  assert (u32 (q - p) = 0) as Hz' by (rewrite <- u32_sub_l, <- E, u32_sub_l; by rewrite Z.sub_diag).
  rewrite u32_small in Hz'; lia.
Qed.

Lemma merge_ok edge r l : forall pl buf pl' buf' l',
  stash_ok edge l -> r0 <= r -> 0 <= pl -> r + pl <= edge -> r + pl < r0 + 2 ^ 31 ->
  merge_stashed l (u32 r) pl buf = (pl', buf', l') ->
  exists m, pl' = pl + Z.of_nat m /\ r + pl' <= edge /\ r + pl' < r0 + 2 ^ 31 /\
    concat buf' = concat buf ++ stream S (r + pl) m /\ stash_ok edge l'.
Proof.
  induction l as [|[k b] l IH]; intros pl buf pl' buf' l' Hok Hr Hpl He Hb Hm; cbn [merge_stashed] in Hm.
  { injection Hm as <- <- <-. exists 0%nat. cbn. rewrite app_nil_r. split_and!; (done || lia). }
  apply Forall_cons in Hok as [Hk Hl].
  destruct Hk as (p & Hp1 & Hp2 & Hp3 & Hp4 & Hp5). cbn [fst snd] in Hp1, Hp3, Hp4, Hp5. pose proof (u32_range r).
  rewrite (u64_small (u32 r + pl)) in Hm by lia. destruct (Z.eqb_spec k (u32 r + pl)) as [Ek|Ek].
  - assert (p = r + pl) as ->.
    { apply pos_inj; [lia | lia |]. rewrite <- Hp1, <- u32_add_l, <- Ek, Hp1. by rewrite u32_u32. }
    unfold buf_len in Hm. rewrite u64_small in Hm by lia. unfold buf_PrependChain in Hm.
    apply IH in Hm as (m & -> & H1 & H2 & H3 & H4); [| done | done | lia | lia | lia].
    exists (length (concat b) + m)%nat. split_and!; [lia | done | done | | done].
    rewrite H3, concat_app, stream_app, <- Hp5, app_assoc. do 2 f_equal. lia.
  - destruct (merge_stashed l (u32 r) pl buf) as [[pl1 buf1] l1] eqn:Em. injection Hm as -> -> <-.
    destruct (IH _ _ _ _ _ Hl Hr Hpl He Hb Em) as (m & H1 & H2 & H3 & H4 & H5).
    exists m. split_and!; try done. constructor; [by exists p | done].
Qed.

Lemma merge_prefix r l : forall pl buf pl' buf' l', merge_stashed l r pl buf = (pl', buf', l') -> exists x, buf' = buf ++ x.
Proof.
  induction l as [|[k b] l IH]; intros pl buf pl' buf' l' Hm; cbn [merge_stashed] in Hm.
  { injection Hm as _ <- _. exists []. by rewrite app_nil_r. }
  destruct (_ =? _).
  - apply IH in Hm as [x ->]. unfold buf_PrependChain. rewrite <- app_assoc. by eexists.
  - destruct (merge_stashed l r pl buf) as [[pl1 buf1] l1] eqn:Em. injection Hm as _ <- _. by eapply IH.
Qed.

(** ** Segments of the peer *)

(** A segment with its TCP header, whose payload is a piece of the stream that
    ends before [edge]; the SYN has the position before the stream. *)
Definition peer_segment (edge : Z) (th : TcpHeader) (info : TcpInfo) (buf : buffers) : Prop :=
  let flags := Flags (th_hdrlen_flags th) in
  let h := HdrLen (th_hdrlen_flags th) in
  let data := drop (Z.to_nat h) (concat buf) in
  0 <= h <= buf_len buf /\
  tcplen info = buf_len buf - h + (if has flags (Z.lor kTcpFin kTcpSyn) then 1 else 0) /\
  if has flags kTcpSyn then seqno info = u32 (r0 - 1) else seg_at edge (seqno info) data.

Section Receive.
Context `{AppOk} (ih : Addrs) (th : TcpHeader) (info : TcpInfo).
Let flags := Flags (th_hdrlen_flags th).

Lemma call_rcv u e e' evs : call u e = Ok (e', evs) -> rcv_same e e' /\ delivered evs = delivered1 (Up u).
Proof.
  intros Hc. split; [by eapply pcb_steps_rcv, call_steps |].
  unfold call in Hc. destruct (handler e); [| discriminate Hc].
  apply bind_ok in Hc as ([e1 ev1] & Hcb & Hc). injection Hc as _ <-.
  change (delivered (Up u :: ev1)) with (delivered1 (Up u) ++ delivered ev1).
  rewrite quiet_delivered, app_nil_r; [done |]. apply Forall_forall. intros ev Hev.
  destruct ev; try done. by apply callback_events with (u' := u0) in Hcb.
Qed.

Lemma ack_closing_rcv now e : rcv_same e (ack_closing info now e).1.
Proof.
  unfold ack_closing. destruct (state e) eqn:Es; try reflexivity; destruct (_ =? _); try reflexivity;
    (split_and!; [done | done | by left | done]).
Qed.

(** The acknowledgement leaves the receiving side alone. *)
Lemma AckPhase_rcv now e r e' evs : AckPhase ih th info now e = Ok (r, e', evs) -> r <> Ret false ->
  rcv_same e e' /\ delivered evs = [].
Proof.
  intros Hr Hne. unfold AckPhase in Hr. destruct (_ && _ && _ && _); [| by injection Hr as <- <- <-].
  destruct (bool_decide (state e = kSynReceived) && _); [by injection Hr as <- <- <- |].
  set (e1 := if bool_decide (state e = kSynReceived) then _ else e) in Hr.
  assert (rcv_same e e1) as E1.
  { clear Hr. unfold e1. case_bool_decide as Es; [| done]. split_and!; [done | done | by left |]. by rewrite Es. }
  clearbody e1. destruct (_ <=? _).
  - destruct (TcpSeqBetween _ _ _) eqn:Hb.
    + cbn zeta in Hr.
      match type of Hr with context [ClearAckedSegments _ ?x] => set (e2 := x) in Hr end.
      assert (rcv_view e2 = rcv_view e1) as E2 by (unfold e2; by destruct (_ || _)). clearbody e2.
      pose proof (ClearAcked_rcv (ackno info) e2) as E3. pose proof (ClearAcked_quiet (ackno info) e2) as Q3.
      destruct (ClearAckedSegments (ackno info) e2) as [e3 ev3]. cbn [fst snd] in E3, Q3.
      apply bind_ok in Hr as ([e4 ev4] & Hc & Hr).
      assert (rcv_same e3 e4 /\ delivered ev4 = []) as [E4 D4].
      { destruct (window_notify e3); [| by injection Hc as <- <-]. apply call_rcv in Hc as [? ->]. done. }
      pose proof (ack_closing_rcv now e4) as E5. pose proof (ack_closing_quiet info now e4) as Q5.
      destruct (ack_closing info now e4) as [e5 ev5]. injection Hr as <- <- <-. cbn [fst snd] in E5, Q5.
      rewrite !delivered_app, D4, !quiet_delivered by done. split; [| done].
      rewrite E1, <- E5, <- E4. apply rcv_view_same. congruence.
    + destruct (TcpSeqGT _ _); [injection Hr as <- <- <-; split; [by rewrite E1; apply rcv_view_same | done] |].
      pose proof (ack_closing_rcv now e1) as E5. pose proof (ack_closing_quiet info now e1) as Q5.
      destruct (ack_closing info now e1) as [e2 ev]. injection Hr as <- <- <-.
      split; [by rewrite E1 | by apply quiet_delivered].
  - case_bool_decide; [| by injection Hr as <- <- <-].
    destruct (_ =? _); [| by injection Hr as <- <- <-].
    destruct (teardown _). injection Hr as <- _ _. done.
Qed.

(** An acceptable segment does not begin before RCV.NXT. *)
Lemma acceptable_pos e r p : rcv_nxt e = u32 r -> 0 <= rcv_wnd e <= kTcpWnd -> seqno info = u32 p ->
  r0 <= r < r0 + 2 ^ 31 -> r0 <= p < r0 + 2 ^ 31 -> acceptable info e = true -> r <= p.
Proof.
  intros Hn Hw Hs Hr Hp Ha. unfold acceptable in Ha. change kTcpWnd with (2 ^ 21) in Hw. apply Z.nlt_ge. intros Hlt.
  apply orb_true_iff in Ha as [[_ Hb]%andb_true_iff|[_ Hb]%andb_true_iff].
  - unfold TcpSeqBetween in Hb. apply Z.leb_le in Hb. rewrite Hn, Hs in Hb.
    rewrite u32_add_l, !u32_sub_l, !u32_sub_r in Hb. replace (r + rcv_wnd e - r) with (rcv_wnd e) in Hb by lia.
    rewrite (u32_small (rcv_wnd e)) in Hb by lia. unfold u32, wrap in Hb.
    rewrite <- (Z_mod_plus_full (p - r) 1), Z.mod_small in Hb; lia.
  - apply Z.eqb_eq in Hb. rewrite Hn, Hs in Hb. apply pos_inj in Hb; lia.
Qed.

(** An in-order payload, with what it releases from the stash. *)
Lemma Payload_in_order e d buf pl buf' st : RInv e d -> state e = kEstablished ->
  let r := r0 + Z.of_nat (length d) in let h := HdrLen (th_hdrlen_flags th) in
  0 <= h <= buf_len buf -> seg_at (r + rcv_wnd e) (u32 r) (drop (Z.to_nat h) (concat buf)) ->
  merge_stashed (stashed_segments e) (rcv_nxt e) (buf_len buf - h) buf = (pl, buf', st) ->
  exists m, pl = Z.of_nat m /\ buf_len buf - h <= pl <= rcv_wnd e /\ r + pl < r0 + 2 ^ 31 /\
    drop (Z.to_nat h) (concat buf') = stream S r m /\ stash_ok (r + rcv_wnd e) st.
Proof.
  intros HR Es r h Hh (p & Hp1 & Hp2 & Hp3 & Hp4 & Hp5) Hm.
  destruct (RInv_open e d HR ltac:(by rewrite Es) ltac:(by rewrite Es)) as (Hw & Hn & Hl & Hst). unfold buf_len in *. rewrite length_drop in Hp3, Hp4, Hp5.
  assert (r = p) as <- by (apply pos_inj; [lia | lia | done]). rewrite Hn in Hm. fold r in Hm, Hst.
  eapply merge_ok in Hm as (m & -> & H1 & H2 & H3 & H4); [| exact Hst | lia | lia | lia | lia].
  exists (length (concat buf) - Z.to_nat h + m)%nat. split_and!; [lia | lia | lia | lia | | done].
  rewrite H3, drop_app_le, stream_app, <- Hp5 by lia. do 2 f_equal. lia.
Qed.

(** An in-order payload is delivered with what it releases from the stash. *)
Lemma Payload_run buf tl e d : RInv e d -> state e = kEstablished ->
  let r := r0 + Z.of_nat (length d) in let h := HdrLen (th_hdrlen_flags th) in
  0 <= h < buf_len buf -> seqno info = u32 r -> seg_at (r + rcv_wnd e) (u32 r) (drop (Z.to_nat h) (concat buf)) ->
  exists m buf' e1 w st,
    Payload ih th info buf tl e =
      (b ← buf_Advance h buf'; '(e2, ev) ← call (UpReceive b) e1; Ok (Next, tl, e2, ev)) /\
    drop (Z.to_nat h) (concat buf') = stream S r m /\ buf_len buf - h <= Z.of_nat m /\ (exists x, buf' = buf ++ x) /\
    rcv_view e1 = (u32 (r + Z.of_nat m), st, w, kEstablished) /\ handler e1 = handler e /\
    RInv e1 (d ++ stream S r m).
Proof.
  intros HR Es r h Hh Hseq Hseg. unfold Payload. cbn zeta. fold h.
  destruct (RInv_open e d HR ltac:(by rewrite Es) ltac:(by rewrite Es)) as (Hw & Hn & Hl & Hst). fold r in Hn, Hst.
  assert (buf_len buf - h < 2 ^ 31) as Hlt.
  { destruct Hseg as (p & Hp1 & Hp2 & Hp3 & Hp4 & _). rewrite length_drop in Hp4. unfold buf_len. lia. }
  rewrite u64_small, (proj2 (Z.leb_gt _ _)), bool_decide_eq_true_2 by (done || lia).
  rewrite Hseq, Hn, TcpSeqGT_spec, Z.ltb_irrefl, <- Hn by lia.
  destruct (merge_stashed _ _ _ _) as [[pl buf'] st] eqn:Em.
  destruct (Payload_in_order e d buf pl buf' st HR Es ltac:(fold h; lia) Hseg Em) as (m & -> & M1 & M2 & M3 & M4).
  fold h r in M1, M2, M3, M4. change (rcv_wnd (set_stashed_segments st e)) with (rcv_wnd e).
  rewrite (proj2 (Z.ltb_ge _ _)) by lia. cbn [mbind outcome_bind].
  set (e0 := set_rcv_nxt _ (set_stashed_segments st e)).
  set (e1 := if close_window _ then _ else _). set (w := if close_window e then rcv_wnd e - Z.of_nat m else rcv_wnd e).
  assert (rcv_view e1 = (u32 (r + Z.of_nat m), st, w, kEstablished) /\ handler e1 = handler e) as [Hv He].
  { unfold rcv_view, e1, e0, w. rewrite <- (u32_add_l r), <- Hn, <- Es. change (2 ^ 21) with kTcpWnd in Hw.
    change (close_window (set_rcv_nxt _ _)) with (close_window e).
    destruct (close_window e); [| done]. split; [| done]. repeat f_equal. apply u32_small.
    change kTcpWnd with (2 ^ 21) in Hw. cbn [rcv_wnd set_rcv_nxt set_stashed_segments]. lia. }
  exists m, buf', e1, w, st. split_and!; try done; [lia | by eapply merge_prefix |].
  apply (RInv_intro e1 _ w st); rewrite ?length_app, ?stream_length, ?Nat2Z.inj_add, ?Z.add_assoc; fold r; try done.
  - rewrite stream_app. f_equal. apply HR.
  - unfold w. destruct (close_window e); lia.
  - lia.
  - eapply stash_ok_mono, M4. unfold w. destruct (close_window e); lia.
Qed.

(** An in-order data segment on an established connection is handed to the
    application, together with everything the stash holds contiguously behind
    it: the handler is called with exactly the next [m] bytes of the stream, at
    least those of the segment, and RCV.NXT is advanced by [m]. *)
Theorem in_order_delivered hd tl tl_ e d : RInv e d -> state e = kEstablished -> handler e = true ->
  let r := r0 + Z.of_nat (length d) in let h := HdrLen (th_hdrlen_flags th) in
  0 <= h <= Z.of_nat (length hd) -> h < buf_len (hd :: tl) -> seqno info = u32 r ->
  seg_at (r + rcv_wnd e) (u32 r) (drop (Z.to_nat h) (concat (hd :: tl))) ->
  exists m b e1, buf_len (hd :: tl) - h <= Z.of_nat m /\ concat b = stream S r m /\
    rcv_nxt e1 = u32 (r + Z.of_nat m) /\ RInv e1 (d ++ stream S r m) /\
    Payload ih th info (hd :: tl) tl_ e =
      ('(e2, ev) ← callback (UpReceive b) e1; Ok (Next, tl_, e2, Up (UpReceive b) :: ev)).
Proof.
  intros HR Es Hh r h Hhd Hlt Hseq Hseg.
  destruct (Payload_run (hd :: tl) tl_ e d HR Es) as (m & buf' & e1 & w & st & Hrun & Hs & Hm & [x ->] & Hv & He & HR1); [fold h; lia | done | done |].
  exists m, (drop (Z.to_nat h) hd :: tl ++ x), e1. fold h r in Hrun, Hs, Hm, Hv, HR1. split_and!; [done | | by injection Hv | done |].
  - rewrite <- Hs. cbn. by rewrite drop_app_le by lia.
  - rewrite Hrun. cbn [buf_Advance app]. rewrite (proj2 (Z.leb_le _ _)) by lia. cbn [kassert mbind outcome_bind].
    unfold call. rewrite He, Hh. destruct (callback _ e1) as [[e2 ev]|]; done.
Qed.

Lemma Payload_RInv buf tl e d r tl' e' evs :
  RInv e d -> state e <> kSynSent -> acceptable info e = true ->
  0 <= HdrLen (th_hdrlen_flags th) <= buf_len buf ->
  seg_at (r0 + Z.of_nat (length d) + rcv_wnd e) (seqno info) (drop (Z.to_nat (HdrLen (th_hdrlen_flags th))) (concat buf)) ->
  Payload ih th info buf tl e = Ok (r, tl', e', evs) -> r <> Ret false ->
  RInv e' (d ++ delivered evs) /\ (receiving (state e') = true -> state e' <> kSynSent).
Proof.
  intros HR Hns Hacc Hh Hseg Hr Hne. set (h := HdrLen (th_hdrlen_flags th)) in *.
  set (r1 := r0 + Z.of_nat (length d)) in *.
  pose proof Hseg as (p & Hp1 & Hp2 & Hp3 & Hp4 & Hp5). rewrite length_drop in Hp3, Hp4.
  assert (buf_len buf - h < 2 ^ 31) as Hlt by (unfold buf_len; lia).
  pose proof Hr as Hr'. unfold Payload in Hr. cbn zeta in Hr. fold h in Hr. rewrite u64_small in Hr by lia.
  destruct (Z.leb_spec (buf_len buf - h) 0); [injection Hr as <- <- <- <-; by rewrite app_nil_r |].
  case_bool_decide as Es.
  2:{ destruct (_ || _); [destruct (teardown _); injection Hr as <- _ _ _; done |].
      injection Hr as <- <- <- <-. by rewrite app_nil_r. }
  destruct (RInv_open e d HR ltac:(by rewrite Es) Hns) as (Hw & Hn & Hl & Hst). fold r1 in Hn, Hst.
  assert (r1 <= p) as Hle by (eapply acceptable_pos; [exact Hn | exact Hw | exact Hp1 | lia | lia | done]).
  rewrite Hn, Hp1, TcpSeqGT_spec in Hr by lia. destruct (Z.ltb_spec r1 p).
  - apply bind_ok in Hr as (buf' & Ha & Hr). apply buf_Advance_concat in Ha; [| apply Hh].
    injection Hr as <- <- <- <-. cbn [delivered fmap list_fmap delivered1 concat app]. rewrite app_nil_r.
    split; [| by intros _]. split; [apply HR |]. intros _. split; [done |].
    rewrite bool_decide_eq_false_2 by done. split_and!; [done | done |].
    apply stash_insert_ok; [| done]. by rewrite <- Hp1, Ha.
  - clear Hr. assert (p = r1) as -> by lia. rewrite Hp1 in Hseg.
    destruct (Payload_run buf tl e d HR Es) as (m & buf' & e1 & w & st & Hrun & Hs & _ & _ & Hv & _ & HR1); [fold h; lia | done | done |].
    rewrite Hrun in Hr'. fold h r1 in Hr', Hs, HR1. apply bind_ok in Hr' as (buf2 & Ha & Hr).
    apply buf_Advance_concat in Ha; [| apply Hh]. apply bind_ok in Hr as ([e2 ev2] & Hc & Hr).
    injection Hr as <- <- <- <-. apply call_rcv in Hc as [Hsame ->]. cbn [delivered1]. rewrite Ha, Hs.
    split; [by eapply RInv_same |]. intros Hrec. destruct Hsame as (_ & _ & _ & Hst').
    destruct (Hst' Hrec) as [_ Hiff]. rewrite Hiff. by injection Hv as _ _ _ ->.
Qed.

(** After a FIN nothing more is delivered. *)
Lemma Fin_RInv now tl e d e' evs : RInv e d -> (receiving (state e) = true -> state e <> kSynSent) ->
  Fin th info now tl e = Ok (e', evs) -> RInv e' (d ++ delivered evs).
Proof.
  intros [Hd HR] Hns Hr. unfold Fin in Hr.
  destruct (negb _); [injection Hr as <- <-; by rewrite app_nil_r |].
  case_bool_decide as Es; [by destruct Hns; [rewrite Es |] |]. cbn [state set_rcv_nxt] in Hr.
  assert (forall e1, receiving (state e1) = false -> RInv e1 d) as Hstop by (intros e1 Hf; split; [done | by rewrite Hf]).
  destruct (state e) eqn:E; try done;
    try (injection Hr as <- <-; rewrite app_nil_r; apply Hstop; cbn; by rewrite ?E).
  1, 2: apply call_rcv in Hr as [Hs ->]; cbn [delivered1]; rewrite app_nil_r;
    (eapply RInv_same; [exact Hs | by apply Hstop]).
  1, 2: injection Hr as <- <-; rewrite quiet_delivered, app_nil_r; [by apply Hstop; cbn; rewrite ?E | apply DisableTimers_quiet].
Qed.

(** A segment past the receiving states delivers nothing. *)
Lemma SeqPhase_closed buf now e d e' evs : RInv e d -> ~ receiving (state e) = true ->
  SeqPhase ih th info buf now e = Ok (true, e', evs) -> RInv e' (d ++ delivered evs).
Proof.
  intros HR Hrec Hr. unfold SeqPhase in Hr. destruct (acceptable info e).
  - apply bind_ok in Hr as ([b tl] & _ & Hr).
    destruct (has _ kTcpRst); [apply bind_ok in Hr as ([? ?] & _ & Hr); discriminate Hr |].
    destruct (has _ kTcpSyn); [apply bind_ok in Hr as ([? ?] & _ & Hr); discriminate Hr |].
    destruct (negb _); [injection Hr as <- <-; by rewrite app_nil_r |].
    destruct (has _ kTcpUrg); [discriminate Hr |].
    apply bind_ok in Hr as ([[[r tl'] e1] ev1] & Hpay & Hr).
    assert (r = Next /\ e1 = e /\ ev1 = [] \/ r = Ret false) as [(-> & -> & ->)| ->]; [| | discriminate Hr].
    { unfold Payload in Hpay. destruct (_ <=? 0); [injection Hpay as <- <- <- <-; by left |].
      rewrite bool_decide_eq_false_2 in Hpay by (intros E; by rewrite E in Hrec).
      destruct (_ || _); [| injection Hpay as <- <- <- <-; by left].
      destruct (teardown _). injection Hpay as <- _ _ _. by right. }
    apply bind_ok in Hr as ([e2 ev2] & Hf & Hr). injection Hr as <- <-. by eapply Fin_RInv.
  - destruct (pending_segments e); [destruct (negb _) |]; injection Hr as <- <-; cbn; by rewrite app_nil_r.
Qed.

Lemma SeqPhase_RInv buf now e d e' evs : RInv e d -> receiving (state e) = true -> state e <> kSynSent ->
  peer_segment (r0 + Z.of_nat (length d) + rcv_wnd e) th info buf ->
  SeqPhase ih th info buf now e = Ok (true, e', evs) -> RInv e' (d ++ delivered evs).
Proof.
  intros HR Hrec Hns (Hh & Ht & Hp) Hr. unfold SeqPhase in Hr. destruct (acceptable info e) eqn:Hacc.
  - apply bind_ok in Hr as ([b tl] & Htrim & Hr).
    destruct (has _ kTcpRst); [apply bind_ok in Hr as ([? ?] & _ & Hr); discriminate Hr |].
    destruct (has (Flags (th_hdrlen_flags th)) kTcpSyn);
      [apply bind_ok in Hr as ([? ?] & _ & Hr); discriminate Hr |].
    destruct (negb _); [injection Hr as <- <-; by rewrite app_nil_r |].
    destruct (has _ kTcpUrg); [discriminate Hr |].
    assert (b = buf) as ->.
    { destruct (RInv_open e d HR Hrec Hns) as (Hw & Hn & Hl & _). destruct Hp as (p & Hp1 & Hp2 & Hp3 & Hp4 & _).
      pose proof (acceptable_pos e _ p Hn Hw Hp1 ltac:(lia) ltac:(lia) Hacc).
      rewrite Hn, Hp1, TcpSeqGT_spec, (proj2 (Z.ltb_ge _ _)) in Htrim by lia. by injection Htrim as <- <-. }
    apply bind_ok in Hr as ([[[r tl'] e1] ev1] & Hpay & Hr).
    assert (r <> Ret false) as Hne by (intros ->; discriminate Hr).
    destruct (Payload_RInv _ _ _ _ _ _ _ _ HR Hns Hacc Hh Hp Hpay Hne) as [HR1 Hns1]. destruct r as [rb|].
    + by injection Hr as -> <- <-.
    + apply bind_ok in Hr as ([e2 ev2] & Hf & Hr). injection Hr as <- <-.
      rewrite delivered_app, app_assoc. by eapply Fin_RInv.
  - destruct (pending_segments e); [destruct (negb _) |]; injection Hr as <- <-; cbn; by rewrite app_nil_r.
Qed.

Lemma ReceiveSynSent_RInv buf e d e' evs : RInv e d -> state e = kSynSent ->
  peer_segment (r0 + Z.of_nat (length d) + rcv_wnd e) th info buf ->
  ReceiveSynSent ih th info e = Ok (true, e', evs) -> RInv e' (d ++ delivered evs).
Proof.
  intros HR Es (_ & _ & Hp) Hr. unfold ReceiveSynSent in Hr.
  assert (forall e1 : TcpEntry, e1 = e -> RInv e1 (d ++ delivered [])) as Hsame by (intros e1 ->; by rewrite app_nil_r).
  destruct (_ && _).
  { destruct (negb _); [| injection Hr as <- <-; by apply Hsame].
    apply bind_ok in Hr as ([? ?] & _ & Hr). discriminate Hr. }
  destruct (has _ kTcpRst).
  { destruct (has _ kTcpAck); [| injection Hr as <- <-; by apply Hsame].
    apply bind_ok in Hr as ([? ?] & _ & Hr). discriminate Hr. }
  destruct (has (Flags (th_hdrlen_flags th)) kTcpSyn); [| injection Hr as <- <-; by apply Hsame].
  destruct (has _ kTcpAck); [| discriminate Hr]. cbn zeta in Hr.
  match type of Hr with context [ClearAckedSegments _ ?x] => set (e1 := x) in Hr end.
  destruct HR as [_ HR]. rewrite Es, bool_decide_eq_true_2 in HR by done. destruct (HR eq_refl) as (Hw & -> & Hst).
  assert (RInv e1 []) as HR1.
  { apply (RInv_intro e1 [] (rcv_wnd e) []); [done | | done | done | constructor].
    change (rcv_view e1) with (u32 (seqno info + 1), stashed_segments e, rcv_wnd e, kEstablished).
    rewrite Hst, Hp, u32_add_l. do 4 f_equal. cbn. lia. }
  pose proof (ClearAcked_rcv (ackno info) e1) as E2. pose proof (ClearAcked_quiet (ackno info) e1) as Q2.
  destruct (ClearAckedSegments (ackno info) e1) as [e2 ev1]. cbn [fst snd] in E2, Q2.
  destruct (1 <? tcplen info); [discriminate Hr |]. apply bind_ok in Hr as ([e3 ev2] & Hc & Hr).
  injection Hr as <- <-. apply call_rcv in Hc as [E3 D3]. rewrite delivered_app, D3, quiet_delivered by done.
  eapply RInv_same; [exact E3 |]. eapply RInv_same; [by apply rcv_view_same | exact HR1].
Qed.

Lemma peer_segment_mono edge edge' buf : edge <= edge' -> peer_segment edge th info buf -> peer_segment edge' th info buf.
Proof.
  intros Hle (H1' & H2 & H3). split_and!; [apply H1' | apply H1' | done |]. destruct (has _ kTcpSyn); [done |].
  destruct H3 as (p & P1 & P2 & P3 & P4). exists p. split_and!; [done | done | lia | apply P4..].
Qed.

Lemma Receive_RInv buf now e d e' evs : RInv e d ->
  peer_segment (r0 + Z.of_nat (length d) + rcv_wnd e) th info buf ->
  Receive ih th info buf now e = Ok (true, e', evs) -> RInv e' (d ++ delivered evs).
Proof.
  intros HR Hp Hr. unfold Receive in Hr. case_bool_decide as Es; [by eapply ReceiveSynSent_RInv |].
  apply bind_ok in Hr as ([[r e1] ev1] & Ha & Hr).
  assert (r <> Ret false) as Hne by (intros ->; discriminate Hr).
  apply AckPhase_rcv in Ha as [Hsame Hdel]; [| done].
  pose proof (RInv_same e e1 d Hsame HR) as HR1.
  destruct r as [b|]; [injection Hr as -> <- <-; by rewrite Hdel, app_nil_r |].
  apply bind_ok in Hr as ([[b e2] ev2] & Hq & Hr). injection Hr as -> <- <-.
  rewrite delivered_app, Hdel. destruct (decide (receiving (state e1) = true)) as [Hrec|Hrec].
  - destruct Hsame as (_ & _ & Hw & Hst). destruct (Hst Hrec) as [Hrec0 Hiff].
    eapply SeqPhase_RInv; [done | done | by rewrite Hiff | | exact Hq]. eapply peer_segment_mono; [| exact Hp].
    destruct HR as [_ HR]. destruct (HR Hrec0) as [Hw0 _]. destruct Hw as [->| ->]; lia.
  - eapply SeqPhase_closed; [done | done | exact Hq].
Qed.
End Receive.

Lemma Input_RInv `{AppOk} ih th info buf now e d e' evs : RInv e d ->
  peer_segment (r0 + Z.of_nat (length d) + rcv_wnd e) th info buf ->
  Input ih th info buf now e = Ok (true, e', evs) -> RInv e' (d ++ delivered evs).
Proof.
  intros HR Hp Hr. unfold Input in Hr. apply bind_ok in Hr as ([[alive e1] ev1] & Hv & Hr).
  destruct alive; [| discriminate Hr]. apply bind_ok in Hr as ([[n e2] ev2] & Ho & Hr).
  pose proof (SetTimer_rcv now e2) as Et. pose proof (SetTimer_quiet now e2) as Qt.
  destruct (SetTimer now e2) as [e3 ev3]. cbn [fst snd] in Et, Qt. injection Hr as <- <-.
  rewrite !delivered_app, (quiet_delivered ev2), (quiet_delivered ev3), !app_nil_r; [| done | by eapply Output_quiet].
  eapply RInv_same; [apply rcv_view_same; rewrite Et; by eapply Output_rcv |]. by eapply Receive_RInv.
Qed.

Lemma Fire_RInv now e d e' evs : RInv e d -> Fire now e = Ok (true, e', evs) -> RInv e' (d ++ delivered evs).
Proof.
  intros HR Hr. unfold Fire in Hr. destruct (negb _ && _); [destruct (teardown _); discriminate Hr |].
  apply bind_ok in Hr as ([[n e1] ev1] & Ho & Hr).
  pose proof (SetTimer_rcv now e1) as Et. pose proof (SetTimer_quiet now e1) as Qt.
  destruct (SetTimer now e1) as [e2 ev2]. cbn [fst snd] in Et, Qt. injection Hr as <- <-.
  rewrite delivered_app, !quiet_delivered, app_nil_r by (done || by eapply Output_quiet).
  eapply RInv_same, HR. apply rcv_view_same. rewrite Et, (Output_rcv _ _ _ _ _ Ho). by destruct (negb _ && _).
Qed.

(** ** Sessions *)

(** The life of a connection with a peer that sends the stream [S] from
    position [r0]: the entry, and all that was delivered. *)
Inductive session `{App} : TcpEntry -> list Z -> Prop :=
| ses_accept garbage mine ih th info seq : seqno info = u32 (r0 - 1) ->
    session (accept_entry garbage mine ih th info seq) []
| ses_connect itf remote port lport iss garbage :
    session (connect_entry itf remote port lport iss (new_TcpEntry garbage)) []
| ses_segment ih th info buf now e d e' evs : session e d ->
    peer_segment (r0 + Z.of_nat (length d) + rcv_wnd e) th info buf ->
    Input ih th info buf now e = Ok (true, e', evs) -> session e' (d ++ delivered evs)
| ses_timer now e d e' evs : session e d -> Fire now e = Ok (true, e', evs) -> session e' (d ++ delivered evs)
| ses_app e d e' : session e d -> pcb_step e e' -> session e' d.

Lemma session_RInv `{AppOk} e d : session e d -> RInv e d.
Proof.
  induction 1 as [garbage mine ih th info seq Hs|itf remote port lport iss garbage
    |ih th info buf now e d e' evs _ IH Hp Hr|now e d e' evs _ IH Hr|e d e' _ IH Hp].
  - split; [done |]. intros _. split; [done |]. rewrite bool_decide_eq_false_2 by done.
    split_and!; [| done | constructor]. cbn -[u32]. rewrite Hs, u32_add_l. f_equal. lia.
  - split; [done |]. intros _. split; [done |]. by rewrite bool_decide_eq_true_2.
  - by eapply Input_RInv.
  - by eapply Fire_RInv.
  - eapply RInv_same; [by apply pcb_step_rcv | done].
Qed.

End Session.
