(* ===== verification/TcpEdge.v ===== *)
(** * Teardown and edge cases of a TCP connection

    What a connection looks like when [Receive] gives it up, and the behaviour
    of the code where it departs from what its comments (the quoted RFC 793)
    ask for. *)

From S2P Require Import Prelude.
From S2P Require Import Tcp TcpSeq TcpSend TcpRecv.

(** ** Teardown *)

(** No segments, no timers, unlinked from the table. *)
Definition torn_down (e : TcpEntry) (evs : list event) : Prop :=
  state e = kClosed /\ unacked_segments e = [] /\ pending_segments e = [] /\
  timer_set e = false /\ retransmit e = 0 /\ time_wait e = 0 /\ last evs = Some Destroyed.

Lemma teardown_torn e e' ev evs : state e = kClosed -> teardown e = (e', ev) -> torn_down e' (evs ++ ev).
Proof.
  intros Hs [= <- <-]. unfold torn_down. cbn. rewrite Hs. split_and!; try done.
  rewrite app_assoc, last_app. done.
Qed.

(** A closed connection stays closed, whatever the application does with it. *)
Lemma pcb_step_closed e e' : pcb_step e e' -> state e = kClosed -> state e' = kClosed.
Proof.
  destruct 1 as [data e e' _ Hs|now e e' evs Ho|now e e' evs Hr|e|e|n e|e|b e]; intros Es; try done.
  - unfold PcbSend in Hs. run_ok. exact Es.
  - apply PcbOutput_rcv in Ho as [Hv _]. unfold rcv_view in Hv. by injection Hv as _ _ _ ->.
  - unfold PcbRelease, Close in Hr. rewrite Es in Hr. cbn [mbind outcome_bind] in Hr.
    apply PcbOutput_rcv in Hr as [Hv _]. unfold rcv_view in Hv. by injection Hv as _ _ _ ->.
Qed.

Lemma call_closed `{AppOk} u e e' evs : call u e = Ok (e', evs) -> state e = kClosed -> state e' = kClosed.
Proof. intros Hc%call_steps. induction Hc; [done |]. eauto using pcb_step_closed. Qed.

Lemma abort_closed_torn `{AppOk} e e' evs : abort_closed e = Ok (e', evs) -> torn_down e' evs.
Proof.
  intros Hr. unfold abort_closed in Hr. apply bind_ok in Hr as ([e1 ev1] & Hc & Hr).
  apply call_closed in Hc; [| done]. destruct (teardown e1) as [e2 ev2] eqn:Et. injection Hr as <- <-.
  by eapply teardown_torn.
Qed.

Lemma torn_cons e ev evs : torn_down e evs -> torn_down e (ev :: evs).
Proof. unfold torn_down. intros (? & ? & ? & ? & ? & ? & Hl). split_and!; try done. destruct evs; done. Qed.
Lemma torn_app e l evs : torn_down e evs -> torn_down e (l ++ evs).
Proof. induction l; [done |]. intros. by apply torn_cons, IHl. Qed.

Section Receive.
Context `{AppOk} (ih : Addrs) (th : TcpHeader) (info : TcpInfo).

Lemma ReceiveSynSent_torn e e' evs : ReceiveSynSent ih th info e = Ok (false, e', evs) -> torn_down e' evs.
Proof.
  intros Hr. unfold ReceiveSynSent in Hr. destruct (_ && _).
  { destruct (negb _); [| discriminate Hr]. apply bind_ok in Hr as ([e1 ev1] & Ha & Hr).
    injection Hr as <- <-. apply torn_cons; by eapply abort_closed_torn. }
  destruct (has _ kTcpRst).
  { destruct (has _ kTcpAck); [| discriminate Hr]. apply bind_ok in Hr as ([e1 ev1] & Ha & Hr).
    injection Hr as <- <-. by apply abort_closed_torn in Ha. }
  destruct (has _ kTcpSyn); [| discriminate Hr]. destruct (has _ kTcpAck); [| discriminate Hr].
  cbn zeta in Hr. destruct (ClearAckedSegments _ _). destruct (1 <? _); [discriminate Hr |].
  apply bind_ok in Hr as ([e1 ev1] & _ & Hr). discriminate Hr.
Qed.

Lemma AckPhase_torn now e e' evs : AckPhase ih th info now e = Ok (Ret false, e', evs) -> torn_down e' evs.
Proof.
  intros Hr. unfold AckPhase in Hr. destruct (_ && _ && _ && _); [| discriminate Hr].
  destruct (_ && _); [discriminate Hr |]. set (e1 := if bool_decide _ then _ else e) in Hr. clearbody e1.
  destruct (_ <=? _).
  - destruct (TcpSeqBetween _ _ _).
    + cbn zeta in Hr. destruct (ClearAckedSegments _ _). apply bind_ok in Hr as ([e2 ev2] & _ & Hr).
      destruct (ack_closing _ _ _). discriminate Hr.
    + destruct (TcpSeqGT _ _); [discriminate Hr |]. destruct (ack_closing _ _ _). discriminate Hr.
  - case_bool_decide; [| discriminate Hr]. destruct (_ =? _); [| discriminate Hr].
    destruct (teardown _) as [e2 ev] eqn:Et. injection Hr as <- <-. by apply (teardown_torn _ _ _ []) in Et.
Qed.

Lemma ReceiveRst_torn e e' evs : ReceiveRst e = Ok (e', evs) -> torn_down e' evs /\ quiet evs.
Proof.
  unfold ReceiveRst. cbn [state set_state]. rewrite bool_decide_eq_false_2 by done.
  change (state_num kEstablished <=? state_num kClosed) with false. cbn [andb mbind outcome_bind].
  pose proof (teardown_quiet (set_state kClosed e)) as Hq.
  destruct (teardown (set_state kClosed e)) as [e1 ev1] eqn:Et. intros [= <- <-].
  split; [by eapply (teardown_torn _ _ _ []) in Et | exact Hq].
Qed.

Lemma SeqPhase_torn buf now e e' evs : SeqPhase ih th info buf now e = Ok (false, e', evs) -> torn_down e' evs.
Proof.
  intros Hr. unfold SeqPhase in Hr. destruct (acceptable info e).
  - apply bind_ok in Hr as ([b tl] & _ & Hr).
    destruct (has _ kTcpRst).
    { apply bind_ok in Hr as ([e1 ev1] & Ha & Hr). injection Hr as <- <-. exact (proj1 (ReceiveRst_torn _ _ _ Ha)). }
    destruct (has _ kTcpSyn).
    { apply bind_ok in Hr as ([e1 ev1] & Ha & Hr). injection Hr as <- <-. apply torn_cons; by eapply abort_closed_torn. }
    destruct (negb _); [discriminate Hr |]. destruct (has _ kTcpUrg); [discriminate Hr |].
    apply bind_ok in Hr as ([[[r tl'] e1] ev1] & Hp & Hr). destruct r as [rb|].
    + injection Hr as -> <- <-. unfold Payload in Hp. destruct (_ <=? 0); [discriminate Hp |].
      destruct (bool_decide _).
      * destruct (TcpSeqGT _ _); [apply bind_ok in Hp as (? & _ & Hp); discriminate Hp |].
        destruct (merge_stashed _ _ _ _) as [[? ?] ?]. apply bind_ok in Hp as ([[? ?] ?] & _ & Hp).
        apply bind_ok in Hp as (? & _ & Hp). apply bind_ok in Hp as ([? ?] & _ & Hp). discriminate Hp.
      * destruct (_ || _); [| discriminate Hp]. destruct (teardown _) as [e2 ev] eqn:Et. injection Hp as <- <- <-.
        apply torn_cons. by eapply (teardown_torn _ _ _ []) in Et.
    + apply bind_ok in Hr as ([e2 ev2] & _ & Hr). discriminate Hr.
  - destruct (pending_segments e); [destruct (negb _) |]; discriminate Hr.
Qed.

(** When a segment ends the connection, it is left closed, without queued
    segments and without armed timers, and removed from the table as the last
    action. *)
Theorem Input_tears_down buf now e e' evs : Input ih th info buf now e = Ok (false, e', evs) -> torn_down e' evs.
Proof.
  intros Hr. unfold Input in Hr. apply bind_ok in Hr as ([[alive e1] ev1] & Hv & Hr). destruct alive.
  { apply bind_ok in Hr as ([[n e2] ev2] & _ & Hr). destruct (SetTimer _ _). discriminate Hr. }
  injection Hr as <- <-. unfold Receive in Hv. case_bool_decide; [by eapply ReceiveSynSent_torn |].
  apply bind_ok in Hv as ([[r e2] ev2] & Ha & Hv). destruct r as [b|].
  - injection Hv as -> <- <-. by apply AckPhase_torn in Ha.
  - apply bind_ok in Hv as ([[b e3] ev3] & Hq & Hv). injection Hv as -> <- <-.
    apply torn_app; by eapply SeqPhase_torn.
Qed.

(** ** Resets *)

(** An acceptable RST ends the connection without telling the application, in
    every state: the state is overwritten with CLOSED before it is examined. *)
Theorem rst_never_aborts buf now e : state e <> kSynSent -> has (Flags (th_hdrlen_flags th)) kTcpRst = true ->
  acceptable info e = true -> TcpSeqGT (rcv_nxt e) (seqno info) = false ->
  exists e' evs, Input ih th info buf now e = Ok (false, e', evs) /\ torn_down e' evs /\ forall u, Up u ∉ evs.
Proof.
  intros Hs Hrst Hacc Hle.
  assert (exists e' evs, ReceiveRst e = Ok (e', evs)) as (e' & evs & Hr).
  { unfold ReceiveRst. cbn [state set_state]. rewrite bool_decide_eq_false_2 by done. cbn. by repeat eexists. }
  exists e', evs. destruct (ReceiveRst_torn e e' evs Hr) as [Ht Hq]. split_and!; [| done |].
  - unfold Input, Receive. rewrite bool_decide_eq_false_2 by done. unfold AckPhase. rewrite Hrst.
    rewrite andb_false_r. cbn [mbind outcome_bind]. unfold SeqPhase. rewrite Hacc, Hle, Hrst.
    cbn [mbind outcome_bind]. rewrite Hr. done.
  - intros u Hu. unfold quiet in Hq. rewrite Forall_forall in Hq. by apply Hq in Hu.
Qed.
End Receive.

(** ** FIN out of order *)

(** A FIN without data that arrives ahead of missing data is processed at
    once: RCV.NXT jumps over the gap, and the application is told that the peer
    is done. *)
Theorem fin_skips_gap `{App} ih th info buf now e : state e = kEstablished ->
  Flags (th_hdrlen_flags th) = Z.lor kTcpFin kTcpAck -> buf_len buf = HdrLen (th_hdrlen_flags th) ->
  acceptable info e = true -> TcpSeqGT (seqno info) (rcv_nxt e) = true -> tcplen info = 1 ->
  exists e1, rcv_nxt e1 = u32 (seqno info + 1) /\ state e1 = kCloseWait /\
    SeqPhase ih th info buf now e = ('(e2, ev) ← call UpClose e1; Ok (true, e2, ev)).
Proof.
  intros Es Hf Hl Hacc Hgt Ht.
  exists (set_state kCloseWait (set_rcv_nxt (u32 (seqno info + 1)) e)). split_and!; [done | done |].
  unfold SeqPhase. rewrite Hacc, Hf, Ht.
  assert (TcpSeqGT (rcv_nxt e) (seqno info) = false) as ->.
  { unfold TcpSeqGT in *. apply Z.ltb_lt in Hgt. apply Z.ltb_ge. unfold s32 in *.
    assert (u32 (rcv_nxt e - seqno info) = u32 (- u32 (seqno info - rcv_nxt e))) as ->.
    { rewrite <- (Z.sub_0_l (u32 _)), u32_sub_r. f_equal. lia. }
    pose proof (u32_range (seqno info - rcv_nxt e)). set (x := u32 (seqno info - rcv_nxt e)) in *.
    destruct (Z.ltb_spec x (2 ^ 31)); [| lia].
    assert (u32 (- x) = 2 ^ 32 - x) as ->; [| destruct (Z.ltb_spec (2 ^ 32 - x) (2 ^ 31)); lia].
    unfold u32, wrap. rewrite <- (Z_mod_plus_full (- x) 1), Z.mod_small; lia. }
  cbn [mbind outcome_bind]. change (has _ kTcpRst) with false. change (has _ kTcpSyn) with false.
  change (has _ kTcpUrg) with false. change (negb (has _ kTcpAck)) with false.
  unfold Payload. rewrite Hl, Z.sub_diag. change (u64 0 <=? 0) with true. cbn [mbind outcome_bind].
  unfold Fin. rewrite Hf. change (negb (has _ kTcpFin)) with false.
  rewrite bool_decide_eq_false_2 by (by rewrite Es). cbn [state set_rcv_nxt]. rewrite Es.
  destruct (call _ _) as [[e2 ev]|]; done.
Qed.

(** ** The send window *)

(** When the peer shrinks its window below the data in flight, the remaining
    window underflows, and a segment of any size passes the check of Send. *)
Theorem window_shrink_underflow e data : SInv e -> snd_wnd e < u32 (snd_nxt e - snd_una e) ->
  Z.of_nat (length data) <= max_tcp_segment_size ->
  SendWindowRemaining e = 2 ^ 32 - (u32 (snd_nxt e - snd_una e) - snd_wnd e) /\ PcbSend data e = Ok (Send data e).
Proof.
  intros I Hlt Hd.
  assert (SendWindowRemaining e = 2 ^ 32 - (u32 (snd_nxt e - snd_una e) - snd_wnd e) /\
    max_tcp_segment_size <= SendWindowRemaining e) as [Hw Hm].
  { destruct (SInv_pos e I) as (s & una & nxt & Hu & Hn & Hc & Hl & Hs & Hh & Hb & Hf & Hfb).
    pose proof (I_wnd e I). pose proof (flight_bound_le e). unfold max_wnd in *. rewrite Hf in *.
    unfold SendWindowRemaining. rewrite Hf. unfold u32, wrap.
    rewrite <- (Z_mod_plus_full (snd_wnd e - (nxt - una)) 1), Z.mod_small by lia. unfold max_tcp_segment_size. lia. }
  split; [exact Hw |]. unfold PcbSend. rewrite !(proj2 (Z.leb_le _ _)) by lia. done.
Qed.
