(* ===== verification/TcpWitness.v ===== *)
(** * Concrete TCP connections

    An echo server as an application, a session with it, and the instances of
    the theorems of TcpSend, TcpRecv and TcpEdge on its states. *)

From S2P Require Import Prelude.
From S2P Require Import Checksum Tcp TcpSeq TcpSend TcpRecv TcpEdge.

(** ** An application *)

(** Sends back what it receives, when the window has room. *)
Definition echo_callback (u : upcall) (e : TcpEntry) : outcome (TcpEntry * list event) :=
  match u with
  | UpReceive b =>
      let data := concat b in
      if (u32 (snd_nxt e - snd_una e) <=? snd_wnd e) && (Z.of_nat (length data) <=? SendWindowRemaining e)
         && (Z.of_nat (length data) <=? max_tcp_segment_size)
      then e ← PcbSend data e; PcbOutput 2000 e
      else Ok (e, [])
  | _ => Ok (e, [])
  end.
#[export] Instance echo : App := { callback := echo_callback }.

#[export] Instance echo_ok : AppOk.
Proof.
  assert (forall u e e' evs, echo_callback u e = Ok (e', evs) -> rtc pcb_step e e' /\ quiet evs) as Hok.
  { intros u e e' evs Hr. destruct u; try (injection Hr as <- <-; split; [reflexivity | constructor]).
    cbn [echo_callback] in Hr. cbn zeta in Hr. destruct (_ && _ && _) eqn:Hc;
      [| injection Hr as <- <-; split; [reflexivity | constructor]].
    apply andb_true_iff in Hc as [[Hw _]%andb_true_iff _]. apply Z.leb_le in Hw.
    apply bind_ok in Hr as (e1 & Hs & Ho). split; [| by eapply PcbOutput_rcv].
    eapply rtc_l; [by eapply st_send |]. apply rtc_once. by eapply st_output. }
  split.
  - intros u e e' evs Hr. by eapply Hok.
  - intros u e e' evs u' Hr Hin. apply Hok in Hr as [_ Hq]. unfold quiet in Hq. rewrite Forall_forall in Hq.
    by apply Hq in Hin.
Qed.

(** ** A session *)

Definition me : Ipv4Address := mkIp 10 0 0 1.
Definition peer : Ipv4Address := mkIp 10 0 0 2.
Definition w_ih : Addrs := mkAddrs peer me.
Definition w_th (flags : Z) : TcpHeader := mkTh (SetHdrLenFlags 20 flags) 512.
Definition w_hdr : list Z := repeat 0 20.

(** The stream of the peer starts at 1000 with 11, 12, 13, ... *)
Definition w_S (p : Z) : Z := p - 989.
Definition w_seg (flags seq ack : Z) (data : list Z) : TcpInfo :=
  mkInfo 4000 80 seq ack (Z.of_nat (length data) + if has flags (Z.lor kTcpFin kTcpSyn) then 1 else 0).

Definition zero_entry : TcpEntry :=
  mkEntry 0 ip_Any (ip_Any, 0, 0) [] [] [] kClosed 0 0 0 0 0 0 0 0 false 0 0 false false false false.
Definition state_of {A B} (d : A * B) (r : outcome (bool * A * B)) : A * B :=
  match r with Ok (_, e, evs) => (e, evs) | Fail _ => d end.
Definition input (flags seq ack : Z) (data : list Z) (now : Z) (e : TcpEntry) : outcome (bool * TcpEntry * list event) :=
  Input w_ih (w_th flags) (w_seg flags seq ack data) [w_hdr ++ data] now e.

(** SYN; the handshake completes; 14, 15 arrive early; then 11, 12, 13. *)
Definition w_syn : TcpEntry :=
  accept_entry zero_entry 0 w_ih (w_th kTcpSyn) (w_seg kTcpSyn 999 0 []) 5000.
Definition w_handler : TcpEntry := InstallHandler w_syn.
Definition w_sent : TcpEntry := match PcbOutput 1000 w_handler with Ok (e, _) => e | _ => zero_entry end.
Definition w_est : TcpEntry * list event := state_of (zero_entry, []) (input kTcpAck 1000 5001 [] 1500 w_sent).
Definition w_early : TcpEntry * list event := state_of (zero_entry, []) (input kTcpAck 1003 5001 [14; 15] 1600 w_est.1).
Definition w_done : TcpEntry * list event := state_of (zero_entry, []) (input kTcpAck 1000 5001 [11; 12; 13] 2000 w_early.1).

Lemma w_sent_run : exists evs, PcbOutput 1000 w_handler = Ok (w_sent, evs).
Proof. eexists. vm_compute. reflexivity. Qed.
Lemma w_est_run : input kTcpAck 1000 5001 [] 1500 w_sent = Ok (true, w_est.1, w_est.2).
Proof. vm_compute. reflexivity. Qed.
Lemma w_early_run : input kTcpAck 1003 5001 [14; 15] 1600 w_est.1 = Ok (true, w_early.1, w_early.2).
Proof. vm_compute. reflexivity. Qed.
Lemma w_done_run : input kTcpAck 1000 5001 [11; 12; 13] 2000 w_early.1 = Ok (true, w_done.1, w_done.2).
Proof. vm_compute. reflexivity. Qed.

Lemma input_step flags seq ack data now e e' evs : 0 <= ack < 2 ^ 32 ->
  input flags seq ack data now e = Ok (true, e', evs) -> conn_step e e'.
Proof. intros Ha Hr. refine (cs_segment _ _ _ _ _ _ _ _ _ _ Hr); [cbn; lia | exact Ha]. Qed.

Lemma w_reach : rtc conn_step w_syn w_done.1.
Proof.
  apply (rtc_l _ _ w_handler); [apply cs_app, st_handler |].
  destruct w_sent_run as [evs Hsent]. apply (rtc_l _ _ w_sent); [exact (cs_app _ _ (st_output _ _ _ _ Hsent)) |].
  apply (rtc_l _ _ w_est.1); [eapply input_step, w_est_run; lia |].
  apply (rtc_l _ _ w_early.1); [eapply input_step, w_early_run; lia |].
  apply rtc_once. eapply input_step, w_done_run. lia.
Qed.

Lemma w_init : conn_init w_syn.
Proof. by apply ci_accept. Qed.

Lemma w_SInv : SInv w_done.1.
Proof. eapply reachable_SInv; [exact w_init | exact w_reach]. Qed.



(** The echo is acknowledged. *)
Lemma ClearAcked_exact_witness : exists q1,
  queue w_done.1 = q1 ++ queue (ClearAckedSegments 5006 (set_snd_una 5006 w_done.1)).1 /\
  (forall g, g ∈ q1 -> TcpSeqLEQ (u32 (seg_seqno g + tcp_len g)) 5006 = true) /\
  match queue (ClearAckedSegments 5006 (set_snd_una 5006 w_done.1)).1 with
  | g :: _ => TcpSeqGT (u32 (seg_seqno g + tcp_len g)) 5006 = true
  | [] => 5006 = snd_nxt w_done.1
  end.
Proof.
  apply (ClearAcked_exact w_done.1 5006 (set_snd_una 5006 w_done.1) w_SInv); [done | by vm_compute |].
  split_and!; by vm_compute.
Defined.

(** The retransmission timer fires. *)
Definition w_fired : TcpEntry := (state_of (zero_entry, []) (Fire 300000000 w_done.1)).1.
Lemma Fire_keeps_queue_witness : SInv w_fired /\ queue w_fired = queue w_done.1.
Proof.
  apply (Fire_keeps_queue 300000000 w_done.1 w_fired (state_of (zero_entry, []) (Fire 300000000 w_done.1)).2 w_SInv).
  by vm_compute.
Defined.

(** The handshake's answer leaves the pending queue. *)
Lemma w_syn_SInv : SInv w_handler.
Proof. exact (pcb_step_SInv _ _ (st_handler _) (conn_init_SInv _ w_init)). Qed.
Lemma Output_within_window_witness : exists n e' evs sent, Output 1000 w_handler = Ok (n, e', evs) /\
  unacked_segments e' = unacked_segments w_handler ++ sent /\ pending_segments w_handler = sent ++ pending_segments e' /\
  (forall g, g ∈ sent -> u32 (seg_seqno g + tcp_len g - snd_una w_handler) <= snd_wnd w_handler).
Proof.
  destruct (Output 1000 w_handler) as [[[n e'] evs]|] eqn:E; [| vm_compute in E; discriminate E].
  destruct (Output_within_window 1000 w_handler n e' evs w_syn_SInv E) as (sent & H1 & H2 & _ & H3 & _).
  by exists n, e', evs, sent.
Defined.

(** ** Receiving *)

Lemma w_segment flags p ack data edge : has (Flags (th_hdrlen_flags (w_th flags))) kTcpSyn = false ->
  HdrLen (th_hdrlen_flags (w_th flags)) = 20 -> Flags (th_hdrlen_flags (w_th flags)) = flags ->
  1000 <= p -> p + Z.of_nat (length data) <= edge -> p + Z.of_nat (length data) < 1000 + 2 ^ 31 ->
  data = stream w_S p (length data) ->
  peer_segment w_S 1000 edge (w_th flags) (w_seg flags (u32 p) ack data) [w_hdr ++ data].
Proof.
  intros Hs Hh Hf Hp He Hb Hd. unfold peer_segment. cbn zeta. rewrite Hs, Hh, Hf.
  assert (buf_len [w_hdr ++ data] = 20 + Z.of_nat (length data)) as Hl.
  { unfold buf_len. cbn [concat]. rewrite app_nil_r, length_app. change (length w_hdr) with 20%nat. lia. }
  rewrite Hl. split_and!; [lia | lia | cbn [w_seg tcplen]; lia |].
  change (drop (Z.to_nat 20) (concat [w_hdr ++ data])) with (data ++ []). rewrite app_nil_r.
  exists p. split_and!; done.
Qed.

Lemma input_session flags p ack data now e d e' evs : session w_S 1000 e d ->
  peer_segment w_S 1000 (1000 + Z.of_nat (length d) + rcv_wnd e) (w_th flags) (w_seg flags (u32 p) ack data) [w_hdr ++ data] ->
  input flags (u32 p) ack data now e = Ok (true, e', evs) -> session w_S 1000 e' (d ++ delivered evs).
Proof. intros Hs Hp Hr. exact (ses_segment _ _ _ _ _ _ _ _ _ _ _ Hs Hp Hr). Qed.

Lemma w_est_session : session w_S 1000 w_est.1 [].
Proof.
  change [] with (@nil Z ++ delivered []). replace (delivered []) with (delivered w_est.2) by (vm_compute; reflexivity).
  apply (input_session kTcpAck 1000 5001 [] 1500 w_sent); [| | exact w_est_run].
  - destruct w_sent_run as [evs Hsent]. eapply ses_app, (st_output _ _ _ _ Hsent).
    eapply ses_app, st_handler. by apply ses_accept.
  - apply w_segment; (reflexivity || by vm_compute).
Qed.

Lemma w_early_session : session w_S 1000 w_early.1 [].
Proof.
  change [] with (@nil Z ++ delivered []). replace (delivered []) with (delivered w_early.2) by (vm_compute; reflexivity).
  apply (input_session kTcpAck 1003 5001 [14; 15] 1600 w_est.1); [exact w_est_session | | exact w_early_run].
  apply w_segment; (reflexivity || by vm_compute).
Qed.

Lemma w_session : session w_S 1000 w_done.1 [11; 12; 13; 14; 15].
Proof.
  replace [11; 12; 13; 14; 15] with ([] ++ delivered w_done.2) by (vm_compute; reflexivity).
  apply (input_session kTcpAck 1000 5001 [11; 12; 13] 2000 w_early.1); [exact w_early_session | | exact w_done_run].
  apply w_segment; (reflexivity || by vm_compute).
Qed.


Lemma in_order_delivered_witness : exists m b e1, concat b = stream w_S 1000 m /\
  RInv w_S 1000 e1 ([] ++ stream w_S 1000 m) /\
  Payload w_ih (w_th kTcpAck) (w_seg kTcpAck 1000 5001 [11; 12; 13]) [w_hdr ++ [11; 12; 13]] 3 w_early.1 =
    ('(e2, ev) ← callback (UpReceive b) e1; Ok (Next, 3, e2, Up (UpReceive b) :: ev)).
Proof.
  destruct (in_order_delivered w_S 1000 w_ih (w_th kTcpAck) (w_seg kTcpAck 1000 5001 [11; 12; 13])
    (w_hdr ++ [11; 12; 13]) [] 3 w_early.1 []) as (m & b & e1 & _ & Hb & _ & HR & Hp).
  - exact (session_RInv w_S 1000 _ _ w_early_session).
  - vm_compute. reflexivity.
  - vm_compute. reflexivity.
  - by vm_compute.
  - by vm_compute.
  - by vm_compute.
  - exists 1000. split_and!; by vm_compute.
  - exists m, b, e1. split_and!; [exact Hb | exact HR | exact Hp].
Defined.

(** ** Edge cases *)

(** The peer resets the established connection. *)
Lemma rst_never_aborts_witness : exists e' evs,
  input kTcpRst 1005 0 [] 3000 w_done.1 = Ok (false, e', evs) /\ torn_down e' evs /\ forall u, Up u ∉ evs.
Proof.
  unfold input. apply rst_never_aborts; by vm_compute.
Defined.

(** A SYN inside the window ends the connection. *)
Definition w_torn : TcpEntry * list event := state_of (zero_entry, []) (input kTcpSyn 1005 0 [] 3000 w_done.1).
Lemma Input_tears_down_witness : torn_down w_torn.1 w_torn.2.
Proof.
  apply (Input_tears_down w_ih (w_th kTcpSyn) (w_seg kTcpSyn 1005 0 []) [w_hdr ++ []] 3000 w_done.1).
  vm_compute. reflexivity.
Defined.

Lemma fin_skips_gap_witness : exists e1, rcv_nxt e1 = 1008 /\ state e1 = kCloseWait /\
  SeqPhase w_ih (w_th (Z.lor kTcpFin kTcpAck)) (w_seg (Z.lor kTcpFin kTcpAck) 1007 5001 []) [w_hdr] 3000 w_done.1 =
    ('(e2, ev) ← call UpClose e1; Ok (true, e2, ev)).
Proof.
  apply (fin_skips_gap w_ih (w_th (Z.lor kTcpFin kTcpAck)) (w_seg (Z.lor kTcpFin kTcpAck) 1007 5001 []) [w_hdr] 3000 w_done.1);
    by vm_compute.
Defined.

(** The peer closes its window while the echo is in flight. *)
Definition w_shrunk : TcpEntry := set_snd_wnd 0 w_done.1.
Lemma w_shrunk_SInv : SInv w_shrunk.
Proof.
  assert (forall e w, SInv e -> 0 <= w < max_wnd -> SInv (set_snd_wnd w e)) as Hset.
  { intros e w (s & una & nxt & H1 & H2 & H3 & H4 & H5 & H6 & H7 & _) Hw. exists s, una, nxt. split_and!; (done || apply Hw). }
  apply Hset; [exact w_SInv | by vm_compute].
Qed.
Lemma window_shrink_underflow_witness :
  SendWindowRemaining w_shrunk = 2 ^ 32 - 5 /\ PcbSend [1; 2; 3] w_shrunk = Ok (Send [1; 2; 3] w_shrunk).
Proof.
  destruct (window_shrink_underflow w_shrunk [1; 2; 3] w_shrunk_SInv) as [H1 H2]; [by vm_compute | by vm_compute |].
  split; [by vm_compute | exact H2].
Defined.

(** Received data that exceeds the window is cut from the first buffer, not
    from the end of the chain: with room for four bytes, 11, 12, 13 and the
    stashed 14, 15, 16 reach the application as 11, 14, 15, 16. *)
Example trim_cuts_first_buffer :
  let e := set_rcv_wnd 4 (set_stashed_segments [(1003, [[14; 15; 16]])] w_est.1) in
  delivered (state_of (zero_entry, []) (input kTcpAck 1000 5001 [11; 12; 13] 2000 e)).2 = [11; 14; 15; 16].
Proof. vm_compute. reflexivity. Qed.

(** A FIN that does not fit in the window is processed all the same: the flag is
    cleared in the header, but tested in a copy taken before. *)
Example fin_beyond_window_processed :
  let e := set_rcv_wnd 2 w_est.1 in
  let r := state_of (zero_entry, []) (input (Z.lor kTcpFin kTcpAck) 1000 5001 [11; 12; 13] 2000 e) in
  delivered r.2 = [11; 12] /\ state r.1 = kCloseWait /\ rcv_nxt r.1 = 1003 /\ Up UpClose ∈ r.2.
Proof. vm_compute. split_and!; [reflexivity..|]. repeat constructor. Qed.
