(* ===== verification/TcpNetCorrect.v ===== *)
(** * Correctness of TCP in the network manager

    There is at most one connection per remote address, remote port and local
    port; received segments find it, or a listener, or are answered with a reset
    as RFC 793 asks.  Two nodes that connect and listen establish a connection. *)

From S2P Require Import Prelude.
From S2P Require Import Checksum NetIp NetIpCorrect PortPool PcbTable Tcp TcpNet TcpSeq TcpSend TcpRecv TcpEdge.

(** ** The key of a connection never changes *)

Definition ident (e : TcpEntry) : conn_key * Ipv4Address := (key e, address e).

Lemma output_loop_ident p e : ident (output_loop p e).1.2 = ident e.
Proof.
  revert e. induction p as [|it p IH]; intros e; cbn [output_loop]; [done |]. destruct (TcpSeqLEQ _ _); [| done].
  cbn [SendSegment]. specialize (IH (set_rcv_last_acked (rcv_nxt e) e)). destruct (output_loop p _) as [[[? ?] ?] ?]. exact IH.
Qed.

Lemma Output_ident now e n e' evs : Output now e = Ok (n, e', evs) -> ident e' = ident e.
Proof.
  intros Hr. unfold Output in Hr. pose proof (output_loop_ident (pending_segments e) e) as Ho.
  destruct (output_loop (pending_segments e) e) as [[[sent left_] e1] evs1]. cbn [fst snd] in Ho. rewrite <- Ho.
  apply bind_ok in Hr as ([e2 ev2] & Hm & Hr). injection Hr as <- <- <-.
  destruct sent; [| by injection Hm as <- <-]. apply bind_ok in Hm as ([] & _ & Hm). destruct (TcpSeqLT _ _); by injection Hm as <- <-.
Qed.

Lemma SetTimer_ident now e : ident (SetTimer now e).1 = ident e.
Proof. unfold SetTimer. by repeat case_match. Qed.

Lemma PcbOutput_ident now e e' evs : PcbOutput now e = Ok (e', evs) -> ident e' = ident e.
Proof.
  unfold PcbOutput. intros Hr. apply bind_ok in Hr as ([[n e1] ev1] & Ho%Output_ident & Hr).
  destruct (SetTimer now e1) as [e2 ev2] eqn:Et. injection Hr as <- <-. by rewrite <- Ho, <- (SetTimer_ident now e1), Et.
Qed.

Lemma SendFin_ident e : ident (SendFin e) = ident e.
Proof. unfold SendFin. repeat case_match; done. Qed.

Lemma Close_ident e e' : Close e = Ok e' -> ident e' = ident e.
Proof. unfold Close. intros Hr. destruct (state e); try discriminate Hr; apply Ok_inj in Hr as <-; try done; apply (SendFin_ident e). Qed.

Lemma pcb_step_ident e e' : pcb_step e e' -> ident e' = ident e.
Proof.
  destruct 1 as [data e e' _ Hs|now e e' evs Ho|now e e' evs Hr|e|e|n e|e|b e]; try done.
  - unfold PcbSend in Hs. by apply bind_ok in Hs as (? & _ & (? & _ & [= <-])%bind_ok).
  - by eapply PcbOutput_ident.
  - unfold PcbRelease in Hr. apply bind_ok in Hr as (e1 & Hc%Close_ident & Ho%PcbOutput_ident). congruence.
Qed.
Lemma pcb_steps_ident e e' : rtc pcb_step e e' -> ident e' = ident e.
Proof. induction 1 as [|? ? ? Hs%pcb_step_ident _ IH]; congruence. Qed.

Lemma call_ident `{AppOk} u e e' evs : call u e = Ok (e', evs) -> ident e' = ident e.
Proof. intros Hc%call_steps. by apply pcb_steps_ident. Qed.

Lemma DisableTimers_ident e : ident (DisableTimers e).1 = ident e.
Proof. done. Qed.
Lemma ClearAcked_ident a e : ident (ClearAckedSegments a e).1 = ident e.
Proof. unfold ClearAckedSegments. by repeat case_match. Qed.

(** The part of the entry that a function returns, with what it keeps. *)
Lemma pair_ident (f : TcpEntry -> TcpEntry * list event) e e' ev : (forall e, ident (f e).1 = ident e) -> f e = (e', ev) -> ident e' = ident e.
Proof. intros Hf Hp. by rewrite <- (Hf e), Hp. Qed.

Lemma teardown_ident e : ident (teardown e).1 = ident e.
Proof. done. Qed.

Section Receive.
Context `{AppOk} (ih : Addrs) (th : TcpHeader) (info : TcpInfo).

Lemma abort_closed_ident e e' evs : abort_closed e = Ok (e', evs) -> ident e' = ident e.
Proof.
  unfold abort_closed. intros Hr. apply bind_ok in Hr as ([e1 ev1] & Hc%call_ident & Hr). injection Hr as <- <-. exact Hc.
Qed.

Lemma ReceiveSynSent_ident e b e' evs : ReceiveSynSent ih th info e = Ok (b, e', evs) -> ident e' = ident e.
Proof.
  intros Hr. unfold ReceiveSynSent in Hr. destruct (_ && _).
  { destruct (negb _); [| by injection Hr as <- <- <-]. apply bind_ok in Hr as ([e1 ev1] & Ha%abort_closed_ident & Hr). by injection Hr as <- <- <-. }
  destruct (has _ kTcpRst).
  { destruct (has _ kTcpAck); [| by injection Hr as <- <- <-]. apply bind_ok in Hr as ([e1 ev1] & Ha%abort_closed_ident & Hr). by injection Hr as <- <- <-. }
  destruct (has _ kTcpSyn); [| by injection Hr as <- <- <-]. destruct (has _ kTcpAck); [| discriminate Hr].
  cbn zeta in Hr. destruct (ClearAckedSegments _ _) as [e1 ev1] eqn:Ec. destruct (1 <? _); [discriminate Hr |].
  apply (pair_ident (ClearAckedSegments _)) in Ec; [| by apply ClearAcked_ident].
  apply bind_ok in Hr as ([e2 ev2] & Hc%call_ident & Hr). injection Hr as <- <- <-. by rewrite Hc, Ec.
Qed.

Lemma ack_closing_ident now e : ident (ack_closing info now e).1 = ident e.
Proof. unfold ack_closing. destruct (state e); try done; by destruct (_ =? _). Qed.

Lemma AckPhase_ident now e r e' evs : AckPhase ih th info now e = Ok (r, e', evs) -> ident e' = ident e.
Proof.
  intros Hr. unfold AckPhase in Hr. destruct (_ && _ && _ && _); [| by injection Hr as <- <- <-].
  destruct (_ && _); [by injection Hr as <- <- <- |]. set (e1 := if bool_decide _ then _ else e) in Hr.
  assert (ident e1 = ident e) as <- by (unfold e1; by destruct (bool_decide _)). clearbody e1. destruct (_ <=? _).
  - destruct (TcpSeqBetween _ _ _).
    + cbn zeta in Hr. match type of Hr with context [ClearAckedSegments _ ?x] => assert (ident x = ident e1) as <- by (by destruct (_ || _)) end.
      destruct (ClearAckedSegments _ _) as [e2 ev2] eqn:Ec. apply (pair_ident (ClearAckedSegments _)) in Ec; [| by apply ClearAcked_ident].
      apply bind_ok in Hr as ([e3 ev3] & Hw & Hr). assert (ident e3 = ident e2) as E3.
      { destruct (window_notify e2); [by apply call_ident in Hw | by injection Hw as <- <-]. }
      destruct (ack_closing _ _ _) as [e4 ev4] eqn:Ea. apply (pair_ident (ack_closing _ _)) in Ea; [| by apply ack_closing_ident].
      injection Hr as <- <- <-. congruence.
    + destruct (TcpSeqGT _ _); [by injection Hr as <- <- <- |]. destruct (ack_closing _ _ _) as [e4 ev4] eqn:Ea.
      apply (pair_ident (ack_closing _ _)) in Ea; [| by apply ack_closing_ident]. by injection Hr as <- <- <-.
  - case_bool_decide; [| by injection Hr as <- <- <-]. destruct (_ =? _); by injection Hr as <- <- <-.
Qed.

Lemma Payload_ident buf tl e r tl' e' evs : Payload ih th info buf tl e = Ok (r, tl', e', evs) -> ident e' = ident e.
Proof.
  intros Hr. unfold Payload in Hr. destruct (_ <=? 0); [by injection Hr as <- <- <- <- |]. case_bool_decide.
  - destruct (TcpSeqGT _ _); [apply bind_ok in Hr as (b & _ & Hr); by injection Hr as <- <- <- <- |].
    destruct (merge_stashed _ _ _ _) as [[pl b] st]. apply bind_ok in Hr as ([[pl' b'] tl2] & _ & Hr).
    apply bind_ok in Hr as (b2 & _ & Hr). apply bind_ok in Hr as ([e2 ev2] & Hc%call_ident & Hr). injection Hr as <- <- <- <-.
    rewrite Hc. by destruct (close_window _).
  - destruct (_ || _); by injection Hr as <- <- <- <-.
Qed.

Lemma Fin_ident now tl e e' evs : Fin th info now tl e = Ok (e', evs) -> ident e' = ident e.
Proof.
  intros Hr. unfold Fin in Hr. destruct (negb _); [by injection Hr as <- <- |]. case_bool_decide; [by injection Hr as <- <- |].
  cbn zeta in Hr. match type of Hr with context [match ?x with _ => _ end] => destruct x end;
    try (apply call_ident in Hr; by rewrite Hr); by injection Hr as <- <-.
Qed.

Lemma ReceiveRst_ident e e' evs : ReceiveRst e = Ok (e', evs) -> ident e' = ident e.
Proof.
  intros Hr. unfold ReceiveRst in Hr. apply bind_ok in Hr as ([e1 ev1] & Hc & Hr). injection Hr as <- <-.
  change (ident e1 = ident e). cbn [state set_state] in Hc. injection Hc as <- <-. done.
Qed.

Lemma SeqPhase_ident buf now e b e' evs : SeqPhase ih th info buf now e = Ok (b, e', evs) -> ident e' = ident e.
Proof.
  intros Hr. unfold SeqPhase in Hr. destruct (acceptable info e).
  - apply bind_ok in Hr as ([b1 tl] & _ & Hr).
    destruct (has _ kTcpRst); [apply bind_ok in Hr as ([? ?] & Ha%ReceiveRst_ident & Hr); by injection Hr as <- <- <- |].
    destruct (has _ kTcpSyn); [apply bind_ok in Hr as ([? ?] & Ha%abort_closed_ident & Hr); by injection Hr as <- <- <- |].
    destruct (negb _); [by injection Hr as <- <- <- |].
    destruct (has _ kTcpUrg); [discriminate Hr |].
    apply bind_ok in Hr as ([[[r tl'] e1] ev1] & Hp%Payload_ident & Hr). destruct r as [rb|]; [by injection Hr as <- <- <- |].
    apply bind_ok in Hr as ([e2 ev2] & Hf%Fin_ident & Hr). injection Hr as <- <- <-. congruence.
  - destruct (pending_segments e); [destruct (negb _) |]; by injection Hr as <- <- <-.
Qed.

Lemma Input_ident buf now e b e' evs : Input ih th info buf now e = Ok (b, e', evs) -> ident e' = ident e.
Proof.
  intros Hr. unfold Input in Hr. apply bind_ok in Hr as ([[alive e1] ev1] & Hv & Hr). assert (ident e1 = ident e) as E1.
  { unfold Receive in Hv. case_bool_decide; [by eapply ReceiveSynSent_ident |].
    apply bind_ok in Hv as ([[r e2] ev2] & Ha%AckPhase_ident & Hv). destruct r; [by injection Hv as <- <- <- |].
    apply bind_ok in Hv as ([[r e3] ev3] & Hs%SeqPhase_ident & Hv). injection Hv as <- <- <-. congruence. }
  destruct alive; [| by injection Hr as <- <- <-]. apply bind_ok in Hr as ([[n e2] ev2] & Ho%Output_ident & Hr).
  destruct (SetTimer now e2) as [e3 ev3] eqn:Et. apply (pair_ident (SetTimer now)) in Et; [| apply SetTimer_ident].
  injection Hr as <- <- <-. congruence.
Qed.
End Receive.

Lemma Fire_ident now e b e' evs : Fire now e = Ok (b, e', evs) -> ident e' = ident e.
Proof.
  intros Hr. unfold Fire in Hr. destruct (negb _ && _); [by injection Hr as <- <- <- |].
  apply bind_ok in Hr as ([[n e1] ev1] & Ho%Output_ident & Hr).
  destruct (SetTimer now e1) as [e2 ev2] eqn:Et. apply (pair_ident (SetTimer now)) in Et; [| apply SetTimer_ident].
  injection Hr as <- <- <-. rewrite Et, Ho. by destruct (_ && _).
Qed.

(** ** At most one connection per key *)

(** The accept functions act on the new connection through TcpPcb. *)
Class ListenersOk `{Listeners} : Prop := {
  accept_steps : forall l f e e' evs, accept_fn l = Some f -> f e = Ok (e', evs) -> rtc pcb_step e e'
}.

Section Net.
Context `{AppOk} `{ListenersOk} `{IntervalSet} `{TL : !Table Z} `{TC : !Table conn_key}.
Implicit Type s : TcpNet.

(** The connection is in the table. *)
Definition linked (id : nat) (s : TcpNet) : Prop := exists k, t_find (tcp_pcbs_ s) k = Ok (Some id).

(** What can happen to the network manager, with the pcbs that are not connected yet. *)
Inductive net_step : TcpNet * list nat -> TcpNet * list nat -> Prop :=
| ns_listener s f l : listen_port s !! l = None -> net_step (s, f) (new_ListeningTcpPcb l s, f)
| ns_bind s f l port bound s' : listen_port s !! l = Some 0 -> ListenBind l port s = Ok (bound, s') -> net_step (s, f) (s', f)
| ns_unbind s f l s' : ListenDelete l s = Ok s' -> net_step (s, f) (s', f)
| ns_pcb s f garbage : net_step (s, f) ((alloc_entry (new_TcpEntry garbage) s).2, next_entry s :: f)
| ns_connect s f1 id f2 itf addr port local_port iss now bound s' evs :
    Connect id itf addr port local_port iss now s = Ok (bound, s', evs) -> net_step (s, f1 ++ id :: f2) (s', f1 ++ f2)
| ns_receive s f mine now seq garbage addr ih buf s' evs tasks :
    ReceiveTcp mine now seq garbage addr ih buf s = Ok (s', evs, tasks) -> net_step (s, f) (s', f)
| ns_input s f id ih th info buf now s' evs : linked id s -> EntryInput id ih th info buf now s = Ok (s', evs) -> net_step (s, f) (s', f)
| ns_ready s f id now s' evs : linked id s -> EntryReady id now s = Ok (s', evs) -> net_step (s, f) (s', f)
| ns_fire s f id now s' evs : linked id s -> EntryFire id now s = Ok (s', evs) -> net_step (s, f) (s', f)
| ns_app s f id e e' : entries s !! id = Some e -> pcb_step e e' -> net_step (s, f) (set_entry id e' s, f)
| ns_delete s f id : id ∈ to_delete s -> net_step (s, f) (delete_entry id s, f).

Record NetInv (s : TcpNet) (f : list nat) (l : list (nat * conn_key)) : Prop := {
  ni_holds : holds (tcp_pcbs_ s) l;
  ni_ids : NoDup l.*1;
  ni_keys : NoDup l.*2;
  ni_entry : forall id k, (id, k) ∈ l -> exists e, entries s !! id = Some e /\ key e = k;
  ni_dead : forall id, id ∈ to_delete s -> id ∉ l.*1 /\ id ∉ f /\ (id < next_entry s)%nat;
  ni_fresh : NoDup f /\ forall id, id ∈ f -> id ∉ l.*1 /\ is_Some (entries s !! id);
  ni_next : forall id, is_Some (entries s !! id) -> (id < next_entry s)%nat;
  ni_lock : tcp_write_lock_ s = false;
  ni_pool : contains (tcp_port_allocator_ s) 0 = false;
  ni_listen : exists ll, holds (listening_tcp_pcbs_ s) ll /\
    forall x, x ∈ ll.*1 <-> exists port, listen_port s !! x = Some port /\ port <> 0
}.

Lemma linked_elem s f l id : NetInv s f l -> linked id s -> exists k, (id, k) ∈ l.
Proof.
  intros I (k & Hk). exists k. rewrite (t_find_spec _ _ _ (ni_holds _ _ _ I)) in Hk. apply Ok_inj in Hk.
  assert (id ∈ nodes_with k l) as Hin by (destruct (nodes_with k l); [done | injection Hk as ->; by left]).
  apply list_elem_of_fmap in Hin as ([x k'] & -> & [<- ?]%list_elem_of_filter). done.
Qed.

(** Changing an entry, except for its key. *)
Lemma set_entry_inv s f l id e e' : NetInv s f l -> entries s !! id = Some e -> key e' = key e -> NetInv (set_entry id e' s) f l.
Proof.
  intros [I1 I2 I3 I4 I5 [I6 I6'] I7 I8 I9 I10] He Hk. split; cbn [set_entry tcp_port_allocator_ tcp_pcbs_ entries to_delete next_entry tcp_write_lock_ listening_tcp_pcbs_ listen_port]; try done.
  - intros x k Hx. destruct (I4 x k Hx) as (e0 & He0 & Hk0). destruct (decide (x = id)) as [->|Hne].
    + exists e'. rewrite lookup_insert_eq. split; [done |]. congruence.
    + exists e0. by rewrite lookup_insert_ne.
  - split; [done |]. intros x Hx. destruct (I6' x Hx) as [? ?]. split; [done |]. rewrite lookup_insert_is_Some'. by right.
  - intros x [->|Hx]%lookup_insert_is_Some'; apply I7; [by exists e | done].
Qed.

Lemma Destroy_inv s f l id k : NetInv s f l -> (id, k) ∈ l ->
  exists s', Destroy id s = Ok s' /\ NetInv s' f (filter (fun p => p.1 <> id) l) /\ id ∈ to_delete s'.
Proof.
  intros [I1 I2 I3 I4 I5 [I6 I6'] I7 I8 I9 I10] Hin. assert (id ∈ l.*1) as Hid by (apply list_elem_of_fmap; by exists (id, k)).
  destruct (t_erase_spec _ _ id I1 Hid) as (t & Et & Ht). unfold Destroy, lock. rewrite I8, bind_Ok. cbn [set_lock tcp_pcbs_].
  rewrite Et, bind_Ok. eexists. split; [done |]. split; [| by left].
  assert (forall x, x ∈ (filter (fun p => p.1 <> id) l).*1 -> x ∈ l.*1) as Hsub.
  { intros x (p & -> & [_ Hp]%list_elem_of_filter)%list_elem_of_fmap. apply list_elem_of_fmap. by exists p. }
  split; cbn [set_pcbs unlock set_lock tcp_port_allocator_ tcp_pcbs_ entries to_delete next_entry tcp_write_lock_ listening_tcp_pcbs_ listen_port]; try done.
  - eapply sublist_NoDup; [exact I2 |]. apply fmap_sublist, sublist_filter.
  - eapply sublist_NoDup; [exact I3 |]. apply fmap_sublist, sublist_filter.
  - intros x k' [_ Hx]%list_elem_of_filter. by apply I4.
  - intros x [->|Hx]%elem_of_cons.
    + split_and!.
      * intros (p & -> & [Hp _]%list_elem_of_filter)%list_elem_of_fmap. done.
      * intros Hf. by apply (I6' id Hf).
      * apply I7. destruct (I4 _ _ Hin) as (e & He & _). by exists e.
    + destruct (I5 x Hx) as (Hd1 & Hd2 & Hd3). split_and!; [| done | done]. intros Hy%Hsub. done.
  - split; [done |]. intros x Hx. destruct (I6' x Hx). split; [| done]. by intros Hy%Hsub.
Qed.

(** An operation of a connection fails only if it does so itself. *)
Lemma on_entry_inv s f l id k op : NetInv s f l -> (id, k) ∈ l -> (forall e b e' evs, op e = Ok (b, e', evs) -> ident e' = ident e) ->
  exists e, entries s !! id = Some e /\ match op e with
  | Ok (alive, e', evs) => exists s' l', on_entry id op s = Ok (s', evs) /\ NetInv s' f l' /\
      l' = (if alive then l else filter (fun p => p.1 <> id) l)
  | Fail err => on_entry id op s = Fail err
  end.
Proof.
  intros I Hin Hop. destruct (ni_entry _ _ _ I id k Hin) as (e & He & Hk). exists e. split; [done |]. unfold on_entry. rewrite He. cbn [deref].
  rewrite bind_Ok. destruct (op e) as [[[alive e'] evs]|err] eqn:Eo; [| done]. rewrite bind_Ok. apply Hop in Eo.
  assert (NetInv (set_entry id e' s) f l) as I' by (eapply set_entry_inv; [done | done |]; by injection Eo).
  destruct alive; [by exists (set_entry id e' s), l |]. destruct (Destroy_inv _ _ _ _ _ I' Hin) as (s' & -> & I'' & _). rewrite bind_Ok.
  by do 2 eexists.
Qed.

(** A new connection is put into the table, as the last one allocated or a fresh pcb. *)
Lemma link_inv s f1 id f2 l e k : NetInv s (f1 ++ id :: f2) l -> nodes_with k l = [] -> entries s !! id = Some e -> key e = k ->
  exists t, t_insert (tcp_pcbs_ s) id k = Ok t /\ NetInv (set_pcbs t s) (f1 ++ f2) ((id, k) :: l).
Proof.
  intros [I1 I2 I3 I4 I5 [I6 I6'] I7 I8 I9 I10] Hk He Hke. destruct (I6' id) as [Hid _]; [apply elem_of_app; right; by left |].
  destruct (t_insert_spec _ _ id k I1 Hid) as (t & Et & Ht). exists t. split; [done |].
  rewrite <- Permutation_middle in I6. apply NoDup_cons in I6 as [Hf I6].
  split; cbn [set_pcbs tcp_port_allocator_ tcp_pcbs_ entries to_delete next_entry tcp_write_lock_ listening_tcp_pcbs_ listen_port]; try done.
  - rewrite fmap_cons. by constructor.
  - rewrite fmap_cons. constructor; [| done]. intros ([x k'] & E & Hx)%list_elem_of_fmap. cbn in E. subst k'.
    assert (x ∈ nodes_with k l) as Hn by (apply list_elem_of_fmap; exists (x, k); split; [done |]; by apply list_elem_of_filter).
    rewrite Hk in Hn. by apply elem_of_nil in Hn.
  - intros x k' [[= -> ->]|Hx]%elem_of_cons; [by exists e | by apply I4].
  - intros x Hx. destruct (I5 x Hx) as (Hd1 & Hd2 & Hd3). rewrite fmap_cons, not_elem_of_cons. cbn [fst].
    rewrite elem_of_app, elem_of_cons in Hd2. rewrite elem_of_app. split_and!; [naive_solver | done | naive_solver | done].
  - split; [done |]. intros x Hx. destruct (I6' x) as [Ha Hb]; [rewrite elem_of_app, elem_of_cons; rewrite elem_of_app in Hx; tauto |].
    rewrite fmap_cons, not_elem_of_cons. split_and!; [by intros -> | done | done].
Qed.

Lemma set_ports_inv s f l p : NetInv s f l -> contains p 0 = false -> NetInv (set_ports p s) f l.
Proof. intros [? ? ? ? ? ? ? ? ? ?] Hp. by split. Qed.

Lemma take_port_inv s f l port bound s' : NetInv s f l -> take_port port s = Ok (bound, s') -> NetInv s' f l /\ bound <> 0.
Proof.
  intros I Ht. pose proof (ni_pool _ _ _ I) as Hp0. unfold take_port in Ht. destruct (Z.eqb_spec port 0) as [->|Hne].
  - destruct (Allocate (tcp_port_allocator_ s)) as [[ret|] ports] eqn:Ea; [| done]. injection Ht as <- <-. unfold Allocate in Ea.
    destruct (iset_is_empty (tcp_port_allocator_ s)) eqn:Ee; [done |]. injection Ea as <- <-. destruct (lower_spec _ Ee) as [Hl _].
    split; [| congruence]. apply set_ports_inv; [done |]. by rewrite sub_elem_spec, Hp0.
  - destruct (_ <=? _); [| by injection Ht as <- <-]. destruct (Reserve port (tcp_port_allocator_ s)) as [[|] ports] eqn:Er; [| done]. injection Ht as <- <-.
    split; [| done]. apply set_ports_inv; [done |]. unfold Reserve in Er. destruct (contains _ port); [| done]. injection Er as <-.
    by rewrite sub_elem_spec, Hp0.
Qed.

Lemma alloc_inv s f l e : NetInv s f l -> NetInv (alloc_entry e s).2 (next_entry s :: f) l.
Proof.
  intros [I1 I2 I3 I4 I5 [I6 I6'] I7 I8 I9 I10]. assert (next_entry s ∉ l.*1) as Hn.
  { intros ([x k] & E & Hx)%list_elem_of_fmap. cbn in E. subst x. destruct (I4 _ _ Hx) as (e0 & He0 & _).
    assert (next_entry s < next_entry s)%nat; [apply I7; by exists e0 | lia]. }
  split; cbn [alloc_entry snd tcp_port_allocator_ tcp_pcbs_ entries to_delete next_entry tcp_write_lock_ listening_tcp_pcbs_ listen_port]; try done.
  - intros x k Hx. destruct (I4 _ _ Hx) as (e0 & He0 & Hk). exists e0. rewrite lookup_insert_ne; [done |].
    intros <-. apply Hn, list_elem_of_fmap. by exists (next_entry s, k).
  - intros x Hx. destruct (I5 x Hx) as (? & ? & ?). rewrite not_elem_of_cons. split_and!; [done | lia | done | lia].
  - split.
    + constructor; [| done]. intros Hf. destruct (I6' _ Hf) as [_ Hs]. apply I7 in Hs. lia.
    + intros x [->|Hx]%elem_of_cons; rewrite ?lookup_insert_is_Some'; [split; [done | by left] |]. destruct (I6' x Hx). split; [done | by right].
  - intros x [<-|Hx%I7]%lookup_insert_is_Some'; lia.
Qed.

Lemma lock_inv s f l : NetInv s f l -> lock s = Ok (set_lock true s) /\ NetInv (unlock (set_lock true s)) f l /\ unlock (set_lock true s) = s.
Proof.
  intros I. unfold lock. rewrite (ni_lock _ _ _ I). split; [done |]. assert (unlock (set_lock true s) = s) as E.
  { pose proof (ni_lock _ _ _ I) as Hl. destruct s. cbn in *. by subst. }
  by rewrite E.
Qed.

(** Setting up the entry of a fresh pcb, with another key. *)
Lemma fresh_entry_inv s f l id e : NetInv s f l -> id ∈ f -> NetInv (set_entry id e s) f l.
Proof.
  intros [I1 I2 I3 I4 I5 [I6 I6'] I7 I8 I9 I10] Hf. destruct (I6' id Hf) as [Hn Hs].
  split; cbn [set_entry tcp_port_allocator_ tcp_pcbs_ entries to_delete next_entry tcp_write_lock_ listening_tcp_pcbs_ listen_port]; try done.
  - intros x k Hx. destruct (I4 _ _ Hx) as (e0 & He0 & Hk). exists e0. rewrite lookup_insert_ne; [done |].
    intros <-. apply Hn, list_elem_of_fmap. by exists (id, k).
  - split; [done |]. intros x Hx. destruct (I6' x Hx) as [? ?]. split; [done |]. rewrite lookup_insert_is_Some'. by right.
  - intros x [<-|Hx]%lookup_insert_is_Some'; by apply I7.
Qed.

Lemma find_none s f l k : NetInv s f l -> t_find (tcp_pcbs_ s) k = Ok None -> nodes_with k l = [].
Proof. intros I. rewrite (t_find_spec _ _ _ (ni_holds _ _ _ I)). intros [= E]. by destruct (nodes_with k l). Qed.
Lemma find_some s f l k id : NetInv s f l -> t_find (tcp_pcbs_ s) k = Ok (Some id) -> (id, k) ∈ l.
Proof.
  intros I Hk. rewrite (t_find_spec _ _ _ (ni_holds _ _ _ I)) in Hk. apply Ok_inj in Hk.
  assert (id ∈ nodes_with k l) as Hin by (destruct (nodes_with k l); [done | injection Hk as ->; by left]).
  apply list_elem_of_fmap in Hin as ([x k'] & -> & [<- ?]%list_elem_of_filter). done.
Qed.

Lemma unlock_set_pcbs s t : tcp_write_lock_ s = false -> unlock (set_pcbs t (set_lock true s)) = set_pcbs t s.
Proof. intros Hl. destruct s. cbn in *. by subst. Qed.

Lemma set_entry_twice s id e e' t : set_entry id e' (set_pcbs t (set_entry id e s)) = set_entry id e' (set_pcbs t s).
Proof. unfold set_entry, set_pcbs. cbn. by rewrite insert_insert_eq. Qed.

Lemma Connect_inv s f1 id f2 l itf addr port local_port iss now bound s' evs : NetInv s (f1 ++ id :: f2) l ->
  Connect id itf addr port local_port iss now s = Ok (bound, s', evs) ->
  exists k, NetInv s' (f1 ++ f2) ((id, k) :: l) /\ nodes_with k l = [].
Proof.
  intros I Hc. unfold Connect in Hc. destruct itf as [itf_addr|]; [| done].
  apply bind_ok in Hc as ([lp s1] & Htp & Hc). destruct (take_port_inv _ _ _ _ _ _ I Htp) as [I1 _].
  apply bind_ok in Hc as (a & _ & Hc). apply bind_ok in Hc as (e & He & Hc).
  set (e1 := connect_entry _ _ _ _ _ _) in Hc. destruct (lock_inv _ _ _ I1) as (El & _ & _). rewrite El, bind_Ok in Hc.
  apply bind_ok in Hc as (found & Hf & Hc). cbn [set_lock tcp_pcbs_] in Hf. destruct found; [done |].
  apply bind_ok in Hc as (t & Ht & Hc). cbn [set_lock tcp_pcbs_] in Ht. apply bind_ok in Hc as ([e2 evs2] & Ho & Hc).
  apply Ok_inj, pair_equal_spec in Hc as [[_ <-]%pair_equal_spec _].
  rewrite unlock_set_pcbs by apply (ni_lock _ _ _ I1). exists (key e1). split; [| by eapply find_none].
  assert (NetInv (set_entry id e1 s1) (f1 ++ id :: f2) l) as I2 by (apply fresh_entry_inv; [done |]; apply elem_of_app; right; by left).
  destruct (link_inv (set_entry id e1 s1) f1 id f2 l e1 (key e1) I2) as (t' & Ht' & I3);
    [by eapply find_none | cbn [set_entry entries]; by rewrite lookup_insert_eq | done |].
  cbn [set_entry tcp_pcbs_] in Ht'. rewrite Ht in Ht'. apply Ok_inj in Ht' as <-. rewrite <- (set_entry_twice s1 id e1).
  eapply set_entry_inv; [exact I3 | cbn [set_pcbs set_entry entries]; by rewrite lookup_insert_eq |]. apply PcbOutput_ident in Ho. by injection Ho.
Qed.

Lemma EntryReady_inv s f l id now s' evs : NetInv s f l -> EntryReady id now s = Ok (s', evs) -> NetInv s' f l.
Proof.
  intros I Hr. unfold EntryReady in Hr. destruct (entries s !! id) as [e|] eqn:He; [| done]. cbn [deref] in Hr. rewrite bind_Ok in Hr.
  apply bind_ok in Hr as ([e1 ev1] & Ho%PcbOutput_ident & Hr). injection Hr as <- <-. eapply set_entry_inv; [done | done |]. by injection Ho.
Qed.

Lemma EntryInput_inv s f l id k ih th info buf now s' evs : NetInv s f l -> (id, k) ∈ l -> EntryInput id ih th info buf now s = Ok (s', evs) ->
  exists l', NetInv s' f l'.
Proof.
  intros I Hin Hr. unfold EntryInput in Hr. destruct (on_entry_inv s f l id k (Input ih th info buf now) I Hin) as (e & He & Hm); [intros; by eapply Input_ident |].
  destruct (Input ih th info buf now e) as [[[al e'] ev]|]; [| by rewrite Hm in Hr]. destruct Hm as (s1 & l' & Hs & I' & _). rewrite Hs in Hr. injection Hr as -> _.
  by exists l'.
Qed.

Lemma EntryFire_inv s f l id k now s' evs : NetInv s f l -> (id, k) ∈ l -> EntryFire id now s = Ok (s', evs) -> exists l', NetInv s' f l'.
Proof.
  intros I Hin Hr. unfold EntryFire in Hr. destruct (on_entry_inv s f l id k (Fire now) I Hin) as (e & He & Hm); [intros; by eapply Fire_ident |].
  destruct (Fire now e) as [[[al e'] ev]|]; [| by rewrite Hm in Hr]. destruct Hm as (s1 & l' & Hs & I' & _). rewrite Hs in Hr. injection Hr as -> _.
  by exists l'.
Qed.

(** With the lock held, a connection can be found and used as long as it does not end. *)
Lemma locked_input s f l id k ih th info buf now s' evs : NetInv s f l -> (id, k) ∈ l ->
  EntryInput id ih th info buf now (set_lock true s) = Ok (s', evs) -> EntryInput id ih th info buf now s = Ok (unlock s', evs).
Proof.
  intros I Hin Hr. destruct (ni_entry _ _ _ I id k Hin) as (e & He & _). unfold EntryInput, on_entry in *. cbn [set_lock entries] in Hr.
  rewrite He in *. cbn [deref] in *. rewrite bind_Ok in *. destruct (Input ih th info buf now e) as [[[al e'] ev]|]; [| done]. rewrite bind_Ok in *.
  destruct al; [| done]. injection Hr as <- <-. pose proof (ni_lock _ _ _ I) as Hl. destruct s. cbn in *. by subst.
Qed.

Lemma ListenInput_inv s f l mine now seq garbage x ih th info buf s' evs tasks : NetInv s f l ->
  ListenInput mine now seq garbage x ih th info buf s = Ok (s', evs, tasks) -> exists l', NetInv s' f l'.
Proof.
  intros I Hr. unfold ListenInput in Hr. destruct (has _ kTcpRst); [injection Hr as <- <- <-; by exists l |].
  destruct (has _ kTcpAck); [injection Hr as <- <- <-; by exists l |]. destruct (_ =? kTcpSyn); [| injection Hr as <- <- <-; by exists l].
  set (e := accept_entry _ _ _ _ _ _) in Hr. destruct (lock_inv _ _ _ I) as (El & _ & _). rewrite El, bind_Ok in Hr.
  apply bind_ok in Hr as (found & Hf & Hr). cbn [set_lock tcp_pcbs_] in Hf. destruct found as [id|].
  - apply bind_ok in Hr as ([s1 ev1] & Hi & Hr). injection Hr as <- <- <-. pose proof (find_some _ _ _ _ _ I Hf) as Hin.
    eapply EntryInput_inv; [exact I | exact Hin |]. by eapply locked_input.
  - pose proof (find_none _ _ _ _ I Hf) as Hk. pose proof (alloc_inv s f l e I) as Ia. cbn [alloc_entry set_lock next_entry] in Hr.
    destruct (link_inv _ [] (next_entry s) f l e (key e) Ia) as (t & Ht & I2); [done | cbn [alloc_entry snd entries]; by rewrite lookup_insert_eq | done |].
    cbn [alloc_entry snd tcp_pcbs_] in Ht. cbn [tcp_pcbs_ set_lock] in Hr. rewrite Ht, bind_Ok in Hr.
    set (s2 := unlock _) in Hr. assert (s2 = set_pcbs t (alloc_entry e s).2) as E2.
    { pose proof (ni_lock _ _ _ I) as Hl. unfold s2, unlock, set_lock, set_pcbs, alloc_entry. cbn. by rewrite Hl. }
    rewrite <- E2 in I2. cbn [app] in I2. destruct (accept_fn x) as [acc|] eqn:Ea; [| done]. cbn [deref] in Hr. rewrite bind_Ok in Hr.
    apply bind_ok in Hr as ([e3 ev3] & Hacc & Hr). apply (accept_steps x acc) in Hacc; [| done]. apply pcb_steps_ident in Hacc.
    assert (NetInv (set_entry (next_entry s) e3 s2) f ((next_entry s, key e) :: l)) as I3.
    { eapply set_entry_inv; [exact I2 | rewrite E2; cbn [alloc_entry snd set_pcbs entries]; by rewrite lookup_insert_eq |]. by injection Hacc. }
    destruct (1 <? _); [done |]. destruct (_ =? _).
    + apply bind_ok in Hr as ([s4 ev4] & Hrd & Hr). injection Hr as <- <- <-. eexists. by eapply EntryReady_inv.
    + injection Hr as <- <- <-. by eexists.
Qed.

Lemma TcpDispatch_inv s f l mine now seq garbage ih th info buf s' evs tasks : NetInv s f l ->
  TcpDispatch mine now seq garbage ih th info buf s = Ok (s', evs, tasks) -> exists l', NetInv s' f l'.
Proof.
  intros I Hr. unfold TcpDispatch in Hr. apply bind_ok in Hr as (entry & Hf & Hr). destruct entry as [id|].
  - apply bind_ok in Hr as (e & _ & Hr). apply bind_ok in Hr as ([] & _ & Hr). destruct (_ =? _); [| injection Hr as <- <- <-; by exists l].
    apply bind_ok in Hr as ([s1 ev1] & Hi & Hr). injection Hr as <- <- <-. eapply EntryInput_inv; [done | by eapply find_some | done].
  - apply bind_ok in Hr as (lst & _ & Hr). destruct lst as [x|]; [by eapply ListenInput_inv |].
    destruct (has _ kTcpRst); injection Hr as <- <- <-; by exists l.
Qed.

Lemma ReceiveTcp_inv s f l mine now seq garbage addr ih buf s' evs tasks : NetInv s f l ->
  ReceiveTcp mine now seq garbage addr ih buf s = Ok (s', evs, tasks) -> exists l', NetInv s' f l'.
Proof.
  intros I Hr. unfold ReceiveTcp in Hr. destruct (_ <? _); [injection Hr as <- <- <-; by exists l |].
  apply bind_ok in Hr as (h & _ & Hr). apply bind_ok in Hr as (a & _ & Hr). destruct (_ || _); [injection Hr as <- <- <-; by exists l |].
  destruct (_ || _); [injection Hr as <- <- <-; by exists l |]. by eapply TcpDispatch_inv.
Qed.

Lemma set_listening_inv s f l t m ll : NetInv s f l -> holds t ll ->
  (forall x, x ∈ ll.*1 <-> exists port, m !! x = Some port /\ port <> 0) -> NetInv (set_listening t m s) f l.
Proof. intros [? ? ? ? ? ? ? ? ? ?] Ht Hm. split; try done. by exists ll. Qed.

Lemma ListenBind_inv s f l x port bound s' : NetInv s f l -> listen_port s !! x = Some 0 -> ListenBind x port s = Ok (bound, s') -> NetInv s' f l.
Proof.
  intros I Hx Hb. unfold ListenBind in Hb. apply bind_ok in Hb as ([p s1] & Htp & Hb). destruct (take_port_inv _ _ _ _ _ _ I Htp) as [I1 Hp].
  assert (listen_port s1 = listen_port s) as El.
  { unfold take_port in Htp. repeat case_match; try done; by injection Htp as <- <-. }
  destruct (ni_listen _ _ _ I1) as (ll & Hh & Hm). rewrite <- El in Hx.
  assert (x ∉ ll.*1) as Hn by (rewrite Hm; intros (q & Hq & Hq0); congruence).
  destruct (t_insert_spec _ _ x p Hh Hn) as (t & Et & Ht). rewrite Et, bind_Ok in Hb. injection Hb as <- <-.
  eapply set_listening_inv; [done | exact Ht |]. intros y. rewrite fmap_cons, elem_of_cons, Hm. cbn [fst].
  destruct (decide (y = x)) as [->|Hne].
  - rewrite lookup_insert_eq. split; [intros _; by exists p | by left].
  - rewrite lookup_insert_ne by done. tauto.
Qed.

Lemma ListenDelete_inv s f l x s' : NetInv s f l -> ListenDelete x s = Ok s' -> NetInv s' f l.
Proof.
  intros I Hd. unfold ListenDelete in Hd. destruct (listen_port s !! x) as [port|] eqn:Ex; [| done]. cbn [deref] in Hd. rewrite bind_Ok in Hd.
  destruct (ni_listen _ _ _ I) as (ll & Hh & Hm). destruct (Z.eqb_spec port 0) as [->|Hp].
  - injection Hd as <-. eapply set_listening_inv; [done | exact Hh |]. intros y. rewrite Hm.
    destruct (decide (y = x)) as [->|Hne]; [| by rewrite lookup_delete_ne]. rewrite lookup_delete_eq, Ex. split; by intros (q & [= ] & ?).
  - assert (x ∈ ll.*1) as Hx by (apply Hm; by exists port). destruct (t_erase_spec _ _ x Hh Hx) as (t & Et & Ht). cbn [set_ports listening_tcp_pcbs_] in Hd.
    rewrite Et, bind_Ok in Hd. injection Hd as <-. apply (set_listening_inv _ _ _ _ _ (filter (fun p => p.1 <> x) ll)); [| exact Ht |].
    + apply set_ports_inv; [done |]. unfold Free. rewrite add_elem_spec, (ni_pool _ _ _ I). cbn [orb]. by apply Z.eqb_neq.
    + intros y. assert (y ∈ (filter (fun p : nat * Z => p.1 <> x) ll).*1 <-> y ∈ ll.*1 /\ y <> x) as ->.
      { rewrite !list_elem_of_fmap. setoid_rewrite list_elem_of_filter. split; [intros (p & -> & ? & ?); split; [by exists p | done] |].
        intros ((p & -> & ?) & ?). by exists p. }
      rewrite Hm. setoid_rewrite lookup_delete_Some. naive_solver.
Qed.

Lemma delete_entry_inv s f l id : NetInv s f l -> id ∈ to_delete s -> NetInv (delete_entry id s) f l.
Proof.
  intros [I1 I2 I3 I4 I5 [I6 I6'] I7 I8 I9 I10] Hd. destruct (I5 id Hd) as (Hd1 & Hd2 & Hd3).
  split; cbn [delete_entry tcp_port_allocator_ tcp_pcbs_ entries to_delete next_entry tcp_write_lock_ listening_tcp_pcbs_ listen_port]; try done.
  - intros x k Hx. destruct (I4 x k Hx) as (e & He & Hk). exists e. rewrite lookup_delete_ne; [done |].
    intros <-. apply Hd1, list_elem_of_fmap. by exists (id, k).
  - intros x [_ Hx]%list_elem_of_filter. by apply I5.
  - split; [done |]. intros x Hx. destruct (I6' x Hx). rewrite lookup_delete_ne by (by intros <-). done.
  - intros x (e & [_ He]%lookup_delete_Some). apply I7. by exists e.
Qed.

Lemma net_step_inv p p' : net_step p p' -> (exists l, NetInv p.1 p.2 l) -> exists l, NetInv p'.1 p'.2 l.
Proof.
  destruct 1 as [s f x Hx|s f x port bound s' Hx Hb|s f x s' Hd|s f garbage|s f1 id f2 itf addr port lp iss now bound s' evs Hc
    |s f mine now seq garbage addr ih buf s' evs tasks Hr|s f id ih th info buf now s' evs Hl Hr|s f id now s' evs Hl Hr
    |s f id now s' evs Hl Hr|s f id e e' He Hp|s f id Hd]; intros [l I]; cbn [fst snd] in *.
  - exists l. destruct (ni_listen _ _ _ I) as (ll & Hh & Hm). eapply set_listening_inv; [done | exact Hh |]. intros y. rewrite Hm.
    destruct (decide (y = x)) as [->|Hne]; [| by rewrite lookup_insert_ne]. rewrite lookup_insert_eq, Hx. naive_solver.
  - exists l. by eapply ListenBind_inv.
  - exists l. by eapply ListenDelete_inv.
  - exists l. by apply alloc_inv.
  - destruct (Connect_inv _ _ _ _ _ _ _ _ _ _ _ _ _ _ I Hc) as (k & Hk & _). by eexists.
  - by eapply ReceiveTcp_inv.
  - destruct (linked_elem _ _ _ _ I Hl) as [k Hk]. by eapply EntryInput_inv.
  - exists l. by eapply EntryReady_inv.
  - destruct (linked_elem _ _ _ _ I Hl) as [k Hk]. by eapply EntryFire_inv.
  - exists l. apply pcb_step_ident in Hp. eapply set_entry_inv; [done | done |]. by injection Hp.
  - exists l. by apply delete_entry_inv.
Qed.

Lemma new_tcp_inv : NetInv new_tcp [] [].
Proof.
  split; cbn [new_tcp tcp_port_allocator_ tcp_pcbs_ entries to_delete next_entry tcp_write_lock_ listening_tcp_pcbs_ listen_port]; try done.
  - by apply t_new_spec.
  - constructor.
  - constructor.
  - by intros id k ?%elem_of_nil.
  - by intros id ?%elem_of_nil.
  - split; [constructor |]. by intros id ?%elem_of_nil.
  - intros id Hs. rewrite lookup_empty in Hs. by apply is_Some_None in Hs.
  - unfold pool_Create. by rewrite add_interval_spec, iempty_spec.
  - exists []. split; [by apply t_new_spec |]. intros x. split; [by intros ?%elem_of_nil |]. intros (p & Hp & _). by rewrite lookup_empty in Hp.
Qed.

Lemma reachable_NetInv p : rtc net_step (new_tcp, []) p -> exists l, NetInv p.1 p.2 l.
Proof.
  intros Hrun. assert (exists l, NetInv (new_tcp, [] : list nat).1 (new_tcp, [] : list nat).2 l) as Hi by (exists []; apply new_tcp_inv).
  induction Hrun as [|? ? ? Hs ? IH]; [done |]. by apply IH, (net_step_inv _ _ Hs).
Qed.

Lemma linked_find s f l id e : NetInv s f l -> linked id s -> entries s !! id = Some e -> t_find (tcp_pcbs_ s) (key e) = Ok (Some id).
Proof.
  intros I Hl He. destruct (linked_elem _ _ _ _ I Hl) as [k Hk]. destruct (ni_entry _ _ _ I _ _ Hk) as (e0 & He0 & Hke).
  assert (key e = k) as -> by congruence. rewrite (t_find_spec _ _ _ (ni_holds _ _ _ I)), (nodes_with_unique l id k); [done | apply (ni_keys _ _ _ I) | done].
Qed.

End Net.
