(* ===== verification/TcpHandshake.v ===== *)
(** * Opening a TCP connection between two nodes

    The segments of the three-way handshake, from [Connect] on one node and a
    listener on the other to an established connection on both, and the refusal
    of a connection to a port without a listener.  Segments travel as the bytes
    that are handed to and received from IP. *)

From S2P Require Import Prelude.
From S2P Require Import Checksum NetIp NetIpCorrect PortPool PcbTable Tcp TcpNet TcpSeq TcpSend TcpRecv TcpEdge TcpNetCorrect.

(** ** The bytes of a segment *)

Lemma be_words x : 0 <= x < 2 ^ 32 ->
  (u8 (Z.shiftr (Z.shiftr x 16) 8) * 256 + u8 (Z.shiftr x 16)) * 65536 + (u8 (Z.shiftr x 8) * 256 + u8 x) = x.
Proof.
  intros Hx. unfold u8, wrap. rewrite !Z.shiftr_div_pow2 by lia. change (2 ^ 8) with 256. change (2 ^ 16) with 65536.
  Z.to_euclidean_division_equations. lia.
Qed.

Lemma tcp_header_fields sp dp sq ak hf wnd ck ug rest :
  0 <= sp < 2 ^ 16 -> 0 <= dp < 2 ^ 16 -> 0 <= sq < 2 ^ 32 -> 0 <= ak < 2 ^ 32 -> 0 <= hf < 2 ^ 16 -> 0 <= wnd < 2 ^ 16 ->
  let h := tcp_header sp dp sq ak hf wnd ck ug ++ rest in
  read_TcpHeader h = mkTh hf wnd /\
  forall n, read_TcpInfo n h = mkInfo sp dp sq ak (n - HdrLen hf + (if has (Flags hf) (Z.lor kTcpFin kTcpSyn) then 1 else 0)).
Proof.
  intros Hsp Hdp Hsq Hak Hhf Hwnd h. assert (read_TcpHeader h = mkTh hf wnd) as E.
  { unfold read_TcpHeader. f_equal; by apply be_halves. }
  split; [done |]. intros n. unfold read_TcpInfo. rewrite E. cbn [th_hdrlen_flags].
  f_equal; try (by apply be_halves); by apply be_words.
Qed.

Section Net.
Context `{AppOk} `{ListenersOk} `{IntervalSet} `{TL : !Table Z} `{TC : !Table conn_key}.

(** A segment in one buffer is demultiplexed by the fields it was written with. *)
Lemma ReceiveTcp_run mine now seq0 garbage a ihb at_ pre sp dp sq ak hf wnd ck ug rest post s :
  0 <= sp < 2 ^ 16 -> 0 <= dp < 2 ^ 16 -> 0 <= sq < 2 ^ 32 -> 0 <= ak < 2 ^ 32 -> 0 <= hf < 2 ^ 16 -> 0 <= wnd < 2 ^ 16 ->
  itf_isBroadcast a (ip_dst_of ihb) = false -> isMulticast (ip_dst_of ihb) = false ->
  20 <= HdrLen hf <= 20 + Z.of_nat (length rest) ->
  ReceiveTcp mine now seq0 garbage (Some a) ihb [mkBuf at_ pre (tcp_header sp dp sq ak hf wnd ck ug ++ rest) post] s =
    TcpDispatch mine now seq0 garbage (mkAddrs (ip_src_of ihb) (ip_dst_of ihb)) (mkTh hf wnd)
      (mkInfo sp dp sq ak (20 + Z.of_nat (length rest) - HdrLen hf + (if has (Flags hf) (Z.lor kTcpFin kTcpSyn) then 1 else 0)))
      [tcp_header sp dp sq ak hf wnd ck ug ++ rest] s.
Proof.
  intros Hsp Hdp Hsq Hak Hhf Hwnd Hb Hm Hl.
  destruct (tcp_header_fields sp dp sq ak hf wnd ck ug (rest ++ post) Hsp Hdp Hsq Hak Hhf Hwnd) as [E1 E2].
  set (hdr := tcp_header sp dp sq ak hf wnd ck ug) in *. assert (length hdr = 20%nat) as Eh by done.
  unfold ReceiveTcp. assert (pkt_len [mkBuf at_ pre (hdr ++ rest) post] = 20 + Z.of_nat (length rest)) as ->.
  { unfold pkt_len, pkt_data. cbn [fmap list_fmap concat b_data]. rewrite app_nil_r, length_app, Eh. lia. }
  rewrite (proj2 (Z.ltb_ge _ _)) by (unfold sizeofTcpHeader; lia).
  assert (pkt_Get 20 [mkBuf at_ pre (hdr ++ rest) post] = Ok (hdr ++ rest ++ post)) as -> by (by rewrite app_assoc).
  rewrite bind_Ok. cbn [deref]. rewrite bind_Ok. cbn [ip_dst]. rewrite Hb, Hm. cbv iota beta delta [orb]. rewrite E1, E2. cbn [th_hdrlen_flags].
  rewrite (proj2 (Z.ltb_ge _ _)), (proj2 (Z.ltb_ge _ _)) by (unfold sizeofTcpHeader; lia). done.
Qed.
End Net.

(** ** The three segments, one connection at a time *)

(** The window field of an open window. *)
Definition open_wnd : Z := TcpWindow16 kTcpWnd.

(** An entry after sending its only segment [seg]. *)
Definition after_syn (now : Z) (timer : bool) (seg : TcpSegment) (e : TcpEntry) : TcpEntry :=
  set_timer_set timer (set_retransmit (now + kRetransmitDelay) (set_pending_segments [] (set_unacked_segments [seg]
    (set_rcv_last_acked (rcv_nxt e) e)))).

Lemma after_syn_key now b seg e : key (after_syn now b seg e) = key e.
Proof. done. Qed.
Lemma ready_key e : key (set_accepted true (InstallHandler e)) = key (InstallHandler e) /\ key (InstallHandler e) = key e.
Proof. done. Qed.

Definition timer_only (evs : list event) : Prop := forall ev, ev ∈ evs -> exists us, ev = TimerStart us.

Lemma SetTimer_timer now e : exists b evs, SetTimer now e = (set_timer_set b e, evs) /\ timer_only evs.
Proof.
  unfold SetTimer. destruct (timer_set e) eqn:E; [exists true, []; split; [by destruct e; cbn in *; subst | by intros ev ?%elem_of_nil] |].
  destruct (_ && _); [exists false, []; split; [by destruct e; cbn in *; subst | by intros ev ?%elem_of_nil] |].
  do 2 eexists. split; [done |]. intros ev ->%list_elem_of_singleton. by eexists.
Qed.

Lemma syn_output now e seg iss : pending_segments e = [seg] -> unacked_segments e = [] -> seg_seqno seg = iss -> tcp_len seg = 1 ->
  snd_una e = iss -> snd_nxt e = u32 (iss + 1) -> 0 < snd_wnd e < 2 ^ 31 ->
  exists b more, PcbOutput now e = Ok (after_syn now b seg e,
      Sent iss (rcv_nxt e) (Flags (seg_hdrlen_flags seg)) (TcpWindow16 (rcv_wnd e)) (HdrLen (seg_hdrlen_flags seg)) (seg_data seg) false :: more) /\
    timer_only more.
Proof.
  intros Ep Eu Es El Ea En Hw. assert (SendWindowRemaining e = snd_wnd e - 1) as Ew.
  { unfold SendWindowRemaining. rewrite En, Ea, u32_sub_l. replace (iss + 1 - iss) with 1 by lia. rewrite (u32_small 1) by lia. apply u32_small. lia. }
  unfold PcbOutput, Output. rewrite Ep. cbn [output_loop]. rewrite Es, El, En, Ew, u32_add_l.
  rewrite TcpSeqLEQ_spec, (proj2 (Z.leb_le _ _)) by lia. cbn [SendSegment]. rewrite bind_Ok. cbn [app]. rewrite bind_Ok.
  match goal with |- context [SetTimer now ?x] => destruct (SetTimer_timer now x) as (b & more & -> & Hm) end.
  exists b, more. split; [| done]. unfold after_syn. cbn [unacked_segments set_rcv_last_acked]. rewrite Eu, El, Es. done.
Qed.

Lemma connect_output itf remote port lport iss e now : 0 <= iss < 2 ^ 32 -> unacked_segments e = [] -> pending_segments e = [] ->
  let seg := mkSeg iss (SetHdrLenFlags 28 kTcpSyn) [] 1 in
  exists b more, PcbOutput now (connect_entry itf remote port lport iss e) =
      Ok (after_syn now b seg (connect_entry itf remote port lport iss e), Sent iss 0 kTcpSyn open_wnd 28 [] false :: more) /\ timer_only more.
Proof.
  intros Hi Hu Hp seg. set (sy := connect_entry itf remote port lport iss e).
  apply (syn_output now sy seg iss); try done. unfold sy, connect_entry, EnqueueSegment. cbn. by rewrite Hp.
Qed.

Lemma accept_output garbage mine ih th info seq now : 0 <= seq < 2 ^ 32 -> th_wnd th = open_wnd ->
  let e := set_accepted true (InstallHandler (accept_entry garbage mine ih th info seq)) in
  let seg := mkSeg seq (SetHdrLenFlags 28 (Z.lor kTcpSyn kTcpAck)) [] 1 in
  exists b more, PcbOutput now e =
      Ok (after_syn now b seg e, Sent seq (u32 (seqno info + 1)) (Z.lor kTcpSyn kTcpAck) open_wnd 28 [] false :: more) /\ timer_only more.
Proof.
  intros Hs Hw e seg. apply (syn_output now e seg seq); try done. unfold e, accept_entry, EnqueueSegment. cbn [snd_wnd]. cbn. by rewrite Hw.
Qed.

(** The segments among the events. *)
Definition is_sent (ev : event) : bool := match ev with Sent _ _ _ _ _ _ _ => true | _ => false end.
Definition sent_of (evs : list event) : list event := List.filter is_sent evs.

Lemma sent_of_timer evs : timer_only evs -> sent_of evs = [].
Proof.
  intros Ht. unfold sent_of. induction evs as [|ev evs IH]; [done |]. destruct (Ht ev) as [us ->]; [by left |]. apply IH. intros x Hx. apply Ht. by right.
Qed.

(** With nothing to send, Output acknowledges what was received. *)
Lemma Output_idle now e : pending_segments e = [] ->
  Output now e = if TcpSeqLT (rcv_last_acked e) (rcv_nxt e) then Ok (0, (SendEmptyAck e).1, (SendEmptyAck e).2) else Ok (0, e, []).
Proof. intros Hp. unfold Output. rewrite Hp. cbn [output_loop]. rewrite Hp. cbn [mbind outcome_bind]. by destruct (TcpSeqLT _ _). Qed.

(** Evaluate the fields of an entry that is built by assignments. *)
Ltac flat :=
  cbn [cpu address key unacked_segments pending_segments stashed_segments state snd_una snd_nxt snd_wnd snd_wl1 snd_wl2 rcv_nxt rcv_wnd
    rcv_last_acked close_window retransmit time_wait handler accepted window_notify timer_set set_cpu set_address set_key
    set_unacked_segments set_pending_segments set_stashed_segments set_state set_snd_una set_snd_nxt set_snd_wnd set_snd_wl1
    set_snd_wl2 set_rcv_nxt set_rcv_wnd set_rcv_last_acked set_close_window set_retransmit set_time_wait set_handler set_accepted
    set_window_notify set_timer_set].

Section Segments.
Context `{App} (Hsilent : forall u e, callback u e = Ok (e, [])).

Lemma call_silent u e : handler e = true -> call u e = Ok (e, [Up u]).
Proof. intros Hh. unfold call. by rewrite Hh, Hsilent. Qed.

(** The state of a connection that has just been established by [iss] and [irs]. *)
Record opened (iss irs : Z) (e : TcpEntry) : Prop := {
  op_state : state e = kEstablished;
  op_una : snd_una e = u32 (iss + 1);
  op_nxt : snd_nxt e = u32 (iss + 1);
  op_rcv : rcv_nxt e = u32 (irs + 1);
  op_unacked : unacked_segments e = [];
  op_pending : pending_segments e = []
}.

(** The acknowledgement of the SYN empties the queue. *)
Lemma ClearAcked_syn e seg iss : unacked_segments e = [seg] -> seg_seqno seg = iss -> tcp_len seg = 1 -> pending_segments e = [] ->
  exists rt tw evs, ClearAckedSegments (u32 (iss + 1)) e =
      (set_time_wait tw (set_retransmit rt (set_timer_set false (set_pending_segments [] (set_unacked_segments [] e)))), evs) /\ sent_of evs = [].
Proof.
  intros Hu Es El Hp. unfold ClearAckedSegments. rewrite Hu. cbn [clear_acked_segments]. unfold SeqLen. rewrite Es, El, TcpSeqGT_spec, Z.ltb_irrefl by lia.
  cbn [pending_segments set_unacked_segments set_pending_segments unacked_segments]. rewrite Hp. cbn [clear_acked_segments DisableTimers].
  do 3 eexists. split; [reflexivity |]. by destruct (timer_set _).
Qed.

(** An entry whose queue holds the SYN only and which is otherwise open. *)
Record opening (iss irs : Z) (e : TcpEntry) : Prop := {
  og_state : state e = kEstablished;
  og_una : snd_una e = u32 (iss + 1);
  og_nxt : snd_nxt e = u32 (iss + 1);
  og_rcv : rcv_nxt e = u32 (irs + 1);
  og_unacked : exists seg, unacked_segments e = [seg] /\ seg_seqno seg = iss /\ tcp_len seg = 1;
  og_pending : pending_segments e = [];
  og_handler : handler e = true
}.

Lemma ClearAcked_opening e iss irs : opening iss irs e ->
  exists e2 evs, ClearAckedSegments (u32 (iss + 1)) e = (e2, evs) /\ sent_of evs = [] /\ opened iss irs e2 /\ handler e2 = true /\
    rcv_last_acked e2 = rcv_last_acked e /\ rcv_wnd e2 = rcv_wnd e.
Proof.
  intros [P1 P2 P3 P4 (seg & P5 & Hs & Hl) P6 P7]. destruct (ClearAcked_syn e seg iss P5 Hs Hl P6) as (rt & tw & ev0 & Hc & Hev).
  do 2 eexists. split; [exact Hc |]. split_and!; [done | split; flat; done | flat; done..].
Qed.

(** The connection that was opened gets the SYN-ACK. *)
Lemma synack_receive ih sp dp iss irs e : 0 <= iss < 2 ^ 32 -> snd_una e = iss -> snd_nxt e = u32 (iss + 1) -> handler e = true ->
  pending_segments e = [] -> unacked_segments e = [mkSeg iss (SetHdrLenFlags 28 kTcpSyn) [] 1] ->
  exists e2 evs, ReceiveSynSent ih (mkTh (SetHdrLenFlags 28 (Z.lor kTcpSyn kTcpAck)) open_wnd) (mkInfo sp dp irs (u32 (iss + 1)) 1) e =
      Ok (true, e2, evs ++ [Up UpConnected]) /\ sent_of evs = [] /\ opened iss irs e2 /\ rcv_last_acked e2 = irs /\ rcv_wnd e2 = rcv_wnd e.
Proof.
  intros Hi Ea En Hh Hp Hu. unfold ReceiveSynSent. cbn [th_hdrlen_flags ackno seqno tcplen].
  assert (Flags (SetHdrLenFlags 28 (Z.lor kTcpSyn kTcpAck)) = 18) as -> by done.
  assert (has 18 kTcpAck = true) as -> by done. assert (has 18 kTcpRst = false) as -> by done. assert (has 18 kTcpSyn = true) as -> by done.
  assert (TcpSeqLEQ (u32 (iss + 1)) (snd_una e) = false) as ->.
  { replace (snd_una e) with (u32 iss) by (rewrite u32_small; [done | lia]). rewrite TcpSeqLEQ_spec by lia. apply Z.leb_gt. lia. }
  assert (TcpSeqGT (u32 (iss + 1)) (snd_nxt e) = false) as -> by (rewrite En, TcpSeqGT_spec by lia; apply Z.ltb_irrefl).
  cbn [andb orb]. rewrite Z.ltb_irrefl. set (e1 := update_window _ _ _).
  destruct (ClearAcked_opening e1 iss irs) as (e2 & ev0 & Hc & Hev & Ho & Hh2 & F1 & F2).
  { split; unfold e1, update_window; flat; try done. by eexists. }
  rewrite Hc, call_silent, bind_Ok by done. exists e2, ev0. by split_and!.
Qed.

Lemma synack_input ih sp dp iss irs buf now e : 0 <= iss < 2 ^ 32 -> 0 <= irs < 2 ^ 32 ->
  state e = kSynSent -> snd_una e = iss -> snd_nxt e = u32 (iss + 1) -> handler e = true -> rcv_wnd e = kTcpWnd ->
  pending_segments e = [] -> unacked_segments e = [mkSeg iss (SetHdrLenFlags 28 kTcpSyn) [] 1] ->
  exists e2 evs, Input ih (mkTh (SetHdrLenFlags 28 (Z.lor kTcpSyn kTcpAck)) open_wnd) (mkInfo sp dp irs (u32 (iss + 1)) 1) buf now e =
      Ok (true, e2, evs) /\ sent_of evs = [Sent (u32 (iss + 1)) (u32 (irs + 1)) kTcpAck open_wnd 20 [] false] /\ Up UpConnected ∈ evs /\
    opened iss irs e2.
Proof.
  intros Hi Hs Es Ea En Hh Hw Hp Hu. destruct (synack_receive ih sp dp iss irs e Hi Ea En Hh Hp Hu) as (e1 & ev1 & Hr & Hev & Ho & F1 & F2).
  unfold Input, Receive. rewrite bool_decide_eq_true_2, Hr, bind_Ok by done. cbv iota. destruct Ho as [P1 P2 P3 P4 P5 P6].
  rewrite Output_idle, P4, F1 by done.
  replace (TcpSeqLT irs) with (TcpSeqLT (u32 irs)) by (f_equal; apply u32_small; lia). rewrite TcpSeqLT_spec, (proj2 (Z.ltb_lt _ _)) by lia.
  rewrite bind_Ok. destruct (SetTimer_timer now (SendEmptyAck e1).1) as (b & more & -> & Hm).
  do 2 eexists. split; [done |]. split_and!.
  - unfold sent_of in *. rewrite !List.filter_app, Hev. fold (sent_of more). rewrite (sent_of_timer _ Hm).
    cbn [SendEmptyAck snd snd_nxt rcv_wnd rcv_nxt set_rcv_last_acked List.filter is_sent app]. by rewrite P3, P4, F2, Hw.
  - rewrite !elem_of_app. left. right. by left.
  - by split.
Qed.

Lemma ack_established th info now seg iss irs e1 : 0 <= iss < 2 ^ 32 -> ackno info = u32 (iss + 1) -> state e1 = kEstablished ->
  unacked_segments e1 = [seg] -> seg_seqno seg = iss -> tcp_len seg = 1 ->
  pending_segments e1 = [] -> snd_una e1 = iss -> snd_nxt e1 = u32 (iss + 1) -> rcv_nxt e1 = u32 (irs + 1) -> handler e1 = true ->
  exists e2 evs, (let e := set_snd_una (ackno info) e1 in
          let e :=
            if TcpSeqBetween (ackno info) (u32 (snd_una e + 1)) (snd_nxt e) || TcpSeqLT (snd_wl1 e) (seqno info) ||
               ((snd_wl1 e =? seqno info) && TcpSeqLEQ (snd_wl2 e) (ackno info))
            then update_window th info e else e in
          let '(e, ev1) := ClearAckedSegments (ackno info) e in
          '(e, ev2) ← (if window_notify e then call UpSendWindowIncrease e else Ok (e, []));
          let '(e, ev3) := ack_closing info now e in
          Ok (Next, e, ev1 ++ ev2 ++ ev3)) = Ok (Next, e2, evs) /\
    sent_of evs = [] /\ opened iss irs e2 /\ rcv_last_acked e2 = rcv_last_acked e1 /\ rcv_wnd e2 = rcv_wnd e1.
Proof.
  intros Hi Hack Es Hu Hs Hl Hp Ha Hn Hr Hh. cbv zeta. rewrite Hack.
  match goal with |- context [ClearAckedSegments _ ?x] => set (e2 := x) end.
  destruct (ClearAcked_opening e2 iss irs) as (e3 & ev0 & Hc & Hev & Ho & Hh2 & F1 & F2).
  { unfold e2. destruct (_ || _); (split; unfold update_window; flat; [done.. | by eexists | done | done]). }
  assert (rcv_last_acked e2 = rcv_last_acked e1 /\ rcv_wnd e2 = rcv_wnd e1) as [G1 G2] by (unfold e2; destruct (_ || _); unfold update_window; by flat).
  rewrite Hc. assert (exists ev1, (if window_notify e3 then call UpSendWindowIncrease e3 else Ok (e3, [])) = Ok (e3, ev1) /\ sent_of ev1 = []) as (ev1 & -> & Hev1).
  { destruct (window_notify e3); [rewrite call_silent by done |]; by eexists. }
  rewrite bind_Ok. unfold ack_closing. rewrite (op_state _ _ _ Ho). do 2 eexists. split; [done |]. split_and!; [| done | congruence | congruence].
  unfold sent_of in *. by rewrite !List.filter_app, Hev, Hev1.
Qed.

(** The listener's connection gets the acknowledgement of its SYN-ACK. *)
Lemma ack_phase ih sp dp iss irs now e seg : 0 <= iss < 2 ^ 32 -> state e = kSynReceived -> snd_una e = iss -> snd_nxt e = u32 (iss + 1) ->
  handler e = true -> rcv_nxt e = u32 (irs + 1) -> pending_segments e = [] -> unacked_segments e = [seg] -> seg_seqno seg = iss -> tcp_len seg = 1 ->
  exists e2 evs, AckPhase ih (mkTh (SetHdrLenFlags 20 kTcpAck) open_wnd) (mkInfo sp dp (u32 (irs + 1)) (u32 (iss + 1)) 0) now e = Ok (Next, e2, evs) /\
    sent_of evs = [] /\ opened iss irs e2 /\ rcv_last_acked e2 = rcv_last_acked e /\ rcv_wnd e2 = rcv_wnd e.
Proof.
  intros Hi Es Ea En Hh Er Hp Hu Hs Hl. unfold AckPhase. cbn [th_hdrlen_flags ackno seqno].
  assert (Flags (SetHdrLenFlags 20 kTcpAck) = 16) as -> by done.
  assert (has 16 kTcpAck = true) as -> by done. assert (has 16 kTcpSyn = false) as -> by done. assert (has 16 kTcpRst = false) as -> by done.
  rewrite Er, TcpSeqGEQ_spec, Z.leb_refl by lia. rewrite (bool_decide_eq_true_2 (state e = kSynReceived)) by done.
  assert (snd_una e = u32 iss) as Ea' by (rewrite u32_small; [done | lia]). rewrite Ea', u32_add_l, En.
  rewrite TcpSeqBetween_spec, Z.leb_refl by lia. cbn [andb negb].
  set (e1 := update_window _ _ _). assert (state e1 = kEstablished /\ snd_una e1 = u32 iss /\ snd_nxt e1 = u32 (iss + 1)) as (E1 & E2 & E3) by done.
  rewrite E1, E2, E3. rewrite TcpSeqBetween_spec, Z.leb_refl by lia.
  change (state_num kEstablished <=? state_num kClosing) with true. cbv iota.
  destruct (ack_established (mkTh (SetHdrLenFlags 20 kTcpAck) open_wnd) (mkInfo sp dp (u32 (irs + 1)) (u32 (iss + 1)) 0) now seg iss irs e1) as (e2 & evs & Hr & Hrest);
    [done.. |]. exists e2, evs. split; [exact Hr | exact Hrest].
Qed.

Lemma ack_input ih sp dp iss irs hdr now e seg : 0 <= iss < 2 ^ 32 -> length hdr = 20%nat -> state e = kSynReceived -> snd_una e = iss ->
  snd_nxt e = u32 (iss + 1) -> handler e = true -> rcv_nxt e = u32 (irs + 1) -> rcv_last_acked e = u32 (irs + 1) -> rcv_wnd e = kTcpWnd ->
  pending_segments e = [] -> unacked_segments e = [seg] -> seg_seqno seg = iss -> tcp_len seg = 1 ->
  exists e2 evs, Input ih (mkTh (SetHdrLenFlags 20 kTcpAck) open_wnd) (mkInfo sp dp (u32 (irs + 1)) (u32 (iss + 1)) 0) [hdr] now e = Ok (true, e2, evs) /\
    sent_of evs = [] /\ opened iss irs e2.
Proof.
  intros Hi Hhdr Es Ea En Hh Er Era Hw Hp Hu Hs Hl.
  destruct (ack_phase ih sp dp iss irs now e seg Hi Es Ea En Hh Er Hp Hu Hs Hl) as (e1 & ev1 & Hr & Hev & Ho & F1 & F2). rewrite Hw in F2. rewrite Era in F1.
  unfold Input, Receive. rewrite bool_decide_eq_false_2, Hr, bind_Ok by (rewrite Es; done). cbv iota.
  unfold SeqPhase, acceptable. cbn [th_hdrlen_flags ackno seqno tcplen]. rewrite F2, (op_rcv _ _ _ Ho).
  rewrite u32_add_l, TcpSeqBetween_spec by (change kTcpWnd with 2097152; lia). rewrite (proj2 (Z.leb_le _ _)) by (change kTcpWnd with 2097152; lia).
  change (0 <? kTcpWnd) with true. cbn [andb orb]. rewrite TcpSeqGT_spec, Z.ltb_irrefl by lia. rewrite bind_Ok.
  assert (Flags (SetHdrLenFlags 20 kTcpAck) = 16) as Ef by done. rewrite Ef.
  assert (has 16 kTcpAck = true) as -> by done. assert (has 16 kTcpSyn = false) as -> by done. assert (has 16 kTcpRst = false) as -> by done.
  assert (has 16 kTcpUrg = false) as -> by done. cbn [negb]. unfold Payload. cbn [th_hdrlen_flags].
  assert (HdrLen (SetHdrLenFlags 20 kTcpAck) = 20) as -> by done. unfold buf_len. cbn [concat]. rewrite app_nil_r, Hhdr.
  change (u64 (Z.of_nat 20 - 20) <=? 0) with true. cbv iota. rewrite bind_Ok. unfold Fin. cbn [th_hdrlen_flags]. rewrite Ef.
  assert (has 16 kTcpFin = false) as -> by done. cbn [negb]. rewrite !bind_Ok. destruct Ho as [P1 P2 P3 P4 P5 P6].
  rewrite Output_idle, P4, F1, TcpSeqLT_spec, Z.ltb_irrefl by (done || lia). rewrite bind_Ok.
  destruct (SetTimer_timer now e1) as (b & more & -> & Hm). do 2 eexists. split; [done |]. split; [| by split].
  unfold sent_of in *. rewrite !List.filter_app, Hev. fold (sent_of more). by rewrite (sent_of_timer _ Hm).
Qed.
End Segments.

(** ** The network manager of each node *)

Section Nodes.
Context `{AppOk} `{ListenersOk} `{IntervalSet} `{TL : !Table Z} `{TC : !Table conn_key}.
Implicit Type s : TcpNet.

(** A segment for a connection of this core. *)
Lemma dispatch_connected s f l id (k : conn_key) e e2 mine now seq0 garbage ih th info buf evs : NetInv s f l -> (id, k) ∈ l -> entries s !! id = Some e ->
  accepted e = true -> cpu e = mine -> (ip_src ih, src_port info, dst_port info) = k -> Input ih th info buf now e = Ok (true, e2, evs) ->
  TcpDispatch mine now seq0 garbage ih th info buf s = Ok (set_entry id e2 s, evs, []) /\ NetInv (set_entry id e2 s) f l.
Proof.
  intros I Hin He Hacc Hcpu Hk Hi. split.
  - unfold TcpDispatch. rewrite Hk, (t_find_spec _ _ _ (ni_holds _ _ _ I)), (nodes_with_unique l id k) by (apply (ni_keys _ _ _ I) || done).
    rewrite bind_Ok. cbn [hd_error]. rewrite He. cbn [deref]. rewrite bind_Ok, Hacc. cbn [kassert]. rewrite bind_Ok, Hcpu, Z.eqb_refl.
    unfold EntryInput, on_entry. rewrite He. cbn [deref]. rewrite bind_Ok, Hi, !bind_Ok. done.
  - eapply set_entry_inv; [done | done |]. apply Input_ident in Hi. by injection Hi.
Qed.

(** The first step of the one that connects. *)
Lemma Connect_run s f1 id f2 l e a remote port lp lport iss now s0 : NetInv s (f1 ++ id :: f2) l -> entries s !! id = Some e ->
  unacked_segments e = [] -> pending_segments e = [] -> 0 <= iss < 2 ^ 32 -> take_port lp s = Ok (lport, s0) ->
  nodes_with (K := conn_key) (remote, port, lport) l = [] ->
  exists s1 b more, Connect id (Some (Some a)) remote port lp iss now s = Ok (lport, s1, Sent iss 0 kTcpSyn open_wnd 28 [] false :: more) /\
    timer_only more /\ NetInv s1 (f1 ++ f2) ((id, (remote, port, lport)) :: l) /\
    entries s1 !! id = Some (after_syn now b (mkSeg iss (SetHdrLenFlags 28 kTcpSyn) [] 1) (connect_entry (itf_address a) remote port lport iss e)).
Proof.
  intros I He Hu Hp Hi Ht Hk. destruct (connect_output (itf_address a) remote port lport iss e now Hi Hu Hp) as (b & more & Ho & Hm).
  destruct (take_port_inv _ _ _ _ _ _ I Ht) as [I0 _]. assert (entries s0 = entries s) as Es.
  { unfold take_port in Ht. repeat case_match; try done; by injection Ht as <- <-. }
  set (e1 := connect_entry (itf_address a) remote port lport iss e) in *.
  assert (NetInv (set_entry id e1 s0) (f1 ++ id :: f2) l) as I2 by (apply fresh_entry_inv; [done |]; apply elem_of_app; right; by left).
  destruct (link_inv (set_entry id e1 s0) f1 id f2 l e1 (key e1) I2) as (t & Et & I3);
    [done | cbn [set_entry entries]; by rewrite lookup_insert_eq | done |].
  change (tcp_pcbs_ (set_entry id e1 s0)) with (tcp_pcbs_ s0) in Et.
  do 3 eexists. split_and!; [| exact Hm | |].
  - unfold Connect. rewrite Ht, bind_Ok. cbn [deref]. rewrite bind_Ok, Es, He. cbn [deref]. rewrite bind_Ok. fold e1.
    destruct (lock_inv _ _ _ I0) as (-> & _ & _). rewrite bind_Ok. cbn [set_lock tcp_pcbs_].
    change (key e1) with (remote, port, lport) in *. rewrite (t_find_spec _ _ _ (ni_holds _ _ _ I0)), Hk, bind_Ok. cbn [hd_error].
    rewrite Et, bind_Ok, Ho, bind_Ok. rewrite unlock_set_pcbs by apply (ni_lock _ _ _ I0). reflexivity.
  - rewrite <- (set_entry_twice s0 id e1). eapply set_entry_inv; [exact I3 | cbn [set_pcbs set_entry entries]; by rewrite lookup_insert_eq | done].
  - cbn [set_entry entries]. apply lookup_insert_eq.
Qed.

(** The listener answers a SYN. *)
Lemma dispatch_syn s f l lst mine now seq garbage ih irs sp dp buf : NetInv s f l -> nodes_with (K := conn_key) (ip_src ih, sp, dp) l = [] ->
  t_find (listening_tcp_pcbs_ s) dp = Ok (Some lst) -> accept_fn lst = Some (fun e => Ok (InstallHandler e, [])) -> 0 <= seq < 2 ^ 32 ->
  let th := mkTh (SetHdrLenFlags 28 kTcpSyn) open_wnd in let info := mkInfo sp dp irs 0 1 in
  let e := set_accepted true (InstallHandler (accept_entry garbage mine ih th info seq)) in
  exists s1 b more, TcpDispatch mine now seq garbage ih th info buf s =
      Ok (s1, Sent seq (u32 (irs + 1)) (Z.lor kTcpSyn kTcpAck) open_wnd 28 [] false :: more, []) /\
    timer_only more /\ NetInv s1 f ((next_entry s, (ip_src ih, sp, dp)) :: l) /\
    entries s1 !! next_entry s = Some (after_syn now b (mkSeg seq (SetHdrLenFlags 28 (Z.lor kTcpSyn kTcpAck)) [] 1) e).
Proof.
  intros I Hk Hl Ha Hs th info e. set (e0 := accept_entry garbage mine ih th info seq) in *.
  destruct (accept_output garbage mine ih th info seq now Hs eq_refl) as (b & more & Ho & Hm). fold e0 in Ho. fold e in Ho.
  pose proof (alloc_inv s f l e0 I) as Ia.
  destruct (link_inv _ [] (next_entry s) f l e0 (key e0) Ia) as (t & Et & I2); [done | cbn [alloc_entry snd entries]; by rewrite lookup_insert_eq | done |].
  change (tcp_pcbs_ (alloc_entry e0 s).2) with (tcp_pcbs_ s) in Et. cbn [app] in I2.
  do 3 eexists. split_and!; [| exact Hm | |].
  - unfold TcpDispatch. cbn [src_port dst_port info]. rewrite (t_find_spec _ _ _ (ni_holds _ _ _ I)), Hk, bind_Ok. cbn [hd_error]. rewrite Hl, bind_Ok.
    unfold ListenInput. assert (Flags (th_hdrlen_flags th) = 2) as -> by done. assert (has 2 kTcpRst = false) as -> by done.
    assert (has 2 kTcpAck = false) as -> by done. assert (2 =? kTcpSyn = true) as -> by done. fold e0.
    destruct (lock_inv _ _ _ I) as (-> & _ & _). rewrite bind_Ok. cbn [set_lock tcp_pcbs_].
    change (key e0) with (ip_src ih, sp, dp) in *. rewrite (t_find_spec _ _ _ (ni_holds _ _ _ I)), Hk, bind_Ok. cbn [hd_error alloc_entry set_lock next_entry tcp_pcbs_].
    rewrite Et, bind_Ok, Ha. cbn [deref]. rewrite !bind_Ok. cbn [tcplen info]. rewrite Z.ltb_irrefl.
    assert (cpu (InstallHandler e0) = mine) as -> by done. rewrite Z.eqb_refl. unfold EntryReady. cbn [set_entry entries]. rewrite lookup_insert_eq. cbn [deref].
    rewrite bind_Ok. fold e. rewrite Ho, !bind_Ok. reflexivity.
  - match goal with |- NetInv (set_entry _ _ (set_entry _ _ ?x)) _ _ => assert (x = set_pcbs t (alloc_entry e0 s).2) as -> end.
    { pose proof (ni_lock _ _ _ I) as Hlk. unfold unlock, set_lock, set_pcbs, alloc_entry. cbn. by rewrite Hlk. }
    assert (entries (set_pcbs t (alloc_entry e0 s).2) !! next_entry s = Some e0) as He0 by (cbn [alloc_entry snd set_pcbs entries]; apply lookup_insert_eq).
    eapply set_entry_inv; [eapply set_entry_inv; [exact I2 | exact He0 | apply ready_key] | cbn [set_entry entries]; apply lookup_insert_eq |].
    rewrite after_syn_key. apply ready_key.
  - cbn [set_entry entries]. apply lookup_insert_eq.
Qed.

(** A segment that one node hands to IP is demultiplexed by the other one by its fields. *)
Lemma segment_received mine now seq0 garbage a ihb at_ pre post remote rport lport local seq ack h flags wnd data at2 room s :
  0 <= rport < 2 ^ 16 -> 0 <= lport < 2 ^ 16 -> 0 <= seq < 2 ^ 32 -> 0 <= ack < 2 ^ 32 -> h = 5 \/ h = 7 -> 0 <= flags < 64 -> 0 <= wnd < 2 ^ 16 ->
  itf_isBroadcast a (ip_dst_of ihb) = false -> isMulticast (ip_dst_of ihb) = false ->
  exists bytes, length bytes = (Z.to_nat (h * 4) + length data)%nat /\
  ReceiveTcp mine now seq0 garbage (Some a) ihb
      [mkBuf at_ pre (pkt_data (segment_packet (remote, rport, lport) local seq ack flags wnd (h * 4) data at2 room)) post] s =
    TcpDispatch mine now seq0 garbage (mkAddrs (ip_src_of ihb) (ip_dst_of ihb)) (mkTh (SetHdrLenFlags (h * 4) flags) wnd)
      (mkInfo lport rport seq ack (Z.of_nat (length data) + (if has flags (Z.lor kTcpFin kTcpSyn) then 1 else 0))) [bytes] s.
Proof.
  intros Hr Hl Hs Ha Hh Hf Hw Hb Hm. unfold segment_packet. set (ck := OffloadPseudoCsum _ _ _ _).
  set (options := if h * 4 =? sizeofTcpHeader then [] else syn_options).
  assert (Z.of_nat (length options) = h * 4 - 20) as Eo by (unfold options; destruct Hh as [-> | ->]; done).
  assert (HdrLen (SetHdrLenFlags (h * 4) flags) = h * 4) as El by (apply HdrLen_set; lia).
  assert (Flags (SetHdrLenFlags (h * 4) flags) = flags) as Ef by (apply Flags_set; lia).
  assert (0 <= SetHdrLenFlags (h * 4) flags < 2 ^ 16) by (rewrite SetHdrLenFlags_val; lia).
  unfold pkt_data. cbn [fmap list_fmap concat b_data]. rewrite app_nil_r. rewrite ReceiveTcp_run, El, Ef by (done || rewrite ?El, length_app; lia).
  replace (20 + Z.of_nat (length (options ++ data)) - h * 4) with (Z.of_nat (length data)) by (rewrite length_app; lia).
  eexists. split; [| reflexivity]. rewrite !length_app. change (length (tcp_header _ _ _ _ _ _ _ _)) with 20%nat. lia.
Qed.

Lemma conn_linked s f l id k : NetInv s f l -> (id, k) ∈ l -> t_find (tcp_pcbs_ s) k = Ok (Some id).
Proof.
  intros I Hin. rewrite (t_find_spec _ _ _ (ni_holds _ _ _ I)), (nodes_with_unique l id k); [done | apply (ni_keys _ _ _ I) | done].
Qed.

Lemma client_waits itf remote port lport iss e now b : handler e = true ->
  let e1 := after_syn now b (mkSeg iss (SetHdrLenFlags 28 kTcpSyn) [] 1) (connect_entry itf remote port lport iss e) in
  state e1 = kSynSent /\ snd_una e1 = iss /\ snd_nxt e1 = u32 (iss + 1) /\ handler e1 = true /\ rcv_wnd e1 = kTcpWnd /\
  pending_segments e1 = [] /\ unacked_segments e1 = [mkSeg iss (SetHdrLenFlags 28 kTcpSyn) [] 1] /\ accepted e1 = true /\ cpu e1 = cpu e.
Proof. intros Hh e1. unfold e1, after_syn, connect_entry, EnqueueSegment. flat. split_and!; done. Qed.

Lemma server_waits garbage mine ih th info seq now b : let seg := mkSeg seq (SetHdrLenFlags 28 (Z.lor kTcpSyn kTcpAck)) [] 1 in
  let e1 := after_syn now b seg (set_accepted true (InstallHandler (accept_entry garbage mine ih th info seq))) in
  state e1 = kSynReceived /\ snd_una e1 = seq /\ snd_nxt e1 = u32 (seq + 1) /\ handler e1 = true /\ rcv_nxt e1 = u32 (seqno info + 1) /\
  rcv_last_acked e1 = u32 (seqno info + 1) /\ rcv_wnd e1 = kTcpWnd /\ pending_segments e1 = [] /\ unacked_segments e1 = [seg] /\ accepted e1 = true /\
  cpu e1 = mine.
Proof. intros seg e1. unfold e1, after_syn, accept_entry, EnqueueSegment, InstallHandler, new_TcpEntry. flat. split_and!; done. Qed.

(** The bytes of a segment that is sent. *)
Definition wire (k : conn_key) (local : Ipv4Address) (ev : event) (at_ : Z) (room : list Z) : list Z :=
  match ev with Sent seq ack flags wnd hdr data _ => pkt_data (segment_packet k local seq ack flags wnd hdr data at_ room) | _ => [] end.

(** An interface that takes what is sent to its own address. *)
Definition unicast_itf (a : ItfAddress) : Prop := itf_isBroadcast a (itf_address a) = false /\ isMulticast (itf_address a) = false.

(** A node that is going to connect: the pcb [id] is fresh, has a handler and is
    bound to core [core]; the local port is chosen and the connection is new. *)
Record client (s : TcpNet) (f1 : list nat) (id : nat) (f2 : list nat) (l : list (nat * conn_key)) (core lp lport : Z) (k : conn_key) : Prop := {
  cl_inv : NetInv s (f1 ++ id :: f2) l;
  cl_entry : exists e, entries s !! id = Some e /\ unacked_segments e = [] /\ pending_segments e = [] /\ handler e = true /\ cpu e = core;
  cl_port : exists s0, take_port lp s = Ok (lport, s0);
  cl_new : nodes_with k l = []
}.
(** A node that listens on the port; its accept function installs a handler. *)
Record server (s : TcpNet) (f : list nat) (l : list (nat * conn_key)) (lst : nat) (port : Z) (k : conn_key) : Prop := {
  sv_inv : NetInv s f l;
  sv_listener : t_find (listening_tcp_pcbs_ s) port = Ok (Some lst);
  sv_accept : accept_fn lst = Some (fun e => Ok (InstallHandler e, []));
  sv_new : nodes_with k l = []
}.

(** C2. A connect to a port that is listened on establishes the connection on both
    nodes in three segments, which travel as bytes: the sequence numbers of the
    two ends agree, no segment is left to be acknowledged, and both tables find
    the connection. *)
Theorem handshake_establishes aA aB hAB hBA sA f1 idA f2 lA coreA lp lport sB fB lB lst port coreB iss irs now garbage :
  (forall u e, callback u e = Ok (e, [])) ->
  let ipA := itf_address aA in let ipB := itf_address aB in let kA := (ipB, port, lport) in let kB := (ipA, lport, port) in
  client sA f1 idA f2 lA coreA lp lport kA -> server sB fB lB lst port kB ->
  0 <= iss < 2 ^ 32 -> 0 <= irs < 2 ^ 32 -> 0 <= lport < 2 ^ 16 -> 0 <= port < 2 ^ 16 -> unicast_itf aA -> unicast_itf aB ->
  ip_src_of hAB = ipA -> ip_dst_of hAB = ipB -> ip_src_of hBA = ipB -> ip_dst_of hBA = ipA ->
  exists sA1 sA2 sB1 sB2 ev1 ev2 ev3 ev4 syn synack ack eA eB, let idB := next_entry sB in
    Connect idA (Some (Some aA)) ipB port lp iss now sA = Ok (lport, sA1, ev1) /\ sent_of ev1 = [syn] /\
    ReceiveTcp coreB now irs garbage (Some aB) hAB [mkBuf 0 [] (wire kA ipA syn 0 []) []] sB = Ok (sB1, ev2, []) /\ sent_of ev2 = [synack] /\
    ReceiveTcp coreA now 0 garbage (Some aA) hBA [mkBuf 0 [] (wire kB ipB synack 0 []) []] sA1 = Ok (sA2, ev3, []) /\ sent_of ev3 = [ack] /\
    ReceiveTcp coreB now 0 garbage (Some aB) hAB [mkBuf 0 [] (wire kA ipA ack 0 []) []] sB1 = Ok (sB2, ev4, []) /\ sent_of ev4 = [] /\
    entries sA2 !! idA = Some eA /\ opened iss irs eA /\ t_find (tcp_pcbs_ sA2) kA = Ok (Some idA) /\
    entries sB2 !! idB = Some eB /\ opened irs iss eB /\ t_find (tcp_pcbs_ sB2) kB = Ok (Some idB).
Proof.
  intros Hsil ipA ipB kA kB [IA (e & He & Hu & Hp & Hh & Hc) (s0 & Ht) Hk] [IB Hlst Hacc HkB] Hi Hr Hlp Hpt [HA1 HA2] [HB1 HB2] E1 E2 E3 E4.
  assert (0 <= open_wnd < 2 ^ 16) as Hw by done.
  destruct (Connect_run sA f1 idA f2 lA e aA ipB port lp lport iss now s0 IA He Hu Hp Hi Ht Hk) as (sA1 & b1 & m1 & R1 & M1 & IA1 & EA1).
  fold ipA in EA1. set (eA1 := after_syn _ _ _ _) in EA1.
  destruct (segment_received coreB now irs garbage aB hAB 0 [] [] ipB port lport ipA iss 0 7 kTcpSyn open_wnd [] 0 [] sB) as (y1 & _ & R2);
    [done.. | by right | done | done | by rewrite E2 | by rewrite E2 |].
  destruct (dispatch_syn sB fB lB lst coreB now irs garbage (mkAddrs (ip_src_of hAB) (ip_dst_of hAB)) iss lport port [y1] IB) as (sB1 & b2 & m2 & D2 & M2 & IB1 & EB1);
    [cbn [ip_src]; by rewrite E1 | done | done | done |].
  destruct (client_waits ipA ipB port lport iss e now b1 Hh) as (A1 & A2 & A3 & A4 & A5 & A6 & A7 & A8 & A9). fold eA1 in A1, A2, A3, A4, A5, A6, A7, A8, A9.
  clearbody eA1. rewrite Hc in A9.
  destruct (segment_received coreA now 0 garbage aA hBA 0 [] [] ipA lport port ipB irs (u32 (iss + 1)) 7 (Z.lor kTcpSyn kTcpAck) open_wnd [] 0 [] sA1)
    as (y2 & _ & R3); [done | done | done | apply u32_range | by right | done | done | by rewrite E4 | by rewrite E4 |].
  destruct (synack_input Hsil (mkAddrs (ip_src_of hBA) (ip_dst_of hBA)) port lport iss irs [y2] now eA1) as (eA2 & ev3 & In3 & S3 & _ & O3); [done.. |].
  assert ((ip_src (mkAddrs (ip_src_of hBA) (ip_dst_of hBA)), port, lport) = kA) as K3 by (cbn [ip_src]; by rewrite E3).
  destruct (dispatch_connected sA1 (f1 ++ f2) _ idA kA eA1 eA2 coreA now 0 garbage _ _ (mkInfo port lport irs (u32 (iss + 1)) 1) _ ev3 IA1 ltac:(by left) EA1 A8 A9 K3 In3) as [D3 IA2].
  set (eB1 := after_syn _ _ _ _) in EB1.
  destruct (server_waits garbage coreB (mkAddrs (ip_src_of hAB) (ip_dst_of hAB)) (mkTh (SetHdrLenFlags 28 kTcpSyn) open_wnd) (mkInfo lport port iss 0 1) irs now b2)
    as (B1 & B2 & B3 & B4 & B5 & B6 & B7 & B8 & B9 & B10 & B11). fold eB1 in B1, B2, B3, B4, B5, B6, B7, B8, B9, B10, B11. clearbody eB1.
  destruct (segment_received coreB now 0 garbage aB hAB 0 [] [] ipB port lport ipA (u32 (iss + 1)) (u32 (irs + 1)) 5 kTcpAck open_wnd [] 0 [] sB1)
    as (y3 & Hy3 & R4); [done | done | apply u32_range | apply u32_range | by left | done | done | by rewrite E2 | by rewrite E2 |].
  destruct (ack_input Hsil (mkAddrs (ip_src_of hAB) (ip_dst_of hAB)) lport port irs iss y3 now eB1 _ Hr Hy3 B1 B2 B3 B4 B5 B6 B7 B8 B9 eq_refl eq_refl)
    as (eB2 & ev4 & In4 & S4 & O4).
  assert ((ip_src (mkAddrs (ip_src_of hAB) (ip_dst_of hAB)), lport, port) = kB) as K4 by (cbn [ip_src]; by rewrite E1).
  rewrite K4 in IB1.
  destruct (dispatch_connected sB1 fB _ (next_entry sB) kB eB1 eB2 coreB now 0 garbage _ _ (mkInfo lport port (u32 (iss + 1)) (u32 (irs + 1)) 0) _ ev4 IB1 ltac:(by left) EB1 B10 B11 K4 In4) as [D4 IB2].
  do 13 eexists. split; [exact R1 |]. split; [unfold sent_of in *; cbn [List.filter is_sent]; by rewrite (sent_of_timer _ M1 : List.filter is_sent m1 = []) |].
  split; [etransitivity; [exact R2 | exact D2] |].
  split; [unfold sent_of in *; cbn [List.filter is_sent]; by rewrite (sent_of_timer _ M2 : List.filter is_sent m2 = []) |].
  split; [etransitivity; [exact R3 | exact D3] |]. split; [exact S3 |]. split; [etransitivity; [exact R4 | exact D4] |]. split; [exact S4 |].
  split; [cbn [set_entry entries]; apply lookup_insert_eq |]. split; [exact O3 |].
  split; [apply (conn_linked _ _ _ _ _ IA2); by left |]. split; [cbn [set_entry entries]; apply lookup_insert_eq |]. split; [exact O4 |].
  apply (conn_linked _ _ _ _ _ IB2). by left.
Qed.

(** ** Refused connections *)

(** A reset that acknowledges the SYN ends the connection. *)
Lemma rst_input ih sp dp iss wnd buf now e : (forall u e, callback u e = Ok (e, [])) -> 0 <= iss < 2 ^ 32 ->
  state e = kSynSent -> snd_una e = iss -> snd_nxt e = u32 (iss + 1) -> handler e = true ->
  exists e2 evs, Input ih (mkTh (SetHdrLenFlags 20 (Z.lor kTcpRst kTcpAck)) wnd) (mkInfo sp dp 0 (u32 (iss + 1)) 0) buf now e = Ok (false, e2, evs) /\
    Up UpAbort ∈ evs.
Proof.
  intros Hsil Hi Es Ea En Hh. unfold Input, Receive. rewrite bool_decide_eq_true_2 by done. unfold ReceiveSynSent. cbn [th_hdrlen_flags ackno seqno tcplen].
  assert (Flags (SetHdrLenFlags 20 (Z.lor kTcpRst kTcpAck)) = 20) as -> by done.
  assert (has 20 kTcpAck = true) as -> by done. assert (has 20 kTcpRst = true) as -> by done.
  assert (TcpSeqLEQ (u32 (iss + 1)) (snd_una e) = false) as ->.
  { replace (snd_una e) with (u32 iss) by (rewrite u32_small; [done | lia]). rewrite TcpSeqLEQ_spec by lia. apply Z.leb_gt. lia. }
  assert (TcpSeqGT (u32 (iss + 1)) (snd_nxt e) = false) as -> by (rewrite En, TcpSeqGT_spec by lia; apply Z.ltb_irrefl).
  cbn [andb orb]. unfold abort_closed. rewrite call_silent, !bind_Ok by done. do 2 eexists. split; [done |]. by left.
Qed.

(** A segment that ends a connection of this core. *)
Lemma dispatch_ended s f l id (k : conn_key) e e2 mine now seq0 garbage ih th info buf evs : NetInv s f l -> (id, k) ∈ l -> entries s !! id = Some e ->
  accepted e = true -> cpu e = mine -> (ip_src ih, src_port info, dst_port info) = k -> Input ih th info buf now e = Ok (false, e2, evs) ->
  exists s', TcpDispatch mine now seq0 garbage ih th info buf s = Ok (s', evs, []) /\ t_find (tcp_pcbs_ s') k = Ok None /\ id ∈ to_delete s'.
Proof.
  intros I Hin He Hacc Hcpu Hk Hi. assert (NetInv (set_entry id e2 s) f l) as I2.
  { eapply set_entry_inv; [done | done |]. apply Input_ident in Hi. by injection Hi. }
  destruct (Destroy_inv _ _ _ _ _ I2 Hin) as (s' & Hd & I3 & Hdel). exists s'. split_and!; [| | done].
  - unfold TcpDispatch. rewrite Hk, (conn_linked _ _ _ _ _ I Hin), bind_Ok, He. cbn [deref]. rewrite bind_Ok, Hacc. cbn [kassert].
    rewrite bind_Ok, Hcpu, Z.eqb_refl. unfold EntryInput, on_entry. rewrite He. cbn [deref]. rewrite bind_Ok, Hi, bind_Ok, Hd, !bind_Ok. done.
  - rewrite (t_find_spec _ _ _ (ni_holds _ _ _ I3)). destruct (nodes_with k _) as [|x r] eqn:E; [done |].
    assert (x ∈ nodes_with k (filter (fun p : nat * conn_key => p.1 <> id) l)) as Hx by (rewrite E; by left).
    apply list_elem_of_fmap in Hx as ([y k'] & -> & [<- [Hne Hy]%list_elem_of_filter]%list_elem_of_filter).
    pose proof (nodes_with_unique l id k' (ni_keys _ _ _ I) Hin) as E1. pose proof (nodes_with_unique l y k' (ni_keys _ _ _ I) Hy) as E2.
    rewrite E1 in E2. injection E2 as ->. done.
Qed.

(** C28. A connect to a port without a listener is refused: the other node answers
    the SYN with a reset and keeps its state; the reset, received as the bytes
    that TcpReset makes, aborts the connection, which is then not found any more
    and is deleted after a grace period. *)
Theorem connect_refused aA aB hAB hBA sA f1 idA f2 lA coreA lp lport sB fB lB port coreB iss now garbage :
  (forall u e, callback u e = Ok (e, [])) ->
  let ipA := itf_address aA in let ipB := itf_address aB in let kA := (ipB, port, lport) in let kB := (ipA, lport, port) in
  client sA f1 idA f2 lA coreA lp lport kA ->
  NetInv sB fB lB -> nodes_with (K := conn_key) kB lB = [] -> t_find (listening_tcp_pcbs_ sB) port = Ok None ->
  0 <= iss < 2 ^ 32 -> 0 <= lport < 2 ^ 16 -> 0 <= port < 2 ^ 16 -> unicast_itf aA -> unicast_itf aB ->
  ip_src_of hAB = ipA -> ip_dst_of hAB = ipB -> ip_src_of hBA = ipB -> ip_dst_of hBA = ipA ->
  exists sA1 sA2 ev1 ev2 syn, Connect idA (Some (Some aA)) ipB port lp iss now sA = Ok (lport, sA1, ev1) /\ sent_of ev1 = [syn] /\
    ReceiveTcp coreB now 0 garbage (Some aB) hAB [mkBuf 0 [] (wire kA ipA syn 0 []) []] sB =
      Ok (sB, [ResetSent true 0 (u32 (iss + 1)) ipB ipA port lport], []) /\
    ReceiveTcp coreA now 0 garbage (Some aA) hBA [mkBuf 0 [] (pkt_data (TcpReset true 0 (u32 (iss + 1)) ipB ipA port lport 0 []).1) []] sA1 =
      Ok (sA2, ev2, []) /\
    Up UpAbort ∈ ev2 /\ t_find (tcp_pcbs_ sA2) kA = Ok None /\ idA ∈ to_delete sA2.
Proof.
  intros Hsil ipA ipB kA kB [IA (e & He & Hu & Hp & Hh & Hc) (s0 & Ht) Hk] IB HkB Hlst Hi Hlp Hpt [HA1 HA2] [HB1 HB2] E1 E2 E3 E4.
  assert (0 <= open_wnd < 2 ^ 16) as Hw by done.
  destruct (Connect_run sA f1 idA f2 lA e aA ipB port lp lport iss now s0 IA He Hu Hp Hi Ht Hk) as (sA1 & b1 & m1 & R1 & M1 & IA1 & EA1).
  destruct (segment_received coreB now 0 garbage aB hAB 0 [] [] ipB port lport ipA iss 0 7 kTcpSyn open_wnd [] 0 [] sB) as (y1 & _ & R2);
    [done.. | by right | done | done | by rewrite E2 | by rewrite E2 |].
  fold ipA in EA1. set (eA1 := after_syn _ _ _ _) in EA1.
  destruct (client_waits ipA ipB port lport iss e now b1 Hh) as (A1 & A2 & A3 & A4 & A5 & A6 & A7 & A8 & A9). fold eA1 in A1, A2, A3, A4, A5, A6, A7, A8, A9.
  clearbody eA1. rewrite Hc in A9.
  assert (exists ck, pkt_data (TcpReset true 0 (u32 (iss + 1)) ipB ipA port lport 0 []).1 =
    tcp_header port lport 0 (u32 (iss + 1)) (SetHdrLenFlags 20 (Z.lor kTcpRst kTcpAck)) open_wnd ck 0 ++ []) as (ck & ->) by (eexists; reflexivity).
  assert (R3 := ReceiveTcp_run coreA now 0 garbage aA hBA 0 [] port lport 0 (u32 (iss + 1)) (SetHdrLenFlags 20 (Z.lor kTcpRst kTcpAck)) open_wnd ck 0 [] [] sA1
    Hpt Hlp ltac:(lia) (u32_range _) ltac:(done) Hw ltac:(by rewrite E4) ltac:(by rewrite E4) ltac:(done)).
  destruct (rst_input (mkAddrs (ip_src_of hBA) (ip_dst_of hBA)) port lport iss open_wnd
    [tcp_header port lport 0 (u32 (iss + 1)) (SetHdrLenFlags 20 (Z.lor kTcpRst kTcpAck)) open_wnd ck 0 ++ []] now eA1 Hsil Hi A1 A2 A3 A4) as (eA2 & ev2 & In2 & U2).
  assert ((ip_src (mkAddrs (ip_src_of hBA) (ip_dst_of hBA)), port, lport) = kA) as K3 by (cbn [ip_src]; by rewrite E3).
  destruct (dispatch_ended sA1 (f1 ++ f2) _ idA kA eA1 eA2 coreA now 0 garbage _ _ (mkInfo port lport 0 (u32 (iss + 1)) 0) _ ev2 IA1 ltac:(by left) EA1 A8 A9 K3 In2)
    as (sA2 & D2 & F2 & T2).
  do 5 eexists. split; [exact R1 |]. split; [unfold sent_of; cbn [List.filter is_sent]; by rewrite (sent_of_timer _ M1 : List.filter is_sent m1 = []) |].
  split; [| split; [etransitivity; [exact R3 | exact D2] | by split_and!]].
  etransitivity; [exact R2 |]. unfold TcpDispatch. cbn [ip_src src_port dst_port]. rewrite E1.
  rewrite (t_find_spec _ _ _ (ni_holds _ _ _ IB)), (HkB : nodes_with (K := conn_key) (ipA, lport, port) lB = []), bind_Ok. cbn [hd_error]. rewrite Hlst, bind_Ok. unfold reset. cbn [ip_src ip_dst src_port dst_port].
  by rewrite E2.
Qed.
End Nodes.
