(* ===== verification/TcpNetEdge.v ===== *)
(** * Edge cases of TCP in the network manager

    Where the code does not do what is expected of it: data with a SYN, two SYNs
    that race, a connection that is given up early or reset twice, and the ports of
    connections, which are never given back.  The last part has examples of the
    theorems on TCP in the network manager. *)

From S2P Require Import Prelude.
From S2P Require Import Checksum NetIp PortPool PcbTable Tcp TcpNet TcpSeq TcpSend TcpRecv TcpEdge TcpNetCorrect TcpHandshake.

Section Edge.
Context `{AppOk} `{ListenersOk} `{IntervalSet} `{TL : !Table Z} `{TC : !Table conn_key}.
Implicit Type s : TcpNet.

(** A SYN that carries data, to a port that is listened on, stops the system. *)
Theorem syn_with_data_aborts s f l lst mine now seq garbage ih th info buf e' evs : NetInv s f l ->
  nodes_with (K := conn_key) (ip_src ih, src_port info, dst_port info) l = [] -> t_find (listening_tcp_pcbs_ s) (dst_port info) = Ok (Some lst) ->
  (exists acc, accept_fn lst = Some acc /\ acc (accept_entry garbage mine ih th info seq) = Ok (e', evs)) ->
  Flags (th_hdrlen_flags th) = kTcpSyn -> 1 < tcplen info ->
  TcpDispatch mine now seq garbage ih th info buf s = Fail Aborted.
Proof.
  intros I Hk Hl (acc & Ha & He) Hf Ht. set (e0 := accept_entry garbage mine ih th info seq) in *.
  pose proof (alloc_inv s f l e0 I) as Ia.
  destruct (link_inv _ [] (next_entry s) f l e0 (key e0) Ia) as (t & Et & _); [done | cbn [alloc_entry snd entries]; by rewrite lookup_insert_eq | done |].
  change (tcp_pcbs_ (alloc_entry e0 s).2) with (tcp_pcbs_ s) in Et.
  unfold TcpDispatch. rewrite (t_find_spec _ _ _ (ni_holds _ _ _ I)), Hk, bind_Ok. cbn [hd_error]. rewrite Hl, bind_Ok.
  unfold ListenInput. rewrite Hf. assert (has kTcpSyn kTcpRst = false) as -> by done. assert (has kTcpSyn kTcpAck = false) as -> by done.
  rewrite Z.eqb_refl. fold e0. destruct (lock_inv _ _ _ I) as (-> & _ & _). rewrite bind_Ok. cbn [set_lock tcp_pcbs_].
  change (key e0) with (ip_src ih, src_port info, dst_port info) in *.
  rewrite (t_find_spec _ _ _ (ni_holds _ _ _ I)), Hk, bind_Ok. cbn [hd_error alloc_entry set_lock next_entry tcp_pcbs_].
  rewrite Et, bind_Ok, Ha. cbn [deref]. rewrite !bind_Ok, He, bind_Ok. by rewrite (proj2 (Z.ltb_lt _ _)).
Qed.

(** When two SYNs race, the loser is passed to the connection of the winner while
    the lock of the table is held: if it ends that connection, [Destroy] takes the
    lock again and the core spins forever. *)
Theorem racing_syn_deadlocks s f l lst id mine now seq garbage ih th info buf e e' evs : NetInv s f l ->
  (id, (ip_src ih, src_port info, dst_port info)) ∈ l -> entries s !! id = Some e -> Flags (th_hdrlen_flags th) = kTcpSyn ->
  Input ih th info buf now e = Ok (false, e', evs) ->
  ListenInput mine now seq garbage lst ih th info buf s = Fail Deadlock.
Proof.
  intros I Hin He Hf Hi. unfold ListenInput. rewrite Hf. assert (has kTcpSyn kTcpRst = false) as -> by done. assert (has kTcpSyn kTcpAck = false) as -> by done.
  rewrite Z.eqb_refl. destruct (lock_inv _ _ _ I) as (-> & _ & _). rewrite bind_Ok. cbn [set_lock tcp_pcbs_].
  change (key (accept_entry garbage mine ih th info seq)) with (ip_src ih, src_port info, dst_port info).
  rewrite (conn_linked _ _ _ _ _ I Hin), bind_Ok. unfold EntryInput, on_entry. cbn [entries set_lock]. rewrite He. cbn [deref]. by rewrite bind_Ok, Hi, bind_Ok.
Qed.

(** A TcpPcb that is destroyed before its handshake is complete, for example after
    [Connect] threw because the connection exists, stops the system. *)
Lemma early_release_aborts itf remote port lport iss e now : PcbRelease now (connect_entry itf remote port lport iss e) = Fail Aborted.
Proof. done. Qed.

(** A reset ends a connection that has ended already, when both were queued for its
    core: the entry is destroyed, and deleted, a second time. *)
Theorem second_reset_destroys_again ih th info buf now e : state e = kClosed -> rcv_nxt e = seqno info -> 0 <= seqno info < 2 ^ 32 -> tcplen info = 0 ->
  has (Flags (th_hdrlen_flags th)) kTcpRst = true ->
  exists e' evs, Input ih th info buf now e = Ok (false, e', evs) /\ Destroyed ∈ evs.
Proof.
  intros Es Er Hq Hl Hrst. unfold Input, Receive. rewrite bool_decide_eq_false_2 by (by rewrite Es). unfold AckPhase. rewrite Hrst. cbn [negb]. rewrite !andb_false_r.
  rewrite bind_Ok. unfold SeqPhase. assert (acceptable info e = true) as ->.
  { unfold acceptable. rewrite Er, Hl, !Z.eqb_refl. cbn [andb]. apply orb_true_r. }
  assert (TcpSeqGT (rcv_nxt e) (seqno info) = false) as ->.
  { rewrite Er, <- (u32_small (seqno info)) by lia. rewrite TcpSeqGT_spec by lia. apply Z.ltb_irrefl. }
  rewrite bind_Ok, Hrst. unfold ReceiveRst. cbn [state set_state]. rewrite bool_decide_eq_false_2 by done.
  change ((state_num kEstablished <=? state_num kClosed) && (state_num kClosed <=? state_num kCloseWait)) with false. cbv iota. rewrite !bind_Ok.
  do 2 eexists. split; [reflexivity |]. set_solver.
Qed.

(** ** Ports *)

Lemma on_entry_ports id op s s' evs : on_entry id op s = Ok (s', evs) ->
  tcp_port_allocator_ s' = tcp_port_allocator_ s.
Proof.
  intros Hr. unfold on_entry in Hr. apply bind_ok in Hr as (e & _ & Hr). apply bind_ok in Hr as ([[al e'] ev] & _ & Hr).
  destruct al; [by injection Hr as <- <- |]. apply bind_ok in Hr as (s1 & Hd & Hr). injection Hr as <- <-.
  unfold Destroy in Hd. apply bind_ok in Hd as (s2 & Hl & Hd). apply bind_ok in Hd as (t & _ & Hd). injection Hd as <-.
  unfold lock in Hl. destruct (tcp_write_lock_ _); [done |]. by injection Hl as <-.
Qed.

Lemma EntryReady_ports id now s s' evs : EntryReady id now s = Ok (s', evs) -> tcp_port_allocator_ s' = tcp_port_allocator_ s.
Proof.
  intros Hr. unfold EntryReady in Hr. apply bind_ok in Hr as (e & _ & Hr). apply bind_ok in Hr as ([e' ev] & _ & Hr). by injection Hr as <- <-.
Qed.

Lemma ListenInput_ports mine now seq garbage x ih th info buf s s' evs tasks :
  ListenInput mine now seq garbage x ih th info buf s = Ok (s', evs, tasks) -> tcp_port_allocator_ s' = tcp_port_allocator_ s.
Proof.
  intros Hr. unfold ListenInput in Hr. destruct (has _ kTcpRst); [by injection Hr as <- <- <- |]. destruct (has _ kTcpAck); [by injection Hr as <- <- <- |].
  destruct (_ =? _); [| by injection Hr as <- <- <-]. apply bind_ok in Hr as (s1 & Hl & Hr). unfold lock in Hl. destruct (tcp_write_lock_ _); [done |].
  injection Hl as <-. apply bind_ok in Hr as ([id|] & _ & Hr).
  - apply bind_ok in Hr as ([s2 ev2] & Hi%on_entry_ports & Hr). injection Hr as <- <- <-. exact Hi.
  - cbn [alloc_entry] in Hr. apply bind_ok in Hr as (t & _ & Hr). apply bind_ok in Hr as (acc & _ & Hr). apply bind_ok in Hr as ([e2 ev2] & _ & Hr).
    destruct (1 <? _); [done |]. destruct (_ =? _); [| by injection Hr as <- <- <-].
    apply bind_ok in Hr as ([s3 ev3] & Hi%EntryReady_ports & Hr). injection Hr as <- <- <-. exact Hi.
Qed.

Lemma ReceiveTcp_ports mine now seq garbage addr ih buf s s' evs tasks :
  ReceiveTcp mine now seq garbage addr ih buf s = Ok (s', evs, tasks) -> tcp_port_allocator_ s' = tcp_port_allocator_ s.
Proof.
  intros Hr. unfold ReceiveTcp in Hr. destruct (_ <? _); [by injection Hr as <- <- <- |]. apply bind_ok in Hr as (h & _ & Hr).
  apply bind_ok in Hr as (a & _ & Hr). destruct (_ || _); [by injection Hr as <- <- <- |]. destruct (_ || _); [by injection Hr as <- <- <- |].
  unfold TcpDispatch in Hr. apply bind_ok in Hr as ([id|] & _ & Hr).
  - apply bind_ok in Hr as (e & _ & Hr). apply bind_ok in Hr as ([] & _ & Hr). destruct (_ =? _); [| by injection Hr as <- <- <-].
    apply bind_ok in Hr as ([s1 ev1] & Hi%on_entry_ports & Hr). by injection Hr as <- <- <-.
  - apply bind_ok in Hr as ([x|] & _ & Hr); [by apply ListenInput_ports in Hr |]. destruct (has _ kTcpRst); by injection Hr as <- <- <-.
Qed.

Lemma take_port_shrinks port s bound s' x : take_port port s = Ok (bound, s') -> contains (tcp_port_allocator_ s') x = true ->
  contains (tcp_port_allocator_ s) x = true /\ (port = 0 \/ 49152 <= port -> x <> bound).
Proof.
  intros Ht Hc. unfold take_port in Ht. destruct (Z.eqb_spec port 0) as [->|Hp].
  - destruct (Allocate (tcp_port_allocator_ s)) as [[ret|] ports] eqn:Ea; [| done]. injection Ht as <- <-. unfold Allocate in Ea.
    destruct (iset_is_empty _); [done |]. injection Ea as <- <-. cbn [set_ports tcp_port_allocator_] in Hc.
    rewrite sub_elem_spec, andb_true_iff, negb_true_iff, Z.eqb_neq in Hc. tauto.
  - destruct (Z.leb_spec 49152 port) as [Hle|Hlt]; [| injection Ht as <- <-; split; [done | lia]].
    destruct (Reserve port (tcp_port_allocator_ s)) as [[|] ports] eqn:Er; [| done]. injection Ht as <- <-. unfold Reserve in Er.
    destruct (contains _ port); [| done]. injection Er as <-. cbn [set_ports tcp_port_allocator_] in Hc.
    rewrite sub_elem_spec, andb_true_iff, negb_true_iff, Z.eqb_neq in Hc. tauto.
Qed.

Lemma Connect_ports id itf addr port lp iss now s bound s' evs x : Connect id itf addr port lp iss now s = Ok (bound, s', evs) ->
  contains (tcp_port_allocator_ s') x = true -> contains (tcp_port_allocator_ s) x = true /\ (lp = 0 \/ 49152 <= lp -> x <> bound).
Proof.
  intros Hc Hx. unfold Connect in Hc. destruct itf as [a|]; [| done]. apply bind_ok in Hc as ([p s1] & Ht & Hc).
  apply bind_ok in Hc as (a' & _ & Hc). apply bind_ok in Hc as (e & _ & Hc). apply bind_ok in Hc as (s2 & Hl & Hc).
  unfold lock in Hl. destruct (tcp_write_lock_ s1); [done |]. injection Hl as <-. apply bind_ok in Hc as ([y|] & _ & Hc); [done |].
  apply bind_ok in Hc as (t & _ & Hc). apply bind_ok in Hc as ([e2 ev2] & _ & Hc). injection Hc as <- <- <-. by apply (take_port_shrinks lp s p s1 x Ht).
Qed.

(** A step of a node that has no listening pcbs. *)
Definition client_step (p p' : TcpNet * list nat) : Prop := net_step p p' /\ listen_port p.1 = ∅ /\ listen_port p'.1 = ∅.

Lemma client_step_ports p p' x : client_step p p' -> contains (tcp_port_allocator_ p'.1) x = true -> contains (tcp_port_allocator_ p.1) x = true.
Proof.
  intros (Hs & Hl & Hl').
  destruct Hs as [s f y Hy|s f y port bound s' Hy Hb|s f y s' Hd|s f garbage|s f1 id f2 itf addr port lp iss now bound s' evs Hc
    |s f mine now seq garbage addr ih buf s' evs tasks Hr|s f id ih th info buf now s' evs Hlk Hr|s f id now s' evs Hlk Hr
    |s f id now s' evs Hlk Hr|s f id e e' He Hp|s f id Hd]; cbn [fst] in *; try done.
  - rewrite Hl in Hy. by rewrite lookup_empty in Hy.
  - unfold ListenDelete in Hd. by rewrite Hl, lookup_empty in Hd.
  - intros Hx. by apply (Connect_ports _ _ _ _ _ _ _ _ _ _ _ _ Hc).
  - by rewrite (ReceiveTcp_ports _ _ _ _ _ _ _ _ _ _ _ Hr).
  - by rewrite (on_entry_ports _ _ _ _ _ Hr).
  - by rewrite (EntryReady_ports _ _ _ _ _ Hr).
  - by rewrite (on_entry_ports _ _ _ _ _ Hr).
Qed.

(** The local port of a connection is never given back: whatever a node without
    listeners does after a connect, the destruction of the connection included,
    the port cannot be had again. *)
Theorem connect_port_leaks id itf addr port lp iss now s s1 bound evs f p : lp = 0 \/ 49152 <= lp ->
  Connect id itf addr port lp iss now s = Ok (bound, s1, evs) -> rtc client_step (s1, f) p ->
  (Reserve bound (tcp_port_allocator_ p.1)).1 = false /\ (Allocate (tcp_port_allocator_ p.1)).1 <> Some bound.
Proof.
  intros Hlp Hc Hrun. assert (contains (tcp_port_allocator_ p.1) bound = false) as Hn.
  { destruct (contains (tcp_port_allocator_ p.1) bound) eqn:E; [| done]. assert (contains (tcp_port_allocator_ s1) bound = true) as E1.
    { change s1 with (s1, f).1. clear Hc. remember (s1, f) as p0 eqn:Ep. clear Ep. induction Hrun as [|p1 p2 p3 Hs _ IH]; [done |].
      by eapply client_step_ports, IH. }
    destruct (Connect_ports _ _ _ _ _ _ _ _ _ _ _ _ Hc E1) as [_ Hne]. by destruct (Hne Hlp). }
  split; [unfold Reserve; by rewrite Hn |]. unfold Allocate. destruct (iset_is_empty _) eqn:Ee; [done |]. destruct (lower_spec _ Ee) as [Hl _].
  cbn [fst]. intros [= E]. by rewrite E, Hn in Hl.
Qed.
End Edge.

(** ** Examples *)

Module Example.

(** Applications that only listen to their callbacks. *)
#[local] Instance silent : App := { callback u e := Ok (e, []) }.
#[local] Instance silent_ok : AppOk.
Proof. split; [intros u e e' evs [= <- <-]; reflexivity | intros u e e' evs u' [= <- <-]; apply not_elem_of_nil]. Qed.
#[local] Instance listeners : Listeners := { accept_fn l := Some (fun e => Ok (InstallHandler e, [])) }.
#[local] Instance listeners_ok : ListenersOk.
Proof. split. intros l f e e' evs [= <-] [= <- <-]. apply rtc_once, st_handler. Qed.
#[local] Existing Instance gset_IntervalSet.
#[local] Instance port_table : Table Z := RcuImpl.rcu_Table (fun port => port).
#[local] Instance conn_table : Table conn_key := RcuImpl.rcu_Table (fun k => k.1.2 + k.2).

Definition zero : TcpEntry := mkEntry 0 ip_Any (ip_Any, 0, 0) [] [] [] kClosed 0 0 0 0 0 0 0 0 false 0 0 false false false false.
Definition fresh : TcpEntry := InstallHandler (new_TcpEntry zero).
Definition itfA : ItfAddress := mkItf (mkIp 10 0 0 2) (mkIp 255 255 255 0) (mkIp 10 0 0 1).
Definition itfB : ItfAddress := mkItf (mkIp 10 0 0 3) (mkIp 255 255 255 0) (mkIp 10 0 0 1).
Definition header_AB : list Z := header_bytes 48 kIpProtoTCP 0 (itf_address itfA) (itf_address itfB).
Definition header_BA : list Z := header_bytes 48 kIpProtoTCP 0 (itf_address itfB) (itf_address itfA).
Definition key_A (lport : Z) : conn_key := (itf_address itfB, 80, lport).
Definition key_B (lport : Z) : conn_key := (itf_address itfA, lport, 80).

(** A node with one pcb that is not connected. *)
Definition node : TcpNet := (alloc_entry fresh new_tcp).2.
Lemma node_inv : NetInv node ([] ++ 0%nat :: []) [].
Proof. exact (alloc_inv new_tcp [] [] fresh new_tcp_inv). Qed.

Lemma node_client lp s0 : take_port lp node = Ok (lp, s0) -> client node [] 0 [] [] 0 lp lp (key_A lp).
Proof.
  intros Ht. split; [exact node_inv | | by exists s0 | done]. exists fresh. by split_and!.
Qed.
Lemma low_port : take_port 5000 node = Ok (5000, node).
Proof. done. Qed.
Lemma high_port : exists s0, take_port 50000 node = Ok (50000, s0).
Proof.
  unfold take_port, Reserve. assert (contains (tcp_port_allocator_ node) 50000 = true) as ->; [| by eexists].
  cbn [node alloc_entry snd tcp_port_allocator_ new_tcp]. unfold pool_Create. by rewrite add_interval_spec.
Qed.

(** A node that listens on port 80. *)
Lemma listening_node : exists s, server s [] [] 9 80 (key_B 5000) /\ next_entry s = 0%nat.
Proof.
  destruct (ListenBind 9%nat 80 (new_ListeningTcpPcb 9 new_tcp)) as [[p s]|] eqn:E; [| exfalso; revert E].
  - assert (NetInv (new_ListeningTcpPcb 9 new_tcp) [] []) as I0.
    { apply (set_listening_inv _ _ _ _ _ [] new_tcp_inv); [by apply t_new_spec |]. intros x. split; [by intros ?%elem_of_nil |].
      intros (q & Hq & Hq0). apply lookup_insert_Some in Hq as [[_ <-]|[_ Hq]]; [done |]. change (listen_port new_tcp) with (∅ : gmap nat Z) in Hq. by rewrite lookup_empty in Hq. }
    exists s. assert (NetInv s [] []) as I1 by (eapply ListenBind_inv; [exact I0 | | exact E]; apply lookup_insert_eq). revert E. unfold ListenBind. set (s0 := new_ListeningTcpPcb 9 new_tcp). assert (take_port 80 s0 = Ok (80, s0)) as -> by done. rewrite bind_Ok.
    destruct (t_insert_spec (listening_tcp_pcbs_ s0) [] 9%nat 80) as (t & -> & Ht); [by apply t_new_spec | by apply not_elem_of_nil |].
    rewrite bind_Ok. intros [= <- <-]. split; [| done]. split; [done | | done | done].
    change (t_find t 80 = Ok (Some 9%nat)). by rewrite (t_find_spec _ _ _ Ht).
  - unfold ListenBind. set (s0 := new_ListeningTcpPcb 9 new_tcp). assert (take_port 80 s0 = Ok (80, s0)) as -> by done. rewrite bind_Ok.
    destruct (t_insert_spec (listening_tcp_pcbs_ s0) [] 9%nat 80) as (t & -> & Ht); [by apply t_new_spec | by apply not_elem_of_nil | done].
Qed.

Lemma handshake_establishes_witness : exists sA sB eA eB, entries sA !! 0%nat = Some eA /\ opened 1000 5000 eA /\
  entries sB !! 0%nat = Some eB /\ opened 5000 1000 eB /\ t_find (tcp_pcbs_ sA) (key_A 5000) = Ok (Some 0%nat).
Proof.
  destruct listening_node as (sB & Hsv & Hn).
  destruct (handshake_establishes itfA itfB header_AB header_BA node [] 0 [] [] 0 5000 5000 sB [] [] 9 80 0 1000 5000 77 zero)
    as (sA1 & sA2 & sB1 & sB2 & ev1 & ev2 & ev3 & ev4 & x1 & x2 & x3 & eA & eB & Hall);
    [done | exact (node_client 5000 node low_port) | exact Hsv | done | done | done | done | done | done | done | done | done | done |].
  rewrite Hn in Hall. destruct Hall as (_ & _ & _ & _ & _ & _ & _ & _ & H1 & H2 & H3 & H4 & H5 & _). by exists sA2, sB2, eA, eB.
Defined.

Lemma connect_refused_witness : exists sA1 sA2 ev1 (ev2 : list event), Connect 0%nat (Some (Some itfA)) (itf_address itfB) 80 5000 1000 77 node = Ok (5000, sA1, ev1) /\
  Up UpAbort ∈ ev2 /\ t_find (tcp_pcbs_ sA2) (key_A 5000) = Ok None /\ 0%nat ∈ to_delete sA2.
Proof.
  destruct (connect_refused itfA itfB header_AB header_BA node [] 0 [] [] 0 5000 5000 new_tcp [] [] 80 0 1000 77 zero)
    as (sA1 & sA2 & ev1 & ev2 & syn & H1 & _ & _ & _ & H2 & H3 & H4);
    [done | exact (node_client 5000 node low_port) | exact new_tcp_inv | done | | done.. |].
  - by rewrite (t_find_spec _ [] 80); [| by apply t_new_spec].
  - by exists sA1, sA2, ev1, ev2.
Defined.


Lemma connect_port_leaks_witness : exists s1 evs, Connect 0%nat (Some (Some itfA)) (itf_address itfB) 80 50000 1000 77 node = Ok (50000, s1, evs) /\
  (Reserve 50000 (tcp_port_allocator_ s1)).1 = false.
Proof.
  destruct high_port as [s0 Ht].
  destruct (Connect_run node [] 0 [] [] fresh itfA (itf_address itfB) 80 50000 50000 1000 77 s0 node_inv) as (s1 & b & more & Hc & _ & I1 & He);
    [reflexivity | reflexivity | reflexivity | by clear Ht | exact Ht | reflexivity |]. clear Ht.
  exists s1. eexists. split; [exact Hc |].
  refine (proj1 (connect_port_leaks 0%nat (Some (Some itfA)) (itf_address itfB) 80 50000 1000 77 node s1 50000 _ [] (s1, []) (or_intror _) Hc _)); [lia | reflexivity].
Defined.

Definition syn_th : TcpHeader := mkTh (SetHdrLenFlags 28 kTcpSyn) open_wnd.
Definition from_A : Addrs := mkAddrs (itf_address itfA) (itf_address itfB).

Lemma syn_with_data_aborts_witness : exists s, TcpDispatch 0 77 5000 zero from_A syn_th (mkInfo 5000 80 1000 0 6) [] s = Fail Aborted.
Proof.
  destruct listening_node as (s & [I Hl Ha Hk] & _). exists s.
  eapply (syn_with_data_aborts s [] [] 9%nat 0 77 5000 zero from_A syn_th (mkInfo 5000 80 1000 0 6) []);
    [exact I | done | exact Hl | by eexists | done | by vm_compute].
Defined.

(** Another SYN within the window of the connection. *)
Lemma racing_syn_deadlocks_witness : exists s, ListenInput 0 77 5000 zero 9 from_A syn_th (mkInfo 5000 80 1010 0 1) [repeat 0 28] s = Fail Deadlock.
Proof.
  destruct listening_node as (s & [I Hl Ha Hk] & Hn).
  destruct (dispatch_syn s [] [] 9%nat 0 77 5000 zero from_A 1000 5000 80 [] I) as (s1 & b & more & _ & _ & I1 & He); [done | done | done | done |].
  rewrite Hn in *. exists s1.
  assert (exists e' evs, Input from_A syn_th (mkInfo 5000 80 1010 0 1) [repeat 0 28] 77
    (after_syn 77 b (mkSeg 5000 (SetHdrLenFlags 28 (Z.lor kTcpSyn kTcpAck)) [] 1) (set_accepted true (InstallHandler
      (accept_entry zero 0 from_A syn_th (mkInfo 5000 80 1000 0 1) 5000)))) = Ok (false, e', evs)) as (e' & evs & Hi)
    by (destruct b; do 2 eexists; vm_compute; reflexivity).
  eapply (racing_syn_deadlocks s1 [] [(0%nat, key_B 5000)] 9%nat 0%nat 0 77 5000 zero from_A syn_th (mkInfo 5000 80 1010 0 1));
    [exact I1 | by left | exact He | done | exact Hi].
Defined.

Lemma second_reset_destroys_again_witness :
  exists e' evs, Input from_A (mkTh (SetHdrLenFlags 20 kTcpRst) 0) (mkInfo 5000 80 0 0 0) [repeat 0 20] 77 zero = Ok (false, e', evs) /\ Destroyed ∈ evs.
Proof. apply second_reset_destroys_again; [done | done | done | done | by vm_compute]. Defined.
End Example.
