(* ===== verification/TcpHandler.v ===== *)
(** * Sending over a connection

    Models src/src/native/NetTcpHandler.h: the data that does not fit in the
    window of the peer waits in the handler, and goes out when the window
    grows. *)

From S2P Require Import Prelude Checksum NetIp Tcp.

(** [pcb_] is the connection [entry]; [destroyed] tells that its destructor ran. *)
Record TcpHandler := mkHandler { buf_ : option buffers; entry : TcpEntry; shutdown_ : bool; destroyed : bool }.

(** The loop over the buffers of the chain: what is sent, what is left, and what is
    left of [send_size].  A first buffer that does not fit is split. *)
Fixpoint split_chain (send_size : Z) (before : buffers) (chain : buffers) : option buffers * option buffers * Z :=
  match chain with
  | [] => (Some before, None, send_size)
  | b :: t =>
      let len := Z.of_nat (length b) in
      if len <? send_size then split_chain (send_size - len) (before ++ [b]) t
      else
        match before with
        | [] =>
            if 0 <? send_size
            then (Some [take (Z.to_nat send_size) b], Some (drop (Z.to_nat send_size) b :: t), send_size)
            else (None, Some chain, send_size)
        | _ =>
            if 0 <? send_size
            then (Some (before ++ [take (Z.to_nat send_size) b]), Some (drop (Z.to_nat send_size) b :: t), send_size)
            else (Some before, Some chain, send_size)
        end
  end.

(** From [keep_sending].  A round that is followed by another one sends at least one
    byte: one more round than there are bytes suffices. *)
Fixpoint keep_sending (fuel : nat) (buf : buffers) (e : TcpEntry) : outcome (option buffers * TcpEntry) :=
  match fuel with
  | O => Fail Diverges
  | S fuel =>
      let buf_len := buf_len buf in
      let window_size := SendWindowRemaining e in
      let send_size := Z.min window_size max_tcp_segment_size in
      if buf_len <=? send_size then e ← PcbSend (concat buf) e; Ok (None, e)
      else
        let '(sent, rest, send_size) := split_chain send_size [] buf in
        e ← match sent with Some s => PcbSend (concat s) e | None => Ok e end;
        if (max_tcp_segment_size <? buf_len) && (send_size <? window_size) then
          match rest with
          | None => Fail UndefinedBehaviour
          | Some buf => keep_sending fuel buf e
          end
        else Ok (rest, CloseWindow (SetWindowNotify true e))
  end.

Definition HandlerSend (buf : option buffers) (h : TcpHandler) : outcome TcpHandler :=
  match buf with
  | None => Fail AssertFailed
  | Some buf =>
      match buf_ h with
      | None =>
          '(rest, e) ← keep_sending (S (length (concat buf))) buf (entry h);
          Ok (mkHandler rest e (shutdown_ h) (destroyed h))
      | Some q => Ok (mkHandler (Some (q ++ buf)) (entry h) (shutdown_ h) (destroyed h))
      end
  end.

Definition SendWindowIncrease (h : TcpHandler) : outcome TcpHandler :=
  h ← HandlerSend (buf_ h) (mkHandler None (entry h) (shutdown_ h) (destroyed h));
  match buf_ h with
  | None => Ok (mkHandler None (OpenWindow (SetWindowNotify false (entry h))) (shutdown_ h) (shutdown_ h || destroyed h))
  | Some _ => Ok h
  end.

Definition Shutdown (h : TcpHandler) : TcpHandler :=
  match buf_ h with
  | Some _ => mkHandler (buf_ h) (entry h) true (destroyed h)
  | None => mkHandler (buf_ h) (entry h) (shutdown_ h) true
  end.

(** ** What is sent and what waits *)

(** The payload of the segments of a connection, in order. *)
Definition payload (e : TcpEntry) : list Z := concat (seg_data <$> unacked_segments e ++ pending_segments e).
Definition waiting (q : option buffers) : list Z := match q with Some q => concat q | None => [] end.

(** The data in flight is within the window of the peer, which is below 2^31. *)
Definition window_ok (e : TcpEntry) : Prop := u32 (snd_nxt e - snd_una e) <= snd_wnd e < 2 ^ 31.

Lemma window_remaining e : window_ok e -> SendWindowRemaining e = snd_wnd e - u32 (snd_nxt e - snd_una e).
Proof.
  intros [Hf Hw]. unfold SendWindowRemaining. pose proof (wrap_range 32 (snd_nxt e - snd_una e) ltac:(lia)) as Hr.
  unfold in_u in Hr. apply u32_small. unfold u32 in *. lia.
Qed.

(** [PcbSend] of data that fits. *)
Lemma PcbSend_spec data e : window_ok e -> Z.of_nat (length data) <= SendWindowRemaining e -> Z.of_nat (length data) <= max_tcp_segment_size ->
  exists e', PcbSend data e = Ok e' /\ payload e' = payload e ++ data /\ window_ok e' /\
    SendWindowRemaining e' = SendWindowRemaining e - Z.of_nat (length data) /\ window_notify e' = window_notify e.
Proof.
  intros Hw Hl Hm. unfold PcbSend. apply Z.leb_le in Hl as Hl', Hm as Hm'. rewrite Hl', Hm'. cbn [kassert]. rewrite !bind_Ok.
  eexists. split; [reflexivity |]. unfold Send, EnqueueSegment. change (has kTcpAck (Z.lor kTcpSyn kTcpFin)) with false.
  set (len := sizeofTcpHeader + 0 + _ - sizeofTcpHeader - 0 + 0).
  assert (len = Z.of_nat (length data)) as El by (unfold len; lia). rewrite El.
  rewrite (window_remaining e Hw) in Hl. destruct Hw as [Hf Hb].
  assert (u32 (u32 (snd_nxt e + Z.of_nat (length data)) - snd_una e) = u32 (snd_nxt e - snd_una e) + Z.of_nat (length data)) as Eu.
  { unfold u32, wrap in *. rewrite Zminus_mod_idemp_l.
    replace (snd_nxt e + Z.of_nat (length data) - snd_una e) with (snd_nxt e - snd_una e + Z.of_nat (length data)) by lia.
    rewrite <- Zplus_mod_idemp_l. apply Z.mod_small. pose proof (Z.mod_pos_bound (snd_nxt e - snd_una e) (2 ^ 32) ltac:(lia)). lia. }
  assert (window_ok (set_snd_nxt (u32 (snd_nxt e + Z.of_nat (length data))) e)) as Hw'.
  { unfold window_ok. cbn. rewrite Eu. lia. }
  split; [| split; [exact Hw' | split; [| done]]].
  - unfold payload. cbn. rewrite app_assoc, fmap_app, concat_app. cbn. by rewrite app_nil_r.
  - rewrite (window_remaining e) by done. etransitivity; [exact (window_remaining _ Hw') |]. cbn. lia.
Qed.

Lemma split_chain_spec chain : forall send_size before, 0 <= send_size -> send_size < buf_len chain ->
  (before = [] \/ 0 < send_size) ->
  exists sent rest size', split_chain send_size before chain = (sent, Some rest, size') /\
    waiting sent ++ concat rest = concat before ++ concat chain /\
    Z.of_nat (length (waiting sent)) = Z.of_nat (length (concat before)) + send_size /\
    (sent = None -> before = [] /\ send_size = 0) /\ 0 <= size' <= send_size.
Proof.
  induction chain as [|b t IH]; intros size before H0 Hl Hb; [unfold buf_len in Hl; cbn in Hl; lia |]. cbn [split_chain].
  assert (buf_len (b :: t) = Z.of_nat (length b) + buf_len t) as El by (unfold buf_len; cbn; rewrite length_app; lia).
  destruct (Z.ltb_spec (Z.of_nat (length b)) size) as [Hlt|Hge].
  - destruct (IH (size - Z.of_nat (length b)) (before ++ [b])) as (sent & rest & size' & E & Hw & Hlen & Hn & Hs); [lia | lia | right; lia |].
    exists sent, rest, size'. rewrite concat_app in Hw, Hlen. cbn in Hw, Hlen. rewrite app_nil_r in Hw, Hlen.
    split; [done |]. split; [by rewrite Hw, <- app_assoc |]. rewrite length_app in Hlen. split; [lia |].
    split; [| lia]. intros ->. destruct (Hn eq_refl) as [Hbad _]. by destruct before.
  - assert (length (take (Z.to_nat size) b) = Z.to_nat size) as Et by (rewrite length_take; lia).
    assert (take (Z.to_nat size) b ++ drop (Z.to_nat size) b ++ concat t = concat (b :: t)) as Ec.
    { rewrite app_assoc, take_drop. done. }
    destruct before as [|b' before]; destruct (Z.ltb_spec 0 size) as [Hp|Hz]; do 3 eexists; (split; [reflexivity |]);
      cbn [waiting concat]; rewrite ?app_nil_r.
    + split; [exact Ec |]. split; [cbn; lia |]. split; [done | lia].
    + split; [done |]. split; [cbn; lia |]. split; [intros _; split; [done | lia] | lia].
    + change (b' :: before ++ [take (Z.to_nat size) b]) with ((b' :: before) ++ [take (Z.to_nat size) b]).
      rewrite concat_app, <- app_assoc. cbn [concat]. rewrite app_nil_r. split; [f_equal; exact Ec |]. rewrite length_app, Et. split; [lia |].
      split; [done | lia].
    + exfalso. destruct Hb as [[=]|]. lia.
Qed.

(** From [keep_sending]: the data goes out in order as far as the window allows, and
    when some is left the window is empty and its growth will be notified. *)
Lemma keep_sending_spec fuel : forall buf e, window_ok e -> (length (concat buf) < fuel)%nat ->
  exists rest e', keep_sending fuel buf e = Ok (rest, e') /\ payload e' ++ waiting rest = payload e ++ concat buf /\ window_ok e' /\
    match rest with
    | Some _ => SendWindowRemaining e' = 0 /\ window_notify e' = true
    | None => window_notify e' = window_notify e
    end.
Proof.
  induction fuel as [|fuel IH]; intros buf e Hw Hf; [lia |]. cbn [keep_sending].
  pose proof (window_remaining e Hw) as Er. assert (0 <= SendWindowRemaining e) as Hr0.
  { rewrite Er. destruct Hw. lia. }
  assert (0 < max_tcp_segment_size) as Hmax by (cbv; done).
  set (size := Z.min (SendWindowRemaining e) max_tcp_segment_size). assert (0 <= size) by lia.
  destruct (Z.leb_spec (buf_len buf) size) as [Hfit|Hbig].
  { destruct (PcbSend_spec (concat buf) e Hw) as (e' & -> & Hp & Hw' & _ & Hn); [unfold buf_len in Hfit; lia | unfold buf_len in Hfit; lia |].
    rewrite bind_Ok. exists None, e'. split; [done |]. cbn [waiting]. by rewrite app_nil_r. }
  destruct (split_chain_spec buf size []) as (sent & rest & size' & -> & Hsplit & Hlen & Hnone & Hs'); [done | done | by left |].
  cbn [concat app length] in Hsplit, Hlen.
  assert (exists e', match sent with Some s => PcbSend (concat s) e | None => Ok e end = Ok e' /\ payload e' = payload e ++ waiting sent /\
    window_ok e' /\ SendWindowRemaining e' = SendWindowRemaining e - size /\ window_notify e' = window_notify e) as (e' & -> & Hp & Hw' & Hr' & Hn').
  { destruct sent as [s|]; cbn [waiting] in Hlen |- *.
    - destruct (PcbSend_spec (concat s) e Hw) as (e' & Es & Hrest); [lia | lia |]. exists e'. rewrite Es. split; [done |].
      destruct Hrest as (? & ? & ? & ?). split; [done |]. split; [done |]. split; [lia | done].
    - exists e. rewrite app_nil_r. destruct (Hnone eq_refl) as [_ Hz]. do 3 (split; [done |]). split; [lia | done]. }
  rewrite bind_Ok. destruct ((max_tcp_segment_size <? buf_len buf) && (size' <? SendWindowRemaining e)) eqn:Ec.
  - apply andb_prop in Ec as [_ Ec]. apply Z.ltb_lt in Ec.
    assert (0 < length (waiting sent))%nat as Hpos by lia. apply (f_equal length) in Hsplit as Hl. rewrite length_app in Hl.
    destruct (IH rest e' Hw' ltac:(lia)) as (r2 & e2 & E2 & Hp2 & Hw2 & Hn2). exists r2, e2. split; [done |].
    split; [by rewrite Hp2, Hp, <- app_assoc, Hsplit |]. split; [done |]. destruct r2; [done | congruence].
  - exists (Some rest), (CloseWindow (SetWindowNotify true e')). split; [done |].
    split; [change (payload (CloseWindow (SetWindowNotify true e'))) with (payload e'); cbn [waiting]; by rewrite Hp, <- app_assoc, Hsplit |].
    split; [exact Hw' |]. split; [| done]. change (SendWindowRemaining e' = 0). rewrite Hr'.
    apply andb_false_iff in Ec as [Ec|Ec]; apply Z.ltb_ge in Ec; lia.
Qed.

(** The growth of the window is notified exactly when data waits. *)
Definition notify_ok (h : TcpHandler) : Prop := window_notify (entry h) = true <-> buf_ h <> None.

(** C30. Sending: [Send] never fails on a handler whose connection is within its window,
    keeps the order of the data, loses none of it, and leaves some waiting only when
    the window of the peer is used up, with the notification on; when the window
    grows, the data that waited goes out first, and the notification is off as soon
    as nothing waits. *)
Theorem handler_send_correct h buf : window_ok (entry h) -> notify_ok h ->
  (exists h', HandlerSend (Some buf) h = Ok h' /\
     payload (entry h') ++ waiting (buf_ h') = payload (entry h) ++ waiting (buf_ h) ++ concat buf /\
     window_ok (entry h') /\ notify_ok h' /\
     (buf_ h = None -> buf_ h' <> None -> SendWindowRemaining (entry h') = 0)) /\
  (buf_ h <> None -> exists h', SendWindowIncrease h = Ok h' /\
     payload (entry h') ++ waiting (buf_ h') = payload (entry h) ++ waiting (buf_ h) /\
     window_ok (entry h') /\ notify_ok h' /\ (buf_ h' <> None -> SendWindowRemaining (entry h') = 0) /\
     (buf_ h' = None -> shutdown_ h = true -> destroyed h' = true)).
Proof.
  intros Hw Hn. split.
  - destruct h as [q e sd de]. cbn [entry buf_] in *. unfold HandlerSend. cbn [buf_ entry shutdown_ destroyed].
    destruct q as [q|].
    + eexists. split; [reflexivity |]. cbn [entry buf_ waiting]. rewrite concat_app. split; [done |]. split; [done |]. split; [| done].
      unfold notify_ok in *. cbn in *. rewrite Hn. done.
    + destruct (keep_sending_spec (S (length (concat buf))) buf e Hw ltac:(lia)) as (rest & e' & -> & Hp & Hw' & Hr). rewrite bind_Ok.
      eexists. split; [reflexivity |]. cbn [entry buf_ waiting]. split; [done |]. split; [done |].
      destruct rest as [r|]; [destruct Hr as [Hr1 Hr2]; split; [by split; cbn; [| rewrite Hr2] | done] |].
      split; [| done]. unfold notify_ok in *. cbn in *. by rewrite Hr.
  - intros Hq. destruct h as [q e sd de]. cbn [entry buf_ shutdown_] in *. destruct q as [q|]; [| done].
    unfold SendWindowIncrease, HandlerSend. cbn [buf_ entry shutdown_ destroyed].
    destruct (keep_sending_spec (S (length (concat q))) q e Hw ltac:(lia)) as (rest & e' & -> & Hp & Hw' & Hr). rewrite !bind_Ok. cbn [buf_ entry].
    destruct rest as [r|]; (eexists; split; [reflexivity |]); cbn [entry buf_ destroyed waiting shutdown_].
    + split; [done |]. split; [done |]. split; [by split; cbn; [| intros _; apply Hr] |]. split; [by intros _; apply Hr | done].
    + split; [exact Hp |]. split; [exact Hw' |]. split; [by split |]. split; [done |]. by intros _ ->.
Qed.

(** A connection with a window of five bytes, and eight bytes to send. *)
Definition demo_entry : TcpEntry :=
  mkEntry 0 ip_Any (ip_Any, 80, 80) [] [] [] kEstablished 1 1 5 0 0 1 kTcpWnd 1 false 0 0 true true false false.

Lemma handler_send_correct_witness : exists h', HandlerSend (Some [[1; 2; 3]; [4; 5; 6; 7; 8]]) (mkHandler None demo_entry false false) = Ok h' /\
  payload (entry h') ++ waiting (buf_ h') = [1; 2; 3; 4; 5; 6; 7; 8] /\ window_ok (entry h') /\ notify_ok h' /\
  (@None buffers = None -> buf_ h' <> None -> SendWindowRemaining (entry h') = 0).
Proof.
  refine (proj1 (handler_send_correct (mkHandler None demo_entry false false) [[1; 2; 3]; [4; 5; 6; 7; 8]] _ _)).
  - vm_compute. split; [discriminate | reflexivity].
  - split; [discriminate |]. intros H. by destruct H.
Defined.
